(* ===== verification/_CoqProject ===== *)
-Q . S2P
Prelude.v
Types.v
LinePointer.v
SlottedPage.v
Tuple.v
Visibility.v
Clog.v
TxnManager.v
LockManager.v
Deadlock.v
WalRecord.v
Superblock.v
PageAllocator.v
BtreeKey.v
BtreePage.v
BtreeNode.v
Analysis.v
WalSegment.v
Config.v
WalReader.v
WalWriter.v
WalDurable.v
WalCommit.v
Recovery.v
BufferPool.v
PoolSafe.v
PoolRace.v
Checkpoint.v
CheckpointSafe.v
CheckpointRun.v
HeapRedo.v
HeapPage.v
HeapChain.v
HeapDo.v
RowLock.v
RowSafe.v
RowRun.v
HeapAm.v
Catalog.v
CatalogSafe.v
CatalogRun.v
Sql.v
SqlSafe.v
SqlText.v
BtreeRedo.v
Engine.v
