(* ===== verification/Prelude.v ===== *)
(** * A verification library for the storage and transaction kernel

    The program is a database kernel in Rust, in six layered crates under
    [src/crates]: [pg-storage] (pages, write-ahead log, superblock, page
    allocator, buffer pool, recovery), [pg-txn] (transaction ids, commit log,
    snapshots, visibility, table locks, deadlock detection), [pg-am-heap]
    (slotted pages, tuples, the heap access method), [pg-am-btree] (keys, pages
    and the concurrent tree), [pg-catalog] and [pg-engine] (system tables, SQL).
    A transaction gets its id from the manager, writes tuples whose headers carry
    that id, and ends by appending a commit record to the log, forcing it to disk
    and recording the outcome in the commit log; readers decide what they see
    from a snapshot of the manager and the commit log; waits on rows and tables
    feed the deadlock detector.  After a crash the log is replayed.

    ** Files, in dependency order, and the source each one models

    - [Prelude] (this file): outcomes of Rust code, the state-and-error monad
      with its notation, little-endian codecs, bounds-checked slices, sorting,
      hint databases and tactics.
    - [Types]: [pg-storage/src/types.rs], [error.rs], [page.rs] (page header),
      [oid.rs], [txn_id.rs], [lsn_clock.rs].
    - [LinePointer]: [pg-am-heap/src/line_pointer.rs], [error.rs].
    - [SlottedPage]: [pg-am-heap/src/slotted_page.rs].
    - [Tuple]: [pg-am-heap/src/tuple.rs], [toast.rs].
    - [Visibility]: [pg-txn/src/snapshot.rs], [visibility.rs].
    - [Clog]: [pg-storage/src/clog.rs], [pg-txn/src/clog_mem.rs],
      [clog_file.rs], [clog_buffer.rs].
    - [TxnManager]: [pg-txn/src/manager.rs], [redo.rs], and the victim registry
      of [deadlock.rs].
    - [LockManager]: [pg-txn/src/lock_manager.rs].
    - [Deadlock]: [pg-txn/src/deadlock.rs].
    - [WalRecord]: [pg-storage/src/wal/record.rs].
    - [Superblock]: [pg-storage/src/superblock.rs].
    - [PageAllocator]: [pg-storage/src/page_allocator.rs], [freelist_meta.rs].
    - [BtreeKey]: [pg-am-btree/src/key.rs], [error.rs].
    - [BtreePage], [BtreeNode]: [pg-am-btree/src/page.rs], and the page-local
      searches and the choice of the split point of [index.rs].
    - [Analysis]: [pg-storage/src/analysis.rs].
    - [WalSegment], [WalReader], [WalWriter], [WalDurable]:
      [pg-storage/src/wal/segment.rs], [reader.rs], [writer.rs]; the last one
      holds the durability theorems.
    - [WalCommit]: [impl CommitWal for WalWriter] of [pg-txn/src/manager.rs].
    - [Config]: [pg-storage/src/config.rs].
    - [Recovery]: [pg-storage/src/recovery.rs] (context tables, handler registry,
      storage redo handlers).
    - [BufferPool], [PoolSafe], [PoolRace]: [pg-storage/src/buffer_pool.rs],
      [positioned_file.rs]; the step system with its invariant; one interleaving
      that breaks it.
    - [Checkpoint], [CheckpointSafe], [CheckpointRun]:
      [pg-storage/src/checkpoint.rs], [io.rs] ([write_atomic]); the durability
      theorem; concrete runs.
    - [HeapRedo]: [pg-am-heap/src/redo.rs], [undo.rs].
    - [HeapPage], [HeapChain], [HeapDo], [RowLock], [RowSafe], [RowRun],
      [HeapAm]: [pg-am-heap/src/heap_am.rs], [access_method.rs]: the page-local
      half of each operation, scans and version chains, the agreement of the
      operations with their redo, the row-lock gate, its safety, a run that loses
      a share lock, and the drivers over the buffer pool.
    - [BtreeRedo]: [pg-am-btree/src/redo.rs], and the split copy and
      compensation record of [index.rs].
    - [Engine]: the recovery sequence of [pg-storage/src/engine.rs].
    - [Catalog], [CatalogSafe], [CatalogRun]: all of [pg-catalog/src]; what
      opening it promises; an engine to run it on and a run that loses rows.
    - [Sql], [SqlSafe], [SqlText]: [pg-engine/src/sql.rs], [error.rs]; the grammar
      of token sequences; the grammar of characters, printing, and the theorems.

    A definition has the name of the function or type it translates, prefixed by
    the type for a constructor or method whose name is not unique ([LP_new],
    [TxnIdClock_alloc], [Superblock_read]).  Each file has the definitions first,
    then lemmas, then the properties with their witnesses.

    ** Conventions

    - Integers are [Z].  A value of width [w] lies in [0, 2^w) (or the
      two's-complement range); every operation that can leave it is written with
      its wrap-around ([mod 2^w], [wrap64]), as in a release build.
      [debug_assert!] is therefore not part of the model; [assert!], slices and
      indexing out of range, and [unwrap] on a failure are the outcome [Panic].
    - [Result] is [res] ([Ok], [Err], [Panic]).  Error enums keep their
      constructors and numeric fields; message strings are dropped.
    - A method on shared state is a function of the monad [M]: it returns an
      outcome and the state the code leaves behind, also on the error path.
    - A page is its 8192 bytes as a list (the 16 KiB build feature is not
      modelled).  A [HashMap] is a [gmap], a [HashSet] a [gset]; where the
      source sorts before returning, so does the model.
    - System calls that can fail consume a script of outcomes that the state
      carries; theorems quantify over all scripts.  [Superblock] lets a failing
      write leave any prefix of its bytes, which also describes a crash.
    - A blocking call is its loop body, one iteration at a time: it returns or
      goes to sleep.  Threads interleave through step relations ([step] of
      [TxnManager], [lstep] of [LockManager]) whose steps are the code between two
      lock operations; the sequential functions are proved to be runs of them.
    - Third-party code is a parameter with named laws: [crc32fast] is a function
      [crc32], [bincode] the class [Bincode].  Every law has an instance for
      which it is proved, so that no theorem is vacuous.

    ** Interfaces

    [ClogAccessor]/[ClogLaws] (what a commit log promises: implemented by the
    in-memory map and by the disk-backed cache), [CommitWal]/[CommitWalLaws]
    (append and flush of the log, as the manager uses it; instances [ListWal] and,
    in [WalCommit], the modelled [WalWriter]),
    [PageWal]/[PageWalLaws] (the log as the page allocator uses it; instance
    [LogWal]), [Bincode]/[BincodeLaws] and [Serde]/[SerdeLaws] (serialisation of
    fields and of structs).  [TxnManager] and [PageAllocator] are proved against
    the classes only.  [PagePool]/[PagePoolLaws] are the buffer pool as the redo
    handlers use it (an idealised pool: a map of pages; the theorems of
    [PoolSafe] give the same laws for the real one); [PoolWal]/[PoolWalLaws] and
    [CheckpointWal]/[CheckpointWalLaws] the log as the pool and the checkpoint
    use it; [ClogFlush] and [AttProvider] the traits through which a checkpoint
    reaches the transaction layer; [RowEnv]/[RowEnvLaws] the outcome of
    transactions and the waiting primitive as the row-lock gate sees them.
    [CatalogStorage]/[CatalogStorageLaws] are the storage engine as the catalog
    uses it; [Unicode]/[UnicodeLaws] the character tables of the tokenizer.

    A successful [flush_to] of a record's LSN promises, by the laws of
    [CommitWal], that every record before it is durable, and not the record
    itself: that is what the writer does, because [flush_to] takes a record that
    starts at the synced position for durable ([flush_to_returns_early] in
    [WalDurable]).  [FlushWithin] with 0 is the stronger promise of the comment in
    [manager.rs]; [ListWal] keeps it, and [writer_flush_may_miss_record] in
    [WalCommit] shows that the writer does not.  Likewise [CheckpointWalLaws] speak
    of the log up to the LSN of a record.

    ** What the theorems show

    - Transactions ([TxnManager]): snapshot isolation under every interleaving;
      an outcome is visible only when every record before its own is durable, and
      its own too when the log's flush covers it; replay of the durable log
      rebuilds every observed outcome, with at most that one exception, which
      [WalCommit] carries over to the writer's segment files; snapshots are well formed; no
      wake-up is lost; [commit_txn] is a run of the step system and its outcome on
      each branch.
    - Locks ([LockManager], [Deadlock]): no conflicting grants, no grantable
      waiter left asleep, first come first served, two-phase locking; the cycle
      search is exact and terminates; a detection round marks a member of each
      live cycle and nobody else.
    - Heap pages ([LinePointer], [SlottedPage], [Tuple]): the byte-level page
      refines a list of slots, keeps its layout invariant, never panics on
      arbitrary bytes; tuples and TOAST pointers round-trip.
    - Commit log ([Clog]): the clock-sweep cache over segment files gives the
      answers of a map, a flush makes them durable, addressing is injective, and
      garbage collection keeps aborted ids; one theorem exhibits a commit lost
      after a read error.
    - Visibility ([Visibility]): the production judgment equals the oracle and
      the declarative rule.
    - Storage formats ([Types], [WalRecord], [Superblock], [PageAllocator],
      [BtreeKey]): LSN ranges are disjoint; page headers, WAL records and
      payloads, freelist snapshots round-trip, and decoding accepts only what was
      encoded; a superblock update is atomic under any failing or torn call; a
      page has one owner, and recovery restores the freelist; encoded keys
      compare as their values do.  The superblock file keeps apart what was written
      and what was fsynced, and a crash leaves any mixture of the bytes.
    - The log ([WalReader], [WalWriter], [WalDurable]): what was appended is read
      back, a flush makes it durable, opening after a crash resumes behind the
      last whole record.  Durability is relative to the directory entries that
      were present and not fsynced when the writer was opened ([KeptEntries]):
      opening a fresh directory creates the first segment without an fsync of the
      directory (segment.rs:66), and a crash may lose it.
    - Buffer pool ([PoolSafe], [PoolRace]): under every interleaving of pins,
      latches, evictions and flushes guards stay sound, no page content is lost,
      a page reaches the file only behind its log records, a returned flush is
      durable; one theorem exhibits a race that breaks a page.
    - Checkpoints ([CheckpointSafe], [CheckpointRun]): when a checkpoint returns,
      every page that was dirty and the commit log are on disk before the
      superblock names it, the log has grown by the begin and the end record and
      was forced up to the latter; on every error path the superblock is the old
      one.
    - Recovery ([Analysis], [HeapRedo], [BtreeRedo], [Engine]): the scan finds
      exactly the unfinished transactions and touched pages; redo converges to
      the same pages from any mixture of old and new ones; losers are aborted.
    - Heap access method ([HeapChain], [HeapDo], [RowSafe], [RowRun]): a scan
      returns exactly the visible rows, a chain walk its visible member; an
      operation and the redo of its record give the same page; granted row locks
      do not conflict.
    - Tree pages ([BtreePage], [BtreeNode], [BtreeRedo]): the bytes refine a
      sorted list of entries, a split leaves room on the side that needs it, its
      copy step and its compensation survive a crash at any point.
    - Catalog ([CatalogSafe], [CatalogRun]): opening it returns for any bytes on
      the system pages, repairs a catalog without user tables, never rewrites one
      whose user rows can be read, and hands out new OIDs only; one theorem shows
      what happens when they cannot be read for a moment.
    - SQL ([SqlSafe], [SqlText]): the parser accepts exactly the sentences of the
      grammar, returns well-formed statements, and reads back what is printed.

    ** Fuel and bounds

    Loops without a structural argument take a bound that is proved enough:
    the clock sweep of the commit-log cache runs at most twice over the frames
    (a frame loses its reference bit on the first visit, so the second pass
    finds one); [regrant_heads] runs as often as the queue is long (each round
    removes a waiter); the cycle search has [dfs_fuel] (each edge is followed once
    and each node leaves the stack once), and a search cut short would be [None],
    which is proved not to happen; the slot scans of a page run over its
    slot count.  The read loops of the log run over the length of what they read,
    [zero_tail] and the record loop over [wal_limit], the end of the last
    segment; [write_loop] over the bytes left; the sweep of the pool over twice
    its frames; [seed_loop] over the pages of the file; a restart loop whose
    [debug_assert] bounds it by 9,999 has that fuel; chain walks run over the slot
    count of the page; the loops of the tokenizer and the parser run over the
    characters and tokens left, the allocation of system pages over the freelist
    and the missing ids.  [Panic] in the pool also stands for a call that would
    block for ever.  Ids are assumed not to exhaust [2^64]: the step system stops
    handing out ids at the last one.

    ** Not modelled

    Thread creation, channels, timers and statistics; [Display] and logging; the
    Windows variants of the file operations and the lock wrappers of [sync.rs];
    the background loop of the deadlock detector; the descent and the drivers of
    the tree with its undo, bulk load and access method; the execution of SQL
    statements.  The last two are drivers over what is modelled here.  A pin of
    the buffer pool with its eviction, write-back and load is one step: the window
    in which [evict_frame] has released the metadata lock with the evicting flag set
    is not interleaved with other threads. *)

From stdpp Require Export base numbers list gmap sorting.
From Stdlib Require Export ZArith Lia.

#[export] Set Default Goal Selector "!".
#[export] Set Warnings "-clear-no-such-hyp".

(** ** Outcomes of Rust code

    [Ok]/[Err] are [Result::Ok]/[Result::Err]; [Panic] is an unwinding panic
    (failed [assert!], out-of-range slice, [unreachable!], checked-arithmetic
    capacity overflow). *)

Inductive res (E A : Type) : Type :=
| Ok (a : A)
| Err (e : E)
| Panic.
Arguments Ok {E A} a.
Arguments Err {E A} e.
Arguments Panic {E A}.

Definition res_bind {E A B : Type} (m : res E A) (f : A -> res E B) : res E B :=
  match m with
  | Ok a => f a
  | Err e => Err e
  | Panic => Panic
  end.

Definition map_err {E F A : Type} (f : E -> F) (m : res E A) : res F A :=
  match m with
  | Ok a => Ok a
  | Err e => Err (f e)
  | Panic => Panic
  end.

Definition res_is_ok {E A : Type} (m : res E A) : bool :=
  match m with Ok _ => true | _ => false end.

Declare Scope rust_scope.
Delimit Scope rust_scope with rust.
Notation "'let?' x ':=' m 'in' k" := (res_bind m (fun x => k))
  (at level 10, x name, m at level 100, k at level 200,
   format "'[v' 'let?'  x  ':='  m  'in' '/' k ']'") : rust_scope.
Notation "'let?' ' p ':=' m 'in' k" := (res_bind m (fun x => match x with p => k end))
  (at level 10, p strict pattern, m at level 100, k at level 200) : rust_scope.
(** Stateful fallible code: the state survives an error or a panic, as the
    fields behind a Rust [&self] do. *)
Definition M (S E A : Type) : Type := S -> res E A * S.

Definition mret {S E A : Type} (a : A) : M S E A := fun s => (Ok a, s).
Definition mthrow {S E A : Type} (e : E) : M S E A := fun s => (Err e, s).
Definition mpanic {S E A : Type} : M S E A := fun s => (Panic, s).
Definition mget {S E : Type} : M S E S := fun s => (Ok s, s).
Definition mput {S E : Type} (s : S) : M S E unit := fun _ => (Ok tt, s).
Definition mmodify {S E : Type} (f : S -> S) : M S E unit := fun s => (Ok tt, f s).

Definition mbindM {S E A B : Type} (m : M S E A) (k : A -> M S E B) : M S E B := fun s =>
  match m s with
  | (Ok a, s') => k a s'
  | (Err e, s') => (Err e, s')
  | (Panic, s') => (Panic, s')
  end.

(** [m.unwrap_or_else(|e| panic!(..))]. *)
Definition munwrap {S E F A : Type} (m : M S E A) : M S F A := fun s =>
  match m s with
  | (Ok a, s') => (Ok a, s')
  | (_, s') => (Panic, s')
  end.

Notation "'let!' x ':=' m 'in' k" := (mbindM m (fun x => k))
  (at level 10, x name, m at level 100, k at level 200,
   format "'[v' 'let!'  x  ':='  m  'in' '/' k ']'") : rust_scope.
Notation "m ';!' k" := (mbindM m (fun _ => k))
  (at level 60, right associativity) : rust_scope.

Abbreviation zlen l := (Z.of_nat (length l)).

#[export] Instance res_eq_dec (E A : Type) `{EqDecision E} `{EqDecision A} : EqDecision (res E A).
Proof. solve_decision. Defined.

(** ** Bytes, little-endian integers and slices

    Machine integers are [Z]; a byte string is a [list Z] whose elements are
    in [0, 256).  A Rust range [buf[a..b]] is [slice a (b - a) buf]; the
    assignment [buf[a..b].copy_from_slice(bs)] is [splice a bs buf], which keeps
    the length of [buf] (Rust panics when the range does not fit, which every
    caller rules out or models as [Panic]). *)

Definition is_byte (b : Z) : Prop := (0 <= b < 256)%Z.
Abbreviation wf_bytes := (Forall is_byte).

Definition in_u (w : Z) (x : Z) : Prop := (0 <= x < 2 ^ w)%Z.

Fixpoint le_bytes (n : nat) (x : Z) : list Z :=
  match n with
  | O => []
  | S n => (x mod 256)%Z :: le_bytes n (x / 256)
  end.

Fixpoint le_val (bs : list Z) : Z :=
  match bs with
  | [] => 0
  | b :: bs => b + 256 * le_val bs
  end%Z.

Definition be_bytes (n : nat) (x : Z) : list Z := rev (le_bytes n x).
Definition be_val (bs : list Z) : Z := le_val (rev bs).

Definition slice {A : Type} (off n : Z) (l : list A) : list A :=
  take (Z.to_nat n) (drop (Z.to_nat off) l).

Definition splice {A : Type} (off : Z) (bs l : list A) : list A :=
  take (Z.to_nat off) l
    ++ take (length l - Z.to_nat off) bs
    ++ drop (Z.to_nat off + length bs) l.

(** The bounds-checked forms: [buf[off..off + n]] and
    [buf[off..off + bs.len()].copy_from_slice(bs)] panic out of range. *)
Definition slice_get {E A : Type} (off n : Z) (l : list A) : res E (list A) :=
  if ((0 <=? off) && (0 <=? n) && (off + n <=? Z.of_nat (length l)))%Z
  then Ok (slice off n l) else Panic.

Definition slice_set {E A : Type} (off : Z) (bs l : list A) : res E (list A) :=
  if ((0 <=? off) && (off + Z.of_nat (length bs) <=? Z.of_nat (length l)))%Z
  then Ok (splice off bs l) else Panic.

(** [assert!]. *)
Definition rassert {E A : Type} (b : bool) (k : res E A) : res E A := if b then k else Panic.

Definition get_le (n : nat) (off : Z) (p : list Z) : Z := le_val (slice off (Z.of_nat n) p).
Definition put_le (n : nat) (off x : Z) (p : list Z) : list Z := splice off (le_bytes n x) p.

Definition zeros (n : Z) : list Z := replicate (Z.to_nat n) 0%Z.

(** Two's complement view of a [w]-bit word. *)
Definition to_signed (w x : Z) : Z := if decide (x < 2 ^ (w - 1))%Z then x else (x - 2 ^ w)%Z.
Definition to_unsigned (w x : Z) : Z := (x mod 2 ^ w)%Z.
Definition in_i (w x : Z) : Prop := (- 2 ^ (w - 1) <= x < 2 ^ (w - 1))%Z.

(** [Vec::sort_unstable] and [Vec::dedup] on integers. *)
Definition zsort (l : list Z) : list Z := merge_sort Z.le l.

Fixpoint dedup {A : Type} `{EqDecision A} (l : list A) : list A :=
  match l with
  | [] => []
  | x :: l' =>
      match l' with
      | [] => [x]
      | y :: _ => if decide (x = y) then dedup l' else x :: dedup l'
      end
  end.

(** ** Lemmas: outcomes *)

Lemma res_bind_ok {E A B} (m : res E A) (f : A -> res E B) b :
  res_bind m f = Ok b -> exists a, m = Ok a /\ f a = Ok b.
Proof. destruct m; simpl; intros; try discriminate; eauto. Qed.

Lemma res_bind_err {E A B} (m : res E A) (f : A -> res E B) e :
  res_bind m f = Err e -> m = Err e \/ exists a, m = Ok a /\ f a = Err e.
Proof. destruct m; simpl; intros; try discriminate; naive_solver. Qed.

Lemma Ok_inj {E A} (a b : A) : Ok (E:=E) a = Ok b -> a = b.
Proof. congruence. Qed.

Lemma mbindM_ok {S E A B} (m : M S E A) (k : A -> M S E B) s b s' :
  mbindM m k s = (Ok b, s') -> exists a s1, m s = (Ok a, s1) /\ k a s1 = (Ok b, s').
Proof. unfold mbindM. destruct (m s) as [[a|e|] s1]; intros; try discriminate; eauto. Qed.

Lemma munwrap_ok {S E F A} (m : M S E A) s a s' :
  munwrap (F:=F) m s = (Ok a, s') -> m s = (Ok a, s').
Proof. unfold munwrap. destruct (m s) as [[]]; congruence. Qed.

(** Peel one successful [let!] off a hypothesis. *)
Ltac inv_mbind H :=
  let a := fresh "a" in let s1 := fresh "s1" in let Ha := fresh "Ha" in
  apply mbindM_ok in H as (a & s1 & Ha & H).

(** Peel one successful [let?] off a hypothesis. *)
Ltac inv_bind H :=
  let a := fresh "a" in let Ha := fresh "Ha" in
  apply res_bind_ok in H as (a & Ha & H).

(** Case split on the innermost scrutinee of the goal or of [H]. *)
Ltac case_if H :=
  match type of H with
  | context [if ?b then _ else _] => destruct b eqn:?; try discriminate
  end.

(** Move boolean comparisons on [Z] to propositions everywhere. *)
Ltac zbool :=
  repeat match goal with
  | H : _ && _ = true |- _ => apply andb_true_iff in H as [? ?]
  | H : _ || _ = false |- _ => apply orb_false_iff in H as [? ?]
  | H : negb _ = true |- _ => apply negb_true_iff in H
  | H : negb _ = false |- _ => apply negb_false_iff in H
  | H : (_ <? _)%Z = true |- _ => apply Z.ltb_lt in H
  | H : (_ <? _)%Z = false |- _ => apply Z.ltb_ge in H
  | H : (_ <=? _)%Z = true |- _ => apply Z.leb_le in H
  | H : (_ <=? _)%Z = false |- _ => apply Z.leb_gt in H
  | H : (_ >? _)%Z = true |- _ => rewrite Z.gtb_ltb in H
  | H : (_ >? _)%Z = false |- _ => rewrite Z.gtb_ltb in H
  | H : (_ >=? _)%Z = true |- _ => rewrite Z.geb_leb in H
  | H : (_ >=? _)%Z = false |- _ => rewrite Z.geb_leb in H
  | H : (_ =? _)%Z = true |- _ => apply Z.eqb_eq in H
  | H : (_ =? _)%Z = false |- _ => apply Z.eqb_neq in H
  | H : bool_decide _ = true |- _ => apply bool_decide_eq_true in H
  | H : bool_decide _ = false |- _ => apply bool_decide_eq_false in H
  end.

(** ** Lemmas: little-endian integers *)

Section le.
Local Open Scope Z_scope.

Lemma length_le_bytes n x : length (le_bytes n x) = n.
Proof. revert x; induction n; simpl; auto. Qed.

Lemma wf_le_bytes n x : wf_bytes (le_bytes n x).
Proof.
  revert x; induction n; simpl; constructor; auto.
  unfold is_byte. pose proof (Z.mod_pos_bound x 256). lia.
Qed.

Lemma le_val_le_bytes n x : le_val (le_bytes n x) = x mod 256 ^ Z.of_nat n.
Proof.
  revert x; induction n; intros x.
  { simpl. by rewrite Z.mod_1_r. }
  cbn [le_bytes le_val]. rewrite IHn, Nat2Z.inj_succ, Z.pow_succ_r by lia.
  rewrite (Z.rem_mul_r x 256 (256 ^ Z.of_nat n)) by lia. lia.
Qed.

Lemma le_val_le_bytes_id n x :
  0 <= x < 256 ^ Z.of_nat n -> le_val (le_bytes n x) = x.
Proof. intros. rewrite le_val_le_bytes. by apply Z.mod_small. Qed.

Lemma le_val_bound bs : wf_bytes bs -> 0 <= le_val bs < 256 ^ zlen bs.
Proof.
  induction 1 as [|b bs Hb _ IH]; cbn [le_val length]; [lia|].
  rewrite Nat2Z.inj_succ, Z.pow_succ_r by lia. unfold is_byte in Hb. lia.
Qed.

Lemma le_bytes_le_val bs : wf_bytes bs -> le_bytes (length bs) (le_val bs) = bs.
Proof.
  induction 1 as [|b bs Hb _ IH]; cbn [le_val length le_bytes]; [done|].
  unfold is_byte in Hb. f_equal.
  - rewrite Z.mul_comm, Z_mod_plus_full. by apply Z.mod_small.
  - rewrite Z.mul_comm, Z_div_plus_full by lia.
    rewrite (Z.div_small b) by lia. by rewrite Z.add_0_l.
Qed.

Lemma le_val_inj bs bs' :
  wf_bytes bs -> wf_bytes bs' -> length bs = length bs' ->
  le_val bs = le_val bs' -> bs = bs'.
Proof.
  intros H1 H2 Hl He.
  rewrite <-(le_bytes_le_val bs), <-(le_bytes_le_val bs') by done. congruence.
Qed.

Lemma length_be_bytes n x : length (be_bytes n x) = n.
Proof. unfold be_bytes. by rewrite length_rev, length_le_bytes. Qed.

Lemma wf_be_bytes n x : wf_bytes (be_bytes n x).
Proof. apply Forall_rev, wf_le_bytes. Qed.

Lemma be_val_be_bytes n x :
  0 <= x < 256 ^ Z.of_nat n -> be_val (be_bytes n x) = x.
Proof. intros. unfold be_val, be_bytes. rewrite rev_involutive. by apply le_val_le_bytes_id. Qed.

Lemma be_bytes_be_val bs : wf_bytes bs -> be_bytes (length bs) (be_val bs) = bs.
Proof.
  intros H. unfold be_val, be_bytes. rewrite <-length_rev.
  rewrite le_bytes_le_val by by apply Forall_rev. apply rev_involutive.
Qed.

Lemma to_unsigned_signed w x : 0 < w -> 0 <= x < 2 ^ w -> to_unsigned w (to_signed w x) = x.
Proof.
  intros Hw Hx. unfold to_unsigned, to_signed. case_decide.
  - by apply Z.mod_small.
  - rewrite <-(Z.mod_small x (2 ^ w)) at 2 by done.
    rewrite <-(Z_mod_plus_full (x - 2 ^ w) 1 (2 ^ w)). f_equal; lia.
Qed.

Lemma to_signed_unsigned w x : 0 < w -> in_i w x -> to_signed w (to_unsigned w x) = x.
Proof.
  intros Hw [Hl Hu]. unfold to_unsigned, to_signed.
  assert (H2 : 2 ^ w = 2 * 2 ^ (w - 1)) by (rewrite <-Z.pow_succ_r by lia; f_equal; lia).
  destruct (decide (0 <= x)).
  - rewrite Z.mod_small by lia. case_decide; lia.
  - replace (x mod 2 ^ w) with (x + 2 ^ w).
    + case_decide; lia.
    + rewrite <-(Z_mod_plus_full x 1 (2 ^ w)). rewrite Z.mod_small; lia.
Qed.

Lemma to_unsigned_range w x : 0 < w -> 0 <= to_unsigned w x < 2 ^ w.
Proof. intros. unfold to_unsigned. apply Z.mod_pos_bound. lia. Qed.

Lemma to_signed_range w x : 0 < w -> 0 <= x < 2 ^ w -> in_i w (to_signed w x).
Proof.
  intros. unfold in_i, to_signed.
  assert (H2 : 2 ^ w = 2 * 2 ^ (w - 1)) by (rewrite <-Z.pow_succ_r by lia; f_equal; lia).
  case_decide; lia.
Qed.

End le.

(** ** Lemmas: packed bit fields *)

Section bits.
Local Open Scope Z_scope.

Lemma lor_shiftl_add a b n :
  0 <= n -> 0 <= a < 2 ^ n -> Z.lor a (Z.shiftl b n) = a + b * 2 ^ n.
Proof.
  intros Hn Ha. rewrite <-Z.add_nocarry_lor; [by rewrite Z.shiftl_mul_pow2|].
  apply Z.bits_inj'. intros k Hk. rewrite Z.land_spec, Z.bits_0.
  destruct (decide (k < n)).
  - rewrite Z.shiftl_spec_low by done. by rewrite andb_false_r.
  - rewrite <-(Z.mod_small a (2 ^ n)) by done.
    by rewrite Z.mod_pow2_bits_high by lia.
Qed.

Lemma field_low a b n : 0 < n -> 0 <= a < n -> (a + b * n) mod n = a.
Proof. intros. rewrite Z_mod_plus_full. by apply Z.mod_small. Qed.

Lemma field_high a b n : 0 < n -> 0 <= a < n -> (a + b * n) / n = b.
Proof. intros. rewrite Z_div_plus_full by lia. rewrite Z.div_small by lia. lia. Qed.

End bits.

(** ** Lemmas: slices and splices *)

Section slices.
Context {A : Type}.
Implicit Types (l bs : list A).
Local Open Scope Z_scope.

Lemma lookup_slice off n l (i : nat) :
  slice off n l !! i = if decide (i < Z.to_nat n)%nat then l !! (Z.to_nat off + i)%nat else None.
Proof.
  unfold slice. case_decide.
  - by rewrite lookup_take_lt, lookup_drop by lia.
  - by rewrite lookup_take_ge by lia.
Qed.

Lemma lookup_splice off bs l (i : nat) :
  splice off bs l !! i =
    if decide (Z.to_nat off <= i < Z.to_nat off + length bs)%nat
    then (if decide (i < length l)%nat then bs !! (i - Z.to_nat off)%nat else None)
    else l !! i.
Proof.
  unfold splice. destruct (decide (i < length l)%nat) as [Hi|Hi].
  - rewrite !lookup_app, !length_take.
    destruct (decide (i < Z.to_nat off)%nat).
    + rewrite lookup_take_lt by lia.
      destruct (l !! i) eqn:E; [by rewrite decide_False by lia|].
      apply lookup_ge_None in E. lia.
    + rewrite (lookup_ge_None_2 (take _ l)) by (rewrite length_take; lia).
      case_decide.
      * rewrite lookup_take_lt by lia. rewrite Nat.min_l by lia.
        destruct (bs !! _) eqn:E; [done|]. apply lookup_ge_None in E. lia.
      * rewrite lookup_ge_None_2 by (rewrite length_take; lia).
        rewrite lookup_drop. f_equal. lia.
  - rewrite (lookup_ge_None_2 l) by lia. rewrite lookup_ge_None_2; [by case_decide|].
    rewrite !length_app, !length_take, length_drop. lia.
Qed.

Lemma length_slice off n l :
  0 <= off -> 0 <= n -> off + n <= zlen l -> length (slice off n l) = Z.to_nat n.
Proof. intros. unfold slice. rewrite length_take, length_drop. lia. Qed.

Lemma length_splice off bs l : length (splice off bs l) = length l.
Proof. unfold splice. rewrite !length_app, !length_take, length_drop. lia. Qed.

Lemma slice_get_ok {E} off n l :
  0 <= off -> 0 <= n -> off + n <= zlen l -> slice_get (E:=E) off n l = Ok (slice off n l).
Proof.
  intros. unfold slice_get. rewrite !(proj2 (Z.leb_le _ _)) by lia. done.
Qed.

Lemma slice_set_ok {E} off bs l :
  0 <= off -> off + zlen bs <= zlen l -> slice_set (E:=E) off bs l = Ok (splice off bs l).
Proof.
  intros. unfold slice_set. rewrite !(proj2 (Z.leb_le _ _)) by lia. done.
Qed.

Lemma slice_splice_same off n bs l :
  0 <= off -> n = zlen bs -> off + n <= zlen l -> slice off n (splice off bs l) = bs.
Proof.
  intros ? -> ?. apply list_eq; intros i. rewrite lookup_slice, lookup_splice.
  repeat case_decide; try lia; [f_equal; lia|].
  symmetry. apply lookup_ge_None. lia.
Qed.

Lemma slice_splice_disj off n off' bs l :
  0 <= off -> 0 <= off' -> off + n <= off' \/ off' + zlen bs <= off ->
  slice off n (splice off' bs l) = slice off n l.
Proof.
  intros ?? Hd. apply list_eq; intros i. rewrite !lookup_slice, lookup_splice.
  repeat case_decide; try done; lia.
Qed.

(** A slice that contains the spliced range, relocated. *)
Lemma slice_splice_inner off n off' bs l :
  0 <= off -> off <= off' -> off' + zlen bs <= off + n -> off + n <= zlen l ->
  slice off n (splice off' bs l) = splice (off' - off) bs (slice off n l).
Proof.
  intros ????. apply list_eq; intros i.
  rewrite lookup_splice, !lookup_slice, lookup_splice, length_slice by lia.
  repeat case_decide; try done; try lia. f_equal; lia.
Qed.

(** A slice inside the spliced range reads the new bytes. *)
Lemma slice_splice_within off n off' bs l :
  0 <= off' -> off' <= off -> 0 <= n -> off + n <= off' + zlen bs -> off' + zlen bs <= zlen l ->
  slice off n (splice off' bs l) = slice (off - off') n bs.
Proof.
  intros ?????. apply list_eq; intros i. rewrite !lookup_slice, lookup_splice.
  repeat case_decide; try done; try lia. f_equal; lia.
Qed.

Lemma slice_slice a n b m l :
  0 <= a -> 0 <= b -> a + n <= m -> slice a n (slice b m l) = slice (b + a) n l.
Proof.
  intros ???. apply list_eq; intros i. rewrite !lookup_slice.
  repeat case_decide; try done; try lia. f_equal; lia.
Qed.

Lemma slice_all n l : n = zlen l -> slice 0 n l = l.
Proof. intros ->. unfold slice. rewrite Nat2Z.id. simpl. by rewrite firstn_all. Qed.

Lemma slice_nil off n l : n <= 0 -> slice off n l = [].
Proof. intros. unfold slice. replace (Z.to_nat n) with 0%nat by lia. done. Qed.

Lemma slice_app_l off n l bs :
  0 <= off -> off + n <= zlen l -> slice off n (l ++ bs) = slice off n l.
Proof.
  intros. apply list_eq; intros i. rewrite !lookup_slice. case_decide; [|done].
  apply lookup_app_l. lia.
Qed.

Lemma slice_app_r off n l bs :
  zlen l <= off -> slice off n (l ++ bs) = slice (off - zlen l) n bs.
Proof.
  intros. apply list_eq; intros i. rewrite !lookup_slice. case_decide; [|done].
  rewrite lookup_app_r by lia. f_equal. lia.
Qed.

Lemma slice_app_exact n l bs : n = zlen l -> slice 0 n (l ++ bs) = l.
Proof. intros ->. rewrite slice_app_l by lia. by apply slice_all. Qed.

Lemma slice_split off n m l :
  0 <= off -> 0 <= n -> 0 <= m ->
  slice off (n + m) l = slice off n l ++ slice (off + n) m l.
Proof.
  intros. unfold slice. rewrite Z2Nat.inj_add by lia.
  rewrite <-take_take_drop, drop_drop. f_equal. f_equal. f_equal. lia.
Qed.

Lemma splice_app_l off bs l1 l2 :
  0 <= off -> off + zlen bs <= zlen l1 ->
  splice off bs (l1 ++ l2) = splice off bs l1 ++ l2.
Proof.
  intros. apply list_eq; intros i.
  rewrite lookup_splice, !lookup_app, lookup_splice, length_splice, length_app.
  repeat case_decide; try done; try lia.
  - destruct (bs !! _) eqn:E; [done|]. apply lookup_ge_None in E. lia.
Qed.

Lemma splice_all bs l : length bs = length l -> splice 0 bs l = bs.
Proof.
  intros He. unfold splice. simpl. rewrite Nat.sub_0_r, firstn_all2, He, skipn_all by lia.
  by rewrite app_nil_r.
Qed.

Lemma slice_lookup_total off l d :
  0 <= off < zlen l -> slice off 1 l = [nth (Z.to_nat off) l d].
Proof.
  intros. unfold slice. change (Z.to_nat 1) with 1%nat.
  destruct (drop (Z.to_nat off) l) as [|x r] eqn:E.
  - apply (f_equal length) in E. rewrite length_drop in E. simpl in E. lia.
  - simpl. f_equal. rewrite <-(Nat.add_0_r (Z.to_nat off)).
    rewrite <-nth_skipn. change (skipn ?n ?k) with (drop n k). by rewrite E.
Qed.

Lemma Forall_slice (P : A -> Prop) off n l : Forall P l -> Forall P (slice off n l).
Proof. intros. by apply Forall_take, Forall_drop. Qed.

Lemma Forall_splice (P : A -> Prop) off bs l :
  Forall P l -> Forall P bs -> Forall P (splice off bs l).
Proof.
  intros. unfold splice. rewrite !Forall_app.
  repeat split; [by apply Forall_take|by apply Forall_take|by apply Forall_drop].
Qed.

End slices.

(** ** Lemmas: integer fields of a buffer *)

Section fields.
Local Open Scope Z_scope.
Implicit Types (p : list Z).

Lemma length_put_le n off x p : length (put_le n off x p) = length p.
Proof. apply length_splice. Qed.

Lemma get_put_same n off x p :
  0 <= off -> off + Z.of_nat n <= zlen p -> 0 <= x < 256 ^ Z.of_nat n ->
  get_le n off (put_le n off x p) = x.
Proof.
  intros. unfold get_le, put_le.
  rewrite slice_splice_same by (rewrite ?length_le_bytes; lia).
  by apply le_val_le_bytes_id.
Qed.

Lemma get_put_disj n off m off' x p :
  0 <= off -> 0 <= off' -> off + Z.of_nat n <= off' \/ off' + Z.of_nat m <= off ->
  get_le n off (put_le m off' x p) = get_le n off p.
Proof.
  intros. unfold get_le, put_le.
  by rewrite slice_splice_disj by (rewrite ?length_le_bytes; lia).
Qed.

Lemma get_splice_disj n off off' bs p :
  0 <= off -> 0 <= off' -> off + Z.of_nat n <= off' \/ off' + zlen bs <= off ->
  get_le n off (splice off' bs p) = get_le n off p.
Proof. intros. unfold get_le. by rewrite slice_splice_disj by lia. Qed.

Lemma slice_put_disj off n m off' x p :
  0 <= off -> 0 <= off' -> off + n <= off' \/ off' + Z.of_nat m <= off ->
  slice off n (put_le m off' x p) = slice off n p.
Proof. intros. unfold put_le. by rewrite slice_splice_disj by (rewrite ?length_le_bytes; lia). Qed.

Lemma slice_put_same n off k x p :
  0 <= off -> k = Z.of_nat n -> off + k <= zlen p ->
  slice off k (put_le n off x p) = le_bytes n x.
Proof.
  intros ? -> ?. unfold put_le. apply slice_splice_same; [lia|by rewrite length_le_bytes|lia].
Qed.

Lemma get_le_skip n off l b :
  zlen l <= off -> get_le n off (l ++ b) = get_le n (off - zlen l) b.
Proof. intros. unfold get_le. by rewrite slice_app_r by lia. Qed.

Lemma get_le_head n x b : 0 <= x < 256 ^ Z.of_nat n -> get_le n 0 (le_bytes n x ++ b) = x.
Proof.
  intros. unfold get_le. rewrite slice_app_exact by (by rewrite length_le_bytes).
  by apply le_val_le_bytes_id.
Qed.

Lemma get_le_app_l n off l b :
  0 <= off -> off + Z.of_nat n <= zlen l -> get_le n off (l ++ b) = get_le n off l.
Proof. intros. unfold get_le. by rewrite slice_app_l by lia. Qed.

Lemma get_le_take n off k p :
  0 <= off -> off + Z.of_nat n <= Z.of_nat k -> get_le n off (take k p) = get_le n off p.
Proof.
  intros. unfold get_le. f_equal. apply list_eq; intros i. rewrite !lookup_slice.
  case_decide; [|done]. by rewrite lookup_take_lt by lia.
Qed.

Lemma le_bytes_get_le n off k p :
  wf_bytes p -> k = Z.of_nat n -> 0 <= off -> off + k <= zlen p ->
  le_bytes n (get_le n off p) = slice off k p.
Proof.
  intros Hp -> ??. unfold get_le.
  rewrite <-(le_bytes_le_val (slice off (Z.of_nat n) p)) at 2 by (by apply Forall_slice).
  by rewrite length_slice, Nat2Z.id by lia.
Qed.

Lemma get_le_bound n off p :
  wf_bytes p -> 0 <= off -> off + Z.of_nat n <= zlen p ->
  0 <= get_le n off p < 256 ^ Z.of_nat n.
Proof.
  intros Hp ??. unfold get_le.
  pose proof (le_val_bound (slice off (Z.of_nat n) p) (Forall_slice _ _ _ _ Hp)) as Hb.
  rewrite length_slice, Nat2Z.id in Hb by lia. done.
Qed.

Lemma wf_put_le n off x p : wf_bytes p -> wf_bytes (put_le n off x p).
Proof. intros. apply Forall_splice; [done|apply wf_le_bytes]. Qed.

Lemma length_zeros n : length (zeros n) = Z.to_nat n.
Proof. apply length_replicate. Qed.

Lemma wf_zeros n : wf_bytes (zeros n).
Proof. apply Forall_replicate. unfold is_byte. lia. Qed.

Lemma slice_zeros off n m :
  0 <= off -> 0 <= n -> off + n <= m -> slice off n (zeros m) = zeros n.
Proof.
  intros. unfold slice, zeros. rewrite drop_replicate, take_replicate. f_equal. lia.
Qed.

Lemma le_val_zeros n : le_val (zeros n) = 0.
Proof. unfold zeros. induction (Z.to_nat n) as [|k IH]; simpl; lia. Qed.

Lemma get_zeros n off m :
  0 <= off -> off + Z.of_nat n <= m -> get_le n off (zeros m) = 0.
Proof. intros. unfold get_le. rewrite slice_zeros by lia. apply le_val_zeros. Qed.

End fields.

(** ** Automation

    [bytes] rewrites field reads through field writes, discharging the range
    side conditions with [lia] after the lengths are normalised. *)

Create HintDb wf discriminated.
#[export] Hint Resolve wf_le_bytes wf_be_bytes wf_put_le wf_zeros Forall_slice Forall_splice : wf.

Create Rewrite HintDb lens.
Global Hint Rewrite @length_splice @length_put_le length_le_bytes length_be_bytes length_zeros : lens.

Ltac lens := autorewrite with lens in *.
Ltac len_lia := repeat (rewrite ?length_splice, ?length_put_le, ?length_le_bytes,
                          ?length_be_bytes, ?length_zeros); lia.

Ltac bytes :=
  repeat first
    [ rewrite get_put_same by len_lia
    | rewrite get_put_disj by len_lia
    | rewrite get_splice_disj by len_lia
    | rewrite slice_splice_same by len_lia
    | rewrite slice_splice_disj by len_lia
    | rewrite slice_put_disj by len_lia
    | rewrite get_zeros by len_lia ].

(** [get_le n off (f1 ++ f2 ++ ...) = x] where the fields before [off] and the
    field read are little-endian integers. *)
Ltac read_field :=
  repeat (rewrite get_le_skip by (rewrite ?length_le_bytes; lia); rewrite length_le_bytes);
  match goal with |- get_le _ ?o _ = _ => replace o with 0%Z by lia end;
  apply get_le_head; unfold in_u in *; simpl in *; lia.

(** ** Lemmas: sorting *)

Section sorting.
Local Open Scope Z_scope.

Lemma zsort_perm l : zsort l ≡ₚ l.
Proof. apply merge_sort_Permutation. Qed.

Lemma zsort_sorted l : StronglySorted Z.le (zsort l).
Proof. apply (StronglySorted_merge_sort Z.le). Qed.

Lemma elem_of_zsort x l : x ∈ zsort l <-> x ∈ l.
Proof. by rewrite zsort_perm. Qed.

Lemma elem_of_dedup {A} `{EqDecision A} (x : A) l : x ∈ dedup l <-> x ∈ l.
Proof.
  induction l as [|a l IH]; [done|]. simpl. destruct l as [|b l]; [done|].
  case_decide as Hab.
  - subst b. rewrite IH, !elem_of_cons. tauto.
  - rewrite elem_of_cons, IH. by rewrite (elem_of_cons (b :: l)).
Qed.

Lemma dedup_sorted_nodup l : StronglySorted Z.le l -> NoDup (dedup l).
Proof.
  induction 1 as [|a l Hs IH Hf]; [constructor|]. simpl.
  destruct l as [|b l]; [repeat constructor; set_solver|].
  case_decide as Hab; [done|]. constructor; [|done].
  rewrite elem_of_dedup. intros Hin.
  apply elem_of_cons in Hin as [->|Hin]; [done|].
  inversion Hs as [|? ? _ Hf2]; subst. inversion Hf; subst.
  rewrite Forall_forall in Hf2. apply Hf2 in Hin. lia.
Qed.

End sorting.

(** A checksum function with the range of [crc32fast]'s, for the examples that
    instantiate the checksum parameter. *)
Definition sum32 (bs : list Z) : Z := (foldr Z.add 0 bs mod 2 ^ 32)%Z.

Lemma sum32_range bs : in_u 32 (sum32 bs).
Proof. apply Z.mod_pos_bound. done. Qed.

#[global] Arguments le_bytes : simpl never.
#[global] Arguments le_val : simpl never.
