(* ===== verification/Types.v ===== *)
(** * Core identifiers, clocks and the page header

    Models [pg-storage/src/types.rs] (identifiers, LSN arithmetic, [align_up]),
    [oid.rs], [txn_id.rs] and [lsn_clock.rs] (the three monotone counters),
    [error.rs] (the storage error enum, message strings dropped) and [page.rs]
    (the 32-byte slotted-page header and [pd_lsn]).  Newtypes over [u64] are
    [Z]; the counters are the value of their atomic, and [fetch_add] wraps
    modulo [2^64]. *)

From S2P Require Import Prelude.
Local Open Scope Z_scope.
Local Open Scope rust_scope.

(** ** types.rs *)

Definition PAGE_SIZE : Z := 8192.
Definition WAL_SEGMENT_SIZE : Z := 16 * 1024 * 1024.
Definition LSN_ALIGNMENT : Z := 8.

Abbreviation PageId := Z (only parsing).
Abbreviation Lsn := Z (only parsing).
Abbreviation TxnId := Z (only parsing).
Abbreviation Oid := Z (only parsing).

Definition PageId_INVALID : PageId := 0.
Definition PageId_FIRST : PageId := 1.
Definition Lsn_INVALID : Lsn := 0.
Definition Lsn_FIRST : Lsn := LSN_ALIGNMENT.
Definition TxnId_INVALID : TxnId := 0.
Definition TxnId_FIRST : TxnId := 1.
Definition Oid_INVALID : Oid := 0.
Definition Oid_FIRST_USER : Oid := 16384.

Definition wrap64 (x : Z) : Z := x mod 2 ^ 64.

Definition Lsn_is_valid (l : Lsn) : bool := negb (l =? 0).
Definition Lsn_segment_id (l : Lsn) (segment_size : Z) : Z := l / segment_size.
Definition Lsn_segment_offset (l : Lsn) (segment_size : Z) : Z := l mod segment_size.

Definition Lsn_advance (l : Lsn) (record_size : Z) : res Empty_set Lsn :=
  if record_size mod LSN_ALIGNMENT =? 0 then Ok (wrap64 (l + record_size)) else Panic.

Definition Oid_is_system (o : Oid) : bool := (o >? 0) && (o <? Oid_FIRST_USER).

Record Tid := mkTid { page_id : PageId; slot_id : Z }.

#[export] Instance Tid_eq_dec : EqDecision Tid.
Proof. solve_decision. Defined.
#[export] Instance Tid_countable : Countable Tid.
Proof.
  apply (inj_countable' (fun t => (page_id t, slot_id t)) (fun p => mkTid (fst p) (snd p))).
  by intros [].
Defined.

Definition is_power_of_two (n : Z) : bool := (0 <? n) && (Z.land n (n - 1) =? 0).

Definition align_up {E : Type} (n align : Z) : res E Z :=
  if is_power_of_two align then Ok (Z.land (n + align - 1) (Z.lnot (align - 1))) else Panic.

(** ** error.rs *)

Inductive StorageError :=
| Io
| PageNotFound (p : PageId)
| BufferPoolFull
| WalCorrupted (l : Lsn)
| WalWriteFailed
| WalReadFailed
| CheckpointFailed
| MetadataCorrupted
| LsnNotAvailable (l : Lsn)
| InvalidConfig
| InvalidOperation
| Serialize
| RecoveryRequired
| UnknownRecord (record_type : Z) (lsn : Lsn).

#[export] Instance StorageError_eq_dec : EqDecision StorageError.
Proof. solve_decision. Defined.

(** ** clog.rs: the commit status *)

Inductive TxnState := InProgress | Committed | Aborted | SubCommitted.

#[export] Instance TxnState_eq_dec : EqDecision TxnState.
Proof. solve_decision. Defined.

(** [TxnState as u8]. *)
Definition TxnState_u8 (s : TxnState) : Z :=
  match s with InProgress => 0 | Committed => 1 | Aborted => 2 | SubCommitted => 3 end.

(** ** oid.rs, txn_id.rs: shared counters *)

Definition OidCounter_new (start : Oid) : Z := start.
Definition OidCounter_alloc (next : Z) : Oid * Z := (next, wrap64 (next + 1)).
Definition OidCounter_current (next : Z) : Oid := next.

Definition TxnIdClock_new (start : TxnId) : Z := start.
Definition TxnIdClock_alloc (next : Z) : TxnId * Z := (next, wrap64 (next + 1)).
Definition TxnIdClock_current (next : Z) : TxnId := next.

(** ** lsn_clock.rs *)

Definition LsnClock_new (start : Lsn) : res Empty_set Z :=
  if negb (Lsn_is_valid start) then Panic
  else if start mod LSN_ALIGNMENT =? 0 then Ok start else Panic.

Definition LsnClock_next (next : Z) (record_size : Z) : res Empty_set (Lsn * Z) :=
  if negb (record_size >? 0) then Panic
  else if record_size mod LSN_ALIGNMENT =? 0 then Ok (next, wrap64 (next + record_size))
  else Panic.

Definition LsnClock_reserve (next : Z) (record_size : Z) : res Empty_set (Lsn * Z) :=
  if negb (record_size >? 0) then Panic
  else if record_size mod LSN_ALIGNMENT =? 0 then Ok (next, wrap64 (next + record_size))
  else Panic.

Definition LsnClock_current (next : Z) : Lsn := next.

(** A schedule of allocations, [true] for [next] and [false] for [reserve];
    the result lists the ranges handed out, in order. *)
Fixpoint LsnClock_run (next : Z) (reqs : list (bool * Z)) : res Empty_set (list (Lsn * Z) * Z) :=
  match reqs with
  | [] => Ok ([], next)
  | (b, size) :: reqs =>
      let? r := (if b : bool then LsnClock_next next size else LsnClock_reserve next size) in
      let? rest := LsnClock_run (snd r) reqs in
      Ok ((fst r, size) :: fst rest, snd rest)
  end.

(** ** page.rs *)

Definition PAGE_HEADER_SIZE : Z := 32.
Definition PAGE_FORMAT_VERSION : Z := 1.

Definition page_pd_lsn (page : list Z) : Lsn := get_le 8 0 page.
Definition set_page_pd_lsn (page : list Z) (lsn : Lsn) : list Z := put_le 8 0 lsn page.

Record PageHeader := mkPageHeader {
  pd_lsn : Lsn;
  pd_checksum : Z;
  pd_flags : Z;
  pd_lower : Z;
  pd_upper : Z;
  pd_special : Z;
  pd_pagesize_version : Z;
  pd_prune_xid : Z
}.

Definition PageHeader_new (page_size : Z) : PageHeader :=
  {| pd_lsn := Lsn_INVALID; pd_checksum := 0; pd_flags := 0;
     pd_lower := PAGE_HEADER_SIZE; pd_upper := page_size; pd_special := page_size;
     pd_pagesize_version := PAGE_FORMAT_VERSION; pd_prune_xid := 0 |}.

Definition PageHeader_read_from (page : list Z) : PageHeader :=
  {| pd_lsn := page_pd_lsn page;
     pd_checksum := get_le 4 8 page;
     pd_flags := get_le 2 12 page;
     pd_lower := get_le 2 14 page;
     pd_upper := get_le 2 16 page;
     pd_special := get_le 2 18 page;
     pd_pagesize_version := get_le 2 20 page;
     pd_prune_xid := get_le 4 22 page |}.

Definition PageHeader_write_to (h : PageHeader) (page : list Z) : list Z :=
  let page := set_page_pd_lsn page (pd_lsn h) in
  let page := put_le 4 8 (pd_checksum h) page in
  let page := put_le 2 12 (pd_flags h) page in
  let page := put_le 2 14 (pd_lower h) page in
  let page := put_le 2 16 (pd_upper h) page in
  let page := put_le 2 18 (pd_special h) page in
  let page := put_le 2 20 (pd_pagesize_version h) page in
  let page := put_le 4 22 (pd_prune_xid h) page in
  splice 26 (zeros (PAGE_HEADER_SIZE - 26)) page.

(** [PAGE_SIZE as u16] keeps the low 16 bits. *)
Definition PageHeader_init_page (page : list Z) : list Z :=
  PageHeader_write_to (PageHeader_new (PAGE_SIZE mod 2 ^ 16)) page.

(** The field widths of a header. *)
Definition PageHeader_wf (h : PageHeader) : Prop :=
  in_u 64 (pd_lsn h) /\ in_u 32 (pd_checksum h) /\ in_u 16 (pd_flags h) /\
  in_u 16 (pd_lower h) /\ in_u 16 (pd_upper h) /\ in_u 16 (pd_special h) /\
  in_u 16 (pd_pagesize_version h) /\ in_u 32 (pd_prune_xid h).

(** ** Lemmas *)

Lemma align_up_8 {E} n : align_up (E:=E) n 8 = Ok ((n + 7) / 8 * 8).
Proof.
  unfold align_up. simpl is_power_of_two. cbv iota. f_equal.
  replace (8 - 1) with (Z.ones 3) by done.
  rewrite <-Z.ldiff_land, Z.ldiff_ones_r, Z.shiftl_mul_pow2, Z.shiftr_div_pow2 by lia.
  change (2 ^ 3) with 8. do 2 f_equal. lia.
Qed.

Lemma align_up_8_spec n :
  let m := (n + 7) / 8 * 8 in n <= m < n + 8 /\ m mod 8 = 0.
Proof.
  simpl. pose proof (Z.div_mod (n + 7) 8). pose proof (Z.mod_pos_bound (n + 7) 8).
  split; [lia|]. apply Z_mod_mult.
Qed.

Lemma wrap64_small x : 0 <= x < 2 ^ 64 -> wrap64 x = x.
Proof. apply Z.mod_small. Qed.

Lemma length_PageHeader_write_to h page : length (PageHeader_write_to h page) = length page.
Proof. unfold PageHeader_write_to, set_page_pd_lsn. by autorewrite with lens. Qed.

Lemma wf_PageHeader_write_to h page : wf_bytes page -> wf_bytes (PageHeader_write_to h page).
Proof. intros. unfold PageHeader_write_to, set_page_pd_lsn. auto 12 with wf. Qed.

Lemma PageHeader_read_write h page :
  PAGE_HEADER_SIZE <= zlen page -> PageHeader_wf h ->
  PageHeader_read_from (PageHeader_write_to h page) = h.
Proof.
  unfold PAGE_HEADER_SIZE, PageHeader_wf, in_u. intros Hl Hw.
  destruct Hw as (H1 & H2 & H3 & H4 & H5 & H6 & H7 & H8). destruct h. simpl in *.
  unfold PageHeader_read_from, PageHeader_write_to, page_pd_lsn, set_page_pd_lsn. simpl.
  assert (256 ^ Z.of_nat 8 = 2 ^ 64 /\ 256 ^ Z.of_nat 4 = 2 ^ 32 /\ 256 ^ Z.of_nat 2 = 2 ^ 16)
    as (? & ? & ?) by done.
  f_equal; bytes; done.
Qed.

Lemma slice_PageHeader_write_to h page off n :
  0 <= off -> PAGE_HEADER_SIZE <= off ->
  slice off n (PageHeader_write_to h page) = slice off n page.
Proof.
  unfold PAGE_HEADER_SIZE. intros ??.
  unfold PageHeader_write_to, set_page_pd_lsn.
  rewrite slice_splice_disj by (rewrite ?length_zeros; unfold PAGE_HEADER_SIZE; lia).
  by rewrite !slice_put_disj by lia.
Qed.

Lemma LsnClock_next_inv next size r next' :
  LsnClock_next next size = Ok (r, next') ->
  r = next /\ next' = wrap64 (next + size) /\ 0 < size /\ size mod LSN_ALIGNMENT = 0.
Proof.
  unfold LsnClock_next. destruct (size >? 0) eqn:E; simpl; [|done].
  destruct (_ =? 0) eqn:E2; [|done]. intros [= <- <-]. zbool. auto.
Qed.

Lemma LsnClock_step_inv (b : bool) next size r next' :
  (if b then LsnClock_next next size else LsnClock_reserve next size) = Ok (r, next') ->
  r = next /\ next' = wrap64 (next + size) /\ 0 < size /\ size mod LSN_ALIGNMENT = 0.
Proof. by destruct b; apply LsnClock_next_inv. Qed.

Definition total_size (reqs : list (bool * Z)) : Z := foldr (fun r acc => snd r + acc) 0 reqs.

Lemma LsnClock_run_sizes reqs : forall next out,
  LsnClock_run next reqs = Ok out ->
  Forall (fun r => 0 < snd r /\ snd r mod LSN_ALIGNMENT = 0) reqs /\ 0 <= total_size reqs.
Proof.
  induction reqs as [|[b size] reqs IH]; intros next out H; simpl; [by split|].
  simpl in H. inv_bind H. destruct a as [l n1]. apply LsnClock_step_inv in Ha as (_ & _ & ? & ?).
  inv_bind H. apply IH in Ha as [??]. split; [by constructor|lia].
Qed.

(** Ranges handed out one after another: each starts where the previous ends. *)
Fixpoint contiguous (start : Z) (rs : list (Lsn * Z)) (stop : Z) : Prop :=
  match rs with
  | [] => start = stop
  | (l, size) :: rs => l = start /\ 0 < size /\ contiguous (start + size) rs stop
  end.

Lemma LsnClock_run_contiguous reqs : forall next rs next',
  LsnClock_run next reqs = Ok (rs, next') ->
  0 <= next -> next + total_size reqs < 2 ^ 64 ->
  contiguous next rs next' /\ snd <$> rs = snd <$> reqs /\
  Forall (fun r => snd r mod LSN_ALIGNMENT = 0) rs.
Proof.
  induction reqs as [|[b size] reqs IH]; intros next rs next' H Hn Hb; simpl in *.
  { by injection H as <- <-. }
  inv_bind H. destruct a as [l n1]. apply LsnClock_step_inv in Ha as (-> & -> & ? & ?).
  inv_bind H. destruct a as [rs1 n2]. injection H as <- <-. simpl in *.
  pose proof (LsnClock_run_sizes _ _ _ Ha) as [_ ?].
  rewrite wrap64_small in Ha by lia.
  apply IH in Ha as (? & ? & ?); [|lia|lia].
  repeat split; [done|done|by f_equal|by constructor].
Qed.

Lemma contiguous_bounds rs : forall start stop i l size,
  contiguous start rs stop -> rs !! i = Some (l, size) ->
  start <= l /\ l + size <= stop.
Proof.
  assert (Hle : forall rs start stop, contiguous start rs stop -> start <= stop).
  { clear. intros rs. induction rs as [|[l sz] rs IH]; intros start stop; simpl; [lia|].
    intros (-> & ? & Hc). apply IH in Hc. lia. }
  induction rs as [|[l' sz] rs IH]; intros start stop i l size Hc Hi; [done|].
  simpl in Hc. destruct Hc as (-> & ? & Hc). destruct i as [|i]; simpl in Hi.
  - injection Hi as -> ->. apply Hle in Hc. lia.
  - apply (IH _ _ _ _ _ Hc) in Hi. lia.
Qed.

Lemma contiguous_disjoint rs : forall start stop i j a b,
  contiguous start rs stop -> rs !! i = Some a -> rs !! j = Some b -> (i < j)%nat ->
  fst a + snd a <= fst b.
Proof.
  induction rs as [|[l sz] rs IH]; intros start stop i j a b Hc Hi Hj Hij; [done|].
  simpl in Hc. destruct Hc as (-> & ? & Hc).
  destruct j as [|j]; [lia|]. simpl in Hj. destruct i as [|i]; simpl in Hi.
  - injection Hi as <-. destruct b as [l2 s2].
    apply (contiguous_bounds _ _ _ _ _ _ Hc) in Hj. simpl. lia.
  - apply (IH _ _ i j _ _ Hc); auto with lia.
Qed.

Lemma contiguous_aligned rs : forall start stop i l size,
  contiguous start rs stop -> start mod LSN_ALIGNMENT = 0 ->
  Forall (fun r => snd r mod LSN_ALIGNMENT = 0) rs ->
  rs !! i = Some (l, size) -> l mod LSN_ALIGNMENT = 0.
Proof.
  induction rs as [|[l' sz] rs IH]; intros start stop i l size Hc Hs Hf Hi; [done|].
  simpl in Hc. destruct Hc as (-> & ? & Hc). inversion Hf; subst. simpl in *.
  destruct i as [|i]; simpl in Hi; [congruence|].
  eapply (IH _ _ _ _ _ Hc); [|done|exact Hi].
  unfold LSN_ALIGNMENT in *. rewrite Z.add_mod by lia.
  match goal with H : sz mod 8 = 0 |- _ => rewrite Hs, H end. done.
Qed.

(** ** Properties *)

(** For every schedule of [LsnClock::next] and [LsnClock::reserve] calls
    that does not overflow [u64], the WAL ranges handed out never overlap, each
    starts on an 8-byte boundary at or after the clock's start, they are handed
    out in the order of the calls, and the clock ends at the end of the last. *)
Theorem lsn_clock_ranges_disjoint start reqs rs stop :
  LsnClock_new start = Ok start -> 0 <= start ->
  LsnClock_run start reqs = Ok (rs, stop) -> start + total_size reqs < 2 ^ 64 ->
  stop = start + total_size reqs /\
  snd <$> rs = snd <$> reqs /\
  (forall i l size, rs !! i = Some (l, size) ->
     l mod LSN_ALIGNMENT = 0 /\ start <= l /\ l + size <= LsnClock_current stop) /\
  (forall i j a b, rs !! i = Some a -> rs !! j = Some b -> (i < j)%nat ->
     fst a + snd a <= fst b).
Proof.
  intros Hnew H0 Hrun Hmax. apply LsnClock_run_contiguous in Hrun as (Hc & Hs & Hf); [|lia|lia].
  assert (Hal : start mod LSN_ALIGNMENT = 0).
  { unfold LsnClock_new in Hnew. repeat case_if Hnew. by zbool. }
  split; [|split; [done|split]].
  - clear -Hc Hs. revert start rs Hc Hs.
    induction reqs as [|[b sz] reqs IH]; intros start [|[l s] rs] Hc Hs; simpl in *;
      try discriminate; [lia|].
    destruct Hc as (-> & ? & Hc). injection Hs as -> Hs. apply IH in Hc; [lia|done].
  - intros i l size Hi. split; [by eapply contiguous_aligned|by eapply contiguous_bounds].
  - intros i j a b. by apply (contiguous_disjoint _ start stop).
Qed.

Lemma lsn_clock_ranges_disjoint_witness :
  let rs := [(8, 8); (16, 24); (40, 16)] in
  LsnClock_run 8 [(true, 8); (false, 24); (true, 16)] = Ok (rs, 56) /\
  (forall i l size, rs !! i = Some (l, size) -> l mod LSN_ALIGNMENT = 0 /\ 8 <= l /\ l + size <= 56).
Proof.
  split; [reflexivity|].
  pose proof (lsn_clock_ranges_disjoint 8 [(true, 8); (false, 24); (true, 16)] _ _
    eq_refl ltac:(lia) eq_refl ltac:(reflexivity)) as H.
  apply H.
Defined.

(** Decoding the 32-byte slotted-page header gives back the header that
    was encoded, on any buffer of at least 32 bytes, and encoding it leaves the
    length and every byte from offset 32 on unchanged. *)
Theorem page_header_roundtrip h page off n :
  PAGE_HEADER_SIZE <= zlen page -> PageHeader_wf h -> PAGE_HEADER_SIZE <= off ->
  PageHeader_read_from (PageHeader_write_to h page) = h /\
  length (PageHeader_write_to h page) = length page /\
  slice off n (PageHeader_write_to h page) = slice off n page.
Proof.
  intros Hl Hw Ho. split; [by apply PageHeader_read_write|split].
  - apply length_PageHeader_write_to.
  - apply slice_PageHeader_write_to; unfold PAGE_HEADER_SIZE in *; lia.
Qed.
