(* ===== verification/LinePointer.v ===== *)
(** * Line pointers

    Models [pg-am-heap/src/line_pointer.rs]: the 32-bit packed line pointer
    [lp_off:15 / lp_flags:2 / lp_len:15] of the heap page, and the heap error
    enum of [error.rs].  A [LinePointer] is its [u32] value. *)

From S2P Require Import Prelude Types.
Local Open Scope Z_scope.

Definition LINE_POINTER_SIZE : Z := 4.
Definition LP_OFF_MASK : Z := 32767.
Definition LP_FLAGS_SHIFT : Z := 15.
Definition LP_FLAGS_MASK : Z := 3.
Definition LP_LEN_SHIFT : Z := 17.

Inductive LpFlags := Unused | Normal | Redirect | Dead.

#[export] Instance LpFlags_eq_dec : EqDecision LpFlags.
Proof. solve_decision. Defined.

Definition LpFlags_u32 (f : LpFlags) : Z :=
  match f with Unused => 0 | Normal => 1 | Redirect => 2 | Dead => 3 end.

Definition LpFlags_from_bits (bits : Z) : LpFlags :=
  let b := Z.land bits LP_FLAGS_MASK in
  if b =? 0 then Unused else if b =? 1 then Normal else if b =? 2 then Redirect else Dead.

Abbreviation LinePointer := Z (only parsing).

Definition LP_ZERO : LinePointer := 0.

(** [u32] shifts drop the bits above 31. *)
Definition LP_new (off : Z) (flags : LpFlags) (len : Z) : LinePointer :=
  Z.lor (Z.lor (Z.land off LP_OFF_MASK)
               (Z.shiftl (LpFlags_u32 flags) LP_FLAGS_SHIFT mod 2 ^ 32))
        (Z.shiftl len LP_LEN_SHIFT mod 2 ^ 32).

(** [as u16] keeps the low 16 bits. *)
Definition LP_off (lp : LinePointer) : Z := Z.land lp LP_OFF_MASK mod 2 ^ 16.
Definition LP_flags (lp : LinePointer) : LpFlags := LpFlags_from_bits (Z.shiftr lp LP_FLAGS_SHIFT).
Definition LP_len (lp : LinePointer) : Z := Z.shiftr lp LP_LEN_SHIFT mod 2 ^ 16.
Definition LP_with_flags (lp : LinePointer) (flags : LpFlags) : LinePointer :=
  LP_new (LP_off lp) flags (LP_len lp).
Definition LP_from_le_bytes (bytes : list Z) : LinePointer := le_val bytes.
Definition LP_to_le_bytes (lp : LinePointer) : list Z := le_bytes 4 lp.

(** ** pg-am-heap/src/error.rs *)

Inductive HeapError :=
| PageFull (needed available : Z)
| InvalidSlot (slot : Z)
| TupleTooLarge (len : Z)
| Corrupted
| InvalidArgument
| TupleNotFound (tid : Tid)
| TupleConcurrentlyUpdated (tid : Tid)
| DeadlockVictim
| Storage (e : StorageError).

(** ** Lemmas *)

(** The packed word as arithmetic on its three fields. *)
Lemma LP_new_arith off f len :
  0 <= off -> 0 <= len < 2 ^ 15 ->
  LP_new off f len = off mod 2 ^ 15 + (LpFlags_u32 f + len * 2 ^ 2) * 2 ^ 15.
Proof.
  intros Ho Hl. unfold LP_new, LP_OFF_MASK, LP_FLAGS_SHIFT, LP_LEN_SHIFT.
  change 32767 with (Z.ones 15). rewrite Z.land_ones by lia.
  pose proof (Z.mod_pos_bound off (2 ^ 15)).
  assert (0 <= LpFlags_u32 f < 4) by (destruct f; simpl; lia).
  rewrite (Z.mod_small (Z.shiftl _ _)) by (rewrite Z.shiftl_mul_pow2 by lia; lia).
  rewrite (Z.mod_small (Z.shiftl len _)) by (rewrite Z.shiftl_mul_pow2 by lia; lia).
  rewrite (lor_shiftl_add (off mod _)) by lia. rewrite lor_shiftl_add by lia. lia.
Qed.

Lemma LP_off_arith lp : 0 <= lp -> LP_off lp = lp mod 2 ^ 15.
Proof.
  intros. unfold LP_off, LP_OFF_MASK. change 32767 with (Z.ones 15).
  rewrite Z.land_ones by lia. apply Z.mod_small. pose proof (Z.mod_pos_bound lp (2 ^ 15)). lia.
Qed.

Lemma LP_len_arith lp : 0 <= lp < 2 ^ 32 -> LP_len lp = lp / 2 ^ 15 / 2 ^ 2.
Proof.
  intros. unfold LP_len, LP_LEN_SHIFT. rewrite Z.shiftr_div_pow2 by lia.
  rewrite Z.div_div by lia. change (2 ^ 15 * 2 ^ 2) with (2 ^ 17).
  apply Z.mod_small. split; [apply Z.div_pos; lia|]. apply Z.div_lt_upper_bound; lia.
Qed.

Lemma LpFlags_from_bits_u32 bits f :
  bits mod 4 = LpFlags_u32 f -> LpFlags_from_bits bits = f.
Proof.
  unfold LpFlags_from_bits, LP_FLAGS_MASK. change 3 with (Z.ones 2).
  rewrite Z.land_ones by lia. change (2 ^ 2) with 4. intros ->. by destruct f.
Qed.

Lemma LpFlags_u32_from_bits bits : LpFlags_u32 (LpFlags_from_bits bits) = bits mod 4.
Proof.
  unfold LpFlags_from_bits, LP_FLAGS_MASK. change 3 with (Z.ones 2).
  rewrite Z.land_ones by lia. change (2 ^ 2) with 4.
  pose proof (Z.mod_pos_bound bits 4).
  repeat match goal with |- context [if ?b then _ else _] => destruct b eqn:? end; zbool; simpl; lia.
Qed.

Lemma LP_flags_arith lp : LpFlags_u32 (LP_flags lp) = lp / 2 ^ 15 mod 4.
Proof.
  unfold LP_flags, LP_FLAGS_SHIFT. by rewrite LpFlags_u32_from_bits, Z.shiftr_div_pow2 by lia.
Qed.

Lemma LP_new_range off f len : 0 <= off -> 0 <= len < 2 ^ 15 -> 0 <= LP_new off f len < 2 ^ 32.
Proof.
  intros. rewrite LP_new_arith by lia. pose proof (Z.mod_pos_bound off (2 ^ 15)).
  assert (0 <= LpFlags_u32 f < 4) by (destruct f; simpl; lia). lia.
Qed.

Lemma LP_off_new off f len : 0 <= off < 2 ^ 15 -> 0 <= len < 2 ^ 15 -> LP_off (LP_new off f len) = off.
Proof.
  intros. pose proof (LP_new_range off f len). rewrite LP_off_arith by lia.
  rewrite LP_new_arith by lia. rewrite field_low by (lia || by apply Z.mod_pos_bound).
  apply Z.mod_small. lia.
Qed.

Lemma LP_len_new off f len : 0 <= off < 2 ^ 15 -> 0 <= len < 2 ^ 15 -> LP_len (LP_new off f len) = len.
Proof.
  intros. pose proof (LP_new_range off f len). rewrite LP_len_arith by lia.
  rewrite LP_new_arith by lia. rewrite field_high by (lia || by apply Z.mod_pos_bound).
  apply field_high; [lia|destruct f; simpl; lia].
Qed.

Lemma LP_flags_new off f len : 0 <= off < 2 ^ 15 -> 0 <= len < 2 ^ 15 -> LP_flags (LP_new off f len) = f.
Proof.
  intros. unfold LP_flags, LP_FLAGS_SHIFT. apply LpFlags_from_bits_u32.
  rewrite Z.shiftr_div_pow2, LP_new_arith by lia.
  rewrite field_high by (lia || by apply Z.mod_pos_bound).
  apply field_low; [lia|destruct f; simpl; lia].
Qed.

Lemma LP_off_range lp : 0 <= lp -> 0 <= LP_off lp < 2 ^ 15.
Proof. intros. rewrite LP_off_arith by lia. apply Z.mod_pos_bound. lia. Qed.

Lemma LP_len_range lp : 0 <= lp < 2 ^ 32 -> 0 <= LP_len lp < 2 ^ 15.
Proof.
  intros. rewrite LP_len_arith by lia. rewrite Z.div_div by lia.
  split; [apply Z.div_pos; lia|]. apply Z.div_lt_upper_bound; lia.
Qed.

Lemma LP_new_fields lp : 0 <= lp < 2 ^ 32 -> LP_new (LP_off lp) (LP_flags lp) (LP_len lp) = lp.
Proof.
  intros. pose proof (LP_off_range lp). pose proof (LP_len_range lp).
  rewrite LP_new_arith by lia. rewrite LP_flags_arith, LP_len_arith, LP_off_arith by lia.
  rewrite Z.mod_mod by lia. change (2 ^ 2) with 4.
  pose proof (Z.div_mod (lp / 2 ^ 15) 4). pose proof (Z.div_mod lp (2 ^ 15)). lia.
Qed.

Lemma LP_from_to_le_bytes lp : 0 <= lp < 2 ^ 32 -> LP_from_le_bytes (LP_to_le_bytes lp) = lp.
Proof. intros. by apply le_val_le_bytes_id. Qed.

(** ** Properties *)

(** The packed line pointer is a bijection between 32-bit words and
    (offset, flags, length) triples of widths 15/2/15: no field bleeds into
    another, every 32-bit pattern on a page decodes to the fields that rebuild
    it, replacing the flags keeps offset and length, and the four bytes on the
    page decode back to the pointer. *)
Theorem line_pointer_packing off f len g :
  0 <= off < 2 ^ 15 -> 0 <= len < 2 ^ 15 ->
  let lp := LP_new off f len in
  in_u 32 lp /\ LP_off lp = off /\ LP_flags lp = f /\ LP_len lp = len /\
  LP_with_flags lp g = LP_new off g len /\
  LP_from_le_bytes (LP_to_le_bytes lp) = lp /\
  (forall bits, in_u 32 bits -> LP_new (LP_off bits) (LP_flags bits) (LP_len bits) = bits).
Proof.
  intros Ho Hl lp. pose proof (LP_new_range off f len). unfold lp.
  split; [unfold in_u; lia|].
  rewrite LP_off_new, LP_flags_new, LP_len_new by lia.
  split; [done|split; [done|split; [done|split]]].
  - unfold LP_with_flags. by rewrite LP_off_new, LP_len_new by lia.
  - split; [apply LP_from_to_le_bytes; lia|apply LP_new_fields].
Qed.
