(* ===== verification/SlottedPage.v ===== *)
(** * Slotted heap pages

    Models [pg-am-heap/src/slotted_page.rs].  A page is its 8192 bytes; every
    slice of the source is bounds-checked ([slice_get]/[slice_set] give
    [Panic] out of range), so that "corrupted page bytes never cause a panic"
    is a statement about the model.  A mutation returns the new page. *)

From S2P Require Import Prelude Types LinePointer.
Local Open Scope Z_scope.
Local Open Scope rust_scope.

Definition HEAP_SPECIAL_SIZE : Z := 16.

Abbreviation Page := (list Z) (only parsing).

(** ** Operations *)

Definition set_pd_lower (page : Page) (pd_lower : Z) : Page := put_le 2 14 pd_lower page.
Definition set_pd_upper (page : Page) (pd_upper : Z) : Page := put_le 2 16 pd_upper page.

Definition header (page : Page) : PageHeader := PageHeader_read_from page.

Definition init_with_special (page : Page) (special_size : Z) : Page :=
  let page := zeros (zlen page) in
  let page := PageHeader_init_page page in
  let pd_special := (PAGE_SIZE - special_size) mod 2 ^ 16 in
  let page := put_le 2 16 pd_special page in
  put_le 2 18 pd_special page.

Definition init (page : Page) : Page := init_with_special page 0.

Definition init_if_fresh_with_special (page : Page) (special_size : Z) : Page :=
  if pd_upper (header page) =? 0 then init_with_special page special_size else page.

Definition init_if_fresh (page : Page) : Page := init_if_fresh_with_special page 0.

(** [saturating_sub] is truncated at zero. *)
Definition slot_count (page : Page) : Z :=
  Z.max 0 (pd_lower (header page) - PAGE_HEADER_SIZE) / LINE_POINTER_SIZE.

Definition free_space (page : Page) : Z :=
  Z.max 0 (pd_upper (header page) - pd_lower (header page)).

Definition checked_header (page : Page) : res HeapError PageHeader :=
  let header := header page in
  let lower := pd_lower header in
  let upper := pd_upper header in
  let special := pd_special header in
  if (lower <? PAGE_HEADER_SIZE)
     || negb ((lower - PAGE_HEADER_SIZE) mod LINE_POINTER_SIZE =? 0)
     || (lower >? upper) || (upper >? special) || (special >? PAGE_SIZE)
  then Err Corrupted
  else Ok header.

Definition set_next_page (page : Page) (next : option PageId) : res HeapError Page :=
  let off := pd_special (header page) in
  let raw := default 0 next in
  slice_set off (le_bytes 8 raw) page.

Definition next_page (page : Page) : res HeapError (option PageId) :=
  let? header := checked_header page in
  if negb (pd_special header =? PAGE_SIZE - HEAP_SPECIAL_SIZE) then Err Corrupted
  else
    let off := pd_special header in
    let? bytes := slice_get off 8 page in
    let raw := le_val bytes in
    Ok (if raw =? 0 then None else Some raw).

Definition line_pointer (page : Page) (slot : Z) : res HeapError LinePointer :=
  let? header := checked_header page in
  let slot_count := (pd_lower header - PAGE_HEADER_SIZE) / LINE_POINTER_SIZE in
  if slot >=? slot_count then Err (InvalidSlot slot)
  else
    let off := PAGE_HEADER_SIZE + slot * LINE_POINTER_SIZE in
    let? bytes := slice_get off LINE_POINTER_SIZE page in
    Ok (LP_from_le_bytes bytes).

Definition set_line_pointer (page : Page) (slot : Z) (lp : LinePointer) : res HeapError Page :=
  let off := PAGE_HEADER_SIZE + slot * LINE_POINTER_SIZE in
  slice_set off (LP_to_le_bytes lp) page.

(** The first-fit loop of [add_tuple]: [n] slots remain, starting at [slot]. *)
Fixpoint find_unused (n : nat) (slot : Z) (page : Page) : res HeapError (option Z) :=
  match n with
  | O => Ok None
  | S n =>
      let off := PAGE_HEADER_SIZE + slot * LINE_POINTER_SIZE in
      let? bytes := slice_get off LINE_POINTER_SIZE page in
      if decide (LP_flags (LP_from_le_bytes bytes) = Unused)
      then Ok (Some (slot mod 2 ^ 16))
      else find_unused n (slot + 1) page
  end.

Definition add_tuple (page : Page) (bytes : list Z) : res HeapError (Z * Page) :=
  let len := zlen bytes in
  let? hdr := checked_header page in
  let max_tuple := Z.max 0 (pd_special hdr - (PAGE_HEADER_SIZE + LINE_POINTER_SIZE)) in
  if len =? 0 then Err InvalidArgument
  else if len >? max_tuple then Err (TupleTooLarge len)
  else
    let slot_count := (pd_lower hdr - PAGE_HEADER_SIZE) / LINE_POINTER_SIZE in
    let? recycled_slot := find_unused (Z.to_nat slot_count) 0 page in
    let lp_cost := if recycled_slot is Some _ then 0 else LINE_POINTER_SIZE in
    let free := pd_upper hdr - pd_lower hdr in
    if free <? len + lp_cost then Err (PageFull (len + lp_cost) free)
    else
      let new_upper := pd_upper hdr - len in
      let? page := slice_set new_upper bytes page in
      let lp := LP_new (new_upper mod 2 ^ 16) Normal (len mod 2 ^ 16) in
      let? r :=
        match recycled_slot with
        | Some slot =>
            let? page := set_line_pointer page slot lp in
            Ok (slot, page)
        | None =>
            let slot := slot_count mod 2 ^ 16 in
            let? page := set_line_pointer page slot lp in
            let header := header page in
            Ok (slot, set_pd_lower page ((pd_lower header + LINE_POINTER_SIZE) mod 2 ^ 16))
        end in
      Ok (fst r, set_pd_upper (snd r) (new_upper mod 2 ^ 16)).

Definition delete_tuple (page : Page) (slot : Z) : res HeapError Page :=
  let? lp := line_pointer page slot in
  if decide (LP_flags lp = Normal)
  then set_line_pointer page slot (LP_with_flags lp Unused)
  else Err (InvalidSlot slot).

(** The bounded REDIRECT loop of [tuple]: [n] iterations remain. *)
Fixpoint tuple_loop (n : nat) (page : Page) (cur : Z) : res HeapError (option (list Z)) :=
  match n with
  | O => Err Corrupted
  | S n =>
      match line_pointer page cur with
      | Err (InvalidSlot _) => Ok None
      | Err e => Err e
      | Panic => Panic
      | Ok lp =>
          if decide (LP_flags lp = Redirect) then tuple_loop n page (LP_off lp)
          else if decide (LP_flags lp = Normal) then
            let? header := checked_header page in
            let off := LP_off lp in
            let stop := off + LP_len lp in
            if (off <? pd_upper header) || (stop >? pd_special header) then Err Corrupted
            else
              let? bytes := slice_get off (stop - off) page in
              Ok (Some bytes)
          else Ok None
      end
  end.

Definition tuple (page : Page) (slot : Z) : res HeapError (option (list Z)) :=
  tuple_loop (S (Z.to_nat (slot_count page))) page slot.

(** The region collector of [debug_assert_invariants]. *)
Fixpoint collect_regions (n : nat) (slot : Z) (page : Page) : res HeapError (list (Z * Z)) :=
  match n with
  | O => Ok []
  | S n =>
      match line_pointer page (slot mod 2 ^ 16) with
      | Ok lp =>
          if decide (LP_flags lp = Unused) then collect_regions n (slot + 1) page
          else
            let off := LP_off lp in
            let stop := off + LP_len lp in
            rassert (off >=? pd_upper (header page))
              (rassert (stop <=? pd_special (header page))
                 (let? rest := collect_regions n (slot + 1) page in Ok ((off, stop) :: rest)))
      | _ => Panic
      end
  end.

(** The order [sort_unstable] uses on [(usize, usize)]. *)
Definition region_le (a b : Z * Z) : Prop := fst a < fst b \/ (fst a = fst b /\ snd a <= snd b).

#[export] Instance region_le_dec : RelDecision region_le.
Proof. intros a b. unfold region_le. apply _. Defined.

Fixpoint windows_ok (l : list (Z * Z)) : bool :=
  match l with
  | a :: ((b :: _) as l') => (snd a <=? fst b) && windows_ok l'
  | _ => true
  end.

Definition debug_assert_invariants (page : Page) : res HeapError unit :=
  let header := header page in
  rassert (pd_lower header >=? PAGE_HEADER_SIZE)
  (rassert (pd_lower header <=? pd_upper header)
  (rassert (pd_upper header <=? pd_special header)
  (rassert (pd_special header <=? PAGE_SIZE)
  (rassert ((pd_lower header - PAGE_HEADER_SIZE) mod LINE_POINTER_SIZE =? 0)
  (let? regions := collect_regions (Z.to_nat (slot_count page)) 0 page in
   rassert (windows_ok (merge_sort region_le regions)) (Ok tt)))))).

(** ** Abstract view: a page as a list of slots *)

Inductive SlotView :=
| VUnused
| VNormal (bytes : list Z)
| VRedirect (target : Z)
| VDead.

#[export] Instance SlotView_eq_dec : EqDecision SlotView.
Proof. solve_decision. Defined.

(** The line-pointer words [slot .. slot + n) of a page. *)
Definition lps_from (slot n : Z) (page : Page) : list LinePointer :=
  (fun i => get_le 4 (PAGE_HEADER_SIZE + i * LINE_POINTER_SIZE) page) <$> seqZ slot n.

Definition lps (page : Page) : list LinePointer := lps_from 0 (slot_count page) page.

Definition slot_view (page : Page) (lp : LinePointer) : SlotView :=
  match LP_flags lp with
  | Unused => VUnused
  | Normal => VNormal (slice (LP_off lp) (LP_len lp) page)
  | Redirect => VRedirect (LP_off lp)
  | Dead => VDead
  end.

Definition view (page : Page) : list SlotView := slot_view page <$> lps page.

(** Insertion into a slot list: the first unused slot, or a new one. *)
Definition spec_add (v : list SlotView) (bytes : list Z) : nat * list SlotView :=
  match list_find (fun s => s = VUnused) v with
  | Some (i, _) => (i, <[i := VNormal bytes]> v)
  | None => (length v, v ++ [VNormal bytes])
  end.

(** ** Well-formed pages *)

Definition region (lp : LinePointer) : option (Z * Z) :=
  if decide (LP_flags lp = Unused) then None else Some (LP_off lp, LP_off lp + LP_len lp).

Definition before (a b : Z * Z) : Prop := snd a <= fst b.

(** Some arrangement of the live regions is ordered end-before-start. *)
Definition regions_disjoint (rs : list (Z * Z)) : Prop :=
  exists rs', rs' ≡ₚ rs /\ StronglySorted before rs'.

Record geometry (page : Page) : Prop := {
  geo_len : zlen page = PAGE_SIZE;
  geo_wf : wf_bytes page;
  geo_lower : PAGE_HEADER_SIZE <= pd_lower (header page);
  geo_lower_upper : pd_lower (header page) <= pd_upper (header page);
  geo_upper_special : pd_upper (header page) <= pd_special (header page);
  geo_special : pd_special (header page) <= PAGE_SIZE;
  geo_aligned : (pd_lower (header page) - PAGE_HEADER_SIZE) mod LINE_POINTER_SIZE = 0
}.

Record page_inv (page : Page) : Prop := {
  inv_geo : geometry page;
  inv_live : Forall (fun r => pd_upper (header page) <= fst r /\ snd r <= pd_special (header page))
               (omap region (lps page));
  inv_disj : regions_disjoint (omap region (lps page))
}.

(** ** Lemmas: headers and geometry *)

Lemma header_frame page off bs :
  PAGE_HEADER_SIZE <= off -> header (splice off bs page) = header page.
Proof.
  unfold PAGE_HEADER_SIZE. intros. unfold header, PageHeader_read_from, page_pd_lsn.
  f_equal; rewrite get_splice_disj by lia; done.
Qed.

Lemma pd_lower_set_upper page x : pd_lower (header (set_pd_upper page x)) = pd_lower (header page).
Proof. unfold header, PageHeader_read_from, set_pd_upper; simpl. by bytes. Qed.
Lemma pd_special_set_upper page x : pd_special (header (set_pd_upper page x)) = pd_special (header page).
Proof. unfold header, PageHeader_read_from, set_pd_upper; simpl. by bytes. Qed.
Lemma pd_upper_set_upper page x :
  zlen page = PAGE_SIZE -> 0 <= x < 2 ^ 16 -> pd_upper (header (set_pd_upper page x)) = x.
Proof.
  unfold PAGE_SIZE. intros. unfold header, PageHeader_read_from, set_pd_upper; simpl.
  rewrite get_put_same; [done|lia|lia|]. change (256 ^ Z.of_nat 2) with (2 ^ 16). lia.
Qed.
Lemma pd_upper_set_lower page x : pd_upper (header (set_pd_lower page x)) = pd_upper (header page).
Proof. unfold header, PageHeader_read_from, set_pd_lower; simpl. by bytes. Qed.
Lemma pd_special_set_lower page x : pd_special (header (set_pd_lower page x)) = pd_special (header page).
Proof. unfold header, PageHeader_read_from, set_pd_lower; simpl. by bytes. Qed.
Lemma pd_lower_set_lower page x :
  zlen page = PAGE_SIZE -> 0 <= x < 2 ^ 16 -> pd_lower (header (set_pd_lower page x)) = x.
Proof.
  unfold PAGE_SIZE. intros. unfold header, PageHeader_read_from, set_pd_lower; simpl.
  rewrite get_put_same; [done|lia|lia|]. change (256 ^ Z.of_nat 2) with (2 ^ 16). lia.
Qed.

Lemma header_bounds page :
  zlen page = PAGE_SIZE -> wf_bytes page ->
  0 <= pd_lower (header page) < 2 ^ 16 /\ 0 <= pd_upper (header page) < 2 ^ 16 /\
  0 <= pd_special (header page) < 2 ^ 16.
Proof.
  unfold PAGE_SIZE. intros. unfold header, PageHeader_read_from; simpl.
  split; [|split]; apply (get_le_bound 2); (done || lia).
Qed.

Lemma checked_header_geometry page :
  geometry page -> checked_header page = Ok (header page).
Proof.
  intros []. unfold checked_header.
  rewrite (proj2 (Z.ltb_ge _ _)) by done. rewrite geo_aligned0.
  rewrite !Z.gtb_ltb, !(proj2 (Z.ltb_ge _ _)) by done. done.
Qed.

Lemma checked_header_inv page h :
  zlen page = PAGE_SIZE -> wf_bytes page ->
  checked_header page = Ok h -> h = header page /\ geometry page.
Proof.
  intros Hl Hw. unfold checked_header. intros H. case_if H. injection H as <-. zbool.
  split; [done|]. by split.
Qed.

Lemma checked_header_cases page :
  (exists h, checked_header page = Ok h) \/ checked_header page = Err Corrupted.
Proof. unfold checked_header. destruct (_ || _); eauto. Qed.

Lemma slot_count_geometry page :
  geometry page ->
  slot_count page = (pd_lower (header page) - PAGE_HEADER_SIZE) / LINE_POINTER_SIZE /\
  pd_lower (header page) = PAGE_HEADER_SIZE + slot_count page * LINE_POINTER_SIZE /\
  0 <= slot_count page.
Proof.
  intros []. unfold slot_count. rewrite Z.max_r by lia.
  pose proof (Z.div_mod (pd_lower (header page) - PAGE_HEADER_SIZE) LINE_POINTER_SIZE).
  unfold LINE_POINTER_SIZE in *. split; [done|]. split; [lia|].
  apply Z.div_pos; lia.
Qed.

(** ** Lemmas: the line-pointer array *)

Lemma length_lps page : length (lps page) = Z.to_nat (slot_count page).
Proof. unfold lps, lps_from. by rewrite length_fmap, length_seqZ. Qed.

Lemma lookup_lps page (i : nat) :
  Z.of_nat i < slot_count page ->
  lps page !! i = Some (get_le 4 (PAGE_HEADER_SIZE + Z.of_nat i * LINE_POINTER_SIZE) page).
Proof.
  intros. unfold lps, lps_from. rewrite list_lookup_fmap, lookup_seqZ_lt by lia. done.
Qed.

Lemma lps_in_page page (i : nat) lp :
  geometry page -> lps page !! i = Some lp ->
  lp = get_le 4 (PAGE_HEADER_SIZE + Z.of_nat i * LINE_POINTER_SIZE) page /\
  Z.of_nat i < slot_count page /\
  PAGE_HEADER_SIZE + Z.of_nat i * LINE_POINTER_SIZE + 4 <= pd_lower (header page).
Proof.
  intros Hg Hi. destruct (slot_count_geometry _ Hg) as (_ & H2 & H3).
  assert (Z.of_nat i < slot_count page).
  { apply lookup_lt_Some in Hi. rewrite length_lps in Hi. lia. }
  rewrite lookup_lps in Hi by done. injection Hi as <-.
  unfold LINE_POINTER_SIZE in *. split; [done|lia].
Qed.

Lemma lps_range page : geometry page -> Forall (in_u 32) (lps page).
Proof.
  intros Hg. apply Forall_lookup. intros i lp Hi.
  apply lps_in_page in Hi as (-> & ? & ?); [|done]. destruct Hg.
  unfold PAGE_HEADER_SIZE, LINE_POINTER_SIZE, in_u in *.
  apply (get_le_bound 4); [done|lia|lia].
Qed.

Lemma line_pointer_lookup page slot :
  geometry page -> 0 <= slot ->
  line_pointer page slot =
    match lps page !! Z.to_nat slot with Some lp => Ok lp | None => Err (InvalidSlot slot) end.
Proof.
  intros Hg Hs. unfold line_pointer. rewrite checked_header_geometry by done. cbn [res_bind].
  destruct (slot_count_geometry _ Hg) as (<- & H2 & H3). rewrite Z.geb_leb.
  destruct (Z.leb_spec (slot_count page) slot).
  - rewrite lookup_ge_None_2; [done|]. rewrite length_lps. lia.
  - rewrite lookup_lps by lia. rewrite Z2Nat.id by lia. destruct Hg.
    unfold PAGE_HEADER_SIZE, LINE_POINTER_SIZE in *.
    rewrite slice_get_ok by lia. done.
Qed.

Lemma find_unused_spec page : forall n slot,
  geometry page -> 0 <= slot -> slot + Z.of_nat n <= slot_count page ->
  find_unused n slot page =
    Ok ((fun r => slot + Z.of_nat (fst r)) <$>
          list_find (fun lp => LP_flags lp = Unused) (lps_from slot (Z.of_nat n) page)).
Proof.
  induction n as [|n IH]; intros slot Hg Hs Hn.
  { done. }
  destruct (slot_count_geometry _ Hg) as (_ & H2 & H3).
  destruct Hg as [Hl Hw ? Hlu Hus Hsp ?] eqn:EHg. clear EHg.
  cbn [find_unused]. unfold PAGE_HEADER_SIZE, LINE_POINTER_SIZE, PAGE_SIZE in *.
  rewrite slice_get_ok by lia. cbn [res_bind].
  unfold lps_from. rewrite seqZ_cons by lia. cbn [fmap list_fmap list_find].
  unfold LP_from_le_bytes. unfold get_le at 1.
  unfold PAGE_HEADER_SIZE, LINE_POINTER_SIZE. change (Z.of_nat 4) with 4.
  destruct (decide (LP_flags _ = Unused)).
  - simpl. do 2 f_equal. rewrite Z.mod_small by lia. lia.
  - rewrite IH by (done || lia). f_equal. unfold lps_from.
    replace (Z.pred (Z.of_nat (S n))) with (Z.of_nat n) by lia. rewrite Z.add_1_r.
    unfold PAGE_HEADER_SIZE, LINE_POINTER_SIZE.
    destruct (list_find _ _) as [[i x]|]; simpl; [f_equal; lia|done].
Qed.

Lemma find_unused_lps page :
  geometry page ->
  find_unused (Z.to_nat (slot_count page)) 0 page =
    Ok ((fun r => Z.of_nat (fst r)) <$> list_find (fun lp => LP_flags lp = Unused) (lps page)).
Proof.
  intros Hg. destruct (slot_count_geometry _ Hg) as (_ & _ & ?).
  rewrite find_unused_spec by (done || lia). rewrite Z2Nat.id by lia. done.
Qed.

(** ** Lemmas: the effect of a successful insertion *)

(** Overwrite an existing position or append. *)
Definition put_slot {A : Type} (i : nat) (x : A) (l : list A) : list A :=
  if decide (i < length l)%nat then <[i := x]> l else l ++ [x].

Definition first_unused (page : Page) : nat :=
  match list_find (fun lp => LP_flags lp = Unused) (lps page) with
  | Some (i, _) => i
  | None => length (lps page)
  end.

Record add_effect (page : Page) (bytes : list Z) (i : nat) (lp : LinePointer) (page' : Page) : Prop := {
  ae_len : zlen page' = zlen page;
  ae_wf : wf_bytes page';
  ae_lp : lp = LP_new (pd_upper (header page) - zlen bytes) Normal (zlen bytes);
  ae_pos : 0 < zlen bytes;
  ae_lower : pd_lower (header page') = PAGE_HEADER_SIZE + zlen (put_slot i lp (lps page)) * LINE_POINTER_SIZE;
  ae_upper : pd_upper (header page') = pd_upper (header page) - zlen bytes;
  ae_special : pd_special (header page') = pd_special (header page);
  ae_room : pd_lower (header page') <= pd_upper (header page');
  ae_lps : lps page' = put_slot i lp (lps page);
  ae_new : slice (pd_upper (header page')) (zlen bytes) page' = bytes;
  ae_old : forall off n, pd_upper (header page) <= off -> slice off n page' = slice off n page
}.

Lemma length_put_slot {A} i (x : A) l :
  (i <= length l)%nat ->
  length (put_slot i x l) = if decide (i < length l)%nat then length l else S (length l).
Proof.
  intros. unfold put_slot. case_decide; [apply length_insert|]. rewrite length_app. simpl. lia.
Qed.

Lemma lookup_put_slot {A} i (x : A) l j :
  (i <= length l)%nat -> put_slot i x l !! j = if decide (j = i) then Some x else l !! j.
Proof.
  intros. unfold put_slot. destruct (decide (i < length l)%nat).
  - rewrite list_lookup_insert. repeat case_decide; try done; lia.
  - assert (i = length l) as -> by lia. case_decide; subst.
    + by rewrite list_lookup_middle.
    + destruct (decide (j < length l)%nat).
      * by rewrite lookup_app_l.
      * rewrite !lookup_ge_None_2; [done|lia|rewrite length_app; simpl; lia].
Qed.

Lemma fmap_put_slot {A B} (f : A -> B) i x l : f <$> put_slot i x l = put_slot i (f x) (f <$> l).
Proof.
  unfold put_slot. rewrite length_fmap. case_decide.
  - by rewrite list_fmap_insert.
  - by rewrite fmap_app.
Qed.

Lemma first_unused_le page : (first_unused page <= length (lps page))%nat.
Proof.
  unfold first_unused. destruct (list_find _ _) as [[i x]|] eqn:E; [|done].
  apply list_find_Some in E as (E & _). apply lookup_lt_Some in E. lia.
Qed.

(** The line-pointer array from its word count and its words. *)
Lemma lps_ext page l :
  geometry page -> slot_count page = zlen l ->
  (forall i : nat, (i < length l)%nat ->
     l !! i = Some (get_le 4 (PAGE_HEADER_SIZE + Z.of_nat i * LINE_POINTER_SIZE) page)) ->
  lps page = l.
Proof.
  intros Hg Hc Hl. apply list_eq. intros i. destruct (decide (i < length l)%nat).
  - rewrite lookup_lps by lia. by rewrite Hl.
  - rewrite !lookup_ge_None_2; [done|lia|]. rewrite length_lps. lia.
Qed.

(** The page after the two writes into the tuple area and the LP array. *)
Definition placed (page : Page) (bytes : list Z) (i : nat) (lp : LinePointer) : Page :=
  splice (PAGE_HEADER_SIZE + Z.of_nat i * LINE_POINTER_SIZE) (LP_to_le_bytes lp)
    (splice (pd_upper (header page) - zlen bytes) bytes page).

Lemma add_tuple_unfold page bytes slot page' :
  geometry page -> add_tuple page bytes = Ok (slot, page') ->
  let i := first_unused page in
  let nu := pd_upper (header page) - zlen bytes in
  let lp := LP_new nu Normal (zlen bytes) in
  0 < zlen bytes /\ slot = Z.of_nat i /\
  (if decide (i < length (lps page))%nat
   then pd_lower (header page) <= nu /\ page' = set_pd_upper (placed page bytes i lp) nu
   else pd_lower (header page) + LINE_POINTER_SIZE <= nu /\
        page' = set_pd_upper (set_pd_lower (placed page bytes i lp)
                                (pd_lower (header page) + LINE_POINTER_SIZE)) nu).
Proof.
  intros Hg Ha i nu lp. unfold add_tuple in Ha.
  destruct (slot_count_geometry _ Hg) as (Hsc & H2 & H3).
  rewrite checked_header_geometry in Ha by done. cbn [res_bind] in Ha.
  rewrite <-Hsc, find_unused_lps in Ha by done. cbn [res_bind] in Ha.
  do 2 case_if Ha. zbool. destruct Hg as [Hl Hw Hlo Hlu Hus Hsp _].
  unfold i, first_unused. destruct (list_find _ _) as [[k x]|] eqn:Ef; cbn [fmap option_fmap option_map fst] in Ha.
  - apply list_find_Some in Ef as (Ek & _). apply lookup_lt_Some in Ek as Hk.
    rewrite decide_True by done. case_if Ha. zbool. unfold nu in *.
    rewrite length_lps in Hk. unfold PAGE_HEADER_SIZE, LINE_POINTER_SIZE, PAGE_SIZE in *.
    rewrite slice_set_ok in Ha by lia. cbn [res_bind] in Ha.
    unfold set_line_pointer, PAGE_HEADER_SIZE, LINE_POINTER_SIZE, LP_to_le_bytes in Ha.
    rewrite slice_set_ok in Ha by len_lia. cbn [res_bind fst snd] in Ha.
    rewrite !Z.mod_small in Ha by lia. injection Ha as <- <-.
    repeat split; lia.
  - rewrite decide_False by lia. case_if Ha. zbool. unfold nu in *.
    rewrite length_lps. unfold PAGE_HEADER_SIZE, LINE_POINTER_SIZE, PAGE_SIZE in *.
    rewrite slice_set_ok in Ha by lia. cbn [res_bind] in Ha.
    rewrite (Z.mod_small (slot_count page)) in Ha by lia.
    unfold set_line_pointer, PAGE_HEADER_SIZE, LINE_POINTER_SIZE, LP_to_le_bytes in Ha.
    rewrite slice_set_ok in Ha by len_lia. cbn [res_bind fst snd] in Ha.
    rewrite !header_frame in Ha by (unfold PAGE_HEADER_SIZE; lia).
    rewrite !Z.mod_small in Ha by lia. injection Ha as <- <-.
    unfold placed, PAGE_HEADER_SIZE, LINE_POINTER_SIZE, LP_to_le_bytes, lp, nu.
    rewrite Z2Nat.id by lia. repeat split; lia.
Qed.

(** Writes to [pd_lower]/[pd_upper] do not reach the bytes after the header. *)
Lemma slice_set_upper page x off n :
  PAGE_HEADER_SIZE <= off -> slice off n (set_pd_upper page x) = slice off n page.
Proof. unfold PAGE_HEADER_SIZE. intros. apply slice_put_disj; lia. Qed.
Lemma slice_set_lower page x off n :
  PAGE_HEADER_SIZE <= off -> slice off n (set_pd_lower page x) = slice off n page.
Proof. unfold PAGE_HEADER_SIZE. intros. apply slice_put_disj; lia. Qed.

Section placed.
Context (page : Page) (bytes : list Z) (i : nat) (lp : LinePointer).
Hypothesis Hg : geometry page.
Hypothesis Hlp : in_u 32 lp.
Hypothesis Hroom : PAGE_HEADER_SIZE + Z.of_nat i * LINE_POINTER_SIZE + LINE_POINTER_SIZE
                     <= pd_upper (header page) - zlen bytes.
Let nu := pd_upper (header page) - zlen bytes.

Lemma length_placed : length (placed page bytes i lp) = length page.
Proof. unfold placed. by rewrite !length_splice. Qed.

Lemma wf_placed : wf_bytes bytes -> wf_bytes (placed page bytes i lp).
Proof. intros. destruct Hg. unfold placed, LP_to_le_bytes. auto with wf. Qed.

Lemma header_placed : header (placed page bytes i lp) = header page.
Proof.
  unfold placed. rewrite header_frame by (unfold PAGE_HEADER_SIZE, LINE_POINTER_SIZE; lia).
  apply header_frame. unfold PAGE_HEADER_SIZE, LINE_POINTER_SIZE in *. lia.
Qed.

Lemma get_lp_placed (j : nat) :
  PAGE_HEADER_SIZE + Z.of_nat j * LINE_POINTER_SIZE + LINE_POINTER_SIZE <= nu ->
  get_le 4 (PAGE_HEADER_SIZE + Z.of_nat j * LINE_POINTER_SIZE) (placed page bytes i lp) =
    if decide (j = i) then lp
    else get_le 4 (PAGE_HEADER_SIZE + Z.of_nat j * LINE_POINTER_SIZE) page.
Proof.
  destruct Hg. unfold nu, placed, LP_to_le_bytes, PAGE_HEADER_SIZE, LINE_POINTER_SIZE, PAGE_SIZE, in_u in *.
  intros Hj. case_decide as Hij.
  - subst j. apply (get_put_same 4); rewrite ?length_splice; (lia || done).
  - rewrite get_splice_disj by (rewrite ?length_le_bytes; lia).
    apply get_splice_disj; lia.
Qed.

Lemma slice_placed_new : slice nu (zlen bytes) (placed page bytes i lp) = bytes.
Proof.
  destruct Hg. unfold nu, placed, LP_to_le_bytes, PAGE_HEADER_SIZE, LINE_POINTER_SIZE, PAGE_SIZE in *.
  rewrite slice_splice_disj by (rewrite ?length_le_bytes; lia).
  apply slice_splice_same; lia.
Qed.

Lemma slice_placed_old off n :
  pd_upper (header page) <= off -> slice off n (placed page bytes i lp) = slice off n page.
Proof.
  destruct Hg. unfold placed, LP_to_le_bytes, PAGE_HEADER_SIZE, LINE_POINTER_SIZE, PAGE_SIZE in *.
  intros. rewrite slice_splice_disj by (rewrite ?length_le_bytes; lia).
  apply slice_splice_disj; lia.
Qed.

End placed.

(** Both branches of the slot choice establish the same effect. *)
Lemma add_effect_intro page bytes i q :
  let nu := pd_upper (header page) - zlen bytes in
  let lp := LP_new nu Normal (zlen bytes) in
  let lower' := PAGE_HEADER_SIZE + zlen (put_slot i lp (lps page)) * LINE_POINTER_SIZE in
  geometry page -> 0 < zlen bytes -> wf_bytes bytes -> (i <= length (lps page))%nat ->
  lower' <= nu -> length q = length page -> wf_bytes q -> pd_lower (header q) = lower' ->
  pd_special (header q) = pd_special (header page) ->
  (forall off n, PAGE_HEADER_SIZE <= off -> slice off n q = slice off n (placed page bytes i lp)) ->
  add_effect page bytes i lp (set_pd_upper q nu).
Proof.
  intros nu lp lower' Hg Hpos Hwb Hi Hroom Hlen Hwq Hlow Hsp Hq.
  destruct Hg as [Hl Hw Hlo Hlu Hus Hspc Hal] eqn:EHg. clear EHg.
  assert (Hnu : PAGE_HEADER_SIZE <= nu).
  { unfold lower', PAGE_HEADER_SIZE, LINE_POINTER_SIZE in *. lia. }
  assert (Hlp : in_u 32 lp).
  { unfold nu, PAGE_HEADER_SIZE, PAGE_SIZE in *. apply LP_new_range; lia. }
  assert (Hi' : PAGE_HEADER_SIZE + Z.of_nat i * LINE_POINTER_SIZE + LINE_POINTER_SIZE <= nu).
  { unfold lower' in Hroom. rewrite length_put_slot in Hroom by done.
    unfold PAGE_HEADER_SIZE, LINE_POINTER_SIZE in *. case_decide; lia. }
  assert (Hup : pd_upper (header (set_pd_upper q nu)) = nu).
  { apply pd_upper_set_upper; unfold PAGE_SIZE, PAGE_HEADER_SIZE in *; [|unfold nu]; lia. }
  assert (Hgeo : geometry (set_pd_upper q nu)).
  { split; rewrite ?pd_lower_set_upper, ?pd_special_set_upper, ?Hup, ?Hlow, ?Hsp; try done.
    - unfold set_pd_upper. rewrite length_put_le. lia.
    - unfold set_pd_upper. auto with wf.
    - unfold lower', PAGE_HEADER_SIZE, LINE_POINTER_SIZE. lia.
    - unfold nu. lia.
    - unfold lower'. rewrite Z.add_simpl_l. by apply Z_mod_mult. }
  split; try done; rewrite ?Hup, ?pd_lower_set_upper, ?pd_special_set_upper; try done.
  - unfold set_pd_upper. rewrite length_put_le. lia.
  - unfold set_pd_upper. auto with wf.
  - rewrite Hlow. done.
  - apply lps_ext; [done| |].
    { destruct (slot_count_geometry _ Hgeo) as (_ & H2 & _).
      rewrite pd_lower_set_upper, Hlow in H2. unfold lower', LINE_POINTER_SIZE in H2. lia. }
    intros j Hj. rewrite lookup_put_slot by done.
    assert (Hj' : PAGE_HEADER_SIZE + Z.of_nat j * LINE_POINTER_SIZE + LINE_POINTER_SIZE <= nu).
    { unfold lower', LINE_POINTER_SIZE in *. lia. }
    unfold get_le. rewrite slice_set_upper by (unfold PAGE_HEADER_SIZE, LINE_POINTER_SIZE; lia).
    rewrite Hq by (unfold PAGE_HEADER_SIZE, LINE_POINTER_SIZE; lia).
    change (le_val (slice ?o _ ?p)) with (get_le 4 o p).
    rewrite get_lp_placed by done. case_decide; [done|].
    assert (j < length (lps page))%nat.
    { rewrite length_put_slot in Hj by done. case_decide; lia. }
    rewrite length_lps in *. apply lookup_lps. lia.
  - rewrite slice_set_upper, Hq by (unfold nu, PAGE_HEADER_SIZE in *; lia). by apply slice_placed_new.
  - intros off n Ho. rewrite slice_set_upper, Hq by (unfold PAGE_HEADER_SIZE in *; lia).
    by apply slice_placed_old.
Qed.

Lemma add_tuple_effect page bytes slot page' :
  geometry page -> wf_bytes bytes -> add_tuple page bytes = Ok (slot, page') ->
  slot = Z.of_nat (first_unused page) /\
  add_effect page bytes (first_unused page)
    (LP_new (pd_upper (header page) - zlen bytes) Normal (zlen bytes)) page'.
Proof.
  intros Hg Hwb Ha. apply add_tuple_unfold in Ha as (Hpos & -> & Ha); [|done].
  split; [done|]. pose proof (first_unused_le page) as Hi.
  destruct (slot_count_geometry _ Hg) as (_ & H2 & H3).
  pose proof (geo_len _ Hg). pose proof (geo_upper_special _ Hg). pose proof (geo_special _ Hg).
  pose proof (length_lps page) as Hlps. pose proof (geo_lower_upper _ Hg).
  case_decide as Hd; destruct Ha as [Hroom ->];
    (apply add_effect_intro; try done; rewrite ?length_put_slot by done;
     [case_decide; unfold PAGE_HEADER_SIZE, LINE_POINTER_SIZE, PAGE_SIZE in *; lia|..]).
  - apply length_placed.
  - by apply wf_placed.
  - rewrite header_placed, decide_True by (done || (unfold PAGE_HEADER_SIZE, LINE_POINTER_SIZE in *; lia)). lia.
  - rewrite header_placed; [done|unfold PAGE_HEADER_SIZE, LINE_POINTER_SIZE in *; lia].
  - unfold set_pd_lower. by rewrite length_put_le, length_placed.
  - unfold set_pd_lower. apply wf_put_le. by apply wf_placed.
  - rewrite pd_lower_set_lower, decide_False; [|done|..].
    + unfold LINE_POINTER_SIZE in *. lia.
    + by rewrite length_placed.
    + unfold PAGE_HEADER_SIZE, LINE_POINTER_SIZE, PAGE_SIZE in *. lia.
  - rewrite pd_special_set_lower, header_placed; [done|unfold PAGE_HEADER_SIZE, LINE_POINTER_SIZE in *; lia].
  - intros. by apply slice_set_lower.
Qed.

(** ** Lemmas: invariants *)

#[export] Instance region_le_total : Total region_le.
Proof. intros a b. unfold region_le. lia. Qed.
#[export] Instance region_le_trans : Transitive region_le.
Proof. intros a b c. unfold region_le. lia. Qed.
#[export] Instance region_le_antisymm : AntiSymm (=) region_le.
Proof. intros [a1 a2] [b1 b2]. unfold region_le. simpl. intros. f_equal; lia. Qed.

Lemma windows_ok_sorted l :
  Forall (fun r => fst r <= snd r) l -> windows_ok l = true <-> StronglySorted before l.
Proof.
  induction l as [|a l IH]; intros Hf.
  { split; [constructor|done]. }
  apply Forall_cons in Hf as [Ha Hf]. specialize (IH Hf).
  destruct l as [|b l]; [split; [repeat constructor|done]|].
  change (windows_ok (a :: b :: l)) with ((snd a <=? fst b) && windows_ok (b :: l)).
  rewrite andb_true_iff, IH, Z.leb_le. split.
  - intros [Hab Hs]. constructor; [done|]. apply StronglySorted_inv in Hs as [_ Hb].
    constructor; [done|]. apply Forall_cons in Hf as [Hb' _].
    eapply Forall_impl; [exact Hb|]. unfold before. simpl. intros. lia.
  - intros Hs. apply StronglySorted_inv in Hs as [Hs Hb]. by apply Forall_cons in Hb as [Hab _].
Qed.

Lemma before_region_le l :
  Forall (fun r => fst r <= snd r) l -> StronglySorted before l -> StronglySorted region_le l.
Proof.
  intros Hf Hs. induction Hs as [|a l Hs IH Hb]; constructor.
  - apply IH. by apply Forall_cons in Hf as [_ Hf].
  - apply Forall_cons in Hf as [Ha Hf]. rewrite Forall_forall in *. intros b Hin.
    specialize (Hb b Hin). specialize (Hf b Hin). unfold before, region_le in *. lia.
Qed.

(** The sort-and-scan check decides disjointness. *)
Lemma windows_ok_disjoint rs :
  Forall (fun r => fst r <= snd r) rs ->
  windows_ok (merge_sort region_le rs) = true <-> regions_disjoint rs.
Proof.
  intros Hf. pose proof (merge_sort_Permutation region_le rs) as Hp.
  rewrite windows_ok_sorted by by rewrite Hp. split.
  - intros Hs. by exists (merge_sort region_le rs).
  - intros (rs' & Hp' & Hs). assert (merge_sort region_le rs = rs') as ->; [|done].
    apply (StronglySorted_unique region_le).
    + apply (StronglySorted_merge_sort region_le).
    + apply before_region_le; [|done]. by rewrite Hp'.
    + by rewrite Hp, Hp'.
Qed.

Lemma StronglySorted_sublist {A} (R : A -> A -> Prop) l1 l2 :
  sublist l1 l2 -> StronglySorted R l2 -> StronglySorted R l1.
Proof.
  induction 1 as [|x l1 l2 Hsub IH|x l1 l2 Hsub IH]; intros Hs; [done|..];
    apply StronglySorted_inv in Hs as [Hs Hx]; [|by apply IH].
  constructor; [by apply IH|]. rewrite Forall_forall in *. intros y Hy. apply Hx.
  eapply elem_of_submseteq; [exact Hy|]. by apply sublist_submseteq.
Qed.

Lemma regions_disjoint_submseteq rs1 rs2 :
  rs1 ⊆+ rs2 -> regions_disjoint rs2 -> regions_disjoint rs1.
Proof.
  intros Hsub (rs' & Hp & Hs). rewrite <-Hp in Hsub.
  apply submseteq_sublist_r in Hsub as (l & Hl & Hsub).
  exists l. split; [done|]. by eapply StronglySorted_sublist.
Qed.

(** Filling an unused or new slot adds one region; emptying a slot removes at most one. *)
Lemma omap_put_slot {A B} (f : A -> option B) i x y l :
  f x = Some y -> (i <= length l)%nat -> (forall x0, l !! i = Some x0 -> f x0 = None) ->
  omap f (put_slot i x l) ≡ₚ y :: omap f l.
Proof.
  intros Hy Hi Hn. unfold put_slot. case_decide as Hd.
  - apply lookup_lt_is_Some in Hd as [x0 Hx0].
    rewrite insert_take_drop by by eapply lookup_lt_Some.
    rewrite <-(take_drop_middle l i x0) at 3 by done.
    rewrite !omap_app. simpl. rewrite Hy, (Hn x0) by done. by rewrite Permutation_middle.
  - rewrite omap_app. simpl. rewrite Hy. by rewrite Permutation_app_comm.
Qed.

Lemma omap_insert_None_submseteq {A B} (f : A -> option B) i x l :
  f x = None -> omap f (<[i := x]> l) ⊆+ omap f l.
Proof.
  intros Hx. destruct (decide (i < length l)%nat) as [Hi|Hi].
  - apply lookup_lt_is_Some in Hi as [x0 Hx0].
    rewrite insert_take_drop by by eapply lookup_lt_Some.
    rewrite <-(take_drop_middle l i x0) at 3 by done.
    rewrite !omap_app. simpl. rewrite Hx. destruct (f x0); [|done].
    apply submseteq_skips_l. by apply submseteq_cons.
  - by rewrite list_insert_ge by lia.
Qed.

Lemma first_unused_region page x :
  lps page !! first_unused page = Some x -> LP_flags x = Unused.
Proof.
  unfold first_unused. destruct (list_find _ _) as [[i y]|] eqn:E.
  - apply list_find_Some in E as (E & Hy & _). intros Hi. congruence.
  - intros H. apply lookup_lt_Some in H. lia.
Qed.

Lemma add_effect_geometry page bytes i lp page' :
  geometry page -> add_effect page bytes i lp page' -> geometry page'.
Proof.
  intros [] []. split; try done; try lia.
  - rewrite ae_lower0. unfold PAGE_HEADER_SIZE, LINE_POINTER_SIZE. lia.
  - rewrite ae_lower0. rewrite Z.add_simpl_l. by apply Z_mod_mult.
Qed.

Lemma add_effect_bounds page bytes i lp page' :
  geometry page -> add_effect page bytes i lp page' ->
  LP_flags lp = Normal /\ LP_off lp = pd_upper (header page) - zlen bytes /\ LP_len lp = zlen bytes.
Proof.
  intros [] []. unfold PAGE_HEADER_SIZE, PAGE_SIZE in *.
  assert (0 <= pd_upper (header page) - zlen bytes < 2 ^ 15).
  { rewrite <-ae_upper0. rewrite ae_lower0 in ae_room0.
    unfold PAGE_HEADER_SIZE, LINE_POINTER_SIZE in *. lia. }
  rewrite ae_lp0, LP_flags_new, LP_off_new, LP_len_new by lia. done.
Qed.

Lemma add_effect_inv page bytes lp page' :
  page_inv page -> add_effect page bytes (first_unused page) lp page' -> page_inv page'.
Proof.
  intros [Hg Hlive Hdis] He. pose proof (add_effect_geometry _ _ _ _ _ Hg He) as Hg'.
  destruct (add_effect_bounds _ _ _ _ _ Hg He) as (Hf & Ho & Hlen).
  assert (Hreg : region lp = Some (pd_upper (header page'), pd_upper (header page))).
  { unfold region. rewrite decide_False by congruence. rewrite (ae_upper _ _ _ _ _ He).
    do 2 f_equal; lia. }
  pose proof (omap_put_slot region (first_unused page) lp _ (lps page) Hreg
    (first_unused_le page)) as Hp.
  rewrite <-(ae_lps _ _ _ _ _ He) in Hp.
  assert (Hn : forall x0, lps page !! first_unused page = Some x0 -> region x0 = None).
  { intros x0 Hx0. unfold region. by rewrite decide_True by by apply first_unused_region in Hx0. }
  specialize (Hp Hn). pose proof (ae_upper _ _ _ _ _ He). pose proof (ae_special _ _ _ _ _ He).
  pose proof (ae_pos _ _ _ _ _ He). pose proof (geo_upper_special _ Hg).
  split; [done|..].
  - rewrite Hp. constructor; [cbn [fst snd]; lia|]. eapply Forall_impl; [exact Hlive|]. cbn [fst snd]. lia.
  - destruct Hdis as (rs & Hrs & Hs).
    exists ((pd_upper (header page'), pd_upper (header page)) :: rs). split.
    + by rewrite Hp, Hrs.
    + constructor; [done|]. rewrite Hrs. eapply Forall_impl; [exact Hlive|].
      unfold before. cbn [fst snd]. lia.
Qed.

(** ** Lemmas: deletion *)

Record delete_effect (page : Page) (i : nat) (lp : LinePointer) (page' : Page) : Prop := {
  de_len : zlen page' = zlen page;
  de_wf : wf_bytes page';
  de_header : header page' = header page;
  de_lps : lps page' = <[i := LP_with_flags lp Unused]> (lps page);
  de_rest : forall off n, pd_lower (header page) <= off -> slice off n page' = slice off n page
}.

Lemma with_flags_unused lp : in_u 32 lp -> LP_flags (LP_with_flags lp Unused) = Unused.
Proof.
  unfold in_u. intros. pose proof (LP_off_range lp). pose proof (LP_len_range lp).
  apply LP_flags_new; lia.
Qed.

Lemma geometry_same_header page page' :
  geometry page -> zlen page' = zlen page -> wf_bytes page' -> header page' = header page ->
  geometry page'.
Proof. intros [] ?? He. split; rewrite ?He; done || lia. Qed.

Lemma delete_tuple_effect page slot page' :
  geometry page -> 0 <= slot -> delete_tuple page slot = Ok page' ->
  exists lp, lps page !! Z.to_nat slot = Some lp /\ LP_flags lp = Normal /\
    delete_effect page (Z.to_nat slot) lp page'.
Proof.
  intros Hg Hs Hd. unfold delete_tuple in Hd. rewrite line_pointer_lookup in Hd by done.
  destruct (lps page !! Z.to_nat slot) as [lp|] eqn:El; [|done]. cbn [res_bind] in Hd.
  case_if Hd. exists lp. split; [done|]. split; [done|].
  assert (Hlp : in_u 32 lp).
  { pose proof (lps_range _ Hg) as Hr. rewrite Forall_lookup in Hr. by eapply Hr. }
  pose proof (LP_off_range lp) as Hor. pose proof (LP_len_range lp) as Hlr.
  assert (Hlp' : in_u 32 (LP_with_flags lp Unused)).
  { unfold in_u in *. apply LP_new_range; lia. }
  destruct (lps_in_page _ _ _ Hg El) as (_ & Hsc & Hin). rewrite Z2Nat.id in Hin, Hsc by lia.
  pose proof (geo_len _ Hg). pose proof (geo_special _ Hg). pose proof (geo_upper_special _ Hg).
  pose proof (geo_lower_upper _ Hg).
  unfold set_line_pointer, LP_to_le_bytes in Hd.
  rewrite slice_set_ok in Hd
    by (rewrite ?length_le_bytes; unfold PAGE_HEADER_SIZE, LINE_POINTER_SIZE in *; lia).
  apply Ok_inj in Hd as <-.
  assert (Hh : header (splice (PAGE_HEADER_SIZE + slot * LINE_POINTER_SIZE)
     (le_bytes 4 (LP_with_flags lp Unused)) page) = header page).
  { apply header_frame. unfold LINE_POINTER_SIZE. lia. }
  assert (Hw : wf_bytes (splice (PAGE_HEADER_SIZE + slot * LINE_POINTER_SIZE)
     (le_bytes 4 (LP_with_flags lp Unused)) page)).
  { pose proof (geo_wf _ Hg). auto with wf. }
  split; [by rewrite length_splice|done|done| |].
  - apply lps_ext.
    + apply (geometry_same_header page); [done|by rewrite length_splice|done|done].
    + unfold slot_count. rewrite Hh, length_insert, length_lps.
      destruct (slot_count_geometry _ Hg) as (? & ? & ?). rewrite Z2Nat.id by lia. done.
    + intros j Hj. rewrite length_insert, length_lps in Hj.
      unfold PAGE_HEADER_SIZE, LINE_POINTER_SIZE, PAGE_SIZE, in_u in *.
      rewrite list_lookup_insert. destruct (decide (Z.to_nat slot = j /\ _)) as [Hd|Hd].
      * destruct Hd as [<- _]. rewrite Z2Nat.id by lia. f_equal. symmetry.
        apply (get_put_same 4); (lia || done).
      * rewrite lookup_lps by lia. f_equal. symmetry.
        unfold PAGE_HEADER_SIZE, LINE_POINTER_SIZE in *.
        apply get_splice_disj; rewrite ?length_le_bytes, ?length_lps in *; lia.
  - intros off n Ho. apply slice_splice_disj;
      rewrite ?length_le_bytes; unfold PAGE_HEADER_SIZE, LINE_POINTER_SIZE in *; lia.
Qed.

Lemma delete_effect_inv page i lp page' :
  page_inv page -> lps page !! i = Some lp -> delete_effect page i lp page' -> page_inv page'.
Proof.
  intros [Hg Hlive Hdis] Hi He. pose proof (lps_range _ Hg) as Hr. rewrite Forall_lookup in Hr.
  assert (Hn : region (LP_with_flags lp Unused) = None).
  { unfold region. by rewrite decide_True by by eapply with_flags_unused, Hr. }
  pose proof (omap_insert_None_submseteq region i _ (lps page) Hn) as Hsub.
  rewrite <-(de_lps _ _ _ _ He) in Hsub.
  split.
  - destruct He. by apply (geometry_same_header page).
  - rewrite (de_header _ _ _ _ He). rewrite Forall_forall in *. intros r Hr'.
    apply Hlive. by eapply elem_of_submseteq.
  - by eapply regions_disjoint_submseteq.
Qed.

(** ** Lemmas: the executable invariant check *)

Definition region_ok (page : Page) (r : Z * Z) : Prop :=
  pd_upper (header page) <= fst r /\ snd r <= pd_special (header page).

#[export] Instance region_ok_dec page r : Decision (region_ok page r).
Proof. unfold region_ok. apply _. Defined.

Lemma collect_regions_spec page : forall n slot,
  geometry page -> 0 <= slot -> slot + Z.of_nat n <= slot_count page ->
  let rs := omap region (lps_from slot (Z.of_nat n) page) in
  collect_regions n slot page = if decide (Forall (region_ok page) rs) then Ok rs else Panic.
Proof.
  induction n as [|n IH]; intros slot Hg Hs Hn; [done|]. cbn [collect_regions].
  destruct (slot_count_geometry _ Hg) as (_ & H2 & H3).
  pose proof (geo_special _ Hg). pose proof (geo_upper_special _ Hg). pose proof (geo_lower_upper _ Hg).
  rewrite Z.mod_small by (unfold PAGE_HEADER_SIZE, LINE_POINTER_SIZE, PAGE_SIZE in *; lia).
  rewrite line_pointer_lookup, lookup_lps by (done || lia). rewrite Z2Nat.id by lia.
  unfold lps_from. rewrite seqZ_cons by lia. replace (Z.pred (Z.of_nat (S n))) with (Z.of_nat n) by lia.
  rewrite <-Z.add_1_r. specialize (IH (slot + 1) Hg ltac:(lia) ltac:(lia)).
  unfold lps_from in IH. cbn [fmap list_fmap omap list_omap].
  set (lp := get_le 4 _ page) in *. cbv zeta in IH. cbv zeta.
  assert (Hreg : region lp = if decide (LP_flags lp = Unused) then None
                             else Some (LP_off lp, LP_off lp + LP_len lp)) by done.
  rewrite Hreg. destruct (decide (LP_flags lp = Unused)) as [Hu|Hu]; [exact IH|].
  rewrite IH. unfold rassert. rewrite Z.geb_leb.
  destruct (Z.leb_spec (pd_upper (header page)) (LP_off lp)), (Z.leb_spec (LP_off lp + LP_len lp) (pd_special (header page)));
    cbn [res_bind]; try (rewrite decide_False; [done|rewrite Forall_cons; unfold region_ok; cbn [fst snd]; lia]).
  case_decide as Hr; cbn [res_bind].
  - rewrite decide_True; [done|]. constructor; [|done]. unfold region_ok; cbn [fst snd]; lia.
  - rewrite decide_False; [done|]. rewrite Forall_cons. tauto.
Qed.

Lemma region_ordered page : geometry page -> Forall (fun r => fst r <= snd r) (omap region (lps page)).
Proof.
  intros Hg. apply Forall_forall. intros r Hr. apply list_elem_of_omap in Hr as (lp & Hin & Hr).
  pose proof (lps_range _ Hg) as Hf. rewrite Forall_forall in Hf. apply Hf in Hin.
  unfold region in Hr. case_decide; [done|]. injection Hr as <-. cbn [fst snd].
  pose proof (LP_len_range lp Hin). lia.
Qed.

(** The source's run-time check accepts exactly the well-formed pages. *)
Lemma debug_assert_invariants_iff page :
  zlen page = PAGE_SIZE -> wf_bytes page ->
  debug_assert_invariants page = Ok tt <-> page_inv page.
Proof.
  intros Hl Hw. unfold debug_assert_invariants, rassert. split.
  - intros H. repeat case_if H. rewrite Z.geb_leb in *. zbool.
    assert (Hg : geometry page) by by split.
    destruct (slot_count_geometry _ Hg) as (_ & _ & ?).
    rewrite collect_regions_spec in H by (done || lia). rewrite Z2Nat.id in H by lia.
    fold (lps page) in H. case_decide as Hf; [|done]. cbn [res_bind] in H. case_if H.
    split; [done|exact Hf|]. apply windows_ok_disjoint; [by apply region_ordered|done].
  - intros [Hg Hf Hd]. pose proof Hg as [].
    rewrite Z.geb_leb, !(proj2 (Z.leb_le _ _)), geo_aligned0 by done. cbn [Z.eqb].
    destruct (slot_count_geometry _ Hg) as (_ & _ & ?).
    rewrite collect_regions_spec by (done || lia). rewrite Z2Nat.id by lia. fold (lps page).
    rewrite decide_True by exact Hf. cbn [res_bind].
    apply windows_ok_disjoint in Hd; [|by apply region_ordered]. by rewrite Hd.
Qed.

(** ** Lemmas: the view *)

Lemma slot_view_unused page lp : slot_view page lp = VUnused <-> LP_flags lp = Unused.
Proof. unfold slot_view. by destruct (LP_flags lp). Qed.

Lemma lp_in_bounds page lp :
  page_inv page -> lp ∈ lps page -> LP_flags lp <> Unused ->
  in_u 32 lp /\ pd_upper (header page) <= LP_off lp /\
  LP_off lp + LP_len lp <= pd_special (header page) /\ 0 <= LP_len lp.
Proof.
  intros [Hg Hlive _] Hin Hf. pose proof (lps_range _ Hg) as Hr. rewrite Forall_forall in Hr. rewrite Forall_forall in Hlive.
  specialize (Hr _ Hin). split; [done|]. pose proof (LP_len_range lp Hr).
  assert (Hreg : region lp = Some (LP_off lp, LP_off lp + LP_len lp)).
  { unfold region. by rewrite decide_False. }
  specialize (Hlive (LP_off lp, LP_off lp + LP_len lp)). cbn [fst snd] in Hlive.
  destruct Hlive; [|lia]. apply list_elem_of_omap. eauto.
Qed.

(** A write that spares the tuple area keeps every slot's view. *)
Lemma slot_view_frame page page' lp :
  page_inv page -> lp ∈ lps page ->
  (forall off n, pd_upper (header page) <= off -> slice off n page' = slice off n page) ->
  slot_view page' lp = slot_view page lp.
Proof.
  intros Hinv Hin Hs. unfold slot_view. destruct (LP_flags lp) eqn:E; try done.
  f_equal. apply Hs. apply (lp_in_bounds _ _ Hinv Hin). congruence.
Qed.

Lemma view_frame page page' :
  page_inv page ->
  (forall off n, pd_upper (header page) <= off -> slice off n page' = slice off n page) ->
  slot_view page' <$> lps page = view page.
Proof.
  intros Hinv Hs. apply list_fmap_ext. intros i lp Hi.
  apply slot_view_frame; [done|by eapply list_elem_of_lookup_2|done].
Qed.

Lemma view_add page bytes lp page' :
  page_inv page -> add_effect page bytes (first_unused page) lp page' ->
  view page' = put_slot (first_unused page) (VNormal bytes) (view page).
Proof.
  intros Hinv He. unfold view at 1. rewrite (ae_lps _ _ _ _ _ He), fmap_put_slot.
  rewrite view_frame by (done || apply (ae_old _ _ _ _ _ He)).
  destruct (add_effect_bounds _ _ _ _ _ (inv_geo _ Hinv) He) as (Hf & Ho & Hlen).
  f_equal. unfold slot_view. rewrite Hf, Ho, Hlen, <-(ae_upper _ _ _ _ _ He).
  f_equal. apply (ae_new _ _ _ _ _ He).
Qed.

Lemma first_unused_view page bytes :
  spec_add (view page) bytes = (first_unused page, put_slot (first_unused page) (VNormal bytes) (view page)).
Proof.
  unfold spec_add, first_unused, view, put_slot. rewrite list_find_fmap.
  rewrite (list_find_ext _ (fun lp => LP_flags lp = Unused)).
  2: { intros x. simpl. apply slot_view_unused. }
  rewrite length_fmap.
  destruct (list_find _ _) as [[i x]|] eqn:E; simpl.
  - apply list_find_Some in E as (E & _). apply lookup_lt_Some in E. by rewrite decide_True.
  - by rewrite decide_False by lia.
Qed.

Lemma view_delete page i lp page' :
  page_inv page -> lps page !! i = Some lp -> delete_effect page i lp page' ->
  view page' = <[i := VUnused]> (view page).
Proof.
  intros Hinv Hi He. unfold view at 1. rewrite (de_lps _ _ _ _ He), list_fmap_insert.
  pose proof (inv_geo _ Hinv) as Hg. pose proof (geo_lower_upper _ Hg).
  rewrite view_frame; [|done|].
  - f_equal. apply slot_view_unused, with_flags_unused.
    pose proof (lps_range _ Hg) as Hr. rewrite Forall_lookup in Hr. by eapply Hr.
  - intros. apply (de_rest _ _ _ _ He). lia.
Qed.

Lemma tuple_view page slot :
  page_inv page -> 0 <= slot ->
  tuple page slot =
    Ok (match view page !! Z.to_nat slot with Some (VNormal b) => Some b | _ => None end).
Proof.
  intros Hinv Hs. pose proof (inv_geo _ Hinv) as Hg. unfold tuple. cbn [tuple_loop].
  rewrite line_pointer_lookup by done. unfold view. rewrite list_lookup_fmap.
  destruct (lps page !! Z.to_nat slot) as [lp|] eqn:El; [|done]. cbn [fmap option_fmap option_map].
  pose proof (list_elem_of_lookup_2 _ _ _ El) as Hin.
  destruct (slot_count_geometry _ Hg) as (_ & H2 & H3).
  pose proof (geo_lower_upper _ Hg). pose proof (geo_len _ Hg). pose proof (geo_special _ Hg).
  pose proof (lp_in_bounds _ _ Hinv Hin) as Hb.
  unfold slot_view. destruct (LP_flags lp) eqn:Ef; cbn [decide]; try done;
    destruct Hb as (Hr & ? & ? & ?); try congruence.
  - rewrite decide_False by done. rewrite decide_True by done.
    rewrite checked_header_geometry by done. cbn [res_bind]. rewrite Z.gtb_ltb.
    rewrite !(proj2 (Z.ltb_ge _ _)) by lia. cbn [orb].
    pose proof (LP_off_range lp (proj1 Hr)).
    rewrite slice_get_ok by lia. by rewrite Z.add_simpl_l.
  - rewrite decide_True by done. apply lookup_lt_Some in El. rewrite length_lps in El.
    destruct (Z.to_nat (slot_count page)) as [|n] eqn:En; [lia|]. cbn [tuple_loop].
    rewrite line_pointer_lookup by (unfold PAGE_HEADER_SIZE, LINE_POINTER_SIZE in *; done || lia).
    rewrite lookup_ge_None_2; [done|]. rewrite length_lps.
    unfold PAGE_HEADER_SIZE, LINE_POINTER_SIZE in *. lia.
Qed.

(** ** Lemmas: initialisation and the chain pointer *)

Lemma init_with_special_fields page special :
  zlen page = PAGE_SIZE -> 0 <= special <= PAGE_SIZE - PAGE_HEADER_SIZE ->
  let p := init_with_special page special in
  zlen p = PAGE_SIZE /\ wf_bytes p /\ pd_lower (header p) = PAGE_HEADER_SIZE /\
  pd_upper (header p) = PAGE_SIZE - special /\ pd_special (header p) = PAGE_SIZE - special.
Proof.
  intros Hl Hs p.
  assert (Hlen : length (PageHeader_init_page (zeros (zlen page))) = length page).
  { unfold PageHeader_init_page. rewrite length_PageHeader_write_to, length_zeros. lia. }
  unfold PAGE_SIZE, PAGE_HEADER_SIZE in *. unfold p, init_with_special.
  rewrite (Z.mod_small (PAGE_SIZE - special)) by (unfold PAGE_SIZE; lia).
  split; [|split; [|split; [|split]]].
  - rewrite !length_put_le, Hlen. lia.
  - apply wf_put_le, wf_put_le, wf_PageHeader_write_to, wf_zeros.
  - unfold header, PageHeader_read_from. cbn [pd_lower]. bytes.
    change (get_le 2 14 ?p) with (pd_lower (PageHeader_read_from p)).
    unfold PageHeader_init_page. rewrite PageHeader_read_write; [done| |].
    + rewrite length_zeros. unfold PAGE_HEADER_SIZE. lia.
    + unfold PageHeader_wf, in_u. vm_compute. by repeat split.
  - unfold header, PageHeader_read_from, PAGE_SIZE. cbn [pd_upper].
    rewrite get_put_disj by lia.
    apply (get_put_same 2); [lia|rewrite Hlen; lia|]. change (256 ^ Z.of_nat 2) with 65536. lia.
  - unfold header, PageHeader_read_from, PAGE_SIZE. cbn [pd_special].
    apply (get_put_same 2); [lia|rewrite length_put_le, Hlen; lia|].
    change (256 ^ Z.of_nat 2) with 65536. lia.
Qed.

Lemma lps_empty page : pd_lower (header page) = PAGE_HEADER_SIZE -> lps page = [].
Proof. intros H. unfold lps, slot_count. by rewrite H. Qed.

Lemma init_inv page special :
  zlen page = PAGE_SIZE -> 0 <= special <= PAGE_SIZE - PAGE_HEADER_SIZE ->
  page_inv (init_with_special page special) /\ view (init_with_special page special) = [].
Proof.
  intros Hl Hs. destruct (init_with_special_fields page special Hl Hs) as (H1 & H2 & H3 & H4 & H5).
  pose proof (lps_empty _ H3) as He. split; [|unfold view; by rewrite He].
  split; [|rewrite He; by apply Forall_nil|rewrite He; exists []; by repeat constructor].
  split; rewrite ?H3, ?H4, ?H5; try done; unfold PAGE_SIZE, PAGE_HEADER_SIZE in *; lia.
Qed.

Lemma set_next_page_effect page next page' :
  page_inv page -> set_next_page page next = Ok page' ->
  page_inv page' /\ view page' = view page /\ header page' = header page.
Proof.
  intros Hinv Hn. pose proof (inv_geo _ Hinv) as Hg. unfold set_next_page, slice_set in Hn.
  case_if Hn. apply Ok_inj in Hn as <-. zbool.
  pose proof (geo_lower _ Hg). pose proof (geo_lower_upper _ Hg). pose proof (geo_upper_special _ Hg).
  assert (Hh : header (splice (pd_special (header page)) (le_bytes 8 (default 0 next)) page) = header page).
  { apply header_frame. lia. }
  assert (Hg' : geometry (splice (pd_special (header page)) (le_bytes 8 (default 0 next)) page)).
  { pose proof (geo_wf _ Hg).
    apply (geometry_same_header page); [done|by rewrite length_splice|auto with wf|done]. }
  destruct (slot_count_geometry _ Hg) as (_ & Hsc & ?).
  assert (Hlps : lps (splice (pd_special (header page)) (le_bytes 8 (default 0 next)) page) = lps page).
  { apply lps_ext; [done|unfold slot_count; rewrite Hh, length_lps; fold (slot_count page); lia|].
    intros i Hi. rewrite length_lps in Hi. rewrite lookup_lps by lia. f_equal. symmetry.
    unfold PAGE_HEADER_SIZE, LINE_POINTER_SIZE in *. apply get_splice_disj; lia. }
  split; [|split; [|done]].
  - destruct Hinv as [_ Hlive Hdis]. split; [done|by rewrite Hh, Hlps|by rewrite Hlps].
  - unfold view. rewrite Hlps. apply list_fmap_ext. intros i lp Hi.
    pose proof (list_elem_of_lookup_2 _ _ _ Hi) as Hin. unfold slot_view.
    destruct (LP_flags lp) eqn:Ef; try done. f_equal.
    destruct (lp_in_bounds _ _ Hinv Hin) as (Hr & ? & ? & ?); [congruence|].
    apply slice_splice_disj; [|lia|lia]. pose proof (LP_off_range lp (proj1 Hr)). lia.
Qed.

(** ** Properties *)

(** Pages the heap can build: initialisation, then any sequence of successful
    mutations. *)
Inductive page_reach : Page -> Prop :=
| reach_init page special :
    zlen page = PAGE_SIZE -> 0 <= special <= PAGE_SIZE - PAGE_HEADER_SIZE ->
    page_reach (init_with_special page special)
| reach_add page bytes slot page' :
    page_reach page -> wf_bytes bytes -> add_tuple page bytes = Ok (slot, page') -> page_reach page'
| reach_delete page slot page' :
    page_reach page -> 0 <= slot -> delete_tuple page slot = Ok page' -> page_reach page'
| reach_next page next page' :
    page_reach page -> set_next_page page next = Ok page' -> page_reach page'.

Lemma page_reach_inv page : page_reach page -> page_inv page.
Proof.
  induction 1 as [page special Hl Hs|page bytes slot page' _ IH Hw Ha|page slot page' _ IH Hs Hd
                 |page next page' _ IH Hn].
  - by apply init_inv.
  - apply add_tuple_effect in Ha as [_ He]; [|apply IH|done]. by eapply add_effect_inv.
  - apply delete_tuple_effect in Hd as (lp & Hlp & _ & He); [|apply IH|done].
    by eapply delete_effect_inv.
  - by eapply set_next_page_effect.
Qed.

(** A page built by any sequence of initialisation, insertions, deletions
    and chain-pointer writes always passes the source's own
    [debug_assert_invariants]: header geometry is ordered and aligned, every
    live region lies in [pd_upper, pd_special) and no two regions overlap. *)
Theorem slotted_page_invariants page :
  page_reach page -> debug_assert_invariants page = Ok tt.
Proof.
  intros Hr. apply page_reach_inv in Hr as Hinv. pose proof (inv_geo _ Hinv) as [].
  by apply debug_assert_invariants_iff.
Qed.

Lemma slotted_page_invariants_witness :
  let p0 := init_with_special (zeros PAGE_SIZE) HEAP_SPECIAL_SIZE in
  match add_tuple p0 [1; 2; 3] with
  | Ok (_, p1) => debug_assert_invariants p1 = Ok tt
  | _ => False
  end.
Proof.
  intros p0. destruct (add_tuple p0 [1; 2; 3]) as [[slot p1]| |] eqn:E.
  - apply slotted_page_invariants. apply (reach_add p0 [1; 2; 3] slot p1); [|by repeat constructor|done].
    apply reach_init; vm_compute; by repeat split.
  - vm_compute in E. discriminate E.
  - vm_compute in E. discriminate E.
Defined.

(** C33: the byte-level heap page refines a plain list of slots.  On a
    well-formed page, [add_tuple] that succeeds stores the bytes in the first
    unused slot or a new last slot and changes no other slot; [delete_tuple]
    succeeds exactly on a slot holding a tuple and only empties that slot;
    [tuple] returns exactly what the slot list holds. *)
Theorem slotted_page_refines page :
  page_inv page ->
  (forall bytes slot page', wf_bytes bytes -> add_tuple page bytes = Ok (slot, page') ->
     page_inv page' /\ (Z.to_nat slot, view page') = spec_add (view page) bytes /\
     tuple page' slot = Ok (Some bytes)) /\
  (forall slot, 0 <= slot ->
     match view page !! Z.to_nat slot with
     | Some (VNormal _) => exists page', delete_tuple page slot = Ok page' /\ page_inv page' /\
                             view page' = <[Z.to_nat slot := VUnused]> (view page)
     | _ => delete_tuple page slot = Err (InvalidSlot slot)
     end) /\
  (forall slot, 0 <= slot ->
     tuple page slot =
       Ok (match view page !! Z.to_nat slot with Some (VNormal b) => Some b | _ => None end)).
Proof.
  intros Hinv. pose proof (inv_geo _ Hinv) as Hg. split; [|split].
  - intros bytes slot page' Hw Ha. apply add_tuple_effect in Ha as [-> He]; [|done|done].
    pose proof (add_effect_inv _ _ _ _ Hinv He) as Hinv'. split; [done|].
    rewrite Nat2Z.id, first_unused_view, (view_add _ _ _ _ Hinv He). split; [done|].
    rewrite tuple_view by (done || lia). rewrite Nat2Z.id, (view_add _ _ _ _ Hinv He).
    rewrite lookup_put_slot; [by rewrite decide_True|].
    unfold view. rewrite length_fmap. apply first_unused_le.
  - intros slot Hs.
    assert (Hdt : delete_tuple page slot =
      match lps page !! Z.to_nat slot with
      | Some lp => if decide (LP_flags lp = Normal)
                   then set_line_pointer page slot (LP_with_flags lp Unused) else Err (InvalidSlot slot)
      | None => Err (InvalidSlot slot)
      end).
    { unfold delete_tuple. rewrite line_pointer_lookup by done. by destruct (lps page !! _). }
    unfold view. rewrite list_lookup_fmap.
    destruct (lps page !! Z.to_nat slot) as [lp|] eqn:El; [|done].
    cbn [fmap option_fmap option_map]. unfold slot_view at 1.
    destruct (LP_flags lp) eqn:Ef; try done.
    destruct (lps_in_page _ _ _ Hg El) as (_ & _ & Hin). rewrite Z2Nat.id in Hin by lia.
    rewrite decide_True in Hdt by done. unfold set_line_pointer in Hdt. pose proof Hg as [].
    rewrite slice_set_ok in Hdt.
    + eexists. split; [exact Hdt|].
      apply delete_tuple_effect in Hdt as (lp' & Hlp' & _ & He); [|done|done].
      rewrite El in Hlp'. injection Hlp' as <-.
      split; [by eapply delete_effect_inv|by eapply view_delete].
    + unfold PAGE_HEADER_SIZE, LINE_POINTER_SIZE. lia.
    + unfold LP_to_le_bytes. rewrite length_le_bytes.
      unfold PAGE_HEADER_SIZE, LINE_POINTER_SIZE in *. lia.
  - intros. by apply tuple_view.
Qed.

Lemma slotted_page_refines_witness :
  let p0 := init_with_special (zeros PAGE_SIZE) HEAP_SPECIAL_SIZE in
  tuple p0 0 = Ok None.
Proof.
  intros p0. assert (Hinv : page_inv p0) by (apply init_inv; vm_compute; by repeat split).
  apply (slotted_page_refines p0 Hinv). lia.
Defined.

(** The outcome of [add_tuple] on every branch of a page with a valid
    header: empty and oversized tuples are rejected, [PageFull] is returned with
    the exact need (4 more bytes when no slot can be recycled) and the exact
    free space, and in every other case the insertion succeeds. *)
Theorem add_tuple_outcome page bytes :
  geometry page -> wf_bytes bytes ->
  let len := zlen bytes in
  let need := len + (if decide (Exists (fun s => s = VUnused) (view page)) then 0 else LINE_POINTER_SIZE) in
  (len = 0 -> add_tuple page bytes = Err InvalidArgument) /\
  (0 < len -> Z.max 0 (pd_special (header page) - 36) < len ->
     add_tuple page bytes = Err (TupleTooLarge len)) /\
  (0 < len -> len <= Z.max 0 (pd_special (header page) - 36) -> free_space page < need ->
     add_tuple page bytes = Err (PageFull need (free_space page))) /\
  (0 < len -> len <= Z.max 0 (pd_special (header page) - 36) -> need <= free_space page ->
     exists slot page', add_tuple page bytes = Ok (slot, page')).
Proof.
  intros Hg Hw len need.
  destruct (slot_count_geometry _ Hg) as (Hsc & H2 & H3). pose proof Hg as [].
  assert (Hfree : free_space page = pd_upper (header page) - pd_lower (header page)).
  { unfold free_space. lia. }
  assert (Hneed : need = len + if list_find (fun lp => LP_flags lp = Unused) (lps page)
                            is Some _ then 0 else LINE_POINTER_SIZE).
  { unfold need. f_equal. destruct (list_find _ _) as [[i x]|] eqn:E.
    - rewrite decide_True; [done|]. apply list_find_Some in E as (E & Hx & _).
      apply Exists_exists. exists (slot_view page x). split; [|by apply slot_view_unused].
      apply list_elem_of_fmap. exists x. split; [done|by eapply list_elem_of_lookup_2].
    - rewrite decide_False; [done|]. intros He. apply Exists_exists in He as (v & Hv & ->).
      apply list_elem_of_fmap in Hv as (x & Hx & Hin). apply list_find_None in E.
      rewrite Forall_forall in E. apply (E x Hin). by apply (slot_view_unused page). }
  unfold add_tuple. rewrite checked_header_geometry by done. cbn [res_bind].
  rewrite <-Hsc, find_unused_lps by done. cbn [res_bind]. fold len.
  change (PAGE_HEADER_SIZE + LINE_POINTER_SIZE) with 36. rewrite Z.gtb_ltb.
  split; [|split; [|split]].
  - intros ->. done.
  - intros ??. rewrite (proj2 (Z.eqb_neq _ _)), (proj2 (Z.ltb_lt _ _)) by lia. done.
  - intros ???. rewrite (proj2 (Z.eqb_neq _ _)), (proj2 (Z.ltb_ge _ _)) by lia.
    rewrite <-Hfree, Hneed in *. destruct (list_find _ _) as [[i x]|]; cbn [fmap option_fmap option_map];
      rewrite (proj2 (Z.ltb_lt _ _)) by lia; done.
  - intros ???. rewrite (proj2 (Z.eqb_neq _ _)), (proj2 (Z.ltb_ge _ _)) by lia.
    rewrite Hneed, Hfree in *. unfold PAGE_HEADER_SIZE, LINE_POINTER_SIZE, PAGE_SIZE in *.
    destruct (list_find _ _) as [[i x]|] eqn:E; cbn [fmap option_fmap option_map fst];
      rewrite (proj2 (Z.ltb_ge _ _)) by lia; rewrite slice_set_ok by lia; cbn [res_bind];
      unfold set_line_pointer, PAGE_HEADER_SIZE, LINE_POINTER_SIZE, LP_to_le_bytes.
    + apply list_find_Some in E as (E & _). apply lookup_lt_Some in E. rewrite length_lps in E.
      rewrite slice_set_ok by len_lia. cbn [res_bind]. eauto.
    + rewrite Z.mod_small by lia. rewrite slice_set_ok by len_lia. cbn [res_bind]. eauto.
Qed.

Lemma add_tuple_outcome_witness :
  add_tuple (init_with_special (zeros PAGE_SIZE) HEAP_SPECIAL_SIZE) [] = Err InvalidArgument.
Proof.
  apply (add_tuple_outcome (init_with_special (zeros PAGE_SIZE) HEAP_SPECIAL_SIZE) []).
  - apply init_inv; vm_compute; by repeat split.
  - constructor.
  - reflexivity.
Defined.

(** Corrupted bytes never cause a panic: whatever the 8192 bytes of a page
    are, every operation that reads or mutates line pointers and tuples returns
    a value or an error, and the REDIRECT walk of [tuple] always terminates. *)
Theorem slotted_page_no_panic page slot bytes :
  zlen page = PAGE_SIZE -> wf_bytes page -> 0 <= slot ->
  line_pointer page slot <> Panic /\ tuple page slot <> Panic /\ next_page page <> Panic /\
  delete_tuple page slot <> Panic /\ add_tuple page bytes <> Panic.
Proof.
  intros Hl Hw Hs.
  destruct (checked_header_cases page) as [[h Hh]|Hh].
  2: { unfold line_pointer, tuple, next_page, delete_tuple, add_tuple. cbn [tuple_loop].
       unfold line_pointer. rewrite Hh. done. }
  apply checked_header_inv in Hh as [-> Hg]; [|done|done].
  pose proof (checked_header_geometry _ Hg) as Hh. pose proof Hg as [].
  assert (Hlp : forall s, 0 <= s -> line_pointer page s <> Panic).
  { intros s ?. rewrite line_pointer_lookup by done. by destruct (lps page !! _). }
  split; [by apply Hlp|split; [|split; [|split]]].
  - unfold tuple. generalize (S (Z.to_nat (slot_count page))). intros n. revert slot Hs.
    induction n as [|n IH]; intros slot Hs; [done|]. cbn [tuple_loop].
    rewrite line_pointer_lookup by done.
    destruct (lps page !! Z.to_nat slot) as [lp|] eqn:E; [|done].
    pose proof (lps_range _ Hg) as Hr. rewrite Forall_lookup in Hr. apply Hr in E as Hlr.
    pose proof (LP_off_range lp (proj1 Hlr)). pose proof (LP_len_range lp Hlr).
    case_decide; [apply IH; lia|]. case_decide; [|done]. rewrite Hh. cbn [res_bind].
    destruct (_ || _) eqn:Eb; [done|]. zbool. rewrite slice_get_ok by lia. done.
  - unfold next_page. rewrite Hh. cbn [res_bind]. destruct (negb _) eqn:E; [done|]. zbool.
    unfold HEAP_SPECIAL_SIZE, PAGE_SIZE in *. by rewrite slice_get_ok by lia.
  - unfold delete_tuple. rewrite line_pointer_lookup by done.
    destruct (lps page !! Z.to_nat slot) as [lp|] eqn:E; [|done]. cbn [res_bind].
    case_decide; [|done]. destruct (lps_in_page _ _ _ Hg E) as (_ & _ & Hin).
    rewrite Z2Nat.id in Hin by lia.
    unfold set_line_pointer, LP_to_le_bytes, PAGE_HEADER_SIZE, LINE_POINTER_SIZE in *.
    by rewrite slice_set_ok by len_lia.
  - intros Hp. unfold add_tuple in Hp. rewrite Hh in Hp. cbn [res_bind] in Hp.
    destruct (slot_count_geometry _ Hg) as (Hsc & H2 & H3).
    rewrite <-Hsc, find_unused_lps in Hp by done. cbn [res_bind] in Hp. repeat case_if Hp. zbool.
    unfold PAGE_HEADER_SIZE, LINE_POINTER_SIZE, PAGE_SIZE in *.
    destruct (list_find _ _) as [[i x]|] eqn:E; cbn [fmap option_fmap option_map fst] in *;
      rewrite slice_set_ok in Hp by lia; cbn [res_bind] in Hp;
      unfold set_line_pointer, PAGE_HEADER_SIZE, LINE_POINTER_SIZE, LP_to_le_bytes in Hp.
    + apply list_find_Some in E as (E & _). apply lookup_lt_Some in E. rewrite length_lps in E.
      by rewrite slice_set_ok in Hp by len_lia.
    + rewrite (Z.mod_small (slot_count page)) in Hp by lia. by rewrite slice_set_ok in Hp by len_lia.
Qed.

(** A page of garbage: the corrupted header is reported, not a panic. *)
Lemma slotted_page_no_panic_witness :
  let page := replicate (Z.to_nat PAGE_SIZE) 255 in
  tuple page 7 = Err Corrupted /\ tuple page 7 <> Panic.
Proof.
  intros page. split; [vm_compute; reflexivity|].
  apply (slotted_page_no_panic page 7 []); [reflexivity|by apply Forall_replicate|lia].
Defined.

(** The page-chain pointer: on a well-formed page with the 16-byte special
    space, writing a next-page id and reading it back gives the same id
    ([None] for the zero id), and no slot of the page changes. *)
Theorem next_page_roundtrip page next :
  page_inv page -> pd_special (header page) = PAGE_SIZE - HEAP_SPECIAL_SIZE ->
  (forall p, next = Some p -> in_u 64 p /\ p <> PageId_INVALID) ->
  exists page', set_next_page page next = Ok page' /\
    next_page page' = Ok next /\ view page' = view page /\ page_inv page'.
Proof.
  intros Hinv Hsp Hn. pose proof (geo_len _ (inv_geo _ Hinv)).
  assert (Hset : set_next_page page next =
            Ok (splice (pd_special (header page)) (le_bytes 8 (default 0 next)) page)).
  { unfold set_next_page. rewrite Hsp. unfold PAGE_SIZE, HEAP_SPECIAL_SIZE in *.
    by rewrite slice_set_ok by len_lia. }
  eexists. split; [exact Hset|].
  destruct (set_next_page_effect _ _ _ Hinv Hset) as (Hinv' & Hv & Hh). split; [|done].
  unfold next_page. rewrite checked_header_geometry by apply Hinv'. cbn [res_bind].
  rewrite Hh, Hsp. unfold PAGE_SIZE, HEAP_SPECIAL_SIZE in *.
  cbn [Z.eqb negb Pos.eqb]. rewrite slice_get_ok by len_lia. cbn [res_bind].
  rewrite slice_splice_same by len_lia. unfold in_u, PageId_INVALID in *.
  destruct next as [p|]; [|done]. destruct (Hn p eq_refl) as [Hp Hp0].
  change (default 0 (Some p)) with p.
  rewrite le_val_le_bytes_id by (change (256 ^ Z.of_nat 8) with (2 ^ 64); lia).
  rewrite (proj2 (Z.eqb_neq p 0)) by done. done.
Qed.
