(* ===== verification/Tuple.v ===== *)
(** * Heap tuples and TOAST pointers

    Models [pg-am-heap/src/tuple.rs] (the 64-byte tuple header, column types and
    values, [encode_tuple] and [decode_tuple]) and [toast.rs] (the 20-byte
    pointer).  Signed integers are [Z] in two's-complement range; a [String] is
    its UTF-8 bytes and [String::from_utf8] the well-formedness table of the
    Unicode standard; a [Uuid] is its 16 bytes. *)

From S2P Require Import Prelude Types LinePointer.
Local Open Scope Z_scope.
Local Open Scope rust_scope.

(** ** toast.rs *)

Definition TOAST_POINTER_SIZE : Z := 20.
Definition VARLENA_EXTERNAL_FLAG : Z := 0x40000000.
Definition VARLENA_TAG_MASK : Z := 0xC0000000.
Definition VARLENA_LEN_MASK : Z := 0x3FFFFFFF.

Definition is_external (vl_len : Z) : bool := Z.land vl_len VARLENA_TAG_MASK =? VARLENA_EXTERNAL_FLAG.

Record ToastPointer := mkToastPointer {
  va_rawsize : Z; va_extsize : Z; va_valueid : Z; va_toastrelid : Z }.

#[export] Instance ToastPointer_eq_dec : EqDecision ToastPointer.
Proof. solve_decision. Defined.

Definition ToastPointer_encode (p : ToastPointer) : list Z :=
  le_bytes 4 (Z.lor TOAST_POINTER_SIZE VARLENA_EXTERNAL_FLAG) ++ le_bytes 4 (va_rawsize p)
    ++ le_bytes 4 (va_extsize p) ++ le_bytes 4 (va_valueid p) ++ le_bytes 4 (va_toastrelid p).

Definition ToastPointer_decode (bytes : list Z) : res HeapError ToastPointer :=
  if negb (zlen bytes =? TOAST_POINTER_SIZE) then Err Corrupted else
  let vl_len := get_le 4 0 bytes in
  if negb (is_external vl_len) then Err Corrupted else
  if negb (Z.land vl_len VARLENA_LEN_MASK =? TOAST_POINTER_SIZE) then Err Corrupted else
  Ok (mkToastPointer (get_le 4 4 bytes) (get_le 4 8 bytes) (get_le 4 12 bytes) (get_le 4 16 bytes)).

(** ** tuple.rs: header *)

Definition TUPLE_HEADER_SIZE : Z := 64.
Definition HEAP_HASNULL : Z := 0x0001.
Definition HEAP_HASVARWIDTH : Z := 0x0002.
Definition HEAP_HASEXTERNAL : Z := 0x0004.
Definition HEAP_NATTS_MASK : Z := 0x07FF.
Definition TUPLE_VERSION_MASK : Z := 0x000F.
Definition TUPLE_VERSION_M2 : Z := 0.
Definition MAX_NATTS : Z := 2047.

Record TupleHeader := mkTupleHeader {
  t_xmin : TxnId;
  t_xmax : TxnId;
  t_agent_id : Z;
  t_trace_id : list Z;
  t_ctid : Tid;
  t_infomask : Z;
  t_infomask2 : Z;
  t_hoff : Z;
  t_flags : Z;
  t_cid : Z;
}.

Definition TupleHeader_new (t_xmin t_xmax : TxnId) (t_agent_id : Z) (t_trace_id : list Z) (t_ctid : Tid) (t_cid : Z)
    : TupleHeader :=
  mkTupleHeader t_xmin t_xmax t_agent_id t_trace_id t_ctid 0 0 0 0 t_cid.

Definition natts (h : TupleHeader) : Z := Z.land (t_infomask2 h) HEAP_NATTS_MASK.

Definition TupleHeader_write_to (h : TupleHeader) (buf : list Z) : list Z :=
  let buf := put_le 8 0 (t_xmin h) buf in
  let buf := put_le 8 8 (t_xmax h) buf in
  let buf := put_le 8 16 (t_agent_id h) buf in
  let buf := splice 24 (t_trace_id h) buf in
  let buf := put_le 8 40 (page_id (t_ctid h)) buf in
  let buf := put_le 2 48 (slot_id (t_ctid h)) buf in
  let buf := put_le 2 50 0 buf in
  let buf := put_le 2 52 (t_infomask h) buf in
  let buf := put_le 2 54 (t_infomask2 h) buf in
  let buf := put_le 2 56 (t_hoff h) buf in
  let buf := put_le 2 58 (t_flags h) buf in
  put_le 4 60 (t_cid h) buf.

Definition TupleHeader_read_from (bytes : list Z) : res HeapError TupleHeader :=
  if zlen bytes <? TUPLE_HEADER_SIZE then Err Corrupted else
  if negb (get_le 2 50 bytes =? 0) then Err Corrupted else
  Ok (mkTupleHeader (get_le 8 0 bytes) (get_le 8 8 bytes) (get_le 8 16 bytes) (slice 24 16 bytes)
        (mkTid (get_le 8 40 bytes) (get_le 2 48 bytes)) (get_le 2 52 bytes) (get_le 2 54 bytes)
        (get_le 2 56 bytes) (get_le 2 58 bytes) (get_le 4 60 bytes)).

(** ** Columns and values *)

Inductive ColumnType := Int4 | Int8 | Timestamptz | Uuid | Text | Bytea.

#[export] Instance ColumnType_eq_dec : EqDecision ColumnType.
Proof. solve_decision. Defined.

Definition fixed_width (c : ColumnType) : option Z :=
  match c with
  | Int4 => Some 4
  | Int8 | Timestamptz => Some 8
  | Uuid => Some 16
  | Text | Bytea => None
  end.

Inductive Datum :=
| DInt4 (v : Z) | DInt8 (v : Z) | DTimestamptz (v : Z) | DUuid (bs : list Z)
| DText (s : list Z) | DBytea (b : list Z) | DExternal (p : ToastPointer).

#[export] Instance Datum_eq_dec : EqDecision Datum.
Proof. solve_decision. Defined.

(** [Ord] on byte slices. *)
Fixpoint bytes_cmp (a b : list Z) : comparison :=
  match a, b with
  | [], [] => Eq
  | [], _ => Lt
  | _, [] => Gt
  | x :: a, y :: b => match x ?= y with Eq => bytes_cmp a b | c => c end
  end.

Definition Datum_partial_cmp (a b : Datum) : option comparison :=
  match a, b with
  | DInt4 a, DInt4 b | DInt8 a, DInt8 b | DTimestamptz a, DTimestamptz b => Some (a ?= b)
  | DUuid a, DUuid b | DText a, DText b | DBytea a, DBytea b => Some (bytes_cmp a b)
  | _, _ => None
  end.

Definition column_type (d : Datum) : ColumnType :=
  match d with
  | DInt4 _ => Int4 | DInt8 _ => Int8 | DTimestamptz _ => Timestamptz | DUuid _ => Uuid
  | DText _ => Text | DBytea _ => Bytea | DExternal _ => Bytea
  end.

(** Well-formed UTF-8 (Unicode 15, table 3-7). *)
Definition cont (b : Z) : bool := (0x80 <=? b) && (b <=? 0xBF).
Definition between (lo b hi : Z) : bool := (lo <=? b) && (b <=? hi).

Fixpoint utf8_valid (s : list Z) : bool :=
  match s with
  | [] => true
  | b0 :: s1 =>
      if b0 <=? 0x7F then utf8_valid s1 else
      match s1 with
      | [] => false
      | b1 :: s2 =>
          if between 0xC2 b0 0xDF then cont b1 && utf8_valid s2 else
          match s2 with
          | [] => false
          | b2 :: s3 =>
              if b0 =? 0xE0 then between 0xA0 b1 0xBF && cont b2 && utf8_valid s3
              else if b0 =? 0xED then between 0x80 b1 0x9F && cont b2 && utf8_valid s3
              else if between 0xE1 b0 0xEF then cont b1 && cont b2 && utf8_valid s3
              else
                match s3 with
                | [] => false
                | b3 :: s4 =>
                    (if b0 =? 0xF0 then between 0x90 b1 0xBF
                     else if between 0xF1 b0 0xF3 then cont b1
                     else if b0 =? 0xF4 then between 0x80 b1 0x8F else false)
                    && cont b2 && cont b3 && utf8_valid s4
                end
          end
      end
  end.

(** ** Encoding *)

Definition datum_matches (col : ColumnType) (d : Datum) : bool :=
  match d with
  | DExternal _ => bool_decide (fixed_width col = None)
  | d => bool_decide (col = column_type d)
  end.

(** The validation loop: HASNULL, HASVARWIDTH and HASEXTERNAL. *)
Fixpoint scan_values (columns : list ColumnType) (values : list (option Datum)) (acc : bool * bool * bool)
    : res HeapError (bool * bool * bool) :=
  match columns, values with
  | col :: columns, val :: values =>
      let '(has_null, has_varwidth, has_external) := acc in
      match val with
      | None => scan_values columns values (true, has_varwidth, has_external)
      | Some d =>
          if negb (datum_matches col d) then Err InvalidArgument else
          scan_values columns values
            (has_null, has_varwidth || bool_decide (fixed_width col = None),
             has_external || match d with DExternal _ => true | _ => false end)
      end
  | _, _ => Ok acc
  end.

(** [bitmap[i / 8] |= 1 << (i % 8)] for every NULL, from column [i] on. *)
Fixpoint write_bitmap (i : nat) (values : list (option Datum)) (out : list Z) : list Z :=
  match values with
  | [] => out
  | val :: values =>
      let k := (Z.to_nat TUPLE_HEADER_SIZE + i / 8)%nat in
      let out := match val with
                 | None => <[k := Z.lor (nth k out 0) (Z.shiftl 1 (Z.of_nat (i mod 8)))]> out
                 | Some _ => out
                 end in
      write_bitmap (S i) values out
  end.

Definition write_inline_varlena (out payload : list Z) : res HeapError (list Z) :=
  if zlen payload + 4 >? VARLENA_LEN_MASK then Err InvalidArgument
  else Ok (out ++ le_bytes 4 (zlen payload + 4) ++ payload).

Fixpoint write_values (values : list (option Datum)) (out : list Z) : res HeapError (list Z) :=
  match values with
  | [] => Ok out
  | None :: values => write_values values out
  | Some d :: values =>
      let? out :=
        match d with
        | DInt4 v => Ok (out ++ le_bytes 4 (to_unsigned 32 v))
        | DInt8 v | DTimestamptz v => Ok (out ++ le_bytes 8 (to_unsigned 64 v))
        | DUuid v => Ok (out ++ v)
        | DText s => write_inline_varlena out s
        | DBytea b => write_inline_varlena out b
        | DExternal p => Ok (out ++ ToastPointer_encode p)
        end in
      write_values values out
  end.

Definition flag (b : bool) (bit : Z) : Z := if b then bit else 0.

(** The header [encode_tuple] writes: structural bits recomputed, hint bits kept. *)
Definition stamp_header (h : TupleHeader) (n hoff : Z) (has_null has_varwidth has_external : bool) : TupleHeader :=
  mkTupleHeader (t_xmin h) (t_xmax h) (t_agent_id h) (t_trace_id h) (t_ctid h)
    (Z.lor (Z.lor (Z.lor (Z.land (t_infomask h) (65535 - (HEAP_HASNULL + HEAP_HASVARWIDTH + HEAP_HASEXTERNAL)))
       (flag has_null HEAP_HASNULL)) (flag has_varwidth HEAP_HASVARWIDTH)) (flag has_external HEAP_HASEXTERNAL))
    (Z.lor (Z.land (t_infomask2 h) (65535 - HEAP_NATTS_MASK)) n)
    hoff
    (Z.lor (Z.land (t_flags h) (65535 - TUPLE_VERSION_MASK)) TUPLE_VERSION_M2)
    (t_cid h).

Definition encode_tuple (header : TupleHeader) (columns : list ColumnType) (values : list (option Datum))
    : res HeapError (list Z) :=
  if negb (length columns =? length values)%nat then Err InvalidArgument else
  let n := zlen columns in
  if n >? MAX_NATTS then Err InvalidArgument else
  let? '(has_null, has_varwidth, has_external) := scan_values columns values (false, false, false) in
  let bitmap_len := if has_null : bool then (n + 7) / 8 else 0 in
  let hoff := (TUPLE_HEADER_SIZE + bitmap_len + 7) / 8 * 8 in
  let header := stamp_header header n hoff has_null has_varwidth has_external in
  let out := TupleHeader_write_to header (zeros TUPLE_HEADER_SIZE) in
  let out := out ++ zeros (hoff - TUPLE_HEADER_SIZE) in
  let out := if has_null then write_bitmap 0 values out else out in
  write_values values out.

(** ** Decoding *)

(** [take(bytes, &mut pos, n)]: the bytes and the new position. *)
Definition take_bytes (bytes : list Z) (pos n : Z) : res HeapError (list Z * Z) :=
  if pos + n >? zlen bytes then Err Corrupted
  else let? out := slice_get pos n bytes in Ok (out, pos + n).

Definition decode_column (bytes : list Z) (col : ColumnType) (pos : Z) : res HeapError (Datum * Z) :=
  match fixed_width col with
  | Some width =>
      let? '(field, pos) := take_bytes bytes pos width in
      match col with
      | Int4 => Ok (DInt4 (to_signed 32 (le_val field)), pos)
      | Int8 => Ok (DInt8 (to_signed 64 (le_val field)), pos)
      | Timestamptz => Ok (DTimestamptz (to_signed 64 (le_val field)), pos)
      | Uuid => Ok (DUuid field, pos)
      | Text | Bytea => Panic
      end
  | None =>
      let? '(b, pos) := take_bytes bytes pos 4 in
      let vl_len := le_val b in
      if is_external vl_len then
        let pos := pos - 4 in
        let? '(raw, pos) := take_bytes bytes pos TOAST_POINTER_SIZE in
        let? p := ToastPointer_decode raw in
        Ok (DExternal p, pos)
      else
        let total := Z.land vl_len VARLENA_LEN_MASK in
        if total <? 4 then Err Corrupted else
        let? '(payload, pos) := take_bytes bytes pos (total - 4) in
        match col with
        | Text => if utf8_valid payload then Ok (DText payload, pos) else Err Corrupted
        | Bytea => Ok (DBytea payload, pos)
        | _ => Panic
        end
  end.

Definition is_null (bytes : list Z) (has_null : bool) (i : nat) : res HeapError bool :=
  if has_null then
    match bytes !! (Z.to_nat TUPLE_HEADER_SIZE + i / 8)%nat with
    | Some b => Ok (negb (Z.land b (Z.shiftl 1 (Z.of_nat (i mod 8))) =? 0))
    | None => Panic
    end
  else Ok false.

Fixpoint decode_columns (bytes : list Z) (has_null : bool) (i : nat) (columns : list ColumnType) (pos : Z)
    : res HeapError (list (option Datum) * Z) :=
  match columns with
  | [] => Ok ([], pos)
  | col :: columns =>
      let? null := is_null bytes has_null i in
      if null : bool then
        let? '(vs, pos) := decode_columns bytes has_null (S i) columns pos in
        Ok (None :: vs, pos)
      else
        let? '(d, pos) := decode_column bytes col pos in
        let? '(vs, pos) := decode_columns bytes has_null (S i) columns pos in
        Ok (Some d :: vs, pos)
  end.

Definition decode_tuple (bytes : list Z) (columns : list ColumnType)
    : res HeapError (TupleHeader * list (option Datum)) :=
  let? header := TupleHeader_read_from bytes in
  if negb (natts header =? zlen columns) then Err Corrupted else
  let hoff := t_hoff header in
  if (hoff <? TUPLE_HEADER_SIZE) || (hoff >? zlen bytes) || negb (hoff mod 8 =? 0) then Err Corrupted else
  let has_null := negb (Z.land (t_infomask header) HEAP_HASNULL =? 0) in
  let bitmap_len := if has_null then (zlen columns + 7) / 8 else 0 in
  if has_null && (TUPLE_HEADER_SIZE + bitmap_len >? hoff) then Err Corrupted else
  let? '(values, pos) := decode_columns bytes has_null 0 columns hoff in
  if negb (pos =? zlen bytes) then Err Corrupted else
  Ok (header, values).

(** ** Well-formed inputs *)

Record header_wf (h : TupleHeader) : Prop := {
  hw_xmin : in_u 64 (t_xmin h);
  hw_xmax : in_u 64 (t_xmax h);
  hw_agent : in_u 64 (t_agent_id h);
  hw_trace : length (t_trace_id h) = 16%nat;
  hw_page : in_u 64 (page_id (t_ctid h));
  hw_slot : in_u 16 (slot_id (t_ctid h));
  hw_mask : in_u 16 (t_infomask h);
  hw_mask2 : in_u 16 (t_infomask2 h);
  hw_hoff : in_u 16 (t_hoff h);
  hw_flags : in_u 16 (t_flags h);
  hw_cid : in_u 32 (t_cid h);
}.

Definition toast_wf (p : ToastPointer) : Prop :=
  in_u 32 (va_rawsize p) /\ in_u 32 (va_extsize p) /\ in_u 32 (va_valueid p) /\ in_u 32 (va_toastrelid p).

(** Values of the Rust types. *)
Definition datum_wf (d : Datum) : Prop :=
  match d with
  | DInt4 v => in_i 32 v
  | DInt8 v | DTimestamptz v => in_i 64 v
  | DUuid bs => length bs = 16%nat
  | DText s => utf8_valid s = true
  | DBytea _ => True
  | DExternal p => toast_wf p
  end.

(** ** Lemmas: headers and pointers *)

Lemma lor_bound a b n : 0 <= n -> 0 <= a < 2 ^ n -> 0 <= b < 2 ^ n -> 0 <= Z.lor a b < 2 ^ n.
Proof.
  intros Hn Ha Hb. rewrite <-(Z.mod_small a (2 ^ n)), <-(Z.mod_small b (2 ^ n)) by done.
  rewrite <-!Z.land_ones, <-Z.land_lor_distr_l, Z.land_ones by done. apply Z.mod_pos_bound. lia.
Qed.

Lemma land_bound a m n : 0 <= n -> 0 <= a < 2 ^ n -> 0 <= m -> 0 <= Z.land a m < 2 ^ n.
Proof.
  intros Hn Ha Hm. rewrite <-(Z.mod_small a (2 ^ n)) by done. rewrite <-Z.land_ones by done.
  rewrite <-Z.land_assoc, (Z.land_comm (Z.ones n)), Z.land_assoc, Z.land_ones by done. apply Z.mod_pos_bound. lia.
Qed.

Lemma length_write_to h buf : length (TupleHeader_write_to h buf) = length buf.
Proof. unfold TupleHeader_write_to. by rewrite ?length_put_le, ?length_splice, ?length_put_le. Qed.

Lemma header_roundtrip h rest :
  header_wf h -> TupleHeader_read_from (TupleHeader_write_to h (zeros TUPLE_HEADER_SIZE) ++ rest) = Ok h.
Proof.
  intros [H1 H2 H3 H4 H5 H6 H7 H8 H9 H10 H11]. unfold in_u in *.
  unfold TupleHeader_read_from, TUPLE_HEADER_SIZE.
  assert (Hl : length (TupleHeader_write_to h (zeros 64)) = 64%nat) by (by rewrite length_write_to).
  rewrite length_app, Hl, (proj2 (Z.ltb_ge _ _)) by lia.
  rewrite !get_le_app_l, slice_app_l by lia.
  unfold TupleHeader_write_to. bytes. cbn [negb Z.eqb]. by destruct h as [? ? ? ? [] ? ? ? ? ?].
Qed.

Lemma toast_roundtrip p : toast_wf p -> ToastPointer_decode (ToastPointer_encode p) = Ok p.
Proof.
  intros (H1 & H2 & H3 & H4). unfold in_u in *. unfold ToastPointer_decode.
  assert (Hl : zlen (ToastPointer_encode p) = TOAST_POINTER_SIZE).
  { unfold ToastPointer_encode. by rewrite !length_app, !length_le_bytes. }
  rewrite Hl. unfold ToastPointer_encode.
  set (v := Z.lor TOAST_POINTER_SIZE VARLENA_EXTERNAL_FLAG). assert (Hv : 0 <= v < 2 ^ 32) by (vm_compute; split; [discriminate|reflexivity]).
  rewrite (get_le_head 4 v) by (simpl; lia).
  change (is_external v) with true. change (Z.land v VARLENA_LEN_MASK =? TOAST_POINTER_SIZE) with true.
  change (TOAST_POINTER_SIZE =? TOAST_POINTER_SIZE) with true. cbn [negb].
  assert (F : get_le 4 4 (ToastPointer_encode p) = va_rawsize p /\ get_le 4 8 (ToastPointer_encode p) = va_extsize p /\
              get_le 4 12 (ToastPointer_encode p) = va_valueid p /\ get_le 4 16 (ToastPointer_encode p) = va_toastrelid p).
  { unfold ToastPointer_encode. rewrite <-(app_nil_r (le_bytes 4 (va_toastrelid p))). repeat split; read_field. }
  destruct F as (F1 & F2 & F3 & F4). fold v in F1, F2, F3, F4. unfold ToastPointer_encode in F1, F2, F3, F4. fold v in F1, F2, F3, F4.
  rewrite F1, F2, F3, F4. by destruct p.
Qed.

(** ** Lemmas: values *)

Definition datum_bytes (d : Datum) : list Z :=
  match d with
  | DInt4 v => le_bytes 4 (to_unsigned 32 v)
  | DInt8 v | DTimestamptz v => le_bytes 8 (to_unsigned 64 v)
  | DUuid v => v
  | DText s | DBytea s => le_bytes 4 (zlen s + 4) ++ s
  | DExternal p => ToastPointer_encode p
  end.

(** A varlena payload that fits its length field. *)
Definition datum_fits (d : Datum) : Prop :=
  match d with DText s | DBytea s => zlen s + 4 <= VARLENA_LEN_MASK | _ => True end.

Definition values_bytes (values : list (option Datum)) : list Z :=
  concat ((fun v => match v with Some d => datum_bytes d | None => [] end) <$> values).

Lemma write_values_ok values out o :
  write_values values out = Ok o ->
  o = out ++ values_bytes values /\ forall d, Some d ∈ values -> datum_fits d.
Proof.
  revert out. induction values as [|[d|] values IH]; intros out H; cbn [write_values] in H.
  - apply Ok_inj in H as <-. unfold values_bytes. simpl. rewrite app_nil_r. split; [done|]. intros d Hd. by apply not_elem_of_nil in Hd.
  - inv_bind H. apply IH in H as [-> Hf].
    assert (a = out ++ datum_bytes d /\ datum_fits d) as [-> Hd].
    { destruct d; simpl in *; try (by apply Ok_inj in Ha as <-); unfold write_inline_varlena in Ha;
        case_match eqn:E; try done; apply Ok_inj in Ha as <-; rewrite Z.gtb_ltb in E; apply Z.ltb_ge in E; done. }
    split; [unfold values_bytes; cbn [fmap list_fmap concat]; by rewrite app_assoc|].
    intros d' Hd'. apply elem_of_cons in Hd' as [Heq|Hd']; [by injection Heq as ->|by apply Hf].
  - apply IH in H as [-> Hf]. split; [done|]. intros d Hd. apply elem_of_cons in Hd as [Heq|Hd]; [done|by apply Hf].
Qed.

Lemma take_bytes_app pre b rest :
  take_bytes (pre ++ b ++ rest) (zlen pre) (zlen b) = Ok (b, zlen pre + zlen b).
Proof.
  unfold take_bytes. rewrite !length_app, Z.gtb_ltb, (proj2 (Z.ltb_ge _ _)) by lia.
  rewrite slice_get_ok by (rewrite ?length_app; lia). cbn [res_bind].
  by rewrite slice_app_r, Z.sub_diag, slice_app_exact by lia.
Qed.

Lemma varlena_tag total : 0 <= total <= VARLENA_LEN_MASK -> is_external total = false /\ Z.land total VARLENA_LEN_MASK = total.
Proof.
  intros Ht. unfold VARLENA_LEN_MASK in *. split.
  - unfold is_external, VARLENA_TAG_MASK, VARLENA_EXTERNAL_FLAG.
    replace (Z.land total 3221225472) with 0; [done|].
    change 3221225472 with (Z.shiftl 3 30). symmetry. apply Z.bits_inj'. intros k Hk. rewrite Z.land_spec, Z.bits_0.
    destruct (decide (k < 30)); [rewrite Z.shiftl_spec_low by lia; apply andb_false_r|].
    rewrite <-(Z.mod_small total (2 ^ 30)) by lia. by rewrite Z.mod_pow2_bits_high by lia.
  - change 1073741823 with (Z.ones 30). rewrite Z.land_ones by lia. apply Z.mod_small. lia.
Qed.

Lemma decode_varlena pre col s rest :
  fixed_width col = None -> zlen s + 4 <= VARLENA_LEN_MASK ->
  decode_column (pre ++ (le_bytes 4 (zlen s + 4) ++ s) ++ rest) col (zlen pre) =
    match col with
    | Text => if utf8_valid s then Ok (DText s, zlen pre + (4 + zlen s)) else Err Corrupted
    | _ => Ok (DBytea s, zlen pre + (4 + zlen s))
    end.
Proof.
  intros Hw Hf. unfold decode_column. rewrite Hw. rewrite <-app_assoc.
  pose proof (take_bytes_app pre (le_bytes 4 (zlen s + 4)) (s ++ rest)) as Ht.
  rewrite length_le_bytes in Ht. change (Z.of_nat 4) with 4 in Ht. rewrite Ht. cbn [res_bind].
  assert (Hv : le_val (le_bytes 4 (zlen s + 4)) = zlen s + 4).
  { apply le_val_le_bytes_id. unfold VARLENA_LEN_MASK in Hf. simpl. lia. }
  rewrite Hv. destruct (varlena_tag (zlen s + 4) ltac:(lia)) as [-> ->].
  rewrite (proj2 (Z.ltb_ge _ _)) by lia. replace (zlen s + 4 - 4) with (zlen s) by lia.
  pose proof (take_bytes_app (pre ++ le_bytes 4 (zlen s + 4)) s rest) as Ht2.
  rewrite length_app, length_le_bytes, <-app_assoc in Ht2.
  replace (Z.of_nat (length pre + 4)) with (zlen pre + 4) in Ht2 by lia. rewrite Ht2. cbn [res_bind].
  replace (zlen pre + 4 + zlen s) with (zlen pre + (4 + zlen s)) by lia.
  destruct col; done.
Qed.

Lemma decode_external pre col p rest :
  fixed_width col = None -> toast_wf p ->
  decode_column (pre ++ ToastPointer_encode p ++ rest) col (zlen pre) = Ok (DExternal p, zlen pre + 20).
Proof.
  intros Hw Hp. unfold decode_column. rewrite Hw.
  assert (Hl : zlen (ToastPointer_encode p) = 20) by (unfold ToastPointer_encode; by rewrite !length_app, !length_le_bytes).
  set (v := Z.lor TOAST_POINTER_SIZE VARLENA_EXTERNAL_FLAG).
  assert (Hsplit : exists q, ToastPointer_encode p = le_bytes 4 v ++ q) by (by eexists).
  destruct Hsplit as [q Hq].
  pose proof (take_bytes_app pre (le_bytes 4 v) (q ++ rest)) as Ht. rewrite length_le_bytes in Ht. change (Z.of_nat 4) with 4 in Ht.
  rewrite app_assoc with (l := le_bytes 4 v) in Ht. rewrite <-Hq in Ht. rewrite Ht. cbn [res_bind].
  assert (Hv : le_val (le_bytes 4 v) = v) by (vm_compute; reflexivity). rewrite Hv. change (is_external v) with true. cbv iota.
  replace (zlen pre + 4 - 4) with (zlen pre) by lia.
  pose proof (take_bytes_app pre (ToastPointer_encode p) rest) as Ht2. rewrite Hl in Ht2. unfold TOAST_POINTER_SIZE. rewrite Ht2. cbn [res_bind].
  by rewrite toast_roundtrip.
Qed.

Lemma decode_datum pre col d rest :
  datum_matches col d = true -> datum_wf d -> datum_fits d ->
  decode_column (pre ++ datum_bytes d ++ rest) col (zlen pre) = Ok (d, zlen pre + zlen (datum_bytes d)).
Proof.
  intros Hm Hw Hf.
  assert (Hfix : forall w b, fixed_width col = Some w -> zlen b = w -> take_bytes (pre ++ b ++ rest) (zlen pre) w = Ok (b, zlen pre + w)).
  { intros w b _ <-. apply take_bytes_app. }
  destruct d as [v|v|v|u|s|s|p]; simpl in Hm; apply bool_decide_eq_true in Hm; unfold datum_bytes.
  1-4: subst col; unfold decode_column; simpl fixed_width; cbv iota.
  - rewrite (Hfix 4) by (done || by rewrite length_le_bytes). cbn [res_bind]. rewrite length_le_bytes.
    rewrite le_val_le_bytes_id by (apply (to_unsigned_range 32); lia). by rewrite to_signed_unsigned.
  - rewrite (Hfix 8) by (done || by rewrite length_le_bytes). cbn [res_bind]. rewrite length_le_bytes.
    rewrite le_val_le_bytes_id by (apply (to_unsigned_range 64); lia). by rewrite to_signed_unsigned.
  - rewrite (Hfix 8) by (done || by rewrite length_le_bytes). cbn [res_bind]. rewrite length_le_bytes.
    rewrite le_val_le_bytes_id by (apply (to_unsigned_range 64); lia). by rewrite to_signed_unsigned.
  - simpl in Hw. rewrite (Hfix 16) by (done || lia). cbn [res_bind]. by rewrite Hw.
  - subst col. rewrite decode_varlena by done. simpl in Hw. rewrite Hw, length_app, length_le_bytes.
    do 2 f_equal. lia.
  - subst col. rewrite decode_varlena by done. rewrite length_app, length_le_bytes. do 2 f_equal. lia.
  - rewrite decode_external by done.
    assert (Hl : zlen (ToastPointer_encode p) = 20) by (unfold ToastPointer_encode; by rewrite !length_app, !length_le_bytes).
    by rewrite Hl.
Qed.

(** ** Lemmas: the null bitmap *)

Definition nullbit (o : list Z) (j : nat) : bool :=
  Z.testbit (nth (Z.to_nat TUPLE_HEADER_SIZE + j / 8)%nat o 0) (Z.of_nat (j mod 8)).

Lemma land_bit b n : 0 <= n -> negb (Z.land b (Z.shiftl 1 n) =? 0) = Z.testbit b n.
Proof.
  intros Hn. rewrite Z.shiftl_1_l.
  assert (Hs : Z.land b (2 ^ n) = if Z.testbit b n then 2 ^ n else 0).
  { apply Z.bits_inj'. intros k Hk. rewrite Z.land_spec, Z.pow2_bits_eqb by done.
    destruct (Z.eqb_spec n k) as [->|Hne].
    - destruct (Z.testbit b k); [by rewrite Z.pow2_bits_true|by rewrite Z.bits_0].
    - rewrite andb_false_r. destruct (Z.testbit b n); [by rewrite Z.pow2_bits_false|by rewrite Z.bits_0]. }
  rewrite Hs. destruct (Z.testbit b n); [|done]. apply negb_true_iff, Z.eqb_neq. pose proof (Z.pow_pos_nonneg 2 n). lia.
Qed.

Lemma length_write_bitmap i vals o : length (write_bitmap i vals o) = length o.
Proof.
  revert i o. induction vals as [|[d|] vals IH]; intros i o; cbn [write_bitmap]; [done|by rewrite IH|].
  by rewrite IH, length_insert.
Qed.

(** The bitmap starts after the header, which stays as it is. *)
Lemma write_bitmap_app i vals h z :
  length h = Z.to_nat TUPLE_HEADER_SIZE -> exists z', write_bitmap i vals (h ++ z) = h ++ z' /\ length z' = length z.
Proof.
  intros Hh. revert i z. induction vals as [|[d|] vals IH]; intros i z; cbn [write_bitmap]; [by eauto|by eauto|].
  rewrite insert_app_r_alt by lia. match goal with |- context [h ++ ?x] => destruct (IH (S i) x) as (z' & -> & Hl) end.
  exists z'. split; [done|]. by rewrite Hl, length_insert.
Qed.

Lemma nullbit_insert o i j :
  (Z.to_nat TUPLE_HEADER_SIZE + i / 8 < length o)%nat ->
  let k := (Z.to_nat TUPLE_HEADER_SIZE + i / 8)%nat in
  nullbit (<[k := Z.lor (nth k o 0) (Z.shiftl 1 (Z.of_nat (i mod 8)))]> o) j = nullbit o j || bool_decide (j = i).
Proof.
  intros Hi k. unfold nullbit. pose proof (Nat.div_mod_eq i 8) as Di. pose proof (Nat.div_mod_eq j 8) as Dj.
  destruct (decide (i / 8 = j / 8)%nat) as [He|Hne].
  - rewrite <-He. fold k. rewrite !nth_lookup, list_lookup_insert_eq by done. cbn [from_option id].
    rewrite Z.lor_spec. f_equal. rewrite Z.shiftl_1_l, Z.pow2_bits_eqb by lia.
    destruct (Z.eqb_spec (Z.of_nat (i mod 8)) (Z.of_nat (j mod 8))).
    + rewrite bool_decide_eq_true_2; [done|lia].
    + rewrite bool_decide_eq_false_2; [done|]. intros ->. done.
  - rewrite !nth_lookup, list_lookup_insert_ne by lia.
    rewrite bool_decide_eq_false_2; [by rewrite orb_false_r|]. intros ->. done.
Qed.

Definition null_at (vals : list (option Datum)) (i j : nat) : bool :=
  bool_decide (i <= j)%nat && match vals !! (j - i)%nat with Some None => true | _ => false end.

Lemma nullbit_write_bitmap i vals o j :
  (forall k, i <= k < i + length vals -> Z.to_nat TUPLE_HEADER_SIZE + k / 8 < length o)%nat ->
  nullbit (write_bitmap i vals o) j = nullbit o j || null_at vals i j.
Proof.
  revert i o. induction vals as [|v vals IH]; intros i o Hl; cbn [write_bitmap].
  { unfold null_at. by rewrite lookup_nil, andb_false_r, orb_false_r. }
  assert (Hnext : null_at (v :: vals) i j = bool_decide (j = i) && match v with None => true | _ => false end || null_at vals (S i) j).
  { unfold null_at. destruct (decide (j = i)) as [->|Hne].
    - rewrite Nat.sub_diag, !bool_decide_eq_true_2 by lia. rewrite bool_decide_eq_false_2 by lia. simpl.
      destruct v; by rewrite ?orb_false_r.
    - rewrite (bool_decide_eq_false_2 (j = i)) by done. simpl.
      destruct (decide (i <= j)%nat).
      + rewrite !bool_decide_eq_true_2 by lia. replace (j - i)%nat with (S (j - S i)) by lia. done.
      + by rewrite !bool_decide_eq_false_2 by lia. }
  rewrite Hnext. simpl in Hl. destruct v as [d|].
  - rewrite IH by (intros; apply Hl; lia). by rewrite andb_false_r.
  - rewrite IH by (intros; rewrite length_insert; apply Hl; lia).
    rewrite nullbit_insert by (apply Hl; lia). rewrite andb_true_r. by rewrite <-orb_assoc.
Qed.

Lemma nullbit_zeros h n j : length h = Z.to_nat TUPLE_HEADER_SIZE -> nullbit (h ++ zeros n) j = false.
Proof.
  intros Hh. unfold nullbit. rewrite app_nth2 by lia. rewrite Hh.
  replace (nth _ (zeros n) 0) with 0; [apply Z.bits_0|]. unfold zeros. symmetry. rewrite nth_lookup.
  destruct (replicate _ _ !! _) eqn:E; [|done]. by apply lookup_replicate in E as [-> _].
Qed.

Lemma is_null_bit bytes i :
  (Z.to_nat TUPLE_HEADER_SIZE + i / 8 < length bytes)%nat -> is_null bytes true i = Ok (nullbit bytes i).
Proof.
  intros Hi. unfold is_null, nullbit. destruct (lookup_lt_is_Some_2 bytes _ Hi) as [b Hb].
  rewrite Hb, nth_lookup, Hb. simpl. by rewrite land_bit by lia.
Qed.

(** ** Lemmas: columns *)

Definition is_null_value (v : option Datum) : bool := match v with None => true | _ => false end.
Definition is_external_value (v : option Datum) : bool := match v with Some (DExternal _) => true | _ => false end.
Definition is_varwidth_value (cv : ColumnType * option Datum) : bool :=
  bool_decide (fixed_width (fst cv) = None) && negb (is_null_value (snd cv)).

Lemma scan_values_ok columns vals a b c :
  Forall2 (fun col v => forall d, v = Some d -> datum_matches col d = true) columns vals ->
  scan_values columns vals (a, b, c) =
    Ok (a || existsb is_null_value vals, b || existsb is_varwidth_value (zip columns vals),
        c || existsb is_external_value vals).
Proof.
  intros H. revert a b c. induction H as [|col v columns vals Hm _ IH]; intros a b c.
  { cbn [scan_values existsb zip zip_with]. by rewrite !orb_false_r. }
  cbn [scan_values]. destruct v as [d|].
  - rewrite (Hm d) by done. cbn [negb]. rewrite IH. unfold is_varwidth_value at 2. cbn [existsb zip zip_with is_null_value fst snd negb].
    rewrite andb_true_r, !orb_assoc, orb_false_r. by destruct d.
  - rewrite IH. unfold is_varwidth_value at 2. cbn [existsb zip zip_with is_null_value is_external_value fst snd negb].
    by rewrite andb_false_r, orb_true_r, !orb_false_l.
Qed.

Lemma decode_columns_ok columns vals has_null i pre :
  let bytes := pre ++ values_bytes vals in
  Forall2 (fun col v => forall d, v = Some d -> datum_matches col d = true /\ datum_wf d /\ datum_fits d) columns vals ->
  forall full, (forall k v, vals !! k = Some v -> is_null full has_null (i + k) = Ok (bool_decide (v = None))) ->
  full = bytes -> decode_columns full has_null i columns (zlen pre) = Ok (vals, zlen bytes).
Proof.
  intros bytes H. subst bytes. revert i pre. induction H as [|col v columns vals Hm _ IH]; intros i pre full Hn ->.
  { simpl. unfold values_bytes. simpl. by rewrite app_nil_r. }
  cbn [decode_columns]. pose proof (Hn 0%nat v eq_refl) as H0. rewrite Nat.add_0_r in H0. rewrite H0. cbn [res_bind].
  assert (Hn' : forall k v0, vals !! k = Some v0 -> is_null (pre ++ values_bytes (v :: vals)) has_null (S i + k) = Ok (bool_decide (v0 = None))).
  { intros k v0 Hk. replace (S i + k)%nat with (i + S k)%nat by lia. by apply Hn. }
  destruct v as [d|].
  - rewrite bool_decide_eq_false_2 by done. destruct (Hm d eq_refl) as (M1 & M2 & M3).
    assert (Hv : values_bytes (Some d :: vals) = datum_bytes d ++ values_bytes vals) by done.
    rewrite Hv at 1. rewrite decode_datum by done. cbn [res_bind].
    rewrite Hv in Hn' |- *. specialize (IH (S i) (pre ++ datum_bytes d) _ Hn').
    rewrite <-app_assoc in IH. specialize (IH eq_refl).
    replace (zlen pre + zlen (datum_bytes d)) with (zlen (pre ++ datum_bytes d)) by (rewrite length_app; lia).
    by rewrite IH.
  - rewrite bool_decide_eq_true_2 by done. change (values_bytes (None :: vals)) with (values_bytes vals) in *.
    by rewrite (IH (S i) pre _ Hn' eq_refl).
Qed.

(** ** Lemmas: the stamped header *)

Lemma natts_stamp h n hoff a b c : 0 <= n <= MAX_NATTS -> natts (stamp_header h n hoff a b c) = n.
Proof.
  intros Hn. unfold natts, stamp_header, HEAP_NATTS_MASK, MAX_NATTS in *. cbn [t_infomask2].
  rewrite Z.land_lor_distr_l, <-Z.land_assoc. change (Z.land (65535 - 2047) 2047) with 0. rewrite Z.land_0_r, Z.lor_0_l.
  change 2047 with (Z.ones 11). rewrite Z.land_ones by lia. apply Z.mod_small. lia.
Qed.

Lemma has_null_stamp h n hoff a b c :
  negb (Z.land (t_infomask (stamp_header h n hoff a b c)) HEAP_HASNULL =? 0) = a.
Proof.
  unfold stamp_header. cbn [t_infomask]. rewrite !Z.land_lor_distr_l, <-Z.land_assoc.
  change (Z.land (65535 - (HEAP_HASNULL + HEAP_HASVARWIDTH + HEAP_HASEXTERNAL)) HEAP_HASNULL) with 0.
  rewrite Z.land_0_r, Z.lor_0_l. by destruct a, b, c.
Qed.

Lemma stamp_header_wf h n hoff a b c :
  header_wf h -> 0 <= n <= MAX_NATTS -> in_u 16 hoff -> header_wf (stamp_header h n hoff a b c).
Proof.
  intros [H1 H2 H3 H4 H5 H6 H7 H8 H9 H10 H11] Hn Hh. unfold MAX_NATTS in Hn.
  assert (Hf : forall x bit, 0 <= bit < 2 ^ 16 -> 0 <= flag x bit < 2 ^ 16) by (intros []; simpl; lia).
  split; try done; unfold in_u in *; cbn [stamp_header t_infomask t_infomask2 t_flags].
  - repeat apply lor_bound; try lia; try (apply land_bound; done || lia); apply Hf; done.
  - apply lor_bound; [lia|apply land_bound; done || lia|lia].
  - apply lor_bound; [lia|apply land_bound; done || lia|done].
Qed.

(** ** Properties *)

Lemma decode_column_no_panic bytes col pos :
  0 <= pos -> decode_column bytes col pos <> Panic /\ forall d p, decode_column bytes col pos = Ok (d, p) -> 0 <= p.
Proof.
  intros Hp.
  assert (Ht : forall p n, 0 <= p -> 0 <= n -> take_bytes bytes p n = Err Corrupted \/ exists b, take_bytes bytes p n = Ok (b, p + n)).
  { intros p n H1 H2. unfold take_bytes. rewrite Z.gtb_ltb. destruct (Z.ltb_spec (zlen bytes) (p + n)); [by left|right].
    rewrite slice_get_ok by lia. by eexists. }
  unfold decode_column. destruct (fixed_width col) as [w|] eqn:Hw.
  - assert (0 <= w) by (destruct col; simplify_eq/=; lia).
    destruct (Ht pos w) as [->|[b ->]]; [done|done|done|]. cbn [res_bind].
    destruct col; try done; (split; [done|]); intros d p H'; injection H' as <- <-; lia.
  - destruct (Ht pos 4) as [->|[b ->]]; [done|done|done|]. cbn [res_bind]. destruct (is_external (le_val b)).
    + destruct (Ht (pos + 4 - 4) TOAST_POINTER_SIZE) as [->|[r ->]]; [lia|done|done|]. cbn [res_bind].
      unfold ToastPointer_decode. repeat (case_match; [done|]). cbn [res_bind]. split; [done|].
      intros d p H'. injection H' as <- <-. unfold TOAST_POINTER_SIZE. lia.
    + destruct (Z.ltb_spec (Z.land (le_val b) VARLENA_LEN_MASK) 4); [done|].
      destruct (Ht (pos + 4) (Z.land (le_val b) VARLENA_LEN_MASK - 4)) as [->|[r ->]]; [lia|lia|done|]. cbn [res_bind].
      destruct col; try done; [destruct (utf8_valid r)|]; (split; [done|]); intros d p H'; try done; injection H' as <- <-; lia.
Qed.

Lemma decode_columns_no_panic bytes has_null i columns pos :
  (has_null = true -> forall k, (k < i + length columns)%nat -> (Z.to_nat TUPLE_HEADER_SIZE + k / 8 < length bytes)%nat) ->
  0 <= pos -> decode_columns bytes has_null i columns pos <> Panic.
Proof.
  revert i pos. induction columns as [|col columns IH]; intros i pos Hi Hp; [done|]. cbn [decode_columns].
  assert (Hn : exists b, is_null bytes has_null i = Ok b).
  { destruct has_null; [|by exists false]. rewrite is_null_bit by (apply Hi; [done|simpl; lia]). by eexists. }
  destruct Hn as [nb ->]. cbn [res_bind].
  assert (Hi' : has_null = true -> forall k, (k < S i + length columns)%nat -> (Z.to_nat TUPLE_HEADER_SIZE + k / 8 < length bytes)%nat).
  { intros H k Hk. apply (Hi H). simpl. lia. }
  destruct nb.
  - specialize (IH (S i) pos Hi' Hp). destruct (decode_columns bytes has_null (S i) columns pos) as [[]| |]; done.
  - destruct (decode_column_no_panic bytes col pos Hp) as [Hd Hq].
    destruct (decode_column bytes col pos) as [[d p]| |]; [|done|done]. cbn [res_bind].
    specialize (IH (S i) p Hi' (Hq _ _ eq_refl)). destruct (decode_columns bytes has_null (S i) columns p) as [[]| |]; done.
Qed.

Lemma decode_tuple_no_panic bytes columns : decode_tuple bytes columns <> Panic.
Proof.
  unfold decode_tuple, TupleHeader_read_from. do 2 (case_match; [done|]). cbn [res_bind].
  case_match; [done|]. set (h := mkTupleHeader _ _ _ _ _ _ _ _ _ _).
  destruct (t_hoff h <? TUPLE_HEADER_SIZE) eqn:E1; [done|]. destruct (t_hoff h >? zlen bytes) eqn:E2; [done|].
  destruct (negb (t_hoff h mod 8 =? 0)); [done|]. cbn [orb]. apply Z.ltb_ge in E1. rewrite Z.gtb_ltb in E2. apply Z.ltb_ge in E2.
  set (hn := negb (Z.land (t_infomask h) HEAP_HASNULL =? 0)).
  destruct (hn && (TUPLE_HEADER_SIZE + (if hn then (zlen columns + 7) / 8 else 0) >? t_hoff h)) eqn:E3; [done|].
  pose proof (decode_columns_no_panic bytes hn 0 columns (t_hoff h)) as Hd.
  destruct (decode_columns bytes hn 0 columns (t_hoff h)) as [[vs p]| |]; [cbn [res_bind]; by destruct (negb (p =? zlen bytes))|done|].
  exfalso. apply Hd; [|unfold TUPLE_HEADER_SIZE in *; lia|done].
  intros Hhn k Hk. rewrite Hhn in E3. cbn [andb] in E3. rewrite Z.gtb_ltb in E3. apply Z.ltb_ge in E3.
  assert (k / 8 < Z.to_nat ((zlen columns + 7) / 8))%nat; [|unfold TUPLE_HEADER_SIZE in *; lia].
  pose proof (Nat.div_mod_eq k 8). pose proof (Z.div_mod (zlen columns + 7) 8). pose proof (Z.mod_pos_bound (zlen columns + 7) 8). lia.
Qed.

Lemma write_values_total vals out : (forall d, Some d ∈ vals -> datum_fits d) -> write_values vals out = Ok (out ++ values_bytes vals).
Proof.
  revert out. induction vals as [|[d|] vals IH]; intros out Hf; cbn [write_values].
  - by rewrite app_nil_r.
  - pose proof (Hf d ltac:(set_solver)) as Hd.
    assert (Hw : forall o s, zlen s + 4 <= VARLENA_LEN_MASK -> write_inline_varlena o s = Ok (o ++ le_bytes 4 (zlen s + 4) ++ s)).
    { intros o s Hs. unfold write_inline_varlena. by rewrite Z.gtb_ltb, (proj2 (Z.ltb_ge _ _)). }
    assert (Hv : values_bytes (Some d :: vals) = datum_bytes d ++ values_bytes vals) by done.
    rewrite Hv, app_assoc, <-IH by set_solver.
    destruct d; simpl in Hd; try done; by rewrite Hw.
  - rewrite IH by set_solver. done.
Qed.

Lemma existsb_null vals :
  existsb is_null_value vals = false ->
  forall v, v ∈ vals -> v <> None.
Proof.
  intros He v Hv ->. apply list_elem_of_In in Hv.
  assert (existsb is_null_value vals = true); [|congruence].
  apply existsb_exists. by exists None.
Qed.

(** The bytes before the attribute data: the stamped header, then the bitmap
    region; every column's NULL bit is right. *)
Lemma tuple_prefix h' vals hn n hoff :
  let bitmap_len := if hn : bool then (n + 7) / 8 else 0 in
  n = zlen vals -> hoff = (TUPLE_HEADER_SIZE + bitmap_len + 7) / 8 * 8 ->
  hn = existsb is_null_value vals ->
  let out := TupleHeader_write_to h' (zeros TUPLE_HEADER_SIZE) ++ zeros (hoff - TUPLE_HEADER_SIZE) in
  let pre := if hn then write_bitmap 0 vals out else out in
  zlen pre = hoff /\
  (exists rest, pre = TupleHeader_write_to h' (zeros TUPLE_HEADER_SIZE) ++ rest) /\
  forall data k v, vals !! k = Some v -> is_null (pre ++ data) hn k = Ok (bool_decide (v = None)).
Proof.
  intros bl Hn Hhoff Hhn. set (hd := TupleHeader_write_to h' (zeros TUPLE_HEADER_SIZE)). intros out pre.
  assert (Hhd : length hd = Z.to_nat TUPLE_HEADER_SIZE) by (unfold hd; by rewrite length_write_to, length_zeros).
  pose proof (align_up_8_spec (TUPLE_HEADER_SIZE + bl)) as [Ha _].
  assert (Hbl : 0 <= bl) by (unfold bl; destruct hn; [apply Z.div_pos; lia|lia]).
  assert (Hout : zlen out = hoff) by (unfold out; rewrite length_app, Hhd, length_zeros; unfold TUPLE_HEADER_SIZE in *; lia).
  split; [unfold pre; destruct hn; [by rewrite length_write_bitmap|done]|]. split.
  { unfold pre. destruct hn; [|by eexists]. destruct (write_bitmap_app 0 vals hd (zeros (hoff - TUPLE_HEADER_SIZE)) Hhd) as (z' & E & _).
    by exists z'. }
  intros data k v Hk. apply lookup_lt_Some in Hk as Hlt. unfold pre. destruct hn.
  - assert (Hin : forall k, (k < length vals)%nat -> (Z.to_nat TUPLE_HEADER_SIZE + k / 8 < length out)%nat).
    { intros q Hq. unfold bl in *. pose proof (Nat.div_mod_eq q 8). pose proof (Z.div_mod (n + 7) 8 ltac:(done)).
      pose proof (Z.mod_pos_bound (n + 7) 8 ltac:(done)). unfold TUPLE_HEADER_SIZE in *. lia. }
    rewrite is_null_bit by (rewrite length_app, length_write_bitmap; specialize (Hin k Hlt); lia).
    assert (Hnb : nullbit (write_bitmap 0 vals out ++ data) k = nullbit (write_bitmap 0 vals out) k).
    { unfold nullbit. rewrite app_nth1; [done|]. rewrite length_write_bitmap. by apply Hin. }
    rewrite Hnb, nullbit_write_bitmap by (intros; apply Hin; lia).
    unfold out at 1. rewrite nullbit_zeros by done. unfold null_at. rewrite Nat.sub_0_r, Hk, bool_decide_eq_true_2 by lia.
    by destruct v.
  - unfold is_null. symmetry in Hhn. rewrite bool_decide_eq_false_2; [done|].
    eapply existsb_null; [exact Hhn|]. by eapply list_elem_of_lookup_2.
Qed.

(** The header an encoded row carries: the identity fields, hint bits and
    reserved bits of the caller's header; the number of columns; HASNULL,
    HASVARWIDTH and HASEXTERNAL (bits 0, 1, 2) as the row's values have them; the
    data offset behind the header and, when there is a NULL, one bitmap bit per
    column, rounded up to 8; and the current tuple version. *)
Record encoded_header (h : TupleHeader) (columns : list ColumnType) (vals : list (option Datum)) (h' : TupleHeader)
    : Prop := {
  eh_identity : t_xmin h' = t_xmin h /\ t_xmax h' = t_xmax h /\ t_agent_id h' = t_agent_id h /\
    t_trace_id h' = t_trace_id h /\ t_ctid h' = t_ctid h /\ t_cid h' = t_cid h;
  eh_natts : natts h' = zlen columns;
  eh_hasnull : Z.testbit (t_infomask h') 0 = true <-> None ∈ vals;
  eh_hasvarwidth : Z.testbit (t_infomask h') 1 = true <->
    exists i col d, columns !! i = Some col /\ vals !! i = Some (Some d) /\ fixed_width col = None;
  eh_hasexternal : Z.testbit (t_infomask h') 2 = true <-> exists p, Some (DExternal p) ∈ vals;
  eh_hints : forall i, 3 <= i -> Z.testbit (t_infomask h') i = Z.testbit (t_infomask h) i;
  eh_hints2 : forall i, 11 <= i -> Z.testbit (t_infomask2 h') i = Z.testbit (t_infomask2 h) i;
  eh_hoff : t_hoff h' = (64 + (if bool_decide (None ∈ vals) then (zlen columns + 7) / 8 else 0) + 7) / 8 * 8;
  eh_version : Z.land (t_flags h') TUPLE_VERSION_MASK = TUPLE_VERSION_M2 /\
    Z.land (t_flags h') (65535 - TUPLE_VERSION_MASK) = Z.land (t_flags h) (65535 - TUPLE_VERSION_MASK)
}.

Lemma existsb_null_spec vals : existsb is_null_value vals = true <-> None ∈ vals.
Proof.
  rewrite existsb_exists. split.
  - intros ([d|] & Hv & Hn); [done|]. by apply list_elem_of_In.
  - intros Hv. exists None. split; [by apply list_elem_of_In|done].
Qed.

Lemma existsb_external_spec vals : existsb is_external_value vals = true <-> exists p, Some (DExternal p) ∈ vals.
Proof.
  rewrite existsb_exists. split.
  - intros (v & Hv & Hn). apply list_elem_of_In in Hv. destruct v as [[]|]; try done. eauto.
  - intros [p Hp]. exists (Some (DExternal p)). split; [by apply list_elem_of_In|done].
Qed.

Lemma existsb_varwidth_spec columns vals : existsb is_varwidth_value (zip columns vals) = true <->
  exists i col d, columns !! i = Some col /\ vals !! i = Some (Some d) /\ fixed_width col = None.
Proof.
  rewrite existsb_exists. split.
  - intros ([col v] & Hv & Hn). apply list_elem_of_In, list_elem_of_lookup in Hv as [i Hi].
    apply lookup_zip_with_Some in Hi as (col' & v' & [= <- <-] & Hc & Hval).
    apply andb_true_iff in Hn as [Hw Hn]. simpl in *. apply bool_decide_eq_true in Hw.
    destruct v as [d|]; [|done]. eauto 6.
  - intros (i & col & d & Hc & Hv & Hw). exists (col, Some d). split.
    + apply list_elem_of_In, list_elem_of_lookup. exists i. apply lookup_zip_with_Some. eauto.
    + unfold is_varwidth_value. simpl. by rewrite bool_decide_eq_true_2.
Qed.

(** Bits of a 16-bit value. *)
Lemma testbit_high m i : in_u 16 m -> 16 <= i -> Z.testbit m i = false.
Proof.
  intros [H0 H1] Hi. destruct (Z.eq_dec m 0) as [->|]; [apply Z.bits_0|].
  apply Z.bits_above_log2; [done|]. assert (Z.log2 m < 16) by (apply Z.log2_lt_pow2; lia). lia.
Qed.

(** Clearing the low [k] bits of a 16-bit value keeps the others. *)
Lemma testbit_kept m k i : in_u 16 m -> 0 <= k <= 16 -> k <= i ->
  Z.testbit (Z.land m (65535 - (2 ^ k - 1))) i = Z.testbit m i.
Proof.
  intros Hm Hk Hi. destruct (Z_lt_le_dec i 16) as [Hlt|Hge].
  - rewrite Z.land_spec. replace (65535 - (2 ^ k - 1)) with (Z.shiftl (Z.ones (16 - k)) k).
    + rewrite Z.shiftl_spec, Z.ones_spec_low by lia. apply andb_true_r.
    + rewrite Z.shiftl_mul_pow2, Z.ones_equiv by lia.
      rewrite <-Z.sub_1_r, Z.mul_sub_distr_r, <-Z.pow_add_r by lia.
      replace (16 - k + k) with 16 by lia. change (2 ^ 16) with 65536. lia.
  - rewrite Z.land_spec, (testbit_high m i) by (done || lia). done.
Qed.

Lemma flag_bit b j i : 0 <= j -> Z.testbit (flag b (2 ^ j)) i = b && (i =? j).
Proof.
  intros Hj. destruct b; simpl; [|apply Z.bits_0]. rewrite Z.pow2_bits_eqb by done. apply Z.eqb_sym.
Qed.

Lemma stamp_infomask_bits h n hoff a b c i : in_u 16 (t_infomask h) -> 0 <= i ->
  Z.testbit (t_infomask (stamp_header h n hoff a b c)) i =
    if i =? 0 then a else if i =? 1 then b else if i =? 2 then c else Z.testbit (t_infomask h) i.
Proof.
  intros Hm Hi. unfold stamp_header. cbn [t_infomask].
  change HEAP_HASNULL with (2 ^ 0). change HEAP_HASVARWIDTH with (2 ^ 1). change HEAP_HASEXTERNAL with (2 ^ 2).
  rewrite !Z.lor_spec, !flag_bit by lia.
  destruct (Z_lt_le_dec i 3) as [Hlt|Hge].
  - rewrite Z.land_spec. assert (i = 0 \/ i = 1 \/ i = 2) as [->|[->| ->]] by lia; simpl;
      rewrite ?andb_false_r, ?andb_true_r, ?orb_false_r; done.
  - change (2 ^ 0 + 2 ^ 1 + 2 ^ 2) with (2 ^ 3 - 1). rewrite testbit_kept by (done || lia).
    rewrite (proj2 (Z.eqb_neq i 0)), (proj2 (Z.eqb_neq i 1)), (proj2 (Z.eqb_neq i 2)) by lia.
    by rewrite !andb_false_r, !orb_false_r.
Qed.

Lemma stamp_encoded_header h columns vals :
  header_wf h -> zlen columns <= MAX_NATTS ->
  let hn := existsb is_null_value vals in
  let hoff := (TUPLE_HEADER_SIZE + (if hn then (zlen columns + 7) / 8 else 0) + 7) / 8 * 8 in
  encoded_header h columns vals
    (stamp_header h (zlen columns) hoff hn (existsb is_varwidth_value (zip columns vals)) (existsb is_external_value vals)).
Proof.
  intros Hh Hn hn hoff. pose proof (hw_mask _ Hh) as Hm. split.
  - done.
  - apply natts_stamp. lia.
  - rewrite stamp_infomask_bits by (done || lia). apply existsb_null_spec.
  - rewrite stamp_infomask_bits by (done || lia). apply existsb_varwidth_spec.
  - rewrite stamp_infomask_bits by (done || lia). apply existsb_external_spec.
  - intros i Hi. rewrite stamp_infomask_bits by (done || lia).
    by rewrite (proj2 (Z.eqb_neq i 0)), (proj2 (Z.eqb_neq i 1)), (proj2 (Z.eqb_neq i 2)) by lia.
  - intros i Hi. cbn [stamp_header t_infomask2]. change (65535 - HEAP_NATTS_MASK) with (65535 - (2 ^ 11 - 1)).
    rewrite Z.lor_spec, testbit_kept by (apply (hw_mask2 _ Hh) || lia).
    rewrite (Z.bits_above_log2 (zlen columns)); [apply orb_false_r|lia|].
    destruct (Z.eq_dec (zlen columns) 0) as [->|]; [simpl; lia|].
    assert (Z.log2 (zlen columns) < 11) by (apply Z.log2_lt_pow2; unfold MAX_NATTS in Hn; lia). lia.
  - cbn [stamp_header t_hoff]. unfold hoff. subst hn. change TUPLE_HEADER_SIZE with 64.
    destruct (existsb is_null_value vals) eqn:E.
    + by rewrite bool_decide_eq_true_2 by by apply existsb_null_spec.
    + rewrite bool_decide_eq_false_2; [done|]. intros Hin. apply existsb_null_spec in Hin. congruence.
  - cbn [stamp_header t_flags]. rewrite !Z.land_lor_distr_l, <-!Z.land_assoc. split.
    + change (Z.land (65535 - TUPLE_VERSION_MASK) TUPLE_VERSION_MASK) with 0. by rewrite Z.land_0_r.
    + change (Z.land TUPLE_VERSION_M2 (65535 - TUPLE_VERSION_MASK)) with 0. by rewrite Z.lor_0_r, Z.land_diag.
Qed.

(** C39: tuple round trip.  For every schema of at most 2047 columns and every row
    that matches it, with any mixture of NULLs, inline values and TOAST pointers,
    provided each inline text or bytea value with its 4-byte length word stays
    within the 30-bit varlena length (2^30 - 1), encoding succeeds and decoding the
    bytes returns the same values and the caller's header with its identity
    fields and hint bits kept and its structural fields recomputed: the column
    count, HASNULL exactly when some value is NULL, HASVARWIDTH exactly when some
    non-NULL value is in a variable-width column, HASEXTERNAL exactly when some
    value is a TOAST pointer, and the data offset behind header and bitmap.
    Decoding arbitrary bytes against any schema never panics. *)
Theorem tuple_roundtrip h columns vals :
  header_wf h -> zlen columns <= MAX_NATTS ->
  Forall2 (fun col v => forall d, v = Some d -> datum_matches col d = true /\ datum_wf d /\ datum_fits d) columns vals ->
  (exists bytes h', encode_tuple h columns vals = Ok bytes /\
     decode_tuple bytes columns = Ok (h', vals) /\ encoded_header h columns vals h') /\
  (forall bytes cols, decode_tuple bytes cols <> Panic).
Proof.
  intros Hh Hn Hv. split; [|apply decode_tuple_no_panic].
  pose proof (Forall2_length _ _ _ Hv) as Hlen. unfold encode_tuple.
  rewrite Hlen, Nat.eqb_refl. cbn [negb]. rewrite <-Hlen, Z.gtb_ltb, (proj2 (Z.ltb_ge _ _)) by done.
  rewrite scan_values_ok by (eapply Forall2_impl; [exact Hv|]; simpl; naive_solver).
  cbn [res_bind orb]. pose proof (stamp_encoded_header h columns vals Hh Hn) as Henc. cbv zeta in Henc.
  set (hn := existsb is_null_value vals) in *.
  set (bl := if hn then (zlen columns + 7) / 8 else 0) in *. set (hoff := (TUPLE_HEADER_SIZE + bl + 7) / 8 * 8) in *.
  set (h' := stamp_header _ _ _ _ _ _) in *.
  destruct (tuple_prefix h' vals hn (zlen columns) hoff) as (Hpre & [rest Hrest] & Hnull); [lia|done|done|].
  set (pre := if hn then write_bitmap 0 vals _ else _) in *.
  rewrite write_values_total; [|intros d Hd; apply list_elem_of_lookup in Hd as [i Hi];
    destruct (Forall2_lookup_r _ _ _ _ _ Hv Hi) as (col & _ & Hc); by apply Hc].
  eexists (pre ++ values_bytes vals), h'. split; [done|]. split; [|exact Henc].
  pose proof (align_up_8_spec (TUPLE_HEADER_SIZE + bl)) as [Ha Hm]. fold hoff in Ha, Hm.
  assert (Hbl : 0 <= bl <= 256).
  { unfold bl, MAX_NATTS in *. destruct hn; [|lia]. split; [apply Z.div_pos; lia|].
    apply Z.lt_succ_r, Z.div_lt_upper_bound; lia. }
  assert (Hw : header_wf h').
  { apply stamp_header_wf; [done|lia|]. unfold in_u, TUPLE_HEADER_SIZE in *. lia. }
  unfold decode_tuple. rewrite Hrest at 1. rewrite <-app_assoc, header_roundtrip by done. cbn [res_bind].
  unfold h' at 1. rewrite natts_stamp by lia. rewrite Z.eqb_refl. cbn [negb]. change (t_hoff h') with hoff.
  rewrite length_app. rewrite (proj2 (Z.ltb_ge hoff _)) by lia. rewrite Z.gtb_ltb, (proj2 (Z.ltb_ge _ hoff)) by lia.
  rewrite (proj2 (Z.eqb_eq (hoff mod 8) 0)) by done. cbn [orb negb].
  unfold h' at 1 2 3 4. rewrite !has_null_stamp. fold bl.
  assert (Hg : hn && (TUPLE_HEADER_SIZE + bl >? hoff) = false).
  { rewrite Z.gtb_ltb, (proj2 (Z.ltb_ge _ _)) by lia. apply andb_false_r. }
  pose proof (decode_columns_ok columns vals hn 0 pre Hv _ (fun k v => Hnull _ k v) eq_refl) as Hdec.
  rewrite Hpre in Hdec. rewrite Hg, Hdec. cbn [res_bind]. by rewrite length_app, Z.eqb_refl.
Qed.

Definition demo_header : TupleHeader := TupleHeader_new 7 0 99 (replicate 16 171) (mkTid 3 2) 0.
Definition demo_columns : list ColumnType := [Int4; Text; Bytea; Int8].
Definition demo_values : list (option Datum) :=
  [Some (DInt4 (-42)); None; Some (DExternal (mkToastPointer 5000 5000 9 16400)); Some (DInt8 77)].

Lemma tuple_roundtrip_witness :
  exists bytes h', encode_tuple demo_header demo_columns demo_values = Ok bytes /\
    decode_tuple bytes demo_columns = Ok (h', demo_values) /\
    encoded_header demo_header demo_columns demo_values h'.
Proof.
  apply (tuple_roundtrip demo_header demo_columns demo_values).
  - split; vm_compute; try done; split; done || discriminate.
  - vm_compute. discriminate.
  - unfold demo_columns, demo_values. repeat apply Forall2_cons_2; [| | | |apply Forall2_nil_2];
      intros d Hd; simplify_eq; vm_compute; repeat split; done || discriminate.
Defined.
