(* ===== verification/Visibility.v ===== *)
(** * Snapshots and the visibility oracle

    Models [pg-txn/src/snapshot.rs] and [pg-txn/src/visibility.rs].  The commit
    log is seen through the [get_state] method of its trait object, a function
    from transaction ids to states. *)

From S2P Require Import Prelude Types.
Local Open Scope Z_scope.

(** ** snapshot.rs *)

Record Snapshot := mkSnapshot {
  xmin : TxnId;
  xmax : TxnId;
  xip : list TxnId;
  current_xid : TxnId;
  curcid : Z
}.

Definition Snapshot_everything : Snapshot :=
  {| xmin := 0; xmax := 2 ^ 64 - 1; xip := []; current_xid := TxnId_INVALID; curcid := 0 |}.

(** [curcid] is a [u32]; the addition wraps. *)
Definition advance_curcid (s : Snapshot) : Z * Snapshot :=
  let c := (curcid s + 1) mod 2 ^ 32 in
  (c, {| xmin := xmin s; xmax := xmax s; xip := xip s; current_xid := current_xid s; curcid := c |}).

(** ** visibility.rs *)

Inductive Visibility := Visible | Invisible | Uncertain.

#[export] Instance Visibility_eq_dec : EqDecision Visibility.
Proof. solve_decision. Defined.

Definition contains (l : list TxnId) (x : TxnId) : bool := existsb (Z.eqb x) l.

Definition TxnState_neq (a b : TxnState) : bool := negb (TxnState_u8 a =? TxnState_u8 b).

(** [PgVisibilityOracle::is_visible], [if] by [if]. *)
Definition oracle_is_visible (get_state : TxnId -> TxnState)
    (t_xmin t_xmax : TxnId) (t_cid : Z) (snapshot : Snapshot) : Visibility :=
  let self_xid := current_xid snapshot in
  let curcid := curcid snapshot in
  let xmax_step :=
    if t_xmax =? TxnId_INVALID then Visible
    else if t_xmax =? self_xid then (if t_cid <? curcid then Invisible else Visible)
    else if t_xmax >=? xmax snapshot then Visible
    else if contains (xip snapshot) t_xmax then Visible
    else if TxnState_neq (get_state t_xmax) Committed then Visible
    else Invisible in
  if t_xmin =? self_xid then
    if t_cid >=? curcid then Invisible else xmax_step
  else if t_xmin >=? xmax snapshot then Invisible
  else if contains (xip snapshot) t_xmin then Invisible
  else if TxnState_neq (get_state t_xmin) Committed then Invisible
  else xmax_step.

(** The [bool] twin the heap access method calls. *)
Definition is_visible (t_xmin t_xmax : TxnId) (t_cid : Z) (snap : Snapshot)
    (get_state : TxnId -> TxnState) : bool :=
  let self_xid := current_xid snap in
  let curcid := curcid snap in
  let xmax_step :=
    if t_xmax =? TxnId_INVALID then true
    else if t_xmax =? self_xid then t_cid >=? curcid
    else if t_xmax >=? xmax snap then true
    else if contains (xip snap) t_xmax then true
    else if TxnState_neq (get_state t_xmax) Committed then true
    else false in
  if t_xmin =? self_xid then
    if t_cid >=? curcid then false else xmax_step
  else if t_xmin >=? xmax snap then false
  else if contains (xip snap) t_xmin then false
  else if TxnState_neq (get_state t_xmin) Committed then false
  else xmax_step.

(** ** Specification: which effects a snapshot includes *)

(** Another transaction's effects are in the snapshot when it had committed by
    the time the snapshot was taken. *)
Definition seen (snap : Snapshot) (get_state : TxnId -> TxnState) (x : TxnId) : Prop :=
  x < xmax snap /\ (x ∉ xip snap) /\ get_state x = Committed.

(** An insertion or deletion stamped [x] (at command [t_cid]) took effect. *)
Definition in_effect (snap : Snapshot) (get_state : TxnId -> TxnState) (x t_cid : Z) : Prop :=
  (x = current_xid snap /\ t_cid < curcid snap) \/
  (x <> current_xid snap /\ seen snap get_state x).

(** ** Lemmas *)

Lemma contains_spec l x : contains l x = true <-> x ∈ l.
Proof.
  unfold contains. rewrite existsb_exists. split.
  - intros (y & Hy & He). apply Z.eqb_eq in He as ->. by apply list_elem_of_In.
  - intros Hx. exists x. split; [by apply list_elem_of_In|apply Z.eqb_refl].
Qed.

Lemma contains_false l x : contains l x = false <-> x ∉ l.
Proof. rewrite <-not_true_iff_false, contains_spec. done. Qed.

Lemma TxnState_neq_spec a b : TxnState_neq a b = false <-> a = b.
Proof. by destruct a, b. Qed.

Lemma TxnState_neq_true a b : TxnState_neq a b = true <-> a <> b.
Proof. by destruct a, b. Qed.

(** Case analysis along the judgment's tests. *)
Ltac judge :=
  repeat match goal with
  | |- context [if ?b then _ else _] => destruct b eqn:?
  end; zbool;
  repeat match goal with
  | H : contains _ _ = true |- _ => apply contains_spec in H
  | H : contains _ _ = false |- _ => apply contains_false in H
  | H : TxnState_neq _ _ = true |- _ => apply TxnState_neq_true in H
  | H : TxnState_neq _ _ = false |- _ => apply TxnState_neq_spec in H
  end.

(** The judgment: the insertion is in effect for the snapshot, and no deletion is. *)
Lemma is_visible_iff get_state t_xmin t_xmax t_cid snap :
  is_visible t_xmin t_xmax t_cid snap get_state = true <->
    in_effect snap get_state t_xmin t_cid /\
    ~ (t_xmax <> TxnId_INVALID /\ in_effect snap get_state t_xmax t_cid).
Proof.
  unfold is_visible, in_effect, seen, TxnId_INVALID. rewrite !Z.geb_leb.
  judge; split; try done; intros; repeat split; try tauto; try lia.
Qed.

(** ** Properties *)

(** C35: the visibility judgment, as the code makes it on a tuple's [t_xmin],
    [t_xmax] and its one shared command id [t_cid].  A version is visible exactly
    when its insertion is in effect for the snapshot and it has no deletion in
    effect; another transaction's stamp is in effect when it is below [xmax], not
    among the snapshot's in-progress ids and committed, and the reader's own stamp
    when [t_cid] is before the current command.  The oracle and the [bool] function
    give the same answer, never [Uncertain].  For deletions by the reader itself
    this means: a row of another, seen transaction stays visible exactly while the
    deleting command is the current one; but a row the reader inserted itself is
    invisible from the moment it deletes it, in the deleting command too, whatever
    [t_cid] is, because the deletion overwrites the command id the insertion is
    judged by.  The comment at visibility.rs:124-128 promises that it is still
    visible there. *)
Theorem is_visible_spec get_state t_xmin t_xmax t_cid snap :
  (is_visible t_xmin t_xmax t_cid snap get_state = true <->
     in_effect snap get_state t_xmin t_cid /\
     ~ (t_xmax <> TxnId_INVALID /\ in_effect snap get_state t_xmax t_cid)) /\
  oracle_is_visible get_state t_xmin t_xmax t_cid snap =
    (if is_visible t_xmin t_xmax t_cid snap get_state then Visible else Invisible) /\
  (t_xmax = current_xid snap /\ t_xmax <> TxnId_INVALID ->
     (t_xmin <> current_xid snap /\ seen snap get_state t_xmin ->
        is_visible t_xmin t_xmax t_cid snap get_state = true <-> curcid snap <= t_cid) /\
     (t_xmin = current_xid snap -> is_visible t_xmin t_xmax t_cid snap get_state = false)).
Proof.
  split; [apply is_visible_iff|]. split.
  - unfold oracle_is_visible, is_visible. judge; done || lia.
  - intros [-> Hs]. split.
    + intros [Hne Hseen]. unfold is_visible, seen in *. rewrite !Z.geb_leb. judge; split; try done; try tauto; lia.
    + intros ->. unfold is_visible. rewrite !Z.geb_leb. judge; try done; lia.
Qed.
