(* ===== verification/Clog.v ===== *)
(** * The commit log

    Models the [ClogAccessor] trait of [pg-storage/src/clog.rs] as a class with
    its laws, and three implementations: the no-op log of [clog.rs], the
    in-memory map of [pg-txn/src/clog_mem.rs], and the disk-backed clock-sweep
    cache of [pg-txn/src/clog_buffer.rs] over the 4-bit segment files of
    [pg-txn/src/clog_file.rs].

    A store keeps, per CLOG page, what the operating system would read back
    ([st_disk]) and what has been fsynced ([st_durable]); an absent page is a
    preallocated page of zeros.  Every file operation consumes one outcome of
    [st_io] ([false] is an I/O error; an exhausted list succeeds); a failing
    write leaves the page as it was.  [get_state]/[set_state] panic on an I/O
    error and keep the cache as the code leaves it. *)

From S2P Require Import Prelude Types.
Local Open Scope Z_scope.
Local Open Scope rust_scope.

(** ** The trait and its laws *)

Class ClogAccessor (C : Type) := {
  get_state : TxnId -> M C StorageError TxnState;
  set_state : TxnId -> TxnState -> M C StorageError unit
}.

Definition valid_xid (xid : TxnId) : Prop := 0 < xid < 2 ^ 64.

(** What a faithful commit log promises: reads return the last state written
    (initially [InProgress]), reading changes nothing, and the trait's methods
    return no error (they panic). *)
Class ClogLaws (C : Type) `{ClogAccessor C} := {
  clog_inv : C -> Prop;
  clog_view : C -> TxnId -> TxnState;
  get_state_ok : forall c xid s c', clog_inv c -> valid_xid xid ->
    get_state xid c = (Ok s, c') ->
    s = clog_view c xid /\ clog_inv c' /\ forall y, valid_xid y -> clog_view c' y = clog_view c y;
  set_state_ok : forall c xid s c', clog_inv c -> valid_xid xid ->
    set_state xid s c = (Ok tt, c') ->
    clog_inv c' /\
    forall y, valid_xid y -> clog_view c' y = if decide (y = xid) then s else clog_view c y;
  set_state_infallible : forall c xid s e c', set_state xid s c <> (Err e, c')
}.

(** ** clog.rs: the no-op log *)

Inductive NoOpClogAccessor := NoOp.

#[export] Instance NoOpClog : ClogAccessor NoOpClogAccessor := {
  get_state := fun _ => mret Committed;
  set_state := fun _ _ => mret tt
}.

(** ** clog_mem.rs: the in-memory log *)

Record InMemoryClogAccessor := mkMemClog {
  states : gmap Z TxnState;
  never_gc : bool
}.

Definition MemClog_new : InMemoryClogAccessor := mkMemClog ∅ true.
Definition MemClog_with_gc_enabled : InMemoryClogAccessor := mkMemClog ∅ false.
Definition MemClog_len (c : InMemoryClogAccessor) : Z := Z.of_nat (size (states c)).
Definition MemClog_is_empty (c : InMemoryClogAccessor) : bool := bool_decide (states c = ∅).

Definition gc_victim (bound : TxnId) (e : Z * TxnState) : Prop := snd e = Committed /\ fst e < bound.

#[export] Instance gc_victim_dec bound e : Decision (gc_victim bound e).
Proof. unfold gc_victim. apply _. Defined.

Definition gc_committed_below (bound : TxnId) (c : InMemoryClogAccessor) : Z * InMemoryClogAccessor :=
  if never_gc c then (0, c)
  else
    let before := Z.of_nat (size (states c)) in
    let kept := filter (fun e => ~ gc_victim bound e) (states c) in
    (before - Z.of_nat (size kept), mkMemClog kept (never_gc c)).

Definition MemClog_view (c : InMemoryClogAccessor) (xid : TxnId) : TxnState :=
  default InProgress (states c !! xid).

#[export] Instance MemClog : ClogAccessor InMemoryClogAccessor := {
  get_state := fun xid c => (Ok (MemClog_view c xid), c);
  set_state := fun xid s c => (Ok tt, mkMemClog (<[xid := s]> (states c)) (never_gc c))
}.

(** ** clog_file.rs: addresses, nibbles and segment files *)

Definition CLOG_PAGE_BYTES : Z := 8192.
Definition XIDS_PER_CLOG_PAGE : Z := CLOG_PAGE_BYTES * 2.
Definition XIDS_PER_SEGMENT : Z := 268435456.
Definition CLOG_SEGMENT_BYTES : Z := XIDS_PER_SEGMENT / 2.
Definition CLOG_PAGES_PER_SEGMENT : Z := CLOG_SEGMENT_BYTES / CLOG_PAGE_BYTES.

Definition segment_id_of_xid (xid : TxnId) : Z := xid / XIDS_PER_SEGMENT.
Definition byte_offset_of_xid (xid : TxnId) : Z := (xid mod XIDS_PER_SEGMENT) / 2.
Definition page_no_of_xid (xid : TxnId) : Z := xid / XIDS_PER_CLOG_PAGE.
Definition byte_in_page_of_xid (xid : TxnId) : Z := (xid mod XIDS_PER_CLOG_PAGE) / 2.
Definition segment_id_of_page (page_no : Z) : Z := page_no / CLOG_PAGES_PER_SEGMENT.
Definition page_offset_in_segment (page_no : Z) : Z :=
  (page_no mod CLOG_PAGES_PER_SEGMENT) * CLOG_PAGE_BYTES.

Definition get_nibble (byte : Z) (xid : TxnId) : Z :=
  if Z.land xid 1 =? 0 then Z.shiftr byte 4 else Z.land byte 15.

(** [u8] shifts drop the bits above 7. *)
Definition set_nibble (byte : Z) (xid : TxnId) (state : Z) : Z :=
  if Z.land xid 1 =? 0
  then Z.lor (Z.land byte 15) (Z.shiftl (Z.land state 15) 4 mod 2 ^ 8)
  else Z.lor (Z.land byte 240) (Z.land state 15).

Definition txn_state_from_nibble (nibble : Z) : res StorageError TxnState :=
  if nibble =? 0 then Ok InProgress
  else if nibble =? 1 then Ok Committed
  else if nibble =? 2 then Ok Aborted
  else if nibble =? 3 then Ok SubCommitted
  else Panic.

Record ClogSegmentStore := mkStore {
  st_open : gset Z;
  st_unsynced : gset Z;
  st_disk : gmap Z (list Z);
  st_durable : gmap Z (list Z);
  st_io : list bool
}.

Definition Store_open (disk : gmap Z (list Z)) (io : list bool) : ClogSegmentStore :=
  mkStore ∅ ∅ disk disk io.

(** One file operation: consume the next outcome. *)
Definition io_op : M ClogSegmentStore StorageError unit := fun st =>
  match st_io st with
  | [] => (Ok tt, st)
  | ok :: io =>
      let st := mkStore (st_open st) (st_unsynced st) (st_disk st) (st_durable st) io in
      if ok : bool then (Ok tt, st) else (Err Io, st)
  end.

Definition segment (segment_id : Z) : M ClogSegmentStore StorageError unit :=
  let! st := mget in
  if decide (segment_id ∈ st_open st) then mret tt
  else
    io_op ;!
    mmodify (fun st => mkStore ({[segment_id]} ∪ st_open st) (st_unsynced st) (st_disk st)
                         (st_durable st) (st_io st)).

Definition disk_page (m : gmap Z (list Z)) (page_no : Z) : list Z :=
  default (zeros CLOG_PAGE_BYTES) (m !! page_no).

Definition read_page (page_no : Z) : M ClogSegmentStore StorageError (list Z) :=
  segment (segment_id_of_page page_no) ;!
  io_op ;!
  let! st := mget in
  mret (disk_page (st_disk st) page_no).

Definition write_page (page_no : Z) (buf : list Z) : M ClogSegmentStore StorageError unit :=
  segment (segment_id_of_page page_no) ;!
  io_op ;!
  mmodify (fun st => mkStore (st_open st) ({[segment_id_of_page page_no]} ∪ st_unsynced st)
                       (<[page_no := buf]> (st_disk st)) (st_durable st) (st_io st)).

(** [fsync] of one segment makes its pages durable. *)
Definition in_segment (segment_id : Z) (e : Z * list Z) : Prop := segment_id_of_page (fst e) = segment_id.

#[export] Instance in_segment_dec segment_id e : Decision (in_segment segment_id e).
Proof. unfold in_segment. apply _. Defined.

Definition sync_segment (segment_id : Z) : M ClogSegmentStore StorageError unit :=
  let! st := mget in
  if decide (segment_id ∈ st_open st) then
    io_op ;!
    mmodify (fun st => mkStore (st_open st) (st_unsynced st) (st_disk st)
               (filter (in_segment segment_id) (st_disk st)
                  ∪ filter (fun e => ~ in_segment segment_id e) (st_durable st)) (st_io st))
  else mret tt.

Fixpoint sync_list (pending : list Z) : M ClogSegmentStore StorageError unit :=
  match pending with
  | [] => mret tt
  | segment_id :: pending =>
      sync_segment segment_id ;!
      mmodify (fun st => mkStore (st_open st) (st_unsynced st ∖ {[segment_id]}) (st_disk st)
                           (st_durable st) (st_io st)) ;!
      sync_list pending
  end.

Definition sync_unsynced : M ClogSegmentStore StorageError unit :=
  let! st := mget in
  sync_list (elements (st_unsynced st)).

(** ** clog_buffer.rs: the clock-sweep cache *)

Definition INVALID_PAGE_NO : Z := 2 ^ 64 - 1.
Definition MIN_FRAMES : nat := 4.
Definition MAX_FRAMES : nat := 1024.

Record ClogFrame := mkFrame {
  page_no : Z;
  data : list Z;
  dirty : bool;
  referenced : bool
}.

Record ClogBuffer := mkClogBuffer {
  store : ClogSegmentStore;
  frames : list ClogFrame;
  page_table : gmap Z nat;
  clock_hand : nat;
  hits : Z;
  misses : Z
}.

Definition ClogBuffer_open (st : ClogSegmentStore) (clog_buffer_frames : nat) : res StorageError ClogBuffer :=
  rassert ((MIN_FRAMES <=? clog_buffer_frames)%nat && (clog_buffer_frames <=? MAX_FRAMES)%nat)
    (Ok {| store := st;
           frames := replicate clog_buffer_frames (mkFrame INVALID_PAGE_NO (zeros CLOG_PAGE_BYTES) false false);
           page_table := ∅; clock_hand := 0; hits := 0; misses := 0 |}).

Definition set_frames (fs : list ClogFrame) (b : ClogBuffer) : ClogBuffer :=
  mkClogBuffer (store b) fs (page_table b) (clock_hand b) (hits b) (misses b).
Definition set_table (t : gmap Z nat) (b : ClogBuffer) : ClogBuffer :=
  mkClogBuffer (store b) (frames b) t (clock_hand b) (hits b) (misses b).
Definition set_hand (h : nat) (b : ClogBuffer) : ClogBuffer :=
  mkClogBuffer (store b) (frames b) (page_table b) h (hits b) (misses b).
Definition add_hit (b : ClogBuffer) : ClogBuffer :=
  mkClogBuffer (store b) (frames b) (page_table b) (clock_hand b) (wrap64 (hits b + 1)) (misses b).
Definition add_miss (b : ClogBuffer) : ClogBuffer :=
  mkClogBuffer (store b) (frames b) (page_table b) (clock_hand b) (hits b) (wrap64 (misses b + 1)).

(** Run a store operation on the buffer's store. *)
Definition on_store {A : Type} (m : M ClogSegmentStore StorageError A) : M ClogBuffer StorageError A := fun b =>
  let r := m (store b) in
  (fst r, mkClogBuffer (snd r) (frames b) (page_table b) (clock_hand b) (hits b) (misses b)).

(** [inner.frames[idx]], which panics out of range. *)
Definition frame_at (idx : nat) : M ClogBuffer StorageError ClogFrame := fun b =>
  match frames b !! idx with
  | Some f => (Ok f, b)
  | None => (Panic, b)
  end.

Definition set_frame (idx : nat) (f : ClogFrame) : M ClogBuffer StorageError unit :=
  mmodify (fun b => set_frames (<[idx := f]> (frames b)) b).

(** The [for _ in 0..n] revolution of [find_victim]: [n] frames remain. *)
Fixpoint sweep (n : nat) (allow_dirty : bool) : M ClogBuffer StorageError (option nat) :=
  match n with
  | O => mret None
  | S n =>
      let! b := mget in
      let idx := clock_hand b in
      mmodify (set_hand ((clock_hand b + 1) mod length (frames b))) ;!
      let! frame := frame_at idx in
      if page_no frame =? INVALID_PAGE_NO then mret (Some idx)
      else if referenced frame then
        set_frame idx (mkFrame (page_no frame) (data frame) (dirty frame) false) ;!
        sweep n allow_dirty
      else if dirty frame && negb allow_dirty then sweep n allow_dirty
      else mret (Some idx)
  end.

(** The outer [loop]: at most [fuel] revolutions (two always suffice). *)
Fixpoint find_victim_loop (fuel : nat) (allow_dirty : bool) : M ClogBuffer StorageError nat :=
  match fuel with
  | O => mpanic
  | S fuel =>
      let! b := mget in
      let! r := sweep (length (frames b)) allow_dirty in
      match r with
      | Some idx => mret idx
      | None => find_victim_loop fuel true
      end
  end.

Definition find_victim : M ClogBuffer StorageError nat := find_victim_loop 2 false.

Definition locate_frame (pno : Z) : M ClogBuffer StorageError nat :=
  let! b := mget in
  match page_table b !! pno with
  | Some idx =>
      mmodify add_hit ;!
      let! f := frame_at idx in
      set_frame idx (mkFrame (page_no f) (data f) (dirty f) true) ;!
      mret idx
  | None =>
      mmodify add_miss ;!
      let! victim := find_victim in
      let! f := frame_at victim in
      (if negb (page_no f =? INVALID_PAGE_NO) then
         (if dirty f then on_store (write_page (page_no f) (data f)) else mret tt) ;!
         mmodify (fun b => set_table (delete (page_no f) (page_table b)) b)
       else mret tt) ;!
      let! buf := on_store (read_page pno) in
      set_frame victim (mkFrame pno buf false true) ;!
      mmodify (fun b => set_table (<[pno := victim]> (page_table b)) b) ;!
      mret victim
  end.

Definition ClogBuffer_get_state (xid : TxnId) : M ClogBuffer StorageError TxnState :=
  if xid =? TxnId_INVALID then mret InProgress
  else
    let! idx := munwrap (locate_frame (page_no_of_xid xid)) in
    let! f := frame_at idx in
    match data f !! Z.to_nat (byte_in_page_of_xid xid) with
    | Some byte => fun b => (txn_state_from_nibble (get_nibble byte xid), b)
    | None => mpanic
    end.

Definition ClogBuffer_set_state (xid : TxnId) (state : TxnState) : M ClogBuffer StorageError unit :=
  if xid =? TxnId_INVALID then mret tt
  else
    let! idx := munwrap (locate_frame (page_no_of_xid xid)) in
    let i := Z.to_nat (byte_in_page_of_xid xid) in
    let! f := frame_at idx in
    match data f !! i with
    | Some byte =>
        set_frame idx (mkFrame (page_no f) (<[i := set_nibble byte xid (TxnState_u8 state)]> (data f))
                         true (referenced f))
    | None => mpanic
    end.

(** The frame loop of [flush_dirty]: frames [idx .. idx + n). *)
Fixpoint flush_frames (n idx : nat) : M ClogBuffer StorageError unit :=
  match n with
  | O => mret tt
  | S n =>
      let! f := frame_at idx in
      (if negb (page_no f =? INVALID_PAGE_NO) && dirty f then
         on_store (write_page (page_no f) (data f)) ;!
         set_frame idx (mkFrame (page_no f) (data f) false (referenced f))
       else mret tt) ;!
      flush_frames n (S idx)
  end.

Definition flush_dirty : M ClogBuffer StorageError unit :=
  let! b := mget in
  flush_frames (length (frames b)) 0 ;!
  on_store sync_unsynced.

#[export] Instance BufferClog : ClogAccessor ClogBuffer := {
  get_state := ClogBuffer_get_state;
  set_state := ClogBuffer_set_state
}.

(** ** Views and invariants *)

(** The state a page of bytes records for [xid]. *)
Definition page_state (pg : list Z) (xid : TxnId) : TxnState :=
  match txn_state_from_nibble (get_nibble (nth (Z.to_nat (byte_in_page_of_xid xid)) pg 0) xid) with
  | Ok s => s
  | _ => InProgress
  end.

(** The current bytes of a page: its frame when resident, the file otherwise. *)
Definition page_view (b : ClogBuffer) (p : Z) : list Z :=
  match page_table b !! p with
  | Some i => default [] (data <$> frames b !! i)
  | None => disk_page (st_disk (store b)) p
  end.

Definition ClogBuffer_view (b : ClogBuffer) (xid : TxnId) : TxnState :=
  if xid =? TxnId_INVALID then InProgress else page_state (page_view b (page_no_of_xid xid)) xid.

(** What a restart after a crash reads. *)
Definition durable_view (b : ClogBuffer) (xid : TxnId) : TxnState :=
  if xid =? TxnId_INVALID then InProgress
  else page_state (disk_page (st_durable (store b)) (page_no_of_xid xid)) xid.

(** Both nibbles of every byte are valid states. *)
Definition byte_ok (b : Z) : Prop := 0 <= b < 256 /\ b / 16 <= 3 /\ b mod 16 <= 3.
Definition page_ok (pg : list Z) : Prop := zlen pg = CLOG_PAGE_BYTES /\ Forall byte_ok pg.

Record store_inv (st : ClogSegmentStore) : Prop := {
  si_disk : forall p, page_ok (disk_page (st_disk st) p);
  si_sync : forall p, disk_page (st_disk st) p <> disk_page (st_durable st) p ->
              segment_id_of_page p ∈ st_unsynced st;
  si_open : st_unsynced st ⊆ st_open st
}.

(** The cache invariant; [hole] is a frame being replaced. *)
Record cache_inv (hole : option nat) (b : ClogBuffer) : Prop := {
  ci_store : store_inv (store b);
  ci_count : (MIN_FRAMES <= length (frames b) <= MAX_FRAMES)%nat;
  ci_hand : (clock_hand b < length (frames b))%nat;
  ci_table : forall p i, page_table b !! p = Some i <->
    Some i <> hole /\ p <> INVALID_PAGE_NO /\ exists f, frames b !! i = Some f /\ page_no f = p;
  ci_frames : forall i f, frames b !! i = Some f -> Some i <> hole -> page_no f <> INVALID_PAGE_NO ->
    page_ok (data f) /\ (dirty f = false -> data f = disk_page (st_disk (store b)) (page_no f))
}.

(** ** Lemmas: nibbles and addresses *)

Lemma land_240 b : 0 <= b < 256 -> Z.land b 240 = b / 16 * 16.
Proof.
  intros Hb. assert (H : forallb (fun b => Z.land b 240 =? b / 16 * 16) (seqZ 0 256) = true) by done.
  rewrite forallb_forall in H. apply Z.eqb_eq, H, list_elem_of_In, elem_of_seqZ. lia.
Qed.

Lemma land_1_even x : (Z.land x 1 =? 0) = Z.even x.
Proof.
  change 1 with (Z.ones 1) at 1. rewrite Z.land_ones by lia. change (2 ^ 1) with 2.
  rewrite Zmod_even. by destruct (Z.even x).
Qed.

Lemma get_nibble_arith b x : 0 <= b < 256 -> get_nibble b x = if Z.even x then b / 16 else b mod 16.
Proof.
  intros. unfold get_nibble. rewrite land_1_even. destruct (Z.even x).
  - by rewrite Z.shiftr_div_pow2 by lia.
  - change 15 with (Z.ones 4). by rewrite Z.land_ones by lia.
Qed.

Lemma set_nibble_arith b x s :
  0 <= b < 256 -> 0 <= s <= 3 ->
  set_nibble b x s = if Z.even x then b mod 16 + s * 16 else b / 16 * 16 + s.
Proof.
  intros Hb Hs. unfold set_nibble. rewrite land_1_even. change 15 with (Z.ones 4).
  rewrite !Z.land_ones by lia. change (2 ^ 4) with 16. rewrite (Z.mod_small s) by lia.
  pose proof (Z.mod_pos_bound b 16). destruct (Z.even x).
  - rewrite (Z.mod_small (Z.shiftl s 4)) by (rewrite Z.shiftl_mul_pow2 by lia; lia).
    rewrite lor_shiftl_add by lia. lia.
  - rewrite land_240 by lia. rewrite Z.lor_comm.
    replace (b / 16 * 16) with (Z.shiftl (b / 16) 4) by (by rewrite Z.shiftl_mul_pow2 by lia).
    rewrite lor_shiftl_add by lia. change (2 ^ 4) with 16. rewrite Z.shiftl_mul_pow2 by lia. lia.
Qed.

Lemma set_nibble_ok b x s : byte_ok b -> 0 <= s <= 3 -> byte_ok (set_nibble b x s).
Proof.
  intros (Hb & H1 & H2) Hs. rewrite set_nibble_arith by done. unfold byte_ok.
  pose proof (Z.mod_pos_bound b 16). pose proof (Z.div_mod b 16). destruct (Z.even x).
  - rewrite field_high, field_low by lia. lia.
  - rewrite Z.add_comm, field_high, field_low by lia. lia.
Qed.

Lemma get_set_nibble_same b x s : byte_ok b -> 0 <= s <= 3 -> get_nibble (set_nibble b x s) x = s.
Proof.
  intros Hb Hs. pose proof (set_nibble_ok b x s Hb Hs) as [Hr _].
  rewrite get_nibble_arith by done. destruct Hb as (Hb & _). rewrite set_nibble_arith by done.
  pose proof (Z.mod_pos_bound b 16). destruct (Z.even x).
  - rewrite field_high by lia. done.
  - rewrite Z.add_comm, field_low by lia. done.
Qed.

Lemma get_set_nibble_other b x y s :
  byte_ok b -> 0 <= s <= 3 -> Z.even x <> Z.even y ->
  get_nibble (set_nibble b x s) y = get_nibble b y.
Proof.
  intros Hb Hs He. pose proof (set_nibble_ok b x s Hb Hs) as [Hr _].
  rewrite get_nibble_arith by done. destruct Hb as (Hb & _).
  rewrite get_nibble_arith, set_nibble_arith by done.
  pose proof (Z.mod_pos_bound b 16).
  destruct (Z.even x), (Z.even y); try done.
  - rewrite field_low by lia. done.
  - rewrite Z.add_comm, field_high by lia. done.
Qed.

Lemma TxnState_u8_range s : 0 <= TxnState_u8 s <= 3.
Proof. destruct s; simpl; lia. Qed.

Lemma from_nibble_u8 s : txn_state_from_nibble (TxnState_u8 s) = Ok s.
Proof. by destruct s. Qed.

Lemma from_nibble_ok n : 0 <= n <= 3 -> exists s, txn_state_from_nibble n = Ok s.
Proof.
  intros. unfold txn_state_from_nibble.
  repeat match goal with |- context [if ?b then _ else _] => destruct b eqn:? end; eauto.
  zbool. lia.
Qed.

Lemma get_nibble_range b x : byte_ok b -> 0 <= get_nibble b x <= 3.
Proof.
  intros (Hb & ? & ?). rewrite get_nibble_arith by done. destruct (Z.even x).
  - split; [apply Z.div_pos; lia|lia].
  - pose proof (Z.mod_pos_bound b 16). lia.
Qed.

Lemma byte_in_page_range x : 0 <= x -> 0 <= byte_in_page_of_xid x < CLOG_PAGE_BYTES.
Proof.
  intros. unfold byte_in_page_of_xid, XIDS_PER_CLOG_PAGE, CLOG_PAGE_BYTES.
  pose proof (Z.mod_pos_bound x (8192 * 2)). split.
  - apply Z.div_pos; lia.
  - apply Z.div_lt_upper_bound; lia.
Qed.

(** Page, byte and nibble identify the transaction. *)
Lemma xid_address_inj x y :
  0 <= x -> 0 <= y -> page_no_of_xid x = page_no_of_xid y ->
  byte_in_page_of_xid x = byte_in_page_of_xid y -> Z.even x = Z.even y -> x = y.
Proof.
  unfold page_no_of_xid, byte_in_page_of_xid, XIDS_PER_CLOG_PAGE, CLOG_PAGE_BYTES.
  change (8192 * 2) with 16384. intros Hx Hy Hp Hb He.
  assert (Hd : forall z, z = 16384 * (z / 16384) + 2 * (z mod 16384 / 2) + z mod 2).
  { intros z. pose proof (Z.div_mod z 16384). pose proof (Z.div_mod (z mod 16384) 2).
    assert (z mod 16384 mod 2 = z mod 2) by (apply Z.mod_mod_divide; by exists 8192). lia. }
  rewrite (Hd x), (Hd y), Hp, Hb. rewrite !Zmod_even, He. done.
Qed.

Lemma page_no_valid x : valid_xid x -> page_no_of_xid x <> INVALID_PAGE_NO.
Proof.
  unfold valid_xid, page_no_of_xid, XIDS_PER_CLOG_PAGE, CLOG_PAGE_BYTES, INVALID_PAGE_NO. intros.
  assert (x / (8192 * 2) < 2 ^ 64 - 1); [|lia]. apply Z.div_lt_upper_bound; lia.
Qed.

Lemma zeros_page_ok : page_ok (zeros CLOG_PAGE_BYTES).
Proof.
  split; [by rewrite length_zeros|]. apply Forall_replicate. unfold byte_ok. by vm_compute.
Qed.

(** Updating one transaction's nibble in a page. *)
Lemma page_state_update pg x y s :
  page_ok pg -> valid_xid x -> valid_xid y -> page_no_of_xid x = page_no_of_xid y ->
  let i := Z.to_nat (byte_in_page_of_xid x) in
  page_state (<[i := set_nibble (nth i pg 0) x (TxnState_u8 s)]> pg) y =
    if decide (y = x) then s else page_state pg y.
Proof.
  intros [Hl Hf] Hx Hy Hp i. unfold valid_xid in *.
  assert (Hr := byte_in_page_range x ltac:(lia)). assert (Hr' := byte_in_page_range y ltac:(lia)).
  assert (Hi : (i < length pg)%nat) by lia.
  assert (Hb : byte_ok (nth i pg 0)).
  { rewrite Forall_nth in Hf. by apply Hf. }
  pose proof (TxnState_u8_range s) as Hs.
  unfold page_state. fold i. set (j := Z.to_nat (byte_in_page_of_xid y)).
  destruct (decide (j = i)) as [Hji|Hji].
  - rewrite Hji. rewrite (nth_lookup_Some _ _ _ (set_nibble (nth i pg 0) x (TxnState_u8 s)))
      by by apply list_lookup_insert_eq.
    case_decide as Hyx.
    + subst y. by rewrite get_set_nibble_same, from_nibble_u8 by done.
    + rewrite get_set_nibble_other; [done|done|done|]. intros He. apply Hyx. symmetry.
      apply xid_address_inj; try done; unfold i, j in Hji; lia.
  - rewrite decide_False by (intros ->; unfold i, j in Hji; lia).
    rewrite !nth_lookup, list_lookup_insert_ne by done. done.
Qed.

(** ** Lemmas: the segment store *)

(** Nothing but opened segments and consumed outcomes changed. *)
Definition store_same (st st' : ClogSegmentStore) : Prop :=
  st_disk st' = st_disk st /\ st_durable st' = st_durable st /\
  st_unsynced st' = st_unsynced st /\ st_open st ⊆ st_open st'.

Lemma store_same_refl st : store_same st st.
Proof. by repeat split. Qed.

Lemma store_same_trans st1 st2 st3 : store_same st1 st2 -> store_same st2 st3 -> store_same st1 st3.
Proof.
  intros (A1 & A2 & A3 & A4) (B1 & B2 & B3 & B4). unfold store_same. split; [congruence|].
  split; [congruence|]. split; [congruence|]. set_solver.
Qed.

Lemma io_op_spec st r st' :
  io_op st = (r, st') -> (r = Ok tt \/ r = Err Io) /\ store_same st st' /\ st_open st' = st_open st.
Proof.
  unfold io_op. destruct (st_io st) as [|[] io]; intros [= <- <-]; split; auto; by repeat split.
Qed.

Lemma segment_spec s st r st' :
  segment s st = (r, st') ->
  (r = Ok tt \/ r = Err Io) /\ store_same st st' /\ (r = Ok tt -> s ∈ st_open st').
Proof.
  unfold segment, mbindM, mget. case_decide.
  - intros [= <- <-]. split; [auto|]. split; [apply store_same_refl|done].
  - destruct (io_op st) as [r1 st1] eqn:E. apply io_op_spec in E as ([-> | ->] & Hs & Ho);
      intros [= <- <-]; (split; [auto|]); [|by split].
    split; [|set_solver]. destruct Hs as (A1 & A2 & A3 & A4). repeat split; try done; simpl; set_solver.
Qed.

Lemma read_page_spec p st r st' :
  read_page p st = (r, st') ->
  (r = Ok (disk_page (st_disk st) p) \/ r = Err Io) /\ store_same st st'.
Proof.
  unfold read_page, mbindM, mget, mret.
  destruct (segment _ st) as [r1 st1] eqn:E1. apply segment_spec in E1 as ([-> | ->] & Hs1 & _).
  2: { intros [= <- <-]. auto. }
  destruct (io_op st1) as [r2 st2] eqn:E2. apply io_op_spec in E2 as ([-> | ->] & Hs2 & _);
    intros [= <- <-].
  - assert (Hs : store_same st st2) by by eapply store_same_trans. split; [|done].
    left. destruct Hs as [-> _]. done.
  - split; [auto|]. by eapply store_same_trans.
Qed.

Definition wrote (p : Z) (buf : list Z) (st st' : ClogSegmentStore) : Prop :=
  st_disk st' = <[p := buf]> (st_disk st) /\ st_durable st' = st_durable st /\
  st_unsynced st' = {[segment_id_of_page p]} ∪ st_unsynced st /\
  st_open st ⊆ st_open st' /\ segment_id_of_page p ∈ st_open st'.

Lemma write_page_spec p buf st r st' :
  write_page p buf st = (r, st') ->
  (r = Ok tt /\ wrote p buf st st') \/ (r = Err Io /\ store_same st st').
Proof.
  unfold write_page, mbindM, mmodify.
  destruct (segment _ st) as [r1 st1] eqn:E1. apply segment_spec in E1 as ([-> | ->] & Hs1 & Ho1).
  2: { intros [= <- <-]. auto. }
  destruct (io_op st1) as [r2 st2] eqn:E2. apply io_op_spec in E2 as ([-> | ->] & Hs2 & Ho2);
    intros [= <- <-].
  - left. split; [done|]. assert (Hs : store_same st st2) by by eapply store_same_trans.
    destruct Hs as (-> & -> & -> & ?). unfold wrote. simpl. rewrite Ho2. repeat split; try done.
    + rewrite Ho2 in *. done.
    + by apply Ho1.
  - right. split; [done|]. by eapply store_same_trans.
Qed.

Lemma disk_page_insert m p buf q :
  disk_page (<[p := buf]> m) q = if decide (q = p) then buf else disk_page m q.
Proof.
  unfold disk_page. case_decide; subst; [by rewrite lookup_insert_eq|].
  by rewrite lookup_insert_ne by done.
Qed.

Lemma store_inv_same st st' : store_same st st' -> store_inv st -> store_inv st'.
Proof.
  intros (H1 & H2 & H3 & H4) []. split; rewrite ?H1, ?H2, ?H3; try done. set_solver.
Qed.

Lemma store_inv_wrote p buf st st' :
  page_ok buf -> wrote p buf st st' -> store_inv st -> store_inv st'.
Proof.
  intros Hb (H1 & H2 & H3 & H4 & H5) [Hd Hs Ho]. split; rewrite ?H1, ?H2, ?H3.
  - intros q. rewrite disk_page_insert. by case_decide.
  - intros q Hq. rewrite disk_page_insert in Hq. case_decide; [set_solver|].
    apply Hs in Hq. set_solver.
  - set_solver.
Qed.

Lemma lookup_fsync s (disk durable : gmap Z (list Z)) p :
  (filter (in_segment s) disk ∪ filter (fun e => ~ in_segment s e) durable) !! p =
    if decide (segment_id_of_page p = s) then disk !! p else durable !! p.
Proof.
  rewrite lookup_union, !map_lookup_filter. case_decide as Hp.
  - destruct (disk !! p) as [pg|]; simpl.
    + rewrite option_guard_True by done. destruct (durable !! p); simpl; [|done].
      rewrite option_guard_False by tauto. done.
    + destruct (durable !! p); simpl; [|done]. rewrite option_guard_False by tauto. done.
  - assert (Hn : forall m : gmap Z (list Z),
      (m !! p ≫= (fun x => guard (in_segment s (p, x));; Some x)) = None).
    { intros m. destruct (m !! p); simpl; [|done]. by rewrite option_guard_False. }
    rewrite Hn. destruct (durable !! p); simpl; [|done]. by rewrite option_guard_True.
Qed.

Lemma sync_segment_spec s st r st' :
  s ∈ st_open st -> sync_segment s st = (r, st') ->
  (r = Err Io /\ store_same st st') \/
  (r = Ok tt /\ st_disk st' = st_disk st /\ st_unsynced st' = st_unsynced st /\ st_open st' = st_open st /\
   forall p, st_durable st' !! p =
     if decide (segment_id_of_page p = s) then st_disk st !! p else st_durable st !! p).
Proof.
  intros Hs. unfold sync_segment, mbindM, mget, mmodify. rewrite decide_True by done.
  destruct (io_op st) as [r1 st1] eqn:E. apply io_op_spec in E as ([-> | ->] & Hs1 & Ho);
    intros [= <- <-]; [right|by left]. destruct Hs1 as (H1 & H2 & H3 & _). simpl.
  repeat split; try done. intros p. rewrite H1, H2. apply lookup_fsync.
Qed.

(** [sync_list] keeps the tracking invariant whatever fails; when it succeeds
    every listed segment is durable. *)
Lemma sync_list_spec l : forall st r st',
  store_inv st -> (forall s, s ∈ l -> s ∈ st_open st) -> sync_list l st = (r, st') ->
  (r = Ok tt \/ r = Err Io) /\ store_inv st' /\ st_disk st' = st_disk st /\
  (r = Ok tt -> st_unsynced st' = st_unsynced st ∖ list_to_set l).
Proof.
  induction l as [|s l IH]; intros st r st' Hinv Hl; cbn [sync_list].
  { intros [= <- <-]. split; [auto|]. split; [done|]. split; [done|]. set_solver. }
  unfold mbindM at 1. destruct (sync_segment s st) as [r1 st1] eqn:E1.
  destruct (sync_segment_spec s st r1 st1) as [[-> Hs]|(-> & H1 & H2 & H3 & H4)];
    [set_solver|done|intros [= <- <-]|].
  { split; [auto|]. split; [by eapply store_inv_same|]. split; [apply Hs|done]. }
  unfold mbindM, mmodify. intros Hrun.
  apply IH in Hrun as (Hr & Hi & Hd & Hu).
  - split; [done|]. split; [done|]. simpl in *. split; [congruence|].
    intros Hok. rewrite (Hu Hok), H2. set_solver.
  - destruct Hinv as [Hdk Hsy Hop]. split; simpl; rewrite ?H1, ?H2, ?H3; [done| |set_solver].
    intros p Hp. apply elem_of_difference. unfold disk_page in Hp. rewrite H4 in Hp.
    destruct (decide (segment_id_of_page p = s)) as [He|He]; [done|].
    split; [by apply Hsy|set_solver].
  - simpl. rewrite H3. set_solver.
Qed.

(** ** Lemmas: victim selection *)

(** [b'] differs from [b] only in the hand, the hit counters and cleared
    reference bits. *)
Record swept (b b' : ClogBuffer) : Prop := {
  sw_store : store b' = store b;
  sw_table : page_table b' = page_table b;
  sw_len : length (frames b') = length (frames b);
  sw_hand : (clock_hand b < length (frames b))%nat -> (clock_hand b' < length (frames b'))%nat;
  sw_frames : forall i f, frames b !! i = Some f ->
    exists r, frames b' !! i = Some (mkFrame (page_no f) (data f) (dirty f) r) /\
              (referenced f = false -> r = false)
}.

Lemma swept_refl b : swept b b.
Proof. split; try done. intros i [] ?. eauto. Qed.

Lemma swept_trans b1 b2 b3 : swept b1 b2 -> swept b2 b3 -> swept b1 b3.
Proof.
  intros [] []. split; try congruence; [auto|]. intros i f Hf.
  apply sw_frames0 in Hf as (r & Hf & Hr). apply sw_frames1 in Hf as (r' & Hf & Hr').
  simpl in *. eauto.
Qed.

Lemma swept_hand b h : (h < length (frames b))%nat -> swept b (set_hand h b).
Proof. intros. split; try done. intros i [] ?. eauto. Qed.

Lemma swept_clear b i f :
  frames b !! i = Some f ->
  swept b (set_frames (<[i := mkFrame (page_no f) (data f) (dirty f) false]> (frames b)) b).
Proof.
  intros Hi. split; simpl; try done; [by rewrite length_insert|by rewrite length_insert|].
  intros j g Hj. destruct (decide (j = i)) as [->|Hne].
  - rewrite Hi in Hj. injection Hj as ->. rewrite list_lookup_insert_eq by by eapply lookup_lt_Some.
    eauto.
  - rewrite list_lookup_insert_ne by done. destruct g. eauto.
Qed.

(** The step of [sweep] on the frame under the hand. *)
Lemma sweep_cons n allow b f :
  frames b !! clock_hand b = Some f ->
  sweep (S n) allow b =
    let b1 := set_hand ((clock_hand b + 1) mod length (frames b)) b in
    if page_no f =? INVALID_PAGE_NO then (Ok (Some (clock_hand b)), b1)
    else if referenced f then
      sweep n allow (set_frames (<[clock_hand b := mkFrame (page_no f) (data f) (dirty f) false]> (frames b)) b1)
    else if dirty f && negb allow then sweep n allow b1
    else (Ok (Some (clock_hand b)), b1).
Proof.
  intros Hf. cbn [sweep]. unfold mbindM, mget, mmodify, frame_at, mret. simpl. rewrite Hf.
  destruct (_ =? _); [done|]. destruct (referenced f); [done|]. by destruct (_ && _).
Qed.

Lemma swept_step b : (clock_hand b < length (frames b))%nat ->
  swept b (set_hand ((clock_hand b + 1) mod length (frames b)) b).
Proof. intros. apply swept_hand. apply Nat.mod_upper_bound. lia. Qed.

(** A sweep never panics, only clears reference bits, and picks a frame in range. *)
Lemma sweep_spec n : forall allow b,
  (clock_hand b < length (frames b))%nat ->
  exists r, fst (sweep n allow b) = Ok r /\ swept b (snd (sweep n allow b)) /\
    match r with
    | Some idx => (idx < length (frames b))%nat
    | None => n = O \/ exists f, frames (snd (sweep n allow b)) !! clock_hand b = Some f /\
                referenced f = false /\ page_no f <> INVALID_PAGE_NO
    end.
Proof.
  induction n as [|n IH]; intros allow b Hh.
  { exists None. cbn. split; [done|]. split; [apply swept_refl|auto]. }
  destruct (lookup_lt_is_Some_2 _ _ Hh) as [f Hf].
  rewrite (sweep_cons _ _ _ _ Hf). cbv zeta.
  destruct (page_no f =? INVALID_PAGE_NO) eqn:Ep.
  { exists (Some (clock_hand b)). split; [done|]. split; [by apply swept_step|done]. }
  zbool. pose proof (swept_step _ Hh) as Hst.
  set (b1 := set_hand ((clock_hand b + 1) mod length (frames b)) b) in *.
  assert (Hcont : forall b2, swept b b2 -> frames b2 !! clock_hand b = Some (mkFrame (page_no f) (data f) (dirty f) false) ->
    exists r, fst (sweep n allow b2) = Ok r /\ swept b (snd (sweep n allow b2)) /\
      match r with
      | Some idx => (idx < length (frames b))%nat
      | None => S n = O \/ exists f, frames (snd (sweep n allow b2)) !! clock_hand b = Some f /\
                  referenced f = false /\ page_no f <> INVALID_PAGE_NO
      end).
  { intros b2 Hb2 Hf2. destruct (IH allow b2) as (r & Hr & Hsw & Hres); [by apply (sw_hand _ _ Hb2)|].
    exists r. split; [done|]. split; [by eapply swept_trans|].
    destruct r as [idx|]; [by rewrite <-(sw_len _ _ Hb2)|right].
    apply (sw_frames _ _ Hsw) in Hf2 as (r' & Hf2 & Hr'). simpl in *. rewrite Hr' in Hf2 by done.
    eauto. }
  destruct (referenced f) eqn:Er.
  - apply Hcont.
    + eapply swept_trans; [exact Hst|]. apply (swept_clear b1). done.
    + simpl. apply list_lookup_insert_eq. by eapply lookup_lt_Some.
  - destruct (dirty f && negb allow) eqn:Ed.
    + apply Hcont; [done|]. simpl. rewrite Hf. destruct f; simpl in *; congruence.
    + exists (Some (clock_hand b)). split; [done|]. by split.
Qed.

(** With dirty frames allowed, an unreferenced frame under the hand is taken. *)
Lemma sweep_takes n b f :
  frames b !! clock_hand b = Some f -> referenced f = false ->
  fst (sweep (S n) true b) = Ok (Some (clock_hand b)).
Proof.
  intros Hf Hr. rewrite (sweep_cons _ _ _ _ Hf), Hr, andb_false_r. by destruct (_ =? _).
Qed.

(** After a full revolution the hand is back where it started. *)
Lemma sweep_hand n : forall allow b r b',
  (clock_hand b < length (frames b))%nat -> sweep n allow b = (Ok r, b') -> r = None ->
  clock_hand b' = ((clock_hand b + n) mod length (frames b))%nat.
Proof.
  induction n as [|n IH]; intros allow b r b' Hh Hs ->.
  { cbn in Hs. injection Hs as <-. rewrite Nat.add_0_r, Nat.mod_small; done. }
  destruct (lookup_lt_is_Some_2 _ _ Hh) as [f Hf].
  rewrite (sweep_cons _ _ _ _ Hf) in Hs. cbv zeta in Hs.
  assert (Hmod : ((clock_hand b + 1) mod length (frames b) < length (frames b))%nat).
  { apply Nat.mod_upper_bound. lia. }
  repeat case_if Hs; apply IH in Hs; try done; simpl in *; rewrite ?length_insert in *; try done;
    rewrite Hs, Nat.Div0.add_mod_idemp_l; f_equal; lia.
Qed.

(** Two revolutions always find a victim. *)
Lemma find_victim_spec b :
  (clock_hand b < length (frames b))%nat ->
  exists idx b', find_victim b = (Ok idx, b') /\ swept b b' /\ (idx < length (frames b))%nat.
Proof.
  intros Hh. unfold find_victim. cbn [find_victim_loop]. unfold mbindM at 1, mget. cbv iota.
  unfold mbindM. destruct (sweep_spec (length (frames b)) false b Hh) as (r & Hr & Hsw & Hres).
  destruct (sweep _ false b) as [r1 b1] eqn:E1. simpl in *. subst r1.
  destruct r as [idx|]; [by exists idx, b1|].
  destruct Hres as [Hz|(f & Hf & Href & _)]; [lia|].
  pose proof (sweep_hand _ _ _ _ _ Hh E1 eq_refl) as Hhd.
  replace (clock_hand b + length (frames b))%nat with (clock_hand b + 1 * length (frames b))%nat in Hhd by lia.
  rewrite Nat.Div0.mod_add, Nat.mod_small in Hhd by done. rewrite <-Hhd in Hf.
  assert (Hh1 := sw_hand _ _ Hsw Hh).
  destruct (sweep_spec (length (frames b1)) true b1 Hh1) as (r2 & Hr2 & Hsw2 & _).
  destruct (length (frames b1)) as [|m] eqn:Em; [lia|].
  pose proof (sweep_takes m b1 f Hf Href) as Ht.
  destruct (sweep (S m) true b1) as [r3 b2]. simpl in *. subst r3.
  injection Ht as ->. eexists _, b2. split; [reflexivity|]. split; [by eapply swept_trans|].
  rewrite <-(sw_len _ _ Hsw). lia.
Qed.

Lemma cache_inv_swept b b' : swept b b' -> cache_inv None b -> cache_inv None b'.
Proof.
  intros Hsw [Hst Hc Hh Ht Hf]. destruct Hsw as [H1 H2 H3 H4 H5].
  assert (Hback : forall i f', frames b' !! i = Some f' -> exists f, frames b !! i = Some f /\
            page_no f' = page_no f /\ data f' = data f /\ dirty f' = dirty f).
  { intros i f' Hf'. apply lookup_lt_Some in Hf' as Hi. rewrite H3 in Hi.
    destruct (lookup_lt_is_Some_2 _ _ Hi) as [f Hfi]. exists f. split; [done|].
    apply H5 in Hfi as (r & Hr & _). rewrite Hf' in Hr. injection Hr as ->. done. }
  split; rewrite ?H1, ?H2, ?H3; try done.
  - rewrite <-H3. auto.
  - intros p i. rewrite Ht. split; intros (? & ? & f & Hfi & Hp); (split; [done|]); (split; [done|]).
    + apply H5 in Hfi as (r & Hr & _). eauto.
    + apply Hback in Hfi as (g & Hg & Hpg & _). exists g. by rewrite <-Hpg.
  - intros i f' Hf' _ Hp. apply Hback in Hf' as (f & Hfi & Hpf & Hdf & Hdd).
    rewrite Hpf, Hdf, Hdd in *. by apply (Hf i).
Qed.

Lemma page_view_swept b b' p : swept b b' -> cache_inv None b -> page_view b' p = page_view b p.
Proof.
  intros Hsw Hinv. unfold page_view. rewrite (sw_table _ _ Hsw), (sw_store _ _ Hsw).
  destruct (page_table b !! p) as [i|] eqn:Ei; [|done].
  apply (ci_table _ _ Hinv) in Ei as (_ & _ & f & Hf & _).
  destruct (sw_frames _ _ Hsw _ _ Hf) as (r & Hr & _). by rewrite Hf, Hr.
Qed.

(** ** Lemmas: loading a page *)

Definition with_store (st : ClogSegmentStore) (b : ClogBuffer) : ClogBuffer :=
  mkClogBuffer st (frames b) (page_table b) (clock_hand b) (hits b) (misses b).

Lemma on_store_ok {A} (m : M ClogSegmentStore StorageError A) b r b' :
  on_store m b = (r, b') -> exists st', m (store b) = (r, st') /\ b' = with_store st' b.
Proof. unfold on_store. destruct (m (store b)) as [r1 st1]. intros [= <- <-]. by exists st1. Qed.

(** Emptying frame [v]: its page leaves the table, written back if dirty. *)
Lemma evict_spec b v f st :
  cache_inv None b -> frames b !! v = Some f ->
  (page_no f <> INVALID_PAGE_NO ->
     (dirty f = true /\ wrote (page_no f) (data f) (store b) st) \/
     (dirty f = false /\ st = store b)) ->
  (page_no f = INVALID_PAGE_NO -> st = store b) ->
  let t := if decide (page_no f = INVALID_PAGE_NO) then page_table b else delete (page_no f) (page_table b) in
  let b' := set_table t (with_store st b) in
  cache_inv (Some v) b' /\ forall p, page_view b' p = page_view b p.
Proof.
  intros [Hst Hc Hh Ht Hf] Hv Hw Hinval. cbv zeta.
  destruct (decide (page_no f = INVALID_PAGE_NO)) as [Hp|Hp].
  - specialize (Hinval Hp) as ->. split; [|done].
    split; try done; simpl.
    + intros p i. rewrite Ht. split; intros (? & Hpn & g & Hg & Hpg); [|by eauto 6].
      split; [|by eauto]. intros [= ->]. rewrite Hv in Hg. congruence.
    + intros i g Hg _ Hpg. by apply (Hf i).
  - specialize (Hw Hp). set (q := page_no f) in *.
    assert (Hq : page_table b !! q = Some v) by (apply Ht; by eauto).
    destruct (Hf v f Hv ltac:(done) Hp) as [Hok Hcl].
    assert (Hinj : forall i g, frames b !! i = Some g -> page_no g = q -> i = v).
    { intros i g Hg Hpg. assert (page_table b !! q = Some i) by (apply Ht; by eauto). congruence. }
    assert (Hdisk : forall p, disk_page (st_disk st) p = if decide (p = q) then data f else disk_page (st_disk (store b)) p).
    { intros p. destruct Hw as [[_ Hw]|[Hd ->]].
      - destruct Hw as [-> _]. apply disk_page_insert.
      - case_decide as He; [|done]. rewrite He. symmetry. by apply Hcl. }
    assert (Hsi : store_inv st).
    { destruct Hw as [[_ Hw]|[_ ->]]; [by eapply store_inv_wrote|done]. }
    split.
    + split; simpl; try done.
      * intros p i. destruct (decide (p = q)) as [->|Hpq].
        { rewrite lookup_delete_eq. split; [done|]. intros (Hn & _ & g & Hg & Hpg).
          apply Hinj in Hg; [congruence|done]. }
        rewrite lookup_delete_ne by done. rewrite Ht.
        split; intros (? & Hpn & g & Hg & Hpg); (split; [|by eauto]); [|done].
        intros [= ->]. rewrite Hv in Hg. unfold q in Hpq. congruence.
      * intros i g Hg Hne Hpg. destruct (Hf i g Hg ltac:(done) Hpg) as [? Hcl']. split; [done|].
        intros Hd. rewrite Hdisk. rewrite decide_False; [auto|]. intros He.
        apply Hinj in Hg; [congruence|done].
    + intros p. unfold page_view. simpl. destruct (decide (p = q)) as [->|Hpq].
      * rewrite lookup_delete_eq, Hq, Hv, Hdisk, decide_True by done. done.
      * rewrite lookup_delete_ne by done. rewrite Hdisk, decide_False by done. done.
Qed.

(** Filling the emptied frame [v] with a page read from its file. *)
Lemma load_spec b v pno st :
  cache_inv (Some v) b -> (v < length (frames b))%nat -> pno <> INVALID_PAGE_NO ->
  page_table b !! pno = None -> store_same (store b) st ->
  let b' := set_table (<[pno := v]> (page_table b))
              (set_frames (<[v := mkFrame pno (disk_page (st_disk (store b)) pno) false true]> (frames b))
                 (with_store st b)) in
  cache_inv None b' /\ page_table b' !! pno = Some v /\ forall p, page_view b' p = page_view b p.
Proof.
  intros [Hst Hc Hh Ht Hf] Hv Hp Hn Hs b'.
  assert (Hdisk : st_disk st = st_disk (store b)) by apply Hs.
  assert (Hother : forall p i, p <> pno -> page_table b !! p = Some i -> i <> v).
  { intros p i _ Hi ->. apply Ht in Hi as (? & _). done. }
  split; [split; simpl; rewrite ?length_insert; try done|split].
  - by eapply store_inv_same.
  - intros p i. destruct (decide (p = pno)) as [->|Hpne].
    + rewrite lookup_insert_eq. split.
      * intros [= <-]. split; [done|]. split; [done|]. eexists.
        split; [by apply list_lookup_insert_eq|done].
      * intros (_ & _ & g & Hg & Hpg). destruct (decide (i = v)) as [->|Hi]; [done|].
        rewrite list_lookup_insert_ne in Hg by done.
        assert (page_table b !! pno = Some i) by (apply Ht; split; [congruence|eauto]). congruence.
    + rewrite lookup_insert_ne by done. rewrite Ht. split.
      * intros (Hi & Hpn & g & Hg & Hpg). split; [done|]. split; [done|]. exists g.
        rewrite list_lookup_insert_ne by congruence. done.
      * intros (_ & Hpn & g & Hg & Hpg). destruct (decide (i = v)) as [->|Hi].
        { rewrite list_lookup_insert_eq in Hg by done. injection Hg as <-. simpl in Hpg. congruence. }
        rewrite list_lookup_insert_ne in Hg by done. split; [congruence|]. eauto.
  - intros i g Hg _ Hpg. rewrite Hdisk. destruct (decide (i = v)) as [->|Hi].
    + rewrite list_lookup_insert_eq in Hg by done. injection Hg as <-. simpl.
      split; [apply Hst|done].
    + rewrite list_lookup_insert_ne in Hg by done. apply (Hf i); congruence.
  - simpl. by rewrite lookup_insert_eq.
  - intros p. unfold page_view. simpl. rewrite Hdisk. destruct (decide (p = pno)) as [->|Hpne].
    + rewrite lookup_insert_eq, Hn, list_lookup_insert_eq by done. done.
    + rewrite lookup_insert_ne by done. destruct (page_table b !! p) as [i|] eqn:Ei; [|done].
      rewrite list_lookup_insert_ne; [done|]. intros <-. by apply (Hother p v).
Qed.

Lemma locate_frame_spec pno b idx b' :
  cache_inv None b -> pno <> INVALID_PAGE_NO -> locate_frame pno b = (Ok idx, b') ->
  cache_inv None b' /\ page_table b' !! pno = Some idx /\ forall p, page_view b' p = page_view b p.
Proof.
  intros Hinv Hp Hl. unfold locate_frame in Hl. unfold mbindM at 1, mget in Hl.
  destruct (page_table b !! pno) as [i|] eqn:Ei.
  - apply (ci_table _ _ Hinv) in Ei as Hi. destruct Hi as (_ & _ & f & Hf & Hpf).
    unfold mbindM, mmodify, frame_at, set_frame, mret in Hl. simpl in Hl. rewrite Hf in Hl.
    injection Hl as <- <-.
    set (f' := mkFrame _ _ _ _).
    split; [|split; [done|]].
    + destruct Hinv as [Hst Hc Hh Ht Hfr]. split; simpl; rewrite ?length_insert; try done.
      * intros p j. rewrite Ht. split; intros (? & ? & g & Hg & Hpg); (split; [done|]); (split; [done|]);
          destruct (decide (j = i)) as [->|Hne].
        -- exists f'. rewrite list_lookup_insert_eq by by eapply lookup_lt_Some.
           rewrite Hf in Hg. injection Hg as ->. done.
        -- exists g. by rewrite list_lookup_insert_ne.
        -- rewrite list_lookup_insert_eq in Hg by by eapply lookup_lt_Some. injection Hg as <-. eauto.
        -- rewrite list_lookup_insert_ne in Hg by done. eauto.
      * intros j g Hg _ Hpg. destruct (decide (j = i)) as [->|Hne].
        -- rewrite list_lookup_insert_eq in Hg by by eapply lookup_lt_Some. injection Hg as <-.
           simpl in *. by apply (Hfr i f).
        -- rewrite list_lookup_insert_ne in Hg by done. by apply (Hfr j g).
    + intros p. unfold page_view. simpl. destruct (page_table b !! p) as [j|]; [|done].
      destruct (decide (j = i)) as [->|Hne].
      * rewrite list_lookup_insert_eq by by eapply lookup_lt_Some. by rewrite Hf.
      * by rewrite list_lookup_insert_ne.
  - assert (Hm : cache_inv None (add_miss b)) by (by destruct Hinv).
    unfold mbindM at 1, mmodify in Hl.
    destruct (find_victim_spec (add_miss b) (ci_hand _ _ Hm)) as (v & b1 & Hfv & Hsw & Hv).
    unfold mbindM at 1 in Hl. rewrite Hfv in Hl.
    pose proof (cache_inv_swept _ _ Hsw Hm) as Hb1.
    assert (Hview1 : forall p, page_view b1 p = page_view b p).
    { intros p. by rewrite (page_view_swept _ _ p Hsw Hm). }
    assert (Ht1 : page_table b1 !! pno = None) by by rewrite (sw_table _ _ Hsw).
    assert (Hv1 : (v < length (frames b1))%nat) by by rewrite (sw_len _ _ Hsw).
    destruct (lookup_lt_is_Some_2 _ _ Hv1) as [f Hf].
    inv_mbind Hl. unfold frame_at in Ha. rewrite Hf in Ha. injection Ha as <- <-.
    apply mbindM_ok in Hl as ([] & b2 & He & Hl).
    assert (Hev : cache_inv (Some v) b2 /\ (forall p, page_view b2 p = page_view b1 p) /\
                  frames b2 = frames b1 /\ page_table b2 !! pno = None).
    { destruct (page_no f =? INVALID_PAGE_NO) eqn:Epn; simpl in He; zbool.
      - unfold mret in He. injection He as <-.
        destruct (evict_spec b1 v f (store b1) Hb1 Hf) as [Hc Hpv]; [done|done|].
        rewrite decide_True in Hc, Hpv by done. by destruct b1.
      - apply mbindM_ok in He as ([] & b3 & Hwr & He). unfold mmodify in He. injection He as <-.
        assert (Hb3 : exists st, b3 = with_store st b1 /\
          ((dirty f = true /\ wrote (page_no f) (data f) (store b1) st) \/ (dirty f = false /\ st = store b1))).
        { destruct (dirty f).
          - apply on_store_ok in Hwr as (st & Hwr & ->). exists st. split; [done|].
            apply write_page_spec in Hwr as [[_ ?]|[? _]]; [auto|done].
          - unfold mret in Hwr. injection Hwr as <-. exists (store b1). split; [by destruct b1|auto]. }
        destruct Hb3 as (st & -> & Hst).
        destruct (evict_spec b1 v f st Hb1 Hf) as [Hc Hpv]; [done|done|].
        rewrite decide_False in Hc, Hpv by done. split; [done|]. split; [done|]. split; [done|].
        simpl. apply lookup_delete_None. by right. }
    destruct Hev as (Hc2 & Hpv2 & Hfr2 & Ht2).
    apply mbindM_ok in Hl as (buf & b3 & Hrd & Hl).
    apply on_store_ok in Hrd as (st & Hrd & ->). apply read_page_spec in Hrd as [[Hb|?] Hs]; [|done].
    injection Hb as ->. unfold mbindM, set_frame, mmodify, mret in Hl. simpl in Hl.
    injection Hl as <- <-.
    destruct (load_spec b2 v pno st Hc2) as (Hc3 & Ht3 & Hpv3); [by rewrite Hfr2|done|done|done|].
    split; [done|]. split; [done|]. intros p. rewrite Hpv3, Hpv2, Hview1. done.
Qed.

(** ** Lemmas: reading and writing a state *)

Lemma page_view_ok b p : cache_inv None b -> page_ok (page_view b p).
Proof.
  intros Hinv. unfold page_view. destruct (page_table b !! p) as [i|] eqn:Ei.
  - apply (ci_table _ _ Hinv) in Ei as (_ & Hp & f & Hf & Hpf). rewrite Hf. simpl.
    subst p. by apply (ci_frames _ _ Hinv i).
  - apply (si_disk _ (ci_store _ _ Hinv)).
Qed.

Lemma valid_xid_nonzero xid : valid_xid xid -> (xid =? TxnId_INVALID) = false.
Proof. unfold valid_xid, TxnId_INVALID. intros. apply Z.eqb_neq. lia. Qed.

(** The frame [locate_frame] returns holds the page's current bytes. *)
Lemma located_frame b xid idx b' :
  cache_inv None b -> valid_xid xid -> locate_frame (page_no_of_xid xid) b = (Ok idx, b') ->
  exists f byte, frames b' !! idx = Some f /\ page_no f = page_no_of_xid xid /\
    page_view b' (page_no_of_xid xid) = data f /\
    data f !! Z.to_nat (byte_in_page_of_xid xid) = Some byte.
Proof.
  intros Hinv Hx Hl.
  destruct (locate_frame_spec _ _ _ _ Hinv (page_no_valid _ Hx) Hl) as (Hinv' & Ht & _).
  pose proof Ht as Ht'. apply (ci_table _ _ Hinv') in Ht' as (_ & _ & f & Hf & Hpf).
  assert (Hv : page_view b' (page_no_of_xid xid) = data f).
  { unfold page_view. by rewrite Ht, Hf. }
  destruct (page_view_ok b' (page_no_of_xid xid) Hinv') as [Hlen _]. rewrite Hv in Hlen.
  assert (Hr := byte_in_page_range xid ltac:(unfold valid_xid in Hx; lia)).
  destruct (lookup_lt_is_Some_2 (data f) (Z.to_nat (byte_in_page_of_xid xid))) as [byte Hb]; [lia|].
  by exists f, byte.
Qed.

Lemma ClogBuffer_view_page b b' :
  (forall p, page_view b' p = page_view b p) -> forall y, ClogBuffer_view b' y = ClogBuffer_view b y.
Proof. intros H y. unfold ClogBuffer_view. by rewrite H. Qed.

Lemma ClogBuffer_get_ok b xid s b' :
  cache_inv None b -> valid_xid xid -> ClogBuffer_get_state xid b = (Ok s, b') ->
  s = ClogBuffer_view b xid /\ cache_inv None b' /\ forall y, ClogBuffer_view b' y = ClogBuffer_view b y.
Proof.
  intros Hinv Hx Hg. unfold ClogBuffer_get_state in Hg. rewrite valid_xid_nonzero in Hg by done.
  inv_mbind Hg. apply munwrap_ok in Ha.
  destruct (locate_frame_spec _ _ _ _ Hinv (page_no_valid _ Hx) Ha) as (Hinv' & _ & Hpv).
  destruct (located_frame _ _ _ _ Hinv Hx Ha) as (f & byte & Hf & Hpf & Hv & Hb).
  inv_mbind Hg. unfold frame_at in Ha0. rewrite Hf in Ha0. injection Ha0 as <- <-.
  rewrite Hb in Hg. injection Hg as Hs <-.
  split; [|split; [done|by apply ClogBuffer_view_page]].
  unfold ClogBuffer_view. rewrite valid_xid_nonzero by done. unfold page_state.
  rewrite <-Hpv, Hv, (nth_lookup_Some _ _ _ _ Hb), Hs. done.
Qed.

Lemma ClogBuffer_set_ok b xid s b' :
  cache_inv None b -> valid_xid xid -> ClogBuffer_set_state xid s b = (Ok tt, b') ->
  cache_inv None b' /\ forall y, valid_xid y ->
    ClogBuffer_view b' y = if decide (y = xid) then s else ClogBuffer_view b y.
Proof.
  intros Hinv Hx Hg. unfold ClogBuffer_set_state in Hg. rewrite valid_xid_nonzero in Hg by done.
  inv_mbind Hg. rename a into idx, s1 into b1. apply munwrap_ok in Ha.
  destruct (locate_frame_spec _ _ _ _ Hinv (page_no_valid _ Hx) Ha) as (Hinv1 & Ht1 & Hpv).
  destruct (located_frame _ _ _ _ Hinv Hx Ha) as (f & byte & Hf & Hpf & Hv & Hb).
  inv_mbind Hg. unfold frame_at in Ha0. rewrite Hf in Ha0. injection Ha0 as <- <-.
  rewrite Hb in Hg. unfold set_frame, mmodify in Hg. injection Hg as <-.
  set (i := Z.to_nat (byte_in_page_of_xid xid)) in *.
  pose proof (page_view_ok b1 (page_no_of_xid xid) Hinv1) as Hok. rewrite Hv in Hok.
  assert (Hnth : nth i (data f) 0 = byte) by by apply nth_lookup_Some.
  assert (Hbok : byte_ok byte).
  { destruct Hok as [_ Hfa]. rewrite Forall_lookup in Hfa. by eapply Hfa. }
  set (data' := <[i := set_nibble byte xid (TxnState_u8 s)]> (data f)).
  assert (Hok' : page_ok data').
  { destruct Hok as [Hl Hfa]. split; [unfold data'; by rewrite length_insert|].
    apply Forall_insert; [done|]. apply set_nibble_ok; [done|apply TxnState_u8_range]. }
  assert (Hlt : (idx < length (frames b1))%nat) by by eapply lookup_lt_Some.
  split.
  - destruct Hinv1 as [Hst Hc Hh Ht Hfr]. split; simpl; rewrite ?length_insert; try done.
    + intros p j. rewrite Ht. split; intros (? & ? & g & Hg & Hpg); (split; [done|]); (split; [done|]);
        destruct (decide (j = idx)) as [->|Hne].
      * eexists. rewrite list_lookup_insert_eq by done. split; [reflexivity|]. simpl. congruence.
      * exists g. by rewrite list_lookup_insert_ne.
      * rewrite list_lookup_insert_eq in Hg by done. injection Hg as <-. eauto.
      * rewrite list_lookup_insert_ne in Hg by done. eauto.
    + intros j g Hg _ Hpg. destruct (decide (j = idx)) as [->|Hne].
      * rewrite list_lookup_insert_eq in Hg by done. by injection Hg as <-.
      * rewrite list_lookup_insert_ne in Hg by done. by apply (Hfr j g).
  - intros y Hy.
    assert (Hpage : forall p, page_view (set_frames (<[idx := mkFrame (page_no f) data' true (referenced f)]> (frames b1)) b1) p
              = if decide (p = page_no_of_xid xid) then data' else page_view b p).
    { intros p. unfold page_view at 1. simpl. case_decide as Hp.
      - by rewrite Hp, Ht1, list_lookup_insert_eq by done.
      - rewrite <-Hpv. unfold page_view. destruct (page_table b1 !! p) as [j|] eqn:Ej; [|done].
        rewrite list_lookup_insert_ne; [done|]. intros <-.
        apply (ci_table _ _ Hinv1) in Ej as (_ & _ & g & Hg & Hpg). congruence. }
    unfold ClogBuffer_view. rewrite valid_xid_nonzero, Hpage by done. case_decide as Hp.
    + unfold data'. rewrite <-Hnth at 1. unfold i. rewrite page_state_update by done. fold i.
      by rewrite <-Hpv, Hp, Hv.
    + rewrite decide_False by congruence. done.
Qed.

Lemma ClogBuffer_set_no_err xid s b e b' : ClogBuffer_set_state xid s b <> (Err e, b').
Proof.
  unfold ClogBuffer_set_state. destruct (xid =? TxnId_INVALID); [done|]. unfold mbindM, munwrap.
  destruct (locate_frame _ b) as [[idx| |] b1]; try done. unfold frame_at.
  destruct (frames b1 !! idx); [|done]. by destruct (data _ !! _).
Qed.

#[export] Instance MemClog_laws : ClogLaws InMemoryClogAccessor.
Proof.
  refine {| clog_inv := fun _ => True; clog_view := MemClog_view |}.
  - intros c xid s c' _ _ [= <- <-]. done.
  - intros c xid s c' _ _ [= <-]. split; [done|]. intros y _. unfold MemClog_view. simpl.
    case_decide; subst; [by rewrite lookup_insert_eq|by rewrite lookup_insert_ne].
  - done.
Defined.

#[export] Instance BufferClog_laws : ClogLaws ClogBuffer.
Proof.
  refine {| clog_inv := cache_inv None; clog_view := ClogBuffer_view |}.
  - intros c xid s c' Hi Hx Hg. destruct (ClogBuffer_get_ok _ _ _ _ Hi Hx Hg) as (? & ? & ?). auto.
  - intros c xid s c' Hi Hx Hg. by apply (ClogBuffer_set_ok c xid s c').
  - intros c xid s e c'. apply ClogBuffer_set_no_err.
Defined.

(** ** Lemmas: the checkpoint flush *)

Definition clean_frame (f : ClogFrame) : Prop := page_no f = INVALID_PAGE_NO \/ dirty f = false.

(** A written-back frame. *)
Lemma flush_frame_inv b i f st :
  cache_inv None b -> frames b !! i = Some f -> page_no f <> INVALID_PAGE_NO ->
  wrote (page_no f) (data f) (store b) st ->
  let b' := set_frames (<[i := mkFrame (page_no f) (data f) false (referenced f)]> (frames b)) (with_store st b) in
  cache_inv None b' /\ forall p, page_view b' p = page_view b p.
Proof.
  intros Hinv Hi Hp Hw b'. pose proof Hinv as [Hst Hc Hh Ht Hf].
  assert (Hlt : (i < length (frames b))%nat) by by eapply lookup_lt_Some.
  destruct (Hf i f Hi ltac:(done) Hp) as [Hok _].
  assert (Hq : page_table b !! page_no f = Some i) by (apply Ht; by eauto).
  assert (Hdisk : forall p, disk_page (st_disk st) p =
            if decide (p = page_no f) then data f else disk_page (st_disk (store b)) p).
  { intros p. destruct Hw as [-> _]. apply disk_page_insert. }
  split; [split; simpl; rewrite ?length_insert; try done|].
  - by eapply store_inv_wrote.
  - intros p j. rewrite Ht. split; intros (? & ? & g & Hg & Hpg); (split; [done|]); (split; [done|]);
      destruct (decide (j = i)) as [->|Hne].
    + eexists. rewrite list_lookup_insert_eq by done. split; [reflexivity|]. simpl. congruence.
    + exists g. by rewrite list_lookup_insert_ne.
    + rewrite list_lookup_insert_eq in Hg by done. injection Hg as <-. eauto.
    + rewrite list_lookup_insert_ne in Hg by done. eauto.
  - intros j g Hg _ Hpg. rewrite Hdisk. destruct (decide (j = i)) as [->|Hne].
    + rewrite list_lookup_insert_eq in Hg by done. injection Hg as <-. simpl. by rewrite decide_True.
    + rewrite list_lookup_insert_ne in Hg by done. destruct (Hf j g Hg ltac:(done) Hpg) as [? Hcl].
      split; [done|]. intros Hd. rewrite decide_False; [auto|]. intros He.
      assert (page_table b !! page_no f = Some j) by (apply Ht; by eauto). congruence.
  - intros p. unfold page_view. simpl. destruct (page_table b !! p) as [j|] eqn:Ej.
    + destruct (decide (j = i)) as [->|Hne].
      * by rewrite list_lookup_insert_eq, Hi by done.
      * by rewrite list_lookup_insert_ne.
    + rewrite Hdisk, decide_False; [done|]. intros ->. congruence.
Qed.

Lemma cache_inv_store_same b st :
  store_same (store b) st -> cache_inv None b ->
  cache_inv None (with_store st b) /\ forall p, page_view (with_store st b) p = page_view b p.
Proof.
  intros Hs [Hst Hc Hh Ht Hf]. pose proof Hs as (Hd & _). split.
  - split; simpl; try done; [by eapply store_inv_same|]. by rewrite Hd.
  - intros p. unfold page_view. simpl. by rewrite Hd.
Qed.

Lemma flush_frames_spec n : forall idx b r b',
  cache_inv None b -> (idx + n <= length (frames b))%nat -> flush_frames n idx b = (r, b') ->
  (r = Ok tt \/ r = Err Io) /\ cache_inv None b' /\ (forall p, page_view b' p = page_view b p) /\
  length (frames b') = length (frames b) /\
  (r = Ok tt -> forall i f, frames b' !! i = Some f -> ~ clean_frame f ->
     ~ (idx <= i < idx + n)%nat /\ frames b !! i = Some f).
Proof.
  induction n as [|n IH]; intros idx b r b' Hinv Hn; cbn [flush_frames].
  { intros [= <- <-]. split; [auto|]. split; [done|]. split; [done|]. split; [done|].
    intros _ i f Hf _. split; [lia|done]. }
  destruct (lookup_lt_is_Some_2 (frames b) idx) as [f Hf]; [lia|].
  unfold mbindM at 1, frame_at at 1. rewrite Hf. unfold mbindM at 1.
  destruct (negb (page_no f =? INVALID_PAGE_NO) && dirty f) eqn:Ed.
  - zbool. unfold mbindM at 1. destruct (on_store _ b) as [r1 b1] eqn:E1.
    apply on_store_ok in E1 as (st & Hw & ->). apply write_page_spec in Hw as [[-> Hw]|[-> Hs]].
    2: { intros [= <- <-]. destruct (cache_inv_store_same _ _ Hs Hinv) as [? ?].
         split; [auto|]. split; [done|]. split; [done|]. split; [done|]. done. }
    destruct (flush_frame_inv b idx f st Hinv Hf) as [Hc Hpv]; [done|done|].
    unfold set_frame, mmodify. intros Hrun.
    apply IH in Hrun as (Hr & Hc' & Hpv' & Hlen & Hcl); [|done|simpl; rewrite length_insert; lia].
    simpl in *. rewrite length_insert in Hlen. split; [done|]. split; [done|].
    split; [intros p; by rewrite Hpv', Hpv|]. split; [done|].
    intros Hok i g Hg Hng. destruct (Hcl Hok i g Hg Hng) as [Hni Hgi].
    destruct (decide (i = idx)) as [->|Hne].
    + rewrite list_lookup_insert_eq in Hgi by by eapply lookup_lt_Some. injection Hgi as <-.
      exfalso. apply Hng. by right.
    + rewrite list_lookup_insert_ne in Hgi by done. split; [lia|done].
  - unfold mret. intros Hrun. apply IH in Hrun as (Hr & Hc' & Hpv' & Hlen & Hcl); [|done|lia].
    split; [done|]. split; [done|]. split; [done|]. split; [done|].
    intros Hok i g Hg Hng. destruct (Hcl Hok i g Hg Hng) as [Hni Hgi]. split; [|done].
    destruct (decide (i = idx)) as [->|Hne]; [|lia]. exfalso. apply Hng.
    rewrite Hf in Hgi. injection Hgi as <-. apply andb_false_iff in Ed as [Ed|Ed]; zbool; [by left|by right].
Qed.

Lemma flush_dirty_spec b r b' :
  cache_inv None b -> flush_dirty b = (r, b') ->
  (r = Ok tt \/ r = Err Io) /\ cache_inv None b' /\ (forall p, page_view b' p = page_view b p) /\
  (r = Ok tt -> forall p, disk_page (st_durable (store b')) p = page_view b' p).
Proof.
  intros Hinv. unfold flush_dirty, mbindM at 1, mget. unfold mbindM at 1.
  destruct (flush_frames _ 0 b) as [r1 b1] eqn:E1.
  apply flush_frames_spec in E1 as (Hr & Hc & Hpv & Hlen & Hcl); [|done|lia].
  destruct Hr as [-> | ->]; [|intros [= <- <-]; split; [auto|]; by split].
  intros Hrun. apply on_store_ok in Hrun as (st & Hs & ->).
  unfold sync_unsynced, mbindM, mget in Hs.
  pose proof (ci_store _ _ Hc) as Hsi.
  apply sync_list_spec in Hs as (Hr & Hsi' & Hd & Hu); [|done|].
  2: { intros s Hin. apply elem_of_elements in Hin. by apply (si_open _ Hsi). }
  assert (Hc' : cache_inv None (with_store st b1)).
  { destruct Hc as [? Hcn Hh Ht Hf]. split; simpl; try done. by rewrite Hd. }
  assert (Hpv' : forall p, page_view (with_store st b1) p = page_view b1 p).
  { intros p. unfold page_view. simpl. by rewrite Hd. }
  split; [done|]. split; [done|]. split; [intros p; by rewrite Hpv', Hpv|].
  intros Hok p. specialize (Hu Hok). specialize (Hcl eq_refl). simpl.
  assert (Hdur : disk_page (st_durable st) p = disk_page (st_disk st) p).
  { destruct (decide (disk_page (st_disk st) p = disk_page (st_durable st) p)) as [He|He]; [done|].
    apply (si_sync _ Hsi') in He. rewrite Hu in He. apply elem_of_difference in He as [H1 H2].
    exfalso. apply H2. apply elem_of_list_to_set, elem_of_elements. done. }
  rewrite Hdur, Hd, Hpv'. unfold page_view. destruct (page_table b1 !! p) as [i|] eqn:Ei; [|done].
  apply (ci_table _ _ Hc) in Ei as (_ & Hp & f & Hf & Hpf). rewrite Hf. simpl.
  destruct (ci_frames _ _ Hc i f Hf) as [_ Hclean]; [done|by rewrite Hpf|].
  rewrite Hclean; [by rewrite Hpf|]. destruct (dirty f) eqn:Ed; [|done]. exfalso.
  destruct (Hcl i f Hf) as [Hni _].
  - intros [?|?]; congruence.
  - apply Hni. apply lookup_lt_Some in Hf. lia.
Qed.

(** ** Lemmas: sequences of operations *)

Inductive ClogOp := OpGet (xid : TxnId) | OpSet (xid : TxnId) (s : TxnState).

Definition op_xid (op : ClogOp) : TxnId := match op with OpGet x => x | OpSet x _ => x end.

(** Run a sequence of trait calls, collecting what the reads return. *)
Fixpoint clog_run {C : Type} `{ClogAccessor C} (ops : list ClogOp) : M C StorageError (list TxnState) :=
  match ops with
  | [] => mret []
  | OpGet x :: ops => let! s := get_state x in let! rest := clog_run ops in mret (s :: rest)
  | OpSet x s :: ops => set_state x s ;! clog_run ops
  end.

(** The same sequence on a map from transaction ids to states. *)
Fixpoint spec_run (ops : list ClogOp) (m : TxnId -> TxnState) : list TxnState :=
  match ops with
  | [] => []
  | OpGet x :: ops => m x :: spec_run ops m
  | OpSet x s :: ops => spec_run ops (fun y => if decide (y = x) then s else m y)
  end.

(** A transaction id of the program: any [u64], the invalid id 0 included. *)
Definition u64_xid (xid : TxnId) : Prop := 0 <= xid < 2 ^ 64.

(** The calls without the writes at the invalid id. *)
Definition invalid_write (op : ClogOp) : bool :=
  match op with OpSet x _ => x =? TxnId_INVALID | OpGet _ => false end.

Definition without_invalid_writes (ops : list ClogOp) : list ClogOp :=
  filter (fun op => invalid_write op = false) ops.

Lemma spec_run_ext ops : forall m m', (forall y, m y = m' y) -> spec_run ops m = spec_run ops m'.
Proof.
  induction ops as [|[x|x s] ops IH]; intros m m' He; simpl; [done| |].
  - by rewrite He, (IH m m').
  - apply IH. intros y. by case_decide.
Qed.

Lemma spec_run_agree ops : forall m m',
  Forall (fun op => u64_xid (op_xid op)) ops -> (forall y, u64_xid y -> m y = m' y) ->
  spec_run ops m = spec_run ops m'.
Proof.
  induction ops as [|[x|x s] ops IH]; intros m m' Hv He; [done|..];
    apply Forall_cons in Hv as [Hx Hv]; simpl.
  - by rewrite He, (IH m m').
  - apply IH; [done|]. intros y Hy. by case_decide; [|apply He].
Qed.

Lemma effective_u64 ops :
  Forall (fun op => u64_xid (op_xid op)) ops -> Forall (fun op => u64_xid (op_xid op)) (without_invalid_writes ops).
Proof. rewrite !Forall_forall. intros H op Hop. apply H. by apply list_elem_of_filter in Hop as [_ ?]. Qed.

Lemma xid_cases xid : u64_xid xid -> xid = TxnId_INVALID \/ valid_xid xid.
Proof. unfold u64_xid, valid_xid, TxnId_INVALID. lia. Qed.

Lemma mem_run_spec ops : forall c, exists c',
  clog_run (C:=InMemoryClogAccessor) ops c = (Ok (spec_run ops (MemClog_view c)), c').
Proof.
  induction ops as [|[x|x s] ops IH]; intros c; simpl; [by eexists| |]; unfold mbindM; simpl.
  - destruct (IH c) as (c' & ->). by eexists.
  - destruct (IH (mkMemClog (<[x := s]> (states c)) (never_gc c))) as (c' & ->). eexists. do 2 f_equal.
    apply spec_run_ext. intros y. unfold MemClog_view. simpl.
    case_decide; subst; [by rewrite lookup_insert_eq|by rewrite lookup_insert_ne].
Qed.

(** The cache answers like the map that never sees the writes at the invalid id. *)
Lemma buffer_run_spec ops : forall (b : ClogBuffer) outs b',
  cache_inv None b -> Forall (fun op => u64_xid (op_xid op)) ops -> clog_run ops b = (Ok outs, b') ->
  outs = spec_run (without_invalid_writes ops) (ClogBuffer_view b) /\ cache_inv None b'.
Proof.
  unfold without_invalid_writes.
  induction ops as [|[x|x s] ops IH]; intros b outs b' Hb Hv Hr; simpl in Hr.
  - injection Hr as <- <-. done.
  - apply Forall_cons in Hv as [Hx Hv]. inv_mbind Hr. inv_mbind Hr. injection Hr as <- <-.
    rewrite filter_cons_True by done. simpl.
    destruct (xid_cases x Hx) as [->|Hx'].
    + injection Ha as <- <-. apply IH in Ha0 as [-> ?]; done.
    + apply ClogBuffer_get_ok in Ha as (-> & Hb1 & Hvw); [|done|done].
      apply IH in Ha0 as [-> ?]; [|done|done]. split; [|done]. f_equal. by apply spec_run_ext.
  - apply Forall_cons in Hv as [Hx Hv]. inv_mbind Hr. destruct a.
    destruct (xid_cases x Hx) as [->|Hx'].
    + injection Ha as <-. rewrite filter_cons_False by done. by apply IH in Hr.
    + rewrite filter_cons_True by (simpl; by apply valid_xid_nonzero). simpl.
      apply ClogBuffer_set_ok in Ha as (Hb1 & Hvw); [|done|done].
      apply IH in Hr as [-> ?]; [|done|done]. split; [|done].
      apply spec_run_agree; [by apply effective_u64|]. intros y Hy.
      destruct (xid_cases y Hy) as [->|Hy']; [|by apply Hvw].
      rewrite decide_False; [done|]. unfold valid_xid, TxnId_INVALID in *. lia.
Qed.

Lemma cache_inv_open disk io n b :
  (forall p pg, disk !! p = Some pg -> page_ok pg) ->
  ClogBuffer_open (Store_open disk io) n = Ok b ->
  cache_inv None b /\ forall p, page_view b p = disk_page disk p.
Proof.
  intros Hd Ho. unfold ClogBuffer_open, rassert in Ho. case_if Ho. apply Ok_inj in Ho as <-.
  apply andb_true_iff in Heqb0 as [H1 H2]. apply Nat.leb_le in H1, H2. split; [|done].
  split; simpl; rewrite ?length_replicate.
  - split; simpl; [|done|set_solver]. intros p. unfold disk_page.
    destruct (disk !! p) eqn:E; simpl; [by eapply Hd|apply zeros_page_ok].
  - done.
  - unfold MIN_FRAMES in *. lia.
  - intros p i. rewrite lookup_empty. split; [done|]. intros (_ & Hp & f & Hf & Hpf).
    apply lookup_replicate in Hf as [-> _]. done.
  - intros i f Hf _ Hp. apply lookup_replicate in Hf as [-> _]. done.
Qed.

Lemma page_state_zeros xid : page_state (zeros CLOG_PAGE_BYTES) xid = InProgress.
Proof.
  assert (Hn : forall n i, nth i (replicate n 0) 0 = 0).
  { intros n i. rewrite nth_lookup. destruct (replicate n 0 !! i) eqn:E; [|done].
    by apply lookup_replicate in E as [-> _]. }
  unfold page_state, zeros. rewrite Hn.
  unfold get_nibble. by destruct (Z.land xid 1 =? 0).
Qed.

(** Without I/O errors every file operation and every page load succeeds. *)
Lemma segment_total s st : st_io st = [] -> exists st', segment s st = (Ok tt, st') /\ st_io st' = [].
Proof.
  intros Hs. unfold segment, mbindM, mget, mret, mmodify. case_decide; [by eauto|].
  unfold io_op. rewrite Hs. by eauto.
Qed.

Lemma write_page_total p buf st :
  st_io st = [] -> exists st', write_page p buf st = (Ok tt, st') /\ st_io st' = [].
Proof.
  intros Hs. unfold write_page, mbindM, mmodify.
  destruct (segment_total (segment_id_of_page p) st Hs) as (st1 & -> & Hs1).
  unfold io_op. rewrite Hs1. by eauto.
Qed.

Lemma read_page_total p st :
  st_io st = [] -> exists pg st', read_page p st = (Ok pg, st') /\ st_io st' = [].
Proof.
  intros Hs. unfold read_page, mbindM, mget, mret.
  destruct (segment_total (segment_id_of_page p) st Hs) as (st1 & -> & Hs1).
  unfold io_op. rewrite Hs1. by eauto.
Qed.

Lemma load_total v p b :
  st_io (store b) = [] ->
  exists idx b', (let! buf := on_store (read_page p) in
    set_frame v (mkFrame p buf false true) ;!
    mmodify (fun b => set_table (<[p := v]> (page_table b)) b) ;! mret v) b = (Ok idx, b') /\
    st_io (store b') = [].
Proof.
  intros Hs. unfold mbindM, on_store. destruct (read_page_total p (store b) Hs) as (pg & st' & -> & Hio).
  simpl. by eauto.
Qed.

Lemma locate_frame_total p b :
  cache_inv None b -> st_io (store b) = [] ->
  exists idx b', locate_frame p b = (Ok idx, b') /\ st_io (store b') = [].
Proof.
  intros Hinv Hio. unfold locate_frame. unfold mbindM at 1, mget.
  destruct (page_table b !! p) as [i|] eqn:Ei.
  - apply (ci_table _ _ Hinv) in Ei as (_ & _ & f & Hf & _).
    unfold mbindM, mmodify, frame_at, set_frame, mret. simpl. rewrite Hf. by eauto.
  - assert (Hm : cache_inv None (add_miss b)) by (by destruct Hinv).
    destruct (find_victim_spec (add_miss b) (ci_hand _ _ Hm)) as (v & b1 & Hfv & Hsw & Hv).
    unfold mbindM at 1, mmodify. unfold mbindM at 1. rewrite Hfv.
    destruct (lookup_lt_is_Some_2 (frames b1) v) as [f Hf]; [by rewrite (sw_len _ _ Hsw)|].
    assert (Hio1 : st_io (store b1) = []) by by rewrite (sw_store _ _ Hsw).
    unfold mbindM at 1, frame_at. rewrite Hf. unfold mbindM at 1.
    destruct (negb (page_no f =? INVALID_PAGE_NO)); [|by apply load_total].
    destruct (dirty f); unfold mbindM at 1, mmodify; [|by apply load_total].
    unfold on_store at 1. destruct (write_page_total (page_no f) (data f) (store b1) Hio1) as (st' & -> & Hs').
    simpl. by apply load_total.
Qed.

(** Reads and writes on a consistent cache whose file operations succeed. *)
Lemma ClogBuffer_get_total b xid :
  cache_inv None b -> st_io (store b) = [] -> valid_xid xid ->
  exists s b', ClogBuffer_get_state xid b = (Ok s, b') /\ st_io (store b') = [].
Proof.
  intros Hinv Hio Hx. unfold ClogBuffer_get_state. rewrite valid_xid_nonzero by done.
  destruct (locate_frame_total (page_no_of_xid xid) b Hinv Hio) as (idx & b1 & Hloc & Hio1).
  destruct (located_frame _ _ _ _ Hinv Hx Hloc) as (f & byte & Hf & Hpf & Hv & Hb).
  unfold mbindM at 1, munwrap. rewrite Hloc. unfold mbindM, frame_at. rewrite Hf, Hb.
  destruct (locate_frame_spec _ _ _ _ Hinv (page_no_valid _ Hx) Hloc) as (Hinv1 & _ & _).
  destruct (page_view_ok b1 (page_no_of_xid xid) Hinv1) as [_ Hfa]. rewrite Hv in Hfa.
  rewrite Forall_lookup in Hfa. apply Hfa in Hb as Hbok.
  destruct (from_nibble_ok (get_nibble byte xid)) as [s ->]; [by apply get_nibble_range|]. by eauto.
Qed.

Lemma ClogBuffer_set_total b xid s :
  cache_inv None b -> st_io (store b) = [] -> valid_xid xid ->
  exists b', ClogBuffer_set_state xid s b = (Ok tt, b') /\ st_io (store b') = [].
Proof.
  intros Hinv Hio Hx. unfold ClogBuffer_set_state. rewrite valid_xid_nonzero by done.
  destruct (locate_frame_total (page_no_of_xid xid) b Hinv Hio) as (idx & b1 & Hloc & Hio1).
  destruct (located_frame _ _ _ _ Hinv Hx Hloc) as (f & byte & Hf & Hpf & Hv & Hb).
  unfold mbindM at 1, munwrap. rewrite Hloc. unfold mbindM, frame_at. rewrite Hf, Hb.
  unfold set_frame, mmodify. by eauto.
Qed.

Lemma clog_run_total ops : forall b,
  cache_inv None b -> st_io (store b) = [] -> Forall (fun op => u64_xid (op_xid op)) ops ->
  exists outs b', clog_run ops b = (Ok outs, b').
Proof.
  induction ops as [|[x|x s] ops IH]; intros b Hb Hio Hv; [by eexists _, _|..];
    apply Forall_cons in Hv as [Hx Hv]; cbn [clog_run op_xid] in *; unfold mbindM at 1;
    destruct (xid_cases x Hx) as [->|Hx'].
  - change (get_state TxnId_INVALID b) with (Ok (E:=StorageError) InProgress, b). unfold mbindM.
    destruct (IH b Hb Hio Hv) as (outs & b' & ->). by eexists _, _.
  - destruct (ClogBuffer_get_total b x Hb Hio Hx') as (s & b1 & Hg & Hio1).
    destruct (ClogBuffer_get_ok _ _ _ _ Hb Hx' Hg) as (_ & Hb1 & _).
    change (get_state x b) with (ClogBuffer_get_state x b). rewrite Hg. unfold mbindM.
    destruct (IH b1 Hb1 Hio1 Hv) as (outs & b' & ->). by eexists _, _.
  - change (set_state TxnId_INVALID s b) with (Ok (E:=StorageError) tt, b). by apply IH.
  - destruct (ClogBuffer_set_total b x s Hb Hio Hx') as (b1 & Hg & Hio1).
    destruct (ClogBuffer_set_ok _ _ _ _ Hb Hx' Hg) as (Hb1 & _).
    change (set_state x s b) with (ClogBuffer_set_state x s b). rewrite Hg. by apply IH.
Qed.

Lemma without_invalid_writes_id ops :
  (forall s, OpSet TxnId_INVALID s ∉ ops) -> without_invalid_writes ops = ops.
Proof.
  intros Hno. unfold without_invalid_writes. induction ops as [|op ops IH]; [done|].
  rewrite filter_cons_True; [rewrite IH; [done|set_solver]|].
  destruct op as [x|x s]; [done|]. simpl. apply Z.eqb_neq. intros ->. apply (Hno s). set_solver.
Qed.

Lemma open_store_io disk io n b : ClogBuffer_open (Store_open disk io) n = Ok b -> st_io (store b) = io.
Proof. intros Ho. unfold ClogBuffer_open, rassert in Ho. case_if Ho. by apply Ok_inj in Ho as <-. Qed.

(** ** Properties *)

(** C34: the disk-backed commit log behaves like the in-memory one on every
    sequence of [get_state] and [set_state] calls, over all [u64] ids, started from
    an empty data directory.  Whatever the clock-sweep cache evicts and reloads,
    its answers are those of the map for the same calls without the writes at the
    invalid id 0, which the cache ignores (and which the map would store, so that
    on such writes the two logs differ); when no call writes at id 0 the answers
    are exactly the map's.  A run whose file operations do not fail returns: no
    call panics. *)
Theorem clog_buffer_equals_memory io n b ops :
  ClogBuffer_open (Store_open ∅ io) n = Ok b ->
  Forall (fun op => u64_xid (op_xid op)) ops ->
  (forall outs b', clog_run ops b = (Ok outs, b') ->
     fst (clog_run (without_invalid_writes ops) MemClog_new) = Ok outs /\
     ((forall s, OpSet TxnId_INVALID s ∉ ops) -> fst (clog_run ops MemClog_new) = Ok outs)) /\
  (io = [] -> exists outs b', clog_run ops b = (Ok outs, b')).
Proof.
  intros Ho Hv. destruct (cache_inv_open ∅ io n b) as [Hinv Hpv]; [done|done|]. split.
  - intros outs b' Hr. apply buffer_run_spec in Hr as [-> _]; [|done|done].
    assert (Hempty : forall y, MemClog_view MemClog_new y = ClogBuffer_view b y).
    { intros y. unfold ClogBuffer_view. destruct (y =? TxnId_INVALID); [done|].
      rewrite Hpv. symmetry. apply page_state_zeros. }
    destruct (mem_run_spec (without_invalid_writes ops) MemClog_new) as (c' & ->). simpl.
    rewrite (spec_run_ext _ _ _ Hempty). split; [done|]. intros Hno.
    destruct (mem_run_spec ops MemClog_new) as (c2 & ->). simpl. rewrite (spec_run_ext _ _ _ Hempty).
    by rewrite without_invalid_writes_id.
  - intros ->. apply clog_run_total; [done| |done]. by eapply open_store_io.
Qed.

(** A sequence that overflows the four frames and writes at the invalid id. *)
Lemma clog_buffer_equals_memory_witness :
  exists b b' outs,
    ClogBuffer_open (Store_open ∅ []) 4 = Ok b /\
    let ops := [OpSet 1 Committed; OpSet 16385 Aborted; OpGet 32769; OpGet 49153; OpGet 65537;
                OpGet 81921; OpGet 1; OpGet 16385; OpGet 2; OpSet 0 Committed; OpGet 0] in
    clog_run ops b = (Ok outs, b') /\
    outs = [InProgress; InProgress; InProgress; InProgress; Committed; Aborted; InProgress; InProgress] /\
    fst (clog_run (without_invalid_writes ops) MemClog_new) = Ok outs /\
    fst (clog_run ops MemClog_new) <> Ok outs.
Proof.
  destruct (ClogBuffer_open (Store_open ∅ []) 4) as [b| |] eqn:Eb; [|discriminate|discriminate].
  set (ops := [OpSet 1 Committed; OpSet 16385 Aborted; OpGet 32769; OpGet 49153; OpGet 65537;
               OpGet 81921; OpGet 1; OpGet 16385; OpGet 2; OpSet 0 Committed; OpGet 0]).
  set (outs := [InProgress; InProgress; InProgress; InProgress; Committed; Aborted; InProgress; InProgress]).
  exists b, (snd (clog_run ops b)), outs. split; [done|]. cbv zeta.
  assert (Hrun : clog_run ops b = (Ok outs, snd (clog_run ops b))).
  { rewrite (surjective_pairing (clog_run ops b)) at 1. f_equal.
    vm_compute in Eb. injection Eb as <-. vm_compute. reflexivity. }
  split; [exact Hrun|]. split; [done|]. split; [|vm_compute; discriminate].
  refine (proj1 (proj1 (clog_buffer_equals_memory [] 4 b ops Eb _) outs (snd (clog_run ops b)) Hrun)).
  unfold ops. repeat constructor; vm_compute; first [reflexivity|discriminate].
Defined.

(** the checkpoint flush.  Whatever it returns, every transaction's state
    reads as before and the cache stays consistent; when it returns [Ok], a crash
    right after it loses nothing: every state is readable from fsynced bytes,
    including pages evicted earlier and segments left over by a failed flush. *)
Theorem clog_flush_durable b r b' :
  cache_inv None b -> flush_dirty b = (r, b') ->
  (r = Ok tt \/ r = Err Io) /\ cache_inv None b' /\
  (forall xid, ClogBuffer_view b' xid = ClogBuffer_view b xid) /\
  (r = Ok tt -> forall xid, durable_view b' xid = ClogBuffer_view b xid).
Proof.
  intros Hinv Hf. apply flush_dirty_spec in Hf as (Hr & Hinv' & Hpv & Hdur); [|done].
  split; [done|]. split; [done|]. split; [by apply ClogBuffer_view_page|].
  intros Hok xid. unfold durable_view, ClogBuffer_view. destruct (xid =? TxnId_INVALID); [done|].
  by rewrite Hdur, Hpv.
Qed.

Lemma clog_flush_durable_witness :
  exists b b1 b2, ClogBuffer_open (Store_open ∅ []) 4 = Ok b /\
    ClogBuffer_set_state 7 Committed b = (Ok tt, b1) /\
    flush_dirty b1 = (Ok tt, b2) /\ durable_view b2 7 = ClogBuffer_view b1 7.
Proof.
  destruct (ClogBuffer_open (Store_open ∅ []) 4) as [b| |] eqn:Eb; [|discriminate|discriminate].
  exists b, (snd (ClogBuffer_set_state 7 Committed b)),
    (snd (flush_dirty (snd (ClogBuffer_set_state 7 Committed b)))). split; [done|].
  destruct (cache_inv_open ∅ [] 4 b) as [Hinv _]; [done|done|].
  assert (H1 : ClogBuffer_set_state 7 Committed b = (Ok tt, snd (ClogBuffer_set_state 7 Committed b))).
  { rewrite (surjective_pairing (ClogBuffer_set_state 7 Committed b)) at 1. f_equal.
    vm_compute in Eb. injection Eb as <-. vm_compute. reflexivity. }
  destruct (ClogBuffer_set_ok b 7 Committed _ Hinv ltac:(unfold valid_xid; lia) H1) as [Hinv1 _].
  set (b1 := snd (ClogBuffer_set_state 7 Committed b)) in *.
  assert (H2 : flush_dirty b1 = (Ok tt, snd (flush_dirty b1))).
  { rewrite (surjective_pairing (flush_dirty b1)) at 1. f_equal.
    unfold b1. vm_compute in Eb. injection Eb as <-. vm_compute. reflexivity. }
  split; [exact H1|]. split; [exact H2|].
  destruct (clog_flush_durable b1 (Ok tt) (snd (flush_dirty b1)) Hinv1 H2) as (_ & _ & _ & H).
  by apply H.
Defined.

(** Reads always answer.  On a consistent cache whose file operations
    succeed, [get_state] returns a state and never panics: the clock sweep finds
    a victim within two revolutions, and no page holds an invalid nibble. *)
Theorem clog_get_total b xid :
  cache_inv None b -> st_io (store b) = [] -> valid_xid xid ->
  exists s b', ClogBuffer_get_state xid b = (Ok s, b').
Proof.
  intros Hinv Hio Hx. destruct (ClogBuffer_get_total b xid Hinv Hio Hx) as (s & b' & ? & _). eauto.
Qed.

Lemma clog_get_total_witness :
  exists b, ClogBuffer_open (Store_open ∅ []) 4 = Ok b /\
    exists s b', ClogBuffer_get_state 123456789 b = (Ok s, b').
Proof.
  destruct (ClogBuffer_open (Store_open ∅ []) 4) as [b| |] eqn:Eb; [|discriminate|discriminate].
  exists b. split; [done|]. destruct (cache_inv_open ∅ [] 4 b) as [Hinv _]; [done|done|].
  apply (clog_get_total b 123456789 Hinv).
  - vm_compute in Eb. injection Eb as <-. reflexivity.
  - unfold valid_xid. lia.
Defined.

(** Garbage collection of the in-memory log.  It never forgets an aborted,
    running or sub-committed transaction, nor any transaction at or above the
    bound; it forgets exactly the committed ones below the bound, counts them, and
    is a no-op while the never-GC switch is set. *)
Theorem gc_keeps_aborted bound c :
  let n := fst (gc_committed_below bound c) in
  let c' := snd (gc_committed_below bound c) in
  (never_gc c = true -> n = 0 /\ c' = c) /\
  (forall xid, states c' !! xid =
     match states c !! xid with
     | Some Committed => if never_gc c then Some Committed
                         else if xid <? bound then None else Some Committed
     | other => other
     end) /\
  n = MemClog_len c - MemClog_len c' /\ 0 <= n.
Proof.
  unfold gc_committed_below, MemClog_len. destruct (never_gc c) eqn:En; simpl.
  - split; [done|]. split; [|lia]. intros xid. by destruct (states c !! xid) as [[]|].
  - split; [done|]. split.
    + intros xid. rewrite map_lookup_filter. unfold gc_victim.
      destruct (states c !! xid) as [s|]; simpl; [|done].
      destruct s; try (rewrite option_guard_True by (simpl; intros [? ?]; done); done).
      destruct (Z.ltb_spec xid bound).
      * rewrite option_guard_False; [done|]. simpl. tauto.
      * rewrite option_guard_True; [done|]. simpl. lia.
    + split; [done|]. assert (Hsub : filter (fun e => ~ gc_victim bound e) (states c) ⊆ states c)
        by apply map_filter_subseteq.
      apply map_subseteq_size in Hsub. lia.
Qed.

(** 4-bit addressing.  A page never straddles a segment, the byte offset in
    the segment is the page's offset plus the byte in the page, and writing one
    transaction's state into its page changes no other transaction's state on
    that page. *)
Theorem clog_addressing xid y s pg :
  valid_xid xid -> valid_xid y -> page_ok pg -> page_no_of_xid y = page_no_of_xid xid ->
  segment_id_of_xid xid = segment_id_of_page (page_no_of_xid xid) /\
  byte_offset_of_xid xid = page_offset_in_segment (page_no_of_xid xid) + byte_in_page_of_xid xid /\
  byte_offset_of_xid xid < CLOG_SEGMENT_BYTES /\
  let i := Z.to_nat (byte_in_page_of_xid xid) in
  page_state (<[i := set_nibble (nth i pg 0) xid (TxnState_u8 s)]> pg) y =
    if decide (y = xid) then s else page_state pg y.
Proof.
  intros Hx Hy Hok Hp. pose proof (page_state_update pg xid y s Hok Hx Hy (eq_sym Hp)) as Hu.
  unfold segment_id_of_xid, segment_id_of_page, byte_offset_of_xid, page_offset_in_segment,
    byte_in_page_of_xid, page_no_of_xid, CLOG_PAGES_PER_SEGMENT, CLOG_SEGMENT_BYTES,
    XIDS_PER_SEGMENT, XIDS_PER_CLOG_PAGE, CLOG_PAGE_BYTES, valid_xid in *.
  change (268435456 / 2 / 8192) with 16384. change (8192 * 2) with 16384. change (268435456 / 2) with 134217728.
  pose proof (Z.mod_pos_bound xid 268435456). pose proof (Z.mod_pos_bound xid 16384).
  split; [by rewrite Z.div_div by lia|]. split; [|split; [apply Z.div_lt_upper_bound; lia|exact Hu]].
  change 268435456 with (16384 * 16384). rewrite (Z.rem_mul_r xid 16384 16384) by lia.
  replace (xid mod 16384 + 16384 * ((xid / 16384) mod 16384))
    with (xid mod 16384 + (((xid / 16384) mod 16384) * 8192) * 2) by lia.
  rewrite Z_div_plus_full by lia. lia.
Qed.

(** A read error can lose a commit.  When the read that follows an
    eviction fails, the frame keeps its old page number and dirty bit but is no
    longer in the page table; after the page is loaded again into an earlier
    frame and a commit is recorded there, the next successful checkpoint flush
    writes the stale frame last, and the fsynced log reads the committed
    transaction as in progress. *)
Theorem clog_read_error_loses_commit :
  exists b0 b1 b2 b3 b4 outs,
    ClogBuffer_open (Store_open ∅ (replicate 9 true ++ [false])) 4 = Ok b0 /\
    clog_run [OpGet 16385; OpGet 32769; OpGet 49153; OpSet 5 Aborted;
              OpGet 65537; OpGet 81921; OpGet 98305] b0 = (Ok outs, b1) /\
    ClogBuffer_get_state 114689 b1 = (Panic, b2) /\
    ClogBuffer_set_state 7 Committed b2 = (Ok tt, b3) /\
    flush_dirty b3 = (Ok tt, b4) /\
    ClogBuffer_view b4 7 = Committed /\ durable_view b4 7 = InProgress.
Proof.
  destruct (ClogBuffer_open (Store_open ∅ (replicate 9 true ++ [false])) 4) as [b0| |] eqn:Eb;
    [|discriminate|discriminate].
  set (ops := [OpGet 16385; OpGet 32769; OpGet 49153; OpSet 5 Aborted;
               OpGet 65537; OpGet 81921; OpGet 98305]).
  set (b1 := snd (clog_run ops b0)). set (b2 := snd (ClogBuffer_get_state 114689 b1)).
  set (b3 := snd (ClogBuffer_set_state 7 Committed b2)). set (b4 := snd (flush_dirty b3)).
  exists b0, b1, b2, b3, b4, (replicate 6 InProgress).
  assert (Hp : forall {A B} (p : A * B) a, fst p = a -> p = (a, snd p)) by (intros A B [a b] c; simpl; by intros ->).
  vm_compute in Eb. injection Eb as <-.
  split; [done|]. split; [apply Hp; vm_compute; reflexivity|].
  split; [apply Hp; vm_compute; reflexivity|]. split; [apply Hp; vm_compute; reflexivity|].
  split; [apply Hp; vm_compute; reflexivity|]. split; vm_compute; reflexivity.
Qed.
