(* ===== verification/TxnManager.v ===== *)
(** * The transaction manager

    Models [pg-txn/src/manager.rs] (XID allocation, the commit/abort hard order,
    snapshots, the row-lock wait registry), [pg-txn/src/redo.rs] (the two
    transaction redo handlers) and the victim registry of
    [pg-txn/src/deadlock.rs].  The write-ahead log is the [CommitWal] trait with
    its laws, the commit log is the [ClogAccessor] trait with its laws, so every
    theorem holds for any implementation of the two.

    [commit_txn] and [abort_txn] are given twice: as the sequential code, and as
    the micro-steps between its lock acquisitions, which a step relation
    interleaves with the steps of every other thread.  A condition variable is
    the set of threads asleep on it. *)

From S2P Require Import Prelude Types Visibility Clog.
Local Open Scope Z_scope.
Local Open Scope rust_scope.

(** ** The write-ahead log as the commit path sees it *)

Inductive TxnRecord := TxnCommitRecord (xid : TxnId) | TxnAbortRecord (xid : TxnId).

Definition rec_xid (r : TxnRecord) : TxnId := match r with TxnCommitRecord x => x | TxnAbortRecord x => x end.
Definition rec_state (r : TxnRecord) : TxnState :=
  match r with TxnCommitRecord _ => Committed | TxnAbortRecord _ => Aborted end.

Class CommitWal (W : Type) := {
  append : TxnRecord -> M W StorageError Lsn;
  flush_to : Lsn -> M W StorageError unit
}.

(** The records appended so far and how many of them are durable.  A failing
    [append] may or may not have staged its record.  A successful [flush_to] of a
    record's LSN makes every record before that one durable; it does not promise
    the record itself, because the writer compares its durable position with the
    LSN where the record starts (writer.rs:398).  [WalCommit] proves these laws for
    the modelled writer. *)
Class CommitWalLaws (W : Type) `{CommitWal W} := {
  wal_records : W -> list (Lsn * TxnRecord);
  wal_durable : W -> nat;
  append_spec : forall r w res w', append r w = (res, w') ->
    (wal_durable w <= wal_durable w')%nat /\
    match res with
    | Ok lsn => wal_records w' = wal_records w ++ [(lsn, r)]
    | _ => wal_records w' = wal_records w \/ exists lsn, wal_records w' = wal_records w ++ [(lsn, r)]
    end;
  flush_spec : forall lsn w res w', flush_to lsn w = (res, w') ->
    wal_records w' = wal_records w /\ (wal_durable w <= wal_durable w')%nat /\
    (res = Ok tt -> forall i r, wal_records w !! i = Some (lsn, r) -> (i <= wal_durable w')%nat)
}.

(** How far a successful [flush_to] of a record's LSN reaches: the record lies
    within [slack] records of the durable ones.  The laws give [slack] 1; 0 is the
    stronger contract that the record itself is durable. *)
Class FlushWithin (W : Type) `{CommitWalLaws W} (slack : nat) : Prop :=
  flush_within : forall lsn w w' i r, flush_to lsn w = (Ok tt, w') ->
    wal_records w !! i = Some (lsn, r) -> (i < slack + wal_durable w')%nat.

#[export] Instance flush_within_one {W : Type} `{CommitWalLaws W} : FlushWithin W 1.
Proof.
  intros lsn w w' i r Hf Hi. apply flush_spec in Hf as (_ & _ & Hok). specialize (Hok eq_refl i r Hi). lia.
Qed.

(** A log with an LSN clock and scripted I/O outcomes. *)
Record ListWal := mkListWal {
  lw_records : list (Lsn * TxnRecord);
  lw_durable : nat;
  lw_next : Lsn;
  lw_io : list bool
}.

Definition lw_pop (w : ListWal) : bool * ListWal :=
  match lw_io w with
  | [] => (true, w)
  | b :: io => (b, mkListWal (lw_records w) (lw_durable w) (lw_next w) io)
  end.

#[export] Instance ListWal_CommitWal : CommitWal ListWal := {
  append := fun r w =>
    let p := lw_pop w in let w := snd p in
    if fst p then (Ok (lw_next w), mkListWal (lw_records w ++ [(lw_next w, r)]) (lw_durable w) (lw_next w + 8) (lw_io w))
    else (Err WalWriteFailed, w);
  flush_to := fun lsn w =>
    let p := lw_pop w in let w := snd p in
    if fst p then (Ok tt, mkListWal (lw_records w) (max (lw_durable w) (length (lw_records w))) (lw_next w) (lw_io w))
    else (Err Io, w)
}.

(** ** The manager *)

Inductive TxnError := SelfWait (xid : TxnId) | TxnDeadlockVictim (xid : TxnId).

Section manager.
Context {C : Type} `{CC : ClogAccessor C}.
Context {W : Type} `{WW : CommitWal W}.

Record TxnManager := mkTxnManager {
  txn_id_clock : Z;
  wal : W;
  clog : C;
  active : gset Z;
  row_wait_registry : gmap Z Z;
  deadlock_victims : gset Z
}.

Definition TxnManager_new (clock : Z) (w : W) (c : C) : TxnManager :=
  mkTxnManager clock w c ∅ ∅ ∅.

Definition with_wal (w : W) (m : TxnManager) :=
  mkTxnManager (txn_id_clock m) w (clog m) (active m) (row_wait_registry m) (deadlock_victims m).
Definition with_clog (c : C) (m : TxnManager) :=
  mkTxnManager (txn_id_clock m) (wal m) c (active m) (row_wait_registry m) (deadlock_victims m).
Definition with_active (a : gset Z) (m : TxnManager) :=
  mkTxnManager (txn_id_clock m) (wal m) (clog m) a (row_wait_registry m) (deadlock_victims m).
Definition with_registry (r : gmap Z Z) (m : TxnManager) :=
  mkTxnManager (txn_id_clock m) (wal m) (clog m) (active m) r (deadlock_victims m).
Definition with_victims (v : gset Z) (m : TxnManager) :=
  mkTxnManager (txn_id_clock m) (wal m) (clog m) (active m) (row_wait_registry m) v.

(** deadlock.rs: the victim registry. *)
Definition victims_mark (xid : TxnId) (m : TxnManager) : TxnManager :=
  with_victims ({[xid]} ∪ deadlock_victims m) m.
Definition victims_take (xid : TxnId) (m : TxnManager) : bool * TxnManager :=
  (bool_decide (xid ∈ deadlock_victims m), with_victims (deadlock_victims m ∖ {[xid]}) m).
Definition victims_clear (xid : TxnId) (m : TxnManager) : TxnManager :=
  with_victims (deadlock_victims m ∖ {[xid]}) m.
Definition is_marked (xid : TxnId) (m : TxnManager) : bool := bool_decide (xid ∈ deadlock_victims m).
Definition marked (m : TxnManager) : list TxnId := zsort (elements (deadlock_victims m)).

(** The clock allocation and the insertion happen under one lock. *)
Definition begin_txn (m : TxnManager) : TxnId * TxnManager :=
  let r := TxnIdClock_alloc (txn_id_clock m) in
  (fst r, mkTxnManager (snd r) (wal m) (clog m) ({[fst r]} ∪ active m) (row_wait_registry m) (deadlock_victims m)).

Definition on_wal {A : Type} (op : M W StorageError A) : M TxnManager StorageError A := fun m =>
  let r := op (wal m) in (fst r, with_wal (snd r) m).

Definition on_clog {A : Type} (op : M C StorageError A) : M TxnManager StorageError A := fun m =>
  let r := op (clog m) in (fst r, with_clog (snd r) m).

Definition remove_active (xid : TxnId) (m : TxnManager) : TxnManager :=
  with_active (active m ∖ {[xid]}) m.

(** The broadcast at the end wakes sleeping threads; it changes no field. *)
Definition end_txn (xid : TxnId) (state : TxnState) : M TxnManager StorageError unit :=
  mmodify (victims_clear xid) ;!
  on_clog (set_state xid state) ;!
  mmodify (remove_active xid).

Definition commit_txn (xid : TxnId) : M TxnManager StorageError unit :=
  let! lsn := on_wal (append (TxnCommitRecord xid)) in
  on_wal (flush_to lsn) ;!
  end_txn xid Committed.

Definition abort_txn (xid : TxnId) : M TxnManager StorageError unit :=
  let! lsn := on_wal (append (TxnAbortRecord xid)) in
  on_wal (flush_to lsn) ;!
  end_txn xid Aborted.

Definition register_row_wait (self_xid blocking_xid : TxnId) (m : TxnManager) : TxnManager :=
  with_registry (<[self_xid := blocking_xid]> (row_wait_registry m)) m.

Definition unregister_row_wait (self_xid : TxnId) (m : TxnManager) : TxnManager :=
  with_registry (delete self_xid (row_wait_registry m)) m.

(** [sort_unstable] on pairs. *)
Definition edge_le (a b : Z * Z) : Prop := fst a < fst b \/ (fst a = fst b /\ snd a <= snd b).

#[export] Instance edge_le_dec : RelDecision edge_le.
Proof. intros a b. unfold edge_le. apply _. Defined.

Definition wait_edges (m : TxnManager) : list (TxnId * TxnId) :=
  merge_sort edge_le (map_to_list (row_wait_registry m)).

(** One iteration of [wait_for]'s loop, under the registry mutex: [Some] is the
    call's result, [None] goes to sleep on the condition variable. *)
Definition wait_for_iter (self_xid blocking_xid : TxnId) (m : TxnManager)
    : option (res TxnError unit) * TxnManager :=
  let t := victims_take self_xid m in
  if fst t then (Some (Err (TxnDeadlockVictim self_xid)), unregister_row_wait self_xid (snd t))
  else
    let m := snd t in
    if negb (bool_decide (blocking_xid ∈ active m))
    then (Some (Ok tt), unregister_row_wait self_xid m)
    else (None, m).

(** The call: the self-wait check, then the first iteration. *)
Definition wait_for (self_xid blocking_xid : TxnId) (m : TxnManager)
    : option (res TxnError unit) * TxnManager :=
  if self_xid =? blocking_xid then (Some (Err (SelfWait self_xid)), m)
  else wait_for_iter self_xid blocking_xid m.

Definition active_xids (m : TxnManager) : list TxnId := zsort (elements (active m)).
Definition is_active (xid : TxnId) (m : TxnManager) : bool := bool_decide (xid ∈ active m).

Definition snapshot (current : TxnId) (m : TxnManager) : Snapshot :=
  let xmax := TxnIdClock_current (txn_id_clock m) in
  let xip := zsort (elements (active m)) in
  let xmin := default xmax (head xip) in
  {| xmin := xmin; xmax := xmax; xip := xip; current_xid := current; curcid := 0 |}.

(** ** redo.rs *)

Definition TxnCommitHandler_apply (xid : TxnId) : M C StorageError unit := set_state xid Committed.
Definition TxnAbortHandler_apply (xid : TxnId) : M C StorageError unit := set_state xid Aborted.

Definition txn_redo (r : TxnRecord) : M C StorageError unit :=
  match r with
  | TxnCommitRecord x => TxnCommitHandler_apply x
  | TxnAbortRecord x => TxnAbortHandler_apply x
  end.

Fixpoint replay (rs : list TxnRecord) : M C StorageError unit :=
  match rs with
  | [] => mret tt
  | r :: rs => txn_redo r ;! replay rs
  end.

(** ** Interleaved execution *)

(** Where a thread is inside [commit_txn]/[abort_txn] for its transaction. *)
Inductive Phase :=
| Appended (state : TxnState) (lsn : Lsn)
| Flushed (state : TxnState)
| Cleared (state : TxnState)
| ClogSet
| Removed.

Definition record_of (xid : TxnId) (state : TxnState) : TxnRecord :=
  if decide (state = Committed) then TxnCommitRecord xid else TxnAbortRecord xid.

(** The manager with every thread's position: [pc] for ending transactions,
    [sleeping] for threads asleep in [wait_for] (waiter to blocking id), and
    [unnotified] for victims marked whose broadcast is still to come. *)
Record System := mkSystem {
  mgr : TxnManager;
  pc : gmap Z Phase;
  sleeping : gmap Z Z;
  unnotified : gset Z
}.

Definition upd_mgr (f : TxnManager -> TxnManager) (s : System) : System :=
  mkSystem (f (mgr s)) (pc s) (sleeping s) (unnotified s).
Definition upd_pc (f : gmap Z Phase -> gmap Z Phase) (s : System) : System :=
  mkSystem (mgr s) (f (pc s)) (sleeping s) (unnotified s).

Inductive step : System -> System -> Prop :=
| step_begin s :
    wrap64 (txn_id_clock (mgr s) + 1) <> 0 ->
    step s (upd_mgr (fun m => snd (begin_txn m)) s)
| step_append s xid state lsn m' :
    xid ∈ active (mgr s) -> pc s !! xid = None -> state = Committed \/ state = Aborted ->
    on_wal (append (record_of xid state)) (mgr s) = (Ok lsn, m') ->
    step s (mkSystem m' (<[xid := Appended state lsn]> (pc s)) (sleeping s) (unnotified s))
| step_append_fails s xid state e m' :
    xid ∈ active (mgr s) -> pc s !! xid = None -> state = Committed \/ state = Aborted ->
    on_wal (append (record_of xid state)) (mgr s) = (Err e, m') ->
    step s (mkSystem m' (pc s) (sleeping s) (unnotified s))
| step_flush s xid state lsn m' :
    pc s !! xid = Some (Appended state lsn) ->
    on_wal (flush_to lsn) (mgr s) = (Ok tt, m') ->
    step s (mkSystem m' (<[xid := Flushed state]> (pc s)) (sleeping s) (unnotified s))
| step_flush_fails s xid state lsn e m' :
    pc s !! xid = Some (Appended state lsn) ->
    on_wal (flush_to lsn) (mgr s) = (Err e, m') ->
    step s (mkSystem m' (delete xid (pc s)) (sleeping s) (unnotified s))
| step_clear s xid state :
    pc s !! xid = Some (Flushed state) ->
    step s (mkSystem (victims_clear xid (mgr s)) (<[xid := Cleared state]> (pc s)) (sleeping s) (unnotified s))
| step_set s xid state m' :
    pc s !! xid = Some (Cleared state) ->
    on_clog (set_state xid state) (mgr s) = (Ok tt, m') ->
    step s (mkSystem m' (<[xid := ClogSet]> (pc s)) (sleeping s) (unnotified s))
| step_remove s xid :
    pc s !! xid = Some ClogSet ->
    step s (mkSystem (remove_active xid (mgr s)) (<[xid := Removed]> (pc s)) (sleeping s) (unnotified s))
| step_notify s xid :
    pc s !! xid = Some Removed ->
    step s (mkSystem (mgr s) (delete xid (pc s)) ∅ (unnotified s))
| step_read s xid st m' :
    valid_xid xid -> on_clog (get_state xid) (mgr s) = (Ok st, m') ->
    step s (mkSystem m' (pc s) (sleeping s) (unnotified s))
| step_register s self blocking :
    step s (upd_mgr (register_row_wait self blocking) s)
| step_unregister s self :
    step s (upd_mgr (unregister_row_wait self) s)
| step_wait s self blocking r m' :
    self <> blocking -> sleeping s !! self = None ->
    wait_for_iter self blocking (mgr s) = (r, m') ->
    step s (mkSystem m' (pc s)
              (match r with None => <[self := blocking]> (sleeping s) | Some _ => sleeping s end)
              (unnotified s))
| step_spurious_wake s self :
    step s (mkSystem (mgr s) (pc s) (delete self (sleeping s)) (unnotified s))
| step_mark s xid :
    step s (mkSystem (victims_mark xid (mgr s)) (pc s) (sleeping s) ({[xid]} ∪ unnotified s))
| step_notify_row_waiters s :
    step s (mkSystem (mgr s) (pc s) ∅ ∅).

Definition initial (clock : Z) (w : W) (c : C) : System := mkSystem (TxnManager_new clock w c) ∅ ∅ ∅.

Inductive steps : System -> System -> Prop :=
| steps_refl s : steps s s
| steps_cons s1 s2 s3 : step s1 s2 -> steps s2 s3 -> steps s1 s3.

End manager.

Arguments TxnManager C W : clear implicits.
Arguments System C W : clear implicits.

(** ** Lemmas: the last record of a transaction *)

Abbreviation log := (list (Lsn * TxnRecord)) (only parsing).

Fixpoint last_state (x : TxnId) (rs : list TxnRecord) (acc : option TxnState) : option TxnState :=
  match rs with
  | [] => acc
  | r :: rs => last_state x rs (if decide (rec_xid r = x) then Some (rec_state r) else acc)
  end.

(** Position [i] holds the last record of [x], with outcome [s]. *)
Definition last_at (x : TxnId) (i : nat) (l : Lsn) (s : TxnState) (rs : log) : Prop :=
  (exists r, rs !! i = Some (l, r) /\ rec_xid r = x /\ rec_state r = s) /\
  forall j l' r', (i < j)%nat -> rs !! j = Some (l', r') -> rec_xid r' <> x.

(** [x]'s outcome [s] is final in the log and within its first [n] records. *)
Definition settled (x : TxnId) (s : TxnState) (rs : log) (n : nat) : Prop :=
  exists i l, last_at x i l s rs /\ (i < n)%nat.

Lemma last_at_app x i l s rs e :
  rec_xid (snd e) <> x -> last_at x i l s rs -> last_at x i l s (rs ++ [e]).
Proof.
  intros Hne [(r & Hr & ?) Hl]. split.
  - exists r. split; [|done]. by apply lookup_app_l_Some.
  - intros j l' r' Hj He. apply lookup_app_Some in He as [He|[Hle He]]; [by eapply Hl|].
    destruct (j - length rs)%nat; [|done]. simpl in He. by injection He as ->.
Qed.

Lemma last_at_new x l r rs : rec_xid r = x -> last_at x (length rs) l (rec_state r) (rs ++ [(l, r)]).
Proof.
  intros Hx. split.
  - exists r. split; [|done]. by rewrite list_lookup_middle.
  - intros j l' r' Hj He. apply lookup_lt_Some in He. rewrite length_app in He. simpl in He. lia.
Qed.

Lemma settled_app x s rs n e : rec_xid (snd e) <> x -> settled x s rs n -> settled x s (rs ++ [e]) n.
Proof. intros Hne (i & l & Hl & Hi). exists i, l. split; [by apply last_at_app|done]. Qed.

Lemma settled_mono x s rs n n' : (n <= n')%nat -> settled x s rs n -> settled x s rs n'.
Proof. intros Hn (i & l & Hl & Hi). exists i, l. split; [done|lia]. Qed.

Lemma last_state_none x rs : forall acc,
  (forall j r, rs !! j = Some r -> rec_xid r <> x) -> last_state x rs acc = acc.
Proof.
  induction rs as [|r rs IH]; intros acc Hn; [done|]. simpl.
  rewrite decide_False by by apply (Hn 0%nat).
  apply IH. intros j r' Hj. by apply (Hn (S j)).
Qed.

Lemma last_state_some x rs : forall s, exists s', last_state x rs (Some s) = Some s'.
Proof. induction rs; intros s; simpl; [by eauto|]. case_decide; auto. Qed.

Lemma last_state_app x rs1 rs2 acc : last_state x (rs1 ++ rs2) acc = last_state x rs2 (last_state x rs1 acc).
Proof. revert acc. induction rs1; intros acc; simpl; auto. Qed.

Lemma settled_last_state x s rs n acc : settled x s rs n -> last_state x (take n (snd <$> rs)) acc = Some s.
Proof.
  intros (i & l & [(r & Hr & Hx & Hs) Hl] & Hi).
  assert (Hr' : take n (snd <$> rs) !! i = Some r).
  { rewrite lookup_take_lt by done. by rewrite list_lookup_fmap, Hr. }
  rewrite <-(take_drop_middle _ _ _ Hr'), last_state_app. simpl.
  rewrite decide_True by done. rewrite last_state_none; [by rewrite Hs|].
  intros j r' Hj. rewrite lookup_drop in Hj.
  apply lookup_take_Some in Hj as [Hj _]. rewrite list_lookup_fmap in Hj.
  apply fmap_Some in Hj as ([l' r2] & Hj & ->). simpl. eapply (Hl (S i + j)%nat l'); [lia|done].
Qed.

Lemma rec_xid_record_of x s : rec_xid (record_of x s) = x.
Proof. unfold record_of. by case_decide. Qed.

Lemma rec_state_record_of x s : s = Committed \/ s = Aborted -> rec_state (record_of x s) = s.
Proof. unfold record_of. intros [->| ->]; by case_decide. Qed.

(** ** The invariant, over the observable parts of a system *)

Definition terminal (s : TxnState) : Prop := s = Committed \/ s = Aborted.

Definition phase_ok (x : TxnId) (ph : Phase) (act : gset Z) (view : TxnId -> TxnState) (rs : log) (n : nat) : Prop :=
  match ph with
  | Appended s l => x ∈ act /\ terminal s /\ exists i, last_at x i l s rs
  | Flushed s | Cleared s => x ∈ act /\ terminal s /\ settled x s rs n
  | ClogSet => x ∈ act /\ terminal (view x)
  | Removed => x ∉ act
  end.

Record core_inv (start clock : Z) (act : gset Z) (view : TxnId -> TxnState) (rs : log) (n : nat)
    (pcs : gmap Z Phase) : Prop := {
  core_clock : 0 < start <= clock /\ clock < 2 ^ 64;
  core_active : forall x, x ∈ act -> start <= x < clock;
  core_done : forall x, start <= x < clock -> x ∉ act -> terminal (view x);
  core_running : forall x, x ∈ act -> pcs !! x <> Some ClogSet -> view x = InProgress;
  core_future : forall x, clock <= x < 2 ^ 64 -> view x = InProgress;
  core_durable : forall x, start <= x < 2 ^ 64 -> view x <> InProgress -> settled x (view x) rs n;
  core_phase : forall x ph, pcs !! x = Some ph -> start <= x < clock /\ phase_ok x ph act view rs n
}.

Section core.
Context (start : Z).
Implicit Types (act : gset Z) (view : TxnId -> TxnState) (rs : log) (pcs : gmap Z Phase).

Lemma core_view_ext clock act view view' rs n pcs :
  (forall y, valid_xid y -> view' y = view y) ->
  core_inv start clock act view rs n pcs -> core_inv start clock act view' rs n pcs.
Proof.
  intros He [Hc Ha Hd Hr Hf Hdu Hp]. unfold valid_xid in He.
  assert (He' : forall y, start <= y < 2 ^ 64 -> view' y = view y) by (intros; apply He; lia).
  split; try done.
  - intros x Hx Hn. rewrite He' by lia. auto.
  - intros x Hx Hn. rewrite He' by (apply Ha in Hx; lia). auto.
  - intros x Hx. rewrite He' by lia. auto.
  - intros x Hx. rewrite He' by lia. auto.
  - intros x ph Hx. destruct (Hp x ph Hx) as [Hr' Hph]. split; [done|].
    destruct ph; simpl in *; try done. by rewrite He' by lia.
Qed.

Lemma phase_durable x ph act view rs n n' :
  (n <= n')%nat -> phase_ok x ph act view rs n -> phase_ok x ph act view rs n'.
Proof.
  intros Hn. destruct ph; simpl; try done; intros (? & ? & ?); (split; [done|]); (split; [done|]);
    by eapply settled_mono.
Qed.

Lemma core_durable_mono clock act view rs n n' pcs :
  (n <= n')%nat -> core_inv start clock act view rs n pcs -> core_inv start clock act view rs n' pcs.
Proof.
  intros Hn [Hc Ha Hd Hr Hf Hdu Hp]. split; try done.
  - intros x Hx Hv. eapply settled_mono; [exact Hn|auto].
  - intros x ph Hx. destruct (Hp x ph Hx) as [Hr' Hph]. split; [done|]. by eapply phase_durable.
Qed.

Lemma core_begin clock act view rs n pcs :
  clock + 1 < 2 ^ 64 -> core_inv start clock act view rs n pcs ->
  core_inv start (clock + 1) ({[clock]} ∪ act) view rs n pcs.
Proof.
  intros Hb [Hc Ha Hd Hr Hf Hdu Hp]. split; try done.
  - lia.
  - intros x Hx. apply elem_of_union in Hx as [Hx|Hx]; [apply elem_of_singleton in Hx; lia|].
    apply Ha in Hx. lia.
  - intros x Hx Hn. apply Hd; [|set_solver].
    assert (x <> clock) by set_solver. lia.
  - intros x Hx Hpc. apply elem_of_union in Hx as [Hx|Hx]; [|auto].
    apply elem_of_singleton in Hx as ->. apply Hf. lia.
  - intros x Hx. apply Hf. lia.
  - intros x ph Hx. destruct (Hp x ph Hx) as [Hr' Hph]. split; [lia|].
    destruct ph; simpl in *; [set_solver..|].
    intros Hin. apply elem_of_union in Hin as [Hin|Hin]; [|done].
    apply elem_of_singleton in Hin. lia.
Qed.

(** A record of a running, not yet ending transaction is appended. *)
Lemma core_append_rec clock act view rs n pcs x l r :
  x ∈ act -> pcs !! x = None -> rec_xid r = x ->
  core_inv start clock act view rs n pcs -> core_inv start clock act view (rs ++ [(l, r)]) n pcs.
Proof.
  intros Hx Hpc Hr [Hc Ha Hd Hru Hf Hdu Hp]. split; try done.
  - intros y Hy Hv. apply settled_app; [|auto]. simpl. intros <-. rewrite Hr in Hv.
    apply Hv. apply Hru; [done|by rewrite Hpc].
  - intros y ph Hy. destruct (Hp y ph Hy) as [Hr' Hph]. split; [done|].
    assert (rec_xid (snd (l, r)) <> y) by (simpl; congruence).
    destruct ph; simpl in *; try done.
    + destruct Hph as (? & ? & i & Hi). split; [done|]. split; [done|]. exists i. by apply last_at_app.
    + destruct Hph as (? & ? & ?). split; [done|]. split; [done|]. by apply settled_app.
    + destruct Hph as (? & ? & ?). split; [done|]. split; [done|]. by apply settled_app.
Qed.

(** A transaction moves to a phase whose obligations hold. *)
Lemma core_set_phase clock act view rs n pcs x ph :
  start <= x < clock -> phase_ok x ph act view rs n ->
  (x ∈ act -> ph <> ClogSet -> view x = InProgress) ->
  core_inv start clock act view rs n pcs -> core_inv start clock act view rs n (<[x := ph]> pcs).
Proof.
  intros Hx Hph Hv [Hc Ha Hd Hru Hf Hdu Hp]. split; try done.
  - intros y Hy Hpc. destruct (decide (y = x)) as [->|Hne].
    + apply Hv; [done|]. intros ->. by rewrite lookup_insert_eq in Hpc.
    + rewrite lookup_insert_ne in Hpc by done. auto.
  - intros y ph' Hy. destruct (decide (y = x)) as [->|Hne].
    + rewrite lookup_insert_eq in Hy. injection Hy as <-. done.
    + rewrite lookup_insert_ne in Hy by done. auto.
Qed.

Lemma core_drop_phase clock act view rs n pcs x :
  pcs !! x <> Some ClogSet ->
  core_inv start clock act view rs n pcs -> core_inv start clock act view rs n (delete x pcs).
Proof.
  intros Hx [Hc Ha Hd Hru Hf Hdu Hp]. split; try done.
  - intros y Hy Hpc. destruct (decide (y = x)) as [->|Hne]; [auto|].
    rewrite lookup_delete_ne in Hpc by done. auto.
  - intros y ph Hy. apply lookup_delete_Some in Hy as [_ Hy]. auto.
Qed.

(** The outcome is recorded in the commit log. *)
Lemma core_set_state clock act view rs n pcs x s :
  pcs !! x = Some (Cleared s) -> core_inv start clock act view rs n pcs ->
  core_inv start clock act (fun y => if decide (y = x) then s else view y) rs n (<[x := ClogSet]> pcs).
Proof.
  intros Hx [Hc Ha Hd Hru Hf Hdu Hp]. destruct (Hp x _ Hx) as [Hxr (Hxa & Hst & Hse)].
  split; try done.
  - intros y Hy Hn. case_decide; [done|auto].
  - intros y Hy Hpc. destruct (decide (y = x)) as [->|Hne].
    + by rewrite lookup_insert_eq in Hpc.
    + rewrite lookup_insert_ne in Hpc by done. auto.
  - intros y Hy. rewrite decide_False by lia. auto.
  - intros y Hy Hv. case_decide; [by subst|auto].
  - intros y ph Hy. destruct (decide (y = x)) as [->|Hne].
    + rewrite lookup_insert_eq in Hy. injection Hy as <-. split; [done|]. simpl. by rewrite decide_True.
    + rewrite lookup_insert_ne in Hy by done. destruct (Hp y ph Hy) as [? Hph]. split; [done|].
      destruct ph; simpl in *; try done. by rewrite decide_False.
Qed.

Lemma core_remove clock act view rs n pcs x :
  pcs !! x = Some ClogSet -> core_inv start clock act view rs n pcs ->
  core_inv start clock (act ∖ {[x]}) view rs n (<[x := Removed]> pcs).
Proof.
  intros Hx [Hc Ha Hd Hru Hf Hdu Hp]. destruct (Hp x _ Hx) as [Hxr (Hxa & Hst)].
  split; try done.
  - intros y Hy. apply Ha. set_solver.
  - intros y Hy Hn. destruct (decide (y = x)) as [->|Hne]; [done|]. apply Hd; set_solver.
  - intros y Hy Hpc. apply elem_of_difference in Hy as [Hy Hne].
    rewrite lookup_insert_ne in Hpc by set_solver. auto.
  - intros y ph Hy. destruct (decide (y = x)) as [->|Hne].
    + rewrite lookup_insert_eq in Hy. injection Hy as <-. split; [done|]. simpl. set_solver.
    + rewrite lookup_insert_ne in Hy by done. destruct (Hp y ph Hy) as [? Hph]. split; [done|].
      destruct ph; simpl in *; set_solver.
Qed.

(** Once a transaction below the clock has left the active set, its state never
    changes: the two views a step relates agree on it. *)
Definition view_stable clock act (view view' : TxnId -> TxnState) : Prop :=
  forall x, 0 < x < clock -> x ∉ act -> view' x = view x.

End core.

(** ** The system invariant *)

Section system.
Context {C : Type} `{CC : ClogAccessor C} `{CL : !ClogLaws C}.
Context {W : Type} `{WW : CommitWal W} `{WL : !CommitWalLaws W}.
Implicit Types (s : System C W) (m : TxnManager C W).

Definition sview s : TxnId -> TxnState := clog_view (clog (mgr s)).

(** Sleepers: the blocking transaction is running, or its broadcast is still to
    come; a marked sleeper's broadcast is still to come. *)
Definition sleep_ok (act victims unn : gset Z) (pcs : gmap Z Phase) (sl : gmap Z Z) : Prop :=
  forall w b, sl !! w = Some b ->
    (b ∈ act \/ pcs !! b = Some Removed) /\ (w ∈ victims -> w ∈ unn).

Record sys_inv (slack : nat) (start : Z) s : Prop := {
  sys_clog : clog_inv (clog (mgr s));
  sys_core : core_inv start (txn_id_clock (mgr s)) (active (mgr s)) (sview s)
               (wal_records (wal (mgr s))) (slack + wal_durable (wal (mgr s))) (pc s);
  sys_sleep : sleep_ok (active (mgr s)) (deadlock_victims (mgr s)) (unnotified s) (pc s) (sleeping s)
}.

Context {slack : nat} `{FW : !FlushWithin W slack}.

Lemma on_wal_inv {A} (op : M W StorageError A) m r m' :
  on_wal op m = (r, m') -> exists w', op (wal m) = (r, w') /\ m' = with_wal w' m.
Proof. unfold on_wal. destruct (op (wal m)). intros [= <- <-]. eauto. Qed.

Lemma on_clog_inv {A} (op : M C StorageError A) m r m' :
  on_clog op m = (r, m') -> exists c', op (clog m) = (r, c') /\ m' = with_clog c' m.
Proof. unfold on_clog. destruct (op (clog m)). intros [= <- <-]. eauto. Qed.

(** Sleepers stay covered when the active set only loses transactions whose
    broadcast is pending. *)
Lemma sleep_ok_mono act act' vi vi' unn unn' pcs pcs' sl :
  (forall b, b ∈ act -> b ∈ act' \/ pcs' !! b = Some Removed) ->
  (forall b, pcs !! b = Some Removed -> pcs' !! b = Some Removed) ->
  (forall w, w ∈ vi' -> w ∈ vi \/ w ∈ unn') -> unn ⊆ unn' ->
  sleep_ok act vi unn pcs sl -> sleep_ok act' vi' unn' pcs' sl.
Proof.
  intros Ha Hp Hv Hu Hs w b Hw. destruct (Hs w b Hw) as [[Hb|Hb] Hm]; split; auto;
    intros Hin; destruct (Hv w Hin); set_solver.
Qed.

Lemma sleep_ok_phase act vi unn pcs sl x ph :
  pcs !! x <> Some Removed -> sleep_ok act vi unn pcs sl -> sleep_ok act vi unn (<[x := ph]> pcs) sl.
Proof.
  intros Hx. apply sleep_ok_mono; auto. intros b Hb. by rewrite lookup_insert_ne by congruence.
Qed.

Lemma phase_in s start x ph :
  sys_inv slack start s -> pc s !! x = Some ph ->
  start <= x < txn_id_clock (mgr s) /\ x < 2 ^ 64 /\ 0 < x /\
  phase_ok x ph (active (mgr s)) (sview s) (wal_records (wal (mgr s))) (slack + wal_durable (wal (mgr s))).
Proof.
  intros [_ Hc _] Hx. destruct (core_phase _ _ _ _ _ _ _ Hc x ph Hx) as [? ?].
  pose proof (core_clock _ _ _ _ _ _ _ Hc). repeat split; try done; lia.
Qed.

(** Appending and flushing preserve the invariant; recording an outcome too. *)
Lemma append_inv start s x state r m' :
  sys_inv slack start s -> x ∈ active (mgr s) -> pc s !! x = None -> terminal state ->
  on_wal (append (record_of x state)) (mgr s) = (r, m') ->
  sys_inv slack start (mkSystem m' (pc s) (sleeping s) (unnotified s)) /\
  (forall l, r = Ok l ->
     sys_inv slack start (mkSystem m' (<[x := Appended state l]> (pc s)) (sleeping s) (unnotified s))) /\
  sview (mkSystem m' (pc s) (sleeping s) (unnotified s)) = sview s.
Proof.
  intros [Hcl Hco Hsl] Hx Hpc Hst Ha. apply on_wal_inv in Ha as (w' & Ha & ->).
  apply append_spec in Ha as [Hd Hr].
  pose proof (rec_xid_record_of x state) as Hrx.
  assert (Hcore : core_inv start (txn_id_clock (mgr s)) (active (mgr s)) (sview s) (wal_records w') (slack + wal_durable w') (pc s)).
  { apply (core_durable_mono start _ _ _ _ (slack + wal_durable (wal (mgr s)))); [lia|].
    assert (Hcase : wal_records w' = wal_records (wal (mgr s)) \/
              exists l, wal_records w' = wal_records (wal (mgr s)) ++ [(l, record_of x state)]).
    { destruct r; eauto. }
    destruct Hcase as [-> |[l ->]]; [done|]. by apply (core_append_rec start _ _ _ _ _ _ x). }
  split; [by split|]. split; [|done].
  intros l ->. split; [done| |simpl; apply sleep_ok_phase; [congruence|done]].
  apply core_set_phase; [by apply (core_active _ _ _ _ _ _ _ Hco)| | |done].
  - simpl. split; [done|]. split; [done|]. exists (length (wal_records (wal (mgr s)))).
    rewrite Hr. rewrite <-(rec_state_record_of x state Hst) at 1. by apply last_at_new.
  - intros _ _. apply (core_running _ _ _ _ _ _ _ Hco); [done|by rewrite Hpc].
Qed.

Lemma flush_inv start s x state l r m' :
  sys_inv slack start s -> pc s !! x = Some (Appended state l) ->
  on_wal (flush_to l) (mgr s) = (r, m') ->
  sys_inv slack start (mkSystem m' (delete x (pc s)) (sleeping s) (unnotified s)) /\
  (r = Ok tt -> sys_inv slack start (mkSystem m' (<[x := Flushed state]> (pc s)) (sleeping s) (unnotified s))).
Proof.
  intros Hinv Hpc Hf. destruct (phase_in _ _ _ _ Hinv Hpc) as (Hxr & _ & _ & (Hxa & Hst & i & Hi)).
  destruct Hinv as [Hcl Hco Hsl]. apply on_wal_inv in Hf as (w' & Hf & ->).
  pose proof Hf as Hfl. apply flush_spec in Hf as (Hr & Hd & _).
  assert (Hcore : core_inv start (txn_id_clock (mgr s)) (active (mgr s)) (sview s) (wal_records w') (slack + wal_durable w') (pc s)).
  { rewrite Hr. eapply core_durable_mono; [|exact Hco]. lia. }
  split.
  - split; [done| |].
    + simpl. apply core_drop_phase; [congruence|done].
    + simpl. eapply sleep_ok_mono; [..|exact Hsl]; auto. intros b Hb.
      rewrite lookup_delete_ne by congruence. done.
  - intros ->. split; [done| |simpl; apply sleep_ok_phase; [congruence|done]].
    apply core_set_phase; [done| | |done].
    + simpl. split; [done|]. split; [done|]. exists i, l. rewrite Hr. split; [done|].
      destruct Hi as [(r & Hri & _) _]. by eapply (flush_within (slack := slack)).
    + intros _ _. apply (core_running _ _ _ _ _ _ _ Hco); [done|by rewrite Hpc].
Qed.

Lemma set_inv start s x state m' :
  sys_inv slack start s -> pc s !! x = Some (Cleared state) ->
  on_clog (set_state x state) (mgr s) = (Ok tt, m') ->
  sys_inv slack start (mkSystem m' (<[x := ClogSet]> (pc s)) (sleeping s) (unnotified s)) /\
  (forall y, valid_xid y -> clog_view (clog m') y = if decide (y = x) then state else sview s y).
Proof.
  intros Hinv Hpc Hs. destruct (phase_in _ _ _ _ Hinv Hpc) as (Hxr & Hx64 & Hx0 & _).
  destruct Hinv as [Hcl Hco Hsl]. apply on_clog_inv in Hs as (c' & Hs & ->).
  apply set_state_ok in Hs as [Hcl' Hv]; [|done|unfold valid_xid; lia].
  split; [|done]. split; [done| |simpl; apply sleep_ok_phase; [congruence|done]].
  eapply core_view_ext; [|by apply core_set_state]. done.
Qed.

Lemma step_inv start s s' : sys_inv slack start s -> step s s' -> sys_inv slack start s'.
Proof.
  intros Hinv Hstep. pose proof Hinv as [Hcl Hco Hsl].
  destruct Hstep as
    [s Hw|s x state l m' Hx Hpc Hst Ha|s x state e m' Hx Hpc Hst Ha|s x state l m' Hpc Hf|s x state l e m' Hpc Hf
    |s x state Hpc|s x state m' Hpc Hs|s x Hpc|s x Hpc|s x st m' Hx Hg|s self b|s self|s self b r m' Hne Hns Hwt|s self
    |s x|s].
  - pose proof (core_clock _ _ _ _ _ _ _ Hco) as Hc. simpl in *.
    assert (Hb : txn_id_clock (mgr s) + 1 < 2 ^ 64).
    { destruct (decide (txn_id_clock (mgr s) + 1 = 2 ^ 64)) as [He|]; [|lia]. by rewrite He in Hw. }
    split; [done| |]; simpl.
    + unfold wrap64. rewrite Z.mod_small by lia. by apply core_begin.
    + eapply sleep_ok_mono; [..|exact Hsl]; auto. set_solver.
  - by eapply append_inv.
  - by eapply append_inv.
  - by eapply flush_inv.
  - by eapply flush_inv.
  - destruct (phase_in _ _ _ _ Hinv Hpc) as (Hxr & _ & _ & Hph). split; [done| |]; simpl.
    + apply core_set_phase; [done|done| |done]. intros Hxa _.
      apply (core_running _ _ _ _ _ _ _ Hco); [done|by rewrite Hpc].
    + apply sleep_ok_phase; [congruence|]. eapply sleep_ok_mono; [..|exact Hsl]; auto. set_solver.
  - by eapply set_inv.
  - split; [done|by apply core_remove|]. simpl.
    eapply sleep_ok_mono; [..|exact Hsl]; auto.
    + intros b Hb. destruct (decide (b = x)) as [->|Hne]; [right; by rewrite lookup_insert_eq|set_solver].
    + intros b Hb. destruct (decide (b = x)) as [->|Hne]; [by rewrite lookup_insert_eq|].
      by rewrite lookup_insert_ne.
  - split; [done| |]; simpl; [|by intros ???].
    apply core_drop_phase; [congruence|done].
  - apply on_clog_inv in Hg as (c' & Hg & ->). apply get_state_ok in Hg as (_ & Hcl' & Hv); [|done|done].
    split; [done| |done]. simpl. eapply core_view_ext; [|exact Hco]. done.
  - by split.
  - by split.
  - unfold wait_for_iter, victims_take in Hwt. simpl in Hwt.
    assert (Hsl' : sleep_ok (active (mgr s)) (deadlock_victims (mgr s) ∖ {[self]}) (unnotified s) (pc s) (sleeping s)).
    { eapply sleep_ok_mono; [..|exact Hsl]; auto. set_solver. }
    case_bool_decide; [|case_bool_decide as Hact]; simpl in Hwt; injection Hwt as <- <-; split; try done.
    simpl. intros w b' Hw. destruct (decide (w = self)) as [->|Hwne].
    + rewrite lookup_insert_eq in Hw. injection Hw as <-. split; [by left|]. set_solver.
    + rewrite lookup_insert_ne in Hw by done. by apply Hsl'.
  - split; [done|done|]. simpl. intros w b Hw. apply lookup_delete_Some in Hw as [_ Hw]. by apply Hsl.
  - split; [done|done|]. simpl. eapply sleep_ok_mono; [..|exact Hsl]; auto; set_solver.
  - split; [done|done|]. by intros ???.
Qed.

Lemma steps_inv start s s' : sys_inv slack start s -> steps s s' -> sys_inv slack start s'.
Proof. intros Hinv Hs. induction Hs; [done|]. apply IHHs. by eapply step_inv. Qed.

Lemma initial_inv start (w : W) (c : C) :
  0 < start < 2 ^ 64 -> clog_inv c -> (forall x, start <= x < 2 ^ 64 -> clog_view c x = InProgress) ->
  sys_inv slack start (initial start w c).
Proof.
  intros Hst Hc Hv. split; [done| |by intros ???]. split; simpl.
  - lia.
  - set_solver.
  - intros. lia.
  - set_solver.
  - intros x Hx. by apply Hv.
  - intros x Hx Hn. exfalso. by apply Hn, Hv.
  - intros x ph Hx. by rewrite lookup_empty in Hx.
Qed.

(** ** Stability: finished transactions keep their state, the clock only grows *)

Lemma step_stable start s s' :
  sys_inv slack start s -> step s s' ->
  txn_id_clock (mgr s) <= txn_id_clock (mgr s') /\
  view_stable (txn_id_clock (mgr s)) (active (mgr s)) (sview s) (sview s') /\
  (forall x, 0 < x < txn_id_clock (mgr s) -> x ∉ active (mgr s) -> x ∉ active (mgr s')).
Proof.
  intros Hinv Hstep. pose proof Hinv as [Hcl Hco Hsl].
  pose proof (core_clock _ _ _ _ _ _ _ Hco) as Hc.
  assert (Hsame : forall m', clog m' = clog (mgr s) -> txn_id_clock m' = txn_id_clock (mgr s) ->
    active m' ⊆ active (mgr s) -> forall p q r,
    txn_id_clock (mgr s) <= txn_id_clock m' /\
    view_stable (txn_id_clock (mgr s)) (active (mgr s)) (sview s) (sview (mkSystem m' p q r)) /\
    (forall x, 0 < x < txn_id_clock (mgr s) -> x ∉ active (mgr s) -> x ∉ active m')).
  { intros m' H1 H2 H3 p q r. split; [lia|]. split; [|set_solver].
    intros x _ _. unfold sview. simpl. by rewrite H1. }
  destruct Hstep as
    [s Hw|s x state l m' Hx Hpc Hst Ha|s x state e m' Hx Hpc Hst Ha|s x state l m' Hpc Hf|s x state l e m' Hpc Hf
    |s x state Hpc|s x state m' Hpc Hs|s x Hpc|s x Hpc|s x st m' Hx Hg|s self b|s self|s self b r m' Hne Hns Hwt|s self
    |s x|s]; simpl.
  - assert (Hb : txn_id_clock (mgr s) + 1 < 2 ^ 64).
    { destruct (decide (txn_id_clock (mgr s) + 1 = 2 ^ 64)) as [He|]; [|lia]. by rewrite He in Hw. }
    unfold wrap64. rewrite Z.mod_small by lia. split; [lia|]. split; [done|].
    intros x Hx Hn Hin. apply elem_of_union in Hin as [Hin|?]; [|done].
    apply elem_of_singleton in Hin. lia.
  - apply on_wal_inv in Ha as (w' & _ & ->). by apply (Hsame (with_wal w' (mgr s))).
  - apply on_wal_inv in Ha as (w' & _ & ->). by apply (Hsame (with_wal w' (mgr s))).
  - apply on_wal_inv in Hf as (w' & _ & ->). by apply (Hsame (with_wal w' (mgr s))).
  - apply on_wal_inv in Hf as (w' & _ & ->). by apply (Hsame (with_wal w' (mgr s))).
  - by apply (Hsame (victims_clear x (mgr s))).
  - destruct (phase_in _ _ _ _ Hinv Hpc) as (_ & _ & _ & (Hxa & _ & _)).
    destruct (set_inv start s x state m' Hinv Hpc Hs) as [_ Hv].
    apply on_clog_inv in Hs as (c' & _ & ->). simpl in *. split; [lia|]. split; [|done].
    intros y Hy Hn. unfold sview at 1. simpl. rewrite Hv by (unfold valid_xid; lia).
    rewrite decide_False by congruence. done.
  - apply (Hsame (remove_active x (mgr s))); [done|done|set_solver].
  - by apply (Hsame (mgr s)).
  - apply on_clog_inv in Hg as (c' & Hg & ->). apply get_state_ok in Hg as (_ & _ & Hv); [|done|done].
    split; [simpl; lia|]. split; [|done]. intros y Hy _. apply Hv. unfold valid_xid. lia.
  - by apply (Hsame (register_row_wait self b (mgr s))).
  - by apply (Hsame (unregister_row_wait self (mgr s))).
  - unfold wait_for_iter, victims_take in Hwt. simpl in Hwt.
    case_bool_decide; [|case_bool_decide]; simpl in Hwt; injection Hwt as <- <-;
      (apply Hsame; [done|done|simpl; set_solver]).
  - by apply (Hsame (mgr s)).
  - by apply (Hsame (victims_mark x (mgr s))).
  - by apply (Hsame (mgr s)).
Qed.

Lemma steps_stable start s s' :
  sys_inv slack start s -> steps s s' ->
  forall x, 0 < x < txn_id_clock (mgr s) -> x ∉ active (mgr s) -> sview s' x = sview s x.
Proof.
  intros Hinv Hs. induction Hs as [s|s1 s2 s3 H12 H23 IH]; intros x Hx Hn; [done|].
  destruct (step_stable start s1 s2 Hinv H12) as (Hck & Hvs & Hact).
  rewrite IH; [|by eapply step_inv|lia|by apply Hact]. by apply Hvs.
Qed.

Lemma replay_view rs : forall (c c' : C),
  clog_inv c -> Forall (fun r => valid_xid (rec_xid r)) rs -> replay rs c = (Ok tt, c') ->
  clog_inv c' /\ forall x, valid_xid x -> clog_view c' x = default (clog_view c x) (last_state x rs None).
Proof.
  intros c c' Hc Hv Hr. cut (clog_inv c' /\ forall x acc, valid_xid x -> clog_view c x = default (clog_view c x) acc ->
    clog_view c' x = default (clog_view c x) (last_state x rs acc)).
  { intros [? H]. split; [done|]. intros x Hx. by apply H. }
  revert c Hc Hr. induction Hv as [|r rs Hrx Hv IH]; intros c Hc Hr; simpl in Hr.
  { injection Hr as <-. split; [done|]. intros x acc _ H. done. }
  inv_mbind Hr. destruct a.
  assert (Hset : set_state (rec_xid r) (rec_state r) c = (Ok tt, s1)) by (by destruct r).
  apply set_state_ok in Hset as [Hc1 Hv1]; [|done|done].
  destruct (IH s1 Hc1 Hr) as [Hc' Hv']. split; [done|]. intros x acc Hx Hacc. simpl.
  specialize (Hv1 x Hx). destruct (decide (rec_xid r = x)) as [Hd|Hd].
  - subst x. rewrite decide_True in Hv1 by done.
    rewrite (Hv' _ (Some (rec_state r)) Hx) by done.
    by destruct (last_state_some (rec_xid r) rs (rec_state r)) as [s' ->].
  - rewrite decide_False in Hv1 by congruence. rewrite (Hv' _ acc Hx); [by rewrite Hv1|by rewrite Hv1].
Qed.

End system.

#[export] Instance ListWal_laws : CommitWalLaws ListWal.
Proof.
  refine {| wal_records := lw_records; wal_durable := lw_durable |}.
  - intros r w res w'. simpl. unfold lw_pop.
    destruct (lw_io w) as [|[] io]; simpl; intros [= <- <-]; simpl; auto.
  - intros lsn w res w'. simpl. unfold lw_pop.
    destruct (lw_io w) as [|[] io]; simpl; intros [= <- <-]; simpl;
      (split; [done|]); (split; [lia|]); try done;
      intros _ i r Hi; apply lookup_lt_Some in Hi; lia.
Defined.

(** This log makes the record itself durable too. *)
#[export] Instance ListWal_covers : FlushWithin ListWal 0.
Proof.
  intros lsn w w' i r. simpl. unfold lw_pop.
  destruct (lw_io w) as [|[] io]; simpl; intros [= <-] Hi; simpl; apply lookup_lt_Some in Hi; lia.
Qed.

(** ** Properties *)

Section properties.
Context {C : Type} `{CC : ClogAccessor C} `{CL : !ClogLaws C}.
Context {W : Type} `{WW : CommitWal W} `{WL : !CommitWalLaws W}.

(** Every record of a fresh log names a transaction the manager handed out. *)
Lemma step_records_valid start (s s' : System C W) :
  sys_inv 1 start s -> step s s' ->
  Forall (fun e => valid_xid (rec_xid (snd e))) (wal_records (wal (mgr s))) ->
  Forall (fun e => valid_xid (rec_xid (snd e))) (wal_records (wal (mgr s'))).
Proof.
  intros [Hcl Hco Hsl] Hstep Hf. pose proof (core_clock _ _ _ _ _ _ _ Hco) as Hc.
  assert (Hnew : forall x state r m', x ∈ active (mgr s) ->
    on_wal (append (record_of x state)) (mgr s) = (r, m') ->
    Forall (fun e => valid_xid (rec_xid (snd e))) (wal_records (wal m'))).
  { intros x state r m' Hx Ha. apply on_wal_inv in Ha as (w' & Ha & ->). apply append_spec in Ha as [_ Hr].
    apply (core_active _ _ _ _ _ _ _ Hco) in Hx.
    assert (Hv : valid_xid (rec_xid (record_of x state))) by (rewrite rec_xid_record_of; unfold valid_xid; lia).
    assert (Hcase : wal_records w' = wal_records (wal (mgr s)) \/
              exists l, wal_records w' = wal_records (wal (mgr s)) ++ [(l, record_of x state)]).
    { destruct r; eauto. }
    simpl. destruct Hcase as [-> |[l ->]]; [done|]. apply Forall_app. split; [done|]. by constructor. }
  destruct Hstep; simpl; try done; try by eapply Hnew.
  - apply on_wal_inv in H0 as (w' & Hfl & ->). apply flush_spec in Hfl as [Hr _]. simpl. by rewrite Hr.
  - apply on_wal_inv in H0 as (w' & Hfl & ->). apply flush_spec in Hfl as [Hr _]. simpl. by rewrite Hr.
  - apply on_clog_inv in H0 as (c' & _ & ->). done.
  - apply on_clog_inv in H0 as (c' & _ & ->). done.
  - unfold wait_for_iter in H1. simpl in H1. repeat case_bool_decide; simpl in H1; by injection H1 as <- <-.
Qed.

Lemma steps_records_valid start (s s' : System C W) :
  sys_inv 1 start s -> steps s s' ->
  Forall (fun e => valid_xid (rec_xid (snd e))) (wal_records (wal (mgr s))) ->
  Forall (fun e => valid_xid (rec_xid (snd e))) (wal_records (wal (mgr s'))).
Proof.
  intros Hinv Hs. induction Hs as [|s1 s2 s3 H12 H23 IH]; intros Hf; [done|].
  apply IH; [by eapply step_inv|by eapply step_records_valid].
Qed.

Lemma commit_steps (s : System C W) xid m' :
  xid ∈ active (mgr s) -> pc s !! xid = None -> commit_txn xid (mgr s) = (Ok tt, m') ->
  steps s (mkSystem m' (pc s) ∅ (unnotified s)).
Proof.
  intros Hx Hpc Hr. unfold commit_txn, end_txn in Hr.
  inv_mbind Hr. rename a into lsn, s1 into m1. inv_mbind Hr. destruct a. rename s1 into m2.
  inv_mbind Hr. unfold mmodify in Ha1. injection Ha1 as <- <-.
  inv_mbind Hr. destruct a. rename s1 into m3. unfold mmodify in Hr. injection Hr as <-.
  set (sl := sleeping s). set (un := unnotified s).
  eapply steps_cons; [by apply (step_append s xid Committed lsn m1); auto|].
  eapply steps_cons; [apply (step_flush _ xid Committed lsn m2); [simpl; by rewrite lookup_insert_eq|done]|].
  eapply steps_cons; [apply (step_clear _ xid Committed); simpl; by rewrite lookup_insert_eq|].
  eapply steps_cons; [apply (step_set _ xid Committed m3); [simpl; by rewrite lookup_insert_eq|done]|].
  eapply steps_cons; [apply (step_remove _ xid); simpl; by rewrite lookup_insert_eq|].
  eapply steps_cons; [apply (step_notify _ xid); simpl; by rewrite lookup_insert_eq|]. simpl.
  rewrite !insert_insert_eq, delete_insert_id by done. apply steps_refl.
Qed.

(** The outcome of [commit_txn] on every branch.  Only a successful return
    marks the transaction committed and removes it from the active set; if the
    append or the fsync fails, the commit log and the active set are exactly as
    before, and if the commit log panics the transaction is still active. *)
Theorem commit_txn_outcome xid (m m' : TxnManager C W) r :
  clog_inv (clog m) -> valid_xid xid -> commit_txn xid m = (r, m') ->
  txn_id_clock m' = txn_id_clock m /\ row_wait_registry m' = row_wait_registry m /\
  match r with
  | Ok _ => active m' = active m ∖ {[xid]} /\ (xid ∉ deadlock_victims m') /\
            clog_view (clog m') xid = Committed /\
            forall y, valid_xid y -> y <> xid -> clog_view (clog m') y = clog_view (clog m) y
  | Err _ => active m' = active m /\ clog m' = clog m /\ deadlock_victims m' = deadlock_victims m
  | Panic => active m' = active m
  end.
Proof.
  intros Hc Hx Hr. unfold commit_txn, end_txn, mbindM, mmodify in Hr.
  destruct (on_wal (append _) m) as [r1 m1] eqn:E1. apply on_wal_inv in E1 as (w1 & _ & ->).
  destruct r1 as [lsn|e|]; [|injection Hr as <- <-; simpl; auto|injection Hr as <- <-; simpl; auto].
  destruct (on_wal (flush_to lsn) _) as [r2 m2] eqn:E2. apply on_wal_inv in E2 as (w2 & _ & ->).
  destruct r2 as [[]|e|]; [|injection Hr as <- <-; simpl; auto|injection Hr as <- <-; simpl; auto].
  destruct (on_clog _ _) as [r3 m3] eqn:E3. apply on_clog_inv in E3 as (c' & E3 & ->). simpl in E3.
  destruct r3 as [[]|e|]; injection Hr as <- <-; simpl; (split; [done|]); (split; [done|]).
  - apply set_state_ok in E3 as [_ Hv]; [|done|done].
    split; [done|]. split; [set_solver|]. split; [by rewrite Hv, decide_True|].
    intros y Hy Hne. by rewrite Hv, decide_False.
  - by apply set_state_infallible in E3.
  - done.
Qed.

(** The sequential code is a run of the interleaved system: a successful
    [commit_txn] of a running transaction performs exactly the micro-steps
    append, fsync, clear the victim flag, record the outcome, leave the active
    set, broadcast - in this order. *)
Theorem commit_txn_refines_steps (s : System C W) xid m' :
  xid ∈ active (mgr s) -> pc s !! xid = None -> commit_txn xid (mgr s) = (Ok tt, m') ->
  steps s (mkSystem m' (pc s) ∅ (unnotified s)).
Proof. apply commit_steps. Qed.

(** What the invariant gives with a flush of a given reach. *)
Lemma visible_within (slack : nat) `{FW : !FlushWithin W slack} start (w : W) (c : C) (s : System C W) x :
  0 < start < 2 ^ 64 -> clog_inv c -> (forall x, start <= x < 2 ^ 64 -> clog_view c x = InProgress) ->
  steps (initial start w c) s -> start <= x < 2 ^ 64 -> sview s x <> InProgress ->
  settled x (sview s x) (wal_records (wal (mgr s))) (slack + wal_durable (wal (mgr s))).
Proof.
  intros Hst Hc Hv Hs Hx Hn. pose proof (steps_inv start _ _ (initial_inv start w c Hst Hc Hv) Hs) as [_ Hco _].
  by apply (core_durable _ _ _ _ _ _ _ Hco).
Qed.

(** C2: logged before visible.  In every interleaving, a transaction is visible
    as committed or aborted only if the corresponding record is its last record
    in the log and every record before it is durable; the record itself is durable
    too unless it is the first one past the durable prefix, so at most one visible
    outcome can be missing from it.  That exception is real for the repository's
    writer, whose [flush_to] may return with the record unflushed (writer.rs:398);
    for a log whose [flush_to] of a record's LSN covers that record ([FlushWithin]
    with 0), every visible outcome is durable.  Every transaction handed out is
    either active or finished, and an active one reads as in progress until its
    outcome has been recorded. *)
Theorem durable_before_visible start (w : W) (c : C) (s : System C W) :
  0 < start < 2 ^ 64 -> clog_inv c -> (forall x, start <= x < 2 ^ 64 -> clog_view c x = InProgress) ->
  steps (initial start w c) s ->
  let records := wal_records (wal (mgr s)) in
  let durable := wal_durable (wal (mgr s)) in
  (forall x, start <= x < 2 ^ 64 -> sview s x <> InProgress ->
     exists i lsn, last_at x i lsn (sview s x) records /\ (i <= durable)%nat) /\
  (FlushWithin W 0 -> forall x, start <= x < 2 ^ 64 -> sview s x <> InProgress ->
     exists i lsn, last_at x i lsn (sview s x) records /\ (i < durable)%nat) /\
  (forall x, start <= x < txn_id_clock (mgr s) -> x ∈ active (mgr s) \/ terminal (sview s x)) /\
  (forall x, x ∈ active (mgr s) -> pc s !! x <> Some ClogSet -> sview s x = InProgress).
Proof.
  intros Hst Hc Hv Hs records durable.
  pose proof (steps_inv (slack := 1) start _ _ (initial_inv start w c Hst Hc Hv) Hs) as [_ Hco _].
  split; [|split; [|split]].
  - intros x Hx Hn. destruct (visible_within 1 start w c s x Hst Hc Hv Hs Hx Hn) as (i & l & Hl & Hi).
    exists i, l. split; [done|]. unfold durable. lia.
  - intros Hcov x Hx Hn. by apply (visible_within 0 start w c s x Hst Hc Hv Hs Hx Hn).
  - intros x Hx. destruct (decide (x ∈ active (mgr s))); [by left|right].
    by apply (core_done _ _ _ _ _ _ _ Hco).
  - apply (core_running _ _ _ _ _ _ _ Hco).
Qed.

(** A snapshot is well formed in every interleaving: [xip] is the sorted,
    duplicate-free active set, [xmin <= xip[i] < xmax], and every transaction
    below [xmax] that is not in [xip] has already committed or aborted (no
    transaction is caught between its allocation and its registration). *)
Theorem snapshot_wellformed start (w : W) (c : C) (s : System C W) current :
  0 < start < 2 ^ 64 -> clog_inv c -> (forall x, start <= x < 2 ^ 64 -> clog_view c x = InProgress) ->
  steps (initial start w c) s ->
  let snap := snapshot current (mgr s) in
  StronglySorted Z.lt (xip snap) /\
  (forall x, x ∈ xip snap <-> x ∈ active (mgr s)) /\
  (forall x, x ∈ xip snap -> xmin snap <= x < xmax snap) /\ xmin snap <= xmax snap /\
  (forall x, start <= x < xmax snap -> x ∉ xip snap -> terminal (sview s x)).
Proof.
  intros Hst Hc Hv Hs snap. pose proof (steps_inv (slack := 1) start _ _ (initial_inv start w c Hst Hc Hv) Hs) as [_ Hco _].
  assert (Hin : forall x, x ∈ xip snap <-> x ∈ active (mgr s)).
  { intros x. unfold snap, snapshot. simpl. rewrite elem_of_zsort, elem_of_elements. done. }
  assert (Hsort : StronglySorted Z.le (xip snap)) by apply zsort_sorted.
  assert (Hnd : NoDup (xip snap)) by (unfold snap, snapshot; simpl; rewrite zsort_perm; apply NoDup_elements).
  assert (Hmin : forall x, x ∈ xip snap -> xmin snap <= x).
  { unfold snap, snapshot in *. simpl in *. intros x Hx. destruct (zsort (elements (active (mgr s)))) as [|y l]; [set_solver|].
    simpl. apply StronglySorted_inv in Hsort as [_ Hf]. rewrite Forall_forall in Hf.
    apply elem_of_cons in Hx as [->|Hx]; [lia|auto]. }
  split; [|split; [done|split; [|split]]].
  - clear -Hsort Hnd. induction Hsort as [|a l Hs IH Hf]; [constructor|].
    apply NoDup_cons in Hnd as [Hn Hnd]. constructor; [auto|]. rewrite Forall_forall in *.
    intros x Hx. specialize (Hf x Hx). assert (x <> a) by congruence. lia.
  - intros x Hx. split; [auto|]. apply Hin in Hx. by apply (core_active _ _ _ _ _ _ _ Hco).
  - unfold snap, snapshot in *. simpl in *. destruct (zsort (elements (active (mgr s)))) as [|y l] eqn:E; simpl; [lia|].
    assert (Hy : y ∈ active (mgr s)) by (apply Hin; set_solver).
    apply (core_active _ _ _ _ _ _ _ Hco) in Hy. unfold TxnIdClock_current. lia.
  - intros x Hx Hn. rewrite Hin in Hn. by apply (core_done _ _ _ _ _ _ _ Hco).
Qed.

(** C1: snapshot isolation.  Whatever other threads begin, commit or abort
    after a snapshot was taken, every visibility judgment under that snapshot
    (at any command of its transaction) keeps the answer it had at the instant
    of the snapshot. *)
Theorem snapshot_isolation start (w : W) (c : C) (s s' : System C W) current cid t_xmin t_xmax t_cid :
  0 < start < 2 ^ 64 -> clog_inv c -> (forall x, start <= x < 2 ^ 64 -> clog_view c x = InProgress) ->
  steps (initial start w c) s -> steps s s' ->
  0 < t_xmin -> 0 <= t_xmax ->
  let snap := snapshot current (mgr s) in
  let snap := mkSnapshot (xmin snap) (xmax snap) (xip snap) current cid in
  is_visible t_xmin t_xmax t_cid snap (sview s') = is_visible t_xmin t_xmax t_cid snap (sview s).
Proof.
  intros Hst Hc Hv Hs Hs' H1 H2 snap0 snap.
  pose proof (steps_inv (slack := 1) start _ _ (initial_inv start w c Hst Hc Hv) Hs) as Hinv.
  assert (Hseen : forall x, 0 < x -> seen snap (sview s') x <-> seen snap (sview s) x).
  { intros x Hx. unfold seen, snap, snap0, snapshot. simpl. rewrite elem_of_zsort, elem_of_elements.
    split; intros (Hlt & Hn & He); (split; [done|]); (split; [done|]);
      rewrite <-He; [symmetry|]; by eapply steps_stable. }
  assert (Heff : forall x, 0 < x -> in_effect snap (sview s') x t_cid <-> in_effect snap (sview s) x t_cid).
  { intros x Hx. unfold in_effect. by rewrite Hseen. }
  apply eq_true_iff_eq. rewrite !is_visible_iff. rewrite Heff by done.
  destruct (decide (t_xmax = 0)) as [->|Hne].
  - unfold TxnId_INVALID. split; intros [? _]; (split; [done|]); lia.
  - by rewrite Heff by lia.
Qed.

(** An outcome within reach of the durable records is rebuilt, or its record is
    the first one past them. *)
Lemma settled_boundary x st (rs : log) n :
  settled x st rs (1 + n) -> settled x st rs n \/ exists lsn, last_at x n lsn st rs.
Proof.
  intros (i & l & Hl & Hi). destruct (decide (i < n)%nat); [left; by exists i, l|right].
  assert (i = n) as -> by lia. by exists l.
Qed.

Lemma last_state_committed x rs : forall acc,
  last_state x rs acc = Some Committed -> acc = Some Committed \/ TxnCommitRecord x ∈ rs.
Proof.
  induction rs as [|r rs IH]; intros acc; simpl; [auto|]. intros Hl. apply IH in Hl as [Hl|Hl]; [|set_solver].
  case_decide as Hd; [|auto]. destruct r as [y|y]; simpl in *; [subst; set_solver|done].
Qed.

(** C3: crash recovery rebuilds the commit log.  After any interleaving, from any
    consistent commit log, replaying the durable records gives every finished
    transaction the outcome readers had observed, except possibly one transaction,
    whose record is the first one past the durable records: the repository's
    [flush_to] can acknowledge it before it is fsynced (writer.rs:398).  For a log
    whose [flush_to] of a record's LSN covers that record ([FlushWithin] with 0)
    there is no exception.  And a transaction the old commit log did not know ends
    committed only if its commit record is durable. *)
Theorem recovery_rebuilds_outcomes start (w : W) (c c0 c1 : C) (s : System C W) :
  0 < start < 2 ^ 64 -> clog_inv c -> (forall x, start <= x < 2 ^ 64 -> clog_view c x = InProgress) ->
  wal_records w = [] -> steps (initial start w c) s -> clog_inv c0 ->
  let n := wal_durable (wal (mgr s)) in
  let durable := take n (snd <$> wal_records (wal (mgr s))) in
  replay durable c0 = (Ok tt, c1) ->
  (forall x, start <= x < 2 ^ 64 -> sview s x <> InProgress ->
     clog_view c1 x = sview s x \/ exists lsn, last_at x n lsn (sview s x) (wal_records (wal (mgr s)))) /\
  (forall x y, start <= x < 2 ^ 64 -> start <= y < 2 ^ 64 -> sview s x <> InProgress -> sview s y <> InProgress ->
     clog_view c1 x <> sview s x -> clog_view c1 y <> sview s y -> x = y) /\
  (FlushWithin W 0 -> forall x, start <= x < 2 ^ 64 -> sview s x <> InProgress -> clog_view c1 x = sview s x) /\
  (forall x, valid_xid x -> clog_view c0 x = InProgress -> clog_view c1 x = Committed ->
     TxnCommitRecord x ∈ durable).
Proof.
  intros Hst Hc Hv Hw Hs Hc0 n durable Hr.
  assert (Hval : Forall (fun r => valid_xid (rec_xid r)) durable).
  { apply Forall_take, Forall_fmap.
    apply (steps_records_valid start _ _ (initial_inv start w c Hst Hc Hv) Hs). simpl. by rewrite Hw. }
  apply replay_view in Hr as [_ Hview]; [|done|done].
  assert (Hset : forall x, start <= x < 2 ^ 64 -> settled x (sview s x) (wal_records (wal (mgr s))) n ->
    clog_view c1 x = sview s x).
  { intros x Hx Hse. rewrite Hview by (unfold valid_xid; lia). unfold durable.
    by rewrite (settled_last_state x (sview s x)). }
  assert (Hone : forall x, start <= x < 2 ^ 64 -> sview s x <> InProgress ->
    clog_view c1 x = sview s x \/ exists lsn, last_at x n lsn (sview s x) (wal_records (wal (mgr s)))).
  { intros x Hx Hn. destruct (settled_boundary _ _ _ _ (visible_within 1 start w c s x Hst Hc Hv Hs Hx Hn)); auto. }
  split; [done|]. split; [|split].
  - intros x y Hx Hy Hnx Hny Hdx Hdy. destruct (Hone x Hx Hnx) as [?|(l & (rx & Ex & <- & _) & _)]; [done|].
    destruct (Hone y Hy Hny) as [?|(l' & (ry & Ey & <- & _) & _)]; [done|]. congruence.
  - intros Hcov x Hx Hn. apply Hset; [done|]. by apply (visible_within 0 start w c s x Hst Hc Hv Hs Hx Hn).
  - intros x Hx H0 H1. rewrite Hview, H0 in H1 by done.
    destruct (last_state x durable None) as [st|] eqn:E; simpl in H1; [|done]. subst st.
    apply last_state_committed in E as [?|?]; done.
Qed.

(** C4: no wakeup is lost.  In every interleaving, a thread asleep in
    [wait_for] waits for a transaction that is still active or whose broadcast
    has not happened yet, and a sleeping thread chosen as deadlock victim has its
    broadcast still to come: no thread sleeps with nobody left to wake it. *)
Theorem no_lost_wakeup start (w : W) (c : C) (s : System C W) waiter blocking :
  0 < start < 2 ^ 64 -> clog_inv c -> (forall x, start <= x < 2 ^ 64 -> clog_view c x = InProgress) ->
  steps (initial start w c) s -> sleeping s !! waiter = Some blocking ->
  (blocking ∈ active (mgr s) \/ pc s !! blocking = Some Removed) /\
  (waiter ∈ deadlock_victims (mgr s) -> waiter ∈ unnotified s).
Proof.
  intros Hst Hc Hv Hs Hsl. pose proof (steps_inv (slack := 1) start _ _ (initial_inv start w c Hst Hc Hv) Hs) as [_ _ Hso].
  by apply Hso.
Qed.

End properties.

(** ** Witnesses *)

(** One transaction begins and commits; then two more begin and the younger one
    goes to sleep on the older. *)
Definition demo0 : System InMemoryClogAccessor ListWal := initial 1 (mkListWal [] 0 8 []) MemClog_new.
Definition demo1 : System InMemoryClogAccessor ListWal := upd_mgr (fun m => snd (begin_txn m)) demo0.
Definition demo2 : System InMemoryClogAccessor ListWal :=
  mkSystem (snd (commit_txn 1 (mgr demo1))) (pc demo1) ∅ (unnotified demo1).
Definition demo3 : System InMemoryClogAccessor ListWal :=
  upd_mgr (fun m => snd (begin_txn m)) (upd_mgr (fun m => snd (begin_txn m)) demo2).
Definition demo4 : System InMemoryClogAccessor ListWal :=
  mkSystem (snd (wait_for_iter 3 2 (mgr demo3))) (pc demo3) (<[3 := 2]> (sleeping demo3)) (unnotified demo3).

Lemma demo1_steps : steps demo0 demo1.
Proof. eapply steps_cons; [by apply step_begin|apply steps_refl]. Qed.

Lemma demo2_steps : steps demo0 demo2.
Proof.
  eapply steps_cons; [by apply step_begin|]. fold demo1. apply (commit_steps demo1 1); [|done|].
  - apply elem_of_union_l, elem_of_singleton. done.
  - vm_compute. reflexivity.
Qed.

Lemma steps_trans (s1 s2 s3 : System InMemoryClogAccessor ListWal) : steps s1 s2 -> steps s2 s3 -> steps s1 s3.
Proof. intros H12 H23. induction H12; [done|]. eapply steps_cons; [done|auto]. Qed.

Lemma demo4_steps : steps demo0 demo4.
Proof.
  apply (steps_trans _ demo2); [apply demo2_steps|].
  eapply steps_cons; [by apply step_begin|]. eapply steps_cons; [by apply step_begin|].
  fold demo3. eapply steps_cons; [|apply steps_refl].
  apply (step_wait demo3 3 2 None); [done|done|]. vm_compute. reflexivity.
Qed.

Lemma demo_start : 0 < 1 < 2 ^ 64 /\ clog_inv MemClog_new /\
  (forall x, 1 <= x < 2 ^ 64 -> clog_view MemClog_new x = InProgress).
Proof. split; [lia|]. by split. Qed.

Lemma commit_txn_outcome_witness :
  clog_view (clog (snd (commit_txn 1 (mgr demo1)))) 1 = Committed.
Proof.
  pose proof (commit_txn_outcome 1 (mgr demo1) (snd (commit_txn 1 (mgr demo1))) (Ok tt)) as H.
  apply H; [exact I|unfold valid_xid; lia|vm_compute; reflexivity].
Defined.

Lemma commit_txn_refines_steps_witness : steps demo1 demo2.
Proof.
  apply (commit_txn_refines_steps demo1 1 (snd (commit_txn 1 (mgr demo1)))).
  - apply elem_of_union_l, elem_of_singleton. done.
  - done.
  - vm_compute. reflexivity.
Defined.

Lemma durable_before_visible_witness :
  sview demo2 1 = Committed /\
  exists i lsn, last_at 1 i lsn Committed (wal_records (wal (mgr demo2))) /\ (i < wal_durable (wal (mgr demo2)))%nat.
Proof.
  destruct demo_start as (H1 & H2 & H3). split; [reflexivity|].
  destruct (durable_before_visible 1 (mkListWal [] 0 8 []) MemClog_new demo2 H1 H2 H3 demo2_steps) as (_ & H & _).
  apply (H ListWal_covers 1); [lia|done].
Defined.

Lemma snapshot_wellformed_witness :
  xip (snapshot 3 (mgr demo4)) = [2; 3] /\
  StronglySorted Z.lt (xip (snapshot 3 (mgr demo4))).
Proof.
  destruct demo_start as (H1 & H2 & H3). split; [vm_compute; reflexivity|].
  apply (snapshot_wellformed 1 (mkListWal [] 0 8 []) MemClog_new demo4 3 H1 H2 H3 demo4_steps).
Defined.

(** A snapshot taken before transaction 1 commits never sees its row. *)
Lemma snapshot_isolation_witness :
  let snap := snapshot 0 (mgr demo1) in
  is_visible 1 0 0 (mkSnapshot (xmin snap) (xmax snap) (xip snap) 0 0) (sview demo2) = false.
Proof.
  destruct demo_start as (H1 & H2 & H3).
  assert (H12 : steps demo1 demo2).
  { apply (commit_steps demo1 1); [apply elem_of_union_l, elem_of_singleton; done|done|vm_compute; reflexivity]. }
  pose proof (snapshot_isolation 1 (mkListWal [] 0 8 []) MemClog_new demo1 demo2 0 0 1 0 0
    H1 H2 H3 demo1_steps H12 ltac:(lia) ltac:(lia)) as H.
  cbv zeta in H |- *. rewrite H. vm_compute. reflexivity.
Defined.

Lemma recovery_rebuilds_outcomes_witness :
  exists c1, replay [TxnCommitRecord 1] MemClog_new = (Ok tt, c1) /\ clog_view c1 1 = Committed.
Proof.
  destruct demo_start as (H1 & H2 & H3).
  exists (snd (replay [TxnCommitRecord 1] MemClog_new)). split; [vm_compute; reflexivity|].
  destruct (recovery_rebuilds_outcomes (CL:=MemClog_laws) (WL:=ListWal_laws) 1 (mkListWal [] 0 8 []) MemClog_new MemClog_new
    (snd (replay [TxnCommitRecord 1] MemClog_new)) demo2 H1 H2 H3 ltac:(reflexivity) demo2_steps H2
    ltac:(vm_compute; reflexivity)) as (_ & _ & H & _).
  apply (H ListWal_covers 1); [lia|done].
Defined.

Lemma no_lost_wakeup_witness : sleeping demo4 !! 3 = Some 2 /\
  (2 ∈ active (mgr demo4) \/ pc demo4 !! 2 = Some Removed).
Proof.
  destruct demo_start as (H1 & H2 & H3). split; [reflexivity|].
  apply (no_lost_wakeup 1 (mkListWal [] 0 8 []) MemClog_new demo4 3 2 H1 H2 H3 demo4_steps eq_refl).
Defined.
