(* ===== verification/LockManager.v ===== *)
(** * The table lock manager

    Models [pg-txn/src/lock_manager.rs]: the four lock modes and their conflict
    matrix, a table's granted set and FIFO queue, and the manager's operations.
    A blocking [acquire] is its loop body ([acquire_iter]): the call either
    returns or goes to sleep, and a sleeping call runs the body again whenever it
    is woken.  [lstep] interleaves the calls of all transactions. *)

From S2P Require Import Prelude Types.
Local Open Scope Z_scope.

(** ** Modes *)

Inductive LockMode := AccessShare | RowExclusive | Exclusive | AccessExclusive.

#[export] Instance LockMode_eq_dec : EqDecision LockMode.
Proof. solve_decision. Defined.

(** The derived order of the enum. *)
Definition strength (m : LockMode) : Z :=
  match m with AccessShare => 0 | RowExclusive => 1 | Exclusive => 2 | AccessExclusive => 3 end.

Definition conflicts_with (a b : LockMode) : bool :=
  match a, b with
  | AccessExclusive, _ | _, AccessExclusive
  | RowExclusive, Exclusive | Exclusive, RowExclusive | Exclusive, Exclusive => true
  | _, _ => false
  end.

(** ** A table's lock state *)

Record Waiter := mkWaiter { w_xid : TxnId; w_mode : LockMode }.

#[export] Instance Waiter_eq_dec : EqDecision Waiter.
Proof. solve_decision. Defined.

Record LockEntry := mkEntry { granted : gmap Z LockMode; wait_queue : list Waiter }.

Definition LockEntry_default : LockEntry := mkEntry ∅ [].

Definition holder_ok (xid : TxnId) (mode : LockMode) (holder : Z) (held : LockMode) : Prop :=
  holder = xid \/ conflicts_with held mode = false.

#[export] Instance holder_ok_dec xid mode holder held : Decision (holder_ok xid mode holder held).
Proof. unfold holder_ok. apply _. Defined.

Definition can_grant (e : LockEntry) (xid : TxnId) (mode : LockMode) : bool :=
  if (match granted e !! xid with Some held => strength held >=? strength mode | None => false end)
  then true
  else if (match wait_queue e with head :: _ => negb (w_xid head =? xid) | [] => false end)
  then false
  else bool_decide (map_Forall (holder_ok xid mode) (granted e)).

Definition grant (e : LockEntry) (xid : TxnId) (mode : LockMode) : LockEntry :=
  let queue := match wait_queue e with
               | head :: rest => if w_xid head =? xid then rest else head :: rest
               | [] => []
               end in
  let mode' := match granted e !! xid with
               | Some held => if strength mode >? strength held then mode else held
               | None => mode
               end in
  mkEntry (<[xid := mode']> (granted e)) queue.

Definition enqueue_if_absent (e : LockEntry) (xid : TxnId) (mode : LockMode) : LockEntry :=
  if existsb (fun w => w_xid w =? xid) (wait_queue e) then e
  else mkEntry (granted e) (wait_queue e ++ [mkWaiter xid mode]).

(** The [while let] loop; every iteration pops the queue, so the queue length
    is enough fuel. *)
Fixpoint regrant_loop (fuel : nat) (e : LockEntry) : LockEntry :=
  match fuel with
  | O => e
  | S fuel =>
      match wait_queue e with
      | [] => e
      | head :: _ =>
          if can_grant e (w_xid head) (w_mode head)
          then regrant_loop fuel (grant e (w_xid head) (w_mode head))
          else e
      end
  end.

Definition regrant_heads (e : LockEntry) : LockEntry := regrant_loop (length (wait_queue e)) e.

Definition drop_waiter (xid : TxnId) (e : LockEntry) : LockEntry :=
  mkEntry (granted e) (filter (fun w => w_xid w <> xid) (wait_queue e)).

Definition entry_is_empty (e : LockEntry) : bool :=
  bool_decide (granted e = ∅) && bool_decide (wait_queue e = []).

(** ** The manager *)

Inductive LockError := LockDeadlockVictim (xid : TxnId).

Record LockManager := mkLockManager {
  entries : gmap Z LockEntry;
  victims : gset Z
}.

Definition LockManager_new : LockManager := mkLockManager ∅ ∅.

(** One iteration of [acquire]'s loop: [Some] returns, [None] sleeps. *)
Definition acquire_iter (xid : TxnId) (table : Oid) (mode : LockMode) (lm : LockManager)
    : option (res LockError unit) * LockManager :=
  if bool_decide (xid ∈ victims lm) then
    let victims' := victims lm ∖ {[xid]} in
    let entries' :=
      match entries lm !! table with
      | Some entry =>
          let entry := regrant_heads (drop_waiter xid entry) in
          if entry_is_empty entry then delete table (entries lm) else <[table := entry]> (entries lm)
      | None => entries lm
      end in
    (Some (Err (LockDeadlockVictim xid)), mkLockManager entries' victims')
  else
    let entry := default LockEntry_default (entries lm !! table) in
    if can_grant entry xid mode
    then (Some (Ok tt), mkLockManager (<[table := grant entry xid mode]> (entries lm)) (victims lm))
    else (None, mkLockManager (<[table := enqueue_if_absent entry xid mode]> (entries lm)) (victims lm)).

Definition try_acquire (xid : TxnId) (table : Oid) (mode : LockMode) (lm : LockManager) : bool * LockManager :=
  let grantable := match entries lm !! table with Some e => can_grant e xid mode | None => true end in
  if grantable
  then (true, mkLockManager
                (<[table := grant (default LockEntry_default (entries lm !! table)) xid mode]> (entries lm))
                (victims lm))
  else (false, lm).

(** The body of [retain]: [None] drops the table's entry. *)
Definition release_entry (xid : TxnId) (e : LockEntry) : option LockEntry :=
  let e := drop_waiter xid (mkEntry (delete xid (granted e)) (wait_queue e)) in
  let e := regrant_heads e in
  if entry_is_empty e then None else Some e.

Definition release_all (xid : TxnId) (lm : LockManager) : LockManager :=
  mkLockManager (omap (release_entry xid) (entries lm)) (victims lm).

Definition is_granted (xid : TxnId) (table : Oid) (mode : LockMode) (lm : LockManager) : bool :=
  match entries lm !! table with
  | Some e => match granted e !! xid with Some held => strength held >=? strength mode | None => false end
  | None => false
  end.

Definition pair_le (a b : Z * LockMode) : Prop :=
  fst a < fst b \/ (fst a = fst b /\ strength (snd a) <= strength (snd b)).

#[export] Instance pair_le_dec : RelDecision pair_le.
Proof. intros a b. unfold pair_le. apply _. Defined.

Definition held_by (xid : TxnId) (lm : LockManager) : list (Oid * LockMode) :=
  merge_sort pair_le (map_to_list (omap (fun e => granted e !! xid) (entries lm))).

Record TableLockState := mkTableLockState {
  ts_granted : list (TxnId * LockMode);
  ts_waiters : list (TxnId * LockMode)
}.

Definition lock_state_of (e : LockEntry) : TableLockState :=
  {| ts_granted := merge_sort pair_le (map_to_list (granted e));
     ts_waiters := (fun w => (w_xid w, w_mode w)) <$> wait_queue e |}.

Definition table_lock_state (table : Oid) (lm : LockManager) : option TableLockState :=
  lock_state_of <$> (entries lm !! table).

Definition key_le (a b : Oid * TableLockState) : Prop := fst a <= fst b.

#[export] Instance key_le_dec : RelDecision key_le.
Proof. intros a b. unfold key_le. apply _. Defined.

Definition contended (e : Oid * LockEntry) : Prop := wait_queue (snd e) <> [].

#[export] Instance contended_dec e : Decision (contended e).
Proof. unfold contended. apply _. Defined.

Definition table_lock_states (lm : LockManager) : list (Oid * TableLockState) :=
  merge_sort key_le (map_to_list (lock_state_of <$> filter contended (entries lm))).

(** ** Interleaved execution *)

(** [blocked] maps a transaction asleep in [acquire] to its request; a
    transaction issues one request at a time. *)
Record LState := mkLState { lman : LockManager; blocked : gmap Z (Oid * LockMode) }.

Definition after_iter (xid : TxnId) (req : Oid * LockMode)
    (r : option (res LockError unit) * LockManager) (bl : gmap Z (Oid * LockMode)) : LState :=
  match fst r with
  | None => mkLState (snd r) (<[xid := req]> bl)
  | Some _ => mkLState (snd r) (delete xid bl)
  end.

Inductive lstep : LState -> LState -> Prop :=
| lstep_acquire s xid table mode :
    blocked s !! xid = None ->
    lstep s (after_iter xid (table, mode) (acquire_iter xid table mode (lman s)) (blocked s))
| lstep_wake s xid table mode :
    blocked s !! xid = Some (table, mode) ->
    lstep s (after_iter xid (table, mode) (acquire_iter xid table mode (lman s)) (blocked s))
| lstep_try s xid table mode :
    blocked s !! xid = None ->
    lstep s (mkLState (snd (try_acquire xid table mode (lman s))) (blocked s))
| lstep_release s xid :
    lstep s (mkLState (release_all xid (lman s)) (blocked s))
| lstep_mark s xid :
    lstep s (mkLState (mkLockManager (entries (lman s)) ({[xid]} ∪ victims (lman s))) (blocked s)).

Inductive lreach : LState -> Prop :=
| lreach_init : lreach (mkLState LockManager_new ∅)
| lreach_step s s' : lreach s -> lstep s s' -> lreach s'.

(** ** Invariants *)

Definition compatible (g : gmap Z LockMode) : Prop :=
  forall x y mx my, g !! x = Some mx -> g !! y = Some my -> x <> y -> conflicts_with mx my = false.

Record queue_ok (bl : gmap Z (Oid * LockMode)) (table : Oid) (e : LockEntry) : Prop := {
  qo_nodup : NoDup (w_xid <$> wait_queue e);
  qo_blocked : forall w, w ∈ wait_queue e -> bl !! w_xid w = Some (table, w_mode w);
  qo_stronger : forall w held, w ∈ wait_queue e -> granted e !! w_xid w = Some held ->
    strength held < strength (w_mode w)
}.

(** The queue's head conflicts with a lock another transaction holds. *)
Definition head_waits (e : LockEntry) : Prop :=
  forall w q, wait_queue e = w :: q -> can_grant e (w_xid w) (w_mode w) = false.

Record entry_inv (bl : gmap Z (Oid * LockMode)) (table : Oid) (e : LockEntry) : Prop := {
  ei_compat : compatible (granted e);
  ei_queue : queue_ok bl table e;
  ei_head : head_waits e
}.

Definition lock_inv (s : LState) : Prop :=
  forall table e, entries (lman s) !! table = Some e ->
    entry_inv (blocked s) table e /\ entry_is_empty e = false.

(** ** Lemmas: modes and grants *)

Lemma conflicts_sym a b : conflicts_with a b = conflicts_with b a.
Proof. by destruct a, b. Qed.

(** Stronger modes conflict with at least as much. *)
Lemma conflicts_mono a b c : strength a <= strength b -> conflicts_with b c = false -> conflicts_with a c = false.
Proof. destruct a, b, c; simpl; done || lia. Qed.

(** [xid] does not hold [mode] or stronger. *)
Definition not_held (e : LockEntry) (xid : TxnId) (mode : LockMode) : Prop :=
  forall held, granted e !! xid = Some held -> strength held < strength mode.

Lemma can_grant_held e xid mode held :
  granted e !! xid = Some held -> strength mode <= strength held -> can_grant e xid mode = true.
Proof. intros He Hs. unfold can_grant. rewrite He, Z.geb_leb, (proj2 (Z.leb_le _ _)) by done. done. Qed.

Lemma can_grant_not_held e xid mode :
  not_held e xid mode ->
  can_grant e xid mode = true <->
    (forall w q, wait_queue e = w :: q -> w_xid w = xid) /\ map_Forall (holder_ok xid mode) (granted e).
Proof.
  intros Hn. unfold can_grant.
  assert (match granted e !! xid with Some held => strength held >=? strength mode | None => false end = false) as ->.
  { destruct (granted e !! xid) as [held|] eqn:E; [|done]. apply Hn in E. rewrite Z.geb_leb. apply Z.leb_gt. lia. }
  destruct (wait_queue e) as [|w q].
  - rewrite bool_decide_eq_true. split; [intros H; split; [done|exact H]|by intros [_ H]].
  - destruct (Z.eqb_spec (w_xid w) xid) as [Hw|Hw]; simpl.
    + rewrite bool_decide_eq_true. split; [intros H; split; [by intros ?? [= <- <-]|exact H]|by intros [_ H]].
    + split; [done|]. intros [H _]. exfalso. by apply Hw, (H w q).
Qed.

Lemma can_grant_cases e xid mode :
  can_grant e xid mode = true ->
  (exists held, granted e !! xid = Some held /\ strength mode <= strength held) \/
  (not_held e xid mode /\ (forall w q, wait_queue e = w :: q -> w_xid w = xid) /\
   map_Forall (holder_ok xid mode) (granted e)).
Proof.
  intros Hc. destruct (granted e !! xid) as [held|] eqn:E.
  - destruct (decide (strength mode <= strength held)); [by left; eauto|right].
    assert (Hn : not_held e xid mode) by (intros h Hh; rewrite E in Hh; injection Hh as <-; lia).
    split; [done|]. by apply can_grant_not_held.
  - right. assert (Hn : not_held e xid mode) by (intros h Hh; congruence).
    split; [done|]. by apply can_grant_not_held.
Qed.

Lemma granted_grant e xid mode :
  exists m, granted (grant e xid mode) = <[xid := m]> (granted e) /\ strength mode <= strength m /\
    (m = mode \/ granted e !! xid = Some m) /\
    forall held, granted e !! xid = Some held -> strength held <= strength m.
Proof.
  unfold grant. simpl. eexists. split; [reflexivity|].
  destruct (granted e !! xid) as [held|]; [rewrite Z.gtb_ltb; destruct (Z.ltb_spec (strength held) (strength mode))|];
    (split; [lia|]); (split; [by auto|]); intros h [= <-]; lia.
Qed.

Lemma grant_compatible e xid mode :
  can_grant e xid mode = true -> compatible (granted e) -> compatible (granted (grant e xid mode)).
Proof.
  intros Hc Hco. destruct (granted_grant e xid mode) as (m & -> & _ & Hm & _).
  assert (Hx : forall y my, granted e !! y = Some my -> y <> xid -> conflicts_with my m = false).
  { intros y my Hy Hne. destruct Hm as [->|Hm]; [|by apply (Hco y xid)].
    apply can_grant_cases in Hc as [(held & Hh & Hs)|(_ & _ & Hf)].
    - rewrite conflicts_sym. apply (conflicts_mono _ held); [done|]. by apply (Hco xid y).
    - destruct (Hf y my Hy); done. }
  intros x y mx my Hx1 Hy1 Hne.
  destruct (decide (x = xid)) as [->|Hx2], (decide (y = xid)) as [->|Hy2]; try done.
  - rewrite lookup_insert_eq in Hx1. rewrite lookup_insert_ne in Hy1 by done. injection Hx1 as <-.
    rewrite conflicts_sym. by apply (Hx y).
  - rewrite lookup_insert_ne in Hx1 by done. rewrite lookup_insert_eq in Hy1. injection Hy1 as <-.
    by apply (Hx x).
  - rewrite lookup_insert_ne in Hx1, Hy1 by done. by apply (Hco x y).
Qed.

(** Other transactions' locks are untouched, the grantee's only grow. *)
Definition grows (g g' : gmap Z LockMode) : Prop :=
  forall x m, g !! x = Some m -> exists m', g' !! x = Some m' /\ strength m <= strength m'.

Lemma grows_refl g : grows g g.
Proof. intros x m Hm. exists m. split; [done|lia]. Qed.

Lemma grows_trans g1 g2 g3 : grows g1 g2 -> grows g2 g3 -> grows g1 g3.
Proof.
  intros H12 H23 x m Hm. apply H12 in Hm as (m2 & Hm & ?). apply H23 in Hm as (m3 & Hm & ?).
  exists m3. split; [done|lia].
Qed.

Lemma grant_grows e xid mode : grows (granted e) (granted (grant e xid mode)).
Proof.
  destruct (granted_grant e xid mode) as (m & -> & _ & _ & Hh). intros x mx Hx.
  destruct (decide (x = xid)) as [->|Hne].
  - exists m. rewrite lookup_insert_eq. split; [done|by apply Hh].
  - exists mx. rewrite lookup_insert_ne by done. split; [done|lia].
Qed.

Lemma lookup_grant_ne e xid mode y : y <> xid -> granted (grant e xid mode) !! y = granted e !! y.
Proof. intros Hne. destruct (granted_grant e xid mode) as (m & -> & _). by rewrite lookup_insert_ne. Qed.

(** ** Lemmas: re-granting the queue *)

Lemma queue_ok_pop bl table e w q :
  wait_queue e = w :: q -> queue_ok bl table e -> queue_ok bl table (grant e (w_xid w) (w_mode w)).
Proof.
  intros Hq [Hn Hb Hs]. rewrite Hq in *. apply NoDup_cons in Hn as [Hn1 Hn2].
  assert (Hwq : wait_queue (grant e (w_xid w) (w_mode w)) = q).
  { unfold grant. simpl. by rewrite Hq, Z.eqb_refl. }
  split; rewrite Hwq; [done|set_solver|].
  intros w' held Hw' Hh. assert (w_xid w' <> w_xid w).
  { intros He. apply Hn1. rewrite <-He. by apply list_elem_of_fmap_2. }
  rewrite lookup_grant_ne in Hh by done. eapply Hs; [set_solver|done].
Qed.

Lemma regrant_loop_spec bl table fuel : forall e,
  compatible (granted e) -> queue_ok bl table e ->
  let e' := regrant_loop fuel e in
  compatible (granted e') /\ queue_ok bl table e' /\ grows (granted e) (granted e') /\
  ((length (wait_queue e) <= fuel)%nat -> head_waits e').
Proof.
  induction fuel as [|fuel IH]; intros e Hco Hq; simpl.
  { split; [done|]. split; [done|]. split; [apply grows_refl|]. intros Hl w q Hwq. rewrite Hwq in Hl. simpl in Hl. lia. }
  destruct (wait_queue e) as [|w q] eqn:Ew.
  { split; [done|]. split; [done|]. split; [apply grows_refl|]. intros _ w q Hwq. congruence. }
  destruct (can_grant e (w_xid w) (w_mode w)) eqn:Ec.
  - destruct (IH (grant e (w_xid w) (w_mode w))) as (H1 & H2 & H3 & H4).
    + by apply grant_compatible.
    + by eapply queue_ok_pop.
    + split; [done|]. split; [done|]. split; [eapply grows_trans; [apply grant_grows|done]|].
      intros Hl. apply H4. unfold grant. simpl. rewrite Ew, Z.eqb_refl. simpl in Hl. lia.
  - split; [done|]. split; [done|]. split; [apply grows_refl|]. intros _ w' q' Hwq. congruence.
Qed.

Lemma regrant_heads_inv bl table e :
  compatible (granted e) -> queue_ok bl table e ->
  entry_inv bl table (regrant_heads e) /\ grows (granted e) (granted (regrant_heads e)).
Proof.
  intros Hco Hq. destruct (regrant_loop_spec bl table (length (wait_queue e)) e Hco Hq) as (H1 & H2 & H3 & H4).
  split; [|done]. split; [done|done|]. by apply H4.
Qed.

Lemma queue_ok_drop bl bl' table e x :
  queue_ok bl table e -> (forall y, y <> x -> bl' !! y = bl !! y) -> queue_ok bl' table (drop_waiter x e).
Proof.
  intros [Hn Hb Hs] He. unfold drop_waiter. split; simpl.
  - clear -Hn. induction (wait_queue e) as [|w q IH]; simpl in *; [done|].
    apply NoDup_cons in Hn as [Hn1 Hn2]. rewrite filter_cons. case_decide; [|auto].
    simpl. constructor; [|auto]. intros Hin. apply Hn1.
    apply list_elem_of_fmap in Hin as (w' & -> & Hw'). apply list_elem_of_filter in Hw' as [_ Hw'].
    by apply list_elem_of_fmap_2.
  - intros w Hw. apply list_elem_of_filter in Hw as [Hne Hw]. rewrite He by done. auto.
  - intros w held Hw. apply list_elem_of_filter in Hw as [_ Hw]. eauto.
Qed.

Lemma compatible_delete x g : compatible g -> compatible (delete x g).
Proof.
  intros Hc y z my mz Hy Hz. apply lookup_delete_Some in Hy as [_ Hy]. apply lookup_delete_Some in Hz as [_ Hz]. eauto.
Qed.

(** ** Lemmas: one acquisition *)

Section acquire.
Context (bl : gmap Z (Oid * LockMode)) (xid : TxnId) (table : Oid) (mode : LockMode).
Hypothesis Hreq : bl !! xid = None \/ bl !! xid = Some (table, mode).

(** A grantable request is not queued. *)
Lemma grantable_not_queued e :
  entry_inv bl table e -> can_grant e xid mode = true -> forall w, w ∈ wait_queue e -> w_xid w <> xid.
Proof.
  intros [Hco [Hn Hb Hs] Hh] Hc w Hw He. pose proof (Hb w Hw) as Hbw. rewrite He in Hbw.
  destruct Hreq as [Hr|Hr]; [congruence|]. rewrite Hr in Hbw. injection Hbw as Hm.
  destruct (wait_queue e) as [|hd q] eqn:Eq; [set_solver|].
  apply can_grant_cases in Hc as [(held & Hg & Hst)|(Hnh & Hhead & Hf)].
  - rewrite <-He in Hg. pose proof (Hs w held Hw Hg). rewrite <-Hm in *. lia.
  - assert (Hhd : w_xid hd = xid) by by apply (Hhead hd q).
    assert (hd = w) as ->.
    { apply elem_of_cons in Hw as [->|Hw]; [done|]. apply NoDup_cons in Hn as [Hn _].
      exfalso. apply Hn. rewrite Hhd, <-He. by apply list_elem_of_fmap_2. }
    assert (Hcf := Hh w q Eq). rewrite He, <-Hm in Hcf.
    assert (Hct : can_grant e xid mode = true); [|congruence].
    apply can_grant_not_held; [done|]. split; [|done]. intros w' q' Hwq. rewrite Eq in Hwq. congruence.
Qed.

Lemma grant_inv e bl' :
  entry_inv bl table e -> can_grant e xid mode = true -> (forall y, y <> xid -> bl' !! y = bl !! y) ->
  entry_inv bl' table (grant e xid mode).
Proof.
  intros Hinv Hc Hbl. pose proof (grantable_not_queued e Hinv Hc) as Hnq. destruct Hinv as [Hco [Hn Hb Hs] Hh].
  assert (Hwq : wait_queue (grant e xid mode) = wait_queue e).
  { unfold grant. simpl. destruct (wait_queue e) as [|w q]; [done|].
    rewrite (proj2 (Z.eqb_neq _ _)); [done|]. apply Hnq. set_solver. }
  split; [by apply grant_compatible| |].
  - split; rewrite Hwq; [done| |].
    + intros w Hw. rewrite Hbl by auto. auto.
    + intros w held Hw Hg. rewrite lookup_grant_ne in Hg by auto. eauto.
  - intros w q Hwq'. rewrite Hwq in Hwq'. pose proof (Hh w q Hwq') as Hcf.
    apply can_grant_cases in Hc as [(held & Hg & Hst)|(Hnh & Hhead & Hf)].
    + assert (grant e xid mode = e) as ->; [|done]. unfold grant. destruct e as [g wq]. simpl in *.
      rewrite Hwq', Hg. rewrite Z.gtb_ltb, (proj2 (Z.ltb_ge _ _)) by done.
      rewrite (insert_id g xid held) by done.
      rewrite (proj2 (Z.eqb_neq _ _)); [done|]. apply Hnq. rewrite Hwq'. set_solver.
    + exfalso. apply (Hnq w); [rewrite Hwq'; set_solver|]. by apply (Hhead w q).
Qed.

Lemma enqueue_inv e :
  entry_inv bl table e -> can_grant e xid mode = false ->
  entry_inv (<[xid := (table, mode)]> bl) table (enqueue_if_absent e xid mode).
Proof.
  intros [Hco [Hn Hb Hs] Hh] Hc.
  assert (Hb' : forall w, w ∈ wait_queue e -> <[xid := (table, mode)]> bl !! w_xid w = Some (table, w_mode w)).
  { intros w Hw. pose proof (Hb w Hw) as Hbw. destruct (decide (w_xid w = xid)) as [He|He].
    - rewrite He in *. rewrite lookup_insert_eq. destruct Hreq as [Hr|Hr]; congruence.
    - by rewrite lookup_insert_ne. }
  unfold enqueue_if_absent. destruct (existsb _ _) eqn:Ex.
  { split; [done| |done]. by split. }
  assert (Hnq : forall w, w ∈ wait_queue e -> w_xid w <> xid).
  { intros w Hw He. apply not_true_iff_false in Ex. apply Ex. apply existsb_exists. exists w.
    split; [by apply list_elem_of_In|by apply Z.eqb_eq]. }
  assert (Hnh : not_held e xid mode).
  { intros held Hg. destruct (decide (strength mode <= strength held)); [|lia].
    rewrite (can_grant_held e xid mode held) in Hc by done. done. }
  split; simpl; [done|split; simpl|].
  - rewrite fmap_app. apply NoDup_app. split; [done|]. split; [|simpl; apply NoDup_singleton].
    intros x Hx Hin. simpl in Hin. apply list_elem_of_singleton in Hin as ->.
    apply list_elem_of_fmap in Hx as (w & Hw & Hin). by apply (Hnq w).
  - intros w Hw. apply elem_of_app in Hw as [Hw|Hw]; [auto|].
    apply list_elem_of_singleton in Hw as ->. simpl. by rewrite lookup_insert_eq.
  - intros w held Hw Hg. apply elem_of_app in Hw as [Hw|Hw]; [eauto|].
    apply list_elem_of_singleton in Hw as ->. simpl in *. by apply Hnh.
  - intros w q Hwq. simpl in Hwq. destruct (wait_queue e) as [|hd rest] eqn:Eq; simpl in Hwq.
    + injection Hwq as <- <-. simpl. apply not_true_iff_false. intros Hct. apply not_true_iff_false in Hc.
      apply Hc. apply can_grant_not_held; [done|]. rewrite Eq.
      apply can_grant_not_held in Hct as [_ Hf]; [|done]. by split.
    + injection Hwq as <- <-. rewrite <-(Hh hd rest Eq). unfold can_grant. simpl. by rewrite Eq.
Qed.

End acquire.

(** ** Lemmas: the interleaved system *)

Lemma entry_nonempty_grant e xid mode : entry_is_empty (grant e xid mode) = false.
Proof.
  unfold entry_is_empty. destruct (granted_grant e xid mode) as (m & -> & _).
  rewrite bool_decide_eq_false_2; [done|]. apply insert_non_empty.
Qed.

Lemma entry_nonempty_enqueue e xid mode : entry_is_empty (enqueue_if_absent e xid mode) = false.
Proof.
  unfold entry_is_empty. apply andb_false_iff. right. apply bool_decide_eq_false_2.
  unfold enqueue_if_absent. destruct (existsb _ _) eqn:E; simpl.
  - intros He. by rewrite He in E.
  - intros He. by apply app_eq_nil in He as [_ He].
Qed.

Lemma default_inv bl table : entry_inv bl table LockEntry_default.
Proof.
  split; [by intros ????|split; simpl; [constructor|set_solver|set_solver]|by intros ???].
Qed.

(** The other tables are unaffected by a change of [xid]'s blocked status. *)
Lemma other_table_inv bl bl' xid table t e :
  (bl !! xid = None \/ exists m, bl !! xid = Some (table, m)) -> t <> table ->
  (forall y, y <> xid -> bl' !! y = bl !! y) -> entry_inv bl t e -> entry_inv bl' t e.
Proof.
  intros Hreq Hne Hbl [Hco [Hn Hb Hs] Hh]. split; [done| |done]. split; [done| |done].
  intros w Hw. rewrite Hbl; [auto|]. intros He. apply Hb in Hw. rewrite He in Hw.
  destruct Hreq as [Hr|[m Hr]]; congruence.
Qed.

(** Setting one table's entry. *)
Lemma lock_inv_insert bl bl' xid table en vi vi' e :
  (bl !! xid = None \/ exists m, bl !! xid = Some (table, m)) ->
  (forall y, y <> xid -> bl' !! y = bl !! y) ->
  lock_inv (mkLState (mkLockManager en vi) bl) -> entry_inv bl' table e -> entry_is_empty e = false ->
  lock_inv (mkLState (mkLockManager (<[table := e]> en) vi') bl').
Proof.
  intros Hreq Hbl Hinv He Hne t e' Ht. simpl in *. destruct (decide (t = table)) as [->|Htn].
  - rewrite lookup_insert_eq in Ht. by injection Ht as <-.
  - rewrite lookup_insert_ne in Ht by done. destruct (Hinv t e' Ht) as [Hi ?]. split; [|done].
    by eapply other_table_inv.
Qed.

Lemma entry_or_default s table :
  lock_inv s -> entry_inv (blocked s) table (default LockEntry_default (entries (lman s) !! table)).
Proof.
  intros Hinv. destruct (entries (lman s) !! table) eqn:E; [by apply Hinv in E as [? _]|apply default_inv].
Qed.

Lemma after_iter_inv s xid table mode :
  lock_inv s -> (blocked s !! xid = None \/ blocked s !! xid = Some (table, mode)) ->
  lock_inv (after_iter xid (table, mode) (acquire_iter xid table mode (lman s)) (blocked s)).
Proof.
  intros Hinv Hreq. destruct s as [[en vi] bl]. simpl in *.
  assert (Hreq' : bl !! xid = None \/ exists m, bl !! xid = Some (table, m)) by (destruct Hreq; eauto).
  assert (Hdel : forall y, y <> xid -> delete xid bl !! y = bl !! y)
    by (intros y Hy; by rewrite lookup_delete_ne).
  pose proof (entry_or_default (mkLState (mkLockManager en vi) bl) table Hinv) as Hent. simpl in Hent.
  unfold acquire_iter, after_iter. simpl. case_bool_decide as Hv; simpl.
  - destruct (en !! table) as [e|] eqn:Ee.
    + apply Hinv in Ee as Hi. destruct Hi as [[Hco Hq Hh] _].
      destruct (regrant_heads_inv (delete xid bl) table (drop_waiter xid e)) as [Hi _];
        [done|by eapply queue_ok_drop|].
      destruct (entry_is_empty (regrant_heads (drop_waiter xid e))) eqn:Em.
      * intros t e' Ht. simpl in *. apply lookup_delete_Some in Ht as [Htn Ht].
        destruct (Hinv t e' Ht) as [? ?]. split; [|done]. by eapply other_table_inv.
      * by eapply lock_inv_insert.
    + intros t e' Ht. simpl in *. destruct (Hinv t e' Ht) as [? ?]. split; [|done].
      eapply other_table_inv; [exact Hreq'| |done|done]. intros ->. congruence.
  - destruct (can_grant _ xid mode) eqn:Ec; simpl.
    + eapply lock_inv_insert; [exact Hreq'|exact Hdel|exact Hinv| |apply entry_nonempty_grant].
      by eapply grant_inv.
    + eapply lock_inv_insert; [exact Hreq'| |exact Hinv|by apply enqueue_inv|apply entry_nonempty_enqueue].
      intros y Hy. by rewrite lookup_insert_ne.
Qed.

Lemma lstep_inv s s' : lock_inv s -> lstep s s' -> lock_inv s'.
Proof.
  intros Hinv Hstep. destruct Hstep as [s xid table mode Hb|s xid table mode Hb|s xid table mode Hb|s xid|s xid].
  - apply after_iter_inv; auto.
  - apply after_iter_inv; auto.
  - destruct s as [[en vi] bl]. simpl in *. unfold try_acquire. simpl.
    pose proof (entry_or_default (mkLState (mkLockManager en vi) bl) table Hinv) as Hent. simpl in Hent.
    destruct (match en !! table with Some e => can_grant e xid mode | None => true end) eqn:Eg; simpl; [|done].
    eapply (lock_inv_insert bl bl xid); [by left|done|exact Hinv| |apply entry_nonempty_grant].
    eapply grant_inv; [by left|done| |done]. by destruct (en !! table).
  - intros t e Ht. simpl in *. unfold release_all in Ht. simpl in Ht. rewrite lookup_omap in Ht.
    apply bind_Some in Ht as (e0 & He0 & Hr). apply Hinv in He0 as [[Hco Hq Hh] _].
    unfold release_entry in Hr. case_if Hr. injection Hr as <-.
    split; [|done]. apply regrant_heads_inv; [by apply compatible_delete|].
    eapply queue_ok_drop; [|done]. destruct Hq as [Hn Hb Hs]. split; [done|done|].
    intros w held Hw Hg. simpl in Hg. apply lookup_delete_Some in Hg as [_ Hg]. eauto.
  - done.
Qed.

Lemma lreach_inv s : lreach s -> lock_inv s.
Proof. induction 1 as [|s s' _ IH Hst]; [by intros ???|by eapply lstep_inv]. Qed.

(** A waiting head conflicts with another holder. *)
Lemma head_conflicts bl table e w q :
  entry_inv bl table e -> wait_queue e = w :: q ->
  exists holder held, granted e !! holder = Some held /\ holder <> w_xid w /\
    conflicts_with held (w_mode w) = true.
Proof.
  intros [Hco [Hn Hb Hs] Hh] Hq. specialize (Hh w q Hq).
  assert (Hnh : not_held e (w_xid w) (w_mode w)).
  { intros held Hg. eapply Hs; [rewrite Hq; set_solver|done]. }
  assert (Hnf : ~ map_Forall (holder_ok (w_xid w) (w_mode w)) (granted e)).
  { intros Hf. apply not_true_iff_false in Hh. apply Hh. apply can_grant_not_held; [done|].
    split; [|done]. intros w' q' Hwq. congruence. }
  apply map_not_Forall in Hnf as (holder & held & Hg & Hno); [|apply _].
  exists holder, held. unfold holder_ok in Hno. split; [done|]. split; [tauto|].
  apply not_false_iff_true. tauto.
Qed.

(** ** Lemmas: locks over time *)

Lemma regrant_grows fuel : forall e, grows (granted e) (granted (regrant_loop fuel e)).
Proof.
  induction fuel as [|fuel IH]; intros e; simpl; [apply grows_refl|].
  destruct (wait_queue e) as [|w q]; [apply grows_refl|].
  destruct (can_grant _ _ _); [|apply grows_refl]. eapply grows_trans; [apply grant_grows|apply IH].
Qed.

(** Re-granting only serves queued transactions. *)
Lemma regrant_only x fuel : forall e,
  (forall w, w ∈ wait_queue e -> w_xid w <> x) ->
  granted (regrant_loop fuel e) !! x = granted e !! x /\
  forall w, w ∈ wait_queue (regrant_loop fuel e) -> w_xid w <> x.
Proof.
  induction fuel as [|fuel IH]; intros e Hq; simpl; [done|].
  destruct (wait_queue e) as [|w q] eqn:Ew; [by rewrite Ew|].
  destruct (can_grant _ _ _); [|by rewrite Ew].
  destruct (IH (grant e (w_xid w) (w_mode w))) as [Hg Hw].
  - unfold grant. simpl. rewrite Ew, Z.eqb_refl. intros w' Hw'. apply Hq. set_solver.
  - split; [|done]. rewrite Hg. apply lookup_grant_ne. intros Hx. apply (Hq w); [set_solver|done].
Qed.

Definition entry_grows (o o' : option LockEntry) (x : TxnId) : Prop :=
  forall e m, o = Some e -> granted e !! x = Some m ->
    exists e' m', o' = Some e' /\ granted e' !! x = Some m' /\ strength m <= strength m'.

Lemma is_granted_grows x t m lm lm' :
  entry_grows (entries lm !! t) (entries lm' !! t) x ->
  is_granted x t m lm = true -> is_granted x t m lm' = true.
Proof.
  intros Hg. unfold is_granted. destruct (entries lm !! t) as [e|] eqn:E; [|done].
  destruct (granted e !! x) as [h|] eqn:Eh; [|done].
  destruct (Hg e h eq_refl Eh) as (e' & h' & -> & -> & Hs). rewrite !Z.geb_leb, !Z.leb_le. lia.
Qed.

Lemma insert_grows x t t' (en : gmap Z LockEntry) e e' :
  (t = t' -> en !! t = Some e \/ (en !! t = None /\ e = LockEntry_default)) ->
  grows (granted e) (granted e') -> entry_grows (en !! t) (<[t' := e']> en !! t) x.
Proof.
  intros He Hg. destruct (decide (t = t')) as [->|Hne].
  - rewrite lookup_insert_eq. intros e0 m H0 Hm. destruct (He eq_refl) as [H1|[H1 _]]; [|congruence].
    rewrite H1 in H0. injection H0 as <-. apply Hg in Hm as (m' & ? & ?). eauto.
  - rewrite lookup_insert_ne by done. intros e0 m H0 Hm. exists e0, m. split; [done|]. split; [done|lia].
Qed.

Lemma entry_grows_refl o x : entry_grows o o x.
Proof. intros e m He Hm. exists e, m. split; [done|]. split; [done|lia]. Qed.

Lemma default_case t (en : gmap Z LockEntry) :
  en !! t = Some (default LockEntry_default (en !! t)) \/
  (en !! t = None /\ default LockEntry_default (en !! t) = LockEntry_default).
Proof. destruct (en !! t); auto. Qed.

Lemma nonempty_of_granted e x m : granted e !! x = Some m -> entry_is_empty e = false.
Proof.
  intros Hm. unfold entry_is_empty. rewrite bool_decide_eq_false_2; [done|].
  intros He. by rewrite He, lookup_empty in Hm.
Qed.

Lemma acquire_iter_grows xid table mode lm x t :
  entry_grows (entries lm !! t) (entries (snd (acquire_iter xid table mode lm)) !! t) x.
Proof.
  unfold acquire_iter. case_bool_decide; simpl.
  - destruct (entries lm !! table) as [e|] eqn:Ee; [|apply entry_grows_refl].
    destruct (entry_is_empty _) eqn:Em.
    + destruct (decide (t = table)) as [->|Hne].
      * intros e0 m H0 Hm. rewrite Ee in H0. injection H0 as <-.
        destruct (regrant_grows (length (wait_queue (drop_waiter xid e))) (drop_waiter xid e) x m Hm) as (m' & Hm' & _).
        unfold regrant_heads in Em. rewrite (nonempty_of_granted _ _ _ Hm') in Em. done.
      * rewrite lookup_delete_ne by done. apply entry_grows_refl.
    + apply (insert_grows x t table _ e); [intros ->; auto|apply (regrant_grows _ (drop_waiter xid e))].
  - destruct (can_grant _ _ _); simpl.
    + apply (insert_grows x t table _ (default LockEntry_default (entries lm !! table))); [intros ->; apply default_case|apply grant_grows].
    + apply (insert_grows x t table _ (default LockEntry_default (entries lm !! table))); [intros ->; apply default_case|].
      unfold enqueue_if_absent. destruct (existsb _ _); apply grows_refl.
Qed.

Lemma try_acquire_grows xid table mode lm x t :
  entry_grows (entries lm !! t) (entries (snd (try_acquire xid table mode lm)) !! t) x.
Proof.
  unfold try_acquire.
  destruct (match entries lm !! table with Some e => can_grant e xid mode | None => true end); simpl;
    [|apply entry_grows_refl].
  apply (insert_grows x t table _ (default LockEntry_default (entries lm !! table))); [intros ->; apply default_case|apply grant_grows].
Qed.

Lemma release_other_grows xid lm x t :
  x <> xid -> entry_grows (entries lm !! t) (entries (release_all xid lm) !! t) x.
Proof.
  intros Hne e m He Hm. unfold release_all. simpl. rewrite lookup_omap, He. simpl. unfold release_entry.
  set (e1 := drop_waiter xid _).
  assert (Hm1 : granted e1 !! x = Some m) by (unfold e1; simpl; by rewrite lookup_delete_ne).
  destruct (regrant_grows (length (wait_queue e1)) e1 x m Hm1) as (m' & Hm' & Hs).
  unfold regrant_heads. rewrite (nonempty_of_granted _ _ _ Hm'). eauto.
Qed.

Lemma release_own xid lm t e :
  entries (release_all xid lm) !! t = Some e ->
  granted e !! xid = None /\ forall w, w ∈ wait_queue e -> w_xid w <> xid.
Proof.
  unfold release_all. simpl. rewrite lookup_omap. intros Ht. apply bind_Some in Ht as (e0 & _ & Hr).
  unfold release_entry in Hr. case_if Hr. injection Hr as <-. set (e1 := drop_waiter xid _).
  destruct (regrant_only xid (length (wait_queue e1)) e1) as [Hg Hw].
  - intros w Hw. unfold e1 in Hw. simpl in Hw. by apply list_elem_of_filter in Hw as [? _].
  - split; [|done]. unfold regrant_heads. rewrite Hg. unfold e1. simpl. apply lookup_delete_eq.
Qed.

(** ** Properties *)

(** C31: the lock manager is safe and never loses a grant.  In every
    interleaving of acquisitions, wake-ups, try-acquisitions, releases and victim
    marks: two transactions never hold conflicting modes on a table; a
    transaction is queued at most once; a queued request is stronger than what
    its transaction holds; the head of every queue conflicts with a lock held by
    another transaction (so no grantable waiter is ever left asleep); and no
    empty entry is kept. *)
Theorem lock_manager_safe s table e :
  lreach s -> entries (lman s) !! table = Some e ->
  (forall x y mx my, granted e !! x = Some mx -> granted e !! y = Some my -> x <> y ->
     conflicts_with mx my = false) /\
  NoDup (w_xid <$> wait_queue e) /\
  (forall w held, w ∈ wait_queue e -> granted e !! w_xid w = Some held ->
     strength held < strength (w_mode w)) /\
  (forall w q, wait_queue e = w :: q -> exists holder held,
     granted e !! holder = Some held /\ holder <> w_xid w /\ conflicts_with held (w_mode w) = true) /\
  (granted e <> ∅ \/ wait_queue e <> []).
Proof.
  intros Hr He. apply lreach_inv in Hr. destruct (Hr table e He) as [Hinv Hne].
  pose proof Hinv as [Hco [Hn Hb Hs] Hh]. split; [done|]. split; [done|]. split; [done|]. split.
  - intros w q Hq. by eapply head_conflicts.
  - unfold entry_is_empty in Hne. apply andb_false_iff in Hne as [Hne|Hne]; apply bool_decide_eq_false in Hne; auto.
Qed.

(** Two readers share a table; a writer of the whole table queues. *)
Definition demo_locks : LState :=
  let s1 := after_iter 1 (9, AccessShare) (acquire_iter 1 9 AccessShare LockManager_new) ∅ in
  let s2 := after_iter 2 (9, AccessShare) (acquire_iter 2 9 AccessShare (lman s1)) (blocked s1) in
  after_iter 3 (9, AccessExclusive) (acquire_iter 3 9 AccessExclusive (lman s2)) (blocked s2).

Lemma demo_locks_reach : lreach demo_locks.
Proof.
  unfold demo_locks. cbv zeta.
  eapply lreach_step; [|apply lstep_acquire; vm_compute; reflexivity].
  eapply lreach_step; [|apply lstep_acquire; vm_compute; reflexivity].
  eapply lreach_step; [apply lreach_init|]. apply (lstep_acquire (mkLState LockManager_new ∅) 1 9 AccessShare).
  reflexivity.
Qed.

Lemma lock_manager_safe_witness :
  exists e, entries (lman demo_locks) !! 9 = Some e /\ wait_queue e = [mkWaiter 3 AccessExclusive] /\
    exists holder held, granted e !! holder = Some held /\ holder <> 3 /\ conflicts_with held AccessExclusive = true.
Proof.
  destruct (entries (lman demo_locks) !! 9) as [e|] eqn:E; [|vm_compute in E; discriminate].
  exists e. split; [done|].
  assert (Hq : wait_queue e = [mkWaiter 3 AccessExclusive]) by (vm_compute in E; by injection E as <-).
  split; [done|].
  destruct (lock_manager_safe demo_locks 9 e demo_locks_reach E) as (_ & _ & _ & H & _).
  apply (H _ _ Hq).
Defined.

(** first come, first served.  While a table's queue is not empty, a new
    request of a transaction that does not already hold the mode (and is not a
    deadlock victim) never jumps ahead: it goes to sleep and is appended at the
    end of the queue, whatever its mode; [try_acquire] fails and changes nothing. *)
Theorem lock_fifo s table e xid mode :
  entries (lman s) !! table = Some e -> wait_queue e <> [] ->
  (forall w, w ∈ wait_queue e -> w_xid w <> xid) -> not_held e xid mode -> xid ∉ victims (lman s) ->
  acquire_iter xid table mode (lman s) =
    (None, mkLockManager (<[table := mkEntry (granted e) (wait_queue e ++ [mkWaiter xid mode])]> (entries (lman s)))
             (victims (lman s))) /\
  try_acquire xid table mode (lman s) = (false, lman s).
Proof.
  intros He Hq Hnq Hnh Hv.
  assert (Hc : can_grant e xid mode = false).
  { apply not_true_iff_false. intros Hc. apply can_grant_not_held in Hc as [Hh _]; [|done].
    destruct (wait_queue e) as [|w q] eqn:Eq; [done|]. apply (Hnq w); [set_solver|]. by apply (Hh w q). }
  split.
  - unfold acquire_iter. rewrite bool_decide_eq_false_2 by done. rewrite He. simpl. rewrite Hc.
    do 3 f_equal. unfold enqueue_if_absent. destruct (existsb _ _) eqn:Ex; [|done].
    apply existsb_exists in Ex as (w & Hw & Hx). apply Z.eqb_eq in Hx.
    exfalso. apply (Hnq w); [by apply list_elem_of_In|done].
  - unfold try_acquire. by rewrite He, Hc.
Qed.

(** A reader arriving behind the queued writer does not barge in. *)
Lemma lock_fifo_witness : fst (acquire_iter 4 9 AccessShare (lman demo_locks)) = None.
Proof.
  destruct (entries (lman demo_locks) !! 9) as [e|] eqn:E; [|vm_compute in E; discriminate].
  assert (He : e = mkEntry {[1 := AccessShare; 2 := AccessShare]} [mkWaiter 3 AccessExclusive]).
  { vm_compute in E. injection E as <-. vm_compute. reflexivity. }
  destruct (lock_fifo demo_locks 9 e 4 AccessShare E) as [H _].
  - by rewrite He.
  - rewrite He. intros w Hw. apply list_elem_of_singleton in Hw as ->. done.
  - rewrite He. intros held Hh. vm_compute in Hh. discriminate.
  - vm_compute. done.
  - by rewrite H.
Defined.

(** Two-phase locking.  No step of the system other than the transaction's
    own [release_all] takes a lock away from it or weakens it; its own
    [release_all] removes every lock it holds and every request it has queued. *)
Theorem lock_two_phase s s' x table m :
  lstep s s' -> is_granted x table m (lman s) = true ->
  is_granted x table m (lman s') = true \/
  (lman s' = release_all x (lman s) /\
   forall t e, entries (lman s') !! t = Some e ->
     granted e !! x = None /\ forall w, w ∈ wait_queue e -> w_xid w <> x).
Proof.
  intros Hst Hg. destruct Hst as [s xid t mode Hb|s xid t mode Hb|s xid t mode Hb|s xid|s xid]; simpl.
  - left. unfold after_iter. pose proof (acquire_iter_grows xid t mode (lman s) x table) as Hgr.
    destruct (acquire_iter xid t mode (lman s)) as [[r|] lm']; simpl in *; by eapply is_granted_grows.
  - left. unfold after_iter. pose proof (acquire_iter_grows xid t mode (lman s) x table) as Hgr.
    destruct (acquire_iter xid t mode (lman s)) as [[r|] lm']; simpl in *; by eapply is_granted_grows.
  - left. eapply is_granted_grows; [apply try_acquire_grows|done].
  - destruct (decide (x = xid)) as [->|Hne].
    + right. split; [done|]. intros t e He. by apply release_own in He.
    + left. eapply is_granted_grows; [by apply release_other_grows|done].
  - by left.
Qed.

Lemma lock_two_phase_witness :
  is_granted 1 9 AccessShare (release_all 2 (lman demo_locks)) = true.
Proof.
  pose proof (lock_two_phase demo_locks (mkLState (release_all 2 (lman demo_locks)) (blocked demo_locks))
    1 9 AccessShare (lstep_release demo_locks 2)) as H.
  destruct H as [H|[H _]].
  - vm_compute. reflexivity.
  - exact H.
  - exfalso. apply (f_equal (fun l => is_granted 1 9 AccessShare l)) in H. vm_compute in H. discriminate.
Defined.
