(* ===== verification/Deadlock.v ===== *)
(** * The deadlock detector

    Models [pg-txn/src/deadlock.rs]: the wait-for graph merged from the row-wait
    registry and the contended table locks, the iterative depth-first cycle
    search, and the victim selection with its re-verification.  The DFS stack is
    the list of (node, cursor) pairs with the top first; the search is its loop
    body iterated with the fuel [dfs_fuel], running out of which is the outcome
    [None], proved never to occur. *)

From S2P Require Import Prelude Types TxnManager LockManager.
Local Open Scope Z_scope.

(** ** The wait-for graph *)

Definition table_edges (state : TableLockState) : list (TxnId * TxnId) :=
  waiter ← ts_waiters state;
  holder ← ts_granted state;
  if negb (fst holder =? fst waiter) && conflicts_with (snd holder) (snd waiter)
  then [(fst waiter, fst holder)] else [].

Definition wait_for_edges {C W : Type} (txn : TxnManager C W) (lock_manager : LockManager) : list (TxnId * TxnId) :=
  let edges := wait_edges txn ++ (ts ← table_lock_states lock_manager; table_edges (snd ts)) in
  dedup (merge_sort edge_le edges).

(** ** Cycle search *)

Abbreviation Adjacency := (gmap Z (list Z)) (only parsing).

Definition push_edge (adj : Adjacency) (e : TxnId * TxnId) : Adjacency :=
  <[fst e := default [] (adj !! fst e) ++ [snd e]]> adj.

Definition adjacency (edges : list (TxnId * TxnId)) : Adjacency :=
  (fun targets => dedup (zsort targets)) <$> foldl push_edge ∅ edges.

Inductive Color := White | Gray | Black.

#[export] Instance Color_eq_dec : EqDecision Color.
Proof. solve_decision. Defined.

Definition color_of (color : gmap Z Color) (v : Z) : Color := default White (color !! v).

Definition children (adj : Adjacency) (v : Z) : list Z := default [] (adj !! v).

Record Dfs := mkDfs {
  color : gmap Z Color;
  stack : list (Z * nat);
  cycles : list (list Z)
}.

(** [path[pos..]] for the position of [next] on the gray chain; [None] is the
    panic of the [expect]. *)
Definition cycle_slice (stk : list (Z * nat)) (next : Z) : option (list Z) :=
  let path := reverse (fst <$> stk) in
  match list_find (fun n => n = next) path with
  | Some (pos, _) => Some (drop pos path)
  | None => None
  end.

(** The body of the [while let] loop, for the path [(node, cursor) :: below];
    [None] when the [expect] panics. *)
Definition dfs_body (adj : Adjacency) (d : Dfs) (node : Z) (cursor : nat) (below : list (Z * nat)) : option Dfs :=
  match children adj node !! cursor with
  | Some next =>
      let stk := (node, S cursor) :: below in
      match color_of (color d) next with
      | Gray =>
          match cycle_slice stk next with
          | Some c => Some (mkDfs (color d) stk (cycles d ++ [c]))
          | None => None
          end
      | White => Some (mkDfs (<[next := Gray]> (color d)) ((next, O) :: stk) (cycles d))
      | Black => Some (mkDfs (color d) stk (cycles d))
      end
  | None => Some (mkDfs (<[node := Black]> (color d)) below (cycles d))
  end.

(** [while let Some(&node) = path.last()].  The loop returns when the path is
    empty and only then: [None] is a run that did not return, because the fuel
    ran out with nodes still on the path or because the body panicked. *)
Fixpoint dfs_loop (fuel : nat) (adj : Adjacency) (d : Dfs) : option Dfs :=
  match stack d with
  | [] => Some d
  | (node, cursor) :: below =>
      match fuel with
      | O => None
      | S fuel => dfs_body adj d node cursor below ≫= dfs_loop fuel adj
      end
  end.

(** All endpoints, and one iteration per cursor position plus two per node. *)
Definition vertices (edges : list (TxnId * TxnId)) : list Z :=
  dedup (zsort ((fst <$> edges) ++ (snd <$> edges))).

Definition dfs_fuel (adj : Adjacency) (vs : list Z) : nat :=
  sum_list_with (fun v => length (children adj v) + 2)%nat vs.

Definition visit (fuel : nat) (adj : Adjacency) (d : Dfs) (start : Z) : option Dfs :=
  if decide (color_of (color d) start = White)
  then dfs_loop fuel adj (mkDfs (<[start := Gray]> (color d)) [(start, O)] (cycles d))
  else Some d.

(** [for start in nodes]. *)
Fixpoint visit_all (fuel : nat) (adj : Adjacency) (d : Dfs) (nodes : list Z) : option Dfs :=
  match nodes with
  | [] => Some d
  | start :: rest => visit fuel adj d start ≫= fun d => visit_all fuel adj d rest
  end.

(** [None]: the search panicked or its loop did not finish within the fuel. *)
Definition find_cycles (edges : list (TxnId * TxnId)) : option (list (list TxnId)) :=
  let adj := adjacency edges in
  let nodes := zsort (elements (dom adj)) in
  let fuel := dfs_fuel adj (vertices edges) in
  cycles <$> visit_all fuel adj (mkDfs ∅ [] []) nodes.

(** ** Victims *)

(** [cycle.iter().zip(cycle.iter().cycle().skip(1))]. *)
Definition cycle_edges (cycle : list Z) : list (Z * Z) :=
  zip cycle (drop 1 cycle ++ take 1 cycle).

(** [cycle.iter().max()]. *)
Definition youngest (cycle : list Z) : option Z :=
  match cycle with
  | [] => None
  | x :: rest => Some (foldl Z.max x rest)
  end.

Definition mark_one (act : gset Z) (fresh : list (Z * Z)) (victims : gset Z) (cycle : list Z) : res Empty_set (gset Z) :=
  match youngest cycle with
  | None => Panic
  | Some victim =>
      if bool_decide (victim ∈ victims) then Ok victims
      else if negb (bool_decide (victim ∈ act)) then Ok victims
      else if negb (forallb (fun e => bool_decide (e ∈ fresh)) (cycle_edges cycle)) then Ok victims
      else Ok ({[victim]} ∪ victims)
  end.

Fixpoint mark_victims (act : gset Z) (fresh : list (Z * Z)) (cycles : list (list Z)) (victims : gset Z)
    : res Empty_set (gset Z) :=
  match cycles with
  | [] => Ok victims
  | cycle :: rest => res_bind (mark_one act fresh victims cycle) (mark_victims act fresh rest)
  end.

(** One tick: [m], [lm] are what the first snapshot reads, [m'], [lm'] what the
    re-verification reads. *)
Definition tick {C W : Type} (m : TxnManager C W) (lm : LockManager) (m' : TxnManager C W) (lm' : LockManager)
    (victims : gset Z) : res Empty_set (gset Z) :=
  let victims := filter (fun x => x ∈ active m) victims in
  let edges := wait_for_edges m lm in
  if bool_decide (edges = []) then Ok victims
  else
    match find_cycles edges with
    | None => Panic
    | Some cycles =>
        if bool_decide (cycles = []) then Ok victims
        else
          let fresh := wait_for_edges m' lm' in
          mark_victims (active m') fresh cycles victims
    end.

(** ** Specification: cycles of a graph *)

(** [cycle] is a closed walk of the graph through distinct nodes. *)
Definition is_cycle (edges : list (Z * Z)) (cycle : list Z) : Prop :=
  cycle <> [] /\ NoDup cycle /\ forall e, e ∈ cycle_edges cycle -> e ∈ edges.

(** The edge that closes a reported cycle: from its last node to its first. *)
Definition closing_edge (cycle : list Z) : option (Z * Z) :=
  match last cycle, head cycle with
  | Some a, Some b => Some (a, b)
  | _, _ => None
  end.

Definition closing (cycles : list (list Z)) : list (Z * Z) := omap closing_edge cycles.

(** ** Lemmas: adjacency *)

Lemma push_edges_spec edges : forall adj v u,
  u ∈ default [] (foldl push_edge adj edges !! v) <-> u ∈ default [] (adj !! v) \/ (v, u) ∈ edges.
Proof.
  induction edges as [|[a b] edges IH]; intros adj v u; simpl.
  { split; [by left|]. intros [?|?]; [done|set_solver]. }
  rewrite IH. unfold push_edge. cbn [fst snd]. destruct (decide (v = a)) as [->|Hne].
  - rewrite lookup_insert_eq. simpl. set_solver.
  - rewrite lookup_insert_ne by done. set_solver.
Qed.

Lemma push_edges_dom edges : forall adj v,
  v ∈ dom (foldl push_edge adj edges) <-> v ∈ dom adj \/ exists u, (v, u) ∈ edges.
Proof.
  induction edges as [|[a b] edges IH]; intros adj v; simpl.
  { split; [by left|]. intros [?|[u Hu]]; [done|set_solver]. }
  rewrite IH. unfold push_edge. cbn [fst snd]. rewrite dom_insert. set_solver.
Qed.

Lemma children_spec edges v u : u ∈ children (adjacency edges) v <-> (v, u) ∈ edges.
Proof.
  unfold children, adjacency. rewrite lookup_fmap.
  pose proof (push_edges_spec edges ∅ v u) as H. rewrite lookup_empty in H. simpl in H.
  destruct (foldl push_edge ∅ edges !! v) as [l|]; simpl in *.
  - rewrite elem_of_dedup, elem_of_zsort. set_solver.
  - set_solver.
Qed.

Lemma dom_adjacency edges v : v ∈ dom (adjacency edges) <-> exists u, (v, u) ∈ edges.
Proof.
  unfold adjacency. rewrite dom_fmap, push_edges_dom, dom_empty. set_solver.
Qed.

Lemma vertices_spec edges v : v ∈ vertices edges <-> exists u, (v, u) ∈ edges \/ (u, v) ∈ edges.
Proof.
  unfold vertices. rewrite elem_of_dedup, elem_of_zsort, elem_of_app, !list_elem_of_fmap.
  split.
  - intros [([a b] & -> & ?)|([a b] & -> & ?)]; simpl; eauto.
  - intros [u [?|?]]; [left; exists (v, u)|right; exists (u, v)]; done.
Qed.

Lemma vertices_nodup edges : NoDup (vertices edges).
Proof. apply dedup_sorted_nodup, zsort_sorted. Qed.

(** ** Lemmas: the edges of a cycle *)

Lemma cycle_edges_spec c a b :
  (a, b) ∈ cycle_edges c <->
    (exists i : nat, c !! i = Some a /\ c !! S i = Some b) \/ (last c = Some a /\ head c = Some b).
Proof.
  unfold cycle_edges. destruct c as [|x rest].
  { simpl. split; [set_solver|]. intros [(i & ? & ?)|[? ?]]; done. }
  change (drop 1 (x :: rest)) with rest. change (take 1 (x :: rest)) with [x].
  assert (Hl : length (rest ++ [x]) = S (length rest)) by (rewrite length_app; simpl; lia).
  split.
  - intros Hin. apply list_elem_of_lookup in Hin as [i Hi]. apply lookup_zip_with_Some in Hi as (a' & b' & [= <- <-] & Ha & Hb).
    apply lookup_app_Some in Hb as [Hb|[Hle Hb]].
    + left. exists i. split; [done|exact Hb].
    + right. destruct (i - length rest)%nat eqn:E; [|done]. simpl in Hb. injection Hb as <-.
      split; [|done]. rewrite last_lookup. simpl. assert (i = length rest) as -> by lia. done.
  - intros [(i & Ha & Hb)|[Ha Hb]].
    + apply list_elem_of_lookup. exists i. apply lookup_zip_with_Some. exists a, b. split; [done|].
      split; [done|]. simpl in Hb. by apply lookup_app_l_Some.
    + apply list_elem_of_lookup. exists (length rest). apply lookup_zip_with_Some. exists a, b.
      rewrite last_lookup in Ha. simpl in Ha, Hb. injection Hb as <-.
      split; [done|]. split; [done|]. by apply list_lookup_middle.
Qed.

Lemma cycle_successor c v : v ∈ c -> exists w, w ∈ c /\ (v, w) ∈ cycle_edges c.
Proof.
  intros Hv. apply list_elem_of_lookup in Hv as [i Hi]. apply lookup_lt_Some in Hi as Hlt.
  destruct (c !! S i) as [w|] eqn:Ew.
  - exists w. split; [by eapply list_elem_of_lookup_2|]. apply cycle_edges_spec. eauto.
  - apply lookup_ge_None in Ew. destruct c as [|x rest]; [done|]. exists x. split; [set_solver|].
    apply cycle_edges_spec. right. split; [|done]. rewrite last_lookup.
    assert (i = pred (length (x :: rest))) as <- by (simpl in *; lia). done.
Qed.

Lemma closing_app cs c : closing (cs ++ [c]) = closing cs ++ closing [c].
Proof. unfold closing. by rewrite omap_app. Qed.

(** The graph without the edges [cut]; a node from which every walk in it is
    finite is on no cycle that avoids the cut. *)
Definition waits_on (edges cut : list (Z * Z)) (y x : Z) : Prop := (x, y) ∈ edges /\ (x, y) ∉ cut.

Lemma waits_on_cut edges cut cut' v :
  Acc (waits_on edges cut) v -> (forall e, e ∈ cut -> e ∈ cut') -> Acc (waits_on edges cut') v.
Proof. induction 1 as [v _ IH]. intros Hc. constructor. intros w [He Hn]. apply IH; [split; auto|done]. Qed.

Lemma acc_cycle_cut edges cut v :
  Acc (waits_on edges cut) v -> forall c, is_cycle edges c -> v ∈ c -> exists e, e ∈ cut /\ e ∈ cycle_edges c.
Proof.
  induction 1 as [v _ IH]. intros c Hc Hv. destruct (cycle_successor c v Hv) as (w & Hw & He).
  destruct (decide ((v, w) ∈ cut)) as [Hin|Hn]; [eauto|].
  apply (IH w); [|done|done]. split; [by apply Hc|done].
Qed.

(** ** Lemmas: the search *)

Section search.
Context (edges : list (Z * Z)).
Let adj := adjacency edges.
Let vs := vertices edges.

(** Consecutive stack nodes, top first, are connected. *)
Fixpoint chain (l : list Z) : Prop :=
  match l with
  | v :: ((u :: _) as rest) => v ∈ children adj u /\ chain rest
  | _ => True
  end.

(** Children a frame has passed are finished, or the node just above it, or the
    edge to them has been reported as closing a cycle. *)
Fixpoint frames_done (cut : list (Z * Z)) (col : gmap Z Color) (above : option Z) (stk : list (Z * nat)) : Prop :=
  match stk with
  | [] => True
  | (v, c) :: below =>
      (forall i w, (i < c)%nat -> children adj v !! i = Some w ->
         color_of col w = Black \/ above = Some w \/ (v, w) ∈ cut) /\
      frames_done cut col (Some v) below
  end.

Record dfs_inv (d : Dfs) : Prop := {
  di_gray : forall v, color_of (color d) v = Gray <-> v ∈ fst <$> stack d;
  di_nodup : NoDup (fst <$> stack d);
  di_chain : chain (fst <$> stack d);
  di_vertices : forall v, v ∈ fst <$> stack d -> v ∈ vs;
  di_cursor : Forall (fun f => snd f <= length (children adj (fst f)))%nat (stack d);
  di_sound : Forall (is_cycle edges) (cycles d);
  di_frames : frames_done (closing (cycles d)) (color d) None (stack d);
  di_black : forall v, color_of (color d) v = Black -> Acc (waits_on edges (closing (cycles d))) v
}.

Lemma chain_lookup l : chain l -> forall (i : nat) v u,
  l !! i = Some v -> l !! S i = Some u -> v ∈ children adj u.
Proof.
  induction l as [|x l IH]; intros Hc i v u Hv Hu; [done|].
  destruct l as [|y l]; [by destruct i|]. destruct Hc as [Hxy Hc].
  destruct i as [|i]; simpl in *; [congruence|]. by apply (IH Hc i).
Qed.

Lemma color_insert col x k v : color_of (<[x := k]> col) v = if decide (v = x) then k else color_of col v.
Proof.
  unfold color_of. case_decide; subst; [by rewrite lookup_insert_eq|by rewrite lookup_insert_ne].
Qed.

Lemma frames_done_mono cut cut' col col' above stk :
  (forall v, color_of col v = Black -> color_of col' v = Black) -> (forall e, e ∈ cut -> e ∈ cut') ->
  frames_done cut col above stk -> frames_done cut' col' above stk.
Proof.
  intros Hm Hc. revert above. induction stk as [|[v c] stk IH]; intros above; simpl; [done|].
  intros [H1 H2]. split; [|auto]. intros i w Hi Hw. destruct (H1 i w Hi Hw) as [?|[?|?]]; auto.
Qed.

Lemma cycle_slice_sound node cursor below next :
  NoDup (node :: (fst <$> below)) -> chain (node :: (fst <$> below)) ->
  next ∈ node :: (fst <$> below) -> (node, next) ∈ edges ->
  exists c, cycle_slice ((node, cursor) :: below) next = Some c /\ is_cycle edges c /\
    closing [c] = [(node, next)].
Proof.
  intros Hnd Hch Hin He. unfold cycle_slice.
  change (fst <$> (node, cursor) :: below) with (node :: (fst <$> below)).
  set (l := node :: (fst <$> below)) in *.
  destruct (list_find_elem_of (fun n => n = next) (reverse l) next) as [[pos x] Hf];
    [by apply elem_of_reverse|done|].
  rewrite Hf. apply list_find_Some in Hf as (Hpos & -> & _).
  apply lookup_lt_Some in Hpos as Hlt. eexists. split; [done|].
  assert (Hhead : head (drop pos (reverse l)) = Some next).
  { by rewrite head_lookup, lookup_drop, Nat.add_0_r. }
  rewrite length_reverse in Hlt.
  assert (Hlast : last (drop pos (reverse l)) = Some node).
  { rewrite last_lookup, length_drop, lookup_drop, length_reverse, reverse_lookup by lia.
    by replace (length l - S (pos + pred (length l - pos)))%nat with O by lia. }
  split; [|unfold closing, closing_edge; simpl; by rewrite Hlast, Hhead]. split; [|split].
  - intros Hd. by rewrite Hd in Hhead.
  - eapply sublist_NoDup; [|apply sublist_drop]. by rewrite reverse_Permutation.
  - intros [a b] Hab. apply cycle_edges_spec in Hab as [(i & Ha & Hb)|[Ha Hb]]; [|congruence].
    rewrite lookup_drop in Ha, Hb.
    apply lookup_lt_Some in Hb as Hblt. rewrite length_reverse in Hblt.
    rewrite reverse_lookup in Ha, Hb by lia.
    apply children_spec. apply (chain_lookup l Hch (length l - S (pos + S i))%nat); [done|].
    by replace (S (length l - S (pos + S i)))%nat with (length l - S (pos + i))%nat by lia.
Qed.

Lemma in_stack_vertices d node cursor below next :
  dfs_inv d -> stack d = (node, cursor) :: below -> children adj node !! cursor = Some next ->
  (node, next) ∈ edges /\ next ∈ vs /\ (S cursor <= length (children adj node))%nat.
Proof.
  intros Hd Hs Hn. assert (He : (node, next) ∈ edges).
  { apply children_spec. by eapply list_elem_of_lookup_2. }
  split; [done|]. split; [apply vertices_spec; eauto|]. by apply lookup_lt_Some in Hn.
Qed.

(** The three moves keep the invariant. *)
Lemma dfs_push_inv d node cursor below next :
  dfs_inv d -> stack d = (node, cursor) :: below -> children adj node !! cursor = Some next ->
  color_of (color d) next = White ->
  dfs_inv (mkDfs (<[next := Gray]> (color d)) ((next, O) :: (node, S cursor) :: below) (cycles d)).
Proof.
  intros Hd Hs Hn Hw. destruct (in_stack_vertices _ _ _ _ _ Hd Hs Hn) as (He & Hv & Hc).
  destruct Hd as [Hg Hnd Hch Hvs Hcu Hso Hfr Hbl]. rewrite Hs in *. simpl in *.
  assert (Hnin : next ∉ node :: (fst <$> below)) by (intros Hin; apply Hg in Hin; congruence).
  split; simpl.
  - intros v. rewrite color_insert. case_decide as Hd; [subst; set_solver|]. rewrite Hg. set_solver.
  - constructor; [done|done].
  - split; [|done]. by apply children_spec.
  - intros v Hin. apply elem_of_cons in Hin as [->|Hin]; auto.
  - apply Forall_cons in Hcu as [_ Hcu]. repeat constructor; simpl; [lia|done|done].
  - done.
  - destruct Hfr as [H1 H2].
    split; [intros i w Hi; lia|]. split.
    + intros i w Hi Hiw. destruct (decide (i = cursor)) as [->|Hne]; [right; left; congruence|].
      destruct (H1 i w ltac:(lia) Hiw) as [Hb|[?|?]]; [left|done|by right; right].
      rewrite color_insert. case_decide; [congruence|done].
    + eapply frames_done_mono; [|done|exact H2]. intros v Hb. rewrite color_insert. case_decide; [congruence|done].
  - intros v Hb. rewrite color_insert in Hb. case_decide; [done|auto].
Qed.

Lemma dfs_advance_inv d node cursor below next :
  dfs_inv d -> stack d = (node, cursor) :: below -> children adj node !! cursor = Some next ->
  color_of (color d) next = Black ->
  dfs_inv (mkDfs (color d) ((node, S cursor) :: below) (cycles d)).
Proof.
  intros Hd Hs Hn Hw. destruct (in_stack_vertices _ _ _ _ _ Hd Hs Hn) as (He & Hv & Hc).
  destruct Hd as [Hg Hnd Hch Hvs Hcu Hso Hfr Hbl]. rewrite Hs in *. simpl in *.
  apply Forall_cons in Hcu as [_ Hcu].
  split; cbn [color stack cycles]; [exact Hg|exact Hnd|exact Hch|exact Hvs|by constructor|exact Hso| |exact Hbl].
  destruct Hfr as [H1 H2]. split; [|done].
  intros i w Hi Hiw. destruct (decide (i = cursor)) as [->|Hne]; [left; congruence|].
  apply (H1 i); [lia|done].
Qed.

Lemma dfs_cycle_inv d node cursor below next :
  dfs_inv d -> stack d = (node, cursor) :: below -> children adj node !! cursor = Some next ->
  color_of (color d) next = Gray ->
  exists c, cycle_slice ((node, S cursor) :: below) next = Some c /\
    dfs_inv (mkDfs (color d) ((node, S cursor) :: below) (cycles d ++ [c])).
Proof.
  intros Hd Hs Hn Hw. destruct (in_stack_vertices _ _ _ _ _ Hd Hs Hn) as (He & Hv & Hc).
  destruct Hd as [Hg Hnd Hch Hvs Hcu Hso Hfr Hbl]. rewrite Hs in *. simpl in *.
  apply Forall_cons in Hcu as [_ Hcu].
  destruct (cycle_slice_sound node (S cursor) below next) as (c & Hsl & Hcy & Hcl); [done|done|by apply Hg|done|].
  exists c. split; [done|].
  split; cbn [color stack cycles]; [done|done|done|done|by constructor| | |]; rewrite ?closing_app, ?Hcl.
  - apply Forall_app. split; [done|]. by constructor.
  - destruct Hfr as [H1 H2]. split; [|eapply frames_done_mono; [done| |exact H2]; set_solver].
    intros i w Hi Hiw. destruct (decide (i = cursor)) as [->|Hne]; [right; right|].
    + assert (w = next) as -> by congruence. set_solver.
    + destruct (H1 i w ltac:(lia) Hiw) as [?|[?|?]]; [by left|done|right; right; set_solver].
  - intros v Hb. eapply waits_on_cut; [by apply Hbl|set_solver].
Qed.

Lemma dfs_pop_inv d node cursor below :
  dfs_inv d -> stack d = (node, cursor) :: below -> children adj node !! cursor = None ->
  dfs_inv (mkDfs (<[node := Black]> (color d)) below (cycles d)).
Proof.
  intros [Hg Hnd Hch Hvs Hcu Hso Hfr Hbl] Hs Hn. rewrite Hs in *. simpl in *.
  apply Forall_cons in Hcu as [_ Hcu]. apply NoDup_cons in Hnd as [Hnin Hnd].
  apply lookup_ge_None in Hn.
  split; cbn [color stack cycles]; [|exact Hnd| | |exact Hcu|exact Hso| |].
  - intros v. rewrite color_insert. case_decide as Hd; [subst; set_solver|]. rewrite Hg. set_solver.
  - destruct below as [|[u c] below]; [done|]. simpl in *. by destruct Hch.
  - intros v Hv. apply Hvs. set_solver.
  - destruct Hfr as [_ H2].
    destruct below as [|[u c] below]; [done|]. destruct H2 as [H2 H3]. split.
    + intros i w Hi Hw. destruct (H2 i w Hi Hw) as [Hb|[[= ->]|?]]; [left|left|by right; right];
        rewrite color_insert; by case_decide.
    + eapply frames_done_mono; [|done|exact H3]. intros v Hb. rewrite color_insert. by case_decide.
  - intros v Hb. rewrite color_insert in Hb. case_decide as Hd; [subst v|auto].
    constructor. intros w [Hw Hnc]. apply children_spec in Hw. fold adj in Hw. apply list_elem_of_lookup in Hw as [i Hi].
    apply lookup_lt_Some in Hi as Hlt. destruct Hfr as [H1 _].
    destruct (H1 i w ltac:(lia) Hi) as [?|[?|?]]; [auto|done|done].
Qed.

(** ** Termination *)

Definition white_cost (col : gmap Z Color) (l : list Z) : nat :=
  sum_list_with (fun v => if decide (color_of col v = White) then length (children adj v) + 2 else 0)%nat l.

Definition stack_cost (stk : list (Z * nat)) : nat :=
  sum_list_with (fun f => length (children adj (fst f)) - snd f + 1)%nat stk.

Definition cost (d : Dfs) : nat := (white_cost (color d) vs + stack_cost (stack d))%nat.

Lemma white_cost_other col x k l :
  x ∉ l -> white_cost (<[x := k]> col) l = white_cost col l.
Proof.
  induction l as [|v l IH]; intros Hx; [done|]. unfold white_cost in *. simpl.
  rewrite color_insert. rewrite (decide_False (P := v = x)) by set_solver. rewrite IH by set_solver. done.
Qed.

Lemma white_cost_gray col x l :
  NoDup l -> x ∈ l -> color_of col x = White ->
  (white_cost (<[x := Gray]> col) l + length (children adj x) + 2 = white_cost col l)%nat.
Proof.
  intros Hnd Hx Hw. induction l as [|v l IH]; [set_solver|].
  apply NoDup_cons in Hnd as [Hv Hnd]. unfold white_cost in *. simpl. rewrite color_insert.
  destruct (decide (v = x)) as [->|Hne].
  - rewrite (decide_True (P := color_of col x = White)) by done.
    rewrite (decide_False (P := Gray = White)) by done.
    pose proof (white_cost_other col x Gray l Hv) as Ho. unfold white_cost in Ho. rewrite Ho. lia.
  - rewrite <-IH by set_solver. case_decide; lia.
Qed.

Lemma white_cost_black col x l :
  color_of col x <> White -> white_cost (<[x := Black]> col) l = white_cost col l.
Proof.
  intros Hx. induction l as [|v l IH]; [done|]. unfold white_cost in *. simpl. rewrite IH, color_insert.
  destruct (decide (v = x)) as [->|Hne]; [|done].
  rewrite (decide_False (P := Black = White)), (decide_False (P := color_of col x = White)) by done. done.
Qed.

Definition grayish (d d' : Dfs) : Prop :=
  (forall v, color_of (color d) v = Black -> color_of (color d') v = Black) /\
  (forall v, color_of (color d) v <> White -> color_of (color d') v <> White) /\
  exists cs, cycles d' = cycles d ++ cs.

Lemma grayish_trans d1 d2 d3 : grayish d1 d2 -> grayish d2 d3 -> grayish d1 d3.
Proof.
  intros (A1 & A2 & cs1 & A3) (B1 & B2 & cs2 & B3). split; [auto|]. split; [auto|].
  exists (cs1 ++ cs2). by rewrite B3, A3, app_assoc.
Qed.

Lemma grayish_refl d : grayish d d.
Proof. split; [done|]. split; [done|]. exists []. by rewrite app_nil_r. Qed.

(** One iteration: it does not panic, keeps the invariant and the progress made,
    and lowers the cost. *)
Lemma dfs_body_spec d node cursor below :
  dfs_inv d -> stack d = (node, cursor) :: below ->
  exists d', dfs_body adj d node cursor below = Some d' /\ dfs_inv d' /\ (cost d' < cost d)%nat /\ grayish d d'.
Proof.
  intros Hd Es. unfold dfs_body. destruct (children adj node !! cursor) as [next|] eqn:En.
  - destruct (in_stack_vertices _ _ _ _ _ Hd Es En) as (He & Hv & Hc).
    destruct (color_of (color d) next) eqn:Ec.
    + eexists. split; [done|]. split; [by apply dfs_push_inv|].
      split; [|split; [|split; [|exists []; by rewrite app_nil_r]]].
      * unfold cost, stack_cost. rewrite Es. simpl.
        pose proof (white_cost_gray (color d) next vs (vertices_nodup edges) Hv Ec). lia.
      * intros v Hb. simpl. rewrite color_insert. case_decide; congruence.
      * intros v Hb. simpl. rewrite color_insert. case_decide; congruence.
    + destruct (dfs_cycle_inv d node cursor below next Hd Es En Ec) as (c & -> & Hd').
      eexists. split; [done|]. split; [done|]. split; [unfold cost, stack_cost; rewrite Es; simpl; lia|].
      split; [done|]. split; [done|]. by exists [c].
    + eexists. split; [done|]. split; [by eapply dfs_advance_inv|].
      split; [unfold cost, stack_cost; rewrite Es; simpl; lia|].
      split; [done|]. split; [done|]. exists []. by rewrite app_nil_r.
  - eexists. split; [done|]. split; [by eapply dfs_pop_inv|].
    assert (color_of (color d) node = Gray) by (apply (di_gray _ Hd); rewrite Es; simpl; set_solver).
    split; [unfold cost, stack_cost; rewrite Es; simpl; rewrite white_cost_black by congruence; lia|].
    split; [|split; [|exists []; by rewrite app_nil_r]]; intros v Hb; simpl; rewrite color_insert; by case_decide.
Qed.

(** With fuel for the cost, the loop returns with an empty path. *)
Lemma dfs_loop_spec fuel : forall d,
  dfs_inv d -> (cost d <= fuel)%nat ->
  exists d', dfs_loop fuel adj d = Some d' /\ dfs_inv d' /\ stack d' = [] /\ grayish d d'.
Proof.
  induction fuel as [|fuel IH]; intros d Hd Hc; simpl;
    destruct (stack d) as [|[node cursor] below] eqn:Es;
    try (exists d; split; [done|]; split; [done|]; split; [done|apply grayish_refl]).
  - unfold cost, stack_cost in Hc. rewrite Es in Hc. simpl in Hc. lia.
  - destruct (dfs_body_spec d node cursor below Hd Es) as (d1 & -> & Hd1 & Hlt & Hg). simpl.
    destruct (IH d1 Hd1 ltac:(lia)) as (d' & Hl & H1 & H2 & H3). exists d'.
    split; [done|]. split; [done|]. split; [done|]. by eapply grayish_trans.
Qed.

Lemma white_cost_le col l : (white_cost col l <= dfs_fuel adj l)%nat.
Proof.
  induction l as [|v l IH]; [done|]. unfold white_cost, dfs_fuel in *. simpl. case_decide; lia.
Qed.

Lemma visit_spec d start :
  dfs_inv d -> stack d = [] -> start ∈ vs ->
  exists d', visit (dfs_fuel adj vs) adj d start = Some d' /\
    dfs_inv d' /\ stack d' = [] /\ grayish d d' /\ color_of (color d') start = Black.
Proof.
  intros Hd Hs Hst. unfold visit. case_decide as Hw.
  - assert (Hd0 : dfs_inv (mkDfs (<[start := Gray]> (color d)) [(start, O)] (cycles d))).
    { destruct Hd as [Hg Hnd Hch Hvs Hcu Hso Hfr Hbl]. rewrite Hs in *. split; simpl.
      - intros v. rewrite color_insert. case_decide; [subst; set_solver|]. rewrite Hg. set_solver.
      - apply NoDup_singleton.
      - done.
      - intros v Hv. apply list_elem_of_singleton in Hv as ->. done.
      - repeat constructor. simpl. lia.
      - done.
      - split; [|done]. intros i w Hi. lia.
      - intros v Hb. rewrite color_insert in Hb. case_decide; [done|auto]. }
    assert (Hcost : (cost (mkDfs (<[start := Gray]> (color d)) [(start, O)] (cycles d)) <= dfs_fuel adj vs)%nat).
    { unfold cost, stack_cost. simpl.
      pose proof (white_cost_gray (color d) start vs (vertices_nodup edges) Hst Hw).
      pose proof (white_cost_le (color d) vs). lia. }
    destruct (dfs_loop_spec _ _ Hd0 Hcost) as (d1 & Hd1 & H1 & H2 & H3).
    exists d1. split; [done|]. split; [done|]. split; [done|].
    assert (Hnw : color_of (color d1) start <> White).
    { apply H3. simpl. rewrite color_insert, decide_True by done. done. }
    assert (Hng : color_of (color d1) start <> Gray).
    { rewrite (di_gray _ H1), H2. set_solver. }
    split; [|by destruct (color_of (color d1) start)].
    eapply grayish_trans; [|exact H3]. split; simpl.
    + intros v Hv. rewrite color_insert. case_decide; [congruence|done].
    + split; [|exists []; by rewrite app_nil_r]. intros v Hv. rewrite color_insert. by case_decide.
  - exists d. split; [done|]. split; [done|]. split; [done|]. split.
    + apply grayish_refl.
    + assert (color_of (color d) start <> Gray); [|by destruct (color_of (color d) start)].
      rewrite (di_gray _ Hd), Hs. set_solver.
Qed.

Lemma visits_spec l : forall d,
  dfs_inv d -> stack d = [] -> (forall v, v ∈ l -> v ∈ vs) ->
  exists d', visit_all (dfs_fuel adj vs) adj d l = Some d' /\
    dfs_inv d' /\ stack d' = [] /\ grayish d d' /\ forall v, v ∈ l -> color_of (color d') v = Black.
Proof.
  induction l as [|x l IH]; intros d Hd Hs Hl; simpl.
  { exists d. split; [done|]. split; [done|]. split; [done|]. split; [apply grayish_refl|set_solver]. }
  destruct (visit_spec d x Hd Hs ltac:(set_solver)) as (d1 & -> & H1 & H2 & H3 & H4). simpl.
  destruct (IH d1 H1 H2 ltac:(set_solver)) as (d' & Hd' & H5 & H6 & H7 & H8). exists d'.
  split; [done|]. split; [done|]. split; [done|]. split; [by eapply grayish_trans|].
  intros v Hv. apply elem_of_cons in Hv as [->|Hv]; [by apply H7|auto].
Qed.

Lemma find_cycles_spec :
  exists cs, find_cycles edges = Some cs /\ Forall (is_cycle edges) cs /\
    forall v, Acc (waits_on edges (closing cs)) v.
Proof.
  unfold find_cycles. fold adj vs. cbv zeta.
  assert (H0 : dfs_inv (mkDfs ∅ [] [])).
  { split; cbn [color stack cycles]; [|by constructor|done|set_solver|by constructor|by constructor|done|].
    - intros v. unfold color_of. rewrite lookup_empty. set_solver.
    - intros v. unfold color_of. by rewrite lookup_empty. }
  destruct (visits_spec (zsort (elements (dom adj))) _ H0 eq_refl) as (d' & -> & H1 & _ & _ & H4).
  { intros v Hv. apply elem_of_zsort, elem_of_elements, dom_adjacency in Hv as [u Hu].
    apply vertices_spec. eauto. }
  exists (cycles d'). split; [done|]. split; [apply H1|]. intros v. destruct (decide (v ∈ dom adj)) as [Hv|Hv].
  - apply (di_black _ H1). apply H4. by apply elem_of_zsort, elem_of_elements.
  - constructor. intros w [Hw _]. exfalso. apply Hv. apply dom_adjacency. eauto.
Qed.

End search.

(** ** Lemmas: victims *)

Lemma foldl_max l : forall x, (foldl Z.max x l = x \/ foldl Z.max x l ∈ l) /\ x <= foldl Z.max x l /\
  forall y, y ∈ l -> y <= foldl Z.max x l.
Proof.
  induction l as [|a l IH]; intros x; simpl; [split; [by left|]; split; [lia|set_solver]|].
  destruct (IH (Z.max x a)) as (H1 & H2 & H3). split; [|split; [lia|]].
  - destruct H1 as [H1|H1]; [|set_solver]. destruct (Z.max_spec x a) as [[_ E]|[_ E]]; rewrite E in *; [|by left].
    right. rewrite H1. set_solver.
  - intros y Hy. apply elem_of_cons in Hy as [->|Hy]; [lia|auto].
Qed.

Lemma youngest_spec c x : youngest c = Some x <-> x ∈ c /\ forall y, y ∈ c -> y <= x.
Proof.
  destruct c as [|a c]; simpl; [split; [done|]; intros [? _]; set_solver|].
  destruct (foldl_max c a) as (H1 & H2 & H3). split.
  - intros [= <-]. split; [destruct H1 as [->|?]; set_solver|].
    intros y Hy. apply elem_of_cons in Hy as [->|Hy]; auto.
  - intros [Hx Hy]. f_equal. apply Z.le_antisymm.
    + apply Hy. destruct H1 as [->|?]; set_solver.
    + apply elem_of_cons in Hx as [->|Hx]; auto.
Qed.

(** A candidate that survives re-verification. *)
Definition verified (act : gset Z) (fresh : list (Z * Z)) (c : list Z) (x : Z) : Prop :=
  youngest c = Some x /\ x ∈ act /\ forall e, e ∈ cycle_edges c -> e ∈ fresh.

Lemma mark_one_spec act fresh vi c :
  c <> [] -> exists vi', mark_one act fresh vi c = Ok vi' /\
    (forall x, x ∈ vi' <-> x ∈ vi \/ (verified act fresh c x)).
Proof.
  intros Hc. unfold mark_one. destruct (youngest c) as [x|] eqn:Ey; [|by destruct c].
  assert (Hchk : forallb (fun e => bool_decide (e ∈ fresh)) (cycle_edges c) = true <->
                 forall e, e ∈ cycle_edges c -> e ∈ fresh).
  { rewrite forallb_forall. split; intros H e He.
    - apply list_elem_of_In in He. apply H in He. by apply bool_decide_eq_true in He.
    - apply bool_decide_eq_true. apply H. by apply list_elem_of_In. }
  assert (Hnone : forall y, (~ verified act fresh c x \/ x ∈ vi) -> (y ∈ vi <-> y ∈ vi \/ verified act fresh c y)).
  { intros y Hn. split; [by left|]. intros [?|Hv]; [done|].
    assert (y = x) as -> by (destruct Hv as [Hv _]; congruence). by destruct Hn. }
  case_bool_decide as H1; [exists vi; split; [done|]; intros y; apply Hnone; by right|].
  case_bool_decide as H2; simpl; [|exists vi; split; [done|]; intros y; apply Hnone; left; intros (_ & ? & _); done].
  destruct (forallb _ _) eqn:Ef; simpl.
  - exists ({[x]} ∪ vi). split; [done|]. intros y. rewrite elem_of_union, elem_of_singleton. split.
    + intros [->|?]; [right|by left]. split; [done|]. split; [done|]. by apply Hchk.
    + intros [?|(Hy & _)]; [by right|left; congruence].
  - exists vi. split; [done|]. intros y. apply Hnone. left. intros (_ & _ & Hv). apply Hchk in Hv. congruence.
Qed.

Lemma mark_victims_spec act fresh cs : forall vi,
  Forall (fun c => c <> []) cs -> exists vi', mark_victims act fresh cs vi = Ok vi' /\
    (forall x, x ∈ vi' <-> x ∈ vi \/ exists c, c ∈ cs /\ verified act fresh c x).
Proof.
  induction cs as [|c cs IH]; intros vi Hne; simpl.
  { exists vi. split; [done|]. intros x. split; [by left|]. intros [?|(c & Hc & _)]; [done|set_solver]. }
  apply Forall_cons in Hne as [Hc Hne]. destruct (mark_one_spec act fresh vi c Hc) as (vi1 & -> & H1).
  destruct (IH vi1 Hne) as (vi' & Hm & H2). exists vi'. split; [done|]. intros x. rewrite H2, H1.
  split.
  - intros [[?|?]|(c' & ? & ?)]; [by left|right; exists c; set_solver|right; exists c'; set_solver].
  - intros [?|(c' & Hc' & ?)]; [by left; left|]. apply elem_of_cons in Hc' as [->|?]; [left; by right|right; eauto].
Qed.

Lemma wait_edges_spec {C W} (m : TxnManager C W) w h :
  (w, h) ∈ wait_edges m <-> row_wait_registry m !! w = Some h.
Proof. unfold wait_edges. by rewrite merge_sort_Permutation, elem_of_map_to_list. Qed.

Lemma table_edges_spec e w h :
  (w, h) ∈ table_edges (lock_state_of e) <->
    exists wm hm, mkWaiter w wm ∈ wait_queue e /\ granted e !! h = Some hm /\ h <> w /\ conflicts_with hm wm = true.
Proof.
  unfold table_edges, lock_state_of. simpl. rewrite list_elem_of_bind. split.
  - intros ([w' wm] & Hin & Hw). apply list_elem_of_bind in Hin as ([h' hm] & Hin & Hh). simpl in *.
    apply list_elem_of_fmap in Hw as ([x mo] & [= -> ->] & Hw).
    rewrite merge_sort_Permutation, elem_of_map_to_list in Hh.
    destruct (negb (h' =? x) && conflicts_with hm mo) eqn:Ec; [|set_solver].
    apply list_elem_of_singleton in Hin as [= -> ->]. zbool. eauto 6.
  - intros (wm & hm & Hw & Hh & Hne & Hc). exists (w, wm). split.
    + apply list_elem_of_bind. exists (h, hm). simpl. rewrite (proj2 (Z.eqb_neq h w)), Hc by done. simpl.
      split; [set_solver|]. by rewrite merge_sort_Permutation, elem_of_map_to_list.
    + apply list_elem_of_fmap. by exists (mkWaiter w wm).
Qed.

Lemma closing_spec cs e : e ∈ closing cs <-> exists c, c ∈ cs /\ closing_edge c = Some e.
Proof. apply list_elem_of_omap. Qed.

(** The search returns; what it reports are cycles, and every cycle of the graph
    runs through the closing edge of a reported one. *)
Lemma find_cycles_total edges :
  exists cs, find_cycles edges = Some cs /\ Forall (is_cycle edges) cs /\
    (forall c, is_cycle edges c -> exists c' e, c' ∈ cs /\ closing_edge c' = Some e /\ e ∈ cycle_edges c) /\
    (cs = [] <-> ~ exists c, is_cycle edges c).
Proof.
  destruct (find_cycles_spec edges) as (cs & Hf & Hs & Hacc). exists cs. split; [done|]. split; [done|].
  assert (Hall : forall c, is_cycle edges c -> exists c' e, c' ∈ cs /\ closing_edge c' = Some e /\ e ∈ cycle_edges c).
  { intros c Hc. destruct c as [|v c]; [by destruct Hc|].
    destruct (acc_cycle_cut _ _ v (Hacc v) (v :: c) Hc ltac:(set_solver)) as (e & He & Hin).
    apply closing_spec in He as (c' & ? & ?). eauto. }
  split; [done|]. split.
  - intros -> [c Hc]. destruct (Hall c Hc) as (c' & e & Hin & _). set_solver.
  - intros Hn. destruct cs as [|c cs]; [done|]. exfalso. apply Hn. exists c. by apply Forall_cons in Hs as [? _].
Qed.

(** ** Properties *)

(** C32: the cycle search always returns (it does not panic and its loop ends
    with an empty path) and its answer covers the whole graph.  Every reported
    cycle is a closed walk through distinct transactions whose edges are all in
    the graph.  Conversely every cycle of the graph runs through the closing edge,
    last node to first, of some reported cycle, so removing one edge per report
    leaves no deadlock.  In particular nothing is reported exactly when the graph
    has no cycle. *)
Theorem find_cycles_exact edges :
  exists cs, find_cycles edges = Some cs /\
    Forall (is_cycle edges) cs /\
    (forall c, is_cycle edges c -> exists c' e, c' ∈ cs /\ closing_edge c' = Some e /\ e ∈ cycle_edges c) /\
    (cs = [] <-> ~ exists c, is_cycle edges c).
Proof. apply find_cycles_total. Qed.

(** The wait-for graph has exactly the hard edges: a transaction waits for
    another when the row-wait registry says so, or when it is queued on a table
    behind a lock the other holds in a conflicting mode. *)
Theorem wait_for_edges_exact {C W : Type} (m : TxnManager C W) (lm : LockManager) w h :
  (w, h) ∈ wait_for_edges m lm <->
    row_wait_registry m !! w = Some h \/
    exists table e wm hm, entries lm !! table = Some e /\ mkWaiter w wm ∈ wait_queue e /\
      granted e !! h = Some hm /\ h <> w /\ conflicts_with hm wm = true.
Proof.
  unfold wait_for_edges. rewrite elem_of_dedup, merge_sort_Permutation, elem_of_app, wait_edges_spec.
  apply or_iff_compat_l. rewrite list_elem_of_bind. unfold table_lock_states. split.
  - intros ([t ts] & Hin & Ht). rewrite merge_sort_Permutation, elem_of_map_to_list, lookup_fmap in Ht.
    apply fmap_Some in Ht as (e & He & ->). apply map_lookup_filter_Some in He as [He _].
    simpl in Hin. apply table_edges_spec in Hin as (wm & hm & ? & ? & ? & ?). eauto 9.
  - intros (t & e & wm & hm & He & Hw & Hh & Hne & Hc). exists (t, lock_state_of e). split.
    + simpl. apply table_edges_spec. eauto 6.
    + rewrite merge_sort_Permutation, elem_of_map_to_list, lookup_fmap.
      apply fmap_Some. exists e. split; [|done]. apply map_lookup_filter_Some. split; [done|].
      unfold contended. simpl. intros Hq. rewrite Hq in Hw. set_solver.
Qed.

(** What a detector tick does.  It never panics; it keeps only marks of
    active transactions; every new mark is the youngest transaction of a cycle
    found in the first snapshot, still active, and every edge of that cycle is
    present in the second snapshot; and when the waits do not change between the
    snapshots, a deadlock of active transactions always ends with a marked victim. *)
Theorem tick_marks_victims {C W : Type} (m m' : TxnManager C W) (lm lm' : LockManager) vi :
  exists vi', tick m lm m' lm' vi = Ok vi' /\
    (forall x, x ∈ vi' -> (x ∈ vi /\ x ∈ active m) \/
       exists c, is_cycle (wait_for_edges m lm) c /\ verified (active m') (wait_for_edges m' lm') c x) /\
    (wait_for_edges m' lm' = wait_for_edges m lm ->
     (forall c x, is_cycle (wait_for_edges m lm) c -> x ∈ c -> x ∈ active m') ->
     (exists c, is_cycle (wait_for_edges m lm) c) ->
     exists c x, is_cycle (wait_for_edges m lm) c /\ youngest c = Some x /\ x ∈ vi').
Proof.
  set (vi0 := filter (fun x => x ∈ active m) vi).
  assert (Hvi0 : forall x, x ∈ vi0 -> x ∈ vi /\ x ∈ active m) by (intros x Hx; unfold vi0 in Hx; set_solver).
  destruct (find_cycles_total (wait_for_edges m lm)) as (cs0 & Hf & Hs & _ & Hn).
  assert (Hne : Forall (fun c => c <> []) cs0).
  { eapply Forall_impl; [exact Hs|]. by intros c [? _]. }
  unfold tick. fold vi0.
  destruct (decide (wait_for_edges m lm = [])) as [He|He]; [rewrite bool_decide_eq_true_2 by done|rewrite bool_decide_eq_false_2 by done].
  { exists vi0. split; [done|]. split; [by left; apply Hvi0|]. intros _ _ [c Hc]. exfalso.
    revert Hc. rewrite He. intros (Hc1 & _ & Hc2). destruct c as [|v c]; [done|].
    destruct (cycle_successor (v :: c) v) as (w & _ & Hw); [set_solver|]. apply Hc2 in Hw. set_solver. }
  rewrite Hf. case_bool_decide as Hcy.
  { exists vi0. split; [done|]. split; [by left; apply Hvi0|]. intros _ _ Hex. by apply Hn in Hcy. }
  destruct (mark_victims_spec (active m') (wait_for_edges m' lm') _ vi0 Hne) as (vi' & Hm & Hspec).
  exists vi'. split; [done|]. rewrite Forall_forall in Hs. split.
  - intros x Hx. apply Hspec in Hx as [Hx|(c & Hc & Hv)]; [by left; apply Hvi0|right; eauto].
  - intros Heq Hact _. destruct cs0 as [|c cs]; [done|].
    assert (Hc : is_cycle (wait_for_edges m lm) c) by (apply Hs; set_solver).
    destruct (youngest c) as [x|] eqn:Ey; [|by destruct c; destruct Hc].
    exists c, x. split; [done|]. split; [done|]. apply Hspec. right. exists c. split; [set_solver|].
    split; [done|]. split; [|rewrite Heq; apply Hc].
    apply (Hact c); [done|]. by apply youngest_spec in Ey as [? _].
Qed.
