(* ===== verification/WalRecord.v ===== *)
(** * WAL records: types, payloads and on-disk framing

    Models [pg-storage/src/wal/record.rs]: the record type enum and its
    discriminants, the payload structs, the record constructors, the payload
    decoders and the 32-byte-header framing with its CRC.

    Two third-party crates are parameters.  [crc32fast] is a function
    [crc32 : list Z -> Z] of the bytes fed to the hasher.  [bincode] is the class
    [Bincode]: it writes and reads one primitive field; a derived
    [Serialize]/[Deserialize] struct is the sequence of its fields in declaration
    order (class [Serde]).  What the code relies on is [BincodeLaws]: reading
    back a written field returns it and leaves the rest of the input. *)

From S2P Require Import Prelude Types.
Local Open Scope Z_scope.
Local Open Scope rust_scope.

Definition WAL_RECORD_HEADER_SIZE : Z := 32.

Inductive WalRecordType :=
| HeapInsert | HeapUpdate | HeapDelete | BTreeInsert | BTreeSplitPrepare | BTreeDelete
| HeapHotUpdate | HeapCleanup | FullPageImage | TxnBegin | TxnCommit | TxnAbort
| CheckpointBegin | CheckpointEnd | PageAlloc | PageFree | BTreeSplitCLR | BTreeSplitCopy
| BTreeSplitCommit | LogicalHnsw | LogicalInverted | LogicalGraph | LogicalTimeSeries
| SegmentSeal | SegmentMerge.

#[export] Instance WalRecordType_eq_dec : EqDecision WalRecordType.
Proof. solve_decision. Defined.

Definition WalRecordType_to_u8 (t : WalRecordType) : Z :=
  match t with
  | HeapInsert => 1 | HeapUpdate => 2 | HeapDelete => 3 | BTreeInsert => 4
  | BTreeSplitPrepare => 5 | BTreeDelete => 6 | HeapHotUpdate => 7 | HeapCleanup => 8
  | FullPageImage => 10 | TxnBegin => 20 | TxnCommit => 21 | TxnAbort => 22
  | CheckpointBegin => 30 | CheckpointEnd => 31 | PageAlloc => 40 | PageFree => 41
  | BTreeSplitCLR => 50 | BTreeSplitCopy => 51 | BTreeSplitCommit => 52
  | LogicalHnsw => 100 | LogicalInverted => 101 | LogicalGraph => 102 | LogicalTimeSeries => 103
  | SegmentSeal => 110 | SegmentMerge => 111
  end.

Definition WalRecordType_from_u8 (v : Z) : res StorageError WalRecordType :=
  match v with
  | 1 => Ok HeapInsert | 2 => Ok HeapUpdate | 3 => Ok HeapDelete | 4 => Ok BTreeInsert
  | 5 => Ok BTreeSplitPrepare | 6 => Ok BTreeDelete | 7 => Ok HeapHotUpdate | 8 => Ok HeapCleanup
  | 10 => Ok FullPageImage | 20 => Ok TxnBegin | 21 => Ok TxnCommit | 22 => Ok TxnAbort
  | 30 => Ok CheckpointBegin | 31 => Ok CheckpointEnd | 40 => Ok PageAlloc | 41 => Ok PageFree
  | 50 => Ok BTreeSplitCLR | 51 => Ok BTreeSplitCopy | 52 => Ok BTreeSplitCommit
  | 100 => Ok LogicalHnsw | 101 => Ok LogicalInverted | 102 => Ok LogicalGraph
  | 103 => Ok LogicalTimeSeries | 110 => Ok SegmentSeal | 111 => Ok SegmentMerge
  | _ => Err WalReadFailed
  end.

(** ** Payload structs *)

Record PageAllocRecord := mkPageAllocRecord { pa_page_id : PageId }.
Record PageFreeRecord := mkPageFreeRecord { pf_page_id : PageId }.
Record FullPageImageRecord := mkFullPageImageRecord { fpi_page_id : PageId; fpi_image : list Z }.
Record HeapInsertRecord := mkHeapInsertRecord {
  hi_page_id : PageId; hi_slot_id : Z; hi_tuple_bytes : list Z }.
Record HeapUpdateRecord := mkHeapUpdateRecord {
  hu_old_tid : Tid; hu_new_tid : Tid; hu_xmax_old : TxnId; hu_new_tuple_bytes : list Z }.
Record HeapDeleteRecord := mkHeapDeleteRecord { hd_tid : Tid; hd_xmax : TxnId }.
Record HeapHotUpdateRecord := mkHeapHotUpdateRecord {
  hh_page_id : PageId; hh_old_slot : Z; hh_new_slot : Z; hh_new_tuple_bytes : list Z; hh_xmax : TxnId }.
Record BTreeInsertRecord := mkBTreeInsertRecord {
  bi_page_id : PageId; bi_slot_id : Z; bi_level : Z; bi_flags : Z; bi_tuple_bytes : list Z }.
Record BTreeDeleteRecord := mkBTreeDeleteRecord { bd_page_id : PageId; bd_slot_id : Z }.
Record BTreeSplitPrepareRecord := mkBTreeSplitPrepareRecord {
  sp_left_page : PageId; sp_new_right_page : PageId; sp_level : Z; sp_left_old_next : PageId;
  sp_high_key_bytes : list Z }.
Record BTreeSplitCopyRecord := mkBTreeSplitCopyRecord {
  sc_left_page : PageId; sc_right_page : PageId; sc_copy_start_slot : Z; sc_left_page_pre_lsn : Lsn }.
Record BTreeSplitCommitRecord := mkBTreeSplitCommitRecord {
  sm_left_page : PageId; sm_right_page : PageId; sm_parent_page : PageId; sm_separator_key : list Z;
  sm_parent_insert_slot : Z }.
Record BTreeSplitCLRRecord := mkBTreeSplitCLRRecord {
  clr_left_page : PageId; clr_right_page : PageId; clr_level : Z; clr_copy_start_slot : Z;
  clr_redo_ref_lsn : Lsn; clr_parent_page : PageId; clr_parent_insert_slot : Z;
  clr_new_root_page : PageId; clr_meta_page : PageId; clr_separator_key : list Z }.
Record TxnCommitRecord := mkTxnCommitRecord { tc_xid : TxnId }.
Record TxnAbortRecord := mkTxnAbortRecord { ta_xid : TxnId }.
(** Strings are their UTF-8 bytes. *)
Record CheckpointEndRecord := mkCheckpointEndRecord {
  ce_checkpoint_lsn : Lsn; ce_next_page_id : PageId; ce_next_txn_id : TxnId; ce_next_oid : Z;
  ce_att_file : list Z; ce_dpt_file : list Z }.
Record CheckpointEndRecordV1 := mkCheckpointEndRecordV1 {
  v1_checkpoint_lsn : Lsn; v1_next_page_id : PageId; v1_next_txn_id : TxnId }.

Definition MAX_CLR_SEPARATOR_KEY_BYTES : Z := (PAGE_SIZE - 32 - 16) / 3.
Definition CHECKPOINT_END_VERSION_V2 : Z := 1.
Definition CHECKPOINT_END_V2_FLAGS : Z := Z.shiftl CHECKPOINT_END_VERSION_V2 4.

(** ** serde and bincode *)

Inductive FieldTy := TU8 | TU16 | TU64 | TBytes | TStr.
Inductive Field := FU8 (x : Z) | FU16 (x : Z) | FU64 (x : Z) | FBytes (bs : list Z) | FStr (bs : list Z).

Definition field_ty (f : Field) : FieldTy :=
  match f with FU8 _ => TU8 | FU16 _ => TU16 | FU64 _ => TU64 | FBytes _ => TBytes | FStr _ => TStr end.

(** Values of the Rust field types; strings restricted to ASCII, the only ones
    the code builds (snapshot file names). *)
Definition field_wf (f : Field) : Prop :=
  match f with
  | FU8 x => in_u 8 x
  | FU16 x => in_u 16 x
  | FU64 x => in_u 64 x
  | FBytes bs => wf_bytes bs /\ zlen bs < 2 ^ 32
  | FStr bs => Forall (in_u 7) bs /\ zlen bs < 2 ^ 32
  end.

Class Bincode := {
  bc_put : Field -> option (list Z);
  bc_get : FieldTy -> list Z -> option (Field * list Z);
}.

Class BincodeLaws `{Bincode} := {
  bc_get_put f : field_wf f ->
    exists bs, bc_put f = Some bs /\ wf_bytes bs /\
      forall rest, bc_get (field_ty f) (bs ++ rest) = Some (f, rest);
}.

Class Serde (A : Type) := {
  ser : A -> list Field;
  shape : list FieldTy;
  de : list Field -> option A;
}.

Class SerdeLaws (A : Type) `{Serde A} := {
  de_ser (a : A) : de (ser a) = Some a;
  shape_ser (a : A) : field_ty <$> ser a = shape (A:=A);
}.

#[export] Instance PageAllocRecord_serde : Serde PageAllocRecord := {|
  ser r := [FU64 (pa_page_id r)]; shape := [TU64];
  de fs := match fs with [FU64 a] => Some (mkPageAllocRecord a) | _ => None end |}.
#[export] Instance PageFreeRecord_serde : Serde PageFreeRecord := {|
  ser r := [FU64 (pf_page_id r)]; shape := [TU64];
  de fs := match fs with [FU64 a] => Some (mkPageFreeRecord a) | _ => None end |}.
#[export] Instance FullPageImageRecord_serde : Serde FullPageImageRecord := {|
  ser r := [FU64 (fpi_page_id r); FBytes (fpi_image r)]; shape := [TU64; TBytes];
  de fs := match fs with [FU64 a; FBytes b] => Some (mkFullPageImageRecord a b) | _ => None end |}.
#[export] Instance HeapInsertRecord_serde : Serde HeapInsertRecord := {|
  ser r := [FU64 (hi_page_id r); FU16 (hi_slot_id r); FBytes (hi_tuple_bytes r)];
  shape := [TU64; TU16; TBytes];
  de fs := match fs with [FU64 a; FU16 b; FBytes c] => Some (mkHeapInsertRecord a b c) | _ => None end |}.
#[export] Instance HeapUpdateRecord_serde : Serde HeapUpdateRecord := {|
  ser r := [FU64 (page_id (hu_old_tid r)); FU16 (slot_id (hu_old_tid r));
            FU64 (page_id (hu_new_tid r)); FU16 (slot_id (hu_new_tid r));
            FU64 (hu_xmax_old r); FBytes (hu_new_tuple_bytes r)];
  shape := [TU64; TU16; TU64; TU16; TU64; TBytes];
  de fs := match fs with
           | [FU64 a; FU16 b; FU64 c; FU16 d; FU64 e; FBytes f] =>
               Some (mkHeapUpdateRecord (mkTid a b) (mkTid c d) e f)
           | _ => None end |}.
#[export] Instance HeapDeleteRecord_serde : Serde HeapDeleteRecord := {|
  ser r := [FU64 (page_id (hd_tid r)); FU16 (slot_id (hd_tid r)); FU64 (hd_xmax r)];
  shape := [TU64; TU16; TU64];
  de fs := match fs with [FU64 a; FU16 b; FU64 c] => Some (mkHeapDeleteRecord (mkTid a b) c) | _ => None end |}.
#[export] Instance HeapHotUpdateRecord_serde : Serde HeapHotUpdateRecord := {|
  ser r := [FU64 (hh_page_id r); FU16 (hh_old_slot r); FU16 (hh_new_slot r); FBytes (hh_new_tuple_bytes r);
            FU64 (hh_xmax r)];
  shape := [TU64; TU16; TU16; TBytes; TU64];
  de fs := match fs with
           | [FU64 a; FU16 b; FU16 c; FBytes d; FU64 e] => Some (mkHeapHotUpdateRecord a b c d e)
           | _ => None end |}.
#[export] Instance BTreeInsertRecord_serde : Serde BTreeInsertRecord := {|
  ser r := [FU64 (bi_page_id r); FU16 (bi_slot_id r); FU8 (bi_level r); FU8 (bi_flags r); FBytes (bi_tuple_bytes r)];
  shape := [TU64; TU16; TU8; TU8; TBytes];
  de fs := match fs with
           | [FU64 a; FU16 b; FU8 c; FU8 d; FBytes e] => Some (mkBTreeInsertRecord a b c d e)
           | _ => None end |}.
#[export] Instance BTreeDeleteRecord_serde : Serde BTreeDeleteRecord := {|
  ser r := [FU64 (bd_page_id r); FU16 (bd_slot_id r)]; shape := [TU64; TU16];
  de fs := match fs with [FU64 a; FU16 b] => Some (mkBTreeDeleteRecord a b) | _ => None end |}.
#[export] Instance BTreeSplitPrepareRecord_serde : Serde BTreeSplitPrepareRecord := {|
  ser r := [FU64 (sp_left_page r); FU64 (sp_new_right_page r); FU8 (sp_level r); FU64 (sp_left_old_next r);
            FBytes (sp_high_key_bytes r)];
  shape := [TU64; TU64; TU8; TU64; TBytes];
  de fs := match fs with
           | [FU64 a; FU64 b; FU8 c; FU64 d; FBytes e] => Some (mkBTreeSplitPrepareRecord a b c d e)
           | _ => None end |}.
#[export] Instance BTreeSplitCopyRecord_serde : Serde BTreeSplitCopyRecord := {|
  ser r := [FU64 (sc_left_page r); FU64 (sc_right_page r); FU16 (sc_copy_start_slot r); FU64 (sc_left_page_pre_lsn r)];
  shape := [TU64; TU64; TU16; TU64];
  de fs := match fs with
           | [FU64 a; FU64 b; FU16 c; FU64 d] => Some (mkBTreeSplitCopyRecord a b c d)
           | _ => None end |}.
#[export] Instance BTreeSplitCommitRecord_serde : Serde BTreeSplitCommitRecord := {|
  ser r := [FU64 (sm_left_page r); FU64 (sm_right_page r); FU64 (sm_parent_page r); FBytes (sm_separator_key r);
            FU16 (sm_parent_insert_slot r)];
  shape := [TU64; TU64; TU64; TBytes; TU16];
  de fs := match fs with
           | [FU64 a; FU64 b; FU64 c; FBytes d; FU16 e] => Some (mkBTreeSplitCommitRecord a b c d e)
           | _ => None end |}.
#[export] Instance BTreeSplitCLRRecord_serde : Serde BTreeSplitCLRRecord := {|
  ser r := [FU64 (clr_left_page r); FU64 (clr_right_page r); FU8 (clr_level r); FU16 (clr_copy_start_slot r);
            FU64 (clr_redo_ref_lsn r); FU64 (clr_parent_page r); FU16 (clr_parent_insert_slot r);
            FU64 (clr_new_root_page r); FU64 (clr_meta_page r); FBytes (clr_separator_key r)];
  shape := [TU64; TU64; TU8; TU16; TU64; TU64; TU16; TU64; TU64; TBytes];
  de fs := match fs with
           | [FU64 a; FU64 b; FU8 c; FU16 d; FU64 e; FU64 f; FU16 g; FU64 h; FU64 i; FBytes j] =>
               Some (mkBTreeSplitCLRRecord a b c d e f g h i j)
           | _ => None end |}.
#[export] Instance TxnCommitRecord_serde : Serde TxnCommitRecord := {|
  ser r := [FU64 (tc_xid r)]; shape := [TU64];
  de fs := match fs with [FU64 a] => Some (mkTxnCommitRecord a) | _ => None end |}.
#[export] Instance TxnAbortRecord_serde : Serde TxnAbortRecord := {|
  ser r := [FU64 (ta_xid r)]; shape := [TU64];
  de fs := match fs with [FU64 a] => Some (mkTxnAbortRecord a) | _ => None end |}.
#[export] Instance CheckpointEndRecord_serde : Serde CheckpointEndRecord := {|
  ser r := [FU64 (ce_checkpoint_lsn r); FU64 (ce_next_page_id r); FU64 (ce_next_txn_id r); FU64 (ce_next_oid r);
            FStr (ce_att_file r); FStr (ce_dpt_file r)];
  shape := [TU64; TU64; TU64; TU64; TStr; TStr];
  de fs := match fs with
           | [FU64 a; FU64 b; FU64 c; FU64 d; FStr e; FStr f] => Some (mkCheckpointEndRecord a b c d e f)
           | _ => None end |}.
#[export] Instance CheckpointEndRecordV1_serde : Serde CheckpointEndRecordV1 := {|
  ser r := [FU64 (v1_checkpoint_lsn r); FU64 (v1_next_page_id r); FU64 (v1_next_txn_id r)];
  shape := [TU64; TU64; TU64];
  de fs := match fs with [FU64 a; FU64 b; FU64 c] => Some (mkCheckpointEndRecordV1 a b c) | _ => None end |}.

(** ** The record *)

Record WalRecord := mkWalRecord {
  wr_lsn : Lsn;
  wr_prev_lsn : Lsn;
  wr_txn_id : TxnId;
  wr_type : WalRecordType;
  wr_flags : Z;
  wr_payload : list Z;
}.

Definition WalRecord_new (t : WalRecordType) (payload : list Z) : WalRecord :=
  mkWalRecord Lsn_INVALID Lsn_INVALID TxnId_INVALID t 0 payload.

(** [rec.txn_id = xid], [rec.flags = f] and [rec.lsn = l]. *)
Definition set_txn_id (xid : TxnId) (r : WalRecord) : WalRecord :=
  mkWalRecord (wr_lsn r) (wr_prev_lsn r) xid (wr_type r) (wr_flags r) (wr_payload r).
Definition set_flags (f : Z) (r : WalRecord) : WalRecord :=
  mkWalRecord (wr_lsn r) (wr_prev_lsn r) (wr_txn_id r) (wr_type r) f (wr_payload r).
Definition set_lsn (l : Lsn) (r : WalRecord) : WalRecord :=
  mkWalRecord l (wr_prev_lsn r) (wr_txn_id r) (wr_type r) (wr_flags r) (wr_payload r).

Section payloads.
Context {BC : Bincode}.

Fixpoint put_fields (fs : list Field) : option (list Z) :=
  match fs with
  | [] => Some []
  | f :: fs => a ← bc_put f; b ← put_fields fs; Some (a ++ b)
  end.

Fixpoint get_fields (ts : list FieldTy) (buf : list Z) : option (list Field * list Z) :=
  match ts with
  | [] => Some ([], buf)
  | t :: ts => '(f, buf) ← bc_get t buf; '(fs, buf) ← get_fields ts buf; Some (f :: fs, buf)
  end.

(** [bincode::serde::encode_to_vec] and [decode_from_slice], their errors mapped
    to [StorageError::Serialize]; trailing input is ignored. *)
Definition encode_to_vec {A : Type} `{Serde A} (a : A) : res StorageError (list Z) :=
  match put_fields (ser a) with Some bs => Ok bs | None => Err Serialize end.

Definition decode_from_slice {A : Type} `{Serde A} (buf : list Z) : res StorageError A :=
  match '(fs, _) ← get_fields (shape (A:=A)) buf; de fs with
  | Some a => Ok a
  | None => Err Serialize
  end.

Definition page_alloc (page_id : PageId) : res StorageError WalRecord :=
  let? payload := encode_to_vec (mkPageAllocRecord page_id) in
  Ok (WalRecord_new PageAlloc payload).

Definition page_free (page_id : PageId) : res StorageError WalRecord :=
  let? payload := encode_to_vec (mkPageFreeRecord page_id) in
  Ok (WalRecord_new PageFree payload).

Definition full_page_image (page_id : PageId) (image : list Z) : res StorageError WalRecord :=
  let? payload := encode_to_vec (mkFullPageImageRecord page_id image) in
  Ok (WalRecord_new FullPageImage payload).

Definition checkpoint_begin : WalRecord := WalRecord_new CheckpointBegin [].

Definition heap_insert (page_id : PageId) (slot_id : Z) (tuple_bytes : list Z) (xid : TxnId) : res StorageError WalRecord :=
  let? payload := encode_to_vec (mkHeapInsertRecord page_id slot_id tuple_bytes) in
  Ok (set_txn_id xid (WalRecord_new HeapInsert payload)).

Definition heap_update (old_tid new_tid : Tid) (xmax_old : TxnId) (new_tuple_bytes : list Z) (xid : TxnId)
    : res StorageError WalRecord :=
  let? payload := encode_to_vec (mkHeapUpdateRecord old_tid new_tid xmax_old new_tuple_bytes) in
  Ok (set_txn_id xid (WalRecord_new HeapUpdate payload)).

Definition heap_delete (tid : Tid) (xmax xid : TxnId) : res StorageError WalRecord :=
  let? payload := encode_to_vec (mkHeapDeleteRecord tid xmax) in
  Ok (set_txn_id xid (WalRecord_new HeapDelete payload)).

Definition heap_hot_update (page_id : PageId) (old_slot new_slot : Z) (new_tuple_bytes : list Z) (xmax xid : TxnId)
    : res StorageError WalRecord :=
  let? payload := encode_to_vec (mkHeapHotUpdateRecord page_id old_slot new_slot new_tuple_bytes xmax) in
  Ok (set_txn_id xid (WalRecord_new HeapHotUpdate payload)).

Definition btree_insert (page_id : PageId) (slot_id level flags : Z) (tuple_bytes : list Z) : res StorageError WalRecord :=
  let? payload := encode_to_vec (mkBTreeInsertRecord page_id slot_id level flags tuple_bytes) in
  Ok (WalRecord_new BTreeInsert payload).

Definition btree_delete (page_id : PageId) (slot_id : Z) : res StorageError WalRecord :=
  let? payload := encode_to_vec (mkBTreeDeleteRecord page_id slot_id) in
  Ok (WalRecord_new BTreeDelete payload).

Definition btree_split_prepare (left_page new_right_page : PageId) (level : Z) (left_old_next : PageId)
    (high_key_bytes : list Z) : res StorageError WalRecord :=
  let? payload := encode_to_vec (mkBTreeSplitPrepareRecord left_page new_right_page level left_old_next high_key_bytes) in
  Ok (WalRecord_new BTreeSplitPrepare payload).

Definition btree_split_copy (left_page right_page : PageId) (copy_start_slot : Z) (left_page_pre_lsn : Lsn)
    : res StorageError WalRecord :=
  let? payload := encode_to_vec (mkBTreeSplitCopyRecord left_page right_page copy_start_slot left_page_pre_lsn) in
  Ok (WalRecord_new BTreeSplitCopy payload).

Definition btree_split_commit (left_page right_page parent_page : PageId) (separator_key : list Z)
    (parent_insert_slot : Z) : res StorageError WalRecord :=
  let? payload :=
    encode_to_vec (mkBTreeSplitCommitRecord left_page right_page parent_page separator_key parent_insert_slot) in
  Ok (WalRecord_new BTreeSplitCommit payload).

Definition btree_split_clr (rec : BTreeSplitCLRRecord) : res StorageError WalRecord :=
  let? payload := encode_to_vec rec in
  Ok (WalRecord_new BTreeSplitCLR payload).

Definition txn_commit (xid : TxnId) : res StorageError WalRecord :=
  let? payload := encode_to_vec (mkTxnCommitRecord xid) in
  Ok (set_txn_id xid (WalRecord_new TxnCommit payload)).

Definition txn_abort (xid : TxnId) : res StorageError WalRecord :=
  let? payload := encode_to_vec (mkTxnAbortRecord xid) in
  Ok (set_txn_id xid (WalRecord_new TxnAbort payload)).

Definition checkpoint_end (checkpoint_lsn : Lsn) (next_page_id : PageId) (next_txn_id : TxnId) (next_oid : Z)
    (att_file dpt_file : list Z) : res StorageError WalRecord :=
  let? payload :=
    encode_to_vec (mkCheckpointEndRecord checkpoint_lsn next_page_id next_txn_id next_oid att_file dpt_file) in
  Ok (set_flags CHECKPOINT_END_V2_FLAGS (WalRecord_new CheckpointEnd payload)).

(** *** Payload decoders *)

Definition HeapInsertRecord_decode (payload : list Z) : res StorageError HeapInsertRecord := decode_from_slice payload.
Definition HeapUpdateRecord_decode (payload : list Z) : res StorageError HeapUpdateRecord := decode_from_slice payload.
Definition HeapDeleteRecord_decode (payload : list Z) : res StorageError HeapDeleteRecord := decode_from_slice payload.
Definition HeapHotUpdateRecord_decode (payload : list Z) : res StorageError HeapHotUpdateRecord :=
  decode_from_slice payload.
Definition BTreeInsertRecord_decode (payload : list Z) : res StorageError BTreeInsertRecord := decode_from_slice payload.
Definition BTreeDeleteRecord_decode (payload : list Z) : res StorageError BTreeDeleteRecord := decode_from_slice payload.
Definition BTreeSplitPrepareRecord_decode (payload : list Z) : res StorageError BTreeSplitPrepareRecord :=
  decode_from_slice payload.
Definition BTreeSplitCopyRecord_decode (payload : list Z) : res StorageError BTreeSplitCopyRecord :=
  decode_from_slice payload.
Definition BTreeSplitCommitRecord_decode (payload : list Z) : res StorageError BTreeSplitCommitRecord :=
  decode_from_slice payload.
Definition BTreeSplitCLRRecord_decode (payload : list Z) : res StorageError BTreeSplitCLRRecord :=
  let? rec := decode_from_slice (A:=BTreeSplitCLRRecord) payload in
  if zlen (clr_separator_key rec) >? MAX_CLR_SEPARATOR_KEY_BYTES then Err Serialize else Ok rec.
Definition TxnCommitRecord_decode (payload : list Z) : res StorageError TxnCommitRecord := decode_from_slice payload.
Definition TxnAbortRecord_decode (payload : list Z) : res StorageError TxnAbortRecord := decode_from_slice payload.

Definition CheckpointEndRecord_decode (payload : list Z) (flags : Z) : res StorageError CheckpointEndRecord :=
  let v := Z.shiftr flags 4 in
  if v =? 0 then
    let? v1 := decode_from_slice (A:=CheckpointEndRecordV1) payload in
    Ok (mkCheckpointEndRecord (v1_checkpoint_lsn v1) (v1_next_page_id v1) (v1_next_txn_id v1) Oid_FIRST_USER [] [])
  else if v =? CHECKPOINT_END_VERSION_V2 then decode_from_slice payload
  else Err WalReadFailed.

End payloads.

(** ** Framing *)

(** [Vec::resize(total, 0)]. *)
Definition vec_resize (total : Z) (buf : list Z) : list Z :=
  take (Z.to_nat total) buf ++ zeros (total - zlen buf).

Section framing.
Variable crc32 : list Z -> Z.

Definition record_size (r : WalRecord) : res StorageError Z :=
  align_up (WAL_RECORD_HEADER_SIZE + zlen (wr_payload r)) 8.

Definition WalRecord_encode (r : WalRecord) : res StorageError (list Z) :=
  if zlen (wr_payload r) >? 65535 then Err WalWriteFailed else
  let? total := record_size r in
  let buf :=
    le_bytes 8 (wr_lsn r) ++ le_bytes 8 (wr_prev_lsn r) ++ le_bytes 8 (wr_txn_id r)
    ++ [WalRecordType_to_u8 (wr_type r)] ++ [wr_flags r]
    ++ le_bytes 2 (zlen (wr_payload r)) ++ le_bytes 4 0
    ++ wr_payload r in
  let buf := vec_resize total buf in
  let? a := slice_get 0 28 buf in
  let? b := slice_get 32 (total - 32) buf in
  slice_set 28 (le_bytes 4 (crc32 (a ++ b))) buf.

Definition WalRecord_decode (buf : list Z) : res StorageError (WalRecord * Z) :=
  if zlen buf <? WAL_RECORD_HEADER_SIZE then Err (WalCorrupted Lsn_INVALID) else
  let lsn := get_le 8 0 buf in
  let prev_lsn := get_le 8 8 buf in
  let txn_id := get_le 8 16 buf in
  let type_byte := get_le 1 24 buf in
  let flags := get_le 1 25 buf in
  let payload_len := get_le 2 26 buf in
  let stored_crc := get_le 4 28 buf in
  let? total := align_up (WAL_RECORD_HEADER_SIZE + payload_len) 8 in
  if zlen buf <? total then Err (WalCorrupted lsn) else
  let? a := slice_get 0 28 buf in
  let? b := slice_get 32 (total - 32) buf in
  if negb (crc32 (a ++ b) =? stored_crc) then Err (WalCorrupted lsn) else
  let? record_type := WalRecordType_from_u8 type_byte in
  let? payload := slice_get 32 payload_len buf in
  Ok (mkWalRecord lsn prev_lsn txn_id record_type flags payload, total).

End framing.

(** ** Every kind of payload, with its constructor and its decoder *)

Inductive Payload :=
| PPageAlloc (r : PageAllocRecord) | PPageFree (r : PageFreeRecord) | PFullPageImage (r : FullPageImageRecord)
| PHeapInsert (r : HeapInsertRecord) | PHeapUpdate (r : HeapUpdateRecord) | PHeapDelete (r : HeapDeleteRecord)
| PHeapHotUpdate (r : HeapHotUpdateRecord) | PBTreeInsert (r : BTreeInsertRecord) | PBTreeDelete (r : BTreeDeleteRecord)
| PSplitPrepare (r : BTreeSplitPrepareRecord) | PSplitCopy (r : BTreeSplitCopyRecord)
| PSplitCommit (r : BTreeSplitCommitRecord) | PSplitCLR (r : BTreeSplitCLRRecord)
| PTxnCommit (r : TxnCommitRecord) | PTxnAbort (r : TxnAbortRecord) | PCheckpointEnd (r : CheckpointEndRecord).

Definition payload_fields (p : Payload) : list Field :=
  match p with
  | PPageAlloc r => ser r | PPageFree r => ser r | PFullPageImage r => ser r
  | PHeapInsert r => ser r | PHeapUpdate r => ser r | PHeapDelete r => ser r
  | PHeapHotUpdate r => ser r | PBTreeInsert r => ser r | PBTreeDelete r => ser r
  | PSplitPrepare r => ser r | PSplitCopy r => ser r | PSplitCommit r => ser r | PSplitCLR r => ser r
  | PTxnCommit r => ser r | PTxnAbort r => ser r | PCheckpointEnd r => ser r
  end.

(** The fields hold values of their Rust types, and a CLR's separator key is one
    the B+Tree can produce. *)
Definition payload_wf (p : Payload) : Prop :=
  Forall field_wf (payload_fields p) /\
  match p with PSplitCLR r => zlen (clr_separator_key r) <= MAX_CLR_SEPARATOR_KEY_BYTES | _ => True end.

Definition payload_type (p : Payload) : WalRecordType :=
  match p with
  | PPageAlloc _ => PageAlloc | PPageFree _ => PageFree | PFullPageImage _ => FullPageImage
  | PHeapInsert _ => HeapInsert | PHeapUpdate _ => HeapUpdate | PHeapDelete _ => HeapDelete
  | PHeapHotUpdate _ => HeapHotUpdate | PBTreeInsert _ => BTreeInsert | PBTreeDelete _ => BTreeDelete
  | PSplitPrepare _ => BTreeSplitPrepare | PSplitCopy _ => BTreeSplitCopy | PSplitCommit _ => BTreeSplitCommit
  | PSplitCLR _ => BTreeSplitCLR | PTxnCommit _ => TxnCommit | PTxnAbort _ => TxnAbort
  | PCheckpointEnd _ => CheckpointEnd
  end.

Section payload_kinds.
Context {BC : Bincode}.

(** The transaction id the constructor stamps on the header when called by [xid]. *)
Definition payload_txn (p : Payload) (xid : TxnId) : TxnId :=
  match p with
  | PHeapInsert _ | PHeapUpdate _ | PHeapDelete _ | PHeapHotUpdate _ => xid
  | PTxnCommit r => tc_xid r
  | PTxnAbort r => ta_xid r
  | _ => TxnId_INVALID
  end.

Definition construct (p : Payload) (xid : TxnId) : res StorageError WalRecord :=
  match p with
  | PPageAlloc r => page_alloc (pa_page_id r)
  | PPageFree r => page_free (pf_page_id r)
  | PFullPageImage r => full_page_image (fpi_page_id r) (fpi_image r)
  | PHeapInsert r => heap_insert (hi_page_id r) (hi_slot_id r) (hi_tuple_bytes r) xid
  | PHeapUpdate r => heap_update (hu_old_tid r) (hu_new_tid r) (hu_xmax_old r) (hu_new_tuple_bytes r) xid
  | PHeapDelete r => heap_delete (hd_tid r) (hd_xmax r) xid
  | PHeapHotUpdate r =>
      heap_hot_update (hh_page_id r) (hh_old_slot r) (hh_new_slot r) (hh_new_tuple_bytes r) (hh_xmax r) xid
  | PBTreeInsert r => btree_insert (bi_page_id r) (bi_slot_id r) (bi_level r) (bi_flags r) (bi_tuple_bytes r)
  | PBTreeDelete r => btree_delete (bd_page_id r) (bd_slot_id r)
  | PSplitPrepare r =>
      btree_split_prepare (sp_left_page r) (sp_new_right_page r) (sp_level r) (sp_left_old_next r) (sp_high_key_bytes r)
  | PSplitCopy r =>
      btree_split_copy (sc_left_page r) (sc_right_page r) (sc_copy_start_slot r) (sc_left_page_pre_lsn r)
  | PSplitCommit r =>
      btree_split_commit (sm_left_page r) (sm_right_page r) (sm_parent_page r) (sm_separator_key r)
        (sm_parent_insert_slot r)
  | PSplitCLR r => btree_split_clr r
  | PTxnCommit r => txn_commit (tc_xid r)
  | PTxnAbort r => txn_abort (ta_xid r)
  | PCheckpointEnd r =>
      checkpoint_end (ce_checkpoint_lsn r) (ce_next_page_id r) (ce_next_txn_id r) (ce_next_oid r)
        (ce_att_file r) (ce_dpt_file r)
  end.

(** What a reader does with a record: decode the payload by its type. *)
Definition interpret (r : WalRecord) : res StorageError Payload :=
  let b := wr_payload r in
  match wr_type r with
  | PageAlloc => let? x := decode_from_slice b in Ok (PPageAlloc x)
  | PageFree => let? x := decode_from_slice b in Ok (PPageFree x)
  | FullPageImage => let? x := decode_from_slice b in Ok (PFullPageImage x)
  | HeapInsert => let? x := HeapInsertRecord_decode b in Ok (PHeapInsert x)
  | HeapUpdate => let? x := HeapUpdateRecord_decode b in Ok (PHeapUpdate x)
  | HeapDelete => let? x := HeapDeleteRecord_decode b in Ok (PHeapDelete x)
  | HeapHotUpdate => let? x := HeapHotUpdateRecord_decode b in Ok (PHeapHotUpdate x)
  | BTreeInsert => let? x := BTreeInsertRecord_decode b in Ok (PBTreeInsert x)
  | BTreeDelete => let? x := BTreeDeleteRecord_decode b in Ok (PBTreeDelete x)
  | BTreeSplitPrepare => let? x := BTreeSplitPrepareRecord_decode b in Ok (PSplitPrepare x)
  | BTreeSplitCopy => let? x := BTreeSplitCopyRecord_decode b in Ok (PSplitCopy x)
  | BTreeSplitCommit => let? x := BTreeSplitCommitRecord_decode b in Ok (PSplitCommit x)
  | BTreeSplitCLR => let? x := BTreeSplitCLRRecord_decode b in Ok (PSplitCLR x)
  | TxnCommit => let? x := TxnCommitRecord_decode b in Ok (PTxnCommit x)
  | TxnAbort => let? x := TxnAbortRecord_decode b in Ok (PTxnAbort x)
  | CheckpointEnd => let? x := CheckpointEndRecord_decode b (wr_flags r) in Ok (PCheckpointEnd x)
  | t => Err (UnknownRecord (WalRecordType_to_u8 t) (wr_lsn r))
  end.

End payload_kinds.

(** ** Payload round trips *)

Section payload_lemmas.
Context {BC : Bincode} {BL : BincodeLaws}.

Lemma get_put_fields fs :
  Forall field_wf fs ->
  exists bs, put_fields fs = Some bs /\ wf_bytes bs /\
    forall rest, get_fields (field_ty <$> fs) (bs ++ rest) = Some (fs, rest).
Proof.
  induction 1 as [|f fs Hf _ IH]; [by exists []|].
  destruct (bc_get_put f Hf) as (a & Ha & Hwa & Hga). destruct IH as (b & Hb & Hwb & Hgb).
  exists (a ++ b). simpl. rewrite Ha. simpl. rewrite Hb. simpl.
  split; [done|]. split; [by apply Forall_app|]. intros rest.
  rewrite <-app_assoc, Hga. simpl. by rewrite Hgb.
Qed.

Lemma bincode_roundtrip {A} `{SerdeLaws A} (a : A) :
  Forall field_wf (ser a) ->
  exists bs, encode_to_vec a = Ok bs /\ wf_bytes bs /\ forall rest, decode_from_slice (bs ++ rest) = Ok a.
Proof.
  intros Hf. destruct (get_put_fields _ Hf) as (bs & Hp & Hw & Hg).
  exists bs. unfold encode_to_vec, decode_from_slice. rewrite Hp. split; [done|]. split; [done|].
  intros rest. rewrite <-(shape_ser a), Hg. simpl. by rewrite de_ser.
Qed.

End payload_lemmas.

Ltac solve_serde := split; [intros []; try done; by repeat match goal with t : Tid |- _ => destruct t end | by intros []].

#[export] Instance PageAllocRecord_laws : SerdeLaws PageAllocRecord. Proof. solve_serde. Qed.
#[export] Instance PageFreeRecord_laws : SerdeLaws PageFreeRecord. Proof. solve_serde. Qed.
#[export] Instance FullPageImageRecord_laws : SerdeLaws FullPageImageRecord. Proof. solve_serde. Qed.
#[export] Instance HeapInsertRecord_laws : SerdeLaws HeapInsertRecord. Proof. solve_serde. Qed.
#[export] Instance HeapUpdateRecord_laws : SerdeLaws HeapUpdateRecord. Proof. solve_serde. Qed.
#[export] Instance HeapDeleteRecord_laws : SerdeLaws HeapDeleteRecord. Proof. solve_serde. Qed.
#[export] Instance HeapHotUpdateRecord_laws : SerdeLaws HeapHotUpdateRecord. Proof. solve_serde. Qed.
#[export] Instance BTreeInsertRecord_laws : SerdeLaws BTreeInsertRecord. Proof. solve_serde. Qed.
#[export] Instance BTreeDeleteRecord_laws : SerdeLaws BTreeDeleteRecord. Proof. solve_serde. Qed.
#[export] Instance BTreeSplitPrepareRecord_laws : SerdeLaws BTreeSplitPrepareRecord. Proof. solve_serde. Qed.
#[export] Instance BTreeSplitCopyRecord_laws : SerdeLaws BTreeSplitCopyRecord. Proof. solve_serde. Qed.
#[export] Instance BTreeSplitCommitRecord_laws : SerdeLaws BTreeSplitCommitRecord. Proof. solve_serde. Qed.
#[export] Instance BTreeSplitCLRRecord_laws : SerdeLaws BTreeSplitCLRRecord. Proof. solve_serde. Qed.
#[export] Instance TxnCommitRecord_laws : SerdeLaws TxnCommitRecord. Proof. solve_serde. Qed.
#[export] Instance TxnAbortRecord_laws : SerdeLaws TxnAbortRecord. Proof. solve_serde. Qed.
#[export] Instance CheckpointEndRecord_laws : SerdeLaws CheckpointEndRecord. Proof. solve_serde. Qed.

(** The record a constructor builds around an encoded payload. *)
Definition stamped (p : Payload) (xid : TxnId) (bs : list Z) : WalRecord :=
  mkWalRecord Lsn_INVALID Lsn_INVALID (payload_txn p xid) (payload_type p)
    (match p with PCheckpointEnd _ => CHECKPOINT_END_V2_FLAGS | _ => 0 end) bs.

Ltac built He r :=
  match goal with |- construct ?p ?xid = _ =>
    transitivity (let? b := encode_to_vec r in Ok (stamped p xid b)); [by destruct r|by rewrite He]
  end.

Ltac unfold_decoders :=
  unfold HeapInsertRecord_decode, HeapUpdateRecord_decode, HeapDeleteRecord_decode, HeapHotUpdateRecord_decode,
    BTreeInsertRecord_decode, BTreeDeleteRecord_decode, BTreeSplitPrepareRecord_decode,
    BTreeSplitCopyRecord_decode, BTreeSplitCommitRecord_decode, BTreeSplitCLRRecord_decode,
    TxnCommitRecord_decode, TxnAbortRecord_decode, CheckpointEndRecord_decode.

Lemma interpret_construct `{BincodeLaws} p xid :
  payload_wf p ->
  exists bs, construct p xid = Ok (stamped p xid bs) /\ wf_bytes bs /\
    forall l, interpret (set_lsn l (stamped p xid bs)) = Ok p.
Proof.
  intros [Hf Hc]. destruct p as [r|r|r|r|r|r|r|r|r|r|r|r|r|r|r|r];
    destruct (bincode_roundtrip r Hf) as (bs & He & Hw & Hd); specialize (Hd []); rewrite app_nil_r in Hd;
    exists bs; (split; [by built He r|split; [exact Hw|intros l]]);
    unfold interpret; cbn [set_lsn stamped wr_type wr_payload wr_flags payload_type]; unfold_decoders;
    try by rewrite Hd.
  rewrite Hd. cbn [res_bind]. rewrite Z.gtb_ltb, (proj2 (Z.ltb_ge _ _)) by done. done.
Qed.

(** ** Framing lemmas *)

Lemma from_to_u8 t : WalRecordType_from_u8 (WalRecordType_to_u8 t) = Ok t.
Proof. by destruct t. Qed.

Lemma to_from_u8 v t : WalRecordType_from_u8 v = Ok t -> WalRecordType_to_u8 t = v.
Proof.
  unfold WalRecordType_from_u8.
  intros H. repeat match type of H with context [match ?x with _ => _ end] => is_var x; destruct x; try discriminate H end;
    by injection H as <-.
Qed.

Lemma to_u8_range t : in_u 8 (WalRecordType_to_u8 t).
Proof. unfold in_u. destruct t; simpl; lia. Qed.

Definition WalRecord_wf (r : WalRecord) : Prop :=
  in_u 64 (wr_lsn r) /\ in_u 64 (wr_prev_lsn r) /\ in_u 64 (wr_txn_id r) /\ in_u 8 (wr_flags r) /\
  wf_bytes (wr_payload r).

(** The first 28 bytes, and what follows the CRC field. *)
Definition frame_head (r : WalRecord) : list Z :=
  le_bytes 8 (wr_lsn r) ++ le_bytes 8 (wr_prev_lsn r) ++ le_bytes 8 (wr_txn_id r)
    ++ [WalRecordType_to_u8 (wr_type r)] ++ [wr_flags r] ++ le_bytes 2 (zlen (wr_payload r)).
Definition frame_size (n : Z) : Z := (WAL_RECORD_HEADER_SIZE + n + 7) / 8 * 8.
Definition frame_body (r : WalRecord) : list Z :=
  wr_payload r ++ zeros (frame_size (zlen (wr_payload r)) - WAL_RECORD_HEADER_SIZE - zlen (wr_payload r)).

Lemma frame_size_spec n :
  WAL_RECORD_HEADER_SIZE + n <= frame_size n < WAL_RECORD_HEADER_SIZE + n + 8 /\ frame_size n mod 8 = 0.
Proof. apply (align_up_8_spec (WAL_RECORD_HEADER_SIZE + n)). Qed.

Lemma length_frame_head r : length (frame_head r) = 28%nat.
Proof. unfold frame_head. by rewrite !length_app, !length_le_bytes. Qed.

Lemma zlen_frame_body r : zlen (frame_body r) = frame_size (zlen (wr_payload r)) - WAL_RECORD_HEADER_SIZE.
Proof.
  unfold frame_body. rewrite length_app, length_zeros.
  pose proof (frame_size_spec (zlen (wr_payload r))). lia.
Qed.

Section frame.
Variable crc32 : list Z -> Z.

Definition frame (r : WalRecord) : list Z :=
  frame_head r ++ le_bytes 4 (crc32 (frame_head r ++ frame_body r)) ++ frame_body r.

Lemma zlen_frame r : zlen (frame r) = frame_size (zlen (wr_payload r)).
Proof.
  unfold frame. rewrite !length_app, length_frame_head, length_le_bytes.
  pose proof (zlen_frame_body r). unfold WAL_RECORD_HEADER_SIZE in *. lia.
Qed.

Lemma encode_frame r :
  WalRecord_encode crc32 r = if zlen (wr_payload r) >? 65535 then Err WalWriteFailed else Ok (frame r).
Proof.
  unfold WalRecord_encode. case_match; [done|]. unfold record_size. rewrite align_up_8. cbn [res_bind].
  fold (frame_size (zlen (wr_payload r))).
  pose proof (frame_size_spec (zlen (wr_payload r))) as [Hsz _]. pose proof (zlen_frame_body r) as Hbl.
  pose proof (length_frame_head r) as Hhl. unfold WAL_RECORD_HEADER_SIZE in *.
  match goal with |- context [vec_resize ?t ?b] => assert (Hb : vec_resize t b = frame_head r ++ le_bytes 4 0 ++ frame_body r) end.
  { unfold vec_resize. rewrite firstn_all2 by (rewrite !length_app, !length_le_bytes; simpl; lia).
    unfold frame_head, frame_body. rewrite <-!app_assoc. do 8 f_equal.
    rewrite !length_app, !length_le_bytes. simpl. f_equal. unfold WAL_RECORD_HEADER_SIZE. lia. }
  rewrite Hb. rewrite slice_get_ok by (rewrite ?length_app, ?length_le_bytes; lia). cbn [res_bind].
  rewrite slice_get_ok by (rewrite ?length_app, ?length_le_bytes; lia). cbn [res_bind].
  rewrite slice_set_ok by (rewrite ?length_app, ?length_le_bytes; lia). f_equal.
  rewrite slice_app_exact by lia. rewrite (slice_app_r 32), (slice_app_r (32 - _)) by (rewrite ?length_le_bytes; lia).
  rewrite Hhl, length_le_bytes, slice_all by lia.
  unfold frame, splice. rewrite !length_app, !length_le_bytes, Hhl.
  rewrite take_app_length' by lia. rewrite firstn_all2 by (rewrite length_le_bytes; lia).
  rewrite drop_app_ge by lia. rewrite Hhl. rewrite drop_app_length' by (rewrite length_le_bytes; lia). done.
Qed.

End frame.

Section decode.
Variable crc32 : list Z -> Z.
Hypothesis crc32_range : forall bs, in_u 32 (crc32 bs).

Lemma le_bytes_1 x : in_u 8 x -> le_bytes 1 x = [x].
Proof. unfold in_u, le_bytes. intros. f_equal. by apply Z.mod_small. Qed.

(** The header fields of a frame, whatever follows it. *)
Lemma frame_fields r rest :
  WalRecord_wf r -> zlen (wr_payload r) <= 65535 ->
  let buf := frame crc32 r ++ rest in
  get_le 8 0 buf = wr_lsn r /\ get_le 8 8 buf = wr_prev_lsn r /\ get_le 8 16 buf = wr_txn_id r /\
  get_le 1 24 buf = WalRecordType_to_u8 (wr_type r) /\ get_le 1 25 buf = wr_flags r /\
  get_le 2 26 buf = zlen (wr_payload r) /\ get_le 4 28 buf = crc32 (frame_head r ++ frame_body r).
Proof.
  intros (H1 & H2 & H3 & H4 & _) Hlen. pose proof (crc32_range (frame_head r ++ frame_body r)) as H6.
  pose proof (to_u8_range (wr_type r)) as H5.
  assert (H7 : 0 <= zlen (wr_payload r) < 256 ^ Z.of_nat 2) by (change (256 ^ Z.of_nat 2) with 65536; lia).
  unfold frame. cbv zeta. set (c := crc32 (frame_head r ++ frame_body r)) in *. clearbody c.
  unfold frame_head.
  rewrite <-(le_bytes_1 (WalRecordType_to_u8 _)), <-(le_bytes_1 (wr_flags r)) by done.
  rewrite <-!app_assoc.
  repeat split; read_field.
Qed.

Lemma frame_slices r rest :
  let buf := frame crc32 r ++ rest in
  slice 0 28 buf = frame_head r /\
  slice 32 (frame_size (zlen (wr_payload r)) - 32) buf = frame_body r /\
  slice 32 (zlen (wr_payload r)) buf = wr_payload r.
Proof.
  pose proof (length_frame_head r) as Hh. pose proof (zlen_frame_body r) as Hb.
  unfold frame. rewrite <-!app_assoc. split; [apply slice_app_exact; lia|].
  assert (Hs : forall n, slice 32 n (frame_head r ++ le_bytes 4 (crc32 (frame_head r ++ frame_body r)) ++ frame_body r ++ rest)
            = slice 0 n (frame_body r ++ rest)).
  { intros n. rewrite (slice_app_r 32), (slice_app_r (32 - _)) by (rewrite ?length_le_bytes; lia).
    by rewrite length_le_bytes, Hh. }
  rewrite !Hs. split; [by apply slice_app_exact|].
  unfold frame_body. rewrite <-app_assoc. by apply slice_app_exact.
Qed.

Lemma decode_frame r rest :
  WalRecord_wf r -> zlen (wr_payload r) <= 65535 ->
  WalRecord_decode crc32 (frame crc32 r ++ rest) = Ok (r, zlen (frame crc32 r)).
Proof.
  intros Hw Hlen. destruct (frame_fields r rest Hw Hlen) as (F1 & F2 & F3 & F4 & F5 & F6 & F7).
  destruct (frame_slices r rest) as (S1 & S2 & S3). pose proof (zlen_frame crc32 r) as Hz.
  pose proof (frame_size_spec (zlen (wr_payload r))) as [Hsz _]. unfold WAL_RECORD_HEADER_SIZE in *.
  unfold WalRecord_decode. rewrite F1, F2, F3, F4, F5, F6, F7, align_up_8. cbn [res_bind].
  fold (frame_size (zlen (wr_payload r))).
  rewrite length_app, !(proj2 (Z.ltb_ge _ _)) by (unfold WAL_RECORD_HEADER_SIZE; lia).
  rewrite !slice_get_ok by (rewrite ?length_app; lia). cbn [res_bind].
  rewrite S1, S2, S3, Z.eqb_refl, from_to_u8. cbn [negb res_bind]. rewrite Hz. by destruct r.
Qed.

(** A frame cut short never decodes. *)
Lemma decode_truncated r k :
  WalRecord_wf r -> zlen (wr_payload r) <= 65535 -> (k < length (frame crc32 r))%nat ->
  exists l, WalRecord_decode crc32 (take k (frame crc32 r)) = Err (WalCorrupted l).
Proof.
  intros Hw Hlen Hk. pose proof (frame_fields r [] Hw Hlen) as (_ & _ & _ & _ & _ & F6 & _).
  rewrite app_nil_r in F6. pose proof (zlen_frame crc32 r) as Hz. unfold WalRecord_decode.
  rewrite length_take. destruct (Z.ltb_spec (Z.of_nat (k `min` length (frame crc32 r))) WAL_RECORD_HEADER_SIZE); [by eexists|].
  unfold WAL_RECORD_HEADER_SIZE in *. rewrite (get_le_take 2 26), F6, align_up_8 by lia. cbn [res_bind].
  fold WAL_RECORD_HEADER_SIZE. fold (frame_size (zlen (wr_payload r))).
  rewrite (proj2 (Z.ltb_lt _ _)) by lia. by eexists.
Qed.

End decode.

(** Bytes the decoder accepts are a frame of the record it returns, up to the
    content of the padding. *)
Lemma decode_sound crc32 buf r n :
  wf_bytes buf -> WalRecord_decode crc32 buf = Ok (r, n) ->
  n = frame_size (zlen (wr_payload r)) /\ n <= zlen buf /\ WalRecord_wf r /\ zlen (wr_payload r) <= 65535 /\
  exists pad, zlen pad = n - WAL_RECORD_HEADER_SIZE - zlen (wr_payload r) /\
    slice 0 n buf = frame_head r ++ le_bytes 4 (crc32 (frame_head r ++ wr_payload r ++ pad)) ++ wr_payload r ++ pad.
Proof.
  intros Hwf. unfold WalRecord_decode. destruct (Z.ltb_spec (zlen buf) WAL_RECORD_HEADER_SIZE) as [|Hl]; [done|].
  unfold WAL_RECORD_HEADER_SIZE in Hl. rewrite align_up_8. cbn [res_bind].
  fold (frame_size (get_le 2 26 buf)). set (pl := get_le 2 26 buf).
  assert (Hpl : 0 <= pl < 65536) by (apply (get_le_bound 2 26 buf Hwf); lia).
  pose proof (frame_size_spec pl) as [Hsz _]. unfold WAL_RECORD_HEADER_SIZE in Hsz.
  destruct (Z.ltb_spec (zlen buf) (frame_size pl)) as [|Ht]; [done|].
  rewrite !slice_get_ok by lia. cbn [res_bind].
  destruct (Z.eqb_spec (crc32 (slice 0 28 buf ++ slice 32 (frame_size pl - 32) buf)) (get_le 4 28 buf)) as [Hcrc|]; [|done].
  cbn [negb]. intros H. inv_bind H. apply to_from_u8 in Ha. injection H as <- <-. cbn [wr_payload].
  assert (Hlp : zlen (slice 32 pl buf) = pl) by (rewrite length_slice by lia; lia).
  rewrite Hlp. split; [done|]. split; [done|].
  split; [|split; [lia|]].
  { refine (conj _ (conj _ (conj _ (conj _ _)))); try (by apply Forall_slice).
    - apply (get_le_bound 8 0 buf Hwf); lia.
    - apply (get_le_bound 8 8 buf Hwf); lia.
    - apply (get_le_bound 8 16 buf Hwf); lia.
    - apply (get_le_bound 1 25 buf Hwf); lia. }
  assert (Hhead : frame_head (mkWalRecord (get_le 8 0 buf) (get_le 8 8 buf) (get_le 8 16 buf) a
                    (get_le 1 25 buf) (slice 32 pl buf)) = slice 0 28 buf).
  { unfold frame_head. simpl wr_lsn; simpl wr_prev_lsn; simpl wr_txn_id; simpl wr_type; simpl wr_flags; simpl wr_payload.
    rewrite Hlp, Ha. rewrite <-(le_bytes_1 (get_le 1 24 buf)), <-(le_bytes_1 (get_le 1 25 buf))
      by (apply (get_le_bound 1 _ _ Hwf); lia).
    unfold pl. rewrite !(le_bytes_get_le 8 _ 8), !(le_bytes_get_le 1 _ 1), !(le_bytes_get_le 2 _ 2) by (done || lia).
    change 28 with (8 + (8 + (8 + (1 + (1 + 2))))). by rewrite !slice_split by lia. }
  exists (slice (32 + pl) (frame_size pl - 32 - pl) buf). rewrite Hhead.
  split; [rewrite length_slice by lia; unfold WAL_RECORD_HEADER_SIZE; lia|].
  rewrite <-(slice_split 32 pl (frame_size pl - 32 - pl) buf) by lia.
  replace (pl + (frame_size pl - 32 - pl)) with (frame_size pl - 32) by lia.
  rewrite Hcrc, (le_bytes_get_le 4 28 4) by (done || lia).
  replace (frame_size pl) with (28 + (4 + (frame_size pl - 32))) at 1 by lia.
  by rewrite !slice_split by lia.
Qed.

Lemma decode_no_panic crc32 buf : wf_bytes buf -> WalRecord_decode crc32 buf <> Panic.
Proof.
  intros Hwf. unfold WalRecord_decode. destruct (Z.ltb_spec (zlen buf) WAL_RECORD_HEADER_SIZE) as [|Hl]; [done|].
  unfold WAL_RECORD_HEADER_SIZE in *. rewrite align_up_8. cbn [res_bind].
  pose proof (get_le_bound 2 26 buf Hwf) as Hb. pose proof (align_up_8_spec (32 + get_le 2 26 buf)) as [Hs _].
  case_match eqn:Ht; [done|]. zbool.
  rewrite !slice_get_ok by lia. cbn [res_bind]. case_match; [done|].
  unfold WalRecordType_from_u8. repeat (case_match; try done).
Qed.

(** ** Properties *)

Section properties.
Variable crc32 : list Z -> Z.
Hypothesis crc32_range : forall bs, in_u 32 (crc32 bs).

(** C36: WAL framing round trip.  A record whose payload fits 64 KiB encodes to
    its declared size, a multiple of 8; decoding it in front of any further
    bytes gives back the record and that size; and no proper prefix of it is
    accepted: a torn tail is always reported as corruption. *)
Theorem wal_record_roundtrip r rest :
  WalRecord_wf r -> zlen (wr_payload r) <= 65535 ->
  exists buf, WalRecord_encode crc32 r = Ok buf /\ record_size r = Ok (zlen buf) /\ zlen buf mod 8 = 0 /\
    WalRecord_decode crc32 (buf ++ rest) = Ok (r, zlen buf) /\
    forall k, (k < length buf)%nat -> exists l, WalRecord_decode crc32 (take k buf) = Err (WalCorrupted l).
Proof.
  intros Hw Hl. exists (frame crc32 r). rewrite encode_frame, Z.gtb_ltb, (proj2 (Z.ltb_ge _ _)) by done.
  split; [done|]. split; [unfold record_size; by rewrite align_up_8, zlen_frame|].
  split; [rewrite zlen_frame; apply frame_size_spec|]. split; [by apply decode_frame|].
  intros k Hk. by apply decode_truncated.
Qed.

(** The decoder is safe on arbitrary bytes: it never panics; when it accepts,
    the consumed bytes are in the input, their stored CRC is the CRC of what it
    covers, and they are byte for byte the frame of the returned record, up to
    the padding. *)
Theorem wal_decode_sound buf :
  wf_bytes buf ->
  WalRecord_decode crc32 buf <> Panic /\
  forall r n, WalRecord_decode crc32 buf = Ok (r, n) ->
    n <= zlen buf /\ n mod 8 = 0 /\ WalRecord_wf r /\ record_size r = Ok n /\
    exists pad, slice 0 n buf =
      frame_head r ++ le_bytes 4 (crc32 (frame_head r ++ wr_payload r ++ pad)) ++ wr_payload r ++ pad.
Proof.
  intros Hwf. split; [by apply decode_no_panic|]. intros r n H.
  apply decode_sound in H as (-> & Hn & Hw & Hl & pad & _ & Hs); [|done].
  split; [done|]. split; [apply frame_size_spec|]. split; [done|].
  split; [unfold record_size; by rewrite align_up_8|]. by exists pad.
Qed.

(** Every record constructor is inverted by the reader.  For each of the
    sixteen payload kinds, the record built for well-formed fields, stamped with
    an LSN, encoded, decoded in front of any further bytes and interpreted by its
    type, gives back exactly the fields, the type, the LSN and the transaction id
    recovery relies on. *)
Theorem wal_payload_roundtrip `{BincodeLaws} p xid l rest r :
  payload_wf p -> in_u 64 xid -> in_u 64 l -> construct p xid = Ok r -> zlen (wr_payload r) <= 65535 ->
  exists buf r', WalRecord_encode crc32 (set_lsn l r) = Ok buf /\
    WalRecord_decode crc32 (buf ++ rest) = Ok (r', zlen buf) /\ interpret r' = Ok p /\
    wr_type r' = payload_type p /\ wr_lsn r' = l /\ wr_txn_id r' = payload_txn p xid.
Proof.
  intros Hp Hx Hl Hc Hlen. destruct (interpret_construct p xid Hp) as (bs & Hc' & Hw & Hi).
  rewrite Hc' in Hc. apply Ok_inj in Hc as <-. simpl in Hlen.
  exists (frame crc32 (set_lsn l (stamped p xid bs))), (set_lsn l (stamped p xid bs)).
  rewrite encode_frame. simpl wr_payload. rewrite Z.gtb_ltb, (proj2 (Z.ltb_ge _ _)) by done.
  split; [done|]. split; [|by eauto].
  apply decode_frame; [done| |done]. destruct Hp as [Hf _].
  unfold WalRecord_wf. simpl. split; [done|]. split; [done|].
  split; [|split; [destruct p; done|done]].
  destruct p; simpl in *; try done; by apply Forall_cons in Hf as [? _].
Qed.

End properties.

(** ** Instances of the parameters

    A fixed-width codec and the byte sum [sum32]: the hypotheses on the two
    crates can be met together. *)

Definition fixed_get_le (n : nat) (k : Z -> Field) (buf : list Z) : option (Field * list Z) :=
  if zlen buf <? Z.of_nat n then None else Some (k (get_le n 0 buf), drop n buf).

Definition fixed_get_bytes (k : list Z -> Field) (buf : list Z) : option (Field * list Z) :=
  if zlen buf <? 4 + get_le 4 0 buf then None
  else Some (k (slice 4 (get_le 4 0 buf) buf), drop (Z.to_nat (4 + get_le 4 0 buf)) buf).

#[export] Instance FixedBincode : Bincode := {|
  bc_put f := match f with
    | FU8 x => Some (le_bytes 1 x) | FU16 x => Some (le_bytes 2 x) | FU64 x => Some (le_bytes 8 x)
    | FBytes bs | FStr bs => Some (le_bytes 4 (zlen bs) ++ bs) end;
  bc_get t := match t with
    | TU8 => fixed_get_le 1 FU8 | TU16 => fixed_get_le 2 FU16 | TU64 => fixed_get_le 8 FU64
    | TBytes => fixed_get_bytes FBytes | TStr => fixed_get_bytes FStr end |}.

Lemma fixed_get_le_put n k x rest :
  0 <= x < 256 ^ Z.of_nat n -> fixed_get_le n k (le_bytes n x ++ rest) = Some (k x, rest).
Proof.
  intros Hx. unfold fixed_get_le. rewrite length_app, length_le_bytes, (proj2 (Z.ltb_ge _ _)) by lia.
  rewrite get_le_head by done. by rewrite drop_app_length' by (by rewrite length_le_bytes).
Qed.

Lemma fixed_get_bytes_put k bs rest :
  zlen bs < 2 ^ 32 -> fixed_get_bytes k ((le_bytes 4 (zlen bs) ++ bs) ++ rest) = Some (k bs, rest).
Proof.
  intros Hx. unfold fixed_get_bytes. rewrite <-app_assoc.
  rewrite get_le_head by (change (256 ^ Z.of_nat 4) with (2 ^ 32); lia).
  rewrite !length_app, length_le_bytes, (proj2 (Z.ltb_ge _ _)) by lia.
  rewrite slice_app_r by (by rewrite length_le_bytes). rewrite length_le_bytes, slice_app_exact by done.
  rewrite app_assoc, drop_app_length' by (rewrite length_app, length_le_bytes; lia). done.
Qed.

#[export] Instance FixedBincode_laws : BincodeLaws.
Proof.
  split. intros [x|x|x|bs|bs] Hf; simpl in Hf.
  1-3: eexists; split; [done|split; [apply wf_le_bytes|intros rest; by apply fixed_get_le_put]].
  all: destruct Hf as [Hf Hl]; eexists; split; [done|split; [apply Forall_app; split; [apply wf_le_bytes|]|]];
    try (intros rest; by apply fixed_get_bytes_put); try done.
  eapply Forall_impl; [exact Hf|]. unfold in_u, is_byte. intros; lia.
Qed.

Definition demo_record : WalRecord := mkWalRecord 64 32 7 HeapInsert 0 [1; 2; 3; 4; 5].

Lemma demo_record_wf : WalRecord_wf demo_record.
Proof. unfold WalRecord_wf, in_u, is_byte; simpl; repeat split; repeat constructor; lia. Qed.

Lemma wal_record_roundtrip_witness :
  exists buf, WalRecord_encode sum32 demo_record = Ok buf /\ record_size demo_record = Ok (zlen buf) /\ zlen buf mod 8 = 0 /\
    WalRecord_decode sum32 (buf ++ [9; 9]) = Ok (demo_record, zlen buf) /\
    forall k, (k < length buf)%nat -> exists l, WalRecord_decode sum32 (take k buf) = Err (WalCorrupted l).
Proof. apply (wal_record_roundtrip sum32 sum32_range demo_record [9; 9] demo_record_wf). vm_compute. discriminate. Defined.

Lemma wal_decode_sound_witness : WalRecord_decode sum32 (frame sum32 demo_record ++ [1]) <> Panic.
Proof.
  apply (wal_decode_sound sum32 (frame sum32 demo_record ++ [1])).
  vm_compute. repeat constructor; discriminate.
Defined.

Definition demo_payload : Payload := PHeapUpdate (mkHeapUpdateRecord (mkTid 3 1) (mkTid 4 0) 9 [1; 2; 3]).

Lemma wal_payload_roundtrip_witness :
  exists r, construct demo_payload 9 = Ok r /\
  exists buf r', WalRecord_encode sum32 (set_lsn 64 r) = Ok buf /\
    WalRecord_decode sum32 (buf ++ [5]) = Ok (r', zlen buf) /\ interpret r' = Ok demo_payload /\
    wr_type r' = HeapUpdate /\ wr_lsn r' = 64 /\ wr_txn_id r' = 9.
Proof.
  eexists. split; [reflexivity|].
  apply (wal_payload_roundtrip sum32 sum32_range demo_payload 9 64 [5]).
  - split; [|done]. unfold demo_payload, payload_fields. simpl.
    unfold in_u. repeat constructor; vm_compute; try done; repeat constructor; discriminate.
  - done.
  - done.
  - reflexivity.
  - vm_compute. discriminate.
Defined.
