(* ===== verification/Superblock.v ===== *)
(** * The superblock file

    Models [pg-storage/src/superblock.rs]: the 512-byte copy format (v2, and the
    legacy v1 layout with its migration), the two-copy file, the choice of the
    active copy and the update of the inactive one.

    The file is its current bytes ([None] when it does not exist) together with
    the earlier contents that may still be on disk, wholly or in part, because no
    [sync_all] has succeeded since they were replaced; a crash leaves any mixture
    of these versions ([crash_image]).  Every system call consumes one scripted
    outcome: [Done], or [Fails k], which makes the call return an I/O error; a
    failing write has put its first [k] bytes in the file, which also describes a
    crash in the middle of a write.  [crc32fast] is the parameter [crc32], the
    clock read by [now_nanos] an argument. *)

From S2P Require Import Prelude Types.
Local Open Scope Z_scope.
Local Open Scope rust_scope.

Definition SUPERBLOCK_MAGIC : Z := 0x50475253.
Definition SUPERBLOCK_VERSION : Z := 2.
Definition SUPERBLOCK_VERSION_V1 : Z := 1.
Definition SUPERBLOCK_SIZE : Z := 512.
Definition SUPERBLOCK_FILE_SIZE : Z := SUPERBLOCK_SIZE * 2.

Record Superblock := mkSuperblock {
  sb_version : Z;
  sb_page_size : Z;
  sb_checkpoint_lsn : Lsn;
  sb_next_page_id : PageId;
  sb_next_txn_id : TxnId;
  sb_next_oid : Oid;
  sb_created_at : Z;
}.

#[export] Instance Superblock_eq_dec : EqDecision Superblock.
Proof. solve_decision. Defined.

Definition Superblock_new (page_size now : Z) : Superblock :=
  mkSuperblock SUPERBLOCK_VERSION page_size Lsn_INVALID PageId_FIRST TxnId_FIRST Oid_FIRST_USER now.

Definition redo_lsn (sb : Superblock) : Lsn := sb_checkpoint_lsn sb.

(** ** The file *)

Inductive Outcome := Done | Fails (k : nat).

(** [sb_content] is what reads see; [sb_old] holds the earlier versions of the
    file that are not yet superseded on disk ([None]: its directory entry may be
    missing).  The content is durable when [sb_old] is empty. *)
Record SbFile := mkSbFile {
  sb_content : option (list Z);
  sb_old : list (option (list Z));
  sb_io : list Outcome
}.

Definition next_outcome (f : SbFile) : Outcome := hd Done (sb_io f).

(** A call that leaves the file alone, and one that changes what reads see. *)
Definition called (f : SbFile) : SbFile := mkSbFile (sb_content f) (sb_old f) (tl (sb_io f)).
Definition set_content (c : option (list Z)) (f : SbFile) : SbFile :=
  mkSbFile c (sb_content f :: sb_old f) (tl (sb_io f)).

Definition versions (f : SbFile) : list (option (list Z)) := sb_content f :: sb_old f.

(** What a crash may leave: each byte, and the end of the file, from any of the
    versions; no file when its directory entry is not durable. *)
Definition crash_image (f : SbFile) (d : option (list Z)) : Prop :=
  match d with
  | None => None ∈ versions f
  | Some x => (exists v, Some v ∈ versions f) /\
      forall i : nat, exists v, v ∈ versions f /\ x !! i = default [] v !! i
  end.

(** [File::open] and [OpenOptions::open]: an error when the file is missing. *)
Definition open_file : M SbFile StorageError unit := fun f =>
  match next_outcome f, sb_content f with
  | Done, Some _ => (Ok tt, called f)
  | _, _ => (Err Io, called f)
  end.

(** [fs::create_dir_all] of the parent directory. *)
Definition create_dir_all : M SbFile StorageError unit := fun f =>
  match next_outcome f with
  | Done => (Ok tt, called f)
  | Fails _ => (Err Io, called f)
  end.

(** [File::create]: an empty file. *)
Definition create_file : M SbFile StorageError unit := fun f =>
  match next_outcome f with
  | Done => (Ok tt, set_content (Some []) f)
  | Fails _ => (Err Io, called f)
  end.

Definition read_exact (n : Z) : M SbFile StorageError (list Z) := fun f =>
  let c := default [] (sb_content f) in
  match next_outcome f with
  | Done => (if zlen c <? n then Err Io else Ok (slice 0 n c), called f)
  | Fails _ => (Err Io, called f)
  end.

Definition pwrite (off : Z) (buf c : list Z) : list Z :=
  take (Z.to_nat off) (c ++ zeros (off - zlen c)) ++ buf ++ drop (Z.to_nat off + length buf) c.

Definition write_all (off : Z) (buf : list Z) : M SbFile StorageError unit := fun f =>
  let c := default [] (sb_content f) in
  match next_outcome f with
  | Done => (Ok tt, set_content (Some (pwrite off buf c)) f)
  | Fails k => (Err Io, set_content (Some (pwrite off (take k buf) c)) f)
  end.

(** The file's bytes become durable, its directory entry does not. *)
Definition sync_all : M SbFile StorageError unit := fun f =>
  match next_outcome f with
  | Done => (Ok tt, mkSbFile (sb_content f) (filter (fun v => v = None) (sb_old f)) (tl (sb_io f)))
  | Fails _ => (Err Io, called f)
  end.

(** [sync_dir] of the parent directory: the entry becomes durable. *)
Definition sync_dir : M SbFile StorageError unit := fun f =>
  match next_outcome f with
  | Done => (Ok tt, mkSbFile (sb_content f) (filter (fun v => v <> None) (sb_old f)) (tl (sb_io f)))
  | Fails _ => (Err Io, called f)
  end.

(** ** Copies *)

Section superblock.
Variable crc32 : list Z -> Z.

(** The encoder, on the zeroed 512-byte buffer of [write_copy]. *)
Definition sb_encode (sb : Superblock) (buf : list Z) : list Z :=
  let buf := put_le 4 0 SUPERBLOCK_MAGIC buf in
  let buf := put_le 4 4 (sb_version sb) buf in
  let buf := put_le 4 8 (sb_page_size sb) buf in
  let buf := put_le 4 12 0 buf in
  let buf := put_le 8 16 (sb_checkpoint_lsn sb) buf in
  let buf := put_le 8 24 (sb_next_page_id sb) buf in
  let buf := put_le 8 32 (sb_next_txn_id sb) buf in
  let buf := put_le 8 40 (sb_next_oid sb) buf in
  let buf := put_le 8 48 (sb_created_at sb) buf in
  let checksum := crc32 (slice 0 56 buf ++ slice 60 (SUPERBLOCK_SIZE - 60) buf) in
  put_le 4 56 checksum buf.

Definition sb_decode_v2 (bytes : list Z) : res StorageError Superblock :=
  let stored_checksum := get_le 4 56 bytes in
  if negb (crc32 (slice 0 56 bytes ++ slice 60 (SUPERBLOCK_SIZE - 60) bytes) =? stored_checksum)
  then Err MetadataCorrupted else
  Ok (mkSuperblock SUPERBLOCK_VERSION (get_le 4 8 bytes) (get_le 8 16 bytes) (get_le 8 24 bytes)
        (get_le 8 32 bytes) (get_le 8 40 bytes) (get_le 8 48 bytes)).

Definition sb_decode_v1 (bytes : list Z) : res StorageError Superblock :=
  let stored_checksum := get_le 4 48 bytes in
  if negb (crc32 (slice 0 48 bytes ++ slice 52 (SUPERBLOCK_SIZE - 52) bytes) =? stored_checksum)
  then Err MetadataCorrupted else
  Ok (mkSuperblock SUPERBLOCK_VERSION (get_le 4 8 bytes) (get_le 8 16 bytes) (get_le 8 24 bytes)
        (get_le 8 32 bytes) Oid_FIRST_USER (get_le 8 40 bytes)).

Definition sb_decode (bytes : list Z) : res StorageError (Superblock * bool) :=
  if negb (zlen bytes =? SUPERBLOCK_SIZE) then Err MetadataCorrupted else
  if negb (get_le 4 0 bytes =? SUPERBLOCK_MAGIC) then Err MetadataCorrupted else
  let version := get_le 4 4 bytes in
  if version =? SUPERBLOCK_VERSION then let? sb := sb_decode_v2 bytes in Ok (sb, false)
  else if version =? SUPERBLOCK_VERSION_V1 then let? sb := sb_decode_v1 bytes in Ok (sb, true)
  else Err MetadataCorrupted.

(** [read_with_offset]: the active copy, its offset and whether a copy is v1. *)
Definition choose_copy (copy_a copy_b : res StorageError (Superblock * bool))
    : res StorageError (Superblock * Z * bool) :=
  match copy_a, copy_b with
  | Ok (a, migrated_a), Ok (b, migrated_b) =>
      if sb_checkpoint_lsn b >? sb_checkpoint_lsn a
      then Ok (b, SUPERBLOCK_SIZE, migrated_a || migrated_b)
      else Ok (a, 0, migrated_a || migrated_b)
  | Ok (a, migrated_a), _ => Ok (a, 0, migrated_a)
  | _, Ok (b, migrated_b) => Ok (b, SUPERBLOCK_SIZE, migrated_b)
  | _, _ => Err MetadataCorrupted
  end.

Definition read_with_offset : M SbFile StorageError (Superblock * Z * bool) :=
  open_file ;!
  let! buf := read_exact SUPERBLOCK_FILE_SIZE in
  fun f => (choose_copy (sb_decode (slice 0 SUPERBLOCK_SIZE buf))
              (sb_decode (slice SUPERBLOCK_SIZE SUPERBLOCK_SIZE buf)), f).

Definition write_copy (offset : Z) (sb : Superblock) : M SbFile StorageError unit :=
  write_all offset (sb_encode sb (zeros SUPERBLOCK_SIZE)).

Definition write_both_copies (sb : Superblock) : M SbFile StorageError unit :=
  open_file ;! write_copy 0 sb ;! write_copy SUPERBLOCK_SIZE sb ;! sync_all.

Definition Superblock_create (page_size now : Z) : M SbFile StorageError Superblock :=
  let sb := Superblock_new page_size now in
  create_dir_all ;! create_file ;! write_copy 0 sb ;! write_copy SUPERBLOCK_SIZE sb ;! sync_all ;! sync_dir ;! mret sb.

Definition Superblock_read : M SbFile StorageError Superblock :=
  let! r := read_with_offset in
  (if snd r then write_both_copies (fst (fst r)) else mret tt) ;!
  mret (fst (fst r)).

Definition Superblock_write (sb : Superblock) : M SbFile StorageError unit := fun f =>
  match read_with_offset f with
  | (Ok (current, active_offset, _), f) =>
      if sb_checkpoint_lsn sb <=? sb_checkpoint_lsn current then (Err CheckpointFailed, f) else
      let inactive_offset := if active_offset =? 0 then SUPERBLOCK_SIZE else 0 in
      (open_file ;! write_copy inactive_offset sb ;! sync_all) f
  | (Err _, f) => write_both_copies sb f
  | (Panic, f) => (Panic, f)
  end.

(** ** The copy format *)

Record sb_wf (sb : Superblock) : Prop := {
  wf_version : sb_version sb = SUPERBLOCK_VERSION;
  wf_page_size : in_u 32 (sb_page_size sb);
  wf_lsn : in_u 64 (sb_checkpoint_lsn sb);
  wf_page : in_u 64 (sb_next_page_id sb);
  wf_txn : in_u 64 (sb_next_txn_id sb);
  wf_oid : in_u 64 (sb_next_oid sb);
  wf_created : in_u 64 (sb_created_at sb);
}.

Hypothesis crc32_range : forall bs, in_u 32 (crc32 bs).

Lemma length_sb_encode sb buf : length (sb_encode sb buf) = length buf.
Proof. unfold sb_encode. by rewrite !length_put_le. Qed.

Lemma sb_decode_encode sb :
  sb_wf sb -> sb_decode (sb_encode sb (zeros SUPERBLOCK_SIZE)) = Ok (sb, false).
Proof.
  intros [Hv Hp Hl Hn Ht Ho Hc]. unfold in_u in *.
  unfold sb_decode. rewrite length_sb_encode, length_zeros. unfold SUPERBLOCK_SIZE at 1 2.
  change (negb (Z.of_nat (Z.to_nat 512) =? 512)) with false. cbv iota.
  unfold sb_encode. cbv zeta.
  set (crc := crc32 _). assert (Hcrc : in_u 32 crc) by apply crc32_range. unfold in_u in Hcrc.
  set (b9 := put_le 8 48 _ _). assert (Hb9 : length b9 = 512%nat) by (unfold b9; by rewrite !length_put_le).
  assert (F : get_le 4 0 b9 = SUPERBLOCK_MAGIC /\ get_le 4 4 b9 = sb_version sb /\ get_le 4 8 b9 = sb_page_size sb /\
              get_le 8 16 b9 = sb_checkpoint_lsn sb /\ get_le 8 24 b9 = sb_next_page_id sb /\
              get_le 8 32 b9 = sb_next_txn_id sb /\ get_le 8 40 b9 = sb_next_oid sb /\
              get_le 8 48 b9 = sb_created_at sb).
  { unfold b9, SUPERBLOCK_SIZE. rewrite Hv.
    repeat split; bytes; try done. }
  destruct F as (F1 & F2 & F3 & F4 & F5 & F6 & F7 & F8).
  rewrite !(get_put_disj _ _ 4 56) by lia. rewrite F1, F2, Hv. cbn [Z.eqb negb].
  change (SUPERBLOCK_MAGIC =? SUPERBLOCK_MAGIC) with true. change (SUPERBLOCK_VERSION =? SUPERBLOCK_VERSION) with true.
  cbv iota. cbn [negb]. unfold sb_decode_v2.
  rewrite (get_put_same 4 56) by (try lia; simpl; lia).
  rewrite !(get_put_disj _ _ 4 56) by lia.
  rewrite !slice_put_disj by (unfold SUPERBLOCK_SIZE; lia).
  fold crc. rewrite Z.eqb_refl. cbn [negb res_bind]. rewrite F3, F4, F5, F6, F7, F8, <-Hv. by destruct sb.
Qed.

(** ** Reading and writing the file *)

Definition active (c : list Z) : res StorageError (Superblock * Z * bool) :=
  choose_copy (sb_decode (slice 0 SUPERBLOCK_SIZE c)) (sb_decode (slice SUPERBLOCK_SIZE SUPERBLOCK_SIZE c)).

(** What a restart reads from the file, with no further I/O error. *)
Definition recovers (c : option (list Z)) : res StorageError Superblock := fst (Superblock_read (mkSbFile c [] [])).

Lemma read_with_offset_done c old io :
  SUPERBLOCK_FILE_SIZE <= zlen c ->
  read_with_offset (mkSbFile (Some c) old (Done :: Done :: io)) = (active c, mkSbFile (Some c) old io).
Proof.
  intros Hc. unfold read_with_offset, mbindM, open_file, read_exact, next_outcome, called. simpl.
  rewrite (proj2 (Z.ltb_ge _ _)) by done. unfold active. f_equal.
  unfold SUPERBLOCK_FILE_SIZE, SUPERBLOCK_SIZE in *. by rewrite !slice_slice by lia.
Qed.

Lemma read_with_offset_clean c old :
  SUPERBLOCK_FILE_SIZE <= zlen c ->
  read_with_offset (mkSbFile (Some c) old []) = (active c, mkSbFile (Some c) old []).
Proof. apply (read_with_offset_done c old []). Qed.

Lemma pwrite_splice off buf c :
  0 <= off -> off + zlen buf <= zlen c -> pwrite off buf c = splice off buf c.
Proof.
  intros. unfold pwrite, splice. rewrite take_app_le by lia.
  by rewrite (firstn_all2 buf) by lia.
Qed.

Lemma write_both_clean sb c old :
  SUPERBLOCK_FILE_SIZE <= zlen c ->
  exists c' old', write_both_copies sb (mkSbFile (Some c) old []) = (Ok tt, mkSbFile (Some c') old' []) /\
    zlen c' = zlen c /\
    slice 0 SUPERBLOCK_SIZE c' = sb_encode sb (zeros SUPERBLOCK_SIZE) /\
    slice SUPERBLOCK_SIZE SUPERBLOCK_SIZE c' = sb_encode sb (zeros SUPERBLOCK_SIZE).
Proof.
  intros Hc. pose proof (length_sb_encode sb (zeros SUPERBLOCK_SIZE)) as Hl. rewrite length_zeros in Hl.
  unfold write_both_copies, write_copy. set (b := sb_encode sb (zeros SUPERBLOCK_SIZE)) in *. clearbody b.
  unfold SUPERBLOCK_FILE_SIZE, SUPERBLOCK_SIZE in *.
  exists (splice 512 b (splice 0 b c)). eexists.
  unfold mbindM, open_file, write_all, sync_all, next_outcome, set_content, called.
  cbn [sb_content sb_io sb_old hd tl from_option id].
  rewrite (pwrite_splice 0), (pwrite_splice 512) by (rewrite ?length_splice; lia).
  split; [done|]. split; [by rewrite !length_splice|].
  split.
  - rewrite slice_splice_disj by lia. apply slice_splice_same; lia.
  - apply slice_splice_same; rewrite ?length_splice; lia.
Qed.

Lemma recovers_active c sb off m :
  SUPERBLOCK_FILE_SIZE <= zlen c -> active c = Ok (sb, off, m) -> recovers (Some c) = Ok sb.
Proof.
  intros Hc Ha. unfold recovers, Superblock_read, mbindM at 1.
  rewrite read_with_offset_clean, Ha by done. cbn [fst snd]. unfold mbindM. destruct m; [|done].
  by destruct (write_both_clean sb c [] Hc) as (c' & old' & -> & _).
Qed.

(** *** A torn update *)

(** Bytes taken, one by one, from either of two buffers. *)
Definition byte_mix (a b t : list Z) : Prop := forall i : nat, t !! i = a !! i \/ t !! i = b !! i.

(** The CRC separates the two contents: any mixture of the new copy's bytes and
    the old copy's is rejected, or reads as one of the two. *)
Definition torn_detected (sb : Superblock) (old : list Z) : Prop :=
  forall t, byte_mix (sb_encode sb (zeros SUPERBLOCK_SIZE)) old t ->
    match sb_decode t with
    | Ok (x, _) => x = sb \/ exists m, sb_decode old = Ok (x, m)
    | _ => True
    end.

Definition inactive_offset (active_offset : Z) : Z := if active_offset =? 0 then SUPERBLOCK_SIZE else 0.

Lemma active_inv c sb off m :
  active c = Ok (sb, off, m) ->
  (off = 0 \/ off = SUPERBLOCK_SIZE) /\
  (exists m', sb_decode (slice off SUPERBLOCK_SIZE c) = Ok (sb, m')) /\
  forall x m', sb_decode (slice (inactive_offset off) SUPERBLOCK_SIZE c) = Ok (x, m') ->
    if off =? 0 then sb_checkpoint_lsn x <= sb_checkpoint_lsn sb else sb_checkpoint_lsn x < sb_checkpoint_lsn sb.
Proof.
  unfold active, choose_copy, inactive_offset. intros H.
  destruct (sb_decode (slice 0 SUPERBLOCK_SIZE c)) as [[a ma]| |] eqn:Ea;
    destruct (sb_decode (slice SUPERBLOCK_SIZE SUPERBLOCK_SIZE c)) as [[b mb]| |] eqn:Eb; try done.
  1: destruct (Z.gtb_spec (sb_checkpoint_lsn b) (sb_checkpoint_lsn a)).
  all: injection H as <- <- <-; simpl; rewrite ?Ea, ?Eb; split; [by auto|]; split; [by eauto|]; intros x m' Hx;
    simplify_eq; try lia.
Qed.

(** The file after the inactive copy became [t]: the old copy stays active unless
    [t] decodes to something newer. *)
Lemma active_after c c' sb off m :
  active c = Ok (sb, off, m) -> SUPERBLOCK_FILE_SIZE <= zlen c' ->
  slice off SUPERBLOCK_SIZE c' = slice off SUPERBLOCK_SIZE c ->
  match sb_decode (slice (inactive_offset off) SUPERBLOCK_SIZE c') with
  | Ok (x, _) => (sb_checkpoint_lsn sb < sb_checkpoint_lsn x -> recovers (Some c') = Ok x) /\
                 ((if off =? 0 then sb_checkpoint_lsn x <= sb_checkpoint_lsn sb else sb_checkpoint_lsn x < sb_checkpoint_lsn sb) ->
                    recovers (Some c') = Ok sb)
  | _ => recovers (Some c') = Ok sb
  end.
Proof.
  intros Ha Hl Hs. destruct (active_inv _ _ _ _ Ha) as (Ho & [m' Hd] & _). rewrite <-Hs in Hd.
  assert (Hr : forall x o mm, active c' = Ok (x, o, mm) -> recovers (Some c') = Ok x)
    by (intros; by eapply recovers_active).
  unfold active, choose_copy, inactive_offset in *.
  destruct Ho as [-> | ->]; simpl in *; rewrite Hd in Hr.
  - destruct (sb_decode (slice SUPERBLOCK_SIZE SUPERBLOCK_SIZE c')) as [[x mx]| |]; [|by eapply Hr|by eapply Hr].
    destruct (Z.gtb_spec (sb_checkpoint_lsn x) (sb_checkpoint_lsn sb)); (split; intros; [|]); try lia; by eapply Hr.
  - destruct (sb_decode (slice 0 SUPERBLOCK_SIZE c')) as [[x mx]| |]; [|by eapply Hr|by eapply Hr].
    destruct (Z.gtb_spec (sb_checkpoint_lsn sb) (sb_checkpoint_lsn x)); (split; intros; [|]); try lia; by eapply Hr.
Qed.

(** A write of a prefix of the copy, and a crash that keeps any bytes of it. *)
Lemma mixed_prefix off k (b c x : list Z) :
  0 <= off -> zlen b = SUPERBLOCK_SIZE -> off + SUPERBLOCK_SIZE <= zlen c ->
  byte_mix (splice off (take k b) c) c x ->
  length x = length c /\
  (forall o, 0 <= o -> o + SUPERBLOCK_SIZE <= off \/ off + SUPERBLOCK_SIZE <= o ->
     slice o SUPERBLOCK_SIZE x = slice o SUPERBLOCK_SIZE c) /\
  byte_mix b (slice off SUPERBLOCK_SIZE c) (slice off SUPERBLOCK_SIZE x).
Proof.
  intros Ho Hb Hc Hx. unfold SUPERBLOCK_SIZE in *.
  assert (Hlk : forall i : nat, splice off (take k b) c !! i =
    if decide (Z.to_nat off <= i < Z.to_nat off + length (take k b))%nat then take k b !! (i - Z.to_nat off)%nat else c !! i).
  { intros i. rewrite lookup_splice. case_decide as Hd; [|done]. rewrite length_take in Hd.
    by rewrite decide_True by lia. }
  split; [|split].
  - apply Nat.le_antisymm; apply Nat.nlt_ge; intros Hlt.
    + destruct (lookup_lt_is_Some_2 x (length c) ltac:(lia)) as [y Hy].
      destruct (Hx (length c)) as [E|E]; rewrite Hy in E; symmetry in E; apply lookup_lt_Some in E;
        rewrite ?length_splice in E; lia.
    + destruct (lookup_lt_is_Some_2 c (length x) ltac:(lia)) as [y Hy].
      assert (E0 : x !! length x = None) by by apply lookup_ge_None.
      destruct (Hx (length x)) as [E|E]; rewrite E0 in E; symmetry in E; apply lookup_ge_None in E;
        rewrite ?length_splice in E; lia.
  - intros o Ho' Hd. apply list_eq. intros i. rewrite !lookup_slice. case_decide; [|done].
    destruct (Hx (Z.to_nat o + i)%nat) as [-> | ->]; [|done]. rewrite Hlk.
    rewrite decide_False; [done|]. rewrite length_take. lia.
  - intros i. rewrite !lookup_slice. case_decide as Hi.
    + destruct (Hx (Z.to_nat off + i)%nat) as [-> | ->]; [|by right]. rewrite Hlk. case_decide as Hin; [|by right].
      left. replace (Z.to_nat off + i - Z.to_nat off)%nat with i by lia. apply lookup_take_lt.
      rewrite length_take in Hin. lia.
    + right. done.
Qed.

(** The effect of the inactive copy's write, complete or cut short, seen through
    any crash. *)
Lemma recovers_mixed c sb cur off m k x :
  sb_wf sb -> SUPERBLOCK_FILE_SIZE <= zlen c -> active c = Ok (cur, off, m) ->
  sb_checkpoint_lsn cur < sb_checkpoint_lsn sb ->
  torn_detected sb (slice (inactive_offset off) SUPERBLOCK_SIZE c) ->
  let b := sb_encode sb (zeros SUPERBLOCK_SIZE) in
  let c' := pwrite (inactive_offset off) (take k b) c in
  byte_mix c' c x ->
  ((length b <= k)%nat -> x = c' -> recovers (Some x) = Ok sb) /\
  (recovers (Some x) = Ok sb \/ recovers (Some x) = Ok cur).
Proof.
  intros Hw Hc Ha Hlt Ht b. pose proof (active_inv _ _ _ _ Ha) as (Ho & _ & Hi).
  pose proof (length_sb_encode sb (zeros SUPERBLOCK_SIZE)) as Hl. rewrite length_zeros in Hl.
  pose proof (sb_decode_encode sb Hw) as Hde. unfold torn_detected in Ht. fold b in Ht, Hl, Hde.
  set (io := inactive_offset off) in *.
  assert (Hoff : (off = 0 /\ io = 512) \/ (off = 512 /\ io = 0)).
  { unfold io, inactive_offset. destruct Ho as [-> | ->]; simpl; auto. }
  assert (Hb : zlen b = SUPERBLOCK_SIZE) by (unfold SUPERBLOCK_SIZE in *; lia).
  unfold SUPERBLOCK_FILE_SIZE in Hc.
  rewrite pwrite_splice by (rewrite ?length_take; unfold SUPERBLOCK_SIZE in *; lia). intros c' Hx.
  destruct (mixed_prefix io k b c x) as (Hlen & Hsame & Hmix);
    [unfold SUPERBLOCK_SIZE in *; lia|done|unfold SUPERBLOCK_SIZE in *; lia|done|].
  pose proof (active_after c x _ _ _ Ha) as Haft. rewrite Hlen in Haft. fold io in Haft.
  rewrite Hsame in Haft by (unfold SUPERBLOCK_SIZE in *; lia). specialize (Haft Hc eq_refl).
  specialize (Ht _ Hmix). split.
  - intros Hk ->. unfold c' in Haft at 1. rewrite firstn_all2 in Haft by lia.
    rewrite <-Hb in Haft. rewrite slice_splice_same in Haft by (unfold SUPERBLOCK_SIZE in *; lia).
    rewrite Hde in Haft. by apply Haft.
  - destruct (sb_decode (slice io SUPERBLOCK_SIZE x)) as [[y my]| |]; [|by auto|by auto].
    destruct Haft as [H1 H2]. destruct Ht as [->|[m' Hm]]; [left; by apply H1|right; apply H2; by eapply Hi].
Qed.

(** Crash images of a durable file, and of one write on top of a durable file. *)
Lemma crash_image_durable c io d : crash_image (mkSbFile (Some c) [] io) d -> d = Some c.
Proof.
  destruct d as [x|]; unfold crash_image, versions; cbn [sb_content sb_old]; [|set_solver].
  intros [_ Hx]. f_equal. apply list_eq. intros i. destruct (Hx i) as (v & Hv & ->).
  apply list_elem_of_singleton in Hv as ->. done.
Qed.

Lemma crash_image_one c' c io d :
  crash_image (mkSbFile (Some c') [Some c] io) d -> exists x, d = Some x /\ byte_mix c' c x.
Proof.
  destruct d as [x|]; unfold crash_image, versions; cbn [sb_content sb_old]; [|set_solver].
  intros [_ Hx]. exists x. split; [done|]. intros i. destruct (Hx i) as (v & Hv & ->).
  apply elem_of_cons in Hv as [->|Hv]; [by left|]. apply list_elem_of_singleton in Hv as ->. by right.
Qed.

(** C37: the superblock update is atomic and durable.  Take a file whose content
    is durable and whose active copy is [cur], and let the read that starts the
    update succeed.  A superblock whose checkpoint LSN is not greater is refused
    and the file is unchanged.  A newer one may be interrupted anywhere, by an I/O
    error of any call or by a crash that keeps an arbitrary mixture of old and new
    bytes of what was written and not yet fsynced, and a restart then finds either
    [cur] or the new superblock, provided the CRC tells such mixtures apart.  Once
    the update has returned success its [sync_all] has happened, and a restart
    after any crash finds the new superblock. *)
Theorem superblock_update_atomic c io sb cur off m r f' :
  sb_wf sb -> SUPERBLOCK_FILE_SIZE <= zlen c ->
  read_with_offset (mkSbFile (Some c) [] []) = (Ok (cur, off, m), mkSbFile (Some c) [] []) ->
  torn_detected sb (slice (inactive_offset off) SUPERBLOCK_SIZE c) ->
  Superblock_write sb (mkSbFile (Some c) [] (Done :: Done :: io)) = (r, f') ->
  (sb_checkpoint_lsn sb <= sb_checkpoint_lsn cur ->
     r = Err CheckpointFailed /\ forall d, crash_image f' d -> d = Some c) /\
  (sb_checkpoint_lsn cur < sb_checkpoint_lsn sb ->
     (r = Ok tt \/ r = Err Io) /\ crash_image f' (sb_content f') /\
     forall d, crash_image f' d ->
       (r = Ok tt -> recovers d = Ok sb) /\ (recovers d = Ok sb \/ recovers d = Ok cur)).
Proof.
  intros Hw Hc Hr Ht. rewrite read_with_offset_clean in Hr by done. injection Hr as Ha.
  unfold Superblock_write. rewrite read_with_offset_done, Ha by done.
  destruct (Z.leb_spec (sb_checkpoint_lsn sb) (sb_checkpoint_lsn cur)) as [Hle|Hlt]; intros Hf.
  { injection Hf as <- <-. split; [|lia]. intros _. split; [done|]. intros d. apply crash_image_durable. }
  split; [lia|]. intros _. fold (inactive_offset off) in Hf.
  assert (Hcur : recovers (Some c) = Ok cur) by (by eapply recovers_active).
  pose proof (fun k x => recovers_mixed c sb cur off m k x Hw Hc Ha Hlt Ht) as Hmix. cbv zeta in Hmix.
  unfold mbindM, open_file, write_copy, write_all, sync_all, next_outcome, set_content, called in Hf.
  cbn [sb_content sb_old sb_io] in Hf. set (b := sb_encode sb (zeros SUPERBLOCK_SIZE)) in *.
  assert (Hself : forall a old io, crash_image (mkSbFile (Some a) old io) (Some a)).
  { intros a old io'. unfold crash_image, versions. simpl. split; [exists a; set_solver|].
    intros i. exists (Some a). split; [set_solver|done]. }
  destruct (hd Done io) as [|k1]; cbn [sb_content sb_old sb_io from_option id] in Hf.
  - destruct (hd Done (tl io)) as [|k2]; cbn [sb_content sb_old sb_io from_option id] in Hf.
    + rewrite <-(firstn_all b) in Hf.
      destruct (hd Done (tl (tl io))) as [|k3]; injection Hf as <- <-; (split; [by auto|]; split; [apply Hself|]); intros d Hd.
      * change (filter _ [Some c]) with (@nil (option (list Z))) in Hd. apply crash_image_durable in Hd as ->.
        assert (Hok : recovers (Some (pwrite (inactive_offset off) (take (length b) b) c)) = Ok sb)
          by (apply (Hmix (length b)); [by left|done|done]). by auto.
      * apply crash_image_one in Hd as (x & -> & Hx). split; [done|]. by apply (Hmix (length b)).
    + injection Hf as <- <-. split; [by auto|]. split; [apply Hself|]. intros d Hd.
      apply crash_image_one in Hd as (x & -> & Hx). split; [done|]. by apply (Hmix k2).
  - injection Hf as <- <-. split; [by auto|]. split; [apply Hself|]. intros d Hd.
    apply crash_image_durable in Hd as ->. split; [done|by right].
Qed.

Lemma pwrite_two (b : list Z) : pwrite (zlen b) b (pwrite 0 b []) = b ++ b.
Proof.
  assert (H0 : pwrite 0 b [] = b) by (unfold pwrite; simpl; by rewrite drop_nil, app_nil_r).
  rewrite H0. unfold pwrite. rewrite take_app_le by lia. rewrite firstn_all2 by lia.
  rewrite drop_ge by lia. by rewrite app_nil_r.
Qed.

Lemma create_clean page_size now f :
  let sb := Superblock_new page_size now in sb_wf sb ->
  exists c, Superblock_create page_size now (mkSbFile f [] []) = (Ok sb, mkSbFile (Some c) [] []) /\
    SUPERBLOCK_FILE_SIZE <= zlen c /\ active c = Ok (sb, 0, false).
Proof.
  intros sb Hw. pose proof (sb_decode_encode sb Hw) as Hde.
  pose proof (length_sb_encode sb (zeros SUPERBLOCK_SIZE)) as Hl. rewrite length_zeros in Hl.
  unfold Superblock_create, write_copy. fold sb. set (b := sb_encode sb (zeros SUPERBLOCK_SIZE)) in *.
  clearbody b. assert (Hb : zlen b = SUPERBLOCK_SIZE) by (unfold SUPERBLOCK_SIZE in *; lia). clear Hl.
  exists (b ++ b). split; [|split].
  - unfold mbindM, create_dir_all, create_file, write_all, sync_all, sync_dir, next_outcome, set_content, called, mret.
    cbn [sb_content sb_old sb_io hd tl from_option id]. rewrite <-Hb, pwrite_two. do 2 f_equal.
    by destruct f.
  - rewrite length_app. unfold SUPERBLOCK_FILE_SIZE. lia.
  - unfold active. rewrite slice_app_exact, slice_app_r by lia. rewrite Hb, Z.sub_diag, slice_all by done.
    rewrite Hde. unfold choose_copy. by rewrite Z.gtb_ltb, Z.ltb_irrefl.
Qed.

(** Creation and migration.  A freshly created superblock file is durable, with
    its directory entry, and reads back as created.  Reading any readable file returns the active copy and leaves a file
    that reads the same without migration: a v1 copy (which carries no OID
    counter) is rewritten as v2 in both copies exactly once. *)
Theorem superblock_create_and_migrate :
  (forall page_size now f, in_u 32 page_size -> in_u 64 now ->
     let sb := Superblock_new page_size now in
     exists c, Superblock_create page_size now (mkSbFile f [] []) = (Ok sb, mkSbFile (Some c) [] []) /\
       Superblock_read (mkSbFile (Some c) [] []) = (Ok sb, mkSbFile (Some c) [] [])) /\
  (forall c old sb f', SUPERBLOCK_FILE_SIZE <= zlen c -> sb_wf sb ->
     Superblock_read (mkSbFile (Some c) old []) = (Ok sb, f') ->
     exists off, read_with_offset f' = (Ok (sb, off, false), f') /\ Superblock_read f' = (Ok sb, f')) /\
  (forall bytes sb, sb_decode bytes = Ok (sb, true) ->
     get_le 4 4 bytes = SUPERBLOCK_VERSION_V1 /\ sb_version sb = SUPERBLOCK_VERSION /\ sb_next_oid sb = Oid_FIRST_USER).
Proof.
  split; [|split].
  - intros page_size now f Hp Hn sb. assert (Hw : sb_wf sb) by (split; unfold in_u; simpl; done || lia).
    destruct (create_clean page_size now f Hw) as (c & Hcr & Hc & Ha). exists c. split; [done|].
    unfold Superblock_read, mbindM. by rewrite read_with_offset_clean, Ha.
  - intros c old sb f' Hc Hw. unfold Superblock_read, mbindM at 1. rewrite read_with_offset_clean by done.
    destruct (active c) as [[[x off] m]| |] eqn:Ha; [|done|done]. cbn [fst snd]. unfold mbindM at 1.
    destruct m.
    + destruct (write_both_clean x c old Hc) as (c' & old' & -> & Hl & S1 & S2). unfold mret. intros Hf. injection Hf as <- <-.
      exists 0. unfold Superblock_read, mbindM. rewrite read_with_offset_clean by lia.
      unfold active. rewrite S1, S2, sb_decode_encode by done. simpl. by rewrite Z.gtb_ltb, Z.ltb_irrefl.
    + unfold mret. intros Hf. injection Hf as <- <-. exists off. unfold Superblock_read, mbindM.
      by rewrite read_with_offset_clean, Ha.
  - intros bytes sb. unfold sb_decode. repeat case_match; try done; zbool; intros H'; inv_bind H';
      unfold sb_decode_v1, sb_decode_v2 in *; repeat case_match; try done; by simplify_eq.
Qed.

End superblock.

(** ** Witnesses *)

Definition demo_old : Superblock := mkSuperblock 2 8192 8 3 5 16384 77.
Definition demo_new : Superblock := mkSuperblock 2 8192 16 4 9 16390 77.
Definition demo_copy (sb : Superblock) : list Z := sb_encode sum32 sb (zeros SUPERBLOCK_SIZE).
Definition demo_file : list Z := demo_copy demo_old ++ demo_copy demo_old.

(** All mixtures of two buffers of equal length. *)
Fixpoint all_mixes (a b : list Z) : list (list Z) :=
  match a, b with
  | x :: a, y :: b =>
      let r := all_mixes a b in
      if x =? y then cons x <$> r else (cons x <$> r) ++ (cons y <$> r)
  | _, _ => [[]]
  end.

Lemma all_mixes_spec a : forall b t, length a = length b -> byte_mix a b t -> t ∈ all_mixes a b.
Proof.
  induction a as [|x a IH]; intros [|y b] t Hl Ht; try done.
  - assert (t = []) as ->; [|simpl; set_solver]. apply list_eq. intros i. by destruct (Ht i) as [-> | ->].
  - injection Hl as Hl. destruct t as [|z t]; [destruct (Ht 0%nat) as [E|E]; discriminate E|].
    assert (Hin : t ∈ all_mixes a b) by (apply IH; [done|]; intros i; exact (Ht (S i))).
    simpl. destruct (Z.eqb_spec x y) as [->|_].
    + assert (z = y) as -> by (destruct (Ht 0%nat) as [[=]|[=]]; done). apply list_elem_of_fmap. eauto.
    + apply elem_of_app. destruct (Ht 0%nat) as [[= ->]|[= ->]]; [left|right]; apply list_elem_of_fmap; eauto.
Qed.

Definition torn_check (sb : Superblock) (old t : list Z) : bool :=
  match sb_decode sum32 t with
  | Ok (x, _) => bool_decide (x = sb) ||
                 match sb_decode sum32 old with Ok (y, _) => bool_decide (x = y) | _ => false end
  | _ => true
  end.

#[local] Opaque sb_encode sb_decode.

Lemma torn_check_spec sb old :
  length old = 512%nat ->
  forallb (torn_check sb old) (all_mixes (demo_copy sb) old) = true -> torn_detected sum32 sb old.
Proof.
  intros Hl H t Ht. change (sb_encode sum32 sb (zeros SUPERBLOCK_SIZE)) with (demo_copy sb) in Ht.
  assert (Hlen : length (demo_copy sb) = 512%nat) by (unfold demo_copy; by rewrite length_sb_encode, length_zeros).
  rewrite forallb_forall in H. specialize (H t). unfold torn_check in H.
  rewrite <-list_elem_of_In in H. specialize (H (all_mixes_spec _ _ _ (eq_trans Hlen (eq_sym Hl)) Ht)).
  destruct (sb_decode sum32 t) as [[x mx]| |]; [|done|done].
  apply orb_true_iff in H as [H|H]; [left; by apply bool_decide_eq_true in H|right].
  destruct (sb_decode sum32 old) as [[y my]| |]; [|discriminate H|discriminate H]. apply bool_decide_eq_true in H as ->. by eauto.
Qed.

Lemma demo_new_wf : sb_wf demo_new.
Proof. split; unfold in_u; simpl; done || lia. Qed.

(** An update that completes, and one whose write stops after 20 bytes. *)
Lemma superblock_update_atomic_witness :
  let w io := Superblock_write sum32 demo_new (mkSbFile (Some demo_file) [] (Done :: Done :: io)) in
  fst (w []) = Ok tt /\ (forall d, crash_image (snd (w [])) d -> recovers sum32 d = Ok demo_new) /\
  (forall d, crash_image (snd (w [Done; Fails 20])) d -> recovers sum32 d = Ok demo_new \/ recovers sum32 d = Ok demo_old).
Proof.
  assert (Hc : SUPERBLOCK_FILE_SIZE <= zlen demo_file) by (vm_compute; discriminate).
  assert (Hr : read_with_offset sum32 (mkSbFile (Some demo_file) [] []) = (Ok (demo_old, 0, false), mkSbFile (Some demo_file) [] [])).
  { rewrite read_with_offset_clean by exact Hc.
    replace (active sum32 demo_file) with (Ok (E:=StorageError) (demo_old, 0, false)) by (vm_compute; reflexivity).
    reflexivity. }
  assert (Ht : torn_detected sum32 demo_new (slice (inactive_offset 0) SUPERBLOCK_SIZE demo_file)).
  { apply torn_check_spec; [vm_compute; reflexivity|vm_compute; reflexivity]. }
  intros w. assert (Hok : fst (w []) = Ok tt) by (vm_compute; reflexivity).
  split; [exact Hok|]. split.
  - intros d Hd.
    destruct (superblock_update_atomic sum32 sum32_range demo_file [] demo_new demo_old 0 false _ _ demo_new_wf Hc Hr Ht
               (surjective_pairing _)) as [_ H]. destruct (H eq_refl) as (_ & _ & H'). by apply H'.
  - intros d Hd.
    destruct (superblock_update_atomic sum32 sum32_range demo_file [Done; Fails 20] demo_new demo_old 0 false _ _ demo_new_wf
               Hc Hr Ht (surjective_pairing _)) as [_ H]. destruct (H eq_refl) as (_ & _ & H'). by apply H'.
Defined.

Lemma superblock_create_and_migrate_witness :
  exists c, Superblock_create sum32 8192 77 (mkSbFile None [] []) = (Ok (Superblock_new 8192 77), mkSbFile (Some c) [] []) /\
    Superblock_read sum32 (mkSbFile (Some c) [] []) = (Ok (Superblock_new 8192 77), mkSbFile (Some c) [] []).
Proof.
  destruct (superblock_create_and_migrate sum32 sum32_range) as [H _].
  apply (H 8192 77 None); unfold in_u; lia.
Defined.
