(* ===== verification/PageAllocator.v ===== *)
(** * Page allocator and freelist snapshot

    Models [pg-storage/src/page_allocator.rs] and [freelist_meta.rs].  The
    freelist is a [Vec] used as a stack: its last element is popped first.  The
    WAL writer is the class [PageWal] (append a record, and the list of records
    the log holds); resizing the data file consumes one scripted outcome per
    system call ([true] succeeds, an exhausted script succeeds).  [crc32fast] is
    the parameter [crc32]; [u64] products wrap. *)

From S2P Require Import Prelude Types WalRecord.
Local Open Scope Z_scope.
Local Open Scope rust_scope.

(** ** freelist_meta.rs *)

Definition CRC_SIZE : Z := 4.
Definition BODY_HEADER_SIZE : Z := 16.

Record FreelistMeta := mkFreelistMeta { fm_checkpoint_lsn : Lsn; fm_page_ids : list PageId }.

(** The largest [u64] vector [Vec::with_capacity] accepts: [isize::MAX] bytes. *)
Definition MAX_VEC_U64 : Z := (2 ^ 63 - 1) / 8.

Section freelist_meta.
Variable crc32 : list Z -> Z.

Definition FreelistMeta_body (m : FreelistMeta) : list Z :=
  le_bytes 8 (fm_checkpoint_lsn m) ++ le_bytes 8 (zlen (fm_page_ids m)) ++ concat (le_bytes 8 <$> fm_page_ids m).

Definition FreelistMeta_encode (m : FreelistMeta) : list Z :=
  le_bytes 4 (crc32 (FreelistMeta_body m)) ++ FreelistMeta_body m.

Fixpoint read_ids (n : nat) (off : Z) (body : list Z) : res StorageError (list PageId) :=
  match n with
  | O => Ok []
  | S n =>
      let? b := slice_get off 8 body in
      let? ids := read_ids n (off + 8) body in
      Ok (le_val b :: ids)
  end.

Definition FreelistMeta_decode (bytes : list Z) : res StorageError FreelistMeta :=
  if zlen bytes <? CRC_SIZE + BODY_HEADER_SIZE then Err MetadataCorrupted else
  let stored_crc := get_le 4 0 bytes in
  let body := drop (Z.to_nat CRC_SIZE) bytes in
  if negb (stored_crc =? crc32 body) then Err MetadataCorrupted else
  let checkpoint_lsn := get_le 8 0 body in
  let count := get_le 8 8 body in
  let expected_body_len := wrap64 (BODY_HEADER_SIZE + wrap64 (count * 8)) in
  if negb (zlen body =? expected_body_len) then Err MetadataCorrupted else
  rassert (count <=? MAX_VEC_U64)
    (let? ids := read_ids (Z.to_nat count) BODY_HEADER_SIZE body in
     Ok (mkFreelistMeta checkpoint_lsn ids)).

End freelist_meta.

(** ** page_allocator.rs *)

Definition DATA_FILE_GROWTH_BYTES : Z := 1024 * 1024.

Class PageWal (W : Type) := {
  pw_append : WalRecord -> M W StorageError Lsn;
  pw_log : W -> list WalRecord;
}.

(** A successful append adds the record (stamped with its LSN) at the end of the
    log; a failed one adds no record. *)
Class PageWalLaws (W : Type) `{PageWal W} := {
  pw_append_ok r w l w' : pw_append r w = (Ok l, w') -> pw_log w' = pw_log w ++ [set_lsn l r];
  pw_append_err r w e w' : pw_append r w = (Err e, w') -> pw_log w' = pw_log w;
  pw_append_no_panic r w : fst (pw_append r w) <> Panic;
}.

Section allocator.
Context {BC : Bincode} {W : Type} {PW : PageWal W}.

Record PageAllocator := mkPageAllocator {
  wal_writer : W;
  data_io : list bool;
  current_file_len : Z;
  next_page_id : PageId;
  freelist : list PageId;
  recovery_applied : bool;
}.

Definition set_wal (w : W) (a : PageAllocator) : PageAllocator :=
  mkPageAllocator w (data_io a) (current_file_len a) (next_page_id a) (freelist a) (recovery_applied a).
Definition set_freelist (l : list PageId) (a : PageAllocator) : PageAllocator :=
  mkPageAllocator (wal_writer a) (data_io a) (current_file_len a) (next_page_id a) l (recovery_applied a).
Definition set_next (p : PageId) (a : PageAllocator) : PageAllocator :=
  mkPageAllocator (wal_writer a) (data_io a) (current_file_len a) p (freelist a) (recovery_applied a).
Definition set_len (n : Z) (a : PageAllocator) : PageAllocator :=
  mkPageAllocator (wal_writer a) (data_io a) n (next_page_id a) (freelist a) (recovery_applied a).
Definition mark_recovery_complete (a : PageAllocator) : PageAllocator :=
  mkPageAllocator (wal_writer a) (data_io a) (current_file_len a) (next_page_id a) (freelist a) true.

(** One system call on the data file. *)
Definition data_call : M PageAllocator StorageError unit := fun a =>
  (if hd true (data_io a) then Ok tt else Err Io,
   mkPageAllocator (wal_writer a) (tl (data_io a)) (current_file_len a) (next_page_id a) (freelist a) (recovery_applied a)).

Definition append_wal (r : WalRecord) : M PageAllocator StorageError Lsn := fun a =>
  let x := pw_append r (wal_writer a) in (fst x, set_wal (snd x) a).

Definition mlift {A : Type} (r : res StorageError A) : M PageAllocator StorageError A := fun a => (r, a).

Definition open_at (w : W) (io : list bool) (file_len : Z) (next : PageId) : res StorageError PageAllocator :=
  if negb (file_len mod PAGE_SIZE =? 0) then Err MetadataCorrupted
  else Ok (mkPageAllocator w io file_len next [] false).

Definition ensure_data_file_capacity (page_id : PageId) : M PageAllocator StorageError unit := fun a =>
  let required := wrap64 (page_id * PAGE_SIZE) in
  if required >? current_file_len a then
    let growth := DATA_FILE_GROWTH_BYTES in
    let target := wrap64 ((required + growth - 1) / growth * growth) in
    (data_call ;! data_call ;! mmodify (set_len target)) a
  else (Ok tt, a).

Definition alloc_page : M PageAllocator StorageError PageId := fun a =>
  if (current_file_len a >=? PAGE_SIZE) && (next_page_id a =? 1) && negb (recovery_applied a)
  then (Err RecoveryRequired, a) else
  let page_id := default (next_page_id a) (last (freelist a)) in
  (mmodify (set_freelist (take (length (freelist a) - 1) (freelist a))) ;!
   ensure_data_file_capacity page_id ;!
   let! record := mlift (page_alloc page_id) in
   append_wal record ;!
   mmodify (fun a => if page_id =? next_page_id a then set_next (wrap64 (next_page_id a + 1)) a else a) ;!
   mret page_id) a.

Definition free_page (page_id : PageId) : M PageAllocator StorageError unit := fun a =>
  if page_id =? PageId_INVALID then (Err InvalidOperation, a) else
  if page_id >=? next_page_id a then (Err InvalidOperation, a) else
  if bool_decide (page_id ∈ freelist a) then (Err InvalidOperation, a) else
  (let! record := mlift (page_free page_id) in
   append_wal record ;!
   mmodify (fun a => set_freelist (freelist a ++ [page_id]) a)) a.

Definition pa_snapshot (checkpoint_lsn : Lsn) (a : PageAllocator) : FreelistMeta :=
  mkFreelistMeta checkpoint_lsn (freelist a).

Definition apply_page_alloc (page_id : PageId) : M PageAllocator StorageError unit :=
  mmodify (fun a => if page_id >=? next_page_id a then set_next (wrap64 (page_id + 1)) a else a) ;!
  mmodify (fun a => set_freelist (filter (fun id => id <> page_id) (freelist a)) a) ;!
  ensure_data_file_capacity page_id ;!
  mmodify mark_recovery_complete.

Definition apply_page_free (page_id : PageId) (a : PageAllocator) : PageAllocator :=
  if bool_decide (page_id ∈ freelist a) then a
  else mark_recovery_complete (set_freelist (freelist a ++ [page_id]) a).

Definition seed_freelist (page_ids : list PageId) (a : PageAllocator) : PageAllocator := set_freelist page_ids a.

Definition replay_record (r : WalRecord) : M PageAllocator StorageError unit :=
  match wr_type r with
  | PageAlloc => let! rec := mlift (decode_from_slice (wr_payload r)) in apply_page_alloc (pa_page_id rec)
  | PageFree => let! rec := mlift (decode_from_slice (wr_payload r)) in mmodify (apply_page_free (pf_page_id rec))
  | _ => mret tt
  end.

Fixpoint replay_all (rs : list WalRecord) : M PageAllocator StorageError unit :=
  match rs with
  | [] => mret tt
  | r :: rs => replay_record r ;! replay_all rs
  end.

(** ** Ownership

    The pages handed out and not freed again are the clients' knowledge, kept as
    a ghost set beside the allocator. *)

Record alloc_inv (a : PageAllocator) (owned : gset Z) : Prop := {
  ai_next : 1 <= next_page_id a < 2 ^ 50;
  ai_free : Forall (fun p => 1 <= p < next_page_id a) (freelist a);
  ai_nodup : NoDup (freelist a);
  ai_owned : forall p, p ∈ owned -> 1 <= p < next_page_id a /\ p ∉ freelist a;
}.

End allocator.
Arguments PageAllocator W : clear implicits.

Section lemmas.
Context {BC : Bincode} {BL : BincodeLaws} {W : Type} {PW : PageWal W} {PL : PageWalLaws W}.
Implicit Types (a : PageAllocator W) (p : PageId) (owned : gset Z).

(** Everything but the file length and the I/O script. *)
Definition same_state a a' : Prop :=
  wal_writer a' = wal_writer a /\ next_page_id a' = next_page_id a /\ freelist a' = freelist a.

Lemma ensure_capacity_spec p a r a' :
  0 <= p < 2 ^ 50 -> ensure_data_file_capacity p a = (r, a') ->
  (r = Ok tt \/ r = Err Io) /\ same_state a a' /\ (data_io a = [] -> r = Ok tt /\ data_io a' = []) /\
  (r = Ok tt -> p * PAGE_SIZE <= current_file_len a').
Proof.
  intros Hp. unfold ensure_data_file_capacity, same_state.
  assert (Hw : wrap64 (p * PAGE_SIZE) = p * PAGE_SIZE) by (apply wrap64_small; unfold PAGE_SIZE; lia).
  rewrite Hw. set (growth := DATA_FILE_GROWTH_BYTES). set (n := p * PAGE_SIZE).
  assert (Ht : n <= wrap64 ((n + growth - 1) / growth * growth)).
  { pose proof (Z.div_mod (n + growth - 1) growth ltac:(done)) as Hdm.
    pose proof (Z.mod_pos_bound (n + growth - 1) growth ltac:(done)) as Hm.
    subst n growth. unfold PAGE_SIZE, DATA_FILE_GROWTH_BYTES in *. rewrite wrap64_small; lia. }
  destruct (Z.gtb_spec n (current_file_len a)) as [Hg|Hg].
  2: { intros H. injection H as <- <-. split; [by auto|]. split; [done|]. split; [done|lia]. }
  unfold mbindM, data_call, mmodify.
  destruct (data_io a) as [|[] io]; cbn [hd tl data_io];
    [|destruct io as [|[] io]; cbn [hd tl data_io]|]; intros H; injection H as <- <-;
    (split; [by auto|]); (split; [done|]); (split; [done|]); intros; simpl; done || lia.
Qed.

Lemma page_alloc_ok p : in_u 64 p ->
  exists r, page_alloc p = Ok r /\ wr_type r = PageAlloc /\
    forall l, decode_from_slice (wr_payload (set_lsn l r)) = Ok (mkPageAllocRecord p).
Proof.
  intros Hp. destruct (bincode_roundtrip (mkPageAllocRecord p)) as (bs & He & _ & Hd); [by apply Forall_singleton|].
  unfold page_alloc. rewrite He. eexists. split; [done|]. split; [done|]. intros l. simpl.
  rewrite <-(app_nil_r bs). apply Hd.
Qed.

Lemma page_free_ok p : in_u 64 p ->
  exists r, page_free p = Ok r /\ wr_type r = PageFree /\
    forall l, decode_from_slice (wr_payload (set_lsn l r)) = Ok (mkPageFreeRecord p).
Proof.
  intros Hp. destruct (bincode_roundtrip (mkPageFreeRecord p)) as (bs & He & _ & Hd); [by apply Forall_singleton|].
  unfold page_free. rewrite He. eexists. split; [done|]. split; [done|]. intros l. simpl.
  rewrite <-(app_nil_r bs). apply Hd.
Qed.

(** The page [alloc_page] picks and what is left of the freelist. *)
Definition picked a : PageId := default (next_page_id a) (last (freelist a)).
Definition rest_free a : list PageId := take (length (freelist a) - 1) (freelist a).

Lemma freelist_cases a :
  (freelist a = [] /\ picked a = next_page_id a /\ rest_free a = []) \/
  (freelist a = rest_free a ++ [picked a]).
Proof.
  unfold picked, rest_free. destruct (freelist a) as [|x l] using rev_ind; [by left|right].
  rewrite last_snoc, length_app. simpl. by rewrite take_app_length' by lia.
Qed.

Lemma picked_spec a owned :
  alloc_inv a owned -> 1 <= picked a <= next_page_id a /\ (picked a ∉ owned) /\ (picked a ∉ rest_free a) /\
  (picked a = next_page_id a -> freelist a = []).
Proof.
  intros [Hn Hf Hnd Ho]. destruct (freelist_cases a) as [(E1 & E2 & E3)|E].
  - rewrite E2, E3. split; [lia|]. split; [intros H; apply Ho in H; lia|]. split; [set_solver|done].
  - rewrite E in Hf, Hnd. apply Forall_app in Hf as [_ Hp]. apply Forall_cons in Hp as [Hp _].
    apply NoDup_app in Hnd as (_ & Hd & _).
    split; [lia|]. split; [intros H; apply Ho in H as [_ H]; rewrite E in H; set_solver|].
    split; [intros H; apply Hd in H; set_solver|lia].
Qed.

(** The records an operation may append. *)
Lemma alloc_page_spec a owned r a' :
  alloc_inv a owned -> next_page_id a + 1 < 2 ^ 50 -> alloc_page a = (r, a') ->
  match r with
  | Ok p => p = picked a /\ next_page_id a' = Z.max (next_page_id a) (p + 1) /\ freelist a' = rest_free a /\
            p * PAGE_SIZE <= current_file_len a' /\
            exists rec l, page_alloc p = Ok rec /\ pw_log (wal_writer a') = pw_log (wal_writer a) ++ [set_lsn l rec]
  | Err e => next_page_id a' = next_page_id a /\ pw_log (wal_writer a') = pw_log (wal_writer a) /\
             ((e = RecoveryRequired /\ a' = a) \/ freelist a' = rest_free a)
  | Panic => False
  end.
Proof.
  intros Hinv Hmax. pose proof (picked_spec _ _ Hinv) as (Hp & _ & _ & Hpn). pose proof (ai_next _ _ Hinv) as Hn.
  unfold alloc_page. case_match; [intros H'; injection H' as <- <-; by auto|].
  fold (picked a). fold (rest_free a). unfold mbindM at 1, mmodify at 1.
  set (a1 := set_freelist (rest_free a) a). unfold mbindM at 1.
  destruct (ensure_data_file_capacity (picked a) a1) as [r2 a2] eqn:E2.
  apply ensure_capacity_spec in E2 as (Hr2 & (Sw & Sn & Sf) & _ & Hcap); [|lia].
  destruct Hr2 as [-> | ->]; [|intros H'; injection H' as <- <-; rewrite Sn, Sw; simpl; by auto].
  specialize (Hcap eq_refl). destruct (page_alloc_ok (picked a)) as (rec & Hrec & _); [unfold in_u; lia|].
  unfold mbindM at 1, mlift. rewrite Hrec. unfold mbindM at 1, append_wal.
  destruct (pw_append rec (wal_writer a2)) as [r3 w3] eqn:E3. simpl.
  destruct r3 as [l|e|].
  - apply pw_append_ok in E3. unfold mbindM, mmodify, mret. intros H'. injection H' as <- <-.
    split; [done|]. simpl. rewrite Sn. unfold a1. simpl. rewrite Sw in E3. unfold a1 in E3. simpl in E3.
    destruct (Z.eqb_spec (picked a) (next_page_id a)) as [Heq|Hne]; simpl; rewrite ?Sf, ?Sn, ?wrap64_small by lia;
      (split; [simpl; lia|]); (split; [done|]); (split; [done|]); by eauto.
  - apply pw_append_err in E3. intros H'. injection H' as <- <-. simpl.
    rewrite Sn, Sf, E3, Sw. by auto.
  - pose proof (pw_append_no_panic rec (wal_writer a2)) as Hnp. rewrite E3 in Hnp. done.
Qed.

Lemma free_page_spec p a owned r a' :
  alloc_inv a owned -> 0 <= p -> free_page p a = (r, a') ->
  match r with
  | Ok _ => 1 <= p < next_page_id a /\ (p ∉ freelist a) /\ next_page_id a' = next_page_id a /\
            freelist a' = freelist a ++ [p] /\
            exists rec l, page_free p = Ok rec /\ pw_log (wal_writer a') = pw_log (wal_writer a) ++ [set_lsn l rec]
  | Err e => next_page_id a' = next_page_id a /\ pw_log (wal_writer a') = pw_log (wal_writer a) /\ freelist a' = freelist a /\
             (1 <= p < next_page_id a -> p ∉ freelist a -> exists rec, page_free p = Ok rec /\
                fst (pw_append rec (wal_writer a)) = Err e)
  | Panic => False
  end.
Proof.
  intros Hinv H0. pose proof (ai_next _ _ Hinv) as Hn. unfold free_page, PageId_INVALID.
  destruct (Z.eqb_spec p 0); [intros H; injection H as <- <-; repeat split; lia|].
  rewrite Z.geb_leb. destruct (Z.leb_spec (next_page_id a) p); [intros H'; injection H' as <- <-; repeat split; lia|].
  destruct (bool_decide_reflect (p ∈ freelist a)); [intros H'; injection H' as <- <-; by repeat split|].
  destruct (page_free_ok p) as (rec & Hrec & _); [unfold in_u; lia|].
  unfold mbindM, mlift, append_wal, mmodify. rewrite Hrec.
  destruct (pw_append rec (wal_writer a)) as [r3 w3] eqn:E3; simpl. destruct r3 as [l|e|].
  - apply pw_append_ok in E3. intros H'. injection H' as <- <-. simpl.
    split; [lia|]. split; [done|]. split; [done|]. split; [done|]. by eauto.
  - pose proof E3 as E4. apply pw_append_err in E4. intros H'. injection H' as <- <-. simpl.
    split; [done|]. split; [done|]. split; [done|]. intros _ _. exists rec. by rewrite E3.
  - pose proof (pw_append_no_panic rec (wal_writer a)) as Hnp. rewrite E3 in Hnp. done.
Qed.

Lemma alloc_preserves a owned p a' :
  alloc_inv a owned -> next_page_id a + 1 < 2 ^ 50 -> alloc_page a = (Ok p, a') -> alloc_inv a' ({[p]} ∪ owned).
Proof.
  intros Hinv Hm Ha. pose proof (picked_spec _ _ Hinv) as (Hp & Hno & Hnr & Hpn).
  destruct (freelist_cases a) as [(E1 & _ & E2)|E];
    apply (alloc_page_spec _ _ _ _ Hinv Hm) in Ha as (-> & Hn & Hf & _ & _); destruct Hinv as [In If Ind Io].
  - split; rewrite ?Hn, ?Hf, ?E2; [lia|done|constructor|]. intros q Hq. split; [|set_solver].
    apply elem_of_union in Hq as [Hq|Hq]; [apply elem_of_singleton in Hq as ->; lia|apply Io in Hq; lia].
  - rewrite E in If, Ind. apply Forall_app in If as [If Ip]. apply NoDup_app in Ind as (Ind & _ & _).
    split; rewrite ?Hn, ?Hf; [lia| |done|].
    + eapply Forall_impl; [exact If|]. simpl. intros; lia.
    + intros q Hq. apply elem_of_union in Hq as [Hq|Hq].
      * apply elem_of_singleton in Hq as ->. split; [lia|done].
      * apply Io in Hq as [Hq1 Hq2]. rewrite E in Hq2. split; [lia|set_solver].
Qed.

Lemma alloc_err_preserves a owned e a' :
  alloc_inv a owned -> next_page_id a + 1 < 2 ^ 50 -> alloc_page a = (Err e, a') -> alloc_inv a' owned.
Proof.
  intros Hinv Hm Ha. apply (alloc_page_spec _ _ _ _ Hinv Hm) in Ha as (Hn & _ & [[_ ->]|Hf]); [done|].
  destruct Hinv as [In If Ind Io]. split; rewrite ?Hn, ?Hf; unfold rest_free; [done|by apply Forall_take| |].
  - by apply (sublist_NoDup _ (freelist a)), sublist_take.
  - intros q Hq. apply Io in Hq as [? Hq]. split; [done|]. intros Hin. apply Hq. apply elem_of_take in Hin as (i & Hi & _).
    by eapply list_elem_of_lookup_2.
Qed.

Lemma free_preserves a owned p a' :
  alloc_inv a owned -> 0 <= p -> free_page p a = (Ok tt, a') -> alloc_inv a' (owned ∖ {[p]}).
Proof.
  intros Hinv H0 Ha. apply (free_page_spec _ _ _ _ _ Hinv H0) in Ha as (Hp & Hnf & Hn & Hf & _).
  destruct Hinv as [In If Ind Io]. split; rewrite ?Hn, ?Hf; [done| | |].
  - apply Forall_app. split; [done|]. by apply Forall_singleton.
  - apply NoDup_app. split; [done|]. split; [|apply NoDup_singleton]. intros x Hx Hx2. set_solver.
  - intros q Hq. apply elem_of_difference in Hq as [Hq Hne]. apply Io in Hq as [? ?]. split; [done|set_solver].
Qed.

End lemmas.

(** ** Replay as a function of the logged events *)

Inductive PaEvent := EvAlloc (p : PageId) | EvFree (p : PageId).

Definition ev_page (e : PaEvent) : PageId := match e with EvAlloc p | EvFree p => p end.

Definition ev_apply (s : Z * list Z) (e : PaEvent) : Z * list Z :=
  match e with
  | EvAlloc p => (Z.max (fst s) (p + 1), filter (fun id => id <> p) (snd s))
  | EvFree p => (fst s, if bool_decide (p ∈ snd s) then snd s else snd s ++ [p])
  end.

Definition ev_run (evs : list PaEvent) (s : Z * list Z) : Z * list Z := foldl ev_apply s evs.

(** Whether the last event about [p] leaves it free. *)
Fixpoint last_free (p : Z) (evs : list PaEvent) (acc : option bool) : option bool :=
  match evs with
  | [] => acc
  | EvAlloc q :: evs => last_free p evs (if decide (q = p) then Some false else acc)
  | EvFree q :: evs => last_free p evs (if decide (q = p) then Some true else acc)
  end.

Definition top_alloc (evs : list PaEvent) : Z :=
  foldr (fun e m => match e with EvAlloc p => Z.max (p + 1) m | EvFree _ => m end) 0 evs.

Lemma last_free_acc p evs acc :
  last_free p evs acc = match last_free p evs None with Some b => Some b | None => acc end.
Proof.
  revert acc. induction evs as [|[q|q] evs IH]; intros acc; simpl; [done| |].
  all: rewrite IH, (IH (if decide (q = p) then _ else None)); repeat case_match; congruence.
Qed.

Lemma last_free_app p evs1 evs2 acc :
  last_free p (evs1 ++ evs2) acc = last_free p evs2 (last_free p evs1 acc).
Proof. revert acc. induction evs1 as [|[q|q] evs1 IH]; intros acc; simpl; auto. Qed.

Lemma elem_of_ev_run p evs s :
  p ∈ snd (ev_run evs s) <-> match last_free p evs None with Some b => b = true | None => p ∈ snd s end.
Proof.
  revert s. induction evs as [|e evs IH]; intros s; [done|]. unfold ev_run in *. simpl. rewrite IH.
  destruct e as [q|q]; simpl; rewrite (last_free_acc p evs (if decide _ then _ else _));
    destruct (last_free p evs None); try done.
  - rewrite list_elem_of_filter. case_decide; naive_solver.
  - case_bool_decide; case_decide; set_solver.
Qed.

Lemma fst_ev_run evs s : 0 <= fst s -> fst (ev_run evs s) = Z.max (fst s) (top_alloc evs).
Proof.
  revert s. induction evs as [|e evs IH]; intros s Hs; unfold ev_run in *; simpl; [lia|].
  destruct e as [q|q]; rewrite IH; simpl; lia.
Qed.

Lemma NoDup_ev_run evs s : NoDup (snd s) -> NoDup (snd (ev_run evs s)).
Proof.
  revert s. induction evs as [|e evs IH]; intros s Hs; unfold ev_run in *; simpl; [done|]. apply IH.
  destruct e as [q|q]; simpl; [by apply NoDup_filter|]. case_bool_decide; [done|].
  apply NoDup_app. split; [done|]. split; [|apply NoDup_singleton]. set_solver.
Qed.

(** Replaying events again on a state that already reflects a prefix of them
    gives the same allocator, up to the order of the freelist. *)
Lemma ev_run_overlap evs1 evs2 s :
  0 <= fst s -> NoDup (snd s) ->
  let full := ev_run (evs1 ++ evs2) s in
  let again := ev_run (evs1 ++ evs2) (ev_run evs1 s) in
  fst again = fst full /\ snd again ≡ₚ snd full.
Proof.
  intros H0 Hnd. cbv zeta. split.
  - rewrite !fst_ev_run by (rewrite ?fst_ev_run; lia).
    assert (top_alloc (evs1 ++ evs2) = Z.max (top_alloc evs1) (top_alloc evs2)).
    { induction evs1 as [|[q|q] evs1 IH]; simpl; [|lia|done].
      assert (0 <= top_alloc evs2) by (induction evs2 as [|[]]; simpl; lia). lia. }
    lia.
  - apply NoDup_Permutation; [by apply NoDup_ev_run, NoDup_ev_run|by apply NoDup_ev_run|].
    intros p. rewrite (elem_of_ev_run p _ s), (elem_of_ev_run p _ (ev_run evs1 s)), last_free_app, (last_free_acc p evs2 (last_free p evs1 None)).
    destruct (last_free p evs2 None); [done|]. destruct (last_free p evs1 None) eqn:E; [done|].
    by rewrite elem_of_ev_run, E.
Qed.

Section recovery.
Context {BC : Bincode} {BL : BincodeLaws} {W : Type} {PW : PageWal W} {PL : PageWalLaws W}.
Implicit Types (a b : PageAllocator W).

Inductive PaOp := OpAlloc | OpFree (p : PageId).

(** A run of client calls: allocations succeed, a refused or failed [free_page]
    is ignored by the client. *)
Fixpoint pa_run (ops : list PaOp) a : option (PageAllocator W) :=
  match ops with
  | [] => Some a
  | OpAlloc :: ops => match alloc_page a with (Ok _, a) => pa_run ops a | _ => None end
  | OpFree p :: ops => pa_run ops (snd (free_page p a))
  end.

Definition state_of a : Z * list Z := (next_page_id a, freelist a).

(** The records of a list of events, as the log holds them. *)
Inductive logged : PaEvent -> WalRecord -> Prop :=
| logged_alloc p r l : 1 <= p < 2 ^ 50 -> page_alloc p = Ok r -> logged (EvAlloc p) (set_lsn l r)
| logged_free p r l : 1 <= p < 2 ^ 50 -> page_free p = Ok r -> logged (EvFree p) (set_lsn l r).

Lemma filter_picked a owned :
  alloc_inv a owned -> filter (fun id => id <> picked a) (freelist a) = rest_free a.
Proof.
  intros Hinv. pose proof (picked_spec _ _ Hinv) as (_ & _ & Hnr & _).
  assert (Hall : filter (fun id => id <> picked a) (rest_free a) = rest_free a).
  { clear - Hnr. induction (rest_free a) as [|x l IH]; [done|].
    rewrite filter_cons_True by set_solver. f_equal. apply IH. set_solver. }
  destruct (freelist_cases a) as [(E1 & _ & E2)|E]; [by rewrite E1, E2|].
  rewrite E at 1. rewrite filter_app, Hall. rewrite filter_cons_False, filter_nil by naive_solver.
  apply app_nil_r.
Qed.

Lemma pa_run_events ops a owned a' :
  alloc_inv a owned -> next_page_id a + Z.of_nat (length ops) < 2 ^ 50 ->
  Forall (fun op => match op with OpFree p => 0 <= p | OpAlloc => True end) ops ->
  pa_run ops a = Some a' ->
  exists evs recs, pw_log (wal_writer a') = pw_log (wal_writer a) ++ recs /\ Forall2 logged evs recs /\
    state_of a' = ev_run evs (state_of a) /\ exists owned', alloc_inv a' owned'.
Proof.
  revert a owned. induction ops as [|op ops IH]; intros a owned Hinv Hmax Hops Hrun; simpl in *.
  { injection Hrun as <-. exists [], []. rewrite app_nil_r. by eauto. }
  apply Forall_cons in Hops as [Hop Hops]. destruct op as [|p].
  - destruct (alloc_page a) as [[p|e|] a1] eqn:Ea; [|done|done].
    pose proof (alloc_preserves _ _ _ _ Hinv ltac:(lia) Ea) as Hinv1.
    pose proof (picked_spec _ _ Hinv) as (Hp & _ & _ & _). pose proof (ai_next _ _ Hinv).
    pose proof (filter_picked _ _ Hinv) as Hfil.
    apply (alloc_page_spec _ _ _ _ Hinv ltac:(lia)) in Ea as (-> & Hn & Hf & _ & rec & l & Hrec & Hlog).
    destruct (IH a1 _ Hinv1) as (evs & recs & Hl & Hlg & Hst & Ho); [lia|done|done|].
    exists (EvAlloc (picked a) :: evs), (set_lsn l rec :: recs).
    split; [by rewrite Hl, Hlog, <-app_assoc|]. split; [constructor; [by constructor; [lia|]|done]|]. split; [|done].
    rewrite Hst. unfold ev_run. simpl. f_equal. unfold state_of. rewrite Hn, Hf, <-Hfil. done.
  - destruct (free_page p a) as [r a1] eqn:Ea. simpl in Hrun. pose proof (ai_next _ _ Hinv).
    pose proof Ea as Ea'. apply (free_page_spec _ _ _ _ _ Hinv Hop) in Ea. destruct r as [[]|e|]; [| |done].
    + pose proof (free_preserves _ _ _ _ Hinv Hop Ea') as Hinv1.
      destruct Ea as (Hp & Hnf & Hn & Hf & rec & l & Hrec & Hlog).
      destruct (IH a1 _ Hinv1) as (evs & recs & Hl & Hlg & Hst & Ho); [lia|done|done|].
      exists (EvFree p :: evs), (set_lsn l rec :: recs).
      split; [by rewrite Hl, Hlog, <-app_assoc|]. split; [constructor; [by constructor; [lia|]|done]|]. split; [|done].
      rewrite Hst. unfold ev_run. simpl. f_equal. unfold state_of. rewrite Hn, Hf. simpl.
      by rewrite bool_decide_eq_false_2.
    + destruct Ea as (Hn & Hlog & Hf & _).
      assert (Hinv1 : alloc_inv a1 owned) by (destruct Hinv; split; rewrite ?Hn, ?Hf; done).
      destruct (IH a1 _ Hinv1) as (evs & recs & Hl & Hlg & Hst & Ho); [lia|done|done|].
      exists evs, recs. rewrite Hl, Hlog. split; [done|]. split; [done|]. split; [|done].
      rewrite Hst. unfold state_of. by rewrite Hn, Hf.
Qed.

Lemma pa_run_next ops a owned a' :
  alloc_inv a owned -> next_page_id a + Z.of_nat (length ops) < 2 ^ 50 ->
  Forall (fun op => match op with OpFree p => 0 <= p | OpAlloc => True end) ops ->
  pa_run ops a = Some a' -> next_page_id a' <= next_page_id a + Z.of_nat (length ops).
Proof.
  revert a owned. induction ops as [|[|p] ops IH]; intros a owned Hinv Hmax Hops Hrun; simpl in *.
  - injection Hrun as <-. lia.
  - destruct (alloc_page a) as [[q|e|] a1] eqn:E; [|done|done]. apply Forall_cons in Hops as [_ Hops].
    pose proof (alloc_preserves _ _ _ _ Hinv ltac:(lia) E) as Hinv1. pose proof (picked_spec _ _ Hinv) as (Hp & _).
    apply (alloc_page_spec _ _ _ _ Hinv ltac:(lia)) in E as (-> & Hn & _).
    specialize (IH a1 _ Hinv1 ltac:(lia) Hops Hrun). lia.
  - apply Forall_cons in Hops as [Hp Hops]. destruct (free_page p a) as [[[]|e|] a1] eqn:E; simpl in Hrun;
      pose proof E as E'; apply (free_page_spec _ _ _ _ _ Hinv Hp) in E; [| |done].
    + pose proof (free_preserves _ _ _ _ Hinv Hp E') as Hinv1. destruct E as (_ & _ & Hn & _).
      specialize (IH a1 _ Hinv1 ltac:(lia) Hops Hrun). lia.
    + destruct E as (Hn & _ & Hf & _).
      assert (Hinv1 : alloc_inv a1 owned) by (destruct Hinv; split; rewrite ?Hn, ?Hf; done).
      specialize (IH a1 _ Hinv1 ltac:(lia) Hops Hrun). lia.
Qed.

Lemma replay_event e r b :
  logged e r -> data_io b = [] ->
  exists b', replay_record r b = (Ok tt, b') /\ data_io b' = [] /\ state_of b' = ev_apply (state_of b) e.
Proof.
  intros Hl Hio. destruct Hl as [p r l Hp Hr|p r l Hp Hr].
  - destruct (page_alloc_ok p) as (r' & Hr' & Ht & Hd); [unfold in_u; lia|].
    rewrite Hr in Hr'. apply Ok_inj in Hr' as <-. unfold replay_record. change (wr_type (set_lsn l r)) with (wr_type r). rewrite Ht.
    unfold mbindM at 1, mlift. rewrite Hd. cbn [pa_page_id]. unfold apply_page_alloc, mbindM, mmodify.
    match goal with |- context [ensure_data_file_capacity p ?x] => set (b1 := x) end.
    destruct (ensure_data_file_capacity p b1) as [r2 b2] eqn:E.
    apply ensure_capacity_spec in E as (_ & (_ & Sn & Sf) & Hi & _); [|lia].
    destruct Hi as [-> Hio2]; [unfold b1; case_match; done|].
    eexists. split; [done|]. split; [done|]. unfold state_of. simpl. rewrite Sn, Sf. unfold b1. simpl.
    rewrite Z.geb_leb. destruct (Z.leb_spec (next_page_id b) p); simpl; rewrite ?wrap64_small by lia; f_equal; lia.
  - destruct (page_free_ok p) as (r' & Hr' & Ht & Hd); [unfold in_u; lia|].
    rewrite Hr in Hr'. apply Ok_inj in Hr' as <-. unfold replay_record. change (wr_type (set_lsn l r)) with (wr_type r). rewrite Ht.
    unfold mbindM at 1, mlift. rewrite Hd. cbn [pf_page_id]. unfold mmodify, apply_page_free.
    eexists. split; [done|]. unfold state_of. simpl. case_bool_decide; done.
Qed.

Lemma replay_events evs recs b :
  Forall2 logged evs recs -> data_io b = [] ->
  exists b', replay_all recs b = (Ok tt, b') /\ state_of b' = ev_run evs (state_of b).
Proof.
  intros Hl. revert b. induction Hl as [|e r evs recs Her _ IH]; intros b Hio; [by eexists|].
  destruct (replay_event _ _ _ Her Hio) as (b1 & Hr & Hio1 & Hs1). destruct (IH b1 Hio1) as (b2 & Hr2 & Hs2).
  exists b2. simpl. unfold mbindM. rewrite Hr. split; [done|]. rewrite Hs2, Hs1. done.
Qed.

(** C38: exclusive ownership.  A page handed out is never one that a client
    already owns; it fits the data file; freeing returns it to the free list
    exactly once.  A failed call never changes the log or who owns what, but an
    allocation that fails after taking a page from the free list drops that page:
    it is neither owned nor free until the next restart. *)
Theorem allocator_exclusive a owned p :
  alloc_inv a owned -> next_page_id a + 1 < 2 ^ 50 -> 0 <= p ->
  (match alloc_page a with
   | (Ok q, a') => (q ∉ owned) /\ 1 <= q /\ q * PAGE_SIZE <= current_file_len a' /\ alloc_inv a' ({[q]} ∪ owned)
   | (Err e, a') => alloc_inv a' owned /\ pw_log (wal_writer a') = pw_log (wal_writer a) /\
                    ((e = RecoveryRequired /\ a' = a) \/ freelist a' = take (length (freelist a) - 1) (freelist a))
   | (Panic, _) => False
   end) /\
  (match free_page p a with
   | (Ok _, a') => 1 <= p < next_page_id a /\ (p ∉ freelist a) /\ freelist a' = freelist a ++ [p] /\
                   alloc_inv a' (owned ∖ {[p]})
   | (Err _, a') => alloc_inv a' owned /\ pw_log (wal_writer a') = pw_log (wal_writer a) /\ freelist a' = freelist a
   | (Panic, _) => False
   end).
Proof.
  intros Hinv Hm H0. split.
  - pose proof (picked_spec _ _ Hinv) as (Hp & Hno & _ & _).
    destruct (alloc_page a) as [[q|e|] a'] eqn:E; pose proof E as E'; apply (alloc_page_spec _ _ _ _ Hinv Hm) in E; [| |done].
    + destruct E as (-> & _ & _ & Hc & _). split; [done|]. split; [lia|]. split; [done|]. by eapply alloc_preserves.
    + destruct E as (_ & Hl & Hf). split; [by eapply alloc_err_preserves|]. by split.
  - destruct (free_page p a) as [[[]|e|] a'] eqn:E; pose proof E as E'; apply (free_page_spec _ _ _ _ _ Hinv H0) in E; [| |done].
    + destruct E as (Hp & Hnf & _ & Hf & _). split; [done|]. split; [done|]. split; [done|]. by eapply free_preserves.
    + destruct E as (Hn & Hl & Hf & _). split; [|done]. destruct Hinv; split; rewrite ?Hn, ?Hf; done.
Qed.

(** the allocator is recovered from the log.  Start from the state of a
    checkpoint, run any client calls; then replaying the records they appended on
    an allocator seeded with the checkpoint's next page id and freelist snapshot
    rebuilds exactly the next page id and the freelist.  If the snapshot already
    reflects a prefix of the replayed records, the result is the same up to the
    order of the freelist: redo is idempotent. *)
Theorem allocator_recovery ops1 ops2 (a0 a1 a2 b0 b1 : PageAllocator W) owned lsn tail :
  alloc_inv a0 owned -> next_page_id a0 + Z.of_nat (length (ops1 ++ ops2)) < 2 ^ 50 ->
  Forall (fun op => match op with OpFree p => 0 <= p | OpAlloc => True end) (ops1 ++ ops2) ->
  pa_run ops1 a0 = Some a1 -> pa_run ops2 a1 = Some a2 ->
  pw_log (wal_writer a2) = pw_log (wal_writer a0) ++ tail ->
  data_io b0 = [] -> next_page_id b0 = next_page_id a0 ->
  data_io b1 = [] -> next_page_id b1 = next_page_id a1 ->
  (exists b, replay_all tail (seed_freelist (fm_page_ids (pa_snapshot lsn a0)) b0) = (Ok tt, b) /\
     next_page_id b = next_page_id a2 /\ freelist b = freelist a2) /\
  (exists b, replay_all tail (seed_freelist (fm_page_ids (pa_snapshot lsn a1)) b1) = (Ok tt, b) /\
     next_page_id b = next_page_id a2 /\ freelist b ≡ₚ freelist a2).
Proof.
  intros Hinv Hmax Hops H1 H2 Hlog Hio0 Hn0 Hio1 Hn1. rewrite length_app in Hmax. apply Forall_app in Hops as [Ho1 Ho2].
  destruct (pa_run_events ops1 a0 owned a1 Hinv ltac:(lia) Ho1 H1) as (ev1 & rec1 & L1 & F1 & S1 & ow1 & Hinv1).
  pose proof (pa_run_next ops1 a0 owned a1 Hinv ltac:(lia) Ho1 H1) as Hnx.
  destruct (pa_run_events ops2 a1 ow1 a2 Hinv1 ltac:(lia) Ho2 H2) as (ev2 & rec2 & L2 & F2 & S2 & ow2 & Hinv2).
  assert (tail = rec1 ++ rec2) as ->.
  { rewrite L2, L1, <-app_assoc in Hlog. by apply app_inv_head in Hlog. }
  assert (F : Forall2 logged (ev1 ++ ev2) (rec1 ++ rec2)) by (by apply Forall2_app).
  assert (Hfull : state_of a2 = ev_run (ev1 ++ ev2) (state_of a0)).
  { rewrite S2, S1. unfold ev_run. by rewrite foldl_app. }
  split.
  - destruct (replay_events _ _ (seed_freelist (fm_page_ids (pa_snapshot lsn a0)) b0) F Hio0) as (b & Hr & Hs).
    exists b. split; [done|]. unfold state_of in *. simpl in Hs. rewrite Hn0, <-Hfull in Hs. by injection Hs.
  - destruct (replay_events _ _ (seed_freelist (fm_page_ids (pa_snapshot lsn a1)) b1) F Hio1) as (b & Hr & Hs).
    exists b. split; [done|]. destruct (ev_run_overlap ev1 ev2 (state_of a0)) as [Hf Hp];
      [pose proof (ai_next _ _ Hinv); simpl; lia|apply (ai_nodup _ _ Hinv)|].
    unfold state_of in Hs at 2. simpl in Hs. rewrite Hn1 in Hs.
    change (next_page_id a1, freelist a1) with (state_of a1) in Hs. rewrite S1 in Hs.
    change (next_page_id b) with (fst (state_of b)). change (freelist b) with (snd (state_of b)).
    change (next_page_id a2) with (fst (state_of a2)). change (freelist a2) with (snd (state_of a2)).
    by rewrite Hs, Hfull.
Qed.

End recovery.

(** ** The freelist snapshot file *)

Section freelist_codec.
Variable crc32 : list Z -> Z.
Hypothesis crc32_range : forall bs, in_u 32 (crc32 bs).

Lemma read_ids_concat ids pre :
  Forall (in_u 64) ids ->
  read_ids (length ids) (zlen pre) (pre ++ concat (le_bytes 8 <$> ids)) = Ok ids.
Proof.
  intros Hids. revert pre. induction Hids as [|x ids Hx _ IH]; intros pre; [done|].
  cbn [length read_ids fmap list_fmap concat]. rewrite slice_get_ok.
  2,3,4: rewrite ?length_app, ?length_le_bytes; lia.
  rewrite slice_app_r, Z.sub_diag, slice_app_exact by (rewrite ?length_le_bytes; lia). cbn [res_bind].
  specialize (IH (pre ++ le_bytes 8 x)). rewrite length_app, length_le_bytes, <-app_assoc in IH.
  replace (zlen pre + 8) with (Z.of_nat (length pre + 8)) by lia. rewrite IH. cbn [res_bind].
  rewrite le_val_le_bytes_id; [done|]. unfold in_u in Hx. simpl. lia.
Qed.

Lemma length_concat_ids ids : zlen (concat (le_bytes 8 <$> ids)) = 8 * zlen ids.
Proof. induction ids as [|x ids IH]; [done|]. cbn [fmap list_fmap concat]. rewrite length_app, length_le_bytes. simpl length. lia. Qed.

Lemma read_ids_no_panic n off body :
  0 <= off -> off + 8 * Z.of_nat n <= zlen body -> read_ids n off body <> Panic.
Proof.
  revert off. induction n as [|n IH]; intros off H0 Hl; [done|]. cbn [read_ids].
  rewrite slice_get_ok by lia. cbn [res_bind]. specialize (IH (off + 8) ltac:(lia) ltac:(lia)).
  by destruct (read_ids n (off + 8) body).
Qed.

Lemma FreelistMeta_roundtrip m :
  in_u 64 (fm_checkpoint_lsn m) -> Forall (in_u 64) (fm_page_ids m) -> zlen (fm_page_ids m) <= MAX_VEC_U64 ->
  FreelistMeta_decode crc32 (FreelistMeta_encode crc32 m) = Ok m.
Proof.
  intros Hl Hids Hn. unfold FreelistMeta_decode, FreelistMeta_encode, CRC_SIZE, BODY_HEADER_SIZE.
  set (body := FreelistMeta_body m). pose proof (crc32_range body) as Hc. unfold in_u in Hc.
  assert (Hmax : MAX_VEC_U64 = 1152921504606846975) by reflexivity.
  assert (Hlen : zlen body = 16 + 8 * zlen (fm_page_ids m)).
  { unfold body, FreelistMeta_body. rewrite !length_app, !length_le_bytes. pose proof (length_concat_ids (fm_page_ids m)). lia. }
  rewrite length_app, length_le_bytes, (proj2 (Z.ltb_ge _ _)) by lia.
  rewrite get_le_head by (simpl; lia). change (Z.to_nat 4) with 4%nat.
  rewrite drop_app_length' by (by rewrite length_le_bytes). rewrite Z.eqb_refl. cbn [negb].
  assert (Hcount : get_le 8 8 body = zlen (fm_page_ids m)).
  { unfold body, FreelistMeta_body. rewrite get_le_skip by (by rewrite length_le_bytes).
    rewrite length_le_bytes. replace (8 - Z.of_nat 8) with 0 by lia. apply get_le_head. simpl. lia. }
  rewrite Hcount. rewrite !wrap64_small by (rewrite ?wrap64_small; lia). rewrite (proj2 (Z.eqb_eq _ _)) by lia. cbn [negb].
  unfold rassert. rewrite (proj2 (Z.leb_le _ _)), Nat2Z.id by lia. unfold body, FreelistMeta_body. rewrite app_assoc.
  pose proof (read_ids_concat (fm_page_ids m) (le_bytes 8 (fm_checkpoint_lsn m) ++ le_bytes 8 (zlen (fm_page_ids m))) Hids) as Hr.
  rewrite length_app, !length_le_bytes in Hr. change (Z.of_nat (8 + 8)) with 16 in Hr. rewrite Hr. cbn [res_bind].
  rewrite <-app_assoc, get_le_head by done. by destruct m.
Qed.

Lemma FreelistMeta_panic bytes :
  wf_bytes bytes -> 20 <= zlen bytes < 2 ^ 63 ->
  FreelistMeta_decode crc32 bytes = Panic <->
    get_le 4 0 bytes = crc32 (drop 4 bytes) /\ MAX_VEC_U64 < get_le 8 12 bytes /\
    zlen bytes - 4 = wrap64 (16 + wrap64 (8 * get_le 8 12 bytes)).
Proof.
  intros Hwf Hb. unfold FreelistMeta_decode, CRC_SIZE, BODY_HEADER_SIZE. rewrite (proj2 (Z.ltb_ge _ _)) by lia.
  change (Z.to_nat 4) with 4%nat. assert (Hmax : MAX_VEC_U64 = 1152921504606846975) by reflexivity.
  assert (Hc : get_le 8 8 (drop 4 bytes) = get_le 8 12 bytes).
  { unfold get_le, slice. rewrite drop_drop. done. }
  rewrite Hc, length_drop. pose proof (get_le_bound 8 12 bytes Hwf ltac:(lia) ltac:(lia)) as Hbd. simpl in Hbd.
  rewrite (Z.mul_comm (get_le 8 12 bytes) 8). replace (Z.of_nat (length bytes - 4)) with (zlen bytes - 4) by lia.
  destruct (Z.eqb_spec (get_le 4 0 bytes) (crc32 (drop 4 bytes))) as [He|He]; cbn [negb]; [|by split; [|intros []]].
  destruct (Z.eqb_spec (zlen bytes - 4) (wrap64 (16 + wrap64 (8 * get_le 8 12 bytes)))) as [Hz|Hz]; cbn [negb];
    [|by split; [|intros (_ & _ & ?)]].
  unfold rassert. destruct (Z.leb_spec (get_le 8 12 bytes) MAX_VEC_U64) as [Hle|Hgt]; [|by split].
  rewrite !wrap64_small in Hz by (rewrite ?wrap64_small; lia).
  split; [|lia]. intros Hp. exfalso.
  pose proof (read_ids_no_panic (Z.to_nat (get_le 8 12 bytes)) 16 (drop 4 bytes)) as Hnp.
  rewrite length_drop in Hnp. specialize (Hnp ltac:(lia) ltac:(lia)).
  by destruct (read_ids (Z.to_nat (get_le 8 12 bytes)) 16 (drop 4 bytes)).
Qed.

(** The freelist snapshot file.  Decoding an encoded snapshot gives it back;
    bytes whose stored CRC is not the CRC of the body are reported as corrupted;
    and the decoder panics on exactly one kind of file: a valid CRC over a body
    whose entry count is so large that its size computation wraps around. *)
Theorem freelist_meta_codec m bytes :
  in_u 64 (fm_checkpoint_lsn m) -> Forall (in_u 64) (fm_page_ids m) -> zlen (fm_page_ids m) <= MAX_VEC_U64 ->
  wf_bytes bytes -> 20 <= zlen bytes < 2 ^ 63 ->
  FreelistMeta_decode crc32 (FreelistMeta_encode crc32 m) = Ok m /\
  (get_le 4 0 bytes <> crc32 (drop 4 bytes) -> FreelistMeta_decode crc32 bytes = Err MetadataCorrupted) /\
  (FreelistMeta_decode crc32 bytes = Panic <->
     get_le 4 0 bytes = crc32 (drop 4 bytes) /\ MAX_VEC_U64 < get_le 8 12 bytes /\
     zlen bytes - 4 = wrap64 (16 + wrap64 (8 * get_le 8 12 bytes))).
Proof.
  intros Hl Hids Hn Hwf Hb. split; [by apply FreelistMeta_roundtrip|]. split; [|by apply FreelistMeta_panic].
  intros Hne. unfold FreelistMeta_decode, CRC_SIZE, BODY_HEADER_SIZE. rewrite (proj2 (Z.ltb_ge _ _)) by lia.
  change (Z.to_nat 4) with 4%nat. by rewrite (proj2 (Z.eqb_neq _ _)).
Qed.

End freelist_codec.

(** ** Witnesses *)

(** A log in memory: appends succeed while the script says so. *)
Record LogWal := mkLogWal { lg_recs : list WalRecord; lg_next : Lsn; lg_io : list bool }.

#[export] Instance LogWal_PageWal : PageWal LogWal := {|
  pw_append r w :=
    if hd true (lg_io w)
    then (Ok (lg_next w), mkLogWal (lg_recs w ++ [set_lsn (lg_next w) r]) (lg_next w + 40) (tl (lg_io w)))
    else (Err WalWriteFailed, mkLogWal (lg_recs w) (lg_next w) (tl (lg_io w)));
  pw_log := lg_recs |}.

#[export] Instance LogWal_laws : PageWalLaws LogWal.
Proof.
  split; simpl; intros; case_match; simplify_eq; done.
Qed.

Definition demo_alloc : PageAllocator LogWal := mkPageAllocator (mkLogWal [] 8 []) [] 1048576 3 [2] true.

Lemma demo_alloc_inv : alloc_inv demo_alloc {[1]}.
Proof.
  split; simpl; [lia|repeat constructor; lia|apply NoDup_singleton|].
  intros p Hp. apply elem_of_singleton in Hp as ->. split; [lia|]. intros H. apply list_elem_of_singleton in H. lia.
Qed.

Lemma allocator_exclusive_witness :
  match alloc_page demo_alloc with
  | (Ok q, a') => (q ∉ ({[1]} : gset Z)) /\ 1 <= q /\ q * PAGE_SIZE <= current_file_len a' /\
                  alloc_inv a' ({[q]} ∪ {[1]})
  | (Err e, a') => alloc_inv a' {[1]} /\ pw_log (wal_writer a') = pw_log (wal_writer demo_alloc) /\
                   ((e = RecoveryRequired /\ a' = demo_alloc) \/
                    freelist a' = take (length (freelist demo_alloc) - 1) (freelist demo_alloc))
  | (Panic, _) => False
  end.
Proof. apply (allocator_exclusive demo_alloc {[1]} 1 demo_alloc_inv); simpl; lia. Defined.

Definition demo_ops1 : list PaOp := [OpAlloc; OpFree 1].
Definition demo_ops2 : list PaOp := [OpAlloc; OpAlloc; OpFree 2].
Definition demo_mid : PageAllocator LogWal := default demo_alloc (pa_run demo_ops1 demo_alloc).
Definition demo_end : PageAllocator LogWal := default demo_alloc (pa_run demo_ops2 demo_mid).

Lemma allocator_recovery_witness :
  (exists b, replay_all (lg_recs (wal_writer demo_end)) (seed_freelist [2] demo_alloc) = (Ok tt, b) /\
     next_page_id b = 4 /\ freelist b = [2]) /\
  exists b, replay_all (lg_recs (wal_writer demo_end)) (seed_freelist [1] demo_alloc) = (Ok tt, b) /\
     next_page_id b = 4 /\ freelist b ≡ₚ [2].
Proof.
  apply (allocator_recovery demo_ops1 demo_ops2 demo_alloc demo_mid demo_end demo_alloc demo_alloc {[1]} 8
           (lg_recs (wal_writer demo_end)) demo_alloc_inv); try (vm_compute; reflexivity).
  repeat constructor; vm_compute; discriminate.
Defined.

Lemma freelist_meta_codec_witness :
  FreelistMeta_decode sum32 (FreelistMeta_encode sum32 (mkFreelistMeta 64 [3; 9])) = Ok (mkFreelistMeta 64 [3; 9]).
Proof.
  apply (freelist_meta_codec sum32 sum32_range (mkFreelistMeta 64 [3; 9]) (zeros 20)).
  - unfold in_u; simpl; lia.
  - repeat constructor; unfold in_u; lia.
  - vm_compute. discriminate.
  - apply wf_zeros.
  - rewrite length_zeros. lia.
Defined.
