(* ===== verification/BtreeKey.v ===== *)
(** * B+Tree index keys

    Models [pg-am-btree/src/key.rs] (the order-preserving key encoding) and the
    error enum of [error.rs].  [Ok]/[Err] as everywhere; the comparison the tree
    uses on encoded keys is [bytes_cmp], Rust's [Ord] on [[u8]]. *)

From S2P Require Import Prelude Types LinePointer Tuple.
Local Open Scope Z_scope.
Local Open Scope rust_scope.

Inductive BTreeError :=
| BtPageFull (needed available : Z)
| BtKeyTooLarge (len : Z)
| BtDuplicateKey
| BtEntryNotFound
| BtCorrupted
| BtInvalidArgument
| BtUnsupported
| BtHeap (e : HeapError)
| BtStorage (e : StorageError).

Definition MAX_INDEX_KEY_BYTES : Z := (PAGE_SIZE - 32 - 16) / 3 - 16.

Definition is_supported_key_type (key_type : ColumnType) : bool :=
  match key_type with Int4 | Int8 | Text | Bytea => true | _ => false end.

Definition encode_i32 (v : Z) : list Z := be_bytes 4 (Z.lxor (to_unsigned 32 v) 0x80000000).
Definition decode_i32 (bytes : list Z) : Z := to_signed 32 (Z.lxor (be_val bytes) 0x80000000).
Definition encode_i64 (v : Z) : list Z := be_bytes 8 (Z.lxor (to_unsigned 64 v) 0x8000000000000000).
Definition decode_i64 (bytes : list Z) : Z := to_signed 64 (Z.lxor (be_val bytes) 0x8000000000000000).

Definition encode_key (d : Datum) : res BTreeError (list Z) :=
  let? bytes :=
    match d with
    | DInt4 v => Ok (encode_i32 v)
    | DInt8 v => Ok (encode_i64 v)
    | DText s => Ok s
    | DBytea b => Ok b
    | _ => Err BtInvalidArgument
    end in
  if zlen bytes >? MAX_INDEX_KEY_BYTES then Err (BtKeyTooLarge (zlen bytes)) else Ok bytes.

Definition decode_key (key_type : ColumnType) (bytes : list Z) : res BTreeError Datum :=
  match key_type with
  | Int4 => if zlen bytes =? 4 then Ok (DInt4 (decode_i32 bytes)) else Err BtCorrupted
  | Int8 => if zlen bytes =? 8 then Ok (DInt8 (decode_i64 bytes)) else Err BtCorrupted
  | Text => if utf8_valid bytes then Ok (DText bytes) else Err BtCorrupted
  | Bytea => Ok (DBytea bytes)
  | _ => Err BtInvalidArgument
  end.

(** ** Lemmas: big-endian order *)

Lemma be_val_cons x l : be_val (x :: l) = be_val l + 256 ^ zlen l * x.
Proof.
  unfold be_val. simpl rev. rewrite <-(length_rev l). generalize (rev l). clear. intros l.
  induction l as [|y l IH]; [unfold le_val; simpl; lia|].
  change ((y :: l) ++ [x]) with (y :: (l ++ [x])). change (le_val (y :: (l ++ [x]))) with (y + 256 * le_val (l ++ [x])).
  change (le_val (y :: l)) with (y + 256 * le_val l). rewrite IH. simpl length.
  rewrite Nat2Z.inj_succ, Z.pow_succ_r by lia. lia.
Qed.

Lemma be_val_bound l : wf_bytes l -> 0 <= be_val l < 256 ^ zlen l.
Proof. intros H. unfold be_val. rewrite <-(length_rev l). by apply le_val_bound, Forall_rev. Qed.

(** On byte strings of equal length, slice order is numeric order. *)
Lemma bytes_cmp_be_val a b :
  wf_bytes a -> wf_bytes b -> length a = length b -> bytes_cmp a b = (be_val a ?= be_val b).
Proof.
  intros Ha. revert b. induction Ha as [|x a Hx Ha IH]; intros b Hb Hl; [by destruct b|].
  destruct Hb as [|y b Hy Hb]; [done|]. simpl in Hl. injection Hl as Hl.
  cbn [bytes_cmp]. rewrite !be_val_cons, Hl. pose proof (be_val_bound a Ha) as Ba. pose proof (be_val_bound b Hb) as Bb.
  rewrite Hl in Ba. assert (0 < 256 ^ zlen b) by lia.
  destruct (Z.compare_spec x y) as [->|Hlt|Hgt].
  - rewrite IH by done. destruct (Z.compare_spec (be_val a) (be_val b)); symmetry;
      [apply Z.compare_eq_iff; lia|apply Z.compare_lt_iff; lia|apply Z.compare_gt_iff; lia].
  - symmetry. apply Z.compare_lt_iff. nia.
  - symmetry. apply Z.compare_gt_iff. nia.
Qed.

(** Flipping the sign bit of a two's complement word adds the bias. *)
Lemma flip_sign w v :
  0 < w -> in_i w v -> Z.lxor (to_unsigned w v) (2 ^ (w - 1)) = v + 2 ^ (w - 1).
Proof.
  intros Hw [Hl Hu]. set (m := 2 ^ (w - 1)) in *. assert (H2 : 2 ^ w = 2 * m) by (unfold m; rewrite <-Z.pow_succ_r by lia; f_equal; lia).
  assert (Hadd : forall u, 0 <= u < m -> Z.lxor u m = u + m).
  { intros u Hu'. symmetry. apply Z.add_nocarry_lxor. apply Z.bits_inj'. intros k Hk. rewrite Z.land_spec, Z.bits_0.
    unfold m. rewrite Z.pow2_bits_eqb by lia. destruct (Z.eqb_spec (w - 1) k) as [<-|]; [|by rewrite andb_false_r].
    rewrite <-(Z.mod_small u m) by done. unfold m. by rewrite Z.mod_pow2_bits_high by lia. }
  unfold to_unsigned. rewrite H2. destruct (decide (0 <= v)).
  - rewrite Z.mod_small by lia. by apply Hadd.
  - replace (v mod (2 * m)) with (v + m + m) by (rewrite <-(Z.mod_small (v + m + m) (2 * m)) by lia;
      replace (v + m + m) with (v + 1 * (2 * m)) by lia; apply Z_mod_plus_full).
    rewrite <-Hadd by lia. rewrite Z.lxor_assoc, Z.lxor_nilpotent, Z.lxor_0_r. lia.
Qed.

Lemma unflip_sign w x :
  0 < w -> 0 <= x < 2 ^ w -> to_signed w (Z.lxor x (2 ^ (w - 1))) = x - 2 ^ (w - 1).
Proof.
  intros Hw Hx. assert (H2 : 2 ^ w = 2 * 2 ^ (w - 1)) by (rewrite <-Z.pow_succ_r by lia; f_equal; lia).
  set (v := x - 2 ^ (w - 1)). assert (Hv : in_i w v) by (unfold in_i, v; lia).
  replace x with (Z.lxor (to_unsigned w v) (2 ^ (w - 1))) by (rewrite flip_sign by done; unfold v; lia).
  rewrite Z.lxor_assoc, Z.lxor_nilpotent, Z.lxor_0_r. by apply to_signed_unsigned.
Qed.

Lemma encode_int_eq w n v :
  w = 8 * Z.of_nat n -> 0 < w -> in_i w v ->
  be_bytes n (Z.lxor (to_unsigned w v) (2 ^ (w - 1))) = be_bytes n (v + 2 ^ (w - 1)) /\
  0 <= v + 2 ^ (w - 1) < 256 ^ Z.of_nat n.
Proof.
  intros -> Hw Hv. rewrite flip_sign by done. split; [done|]. destruct Hv as [? ?].
  rewrite <-(Z.pow_mul_r 2 8) by lia. assert (2 ^ (8 * Z.of_nat n) = 2 * 2 ^ (8 * Z.of_nat n - 1)) by (rewrite <-Z.pow_succ_r by lia; f_equal; lia).
  lia.
Qed.

Lemma int_key_order w n a b :
  w = 8 * Z.of_nat n -> 0 < w -> in_i w a -> in_i w b ->
  bytes_cmp (be_bytes n (Z.lxor (to_unsigned w a) (2 ^ (w - 1)))) (be_bytes n (Z.lxor (to_unsigned w b) (2 ^ (w - 1)))) = (a ?= b).
Proof.
  intros Hw H0 Ha Hb. destruct (encode_int_eq w n a Hw H0 Ha) as [-> Ra]. destruct (encode_int_eq w n b Hw H0 Hb) as [-> Rb].
  rewrite bytes_cmp_be_val by (apply wf_be_bytes || by rewrite !length_be_bytes).
  rewrite !be_val_be_bytes by done.
  destruct (Z.compare_spec a b); [apply Z.compare_eq_iff; lia|apply Z.compare_lt_iff; lia|apply Z.compare_gt_iff; lia].
Qed.

Lemma int_key_roundtrip w n v :
  w = 8 * Z.of_nat n -> 0 < w -> in_i w v ->
  to_signed w (Z.lxor (be_val (be_bytes n (Z.lxor (to_unsigned w v) (2 ^ (w - 1))))) (2 ^ (w - 1))) = v.
Proof.
  intros Hw H0 Hv. destruct (encode_int_eq w n v Hw H0 Hv) as [-> Hr]. rewrite be_val_be_bytes by done.
  rewrite unflip_sign; [lia|lia|]. rewrite <-(Z.pow_mul_r 2 8), <-Hw in Hr by lia. done.
Qed.

(** A text or bytea key is accepted up to the limit and refused above it. *)
Lemma encode_varlen_key d s : d = DText s \/ d = DBytea s ->
  (3 * (zlen s + 16) <= 8192 - 32 - 16 -> encode_key d = Ok s) /\
  (8192 - 32 - 16 < 3 * (zlen s + 16) -> encode_key d = Err (BtKeyTooLarge (zlen s))).
Proof.
  assert (HM : MAX_INDEX_KEY_BYTES = 2698) by reflexivity.
  intros [-> | ->]; unfold encode_key; cbn [res_bind]; rewrite HM, Z.gtb_ltb; (split; intros Hs);
    [rewrite (proj2 (Z.ltb_ge _ _)) by lia|rewrite (proj2 (Z.ltb_lt _ _)) by lia
    |rewrite (proj2 (Z.ltb_ge _ _)) by lia|rewrite (proj2 (Z.ltb_lt _ _)) by lia]; done.
Qed.

(** C40: index keys preserve order and are reversible, and the encoding fails
    exactly where it should.  For two values of one supported column type, the
    byte order of their encoded keys is the order of the values, and decoding an
    encoded key gives the value back.  An integer always encodes, to 4 or 8 bytes.
    A text or bytea value encodes exactly when three entries of its size (key plus
    16 bytes) fit in a page behind the 32-byte header and the 16-byte special area,
    i.e. up to 2698 bytes; a longer one is refused with its length.  Timestamps,
    uuids and TOAST pointers are always refused as invalid arguments. *)
Theorem key_order_preserving a b :
  datum_wf a -> datum_wf b -> column_type a = column_type b ->
  (forall ka kb, encode_key a = Ok ka -> encode_key b = Ok kb ->
     Datum_partial_cmp a b = Some (bytes_cmp ka kb) /\ decode_key (column_type a) ka = Ok a) /\
  (is_supported_key_type (column_type a) = false -> encode_key a = Err BtInvalidArgument) /\
  (forall p, a = DExternal p -> encode_key a = Err BtInvalidArgument) /\
  (forall v, a = DInt4 v -> exists ka, encode_key a = Ok ka /\ length ka = 4%nat) /\
  (forall v, a = DInt8 v -> exists ka, encode_key a = Ok ka /\ length ka = 8%nat) /\
  (forall s, a = DText s \/ a = DBytea s ->
     (3 * (zlen s + 16) <= 8192 - 32 - 16 -> encode_key a = Ok s) /\
     (8192 - 32 - 16 < 3 * (zlen s + 16) -> encode_key a = Err (BtKeyTooLarge (zlen s)))).
Proof.
  intros Ha Hb Ht. split; [|split; [|split; [|split; [|split]]]].
  - intros ka kb. destruct a, b; try done; unfold encode_key, encode_i32, encode_i64; cbn [res_bind];
      repeat case_match; try done; intros Ea Eb; apply Ok_inj in Ea as <-; apply Ok_inj in Eb as <-;
      (split; [simpl; f_equal; symmetry|]); unfold column_type, decode_key.
    + by apply (int_key_order 32 4).
    + rewrite length_be_bytes. cbn [Z.eqb]. simpl. do 2 f_equal. by apply (int_key_roundtrip 32 4).
    + by apply (int_key_order 64 8).
    + rewrite length_be_bytes. simpl. do 2 f_equal. by apply (int_key_roundtrip 64 8).
    + simpl in Ha. by rewrite Ha.
    + done.
  - by destruct a.
  - by intros p ->.
  - intros v ->. unfold encode_key, encode_i32. cbn [res_bind]. rewrite length_be_bytes. eexists.
    split; [done|]. apply length_be_bytes.
  - intros v ->. unfold encode_key, encode_i64. cbn [res_bind]. rewrite length_be_bytes. eexists.
    split; [done|]. apply length_be_bytes.
  - intros s. apply encode_varlen_key.
Qed.

(** Two integers, and a text key of exactly the largest accepted size. *)
Lemma key_order_preserving_witness :
  Datum_partial_cmp (DInt4 (-7)) (DInt4 3) = Some (bytes_cmp (encode_i32 (-7)) (encode_i32 3)) /\
  decode_key Int4 (encode_i32 (-7)) = Ok (DInt4 (-7)) /\
  encode_key (DBytea (zeros 2698)) = Ok (zeros 2698) /\
  encode_key (DBytea (zeros 2699)) = Err (BtKeyTooLarge 2699).
Proof.
  destruct (key_order_preserving (DInt4 (-7)) (DInt4 3)) as (H & _); [unfold datum_wf, in_i; lia..|done|].
  destruct (H _ _ eq_refl eq_refl) as [H1 H2]. split; [exact H1|]. split; [exact H2|].
  destruct (key_order_preserving (DBytea (zeros 2698)) (DBytea [])) as (_ & _ & _ & _ & _ & H3); [done|done|done|].
  destruct (key_order_preserving (DBytea (zeros 2699)) (DBytea [])) as (_ & _ & _ & _ & _ & H4); [done|done|done|].
  split.
  - apply (H3 (zeros 2698)); [by right|]. rewrite length_zeros. lia.
  - replace 2699 with (zlen (zeros 2699)) at 2 by (rewrite length_zeros; lia).
    apply (H4 (zeros 2699)); [by right|]. rewrite length_zeros. lia.
Defined.
