(* ===== verification/BtreePage.v ===== *)
(** * B+Tree pages

    Models [pg-am-btree/src/page.rs]: a slotted page with a 16-byte special space
    holding the sibling links, the level and flags in the upper byte of
    [pd_flags], and a line-pointer array kept in entry order, together with the
    codecs of leaf entries, internal entries and meta records.

    The second part gives the abstract view, a [Node], and proves that every
    operation on the 8192 bytes is the corresponding operation on the node. *)

From S2P Require Import Prelude Types LinePointer SlottedPage Tuple BtreeKey.
Local Open Scope Z_scope.
Local Open Scope rust_scope.

(** ** Operations *)

Definition BTREE_SPECIAL_SIZE : Z := HEAP_SPECIAL_SIZE.

Definition BTREE_FLAG_LEAF : Z := 0x1.
Definition BTREE_FLAG_ROOT : Z := 0x2.
Definition BTREE_FLAG_DELETED : Z := 0x4.
Definition BTREE_FLAG_SPLIT_INCOMPLETE : Z := 0x8.

Definition LEVEL_SHIFT : Z := 8.
Definition FLAGS_SHIFT : Z := 12.

Definition LEAF_TRAILER_SIZE : Z := 10.
Definition INTERNAL_TRAILER_SIZE : Z := 8.
Definition META_RECORD_SIZE : Z := 10.

(** [slice::copy_within]: the source range is read before it is overwritten. *)
Definition copy_within {E} (src_start src_end dest : Z) (page : Page) : res E Page :=
  let? bytes := slice_get src_start (src_end - src_start) page in
  slice_set dest bytes page.

(** [!x] on [u8] and [u16]. *)
Definition not_u8 (x : Z) : Z := Z.lxor 0xFF x.
Definition not_u16 (x : Z) : Z := Z.lxor 0xFFFF x.

Definition set_level (page : Page) (level : Z) : Page :=
  let raw := get_le 2 12 page in
  let raw := Z.lor (Z.land raw (not_u16 (Z.shiftl 0x0F LEVEL_SHIFT))) (Z.shiftl level LEVEL_SHIFT mod 2 ^ 16) in
  put_le 2 12 raw page.

Definition set_flags (page : Page) (flags : Z) : Page :=
  let raw := get_le 2 12 page in
  let raw := Z.lor (Z.land raw (not_u16 (Z.shiftl 0x0F FLAGS_SHIFT))) (Z.shiftl flags FLAGS_SHIFT mod 2 ^ 16) in
  put_le 2 12 raw page.

Definition BtreePage_init (page : Page) (level flags : Z) : Page :=
  let page := init_with_special page BTREE_SPECIAL_SIZE in
  let page := set_level page level in
  set_flags page flags.

(** The boolean says whether the page was fresh. *)
Definition BtreePage_init_if_fresh (page : Page) (level flags : Z) : bool * Page :=
  if pd_upper (header page) =? 0 then (true, BtreePage_init page level flags) else (false, page).

Definition BtreePage_checked_header (page : Page) : res BTreeError PageHeader :=
  let header := header page in
  let lower := pd_lower header in
  let upper := pd_upper header in
  let special := pd_special header in
  if (lower <? PAGE_HEADER_SIZE)
     || negb ((lower - PAGE_HEADER_SIZE) mod LINE_POINTER_SIZE =? 0)
     || (lower >? upper) || (upper >? special) || negb (special =? PAGE_SIZE - BTREE_SPECIAL_SIZE)
  then Err BtCorrupted
  else Ok header.

Definition level (page : Page) : res BTreeError Z :=
  let? header := BtreePage_checked_header page in
  Ok (Z.land (Z.shiftr (pd_flags header) LEVEL_SHIFT) 0x0F).

Definition flags (page : Page) : res BTreeError Z :=
  let? header := BtreePage_checked_header page in
  Ok (Z.land (Z.shiftr (pd_flags header) FLAGS_SHIFT) 0x0F).

Definition set_flag (page : Page) (flag : Z) (on : bool) : res BTreeError Page :=
  let? flags := flags page in
  let flags := if on then Z.lor flags flag else Z.land flags (not_u8 flag) in
  Ok (set_flags page flags).

Definition prev (page : Page) : res BTreeError PageId :=
  let? header := BtreePage_checked_header page in
  let off := pd_special header in
  let? bytes := slice_get off 8 page in
  Ok (le_val bytes).

Definition next (page : Page) : res BTreeError PageId :=
  let? header := BtreePage_checked_header page in
  let off := pd_special header in
  let? bytes := slice_get (off + 8) 8 page in
  Ok (le_val bytes).

Definition set_prev (page : Page) (prev : PageId) : res BTreeError Page :=
  let off := pd_special (header page) in
  slice_set off (le_bytes 8 prev) page.

Definition set_next (page : Page) (next : PageId) : res BTreeError Page :=
  let off := pd_special (header page) in
  slice_set (off + 8) (le_bytes 8 next) page.

Definition flags_for_level (level : Z) : Z := if level =? 0 then BTREE_FLAG_LEAF else 0.

Definition insert_entry_at (page : Page) (slot : Z) (entry : list Z) : res BTreeError Page :=
  let? header := BtreePage_checked_header page in
  if zlen entry =? 0 then Err BtInvalidArgument
  else
    let count := (pd_lower header - PAGE_HEADER_SIZE) / LINE_POINTER_SIZE in
    if slot >? count then Err BtCorrupted
    else
      let max_entry := Z.max 0 (PAGE_SIZE - BTREE_SPECIAL_SIZE - (PAGE_HEADER_SIZE + LINE_POINTER_SIZE)) in
      if zlen entry >? max_entry then Err (BtKeyTooLarge (zlen entry))
      else
        let needed := zlen entry + LINE_POINTER_SIZE in
        let free := (pd_upper header - pd_lower header) mod 2 ^ 16 in
        if free <? needed then Err (BtPageFull needed free)
        else
          let new_upper := pd_upper header - zlen entry in
          let? page := slice_set new_upper entry page in
          let lp_start := PAGE_HEADER_SIZE + slot * LINE_POINTER_SIZE in
          let lp_end := PAGE_HEADER_SIZE + count * LINE_POINTER_SIZE in
          let? page := copy_within lp_start lp_end (lp_start + LINE_POINTER_SIZE) page in
          let lp := LP_new (new_upper mod 2 ^ 16) Normal (zlen entry mod 2 ^ 16) in
          let? page := slice_set lp_start (LP_to_le_bytes lp) page in
          let page := put_le 2 14 ((pd_lower header + LINE_POINTER_SIZE) mod 2 ^ 16) page in
          Ok (put_le 2 16 (new_upper mod 2 ^ 16) page).

Definition remove_entry_at (page : Page) (slot : Z) : res BTreeError Page :=
  let? header := BtreePage_checked_header page in
  let count := (pd_lower header - PAGE_HEADER_SIZE) / LINE_POINTER_SIZE in
  if slot >=? count then Err BtCorrupted
  else
    let from := PAGE_HEADER_SIZE + (slot + 1) * LINE_POINTER_SIZE in
    let to := PAGE_HEADER_SIZE + count * LINE_POINTER_SIZE in
    let? page := copy_within from to (from - LINE_POINTER_SIZE) page in
    Ok (put_le 2 14 ((pd_lower header - LINE_POINTER_SIZE) mod 2 ^ 16) page).

Definition truncate_slots (page : Page) (keep : Z) : res BTreeError Page :=
  let? header := BtreePage_checked_header page in
  let count := (pd_lower header - PAGE_HEADER_SIZE) / LINE_POINTER_SIZE in
  if keep >? count then Err BtCorrupted
  else
    let new_lower := (PAGE_HEADER_SIZE + keep * LINE_POINTER_SIZE) mod 2 ^ 16 in
    Ok (put_le 2 14 new_lower page).

Definition apply_prepare_left (page : Page) (new_right : PageId) : res BTreeError Page :=
  let? _h := BtreePage_checked_header page in
  if pd_upper (header page) =? 0 then Err BtCorrupted
  else
    let? page := set_flag page BTREE_FLAG_SPLIT_INCOMPLETE true in
    set_next page new_right.

Definition init_right_page (page : Page) (left left_old_next : PageId) (level : Z) : res BTreeError Page :=
  let page := BtreePage_init page level (flags_for_level level) in
  let? page := set_prev page left in
  set_next page left_old_next.

Definition apply_commit_left (page : Page) : res BTreeError Page :=
  let? _h := BtreePage_checked_header page in
  if pd_upper (header page) =? 0 then Err BtCorrupted
  else
    let? flags := flags page in
    Ok (set_flags page (Z.land flags (not_u8 (Z.lor BTREE_FLAG_SPLIT_INCOMPLETE BTREE_FLAG_ROOT)))).

(** ** Entry codecs *)

Definition encode_leaf_entry (key : list Z) (tid : Tid) : list Z :=
  key ++ le_bytes 8 (page_id tid) ++ le_bytes 2 (slot_id tid).

Definition decode_leaf_entry (bytes : list Z) : res BTreeError (list Z * Tid) :=
  if zlen bytes <? LEAF_TRAILER_SIZE then Err BtCorrupted
  else
    let n := zlen bytes - LEAF_TRAILER_SIZE in
    let key := slice 0 n bytes in
    let tail := slice n LEAF_TRAILER_SIZE bytes in
    Ok (key, mkTid (get_le 8 0 tail) (get_le 2 8 tail)).

Definition encode_internal_entry (key : list Z) (child : PageId) : list Z := key ++ le_bytes 8 child.

Definition decode_internal_entry (bytes : list Z) : res BTreeError (list Z * PageId) :=
  if zlen bytes <? INTERNAL_TRAILER_SIZE then Err BtCorrupted
  else
    let n := zlen bytes - INTERNAL_TRAILER_SIZE in
    let key := slice 0 n bytes in
    let tail := slice n INTERNAL_TRAILER_SIZE bytes in
    Ok (key, le_val tail).

Definition encode_meta_record (root : PageId) (tree_level : Z) : list Z :=
  le_bytes 8 root ++ le_bytes 2 tree_level.

Definition decode_meta_record (bytes : list Z) : res BTreeError (PageId * Z) :=
  if negb (zlen bytes =? META_RECORD_SIZE) then Err BtCorrupted
  else Ok (get_le 8 0 bytes, get_le 2 8 bytes).

(** ** Abstract view *)

Record Node := mkNode {
  n_lsn : Lsn;
  n_prev : PageId;
  n_next : PageId;
  n_level : Z;
  n_flags : Z;
  n_upper : Z;
  n_entries : list (list Z);
}.

Definition with_entries (u : Z) (es : list (list Z)) (n : Node) : Node :=
  mkNode (n_lsn n) (n_prev n) (n_next n) (n_level n) (n_flags n) u es.
Definition with_flags (f : Z) (n : Node) : Node :=
  mkNode (n_lsn n) (n_prev n) (n_next n) (n_level n) f (n_upper n) (n_entries n).
Definition with_level (l : Z) (n : Node) : Node :=
  mkNode (n_lsn n) (n_prev n) (n_next n) l (n_flags n) (n_upper n) (n_entries n).
Definition with_prev (p : PageId) (n : Node) : Node :=
  mkNode (n_lsn n) p (n_next n) (n_level n) (n_flags n) (n_upper n) (n_entries n).
Definition with_next (p : PageId) (n : Node) : Node :=
  mkNode (n_lsn n) (n_prev n) p (n_level n) (n_flags n) (n_upper n) (n_entries n).
Definition with_lsn (l : Lsn) (n : Node) : Node :=
  mkNode l (n_prev n) (n_next n) (n_level n) (n_flags n) (n_upper n) (n_entries n).

Definition BTREE_SPECIAL : Z := PAGE_SIZE - BTREE_SPECIAL_SIZE.

Definition normal_bytes (v : SlotView) : option (list Z) := match v with VNormal b => Some b | _ => None end.

Definition entries (page : Page) : list (list Z) := omap normal_bytes (view page).

Definition node_of (page : Page) : Node :=
  {| n_lsn := page_pd_lsn page;
     n_prev := get_le 8 BTREE_SPECIAL page;
     n_next := get_le 8 (BTREE_SPECIAL + 8) page;
     n_level := Z.land (Z.shiftr (pd_flags (header page)) LEVEL_SHIFT) 0x0F;
     n_flags := Z.land (Z.shiftr (pd_flags (header page)) FLAGS_SHIFT) 0x0F;
     n_upper := pd_upper (header page);
     n_entries := entries page |}.

(** Free bytes between the line-pointer array and the entries. *)
Definition n_free (n : Node) : Z :=
  n_upper n - (PAGE_HEADER_SIZE + zlen (n_entries n) * LINE_POINTER_SIZE).

(** A B+Tree page: a well-formed slotted page with the 16-byte special space in
    which every line pointer is live. *)
Record bt_inv (page : Page) : Prop := {
  bt_page : page_inv page;
  bt_special : pd_special (header page) = BTREE_SPECIAL;
  bt_normal : view page = VNormal <$> entries page;
}.

(** Insertion into a list at a position. *)
Definition insert_at {A : Type} (i : nat) (x : A) (l : list A) : list A := take i l ++ x :: drop i l.

(** ** Lemmas: the bit fields of [pd_flags] *)

Lemma nibble_ext a b :
  (forall k, 0 <= k < 4 -> Z.testbit a k = Z.testbit b k) -> Z.land a 0x0F = Z.land b 0x0F.
Proof.
  intros H. apply Z.bits_inj'. intros k Hk. rewrite !Z.land_spec. change 0x0F with (Z.ones 4).
  rewrite Z.testbit_ones_nonneg by lia. destruct (k <? 4) eqn:E; [|by rewrite !andb_false_r].
  zbool. by rewrite H by lia.
Qed.

Lemma nibble_id x : 0 <= x < 16 -> Z.land x 0x0F = x.
Proof. intros. change 0x0F with (Z.ones 4). rewrite Z.land_ones by lia. by apply Z.mod_small. Qed.

(** Writing the nibble at [s] of a word, and reading the one at [s] or [t]. *)
Definition put_nibble (s raw v : Z) : Z := Z.lor (Z.land raw (not_u16 (Z.shiftl 0x0F s))) (Z.shiftl v s mod 2 ^ 16).

Lemma testbit_put_nibble s raw v k :
  s = 8 \/ s = 12 -> 0 <= k < 16 -> 0 <= v < 16 ->
  Z.testbit (put_nibble s raw v) k =
    if (s <=? k) && (k <? s + 4) then Z.testbit v (k - s) else Z.testbit raw k.
Proof.
  intros Hs Hk Hv. unfold put_nibble, not_u16.
  rewrite Z.lor_spec, Z.land_spec, Z.lxor_spec, Z.mod_pow2_bits_low, !Z.shiftl_spec by lia.
  change 0xFFFF with (Z.ones 16). change 0x0F with (Z.ones 4).
  rewrite (Z.testbit_ones_nonneg 16), Z.testbit_ones by lia. rewrite (proj2 (Z.ltb_lt k 16)) by lia.
  destruct (s <=? k) eqn:E1; zbool.
  - rewrite (proj2 (Z.leb_le 0 (k - s))) by lia. destruct (k <? s + 4) eqn:E2; zbool; simpl.
    + rewrite (proj2 (Z.ltb_lt (k - s) 4)) by lia. simpl. by rewrite andb_false_r.
    + rewrite (proj2 (Z.ltb_ge (k - s) 4)) by lia. simpl. rewrite andb_true_r.
      rewrite <-(Z.mod_small v (2 ^ 4)) by lia. rewrite (Z.mod_pow2_bits_high v 4 (k - s)) by lia. apply orb_false_r.
  - rewrite (proj2 (Z.leb_gt 0 (k - s))) by lia. rewrite (Z.testbit_neg_r v) by lia. simpl.
    by rewrite orb_false_r, andb_true_r.
Qed.

Lemma get_put_nibble s t raw v :
  s = 8 \/ s = 12 -> t = 8 \/ t = 12 -> 0 <= v < 16 ->
  Z.land (Z.shiftr (put_nibble s raw v) t) 0x0F = if decide (s = t) then v else Z.land (Z.shiftr raw t) 0x0F.
Proof.
  intros Hs Ht Hv. case_decide as Hd; [transitivity (Z.land v 0x0F); [|by apply nibble_id]|]; apply nibble_ext;
    intros k Hk; rewrite ?Z.shiftr_spec, testbit_put_nibble by lia.
  - subst t. rewrite (proj2 (Z.leb_le _ _)), (proj2 (Z.ltb_lt _ _)) by lia. simpl. f_equal. lia.
  - destruct ((s <=? k + t) && (k + t <? s + 4)) eqn:E; [|done]. zbool. lia.
Qed.

Lemma put_nibble_range s raw v : in_u 16 raw -> in_u 16 (put_nibble s raw v).
Proof.
  intros Hr. unfold put_nibble, in_u in *. rewrite <-(Z.mod_small raw (2 ^ 16)) by done.
  set (a := Z.lor _ _). assert (Ha : a = a mod 2 ^ 16); [|rewrite Ha; by apply Z.mod_pos_bound].
  apply Z.bits_inj'. intros k Hk. destruct (decide (k < 16)); [by rewrite Z.mod_pow2_bits_low by lia|].
  rewrite (Z.mod_pow2_bits_high a) by lia. unfold a. rewrite Z.lor_spec, Z.land_spec.
  by rewrite !Z.mod_pow2_bits_high by lia.
Qed.

(** ** Lemmas: line pointers and entries *)

Ltac bt_consts :=
  unfold BTREE_SPECIAL, BTREE_SPECIAL_SIZE, HEAP_SPECIAL_SIZE, PAGE_SIZE, PAGE_HEADER_SIZE, LINE_POINTER_SIZE in *.

Definition lp_entry (page : Page) (lp : LinePointer) : list Z := slice (LP_off lp) (LP_len lp) page.

Lemma view_normal page ls :
  Forall (fun lp => LP_flags lp = Normal) ls -> slot_view page <$> ls = VNormal <$> (lp_entry page <$> ls).
Proof.
  intros H. rewrite <-list_fmap_compose. apply list_fmap_ext. intros i lp Hi. rewrite Forall_lookup in H.
  unfold slot_view. by rewrite (H _ _ Hi).
Qed.

Lemma omap_normal (es : list (list Z)) : omap normal_bytes (VNormal <$> es) = es.
Proof. induction es as [|e es IH]; [done|]. change (e :: omap normal_bytes (VNormal <$> es) = e :: es). by rewrite IH. Qed.

Lemma entries_lps page :
  Forall (fun lp => LP_flags lp = Normal) (lps page) ->
  entries page = lp_entry page <$> lps page /\ view page = VNormal <$> entries page.
Proof.
  intros H. unfold entries, view. rewrite (view_normal page _ H), omap_normal. done.
Qed.

Lemma bt_lps_normal page : bt_inv page -> Forall (fun lp => LP_flags lp = Normal) (lps page).
Proof.
  intros [_ _ Hn]. apply Forall_lookup. intros i lp Hi.
  assert (Hv : view page !! i = Some (slot_view page lp)) by (unfold view; by rewrite list_lookup_fmap, Hi).
  rewrite Hn, list_lookup_fmap in Hv. unfold slot_view in Hv. destruct (entries page !! i); [|done].
  simpl in Hv. destruct (LP_flags lp); done.
Qed.

Lemma bt_entries page : bt_inv page -> entries page = lp_entry page <$> lps page.
Proof. intros H. by apply entries_lps, bt_lps_normal. Qed.

Lemma bt_count page :
  bt_inv page ->
  slot_count page = zlen (entries page) /\ length (lps page) = length (entries page) /\
  (pd_lower (header page) - PAGE_HEADER_SIZE) / LINE_POINTER_SIZE = zlen (entries page) /\
  pd_lower (header page) = PAGE_HEADER_SIZE + zlen (entries page) * LINE_POINTER_SIZE.
Proof.
  intros H. rewrite bt_entries by done. rewrite length_fmap, length_lps.
  destruct (slot_count_geometry _ (inv_geo _ (bt_page _ H))) as (H1 & H2 & H3). rewrite <-H1, Z2Nat.id by done. done.
Qed.

Lemma bt_checked_header page : bt_inv page -> BtreePage_checked_header page = Ok (header page).
Proof.
  intros [[[] _ _] Hs _]. unfold BtreePage_checked_header.
  rewrite (proj2 (Z.ltb_ge _ _)) by done. rewrite geo_aligned.
  rewrite !Z.gtb_ltb, !(proj2 (Z.ltb_ge _ _)) by done. rewrite Hs. done.
Qed.

(** An arrangement of live line pointers whose regions are in the data area. *)
Lemma bt_inv_intro page :
  geometry page -> pd_special (header page) = BTREE_SPECIAL ->
  Forall (fun lp => LP_flags lp = Normal) (lps page) ->
  Forall (fun r => pd_upper (header page) <= fst r /\ snd r <= pd_special (header page)) (omap region (lps page)) ->
  regions_disjoint (omap region (lps page)) -> bt_inv page.
Proof. intros Hg Hs Hn Hl Hd. split; [by split|done|by apply entries_lps]. Qed.

Lemma omap_submseteq {A B} (f : A -> option B) l1 l2 : sublist l1 l2 -> sublist (omap f l1) (omap f l2).
Proof.
  induction 1 as [|x l1 l2 Hs IH|x l1 l2 Hs IH]; simpl; [constructor|..];
    destruct (f x); by try constructor.
Qed.

(** Dropping line pointers, everything else staying in place. *)
Lemma bt_drop_lps page page' ls :
  bt_inv page -> geometry page' -> lps page' = ls -> sublist ls (lps page) ->
  pd_upper (header page') = pd_upper (header page) -> pd_special (header page') = pd_special (header page) ->
  (forall off n, pd_upper (header page) <= off -> slice off n page' = slice off n page) ->
  bt_inv page' /\ entries page' = lp_entry page <$> ls.
Proof.
  intros Hb Hg Hls Hsub Hu Hs Hf. pose proof (bt_lps_normal _ Hb) as Hn.
  assert (Hn' : Forall (fun lp => LP_flags lp = Normal) ls).
  { apply Forall_forall. intros lp Hin. rewrite Forall_forall in Hn. apply Hn. by eapply sublist_subseteq. }
  pose proof (omap_submseteq region _ _ Hsub) as Hr.
  split.
  - apply bt_inv_intro; rewrite ?Hls; try done.
    + rewrite Hs. apply Hb.
    + rewrite Hu, Hs. apply Forall_forall. intros r Hin. pose proof (inv_live _ (bt_page _ Hb)) as Hl.
      rewrite Forall_forall in Hl. apply Hl. by eapply sublist_subseteq.
    + eapply regions_disjoint_submseteq; [by apply sublist_submseteq|]. apply Hb.
  - destruct (entries_lps page') as [-> _]; [by rewrite Hls|]. rewrite Hls. apply list_fmap_ext.
    intros i lp Hi. unfold lp_entry. apply Hf.
    destruct (lp_in_bounds page lp) as (_ & ? & _); [apply Hb| |congruence || idtac|done].
    { eapply sublist_subseteq; [done|]. by eapply list_elem_of_lookup_2. }
    rewrite Forall_lookup in Hn'. rewrite (Hn' _ _ Hi). done.
Qed.

(** ** Lemmas: shrinking the line-pointer array *)

Lemma bt_bounds page :
  bt_inv page -> zlen page = PAGE_SIZE /\ wf_bytes page /\ pd_special (header page) = BTREE_SPECIAL /\
  PAGE_HEADER_SIZE <= pd_lower (header page) <= pd_upper (header page) /\ pd_upper (header page) <= BTREE_SPECIAL.
Proof. intros [[[] _ _] Hs _]. rewrite <-Hs. done. Qed.

(** Writing [pd_lower] keeps every other field of the node. *)
Lemma node_of_lower page x :
  (forall es, entries (put_le 2 14 x page) = es ->
   node_of (put_le 2 14 x page) = with_entries (pd_upper (header page)) es (node_of page)).
Proof.
  intros es He. unfold node_of, with_entries. rewrite He. unfold header, PageHeader_read_from, page_pd_lsn. simpl.
  bt_consts. f_equal; by bytes.
Qed.

Lemma geometry_lower page x :
  geometry page -> PAGE_HEADER_SIZE <= x <= pd_upper (header page) -> (x - PAGE_HEADER_SIZE) mod LINE_POINTER_SIZE = 0 ->
  geometry (put_le 2 14 x page).
Proof.
  intros [] Hx Ha. change (put_le 2 14 x page) with (set_pd_lower page x). bt_consts.
  split; rewrite ?pd_lower_set_lower, ?pd_upper_set_lower, ?pd_special_set_lower by (bt_consts; lia || done);
    bt_consts; try done; try lia.
  - unfold set_pd_lower. by rewrite length_put_le.
  - by apply wf_put_le.
Qed.

Lemma lower_aligned (n : Z) : (PAGE_HEADER_SIZE + n * LINE_POINTER_SIZE - PAGE_HEADER_SIZE) mod LINE_POINTER_SIZE = 0.
Proof. rewrite Z.add_simpl_l. by apply Z_mod_mult. Qed.

(** Shrinking [pd_lower] by itself keeps a prefix of the entries. *)
Lemma truncate_effect page (k : nat) :
  bt_inv page -> (k <= length (entries page))%nat ->
  let page' := put_le 2 14 (PAGE_HEADER_SIZE + Z.of_nat k * LINE_POINTER_SIZE) page in
  bt_inv page' /\ node_of page' = with_entries (n_upper (node_of page)) (take k (entries page)) (node_of page).
Proof.
  intros Hb Hk page'. destruct (bt_bounds _ Hb) as (Hl & Hw & Hs & Hlo & Hup).
  destruct (bt_count _ Hb) as (Hc & Hln & _ & Hlow).
  assert (Hg' : geometry page').
  { apply geometry_lower; [apply Hb|bt_consts; lia|apply lower_aligned]. }
  assert (Hlps : lps page' = take k (lps page)).
  { apply lps_ext; [done| |].
    - destruct (slot_count_geometry _ Hg') as (_ & H2 & _). unfold page' in H2 at 1.
      change (put_le 2 14 ?x page) with (set_pd_lower page x) in H2 at 1.
      rewrite pd_lower_set_lower in H2 by (bt_consts; lia || done). rewrite length_take, Nat.min_l by lia.
      bt_consts. lia.
    - intros i Hi. rewrite length_take in Hi. rewrite lookup_take_lt, lookup_lps by lia. f_equal. unfold page'.
      bt_consts. by bytes. }
  destruct (bt_drop_lps page page' (take k (lps page))) as [Hb' He]; try done.
  - apply sublist_take.
  - apply pd_upper_set_lower.
  - apply pd_special_set_lower.
  - intros off n Ho. apply slice_put_disj; bt_consts; lia.
  - split; [done|]. apply node_of_lower. etransitivity; [exact He|]. by rewrite fmap_take, bt_entries.
Qed.

Lemma lookup_list_delete {A} (l : list A) i j :
  delete i l !! j = l !! (if decide (j < i)%nat then j else S j).
Proof.
  case_decide; [by apply list_lookup_delete_lt|apply list_lookup_delete_ge; lia].
Qed.

Lemma remove_entry_effect page (i : nat) :
  bt_inv page -> (i < length (entries page))%nat ->
  exists page', remove_entry_at page (Z.of_nat i) = Ok page' /\ bt_inv page' /\
    node_of page' = with_entries (n_upper (node_of page)) (delete i (entries page)) (node_of page).
Proof.
  intros Hb Hi. destruct (bt_bounds _ Hb) as (Hl & Hw & Hs & Hlo & Hup).
  destruct (bt_count _ Hb) as (Hc & Hln & Hct & Hlow).
  set (c := length (entries page)) in *. set (from := PAGE_HEADER_SIZE + (Z.of_nat i + 1) * LINE_POINTER_SIZE).
  set (q := splice (from - LINE_POINTER_SIZE) (slice from (Z.of_nat (c - S i) * LINE_POINTER_SIZE) page) page).
  set (page' := put_le 2 14 (pd_lower (header page) - LINE_POINTER_SIZE) q).
  assert (Hsl : length (slice from (Z.of_nat (c - S i) * LINE_POINTER_SIZE) page) = Z.to_nat (Z.of_nat (c - S i) * LINE_POINTER_SIZE)).
  { apply length_slice; unfold from; bt_consts; lia. }
  exists page'. split.
  { unfold remove_entry_at. rewrite bt_checked_header by done. cbn [res_bind]. rewrite Hct, Z.geb_leb.
    rewrite (proj2 (Z.leb_gt _ _)) by lia. unfold copy_within. fold from.
    replace (PAGE_HEADER_SIZE + Z.of_nat c * LINE_POINTER_SIZE - from) with (Z.of_nat (c - S i) * LINE_POINTER_SIZE)
      by (unfold from; bt_consts; lia).
    rewrite slice_get_ok by (unfold from; bt_consts; lia). cbn [res_bind].
    rewrite slice_set_ok by (rewrite ?Hsl; unfold from; bt_consts; lia). cbn [res_bind].
    rewrite Z.mod_small by (bt_consts; lia). done. }
  assert (Hq : header q = header page) by (apply header_frame; unfold from; bt_consts; lia).
  assert (Hgq : geometry q).
  { apply (geometry_same_header page); [apply Hb|unfold q; by rewrite length_splice| |done].
    unfold q. apply Forall_splice; auto with wf. }
  assert (Hg' : geometry page').
  { apply geometry_lower; [done|rewrite Hq; bt_consts; lia|]. rewrite Hlow.
    replace (_ - LINE_POINTER_SIZE) with (PAGE_HEADER_SIZE + (Z.of_nat c - 1) * LINE_POINTER_SIZE) by (bt_consts; lia).
    apply lower_aligned. }
  assert (Hlen' : pd_lower (header page') = pd_lower (header page) - LINE_POINTER_SIZE).
  { apply pd_lower_set_lower; [unfold q; by rewrite length_splice|bt_consts; lia]. }
  assert (Hf : forall off n, pd_lower (header page) <= off -> slice off n page' = slice off n page).
  { intros off n Ho. unfold page', q. rewrite slice_put_disj by (bt_consts; lia).
    apply slice_splice_disj; rewrite ?Hsl; unfold from; bt_consts; lia. }
  assert (Hlps : lps page' = delete i (lps page)).
  { assert (Hd : length (delete i (lps page)) = (c - 1)%nat) by (rewrite length_delete; [lia|apply lookup_lt_is_Some; lia]).
    apply lps_ext; [done| |].
    - destruct (slot_count_geometry _ Hg') as (_ & H2 & _). rewrite Hd. bt_consts. lia.
    - intros j Hj. rewrite Hd in Hj. rewrite lookup_list_delete. rewrite lookup_lps by (case_decide; lia). f_equal.
      unfold page', q, get_le. rewrite slice_put_disj by (bt_consts; lia). case_decide as Hji.
      + by rewrite slice_splice_disj by (unfold from; bt_consts; lia).
      + rewrite slice_splice_within by (rewrite ?Hsl; unfold from; bt_consts; lia).
        rewrite slice_slice by (unfold from; bt_consts; lia). do 2 f_equal. unfold from; bt_consts; lia. }
  destruct (bt_drop_lps page page' (delete i (lps page))) as [Hb' He]; try done.
  - apply sublist_delete.
  - unfold page'. change (put_le 2 14 ?x q) with (set_pd_lower q x). by rewrite pd_upper_set_lower, Hq.
  - unfold page'. change (put_le 2 14 ?x q) with (set_pd_lower q x). by rewrite pd_special_set_lower, Hq.
  - intros off n Ho. apply Hf. lia.
  - split; [done|]. unfold node_of, with_entries. simpl. rewrite He, bt_entries by done. rewrite list_fmap_delete.
    unfold page', q, header, PageHeader_read_from, page_pd_lsn. simpl. f_equal; rewrite get_put_disj by (bt_consts; lia);
      by rewrite get_splice_disj by (rewrite ?Hsl; unfold from; bt_consts; lia).
Qed.

(** ** Lemmas: insertion *)

Lemma lookup_insert_at {A} (l : list A) i x j :
  (i <= length l)%nat ->
  insert_at i x l !! j = if decide (j < i)%nat then l !! j else if decide (j = i) then Some x else l !! (j - 1)%nat.
Proof.
  intros Hi. unfold insert_at. rewrite lookup_app. destruct (decide (j < i)%nat) as [Hj|Hj].
  - rewrite lookup_take_lt by done. destruct (l !! j) eqn:E; [done|]. apply lookup_ge_None in E. lia.
  - rewrite lookup_take_ge, length_take, Nat.min_l by lia. destruct (decide (j = i)) as [->|Hne].
    + by rewrite Nat.sub_diag.
    + destruct (j - i)%nat as [|k] eqn:E; [lia|]. simpl. rewrite lookup_drop. f_equal. lia.
Qed.

Lemma length_insert_at {A} (l : list A) i x : (i <= length l)%nat -> length (insert_at i x l) = S (length l).
Proof. intros. unfold insert_at. rewrite length_app, length_take. simpl. rewrite length_drop. lia. Qed.

Lemma fmap_insert_at {A B} (f : A -> B) l i x : f <$> insert_at i x l = insert_at i (f x) (f <$> l).
Proof. unfold insert_at. by rewrite fmap_app, fmap_cons, fmap_take, fmap_drop. Qed.

Lemma insert_at_perm {A} (l : list A) i x : insert_at i x l ≡ₚ x :: l.
Proof. unfold insert_at. by rewrite <-Permutation_middle, take_drop. Qed.

Lemma omap_cons_Some {A B} (f : A -> option B) x y l : f x = Some y -> omap f (x :: l) = y :: omap f l.
Proof. intros H. simpl. by rewrite H. Qed.

Section insert.
Context (page : Page) (i : nat) (entry : list Z).
Hypothesis Hb : bt_inv page.
Hypothesis Hi : (i <= length (entries page))%nat.
Hypothesis Hwe : wf_bytes entry.
Hypothesis Hpos : 0 < zlen entry.
Hypothesis Hfit : zlen entry + LINE_POINTER_SIZE <= n_free (node_of page).

Let c := length (entries page).
Let nu := pd_upper (header page) - zlen entry.
Let lp := LP_new nu Normal (zlen entry).
Let lp_start := PAGE_HEADER_SIZE + Z.of_nat i * LINE_POINTER_SIZE.
Let moved := slice lp_start (Z.of_nat (c - i) * LINE_POINTER_SIZE) page.
Let q1 := splice nu entry page.
Let q2 := splice (lp_start + LINE_POINTER_SIZE) moved q1.
Let q3 := splice lp_start (le_bytes 4 lp) q2.
Let page' := put_le 2 16 nu (put_le 2 14 (pd_lower (header page) + LINE_POINTER_SIZE) q3).

Lemma insert_bounds :
  zlen page = 8192 /\ pd_lower (header page) = 32 + Z.of_nat c * 4 /\ pd_lower (header page) + 4 <= nu /\
  pd_upper (header page) <= 8176 /\ lp_start = 32 + Z.of_nat i * 4 /\ zlen moved = Z.of_nat (c - i) * 4 /\ in_u 32 lp.
Proof.
  destruct (bt_bounds _ Hb) as (Hl & Hw & Hs & Hlo & Hup). destruct (bt_count _ Hb) as (Hc & Hln & Hct & Hlow).
  unfold n_free, node_of in Hfit. cbn [n_upper n_entries] in Hfit. fold c in Hlow, Hfit. unfold nu.
  assert (Hm : zlen moved = Z.of_nat (c - i) * 4).
  { unfold moved. rewrite length_slice; unfold lp_start, c; bt_consts; lia. }
  bt_consts. split; [done|]. split; [done|]. split; [lia|]. split; [lia|]. split; [done|]. split; [done|].
  apply LP_new_range; unfold nu; lia.
Qed.

Lemma insert_entry_runs : insert_entry_at page (Z.of_nat i) entry = Ok page'.
Proof.
  destruct insert_bounds as (Hl & Hlow & Hroom & Hup & Hls & Hm & _).
  destruct (bt_count _ Hb) as (_ & _ & Hct & _).
  unfold insert_entry_at. rewrite bt_checked_header by done. cbn [res_bind].
  rewrite (proj2 (Z.eqb_neq _ _)) by lia. rewrite Hct, !Z.gtb_ltb, (proj2 (Z.ltb_ge _ _)) by lia.
  unfold nu in Hroom. rewrite (proj2 (Z.ltb_ge _ (zlen entry))) by (bt_consts; lia).
  rewrite (Z.mod_small (pd_upper _ - _)) by lia. rewrite (proj2 (Z.ltb_ge _ _)) by (bt_consts; lia). fold nu.
  rewrite slice_set_ok by (unfold nu; lia). cbn [res_bind]. unfold copy_within. fold lp_start.
  replace (PAGE_HEADER_SIZE + zlen (entries page) * LINE_POINTER_SIZE - lp_start)
    with (Z.of_nat (c - i) * LINE_POINTER_SIZE) by (unfold c; bt_consts; lia).
  rewrite slice_get_ok by (rewrite ?length_splice; bt_consts; lia). cbn [res_bind].
  rewrite slice_splice_disj by (unfold nu; bt_consts; lia). fold moved q1.
  rewrite slice_set_ok by (unfold q1; rewrite ?length_splice; bt_consts; lia). cbn [res_bind].
  rewrite !(Z.mod_small nu), !(Z.mod_small (zlen entry)), (Z.mod_small (_ + LINE_POINTER_SIZE)) by (unfold nu; bt_consts; lia).
  fold lp. unfold LP_to_le_bytes. fold q2.
  rewrite slice_set_ok by (unfold q2, q1; rewrite ?length_splice, ?length_le_bytes; bt_consts; lia). done.
Qed.

Lemma insert_header :
  header q3 = header page /\ pd_lower (header page') = pd_lower (header page) + LINE_POINTER_SIZE /\
  pd_upper (header page') = nu /\ pd_special (header page') = pd_special (header page) /\ zlen page' = PAGE_SIZE /\ wf_bytes page'.
Proof.
  destruct insert_bounds as (Hl & Hlow & Hroom & Hup & Hls & Hm & _). pose proof (geo_wf _ (inv_geo _ (bt_page _ Hb))) as Hw.
  assert (Hq : header q3 = header page).
  { unfold q3, q2, q1. rewrite !header_frame; bt_consts; (done || lia). }
  assert (Hlq : length q3 = length page) by (unfold q3, q2, q1; by rewrite !length_splice).
  unfold page'. change (put_le 2 14 ?x ?y) with (set_pd_lower y x). change (put_le 2 16 ?x ?y) with (set_pd_upper y x).
  rewrite pd_lower_set_upper, pd_special_set_upper, pd_special_set_lower, Hq.
  rewrite pd_lower_set_lower by (bt_consts; lia).
  rewrite pd_upper_set_upper by (unfold set_pd_lower; rewrite ?length_put_le; unfold nu in *; bt_consts; lia).
  split; [done|]. split; [done|]. split; [done|]. split; [done|]. split.
  - unfold set_pd_upper, set_pd_lower. rewrite !length_put_le. bt_consts. lia.
  - unfold set_pd_upper, set_pd_lower. apply wf_put_le, wf_put_le. unfold q3, q2, q1, moved. auto 10 with wf.
Qed.

Lemma insert_geometry : geometry page'.
Proof.
  destruct insert_bounds as (Hl & Hlow & Hroom & Hup & Hls & Hm & _).
  destruct insert_header as (_ & H1 & H2 & H3 & H4 & H5). destruct (bt_bounds _ Hb) as (_ & _ & Hs & Hlo & _).
  assert (nu <= pd_upper (header page)) by (unfold nu; lia).
  split; rewrite ?H1, ?H2, ?H3, ?Hs; try done; bt_consts; try lia.
  rewrite Hlow. replace (32 + Z.of_nat c * 4 + 4 - 32) with ((Z.of_nat c + 1) * 4) by lia. by apply Z_mod_mult.
Qed.

Lemma insert_old off n : pd_upper (header page) <= off -> slice off n page' = slice off n page.
Proof.
  destruct insert_bounds as (Hl & Hlow & Hroom & Hup & Hls & Hm & _). intros Ho.
  unfold nu in Hroom. unfold page', q3, q2, q1. rewrite !slice_put_disj by lia.
  rewrite !slice_splice_disj by (rewrite ?length_le_bytes; unfold nu; bt_consts; lia). done.
Qed.

Lemma insert_new : slice nu (zlen entry) page' = entry.
Proof.
  destruct insert_bounds as (Hl & Hlow & Hroom & Hup & Hls & Hm & _).
  unfold page', q3, q2, q1. rewrite !slice_put_disj by lia.
  rewrite !(slice_splice_disj nu (zlen entry)) by (rewrite ?length_le_bytes; unfold nu in *; bt_consts; lia).
  apply slice_splice_same; unfold nu in *; lia.
Qed.

Lemma insert_lps : lps page' = insert_at i lp (lps page).
Proof.
  destruct insert_bounds as (Hl & Hlow & Hroom & Hup & Hls & Hm & Hlp).
  destruct insert_header as (_ & H1 & H2 & H3 & H4 & H5). destruct (bt_count _ Hb) as (Hc & Hln & _ & _).
  fold c in Hc, Hln, Hi. assert (Hlen : length (insert_at i lp (lps page)) = S c) by (rewrite length_insert_at; lia).
  apply lps_ext; [apply insert_geometry| |].
  - destruct (slot_count_geometry _ insert_geometry) as (_ & Hx & _). rewrite Hlen. bt_consts. lia.
  - intros j Hj. rewrite Hlen in Hj. rewrite lookup_insert_at by lia. bt_consts.
    unfold get_le, page', q3. rewrite !slice_put_disj by lia.
    destruct (decide (j < i)%nat) as [Hji|Hji]; [|destruct (decide (j = i)) as [->|Hne]].
    + rewrite lookup_lps by lia. unfold q2, q1. bt_consts.
      by rewrite !slice_splice_disj by (rewrite ?length_le_bytes; lia).
    + rewrite slice_splice_same by (unfold q2, q1; rewrite ?length_splice, ?length_le_bytes; lia).
      by rewrite le_val_le_bytes_id by done.
    + rewrite lookup_lps by lia. rewrite slice_splice_disj by (rewrite ?length_le_bytes; lia).
      unfold q2, q1. bt_consts. rewrite slice_splice_within by (rewrite ?length_splice; lia).
      unfold moved. bt_consts. rewrite slice_slice by lia. unfold get_le. do 3 f_equal. lia.
Qed.

Lemma insert_lp_fields : LP_flags lp = Normal /\ LP_off lp = nu /\ LP_len lp = zlen entry.
Proof.
  destruct insert_bounds as (Hl & Hlow & Hroom & Hup & Hls & Hm & Hlp). unfold lp, nu in *.
  rewrite LP_flags_new, LP_off_new, LP_len_new by lia. done.
Qed.

Lemma insert_regions : omap region (lps page') ≡ₚ (nu, pd_upper (header page)) :: omap region (lps page).
Proof.
  destruct insert_lp_fields as (Hf & Ho & Hlen). rewrite insert_lps, insert_at_perm. rewrite (omap_cons_Some _ _ (nu, pd_upper (header page))); [done|].
  unfold region. rewrite Hf, decide_False by done. rewrite Ho, Hlen. do 2 f_equal. unfold nu. lia.
Qed.

(** Every byte before [pd_lower] and from [pd_special] on stays. *)
Lemma insert_get n off :
  0 <= off -> off + Z.of_nat n <= 14 \/ BTREE_SPECIAL <= off -> get_le n off page' = get_le n off page.
Proof.
  destruct insert_bounds as (Hl & Hlow & Hroom & Hup & Hls & Hm & Hlp). intros H0 Ho. unfold page', q3, q2, q1.
  unfold nu in Hroom. bt_consts. rewrite !get_put_disj by lia.
  by rewrite !get_splice_disj by (rewrite ?length_le_bytes; unfold nu; lia).
Qed.

Lemma insert_entry_effect :
  exists p', insert_entry_at page (Z.of_nat i) entry = Ok p' /\ bt_inv p' /\
    node_of p' = with_entries (n_upper (node_of page) - zlen entry) (insert_at i entry (entries page)) (node_of page).
Proof.
  exists page'. split; [apply insert_entry_runs|].
  destruct insert_bounds as (Hl & Hlow & Hroom & Hup & Hls & Hm & Hlp).
  destruct insert_header as (_ & H1 & H2 & H3 & H4 & H5). destruct insert_lp_fields as (Hf & Ho & Hlen).
  pose proof (bt_lps_normal _ Hb) as Hn. destruct (bt_bounds _ Hb) as (_ & _ & Hs & Hlo & _).
  assert (Hn' : Forall (fun l => LP_flags l = Normal) (lps page')).
  { rewrite insert_lps, insert_at_perm. by constructor. }
  assert (Hb' : bt_inv page').
  { apply bt_inv_intro; [apply insert_geometry|by rewrite H3|done|..].
    - rewrite insert_regions, H2, H3, Hs. constructor; [cbn [fst snd]; bt_consts; lia|]. pose proof (inv_live _ (bt_page _ Hb)) as Hlv.
      eapply Forall_impl; [exact Hlv|]. cbn beta. rewrite Hs. unfold nu. intros r [? ?]. lia.
    - destruct (inv_disj _ (bt_page _ Hb)) as (rs & Hrs & Hst). exists ((nu, pd_upper (header page)) :: rs).
      split; [by rewrite insert_regions, Hrs|]. constructor; [done|]. rewrite Hrs. pose proof (inv_live _ (bt_page _ Hb)) as Hlv.
      eapply Forall_impl; [exact Hlv|]. unfold before. cbn [fst snd]. by intros r [? ?]. }
  split; [done|]. unfold node_of, with_entries. cbn [n_upper n_entries n_lsn n_prev n_next n_level n_flags]. rewrite H2. f_equal;
    try (unfold page_pd_lsn, header, PageHeader_read_from; cbn [pd_flags]; rewrite insert_get by (bt_consts; lia); done).
  - rewrite !bt_entries by done. rewrite insert_lps, fmap_insert_at. f_equal.
    + unfold lp_entry. rewrite Ho, Hlen. apply insert_new.
    + apply list_fmap_ext. intros j l Hj. unfold lp_entry. apply insert_old.
      destruct (lp_in_bounds page l) as (_ & ? & _); [apply Hb|by eapply list_elem_of_lookup_2| |done].
      rewrite Forall_lookup in Hn. by rewrite (Hn _ _ Hj).
Qed.

End insert.

(** ** Lemmas: header and special-space writes *)

(** A write outside [14, 8176) leaves the geometry and the entries alone. *)
Lemma bt_outer page page' :
  bt_inv page -> zlen page' = PAGE_SIZE -> wf_bytes page' ->
  (forall off n, 14 <= off -> off + n <= BTREE_SPECIAL -> slice off n page' = slice off n page) ->
  bt_inv page' /\ entries page' = entries page /\ pd_upper (header page') = pd_upper (header page).
Proof.
  intros Hb Hl Hw Hf. destruct (bt_bounds _ Hb) as (_ & _ & Hs & Hlo & Hup). pose proof (inv_geo _ (bt_page _ Hb)) as Hg.
  assert (Hh : pd_lower (header page') = pd_lower (header page) /\ pd_upper (header page') = pd_upper (header page) /\
               pd_special (header page') = pd_special (header page)).
  { unfold header, PageHeader_read_from, get_le. cbn [pd_lower pd_upper pd_special].
    rewrite !Hf by (bt_consts; lia). done. }
  destruct Hh as (H1 & H2 & H3).
  assert (Hg' : geometry page') by (destruct Hg; split; rewrite ?H1, ?H2, ?H3; done).
  assert (Hlps : lps page' = lps page).
  { destruct (slot_count_geometry _ Hg) as (_ & Hsc & ?). apply lps_ext; [done| |].
    - unfold slot_count. rewrite H1, length_lps. fold (slot_count page). lia.
    - intros i Hi. rewrite length_lps in Hi. rewrite lookup_lps by lia. f_equal. unfold get_le.
      rewrite Hf by (bt_consts; lia). done. }
  pose proof (bt_lps_normal _ Hb) as Hn. split; [|split; [|done]].
  - apply bt_inv_intro; rewrite ?Hlps, ?H2, ?H3; try done; apply Hb.
  - destruct (entries_lps page') as [-> _]; [by rewrite Hlps|]. rewrite bt_entries, Hlps by done.
    apply list_fmap_ext. intros i lp Hi. unfold lp_entry.
    destruct (lp_in_bounds page lp) as (_ & ? & ? & ?); [apply Hb|by eapply list_elem_of_lookup_2| |].
    { rewrite Forall_lookup in Hn. by rewrite (Hn _ _ Hi). }
    apply Hf; bt_consts; lia.
Qed.

(** Writing an [n]-byte field outside that range. *)
Lemma bt_put n off x page :
  bt_inv page -> 0 <= off -> off + Z.of_nat n <= 14 \/ BTREE_SPECIAL <= off ->
  bt_inv (put_le n off x page) /\ entries (put_le n off x page) = entries page /\
  pd_upper (header (put_le n off x page)) = pd_upper (header page).
Proof.
  intros Hb H0 Ho. destruct (bt_bounds _ Hb) as (Hl & Hw & _). apply bt_outer; [done|by rewrite length_put_le|by apply wf_put_le|].
  intros o m ??. apply slice_put_disj; bt_consts; lia.
Qed.

Ltac node_field := unfold node_of, header, PageHeader_read_from, page_pd_lsn; cbn [pd_flags pd_upper];
  f_equal; try done; bt_consts; bytes; done.

Lemma node_set_lsn page lsn :
  bt_inv page -> in_u 64 lsn ->
  bt_inv (set_page_pd_lsn page lsn) /\ node_of (set_page_pd_lsn page lsn) = with_lsn lsn (node_of page).
Proof.
  intros Hb Hl. destruct (bt_bounds _ Hb) as (Hlen & _). destruct (bt_put 8 0 lsn page Hb) as (Hb' & He & Hu); [lia|lia|].
  split; [done|]. unfold in_u in Hl. unfold with_lsn, node_of, header, PageHeader_read_from, page_pd_lsn, set_page_pd_lsn in *.
  cbn [n_lsn n_prev n_next n_level n_flags n_upper n_entries pd_flags pd_upper] in *. rewrite He.
  bt_consts. bytes; done.
Qed.

Lemma set_prev_effect page p :
  bt_inv page -> in_u 64 p ->
  exists page', set_prev page p = Ok page' /\ bt_inv page' /\ node_of page' = with_prev p (node_of page).
Proof.
  intros Hb Hp. destruct (bt_bounds _ Hb) as (Hlen & _ & Hs & _).
  destruct (bt_put 8 BTREE_SPECIAL p page Hb) as (Hb' & He & Hu); [bt_consts; lia|lia|].
  exists (put_le 8 BTREE_SPECIAL p page). unfold set_prev. rewrite Hs.
  split; [apply slice_set_ok; rewrite ?length_le_bytes; bt_consts; lia|]. split; [done|]. unfold in_u in Hp.
  unfold with_prev, node_of, header, PageHeader_read_from, page_pd_lsn in *.
  cbn [n_lsn n_prev n_next n_level n_flags n_upper n_entries pd_flags pd_upper] in *. rewrite He.
  bt_consts. bytes; done.
Qed.

Lemma set_next_effect page p :
  bt_inv page -> in_u 64 p ->
  exists page', set_next page p = Ok page' /\ bt_inv page' /\ node_of page' = with_next p (node_of page).
Proof.
  intros Hb Hp. destruct (bt_bounds _ Hb) as (Hlen & _ & Hs & _).
  destruct (bt_put 8 (BTREE_SPECIAL + 8) p page Hb) as (Hb' & He & Hu); [bt_consts; lia|lia|].
  exists (put_le 8 (BTREE_SPECIAL + 8) p page). unfold set_next. rewrite Hs.
  split; [apply slice_set_ok; rewrite ?length_le_bytes; bt_consts; lia|]. split; [done|]. unfold in_u in Hp.
  unfold with_next, node_of, header, PageHeader_read_from, page_pd_lsn in *.
  cbn [n_lsn n_prev n_next n_level n_flags n_upper n_entries pd_flags pd_upper] in *. rewrite He.
  bt_consts. bytes; done.
Qed.

Lemma pd_flags_range page : zlen page = PAGE_SIZE -> wf_bytes page -> in_u 16 (get_le 2 12 page).
Proof. intros. apply (get_le_bound 2); bt_consts; (done || lia). Qed.

(** Both nibble writes, on any buffer of page size. *)
Lemma get_nibble_put s t page v :
  zlen page = PAGE_SIZE -> wf_bytes page -> s = 8 \/ s = 12 -> t = 8 \/ t = 12 -> 0 <= v < 16 ->
  Z.land (Z.shiftr (get_le 2 12 (put_le 2 12 (put_nibble s (get_le 2 12 page) v) page)) t) 0x0F
  = if decide (s = t) then v else Z.land (Z.shiftr (get_le 2 12 page) t) 0x0F.
Proof.
  intros Hl Hw Hs Ht Hv. rewrite get_put_same; [by apply get_put_nibble|lia|bt_consts; lia|].
  apply put_nibble_range, pd_flags_range; done.
Qed.

Lemma set_level_effect page l :
  bt_inv page -> 0 <= l < 16 -> bt_inv (set_level page l) /\ node_of (set_level page l) = with_level l (node_of page).
Proof.
  intros Hb Hv. destruct (bt_bounds _ Hb) as (Hlen & Hw & _). unfold set_level. fold (put_nibble LEVEL_SHIFT (get_le 2 12 page) l).
  destruct (bt_put 2 12 (put_nibble LEVEL_SHIFT (get_le 2 12 page) l) page Hb) as (Hb' & He & Hu); [lia|lia|].
  split; [done|]. unfold with_level, node_of, header, PageHeader_read_from, page_pd_lsn in *.
  cbn [n_lsn n_prev n_next n_level n_flags n_upper n_entries pd_flags pd_upper] in *. rewrite He, Hu.
  unfold LEVEL_SHIFT, FLAGS_SHIFT. rewrite !get_nibble_put by (done || lia). rewrite decide_True, decide_False by done.
  bt_consts. by rewrite !get_put_disj by lia.
Qed.

Lemma set_flags_effect page f :
  bt_inv page -> 0 <= f < 16 -> bt_inv (set_flags page f) /\ node_of (set_flags page f) = with_flags f (node_of page).
Proof.
  intros Hb Hv. destruct (bt_bounds _ Hb) as (Hlen & Hw & _). unfold set_flags. fold (put_nibble FLAGS_SHIFT (get_le 2 12 page) f).
  destruct (bt_put 2 12 (put_nibble FLAGS_SHIFT (get_le 2 12 page) f) page Hb) as (Hb' & He & Hu); [lia|lia|].
  split; [done|]. unfold with_flags, node_of, header, PageHeader_read_from, page_pd_lsn in *.
  cbn [n_lsn n_prev n_next n_level n_flags n_upper n_entries pd_flags pd_upper] in *. rewrite He, Hu.
  unfold LEVEL_SHIFT, FLAGS_SHIFT. rewrite !get_nibble_put by (done || lia). rewrite decide_False, decide_True by done.
  bt_consts. by rewrite !get_put_disj by lia.
Qed.

(** ** Lemmas: initialisation *)

Definition fresh_node (level flags : Z) : Node := mkNode Lsn_INVALID PageId_INVALID PageId_INVALID level flags BTREE_SPECIAL [].

Lemma init_special_effect page :
  zlen page = PAGE_SIZE ->
  let p := init_with_special page BTREE_SPECIAL_SIZE in bt_inv p /\ node_of p = fresh_node 0 0.
Proof.
  intros Hl p. destruct (init_with_special_fields page BTREE_SPECIAL_SIZE Hl) as (H1 & H2 & H3 & H4 & H5); [bt_consts; lia|].
  destruct (init_inv page BTREE_SPECIAL_SIZE Hl) as [Hi Hv]; [bt_consts; lia|]. fold p in H1, H2, H3, H4, H5, Hi, Hv.
  assert (He : entries p = []) by (unfold entries; by rewrite Hv).
  split; [split; [done|done|by rewrite Hv, He]|].
  assert (Hr : PageHeader_read_from (PageHeader_init_page (zeros 8192)) = PageHeader_new (PAGE_SIZE mod 2 ^ 16)).
  { unfold PageHeader_init_page. apply PageHeader_read_write; [rewrite length_zeros; bt_consts; lia|].
    unfold PageHeader_wf, in_u. vm_compute. by repeat split. }
  assert (Hp : p = put_le 2 18 8176 (put_le 2 16 8176 (PageHeader_init_page (zeros 8192)))).
  { unfold p, init_with_special. bt_consts. rewrite Hl. done. }
  assert (Hsp : forall off, off = 8176 \/ off = 8184 -> get_le 8 off p = 0).
  { intros off Ho. rewrite Hp. unfold PageHeader_init_page, PageHeader_write_to, set_page_pd_lsn. bt_consts.
    rewrite !get_put_disj by lia. rewrite get_splice_disj by (rewrite ?length_zeros; lia).
    rewrite !get_put_disj by lia. apply get_zeros; lia. }
  unfold node_of, fresh_node. rewrite He, H4. bt_consts. rewrite !Hsp by lia.
  unfold header, PageHeader_read_from. cbn [pd_flags]. rewrite Hp. unfold page_pd_lsn. rewrite !get_put_disj by lia.
  change (get_le 8 0 ?q) with (pd_lsn (PageHeader_read_from q)). change (get_le 2 12 ?q) with (pd_flags (PageHeader_read_from q)).
  rewrite Hr. done.
Qed.

Lemma init_effect page l f :
  zlen page = PAGE_SIZE -> 0 <= l < 16 -> 0 <= f < 16 ->
  bt_inv (BtreePage_init page l f) /\ node_of (BtreePage_init page l f) = fresh_node l f.
Proof.
  intros Hlen Hl Hf. unfold BtreePage_init. destruct (init_special_effect page Hlen) as [H0 N0].
  destruct (set_level_effect _ l H0 Hl) as [H1 N1]. destruct (set_flags_effect _ f H1 Hf) as [H2 N2].
  split; [done|]. by rewrite N2, N1, N0.
Qed.

Lemma init_right_effect page left old_next l :
  zlen page = PAGE_SIZE -> 0 <= l < 16 -> in_u 64 left -> in_u 64 old_next ->
  exists page', init_right_page page left old_next l = Ok page' /\ bt_inv page' /\
    node_of page' = with_next old_next (with_prev left (fresh_node l (flags_for_level l))).
Proof.
  intros Hlen Hl Hp Hn. unfold init_right_page.
  assert (Hf : 0 <= flags_for_level l < 16) by (unfold flags_for_level; case_match; unfold BTREE_FLAG_LEAF; lia).
  destruct (init_effect page l _ Hlen Hl Hf) as [H0 N0].
  destruct (set_prev_effect _ left H0 Hp) as (p1 & -> & H1 & N1). cbn [res_bind].
  destruct (set_next_effect _ old_next H1 Hn) as (p2 & -> & H2 & N2).
  exists p2. split; [done|]. split; [done|]. by rewrite N2, N1, N0.
Qed.

(** ** Lemmas: readers *)

Lemma nibble_range x : 0 <= Z.land x 0x0F < 16.
Proof. change 0x0F with (Z.ones 4). rewrite Z.land_ones by lia. by apply Z.mod_pos_bound. Qed.

Lemma level_read page : bt_inv page -> level page = Ok (n_level (node_of page)).
Proof. intros Hb. unfold level. by rewrite bt_checked_header by done. Qed.

Lemma flags_read page : bt_inv page -> flags page = Ok (n_flags (node_of page)) /\ 0 <= n_flags (node_of page) < 16.
Proof. intros Hb. unfold flags. rewrite bt_checked_header by done. split; [done|]. apply nibble_range. Qed.

Lemma level_range page : 0 <= n_level (node_of page) < 16.
Proof. apply nibble_range. Qed.

Lemma prev_read page : bt_inv page -> prev page = Ok (n_prev (node_of page)).
Proof.
  intros Hb. destruct (bt_bounds _ Hb) as (Hl & _ & Hs & _). unfold prev. rewrite bt_checked_header by done. cbn [res_bind].
  rewrite Hs. by rewrite slice_get_ok by (bt_consts; lia).
Qed.

Lemma next_read page : bt_inv page -> next page = Ok (n_next (node_of page)).
Proof.
  intros Hb. destruct (bt_bounds _ Hb) as (Hl & _ & Hs & _). unfold next. rewrite bt_checked_header by done. cbn [res_bind].
  rewrite Hs. by rewrite slice_get_ok by (bt_consts; lia).
Qed.

Lemma entry_read page slot : bt_inv page -> 0 <= slot -> tuple page slot = Ok (entries page !! Z.to_nat slot).
Proof.
  intros Hb Hs. rewrite tuple_view by (done || apply Hb). rewrite (bt_normal _ Hb), list_lookup_fmap.
  by destruct (entries page !! Z.to_nat slot).
Qed.

Lemma land_not_range f m : 0 <= f < 16 -> 0 <= Z.land f (not_u8 m) < 16.
Proof.
  intros Hf. rewrite <-(nibble_id f) by done. rewrite <-Z.land_assoc, (Z.land_comm 0x0F), Z.land_assoc. apply nibble_range.
Qed.

Lemma lor_flag_range f m : 0 <= f < 16 -> 0 <= m < 16 -> 0 <= Z.lor f m < 16.
Proof.
  intros Hf Hm. rewrite <-(nibble_id f), <-(nibble_id m) by done. rewrite <-Z.land_lor_distr_l. apply nibble_range.
Qed.

Lemma set_flag_effect page m on :
  bt_inv page -> 0 <= m < 16 ->
  exists page', set_flag page m on = Ok page' /\ bt_inv page' /\
    node_of page' = with_flags (if on then Z.lor (n_flags (node_of page)) m else Z.land (n_flags (node_of page)) (not_u8 m)) (node_of page).
Proof.
  intros Hb Hm. destruct (flags_read _ Hb) as [Hr Hf]. unfold set_flag. rewrite Hr. cbn [res_bind].
  eexists. split; [done|]. apply set_flags_effect; [done|].
  destruct on; [by apply lor_flag_range|by apply land_not_range].
Qed.

Lemma bt_upper_pos page : bt_inv page -> (pd_upper (header page) =? 0) = false.
Proof. intros Hb. destruct (bt_bounds _ Hb) as (_ & _ & _ & Hlo & _). apply Z.eqb_neq. bt_consts. lia. Qed.

Lemma apply_prepare_effect page r :
  bt_inv page -> in_u 64 r ->
  exists page', apply_prepare_left page r = Ok page' /\ bt_inv page' /\
    node_of page' = with_next r (with_flags (Z.lor (n_flags (node_of page)) BTREE_FLAG_SPLIT_INCOMPLETE) (node_of page)).
Proof.
  intros Hb Hr. unfold apply_prepare_left. rewrite bt_checked_header, bt_upper_pos by done. cbn [res_bind].
  destruct (set_flag_effect page BTREE_FLAG_SPLIT_INCOMPLETE true Hb) as (p1 & -> & H1 & N1); [unfold BTREE_FLAG_SPLIT_INCOMPLETE; lia|].
  cbn [res_bind]. destruct (set_next_effect p1 r H1 Hr) as (p2 & -> & H2 & N2).
  exists p2. split; [done|]. split; [done|]. by rewrite N2, N1.
Qed.

Lemma apply_commit_effect page :
  bt_inv page ->
  exists page', apply_commit_left page = Ok page' /\ bt_inv page' /\
    node_of page' = with_flags (Z.land (n_flags (node_of page)) (not_u8 (Z.lor BTREE_FLAG_SPLIT_INCOMPLETE BTREE_FLAG_ROOT))) (node_of page).
Proof.
  intros Hb. unfold apply_commit_left. rewrite bt_checked_header, bt_upper_pos by done. cbn [res_bind].
  destruct (flags_read _ Hb) as [-> Hf]. cbn [res_bind]. eexists. split; [done|]. apply set_flags_effect; [done|].
  by apply land_not_range.
Qed.

(** ** Lemmas: entry codecs *)

Lemma get_le_last n m x y :
  0 <= y < 256 ^ Z.of_nat m -> get_le m (Z.of_nat n) (le_bytes n x ++ le_bytes m y) = y.
Proof.
  intros Hy. rewrite get_le_skip by (rewrite length_le_bytes; lia). rewrite length_le_bytes, Z.sub_diag.
  rewrite <-(app_nil_r (le_bytes m y)). by apply get_le_head.
Qed.

Lemma leaf_roundtrip key tid :
  in_u 64 (page_id tid) -> in_u 16 (slot_id tid) -> decode_leaf_entry (encode_leaf_entry key tid) = Ok (key, tid).
Proof.
  destruct tid as [p s]. unfold in_u. cbn [page_id slot_id]. intros Hp Hs.
  unfold decode_leaf_entry, encode_leaf_entry, LEAF_TRAILER_SIZE. cbn [page_id slot_id].
  rewrite !length_app, !length_le_bytes. rewrite (proj2 (Z.ltb_ge _ _)) by lia.
  replace (Z.of_nat (length key + (8 + 2)) - 10) with (zlen key) by lia.
  rewrite slice_app_exact by done. rewrite slice_app_r, Z.sub_diag by lia.
  rewrite slice_all by (rewrite length_app, !length_le_bytes; lia). do 3 f_equal.
  - by apply get_le_head.
  - by apply (get_le_last 8 2).
Qed.

Lemma internal_roundtrip key child :
  in_u 64 child -> decode_internal_entry (encode_internal_entry key child) = Ok (key, child).
Proof.
  unfold in_u. intros Hc. unfold decode_internal_entry, encode_internal_entry, INTERNAL_TRAILER_SIZE.
  rewrite !length_app, !length_le_bytes. rewrite (proj2 (Z.ltb_ge _ _)) by lia.
  replace (Z.of_nat (length key + 8) - 8) with (zlen key) by lia.
  rewrite slice_app_exact by done. rewrite slice_app_r, Z.sub_diag by lia.
  rewrite slice_all by (rewrite !length_le_bytes; lia). by rewrite le_val_le_bytes_id.
Qed.

Lemma meta_roundtrip root l :
  in_u 64 root -> in_u 16 l -> decode_meta_record (encode_meta_record root l) = Ok (root, l).
Proof.
  unfold in_u. intros Hr Hl. unfold decode_meta_record, encode_meta_record, META_RECORD_SIZE.
  rewrite length_app, !length_le_bytes. simpl negb. cbn iota. do 2 f_equal; [by apply get_le_head|by apply (get_le_last 8 2)].
Qed.

(** A byte string is the concatenation of its consecutive little-endian fields. *)
Lemma le_fields_10 b :
  wf_bytes b -> zlen b = 10 -> b = le_bytes 8 (get_le 8 0 b) ++ le_bytes 2 (get_le 2 8 b).
Proof.
  intros Hw Hl. rewrite (le_bytes_get_le 8 0 8), (le_bytes_get_le 2 8 2) by (done || lia).
  rewrite <-(slice_split 0 8 2) by lia. by rewrite slice_all by lia.
Qed.

Lemma leaf_canonical bytes :
  wf_bytes bytes ->
  match decode_leaf_entry bytes with
  | Ok (key, tid) => bytes = encode_leaf_entry key tid
  | Err e => e = BtCorrupted /\ zlen bytes < LEAF_TRAILER_SIZE
  | Panic => False
  end.
Proof.
  intros Hw. unfold decode_leaf_entry, LEAF_TRAILER_SIZE. destruct (zlen bytes <? 10) eqn:E; zbool; [done|].
  unfold encode_leaf_entry. cbn [page_id slot_id]. rewrite <-le_fields_10 by (auto with wf; rewrite length_slice by lia; lia).
  rewrite <-(slice_split 0 (zlen bytes - 10) 10) by lia. by rewrite slice_all by lia.
Qed.

Lemma internal_canonical bytes :
  wf_bytes bytes ->
  match decode_internal_entry bytes with
  | Ok (key, child) => bytes = encode_internal_entry key child
  | Err e => e = BtCorrupted /\ zlen bytes < INTERNAL_TRAILER_SIZE
  | Panic => False
  end.
Proof.
  intros Hw. unfold decode_internal_entry, INTERNAL_TRAILER_SIZE. destruct (zlen bytes <? 8) eqn:E; zbool; [done|].
  unfold encode_internal_entry. set (tail := slice (zlen bytes - 8) 8 bytes).
  replace (le_bytes 8 (le_val tail)) with tail.
  - unfold tail. rewrite <-(slice_split 0 (zlen bytes - 8) 8) by lia. by rewrite slice_all by lia.
  - replace 8%nat with (length tail) by (unfold tail; rewrite length_slice by lia; done).
    symmetry. apply le_bytes_le_val. unfold tail. auto with wf.
Qed.

Lemma meta_canonical bytes :
  wf_bytes bytes ->
  match decode_meta_record bytes with
  | Ok (root, l) => bytes = encode_meta_record root l
  | Err e => e = BtCorrupted /\ zlen bytes <> META_RECORD_SIZE
  | Panic => False
  end.
Proof.
  intros Hw. unfold decode_meta_record. destruct (zlen bytes =? META_RECORD_SIZE) eqn:E; zbool; [|done].
  by apply le_fields_10.
Qed.

(** ** Properties *)

Definition MAX_ENTRY : Z := PAGE_SIZE - BTREE_SPECIAL_SIZE - (PAGE_HEADER_SIZE + LINE_POINTER_SIZE).

Lemma insert_entry_outcome page slot entry :
  bt_inv page -> 0 <= slot -> wf_bytes entry ->
  let n := node_of page in
  match insert_entry_at page slot entry with
  | Ok page' => 0 < zlen entry /\ slot <= zlen (n_entries n) /\ bt_inv page' /\
      node_of page' = with_entries (n_upper n - zlen entry) (insert_at (Z.to_nat slot) entry (n_entries n)) n
  | Err BtInvalidArgument => entry = []
  | Err BtCorrupted => zlen (n_entries n) < slot
  | Err (BtKeyTooLarge len) => len = zlen entry /\ MAX_ENTRY < len
  | Err (BtPageFull needed available) =>
      needed = zlen entry + LINE_POINTER_SIZE /\ available = n_free n /\ available < needed
  | _ => False
  end.
Proof.
  intros Hb Hs Hw n. destruct (bt_count _ Hb) as (Hc & _ & Hct & Hlow). destruct (bt_bounds _ Hb) as (_ & _ & _ & Hlo & Hup).
  assert (Hfree : (pd_upper (header page) - pd_lower (header page)) mod 2 ^ 16 = n_free n).
  { unfold n_free, n, node_of. cbn [n_upper n_entries]. rewrite <-Hlow. apply Z.mod_small. bt_consts. lia. }
  destruct (zlen entry =? 0) eqn:E1.
  { unfold insert_entry_at. rewrite bt_checked_header by done. cbn [res_bind]. rewrite E1. zbool. by destruct entry. }
  destruct (slot >? zlen (entries page)) eqn:E2.
  { unfold insert_entry_at. rewrite bt_checked_header by done. cbn [res_bind]. rewrite E1, Hct, E2. zbool. done. }
  assert (Hmax : Z.max 0 (PAGE_SIZE - BTREE_SPECIAL_SIZE - (PAGE_HEADER_SIZE + LINE_POINTER_SIZE)) = MAX_ENTRY) by done.
  destruct (zlen entry >? MAX_ENTRY) eqn:E3.
  { unfold insert_entry_at. rewrite bt_checked_header by done. cbn [res_bind]. rewrite E1, Hct, E2, Hmax, E3. by zbool. }
  destruct (n_free n <? zlen entry + LINE_POINTER_SIZE) eqn:E4.
  { unfold insert_entry_at. rewrite bt_checked_header by done. cbn [res_bind].
    rewrite E1, Hct, E2, Hmax, E3, Hfree, E4. by zbool. }
  zbool. destruct (insert_entry_effect page (Z.to_nat slot) entry) as (p' & Hi & Hb' & Hn); try done; [lia|lia|].
  rewrite Z2Nat.id in Hi by done. rewrite Hi. split; [lia|]. split; [done|]. by split.
Qed.

Lemma remove_entry_outcome page slot :
  bt_inv page -> 0 <= slot ->
  let n := node_of page in
  if decide (slot < zlen (n_entries n))
  then exists page', remove_entry_at page slot = Ok page' /\ bt_inv page' /\
         node_of page' = with_entries (n_upper n) (delete (Z.to_nat slot) (n_entries n)) n
  else remove_entry_at page slot = Err BtCorrupted.
Proof.
  intros Hb Hs n. destruct (bt_count _ Hb) as (Hc & _ & Hct & Hlow). change (n_entries n) with (entries page).
  case_decide as Hd.
  - destruct (remove_entry_effect page (Z.to_nat slot)) as (p' & Hr & Hb' & Hn); [done|lia|].
    rewrite Z2Nat.id in Hr by done. by exists p'.
  - unfold remove_entry_at. rewrite bt_checked_header by done. cbn [res_bind]. rewrite Hct, Z.geb_leb.
    by rewrite (proj2 (Z.leb_le _ _)) by lia.
Qed.

Lemma truncate_slots_outcome page keep :
  bt_inv page -> 0 <= keep ->
  let n := node_of page in
  if decide (keep <= zlen (n_entries n))
  then exists page', truncate_slots page keep = Ok page' /\ bt_inv page' /\
         node_of page' = with_entries (n_upper n) (take (Z.to_nat keep) (n_entries n)) n
  else truncate_slots page keep = Err BtCorrupted.
Proof.
  intros Hb Hs n. destruct (bt_count _ Hb) as (Hc & _ & Hct & Hlow). change (n_entries n) with (entries page).
  destruct (bt_bounds _ Hb) as (_ & _ & _ & Hlo & Hup).
  unfold truncate_slots. rewrite bt_checked_header by done. cbn [res_bind]. rewrite Hct, Z.gtb_ltb. case_decide as Hd.
  - rewrite (proj2 (Z.ltb_ge _ _)) by lia. eexists. split; [done|]. rewrite Z.mod_small by (bt_consts; lia).
    rewrite <-(Z2Nat.id keep) at 1 2 by done. apply truncate_effect; [done|lia].
  - by rewrite (proj2 (Z.ltb_lt _ _)) by lia.
Qed.

(** C18: a B+Tree page behaves as a node, a list of entries with level, flags,
    sibling links and a free-space bound.  On every well-formed page the readers
    return the node's fields; [insert_entry_at] inserts exactly at the slot and
    keeps every other field, and each of its errors has exactly the stated
    cause; [remove_entry_at] deletes and [truncate_slots] keeps a prefix, or
    they report corruption when the slot is out of range; the two halves of a
    split's prepare and commit change only flags and the right link; and every
    result is again well formed. *)
Theorem btree_page_refines page :
  bt_inv page ->
  let n := node_of page in
  (level page = Ok (n_level n) /\ flags page = Ok (n_flags n) /\ prev page = Ok (n_prev n) /\ next page = Ok (n_next n) /\
   forall slot, 0 <= slot -> tuple page slot = Ok (n_entries n !! Z.to_nat slot)) /\
  (forall slot entry, 0 <= slot -> wf_bytes entry ->
     match insert_entry_at page slot entry with
     | Ok page' => 0 < zlen entry /\ slot <= zlen (n_entries n) /\ bt_inv page' /\
         node_of page' = with_entries (n_upper n - zlen entry) (insert_at (Z.to_nat slot) entry (n_entries n)) n
     | Err BtInvalidArgument => entry = []
     | Err BtCorrupted => zlen (n_entries n) < slot
     | Err (BtKeyTooLarge len) => len = zlen entry /\ MAX_ENTRY < len
     | Err (BtPageFull needed available) =>
         needed = zlen entry + LINE_POINTER_SIZE /\ available = n_free n /\ available < needed
     | _ => False
     end) /\
  (forall slot, 0 <= slot ->
     if decide (slot < zlen (n_entries n))
     then exists page', remove_entry_at page slot = Ok page' /\ bt_inv page' /\
            node_of page' = with_entries (n_upper n) (delete (Z.to_nat slot) (n_entries n)) n
     else remove_entry_at page slot = Err BtCorrupted) /\
  (forall keep, 0 <= keep ->
     if decide (keep <= zlen (n_entries n))
     then exists page', truncate_slots page keep = Ok page' /\ bt_inv page' /\
            node_of page' = with_entries (n_upper n) (take (Z.to_nat keep) (n_entries n)) n
     else truncate_slots page keep = Err BtCorrupted) /\
  (forall right, in_u 64 right -> exists page', apply_prepare_left page right = Ok page' /\ bt_inv page' /\
     node_of page' = with_next right (with_flags (Z.lor (n_flags n) BTREE_FLAG_SPLIT_INCOMPLETE) n)) /\
  (exists page', apply_commit_left page = Ok page' /\ bt_inv page' /\
     node_of page' = with_flags (Z.land (n_flags n) (not_u8 (Z.lor BTREE_FLAG_SPLIT_INCOMPLETE BTREE_FLAG_ROOT))) n).
Proof.
  intros Hb n. split; [|split; [|split; [|split; [|split]]]].
  - split; [by apply level_read|]. split; [by apply flags_read|]. split; [by apply prev_read|]. split; [by apply next_read|].
    intros. by apply entry_read.
  - intros. by apply insert_entry_outcome.
  - intros. by apply remove_entry_outcome.
  - intros. by apply truncate_slots_outcome.
  - intros. by apply apply_prepare_effect.
  - by apply apply_commit_effect.
Qed.

Lemma btree_page_refines_witness :
  let p := BtreePage_init (zeros PAGE_SIZE) 0 BTREE_FLAG_LEAF in
  level p = Ok 0 /\ flags p = Ok BTREE_FLAG_LEAF /\ remove_entry_at p 0 = Err BtCorrupted.
Proof.
  intros p. destruct (init_effect (zeros PAGE_SIZE) 0 BTREE_FLAG_LEAF) as [Hb Hn];
    [by rewrite length_zeros|lia|unfold BTREE_FLAG_LEAF; lia|].
  destruct (btree_page_refines p Hb) as ((Hl & Hf & _) & _ & Hr & _). fold p in Hn. rewrite Hn in *.
  split; [exact Hl|]. split; [exact Hf|]. apply (Hr 0). lia.
Defined.

(** Index entries and meta records have one representation.  A leaf entry, an
    internal entry and a meta record decode to what was encoded, and any bytes
    that decode are the encoding of the result, so that the page content
    determines keys, row ids, children and roots, and vice versa. *)
Theorem entry_codecs :
  (forall key tid, in_u 64 (page_id tid) -> in_u 16 (slot_id tid) ->
     decode_leaf_entry (encode_leaf_entry key tid) = Ok (key, tid)) /\
  (forall key child, in_u 64 child -> decode_internal_entry (encode_internal_entry key child) = Ok (key, child)) /\
  (forall root l, in_u 64 root -> in_u 16 l -> decode_meta_record (encode_meta_record root l) = Ok (root, l)) /\
  (forall bytes, wf_bytes bytes ->
     match decode_leaf_entry bytes with
     | Ok (key, tid) => bytes = encode_leaf_entry key tid
     | Err e => e = BtCorrupted /\ zlen bytes < LEAF_TRAILER_SIZE
     | Panic => False
     end /\
     match decode_internal_entry bytes with
     | Ok (key, child) => bytes = encode_internal_entry key child
     | Err e => e = BtCorrupted /\ zlen bytes < INTERNAL_TRAILER_SIZE
     | Panic => False
     end /\
     match decode_meta_record bytes with
     | Ok (root, l) => bytes = encode_meta_record root l
     | Err e => e = BtCorrupted /\ zlen bytes <> META_RECORD_SIZE
     | Panic => False
     end).
Proof.
  split; [apply leaf_roundtrip|]. split; [apply internal_roundtrip|]. split; [apply meta_roundtrip|].
  intros bytes Hw. split; [by apply leaf_canonical|]. split; [by apply internal_canonical|by apply meta_canonical].
Qed.

Lemma entry_codecs_witness : decode_leaf_entry (encode_leaf_entry [7; 9] (mkTid 3 4)) = Ok ([7; 9], mkTid 3 4).
Proof. apply (proj1 entry_codecs); split; vm_compute; congruence. Defined.

Lemma bt_checked_cases page :
  zlen page = PAGE_SIZE -> wf_bytes page ->
  BtreePage_checked_header page = Err BtCorrupted \/
  (BtreePage_checked_header page = Ok (header page) /\ pd_special (header page) = BTREE_SPECIAL /\
   pd_lower (header page) = PAGE_HEADER_SIZE + (pd_lower (header page) - PAGE_HEADER_SIZE) / LINE_POINTER_SIZE * LINE_POINTER_SIZE /\
   PAGE_HEADER_SIZE <= pd_lower (header page) <= pd_upper (header page) /\ pd_upper (header page) <= BTREE_SPECIAL).
Proof.
  intros Hl Hw. unfold BtreePage_checked_header. destruct (_ || _) eqn:E; [by left|right]. zbool.
  split; [done|]. split; [done|]. split; [|split; [done|]].
  - pose proof (Z.div_mod (pd_lower (header page) - PAGE_HEADER_SIZE) LINE_POINTER_SIZE) as Hd.
    unfold LINE_POINTER_SIZE in *. lia.
  - unfold BTREE_SPECIAL. lia.
Qed.

(** Corrupted page bytes never cause a panic.  On any 8192 bytes, readers and
    mutations of the page module return a value or an error. *)
Theorem btree_page_no_panic page slot entry right :
  zlen page = PAGE_SIZE -> wf_bytes page -> 0 <= slot ->
  level page <> Panic /\ flags page <> Panic /\ prev page <> Panic /\ next page <> Panic /\
  insert_entry_at page slot entry <> Panic /\ remove_entry_at page slot <> Panic /\ truncate_slots page slot <> Panic /\
  apply_prepare_left page right <> Panic /\ apply_commit_left page <> Panic.
Proof.
  intros Hl Hw Hs. unfold level, flags, prev, next, insert_entry_at, remove_entry_at, truncate_slots, apply_prepare_left, apply_commit_left, set_flag, flags, copy_within.
  destruct (bt_checked_cases page Hl Hw) as [->|(-> & Hsp & Hlow & Hlo & Hup)]; [by repeat split|]. cbn [res_bind].
  set (c := (pd_lower (header page) - PAGE_HEADER_SIZE) / LINE_POINTER_SIZE) in *. rewrite Hsp.
  split; [done|]. split; [done|].
  split; [by rewrite slice_get_ok by (bt_consts; lia)|]. split; [by rewrite slice_get_ok by (bt_consts; lia)|].
  split; [|split; [|split; [by case_match|split; [|by case_match]]]].
  - repeat (case_match; [done|]). zbool. rewrite Z.mod_small in * by (bt_consts; lia).
    rewrite slice_set_ok by (bt_consts; lia). cbn [res_bind].
    rewrite slice_get_ok by (rewrite ?length_splice; bt_consts; lia). cbn [res_bind].
    rewrite slice_set_ok by (rewrite ?length_slice by (rewrite ?length_splice; bt_consts; lia); rewrite ?length_splice; bt_consts; lia).
    cbn [res_bind]. unfold LP_to_le_bytes.
    by rewrite slice_set_ok by (rewrite ?length_splice, ?length_le_bytes; bt_consts; lia).
  - case_match; [done|]. zbool. rewrite slice_get_ok by (bt_consts; lia). cbn [res_bind].
    by rewrite slice_set_ok by (rewrite ?length_slice by (bt_consts; lia); bt_consts; lia).
  - case_match; [done|]. unfold set_next, set_flags. rewrite slice_set_ok; [done|..].
    + match goal with |- 0 <= ?x + 8 => assert (x = BTREE_SPECIAL) as -> end; [|bt_consts; lia].
      unfold header, PageHeader_read_from. cbn [pd_special]. rewrite get_put_disj by lia. exact Hsp.
    + match goal with |- ?x + 8 + _ <= _ => assert (x = BTREE_SPECIAL) as -> end.
      { unfold header, PageHeader_read_from. cbn [pd_special]. rewrite get_put_disj by lia. exact Hsp. }
      rewrite length_le_bytes, length_put_le. bt_consts. lia.
Qed.

Lemma btree_page_no_panic_witness :
  let page := replicate (Z.to_nat PAGE_SIZE) 255 in
  insert_entry_at page 3 [1] = Err BtCorrupted /\ insert_entry_at page 3 [1] <> Panic.
Proof.
  intros page. split; [vm_compute; reflexivity|].
  apply (btree_page_no_panic page 3 [1] 0); [vm_compute; done|apply Forall_replicate; unfold is_byte; lia|lia].
Defined.
