(* ===== verification/BtreeNode.v ===== *)
(** * Searching and splitting B+Tree pages

    Models the page-local functions of [pg-am-btree/src/index.rs]: reading and
    comparing entries, the binary searches, the choice of the split point and the
    copy step of a split.

    The binary-search loop, which the source writes out in each function, is
    [bsearch]: its predicate says whether the probed slot lies left of the
    answer.  [Tid] and [PageId] derive [Ord], so that trailers compare as their
    fields do. *)

From S2P Require Import Prelude Types LinePointer SlottedPage Tuple BtreeKey BtreePage.
Local Open Scope Z_scope.
Local Open Scope rust_scope.

(** [?] on a heap error inside the tree: [From<HeapError> for BTreeError]. *)
Definition from_heap {A} (r : res HeapError A) : res BTreeError A := map_err BtHeap r.

(** [Ordering::then]. *)
Definition then_cmp (a b : comparison) : comparison := match a with Eq => b | _ => a end.

Definition Tid_cmp (a b : Tid) : comparison := then_cmp (page_id a ?= page_id b) (slot_id a ?= slot_id b).

Definition is_less (c : comparison) : bool := match c with Lt => true | _ => false end.

Definition entry_bytes (page : Page) (slot : Z) : res BTreeError (list Z) :=
  let? t := from_heap (tuple page slot) in
  match t with Some bytes => Ok bytes | None => Err BtCorrupted end.

Definition entry_cmp (a b : list Z) (leaf : bool) : res BTreeError comparison :=
  if leaf then
    let? da := decode_leaf_entry a in
    let? db := decode_leaf_entry b in
    Ok (then_cmp (bytes_cmp (fst da) (fst db)) (Tid_cmp (snd da) (snd db)))
  else
    let? da := decode_internal_entry a in
    let? db := decode_internal_entry b in
    Ok (then_cmp (bytes_cmp (fst da) (fst db)) (snd da ?= snd db)).

Definition entry_key (bytes : list Z) (level : Z) : res BTreeError (list Z) :=
  if level =? 0 then let? d := decode_leaf_entry bytes in Ok (fst d)
  else let? d := decode_internal_entry bytes in Ok (fst d).

Definition first_entry_key (page : Page) : res BTreeError (option (list Z)) :=
  if slot_count page =? 0 then Ok None
  else
    let? level := level page in
    let? bytes := entry_bytes page 0 in
    let? key := entry_key bytes level in
    Ok (Some key).

(** [while lo < hi]; [n] iterations are left. *)
Fixpoint bsearch (n : nat) (go_right : Z -> res BTreeError bool) (lo hi : Z) : res BTreeError Z :=
  match n with
  | O => Panic
  | S n =>
      if lo <? hi then
        let mid := (lo + hi) / 2 in
        let? right := go_right mid in
        if right then bsearch n go_right (mid + 1) hi else bsearch n go_right lo mid
      else Ok lo
  end.

Definition leaf_lower_bound (page : Page) (key : list Z) (tid : Tid) : res BTreeError Z :=
  let count := slot_count page in
  bsearch (S (Z.to_nat count)) (fun mid =>
    let? bytes := entry_bytes page (mid mod 2 ^ 16) in
    let? d := decode_leaf_entry bytes in
    Ok (is_less (then_cmp (bytes_cmp (fst d) key) (Tid_cmp (snd d) tid)))) 0 count.

Definition leaf_insert_slot (page : Page) (key : list Z) (tid : Tid) : res BTreeError Z :=
  let? pos := leaf_lower_bound page key tid in
  let count := slot_count page in
  if pos <? count then
    let? bytes := entry_bytes page (pos mod 2 ^ 16) in
    let? d := decode_leaf_entry bytes in
    if bool_decide (fst d = key) && bool_decide (snd d = tid) then Err BtDuplicateKey else Ok (pos mod 2 ^ 16)
  else Ok (pos mod 2 ^ 16).

Definition internal_lower_bound (page : Page) (key : list Z) (child : PageId) : res BTreeError Z :=
  let count := slot_count page in
  bsearch (S (Z.to_nat count)) (fun mid =>
    let? bytes := entry_bytes page (mid mod 2 ^ 16) in
    let? d := decode_internal_entry bytes in
    Ok (is_less (then_cmp (bytes_cmp (fst d) key) (snd d ?= child)))) 0 count.

(** The linear scan of [internal_page_points_at]: [n] slots remain. *)
Fixpoint points_at_loop (n : nat) (slot : Z) (page : Page) (child : PageId) : res BTreeError bool :=
  match n with
  | O => Ok false
  | S n =>
      let? bytes := entry_bytes page slot in
      let? d := decode_internal_entry bytes in
      if snd d =? child then Ok true else points_at_loop n (slot + 1) page child
  end.

Definition internal_page_points_at (page : Page) (child : PageId) : res BTreeError bool :=
  points_at_loop (Z.to_nat (slot_count page mod 2 ^ 16)) 0 page child.

Definition entry_lower_bound (page : Page) (entry : list Z) (leaf : bool) : res BTreeError Z :=
  let count := slot_count page in
  bsearch (S (Z.to_nat count)) (fun mid =>
    let? bytes := entry_bytes page (mid mod 2 ^ 16) in
    let? c := entry_cmp bytes entry leaf in
    Ok (is_less c)) 0 count.

Definition find_child (page : Page) (key : list Z) : res BTreeError PageId :=
  let count := slot_count page in
  if count =? 0 then Err BtCorrupted
  else
    let? lo := bsearch (S (Z.to_nat count)) (fun mid =>
      let? bytes := entry_bytes page (mid mod 2 ^ 16) in
      let? d := decode_internal_entry bytes in
      Ok (match bytes_cmp (fst d) key with Gt => false | _ => true end)) 0 count in
    let slot := Z.max 0 (lo - 1) mod 2 ^ 16 in
    let? bytes := entry_bytes page slot in
    let? d := decode_internal_entry bytes in
    Ok (snd d).

Definition BTREE_PAGE_CAPACITY : Z := PAGE_SIZE - PAGE_HEADER_SIZE - BTREE_SPECIAL_SIZE.

(** The entries of the slots [slot, slot + n). *)
Fixpoint collect_entries (n : nat) (slot : Z) (page : Page) : res BTreeError (list (list Z)) :=
  match n with
  | O => Ok []
  | S n =>
      let? bytes := entry_bytes page slot in
      let? rest := collect_entries n (slot + 1) page in
      Ok (bytes :: rest)
  end.

Definition zsum (l : list Z) : Z := foldr Z.add 0 l.

(** [valid] of [choose_split_slot]. *)
Definition split_valid (costs : list Z) (pending_cost p s : Z) : bool :=
  let total := zsum costs in
  let left_bytes := zsum (take (Z.to_nat s) costs) in
  let lands_left := s >=? p in
  let right_need := total - left_bytes + (if lands_left then 0 else pending_cost) in
  let left_need := left_bytes + (if lands_left then pending_cost else 0) in
  (right_need <=? BTREE_PAGE_CAPACITY) && (left_need <=? BTREE_PAGE_CAPACITY).

(** The search for the valid split point closest to the median. *)
Fixpoint split_scan (n : nat) (d mid count : Z) (valid : Z -> bool) : option Z :=
  match n with
  | O => None
  | S n =>
      let ok s := (1 <=? s) && (s <? count) && valid s in
      if ok (mid + d) then Some (mid + d)
      else if ok (Z.max 0 (mid - d)) then Some (Z.max 0 (mid - d))
      else split_scan n (d + 1) mid count valid
  end.

Definition choose_split_slot (page : Page) (level : Z) (pending : option (list Z)) : res BTreeError Z :=
  let count := slot_count page in
  if count <? 2 then Err BtCorrupted
  else
    match pending with
    | None => Ok ((count / 2) mod 2 ^ 16)
    | Some pending =>
        let leaf := level =? 0 in
        let? es := collect_entries (Z.to_nat (count mod 2 ^ 16)) 0 page in
        let costs := (fun e => zlen e + 4) <$> es in
        let pending_cost := zlen pending + 4 in
        let? p := entry_lower_bound page pending leaf in
        match split_scan (Z.to_nat (count / 2 + 2)) 0 (count / 2) count (split_valid costs pending_cost p) with
        | Some s => Ok (s mod 2 ^ 16)
        | None => Err (BtPageFull pending_cost 0)
        end
    end.

(** A fallible in-place change of a page: on failure nothing was written. *)
Definition tree_step (f : Page -> res BTreeError Page) : M Page BTreeError unit := fun page =>
  match f page with
  | Ok page => (Ok tt, page)
  | Err e => (Err e, page)
  | Panic => (Panic, page)
  end.

Definition of_result {S E A : Type} (r : res E A) : M S E A := fun s => (r, s).
Definition on_left {A : Type} (m : M Page BTreeError A) : M (Page * Page) BTreeError A := fun s =>
  let r := m (fst s) in (fst r, (snd r, snd s)).
Definition on_right {A : Type} (m : M Page BTreeError A) : M (Page * Page) BTreeError A := fun s =>
  let r := m (snd s) in (fst r, (fst s, snd r)).

(** The loops of [apply_split_copy] that append entries to a page. *)
Fixpoint add_all (es : list (list Z)) : M Page BTreeError unit :=
  match es with
  | [] => mret tt
  | e :: es => tree_step (fun page => let? r := from_heap (add_tuple page e) in Ok (snd r)) ;! add_all es
  end.

(** The state is the pair of pages the caller holds the guards of; what has been
    written when a step fails stays in them. *)
Definition apply_split_copy (copy_start_slot : Z) (move_to_right : bool) : M (Page * Page) BTreeError unit :=
  let! pages := mget in
  let left_page := fst pages in
  let count := slot_count left_page mod 2 ^ 16 in
  if (copy_start_slot =? 0) || (copy_start_slot >? count) then mthrow BtCorrupted
  else
    let! es := of_result (collect_entries (Z.to_nat count) 0 left_page) in
    let kept := take (Z.to_nat copy_start_slot) es in
    let moved := drop (Z.to_nat copy_start_slot) es in
    (if move_to_right then on_right (add_all moved) else mret tt) ;!
    let pd_lsn := page_pd_lsn left_page in
    let! prev := of_result (prev left_page) in
    let! next := of_result (next left_page) in
    let! level := of_result (level left_page) in
    let! flags := of_result (flags left_page) in
    on_left (mmodify (fun page => BtreePage_init page level flags)) ;!
    on_left (tree_step (fun page => set_prev page prev)) ;!
    on_left (tree_step (fun page => set_next page next)) ;!
    on_left (add_all kept) ;!
    on_left (mmodify (fun page => set_page_pd_lsn page pd_lsn)).

Definition page_never_had_entries (page : Page) : bool := pd_upper (header page) =? pd_special (header page).

Definition ensure_root_promotion_fits (level : Z) : res BTreeError unit :=
  if level >=? 0x0F then Err BtCorrupted else Ok tt.

(** ** The order of entries *)

(** What an entry stands for: its key and its trailer as a number. *)
Definition rank (leaf : bool) (e : list Z) : list Z * Z :=
  if leaf then match decode_leaf_entry e with Ok (k, t) => (k, page_id t * 2 ^ 16 + slot_id t) | _ => ([], 0) end
  else match decode_internal_entry e with Ok (k, c) => (k, c) | _ => ([], 0) end.

Definition rank_cmp (a b : list Z * Z) : comparison := then_cmp (bytes_cmp (fst a) (fst b)) (snd a ?= snd b).
Definition rank_lt (a b : list Z * Z) : Prop := rank_cmp a b = Lt.

Definition trailer_size (leaf : bool) : Z := if leaf then LEAF_TRAILER_SIZE else INTERNAL_TRAILER_SIZE.

Definition entry_ok (leaf : bool) (e : list Z) : Prop := wf_bytes e /\ trailer_size leaf <= zlen e.

(** A page in search order: every entry decodes, and they ascend strictly. *)
Record sorted_page (leaf : bool) (page : Page) : Prop := {
  sp_inv : bt_inv page;
  sp_ok : Forall (entry_ok leaf) (entries page);
  sp_sorted : StronglySorted (fun a b => rank_lt (rank leaf a) (rank leaf b)) (entries page);
}.

(** ** Lemmas: byte-string order *)

Lemma bytes_cmp_refl a : bytes_cmp a a = Eq.
Proof. induction a as [|x a IH]; simpl; [done|]. by rewrite Z.compare_refl. Qed.

Lemma bytes_cmp_eq a b : bytes_cmp a b = Eq <-> a = b.
Proof.
  split; [|intros ->; apply bytes_cmp_refl]. revert b. induction a as [|x a IH]; intros [|y b]; simpl; try done.
  destruct (Z.compare_spec x y) as [->|?|?]; [|done|done]. intros H. f_equal. by apply IH.
Qed.

Lemma bytes_cmp_opp a b : bytes_cmp b a = CompOpp (bytes_cmp a b).
Proof.
  revert b. induction a as [|x a IH]; intros [|y b]; simpl; try done. rewrite (Z.compare_antisym x y).
  destruct (x ?= y); simpl; [apply IH|done|done].
Qed.

Lemma bytes_cmp_trans a b c : bytes_cmp a b = Lt -> bytes_cmp b c = Lt -> bytes_cmp a c = Lt.
Proof.
  revert b c. induction a as [|x a IH]; intros [|y b] [|z c]; simpl; try done.
  destruct (Z.compare_spec x y) as [->|Hxy|?]; destruct (Z.compare_spec y z) as [->|Hyz|?]; try done; intros H1 H2.
  - by eapply IH.
  - by rewrite (proj2 (Z.compare_lt_iff _ _)).
  - by rewrite (proj2 (Z.compare_lt_iff x z)) by lia.
Qed.

Lemma rank_cmp_eq a b : rank_cmp a b = Eq <-> a = b.
Proof.
  destruct a as [k t], b as [k' t']. unfold rank_cmp, then_cmp. simpl. split.
  - destruct (bytes_cmp k k') eqn:E; try done. apply bytes_cmp_eq in E as ->. intros ->%Z.compare_eq_iff. done.
  - intros [= -> ->]. rewrite bytes_cmp_refl. apply Z.compare_refl.
Qed.

Lemma rank_cmp_opp a b : rank_cmp b a = CompOpp (rank_cmp a b).
Proof.
  unfold rank_cmp, then_cmp. rewrite (bytes_cmp_opp (fst a)), (Z.compare_antisym (snd a)). by destruct (bytes_cmp _ _).
Qed.

#[export] Instance rank_lt_trans : Transitive rank_lt.
Proof.
  intros [k1 t1] [k2 t2] [k3 t3]. unfold rank_lt, rank_cmp, then_cmp. simpl.
  destruct (bytes_cmp k1 k2) eqn:E1; [apply bytes_cmp_eq in E1 as ->| |done].
  - intros H1. destruct (bytes_cmp k2 k3) eqn:E2; [|done|done]. apply bytes_cmp_eq in E2 as ->.
    rewrite !Z.compare_lt_iff in *. lia.
  - intros _. destruct (bytes_cmp k2 k3) eqn:E2; [apply bytes_cmp_eq in E2 as ->; by rewrite E1| |done].
    intros _. by rewrite (bytes_cmp_trans _ _ _ E1 E2).
Qed.

Lemma rank_lt_irrefl a : ~ rank_lt a a.
Proof. unfold rank_lt. by rewrite (proj2 (rank_cmp_eq a a)). Qed.

Lemma rank_total a b : rank_lt a b \/ a = b \/ rank_lt b a.
Proof.
  unfold rank_lt. rewrite (rank_cmp_opp a b). destruct (rank_cmp a b) eqn:E; auto. right; left. by apply rank_cmp_eq.
Qed.

(** ** Lemmas: the comparisons of the source are comparisons of ranks *)

Lemma decode_leaf_ok e :
  entry_ok true e -> exists k t, decode_leaf_entry e = Ok (k, t) /\ in_u 64 (page_id t) /\ in_u 16 (slot_id t) /\
    rank true e = (k, page_id t * 2 ^ 16 + slot_id t).
Proof.
  unfold entry_ok, trailer_size, LEAF_TRAILER_SIZE. intros [Hw Hl]. unfold rank, decode_leaf_entry, LEAF_TRAILER_SIZE.
  rewrite (proj2 (Z.ltb_ge _ _)) by lia. do 2 eexists. split; [done|]. cbn [page_id slot_id].
  assert (Hs : zlen (slice (zlen e - 10) 10 e) = 10) by (rewrite length_slice by lia; lia).
  split; [|split; [|done]]; [apply (get_le_bound 8)|apply (get_le_bound 2)]; auto with wf; lia.
Qed.

Lemma decode_internal_ok e :
  entry_ok false e -> exists k c, decode_internal_entry e = Ok (k, c) /\ in_u 64 c /\ rank false e = (k, c).
Proof.
  unfold entry_ok, trailer_size, INTERNAL_TRAILER_SIZE. intros [Hw Hl]. unfold rank, decode_internal_entry, INTERNAL_TRAILER_SIZE.
  rewrite (proj2 (Z.ltb_ge _ _)) by lia. do 2 eexists. split; [done|]. split; [|done].
  assert (Hs : zlen (slice (zlen e - 8) 8 e) = 8) by (rewrite length_slice by lia; lia).
  pose proof (le_val_bound (slice (zlen e - 8) 8 e)) as Hb. rewrite Hs in Hb. apply Hb. auto with wf.
Qed.

Lemma Tid_cmp_rank a b :
  in_u 16 (slot_id a) -> in_u 16 (slot_id b) ->
  Tid_cmp a b = (page_id a * 2 ^ 16 + slot_id a ?= page_id b * 2 ^ 16 + slot_id b).
Proof.
  unfold in_u, Tid_cmp, then_cmp. intros Ha Hb. symmetry.
  destruct (Z.compare_spec (page_id a) (page_id b)) as [->|?|?];
    [destruct (Z.compare_spec (slot_id a) (slot_id b))|..];
    rewrite ?Z.compare_eq_iff, ?Z.compare_lt_iff, ?Z.compare_gt_iff; lia.
Qed.

Lemma entry_cmp_rank leaf a b :
  entry_ok leaf a -> entry_ok leaf b -> entry_cmp a b leaf = Ok (rank_cmp (rank leaf a) (rank leaf b)).
Proof.
  intros Ha Hb. unfold entry_cmp. destruct leaf.
  - destruct (decode_leaf_ok a Ha) as (k & t & -> & _ & Ht & ->). destruct (decode_leaf_ok b Hb) as (k' & t' & -> & _ & Ht' & ->).
    cbn [res_bind fst snd]. unfold rank_cmp. cbn [fst snd]. by rewrite Tid_cmp_rank.
  - destruct (decode_internal_ok a Ha) as (k & t & -> & _ & ->). by destruct (decode_internal_ok b Hb) as (k' & t' & -> & _ & ->).
Qed.

Lemma entry_bytes_read page slot :
  bt_inv page -> 0 <= slot ->
  entry_bytes page slot = match entries page !! Z.to_nat slot with Some e => Ok e | None => Err BtCorrupted end.
Proof. intros Hb Hs. unfold entry_bytes. rewrite entry_read by done. simpl. by destruct (_ !! _). Qed.

Lemma count_small page : bt_inv page -> zlen (entries page) < 2 ^ 15.
Proof. intros Hb. destruct (bt_count _ Hb) as (_ & _ & _ & Hl). destruct (bt_bounds _ Hb) as (_ & _ & _ & ? & ?). bt_consts. lia. Qed.

(** ** Lemmas: binary search *)

(** [p] separates the positions on which the predicate is true from the rest. *)
Definition is_bound (less : Z -> bool) (count p : Z) : Prop :=
  0 <= p <= count /\ (forall i, 0 <= i < p -> less i = true) /\ (forall i, p <= i < count -> less i = false).

Lemma bsearch_spec go less p count :
  is_bound less count p -> (forall i, 0 <= i < count -> go i = Ok (less i)) ->
  forall n lo hi, 0 <= lo <= p -> p <= hi <= count -> hi - lo < Z.of_nat n -> bsearch n go lo hi = Ok p.
Proof.
  intros (Hp & Hl & Hr) Hgo n. induction n as [|n IH]; intros lo hi H1 H2 Hn; [lia|]. simpl.
  destruct (lo <? hi) eqn:E; zbool; [|f_equal; lia].
  assert (Hm : lo <= (lo + hi) / 2 < hi) by (split; [apply Z.div_le_lower_bound|apply Z.div_lt_upper_bound]; lia).
  rewrite Hgo by lia. cbn [res_bind]. destruct (decide ((lo + hi) / 2 < p)) as [Hd|Hd].
  - rewrite Hl by lia. apply IH; lia.
  - rewrite Hr by lia. apply IH; lia.
Qed.

(** The length of the longest prefix on which [f] holds. *)
Fixpoint prefix_len {A : Type} (f : A -> bool) (l : list A) : nat :=
  match l with x :: l => if f x then S (prefix_len f l) else O | [] => O end.

Lemma prefix_len_le {A} (f : A -> bool) l : (prefix_len f l <= length l)%nat.
Proof. induction l as [|x l IH]; simpl; [lia|]. destruct (f x); lia. Qed.

Section prefix.
Context {A : Type} (R : A -> A -> Prop) (f : A -> bool).
Hypothesis Hdown : forall a b, R a b -> f b = true -> f a = true.

Lemma prefix_len_spec l i x :
  StronglySorted R l -> l !! i = Some x -> f x = if decide (i < prefix_len f l)%nat then true else false.
Proof.
  intros Hs. revert i. induction Hs as [|y l Hs IH Hf]; intros i Hi; [done|]. simpl.
  destruct i as [|i]; simpl in Hi.
  - injection Hi as ->. destruct (f x); by case_decide; try lia.
  - destruct (f y) eqn:E.
    + rewrite (IH _ Hi). repeat case_decide; done || lia.
    + rewrite decide_False by lia. destruct (f x) eqn:Ex; [|done]. rewrite Forall_lookup in Hf.
      by rewrite (Hdown y x (Hf _ _ Hi) Ex) in E.
Qed.
End prefix.

(** The binary search over the entries of a page finds that prefix. *)
Lemma bsearch_page page R (f : list Z -> bool) (go : list Z -> res BTreeError bool) :
  bt_inv page -> StronglySorted R (entries page) -> (forall a b, R a b -> f b = true -> f a = true) ->
  (forall e, e ∈ entries page -> go e = Ok (f e)) ->
  bsearch (S (Z.to_nat (slot_count page))) (fun mid => let? bytes := entry_bytes page (mid mod 2 ^ 16) in go bytes) 0 (slot_count page)
  = Ok (Z.of_nat (prefix_len f (entries page))).
Proof.
  intros Hb Hs Hd Hgo. destruct (bt_count _ Hb) as (-> & _). pose proof (count_small _ Hb). pose proof (prefix_len_le f (entries page)).
  apply (bsearch_spec _ (fun i => match entries page !! Z.to_nat i with Some e => f e | None => false end)
           _ (zlen (entries page))); try lia.
  - split; [lia|]. split; intros i Hi;
      (destruct (lookup_lt_is_Some_2 (entries page) (Z.to_nat i)) as [e He]; [lia|]);
      rewrite He, (prefix_len_spec R f Hd _ _ _ Hs He); case_decide; done || lia.
  - intros i Hi. destruct (lookup_lt_is_Some_2 (entries page) (Z.to_nat i)) as [e He]; [lia|].
    rewrite entry_bytes_read, Z.mod_small by (done || lia || (apply Z.mod_pos_bound; lia)). rewrite He. cbn [res_bind].
    apply Hgo. by eapply list_elem_of_lookup_2.
Qed.

Definition tid_rank (t : Tid) : Z := page_id t * 2 ^ 16 + slot_id t.
Definition below (leaf : bool) (r : list Z * Z) (e : list Z) : bool := is_less (rank_cmp (rank leaf e) r).

Lemma below_true leaf r e : below leaf r e = true <-> rank_lt (rank leaf e) r.
Proof. unfold below, rank_lt. by destruct (rank_cmp _ _). Qed.

Lemma below_down leaf r a b : rank_lt (rank leaf a) (rank leaf b) -> below leaf r b = true -> below leaf r a = true.
Proof. rewrite !below_true. apply rank_lt_trans. Qed.

Lemma sp_entry_ok leaf page e : sorted_page leaf page -> e ∈ entries page -> entry_ok leaf e.
Proof. intros [_ Hok _]. rewrite Forall_forall in Hok. apply Hok. Qed.

Lemma leaf_lower_bound_spec page key tid :
  sorted_page true page -> in_u 16 (slot_id tid) ->
  leaf_lower_bound page key tid = Ok (Z.of_nat (prefix_len (below true (key, tid_rank tid)) (entries page))).
Proof.
  intros Hsp Ht. unfold leaf_lower_bound.
  apply (bsearch_page page (fun a b => rank_lt (rank true a) (rank true b)) (below true (key, tid_rank tid))
    (fun bytes => let? d := decode_leaf_entry bytes in Ok (is_less (then_cmp (bytes_cmp (fst d) key) (Tid_cmp (snd d) tid))))).
  - apply Hsp.
  - apply Hsp.
  - intros a b. apply below_down.
  - intros e He. destruct (decode_leaf_ok e) as (k & t & -> & _ & Ht' & Hr); [by eapply sp_entry_ok|].
    cbn [res_bind fst snd]. unfold below. rewrite Hr, Tid_cmp_rank by done. done.
Qed.

Lemma internal_lower_bound_spec page key child :
  sorted_page false page ->
  internal_lower_bound page key child = Ok (Z.of_nat (prefix_len (below false (key, child)) (entries page))).
Proof.
  intros Hsp. unfold internal_lower_bound.
  apply (bsearch_page page (fun a b => rank_lt (rank false a) (rank false b)) (below false (key, child))
    (fun bytes => let? d := decode_internal_entry bytes in Ok (is_less (then_cmp (bytes_cmp (fst d) key) (snd d ?= child))))).
  - apply Hsp.
  - apply Hsp.
  - intros a b. apply below_down.
  - intros e He. destruct (decode_internal_ok e) as (k & t & -> & _ & Hr); [by eapply sp_entry_ok|].
    cbn [res_bind fst snd]. unfold below. by rewrite Hr.
Qed.

Lemma entry_lower_bound_spec leaf page entry :
  sorted_page leaf page -> entry_ok leaf entry ->
  entry_lower_bound page entry leaf = Ok (Z.of_nat (prefix_len (below leaf (rank leaf entry)) (entries page))).
Proof.
  intros Hsp He. unfold entry_lower_bound.
  apply (bsearch_page page (fun a b => rank_lt (rank leaf a) (rank leaf b)) (below leaf (rank leaf entry))
    (fun bytes => let? c := entry_cmp bytes entry leaf in Ok (is_less c))).
  - apply Hsp.
  - apply Hsp.
  - intros a b. apply below_down.
  - intros e Hin. rewrite entry_cmp_rank by (done || by eapply sp_entry_ok). done.
Qed.

(** ** Lemmas: sorted insertion and deletion *)

Lemma sorted_insert_at {A} (R : A -> A -> Prop) l i x :
  Transitive R -> StronglySorted R l -> (forall j y, l !! j = Some y -> (j < i)%nat -> R y x) ->
  (forall j y, l !! j = Some y -> (i <= j)%nat -> R x y) -> StronglySorted R (insert_at i x l).
Proof.
  intros Ht Hs. revert i. induction Hs as [|y l Hs IH Hf]; intros i Hlo Hhi.
  - destruct i; repeat constructor.
  - destruct i as [|i].
    + unfold insert_at. simpl. constructor; [by constructor|]. apply Forall_lookup. intros j z Hj. apply (Hhi j); [done|lia].
    + unfold insert_at. simpl. constructor.
      * apply IH; intros j z Hj ?; [apply (Hlo (S j))|apply (Hhi (S j))]; done || lia.
      * rewrite Forall_app. split; [by apply Forall_take|]. constructor; [apply (Hlo 0%nat); [done|lia]|by apply Forall_drop].
Qed.

Lemma sorted_page_intro leaf page es :
  bt_inv page -> entries page = es -> Forall (entry_ok leaf) es ->
  StronglySorted (fun a b => rank_lt (rank leaf a) (rank leaf b)) es -> sorted_page leaf page.
Proof. intros Hb <- Ho Hs. by split. Qed.

(** Inserting an absent entry at its lower bound keeps the page sorted. *)
Lemma sorted_insert leaf page entry page' :
  sorted_page leaf page -> entry_ok leaf entry ->
  (forall e, e ∈ entries page -> rank leaf e <> rank leaf entry) ->
  let p := prefix_len (below leaf (rank leaf entry)) (entries page) in
  insert_entry_at page (Z.of_nat p) entry = Ok page' ->
  sorted_page leaf page' /\ entries page' = insert_at p entry (entries page).
Proof.
  intros Hsp He Hne p Hi. pose proof (insert_entry_outcome page (Z.of_nat p) entry) as Ho. rewrite Hi in Ho.
  destruct Ho as (_ & _ & Hb & Hn); [apply Hsp|lia|apply He|]. rewrite Nat2Z.id in Hn.
  assert (Hent : entries page' = insert_at p entry (entries page)) by (by apply (f_equal n_entries) in Hn).
  split; [|done]. destruct Hsp as [Hb0 Hok Hs]. eapply sorted_page_intro; [done|done|..].
  - rewrite insert_at_perm. by constructor.
  - assert (Hx : forall j y, entries page !! j = Some y ->
      below leaf (rank leaf entry) y = if decide (j < p)%nat then true else false).
    { intros j y Hj. eapply prefix_len_spec; [|done|done]. intros a b. apply below_down. }
    apply sorted_insert_at; [intros a b c; apply rank_lt_trans|done|..]; intros j y Hj Hjp; specialize (Hx _ _ Hj).
    + rewrite decide_True in Hx by done. by apply below_true.
    + rewrite decide_False in Hx by lia. destruct (rank_total (rank leaf entry) (rank leaf y)) as [?|[?|Hlt]]; [done|..].
      * exfalso. eapply Hne; [by eapply list_elem_of_lookup_2|done].
      * apply below_true in Hlt. congruence.
Qed.

Lemma sorted_delete leaf page slot page' :
  sorted_page leaf page -> 0 <= slot -> remove_entry_at page slot = Ok page' ->
  sorted_page leaf page' /\ entries page' = delete (Z.to_nat slot) (entries page).
Proof.
  intros Hsp Hs Hr. pose proof (remove_entry_outcome page slot (sp_inv _ _ Hsp) Hs) as Ho. cbv zeta in Ho.
  case_decide; [|congruence]. destruct Ho as (p & Hp & Hb & Hn). rewrite Hr in Hp. apply Ok_inj in Hp as <-.
  assert (Hent : entries page' = delete (Z.to_nat slot) (entries page)) by (by apply (f_equal n_entries) in Hn).
  split; [|done]. eapply sorted_page_intro; [done|done|..].
  - apply Forall_delete. apply Hsp.
  - eapply StronglySorted_sublist; [apply sublist_delete|]. apply Hsp.
Qed.

Lemma rank_encode_leaf key tid :
  in_u 64 (page_id tid) -> in_u 16 (slot_id tid) -> rank true (encode_leaf_entry key tid) = (key, tid_rank tid).
Proof. intros Hp Hs. unfold rank. by rewrite leaf_roundtrip. Qed.

Lemma rank_encode_internal key child : in_u 64 child -> rank false (encode_internal_entry key child) = (key, child).
Proof. intros Hc. unfold rank. by rewrite internal_roundtrip. Qed.

Lemma entry_ok_leaf key tid : wf_bytes key -> entry_ok true (encode_leaf_entry key tid).
Proof.
  intros Hk. unfold entry_ok, encode_leaf_entry, trailer_size, LEAF_TRAILER_SIZE. rewrite !length_app, !length_le_bytes.
  split; [|lia]. apply Forall_app. split; [done|]. apply Forall_app. auto with wf.
Qed.

Lemma entry_ok_internal key child : wf_bytes key -> entry_ok false (encode_internal_entry key child).
Proof.
  intros Hk. unfold entry_ok, encode_internal_entry, trailer_size, INTERNAL_TRAILER_SIZE. rewrite !length_app, !length_le_bytes.
  split; [|lia]. apply Forall_app. auto with wf.
Qed.

Lemma tid_rank_inj a b :
  in_u 16 (slot_id a) -> in_u 16 (slot_id b) -> tid_rank a = tid_rank b -> a = b.
Proof. destruct a, b. unfold tid_rank, in_u. simpl. intros. assert (page_id = page_id0) by lia. subst. f_equal. lia. Qed.

(** Equal ranks mean equal entries. *)
Lemma rank_inj leaf a b : entry_ok leaf a -> entry_ok leaf b -> rank leaf a = rank leaf b -> a = b.
Proof.
  destruct leaf; intros Ha Hb.
  - destruct (decode_leaf_ok a Ha) as (k & t & Ea & _ & Ht & Ra). destruct (decode_leaf_ok b Hb) as (k' & t' & Eb & _ & Ht' & Rb).
    rewrite Ra, Rb. intros [= -> Hr]. pose proof (leaf_canonical a (proj1 Ha)) as Ca. pose proof (leaf_canonical b (proj1 Hb)) as Cb.
    rewrite Ea in Ca. rewrite Eb in Cb. rewrite Ca, Cb. f_equal. by apply tid_rank_inj.
  - destruct (decode_internal_ok a Ha) as (k & t & Ea & _ & Ra). destruct (decode_internal_ok b Hb) as (k' & t' & Eb & _ & Rb).
    rewrite Ra, Rb. intros [= -> ->]. pose proof (internal_canonical a (proj1 Ha)) as Ca. pose proof (internal_canonical b (proj1 Hb)) as Cb.
    rewrite Ea in Ca. rewrite Eb in Cb. by rewrite Ca, Cb.
Qed.

Lemma StronglySorted_nth {A} (R : A -> A -> Prop) l i j x y :
  StronglySorted R l -> l !! i = Some x -> l !! j = Some y -> (i < j)%nat -> R x y.
Proof.
  intros Hs. revert i j. induction Hs as [|z l Hs IH Hf]; intros i j Hi Hj Hij; [done|].
  destruct j as [|j]; [lia|]. destruct i as [|i]; simpl in *; [|by apply (IH i j); [..|lia]].
  injection Hi as ->. rewrite Forall_lookup in Hf. by eapply Hf.
Qed.

(** An entry of the probe's rank sits at the lower bound. *)
Lemma found_at_bound leaf page r j e :
  sorted_page leaf page -> entries page !! j = Some e -> rank leaf e = r -> j = prefix_len (below leaf r) (entries page).
Proof.
  intros [Hb Hok Hs] Hj Hr. set (p := prefix_len (below leaf r) (entries page)).
  assert (Hx : forall k y, entries page !! k = Some y -> below leaf r y = if decide (k < p)%nat then true else false).
  { intros k y Hk. eapply prefix_len_spec; [|done|done]. intros a b. apply below_down. }
  assert (Hjp : (p <= j)%nat).
  { specialize (Hx _ _ Hj). case_decide; [|lia]. apply below_true in Hx. rewrite Hr in Hx. by apply rank_lt_irrefl in Hx. }
  destruct (decide (p < j)%nat) as [Hlt|]; [|lia]. exfalso.
  destruct (lookup_lt_is_Some_2 (entries page) p) as [y Hy]; [apply lookup_lt_Some in Hj; lia|].
  specialize (Hx _ _ Hy). rewrite decide_False in Hx by lia.
  assert (Hyr : below leaf r y = true); [|congruence]. apply below_true. rewrite <-Hr.
  by apply (StronglySorted_nth _ _ p j _ _ Hs).
Qed.

Lemma leaf_insert_slot_spec page key tid :
  sorted_page true page -> in_u 64 (page_id tid) -> in_u 16 (slot_id tid) ->
  let p := prefix_len (below true (key, tid_rank tid)) (entries page) in
  match leaf_insert_slot page key tid with
  | Ok slot => slot = Z.of_nat p /\ (forall e, e ∈ entries page -> rank true e <> (key, tid_rank tid))
  | Err e => e = BtDuplicateKey /\ encode_leaf_entry key tid ∈ entries page
  | Panic => False
  end.
Proof.
  intros Hsp Hp Ht p. unfold leaf_insert_slot. rewrite leaf_lower_bound_spec by done. fold p. cbn [res_bind].
  pose proof (sp_inv _ _ Hsp) as Hb. destruct (bt_count _ Hb) as (-> & _). pose proof (count_small _ Hb) as Hsm.
  pose proof (prefix_len_le (below true (key, tid_rank tid)) (entries page)) as Hle. fold p in Hle.
  rewrite Z.mod_small by lia. destruct (Z.of_nat p <? zlen (entries page)) eqn:E; zbool.
  - destruct (lookup_lt_is_Some_2 (entries page) p) as [e He]; [lia|].
    rewrite entry_bytes_read by (done || lia). rewrite Nat2Z.id, He. cbn [res_bind].
    pose proof (list_elem_of_lookup_2 _ _ _ He) as Hin. pose proof (sp_entry_ok _ _ _ Hsp Hin) as Hok.
    destruct (decode_leaf_ok e Hok) as (k & t & Ed & _ & Ht' & Hr). rewrite Ed. cbn [res_bind fst snd].
    case_bool_decide as E1; [case_bool_decide as E2|]; cbn [andb].
    + subst k t. split; [done|]. pose proof (leaf_canonical e (proj1 Hok)) as Hc. rewrite Ed in Hc. by rewrite <-Hc.
    + split; [done|]. intros e' [j Hj]%list_elem_of_lookup_1 Hr'. assert (j = p) as -> by (by eapply found_at_bound).
      assert (e' = e) as -> by congruence. rewrite Hr in Hr'. injection Hr' as _ Hr'. apply E2. by apply tid_rank_inj.
    + split; [done|]. intros e' [j Hj]%list_elem_of_lookup_1 Hr'. assert (j = p) as -> by (by eapply found_at_bound).
      assert (e' = e) as -> by congruence. rewrite Hr in Hr'. by injection Hr'.
  - split; [done|]. intros e' [j Hj]%list_elem_of_lookup_1 Hr'. assert (j = p) as -> by (by eapply found_at_bound).
    apply lookup_lt_Some in Hj. lia.
Qed.

(** Descent: the last separator not above the probe. *)
Definition sep_le (key : list Z) (e : list Z) : bool :=
  match bytes_cmp (fst (rank false e)) key with Gt => false | _ => true end.

Lemma sep_le_down key a b : rank_lt (rank false a) (rank false b) -> sep_le key b = true -> sep_le key a = true.
Proof.
  unfold rank_lt, rank_cmp, sep_le, then_cmp. set (ka := fst (rank false a)). set (kb := fst (rank false b)).
  destruct (bytes_cmp ka kb) eqn:E; try done.
  - apply bytes_cmp_eq in E as ->. done.
  - intros _. destruct (bytes_cmp kb key) eqn:E2; try done; intros _.
    + apply bytes_cmp_eq in E2 as <-. by rewrite E.
    + by rewrite (bytes_cmp_trans _ _ _ E E2).
Qed.

Lemma find_child_spec page key :
  sorted_page false page ->
  match entries page with
  | [] => find_child page key = Err BtCorrupted
  | _ => exists i e, entries page !! i = Some e /\ find_child page key = Ok (snd (rank false e)) /\
           (i = 0%nat \/ sep_le key e = true) /\
           (forall j e', entries page !! j = Some e' -> (i < j)%nat -> sep_le key e' = false)
  end.
Proof.
  intros Hsp. pose proof (sp_inv _ _ Hsp) as Hb. destruct (bt_count _ Hb) as (Hc & _). pose proof (count_small _ Hb) as Hsm.
  destruct (entries page) as [|e0 es] eqn:Ee; [unfold find_child; by rewrite Hc|]. rewrite <-Ee in *.
  assert (Hpos : 0 < zlen (entries page)) by (rewrite Ee; simpl; lia).
  assert (Hnz : (slot_count page =? 0) = false) by (apply Z.eqb_neq; lia).
  unfold find_child. cbv zeta. rewrite Hnz.
  pose proof (bsearch_page page (fun a b => rank_lt (rank false a) (rank false b)) (sep_le key)
    (fun bytes => let? d := decode_internal_entry bytes in Ok (match bytes_cmp (fst d) key with Gt => false | _ => true end))) as Hs.
  rewrite Hs; [|done|apply Hsp|intros a b; apply sep_le_down|].
  2:{ intros e He. destruct (decode_internal_ok e) as (k & c & -> & _ & Hr); [by eapply sp_entry_ok|].
      cbn [res_bind fst]. unfold sep_le. by rewrite Hr. }
  cbn [res_bind]. set (p := prefix_len (sep_le key) (entries page)). pose proof (prefix_len_le (sep_le key) (entries page)) as Hle.
  fold p in Hle. assert (Hx : forall j y, entries page !! j = Some y -> sep_le key y = if decide (j < p)%nat then true else false).
  { intros j y Hj. eapply prefix_len_spec; [|apply Hsp|done]. intros a b. apply sep_le_down. }
  destruct (lookup_lt_is_Some_2 (entries page) (p - 1)) as [e He]; [lia|]. exists (p - 1)%nat, e. split; [done|].
  rewrite Z.mod_small by lia. rewrite entry_bytes_read by (done || lia).
  replace (Z.to_nat (Z.max 0 (Z.of_nat p - 1))) with (p - 1)%nat by lia. rewrite He. cbn [res_bind].
  destruct (decode_internal_ok e) as (k & c & -> & _ & Hr); [eapply sp_entry_ok; [done|by eapply list_elem_of_lookup_2]|].
  cbn [res_bind snd]. rewrite Hr. split; [done|]. split.
  - destruct (decide (p = 0%nat)) as [->|]; [by left|right]. rewrite (Hx _ _ He). by rewrite decide_True by lia.
  - intros j e' Hj Hij. rewrite (Hx _ _ Hj). by rewrite decide_False by lia.
Qed.

(** ** Lemmas: appending *)

(** On a page without free line pointers [add_tuple] is an insertion at the end. *)
Lemma add_tuple_appends page e :
  bt_inv page -> wf_bytes e -> 0 < zlen e -> zlen e + LINE_POINTER_SIZE <= n_free (node_of page) ->
  exists page', add_tuple page e = Ok (zlen (entries page), page') /\ bt_inv page' /\
    node_of page' = with_entries (n_upper (node_of page) - zlen e) (entries page ++ [e]) (node_of page).
Proof.
  intros Hb Hw Hpos Hfit.
  destruct (insert_entry_effect page (length (entries page)) e) as (p' & Hi & Hb' & Hn); try done.
  exists p'. split; [|split; [done|]].
  2:{ rewrite Hn. unfold insert_at. by rewrite firstn_all, skipn_all. }
  pose proof (insert_entry_runs page (length (entries page)) e Hb ltac:(lia) Hpos Hfit) as Hr.
  rewrite Hr in Hi. apply Ok_inj in Hi as <-.
  destruct (insert_bounds page (length (entries page)) e Hb ltac:(lia) Hpos Hfit) as (Hl & Hlow & Hroom & Hup & Hls & Hm & _).
  destruct (bt_count _ Hb) as (Hc & Hln & Hct & _). pose proof (count_small _ Hb) as Hsm.
  unfold add_tuple. rewrite checked_header_geometry by apply Hb. cbn [res_bind].
  rewrite (bt_special _ Hb), (proj2 (Z.eqb_neq _ _)), Z.gtb_ltb, (proj2 (Z.ltb_ge _ (zlen e))) by (bt_consts; lia).
  rewrite Hct. rewrite <-Hc, find_unused_lps by apply Hb. rewrite Hc.
  assert (Hnf : list_find (fun lp => LP_flags lp = Unused) (lps page) = None).
  { apply list_find_None. eapply Forall_impl; [by apply bt_lps_normal|]. by intros lp ->. }
  rewrite Hnf. cbn [fmap option_fmap option_map res_bind].
  rewrite (proj2 (Z.ltb_ge _ _)) by (bt_consts; lia).
  rewrite slice_set_ok by lia. cbn [res_bind]. unfold set_line_pointer, LP_to_le_bytes.
  rewrite (Z.mod_small (zlen (entries page))) by lia.
  rewrite slice_set_ok by (rewrite ?length_splice, ?length_le_bytes; bt_consts; lia). cbn [res_bind fst snd].
  rewrite !header_frame by (bt_consts; lia).
  rewrite !(Z.mod_small (pd_upper _ - _)), !(Z.mod_small (zlen e)), (Z.mod_small (_ + LINE_POINTER_SIZE)) by (bt_consts; lia).
  rewrite Nat.sub_diag, (slice_nil _ (Z.of_nat 0 * _)) by (bt_consts; lia).
  assert (Hnil : forall off (l : Page), splice off [] l = l).
  { intros off l. apply list_eq. intros i. rewrite lookup_splice. case_decide; [simpl in *; lia|done]. }
  rewrite Hnil. done.
Qed.

Definition cost (e : list Z) : Z := zlen e + 4.

Lemma add_all_appends es : forall page,
  bt_inv page -> Forall (fun e => wf_bytes e /\ 0 < zlen e) es -> zsum (cost <$> es) <= n_free (node_of page) ->
  exists page', add_all es page = (Ok tt, page') /\ bt_inv page' /\
    node_of page' = with_entries (n_upper (node_of page) - zsum ((fun e => zlen e) <$> es)) (entries page ++ es) (node_of page).
Proof.
  induction es as [|e es IH]; intros page Hb Hf Hs.
  { exists page. split; [done|]. split; [done|]. rewrite app_nil_r. simpl. rewrite Z.sub_0_r. done. }
  apply Forall_cons in Hf as [[Hw Hp] Hf]. cbn [fmap list_fmap] in Hs.
  change (zsum (cost e :: ?l)) with (cost e + zsum l) in Hs.
  assert (Hnn : forall l, 0 <= zsum (cost <$> l)).
  { induction l as [|x l IHl]; [done|]. change (zsum (cost <$> x :: l)) with (cost x + zsum (cost <$> l)). unfold cost at 1. lia. }
  destruct (add_tuple_appends page e Hb Hw Hp) as (p1 & Ha & Hb1 & Hn1); [pose proof (Hnn es); unfold cost, LINE_POINTER_SIZE in *; lia|].
  assert (He1 : entries p1 = entries page ++ [e]) by (by apply (f_equal n_entries) in Hn1).
  destruct (IH p1 Hb1 Hf) as (p2 & Hadd & Hb2 & Hn2).
  { rewrite Hn1. assert (Hc : cost e = zlen e + 4) by done. rewrite Hc in Hs. unfold n_free in *.
    cbn [n_upper n_entries with_entries]. rewrite length_app. cbn [length].
    change (n_entries (node_of page)) with (entries page) in Hs. unfold LINE_POINTER_SIZE in *. lia. }
  exists p2. split.
  - simpl. unfold mbindM, tree_step. unfold from_heap, map_err. rewrite Ha. simpl. done.
  - split; [done|]. rewrite Hn2, Hn1, He1, <-app_assoc. cbn [app fmap list_fmap n_upper with_entries].
    change (zsum (?x :: ?l)) with (x + zsum l). unfold with_entries. simpl. f_equal. lia.
Qed.

Lemma collect_entries_spec page : forall n slot,
  bt_inv page -> 0 <= slot -> slot + Z.of_nat n <= zlen (entries page) ->
  collect_entries n slot page = Ok (take n (drop (Z.to_nat slot) (entries page))).
Proof.
  induction n as [|n IH]; intros slot Hb Hs Hn; [done|]. simpl. rewrite entry_bytes_read by done.
  destruct (lookup_lt_is_Some_2 (entries page) (Z.to_nat slot)) as [e He]; [lia|]. rewrite He. cbn [res_bind].
  rewrite IH by (done || lia). cbn [res_bind]. rewrite (drop_S _ e (Z.to_nat slot)) by done.
  replace (Z.to_nat (slot + 1)) with (S (Z.to_nat slot)) by lia. done.
Qed.

Lemma collect_all page : bt_inv page -> collect_entries (Z.to_nat (slot_count page mod 2 ^ 16)) 0 page = Ok (entries page).
Proof.
  intros Hb. destruct (bt_count _ Hb) as (-> & _). pose proof (count_small _ Hb). rewrite Z.mod_small by lia.
  rewrite collect_entries_spec by (done || lia). rewrite Nat2Z.id. by rewrite firstn_all.
Qed.

(** ** Lemmas: the bytes of a page bound its entries *)

Lemma zsum_app a b : zsum (a ++ b) = zsum a + zsum b.
Proof. induction a as [|x a IH]; simpl; lia. Qed.

#[export] Instance zsum_perm : Proper (Permutation ==> eq) zsum.
Proof. intros a b H. induction H; simpl; lia. Qed.

Lemma zsum_take_drop {A} (f : A -> Z) n l : zsum (f <$> l) = zsum (f <$> take n l) + zsum (f <$> drop n l).
Proof. rewrite <-zsum_app, <-fmap_app. by rewrite take_drop. Qed.

Lemma zsum_cost_nonneg es : 0 <= zsum (cost <$> es).
Proof.
  induction es as [|x l IH]; [done|]. change (zsum (cost <$> x :: l)) with (cost x + zsum (cost <$> l)). unfold cost at 1. lia.
Qed.

Lemma zsum_cost_lens es : zsum (cost <$> es) = zsum ((fun e => zlen e) <$> es) + 4 * zlen es.
Proof.
  induction es as [|x l IH]; [done|]. change (zsum (cost <$> x :: l)) with (zlen x + 4 + zsum (cost <$> l)).
  change (zsum ((fun e => zlen e) <$> x :: l)) with (zlen x + zsum ((fun e => zlen e) <$> l)). rewrite IH. simpl length. lia.
Qed.

Lemma regions_sum u s (rs : list (Z * Z)) :
  StronglySorted before rs -> u <= s -> Forall (fun r => u <= fst r /\ fst r <= snd r /\ snd r <= s) rs ->
  zsum ((fun r => snd r - fst r) <$> rs) <= s - u.
Proof.
  intros Hs. revert u. induction Hs as [|[a b] rs Hs IH Hb]; intros u Hu Hf.
  { simpl. lia. }
  apply Forall_cons in Hf as [(H1 & H2 & H3) Hf]. simpl in H1, H2, H3.
  change (zsum _) with (b - a + zsum ((fun r => snd r - fst r) <$> rs)).
  assert (zsum ((fun r => snd r - fst r) <$> rs) <= s - b); [|lia]. apply IH; [lia|].
  rewrite Forall_forall in *. intros r Hr. specialize (Hf r Hr). specialize (Hb r Hr). unfold before in Hb. simpl in Hb. lia.
Qed.

Lemma page_capacity page : bt_inv page -> zsum (cost <$> entries page) <= BTREE_PAGE_CAPACITY.
Proof.
  intros Hb. destruct (bt_bounds _ Hb) as (Hl & _ & Hs & Hlo & Hup). destruct (bt_count _ Hb) as (Hc & Hln & _ & Hlow).
  rewrite zsum_cost_lens. assert (Hsum : zsum ((fun e => zlen e) <$> entries page) <= pd_special (header page) - pd_upper (header page)).
  { pose proof (bt_lps_normal _ Hb) as Hn. pose proof (lps_range _ (inv_geo _ (bt_page _ Hb))) as Hr32.
    assert (Hr : (fun e => zlen e) <$> entries page = (fun r => snd r - fst r) <$> omap region (lps page)).
    { rewrite bt_entries by done. rewrite <-list_fmap_compose.
      assert (Hin : forall lp, lp ∈ lps page -> pd_upper (header page) <= LP_off lp /\ LP_off lp + LP_len lp <= BTREE_SPECIAL /\ 0 <= LP_len lp).
      { intros lp Hlp. destruct (lp_in_bounds page lp) as (_ & ? & ? & ?); [apply Hb|done| |rewrite <-Hs; done].
        rewrite Forall_forall in Hn. by rewrite Hn. }
      revert Hn Hin. generalize (lps page). induction l as [|lp l IHl]; intros Hn Hin; [done|].
      apply Forall_cons in Hn as [Hlp Hn]. rewrite fmap_cons.
      rewrite (omap_cons_Some region lp (LP_off lp, LP_off lp + LP_len lp)) by (unfold region; by rewrite Hlp).
      rewrite fmap_cons. cbn [fst snd]. rewrite IHl; [|done|intros; apply Hin; by constructor]. f_equal.
      destruct (Hin lp) as (? & ? & ?); [by constructor|]. unfold compose, lp_entry. rewrite length_slice; bt_consts; lia. }
    rewrite Hr. destruct (inv_disj _ (bt_page _ Hb)) as (rs & Hp & Hst). rewrite <-Hp.
    pose proof (inv_live _ (bt_page _ Hb)) as Hlv. pose proof (region_ordered _ (inv_geo _ (bt_page _ Hb))) as Hro.
    apply regions_sum; [done|rewrite Hs; lia|]. rewrite Hp. rewrite Forall_forall in *. intros r Hin. specialize (Hlv r Hin). specialize (Hro r Hin).
    cbv beta in Hlv, Hro. lia. }
  unfold BTREE_PAGE_CAPACITY. rewrite Hs in Hsum. bt_consts. lia.
Qed.

(** ** Lemmas: the copy step *)

(** The rebuilt left page: same identity fields, the kept entries packed. *)
Definition rebuilt (n : Node) (kept : list (list Z)) : Node :=
  with_entries (BTREE_SPECIAL - zsum ((fun e => zlen e) <$> kept)) kept n.

Lemma mbindM_run {S E A B} (m : M S E A) (k : A -> M S E B) a s s' : m s = (Ok a, s') -> mbindM m k s = k a s'.
Proof. intros H. unfold mbindM. by rewrite H. Qed.

Lemma on_left_ok {A} (m : M Page BTreeError A) a l l' r : m l = (Ok a, l') -> on_left m (l, r) = (Ok a, (l', r)).
Proof. intros H. unfold on_left. cbn [fst snd]. by rewrite H. Qed.
Lemma on_right_ok {A} (m : M Page BTreeError A) a l r r' : m r = (Ok a, r') -> on_right m (l, r) = (Ok a, (l, r')).
Proof. intros H. unfold on_right. cbn [fst snd]. by rewrite H. Qed.
Lemma tree_step_ok f page page' : f page = Ok page' -> tree_step f page = (Ok tt, page').
Proof. intros H. unfold tree_step. by rewrite H. Qed.

Lemma node_range page : bt_inv page -> in_u 64 (n_lsn (node_of page)) /\ in_u 64 (n_prev (node_of page)) /\ in_u 64 (n_next (node_of page)).
Proof.
  intros Hb. destruct (bt_bounds _ Hb) as (Hl & Hw & _). unfold node_of, page_pd_lsn. cbn [n_lsn n_prev n_next].
  repeat split; apply (get_le_bound 8); bt_consts; (done || lia).
Qed.

(** The identity fields written back on the freshly initialised page. *)
Lemma rebuild_header page n :
  zlen page = PAGE_SIZE -> 0 <= n_level n < 16 -> 0 <= n_flags n < 16 -> in_u 64 (n_prev n) -> in_u 64 (n_next n) ->
  exists p1 p2, set_prev (BtreePage_init page (n_level n) (n_flags n)) (n_prev n) = Ok p1 /\ set_next p1 (n_next n) = Ok p2 /\
    bt_inv p2 /\ node_of p2 = mkNode Lsn_INVALID (n_prev n) (n_next n) (n_level n) (n_flags n) BTREE_SPECIAL [].
Proof.
  intros Hl Hlv Hf Hp Hn. destruct (init_effect page _ _ Hl Hlv Hf) as [H0 N0].
  destruct (set_prev_effect _ _ H0 Hp) as (p1 & E1 & H1 & N1). destruct (set_next_effect _ _ H1 Hn) as (p2 & E2 & H2 & N2).
  exists p1, p2. split; [done|]. split; [done|]. split; [done|]. by rewrite N2, N1, N0.
Qed.

Definition live_entry (e : list Z) : Prop := wf_bytes e /\ 0 < zlen e.

Lemma entry_ok_live leaf e : entry_ok leaf e -> live_entry e.
Proof. intros [Hw Hl]. split; [done|]. destruct leaf; unfold trailer_size, LEAF_TRAILER_SIZE, INTERNAL_TRAILER_SIZE in Hl; lia. Qed.

(** The rebuilt page as a function of the node: none of the old bytes survive. *)
Definition rebuilt_page (n : Node) (es : list (list Z)) : Page :=
  match (let? p := set_prev (BtreePage_init (zeros PAGE_SIZE) (n_level n) (n_flags n)) (n_prev n) in set_next p (n_next n)) with
  | Ok p => set_page_pd_lsn (snd (add_all es p)) (n_lsn n)
  | _ => []
  end.

Lemma BtreePage_init_zeros page l f : zlen page = PAGE_SIZE -> BtreePage_init page l f = BtreePage_init (zeros PAGE_SIZE) l f.
Proof. intros Hl. unfold BtreePage_init, init_with_special. by rewrite Hl, length_zeros. Qed.

(** The copy step rebuilds the left page whatever happens to the right one. *)
Lemma apply_split_copy_left l (k : nat) :
  bt_inv l -> Forall live_entry (entries l) -> (0 < k <= length (entries l))%nat ->
  let l' := rebuilt_page (node_of l) (take k (entries l)) in
  bt_inv l' /\ node_of l' = rebuilt (node_of l) (take k (entries l)) /\
  forall (mv : bool) r r', (if mv then add_all (drop k (entries l)) r = (Ok tt, r') else r' = r) ->
    apply_split_copy (Z.of_nat k) mv (l, r) = (Ok tt, (l', r')).
Proof.
  intros Hb Hlive Hk l'. destruct (bt_bounds _ Hb) as (Hlen & _). destruct (bt_count _ Hb) as (Hc & _).
  pose proof (count_small _ Hb) as Hsm. destruct (node_range _ Hb) as (Rl & Rp & Rn).
  destruct (flags_read _ Hb) as [Ef Rf]. pose proof (level_range l) as Rlv.
  destruct (rebuild_header l (node_of l) Hlen Rlv Rf Rp Rn) as (p1 & p2 & E1 & E2 & H2 & N2).
  destruct (add_all_appends (take k (entries l)) p2 H2) as (p3 & E3 & H3 & N3).
  { by apply Forall_take. }
  { rewrite N2. unfold n_free. cbn [n_upper n_entries]. pose proof (page_capacity _ Hb) as Hcap.
    rewrite (zsum_take_drop cost k) in Hcap. pose proof (zsum_cost_nonneg (drop k (entries l))).
    unfold BTREE_PAGE_CAPACITY in Hcap. bt_consts. cbn [length]. lia. }
  destruct (node_set_lsn p3 (n_lsn (node_of l)) H3 Rl) as [H4 N4].
  assert (Hl' : l' = set_page_pd_lsn p3 (n_lsn (node_of l))).
  { unfold l', rebuilt_page. rewrite <-(BtreePage_init_zeros l) by done. rewrite E1. cbn [res_bind]. rewrite E2, E3. done. }
  rewrite Hl'. split; [done|]. split.
  - rewrite N4, N3, N2. assert (He2 : entries p2 = []) by (by apply (f_equal n_entries) in N2).
    unfold rebuilt, with_lsn, with_entries. cbn [n_lsn n_prev n_next n_level n_flags n_upper n_entries]. by rewrite He2.
  - intros mv r r' Hr. unfold apply_split_copy. rewrite (mbindM_run mget _ (l, r) (l, r) (l, r)) by done. cbv zeta. cbn [fst].
    pose proof (collect_all _ Hb) as Hall. rewrite Hc, Z.mod_small in * by lia.
    rewrite (proj2 (Z.eqb_neq _ _)), Z.gtb_ltb, (proj2 (Z.ltb_ge _ _)) by lia. cbn [orb].
    rewrite Hall, Nat2Z.id. rewrite (mbindM_run _ _ (entries l) _ (l, r)) by done.
    rewrite (mbindM_run _ _ tt _ (l, r')) by (destruct mv; [by apply on_right_ok|by rewrite Hr]).
    rewrite prev_read, next_read, level_read by done. rewrite Ef.
    do 4 (rewrite (mbindM_run (of_result (Ok ?[x])) _ ?x (l, r') (l, r')) by done).
    rewrite (mbindM_run _ _ tt _ (BtreePage_init l (n_level (node_of l)) (n_flags (node_of l)), r')) by done.
    rewrite (mbindM_run _ _ tt _ (p1, r')) by (by apply on_left_ok, tree_step_ok).
    rewrite (mbindM_run _ _ tt _ (p2, r')) by (by apply on_left_ok, tree_step_ok).
    rewrite (mbindM_run _ _ tt _ (p3, r')) by (by apply on_left_ok). done.
Qed.

Lemma apply_split_copy_spec l r (k : nat) (mv : bool) :
  bt_inv l -> bt_inv r -> Forall live_entry (entries l) -> (0 < k <= length (entries l))%nat ->
  (mv = true -> zsum (cost <$> drop k (entries l)) <= n_free (node_of r)) ->
  exists l' r', apply_split_copy (Z.of_nat k) mv (l, r) = (Ok tt, (l', r')) /\
    bt_inv l' /\ node_of l' = rebuilt (node_of l) (take k (entries l)) /\
    bt_inv r' /\
    (if mv then node_of r' = with_entries (n_upper (node_of r) - zsum ((fun e => zlen e) <$> drop k (entries l)))
                              (entries r ++ drop k (entries l)) (node_of r)
     else r' = r).
Proof.
  intros Hb Hr Hlive Hk Hfit. destruct (apply_split_copy_left l k Hb Hlive Hk) as (Hl & Nl & Hrun).
  exists (rebuilt_page (node_of l) (take k (entries l))). destruct mv.
  - destruct (add_all_appends (drop k (entries l)) r Hr) as (r' & Er & Hr' & Nr); [by apply Forall_drop|auto|].
    exists r'. split; [by apply Hrun|]. split; [exact Hl|]. split; [exact Nl|]. split; [exact Hr'|exact Nr].
  - exists r. split; [by apply Hrun|]. split; [exact Hl|]. split; [exact Nl|]. split; [exact Hr|reflexivity].
Qed.

(** ** Lemmas: the split point *)

Lemma split_scan_spec (valid : Z -> bool) mid count : forall n d,
  0 <= d -> (exists s, 1 <= s < count /\ valid s = true /\ d <= Z.abs (s - mid) < d + Z.of_nat n) ->
  exists s, split_scan n d mid count valid = Some s /\ 1 <= s < count /\ valid s = true.
Proof.
  induction n as [|n IH]; intros d Hd (s & Hs & Hv & Ha); [lia|]. simpl.
  destruct ((1 <=? mid + d) && (mid + d <? count) && valid (mid + d)) eqn:E1.
  { apply andb_prop in E1 as [E1 Hv1]. zbool. exists (mid + d). split; [done|]. split; [lia|done]. }
  destruct ((1 <=? Z.max 0 (mid - d)) && (Z.max 0 (mid - d) <? count) && valid (Z.max 0 (mid - d))) eqn:E2.
  { apply andb_prop in E2 as [E2 Hv2]. zbool. exists (Z.max 0 (mid - d)). split; [done|]. split; [lia|done]. }
  apply IH; [lia|]. exists s. split; [done|]. split; [done|].
  assert (Z.abs (s - mid) <> d); [|lia]. intros He.
  destruct (decide (s = mid + d)) as [->|Hne].
  - rewrite Hv, (proj2 (Z.leb_le _ _)), (proj2 (Z.ltb_lt _ _)) in E1 by lia. done.
  - assert (s = Z.max 0 (mid - d)) as Heq by lia. rewrite <-Heq in E2.
    rewrite Hv, (proj2 (Z.leb_le _ _)), (proj2 (Z.ltb_lt _ _)) in E2 by lia. done.
Qed.

(** The largest cost of an entry whose key obeys the key limit. *)
Definition MAX_COST : Z := MAX_INDEX_KEY_BYTES + LEAF_TRAILER_SIZE + LINE_POINTER_SIZE.

Lemma zsum_cost_take es s e :
  es !! s = Some e -> zsum (cost <$> take (S s) es) = zsum (cost <$> take s es) + cost e.
Proof. intros He. rewrite (take_S_r _ _ e He), fmap_app, zsum_app. simpl. lia. Qed.

Lemma zsum_cost_take_le es s : zsum (cost <$> take s es) <= zsum (cost <$> es).
Proof. rewrite (zsum_take_drop cost s es). pose proof (zsum_cost_nonneg (drop s es)). lia. Qed.

Lemma split_valid_iff es q p s :
  let L := zsum (cost <$> take (Z.to_nat s) es) in let T := zsum (cost <$> es) in
  split_valid (cost <$> es) q p s = true <->
  (p <= s /\ L + q <= BTREE_PAGE_CAPACITY /\ T - L <= BTREE_PAGE_CAPACITY) \/
  (s < p /\ L <= BTREE_PAGE_CAPACITY /\ T - L + q <= BTREE_PAGE_CAPACITY).
Proof.
  intros L T. unfold split_valid. rewrite <-fmap_take. fold L T. rewrite Z.geb_leb.
  destruct (p <=? s) eqn:E; zbool; rewrite andb_true_iff, !Z.leb_le; lia.
Qed.

(** Entries limited to a third of a page always leave a split point at which the
    pending entry fits into its half. *)
Lemma split_point_exists es q p :
  (2 <= length es)%nat -> Forall (fun e => cost e <= MAX_COST) es -> 0 <= q <= MAX_COST -> 0 <= p <= zlen es ->
  zsum (cost <$> es) <= BTREE_PAGE_CAPACITY ->
  exists s, 1 <= s < zlen es /\ split_valid (cost <$> es) q p s = true.
Proof.
  intros Hlen Hf Hq Hp Hcap. assert (H3 : 3 * MAX_COST <= BTREE_PAGE_CAPACITY) by (vm_compute; done).
  assert (Hc : forall i e, es !! i = Some e -> 0 <= cost e <= MAX_COST).
  { intros i e He. rewrite Forall_lookup in Hf. specialize (Hf _ _ He). unfold cost in *. lia. }
  assert (Hle : forall s, zsum (cost <$> take s es) <= BTREE_PAGE_CAPACITY).
  { intros s. pose proof (zsum_cost_take_le es s). lia. }
  assert (Hnn : forall s, 0 <= zsum (cost <$> take s es)) by (intros; apply zsum_cost_nonneg).
  destruct (decide (p <= 1)) as [Hp1|Hp1].
  - (* the pending entry goes before or right after the first one *)
    exists 1. split; [lia|]. apply split_valid_iff. left. destruct es as [|e0 es]; [simpl in Hlen; lia|].
    pose proof (zsum_cost_take (e0 :: es) 0 e0 eq_refl) as Ht. simpl take in Ht at 2. specialize (Hc 0%nat e0 eq_refl).
    pose proof (Hnn 1%nat). change (Z.to_nat 1) with 1%nat. change (zsum (cost <$> [])) with 0 in Ht. lia.
  - destruct (lookup_lt_is_Some_2 es (Z.to_nat (p - 1))) as [e He]; [lia|]. pose proof (zsum_cost_take es _ e He) as Ht.
    replace (S (Z.to_nat (p - 1))) with (Z.to_nat p) in Ht by lia. pose proof (Hc _ _ He) as Hce.
    destruct (decide (zsum (cost <$> take (Z.to_nat p) es) + q <= BTREE_PAGE_CAPACITY)) as [Hfit|Hfit].
    + destruct (decide (p < zlen es)) as [Hlt|Hge].
      * exists p. split; [lia|]. apply split_valid_iff. left. pose proof (Hnn (Z.to_nat p)). lia.
      * exists (p - 1). split; [lia|]. apply split_valid_iff. right. split; [lia|]. split; [apply Hle|].
        rewrite firstn_all2 in Ht by lia. lia.
    + exists (p - 1). split; [lia|]. apply split_valid_iff. right. split; [lia|]. split; [apply Hle|]. lia.
Qed.

Lemma choose_split_slot_spec leaf page lv pending :
  sorted_page leaf page -> leaf = (lv =? 0) -> (2 <= length (entries page))%nat ->
  Forall (fun e => cost e <= MAX_COST) (entries page) -> entry_ok leaf pending -> cost pending <= MAX_COST ->
  exists s, choose_split_slot page lv (Some pending) = Ok s /\ 1 <= s < zlen (entries page) /\
    split_valid (cost <$> entries page) (cost pending)
      (Z.of_nat (prefix_len (below leaf (rank leaf pending)) (entries page))) s = true.
Proof.
  intros Hsp -> Hlen Hf He Hcp. pose proof (sp_inv _ _ Hsp) as Hb. destruct (bt_count _ Hb) as (Hc & _). pose proof (count_small _ Hb) as Hsm.
  pose proof (prefix_len_le (below (lv =? 0) (rank (lv =? 0) pending)) (entries page)) as Hple.
  destruct (split_point_exists (entries page) (cost pending) (Z.of_nat (prefix_len (below (lv =? 0) (rank (lv =? 0) pending)) (entries page))))
    as (s & Hs & Hv); [done|done|unfold cost in *; lia|lia|by apply page_capacity|].
  assert (Hmid : zlen (entries page) / 2 * 2 <= zlen (entries page) < zlen (entries page) / 2 * 2 + 2)
    by (pose proof (Z.div_mod (zlen (entries page)) 2); pose proof (Z.mod_pos_bound (zlen (entries page)) 2); lia).
  destruct (split_scan_spec (split_valid (cost <$> entries page) (cost pending)
      (Z.of_nat (prefix_len (below (lv =? 0) (rank (lv =? 0) pending)) (entries page))))
    (zlen (entries page) / 2) (zlen (entries page)) (Z.to_nat (zlen (entries page) / 2 + 2)) 0) as (s' & Es & Hs' & Hv');
    [lia|exists s; split; [done|]; split; [done|]; lia|].
  exists s'. split; [|done]. unfold choose_split_slot. cbv zeta. rewrite collect_all, entry_lower_bound_spec by done. rewrite Hc.
  rewrite (proj2 (Z.ltb_ge _ _)) by lia. cbn [res_bind]. change (fun e => zlen e + 4) with cost. change (zlen pending + 4) with (cost pending).
  rewrite Es. rewrite Z.mod_small by lia. done.
Qed.

(** ** Properties *)

(** Searching a leaf is exact and insertion keeps it sorted.  On a sorted leaf
    [leaf_insert_slot] reports a duplicate exactly when the pair (key, row id) is
    stored; otherwise inserting the encoded entry at the slot it returns fails
    only for lack of room, and the resulting leaf is sorted again, holds the new
    entry and all the old ones, and the next search reports the duplicate. *)
Theorem leaf_insert_exact page key tid :
  sorted_page true page -> wf_bytes key -> in_u 64 (page_id tid) -> in_u 16 (slot_id tid) ->
  zlen key <= MAX_INDEX_KEY_BYTES ->
  let e := encode_leaf_entry key tid in
  match leaf_insert_slot page key tid with
  | Ok slot => (e ∉ entries page) /\
      match insert_entry_at page slot e with
      | Ok page' => sorted_page true page' /\ (entries page' ≡ₚ e :: entries page) /\
                    leaf_insert_slot page' key tid = Err BtDuplicateKey
      | Err err => err = BtPageFull (cost e) (n_free (node_of page)) /\ n_free (node_of page) < cost e
      | Panic => False
      end
  | Err err => err = BtDuplicateKey /\ e ∈ entries page
  | Panic => False
  end.
Proof.
  intros Hsp Hk Hp Ht Hmax e. pose proof (leaf_insert_slot_spec page key tid Hsp Hp Ht) as Hs. cbv zeta in Hs.
  destruct (leaf_insert_slot page key tid) as [slot|err|]; [|done|done]. destruct Hs as [-> Hne].
  assert (Hr : rank true e = (key, tid_rank tid)) by (by apply rank_encode_leaf). rewrite <-Hr in *.
  pose proof (entry_ok_leaf key tid Hk) as Hok. fold e in Hok. split; [intros Hin; by apply (Hne e)|].
  set (p := prefix_len (below true (rank true e)) (entries page)) in *.
  pose proof (prefix_len_le (below true (rank true e)) (entries page)) as Hple. fold p in Hple.
  assert (Hel : zlen e = zlen key + 10) by (unfold e, encode_leaf_entry; rewrite !length_app, !length_le_bytes; lia).
  pose proof (insert_entry_outcome page (Z.of_nat p) e (sp_inv _ _ Hsp) ltac:(lia) (proj1 Hok)) as Ho. cbv zeta in Ho.
  destruct (insert_entry_at page (Z.of_nat p) e) as [page'|err|] eqn:Ei; [|destruct err; try done|done].
  - destruct (sorted_insert true page e page' Hsp Hok Hne Ei) as [Hsp' Hent]. fold p in Hent.
    assert (Hperm : entries page' ≡ₚ e :: entries page) by (rewrite Hent; apply insert_at_perm).
    split; [done|]. split; [done|]. pose proof (leaf_insert_slot_spec page' key tid Hsp' Hp Ht) as Hs'. cbv zeta in Hs'.
    destruct (leaf_insert_slot page' key tid) as [slot|err|]; [|by destruct Hs' as [-> _]|done].
    destruct Hs' as [_ Hne']. exfalso. apply (Hne' e); [|done]. rewrite Hperm. by constructor.
  - destruct Ho as (-> & -> & ?). unfold cost, LINE_POINTER_SIZE in *. done.
  - destruct Ho as [-> Hbig]. exfalso. assert (HM : MAX_INDEX_KEY_BYTES + 10 <= MAX_ENTRY) by (vm_compute; done). lia.
  - change (n_entries (node_of page)) with (entries page) in Ho. lia.
  - exfalso. rewrite Ho in Hel. simpl in Hel. lia.
Qed.

Lemma leaf_insert_exact_witness :
  leaf_insert_slot (BtreePage_init (zeros PAGE_SIZE) 0 BTREE_FLAG_LEAF) [7] (mkTid 3 1) = Ok 0 /\
  encode_leaf_entry [7] (mkTid 3 1) ∉ entries (BtreePage_init (zeros PAGE_SIZE) 0 BTREE_FLAG_LEAF).
Proof.
  set (p := BtreePage_init (zeros PAGE_SIZE) 0 BTREE_FLAG_LEAF).
  destruct (init_effect (zeros PAGE_SIZE) 0 BTREE_FLAG_LEAF) as [Hb Hn]; [by rewrite length_zeros|lia|unfold BTREE_FLAG_LEAF; lia|].
  fold p in Hb, Hn. assert (He : entries p = []) by (by apply (f_equal n_entries) in Hn).
  assert (Hsp : sorted_page true p) by (split; [exact Hb|rewrite He; constructor|rewrite He; constructor]).
  clearbody p.
  assert (Hslot : leaf_insert_slot p [7] (mkTid 3 1) = Ok 0).
  { unfold leaf_insert_slot. rewrite (leaf_lower_bound_spec p [7] (mkTid 3 1) Hsp) by (unfold in_u; simpl; lia). rewrite He.
    destruct (bt_count _ Hb) as (-> & _). by rewrite He. }
  split; [done|]. pose proof (leaf_insert_exact p [7] (mkTid 3 1) Hsp) as H. cbv zeta in H. rewrite Hslot in H.
  apply H; [repeat constructor; unfold is_byte; lia|unfold in_u; simpl; lia|unfold in_u; simpl; lia|vm_compute; done].
Defined.

Lemma sorted_app_inv {A} (R : A -> A -> Prop) a b :
  StronglySorted R (a ++ b) ->
  StronglySorted R a /\ StronglySorted R b /\ (forall x y, x ∈ a -> y ∈ b -> R x y).
Proof.
  induction a as [|z a IH]; simpl; intros Hs.
  { split; [constructor|]. split; [done|]. intros x y Hx. by apply elem_of_nil in Hx. }
  apply StronglySorted_inv in Hs as [Hs Hf]. apply Forall_app in Hf as [Hfa Hfb].
  destruct (IH Hs) as (H1 & H2 & H3). split; [by constructor|]. split; [done|].
  intros x y [->|Hx]%elem_of_cons Hy; [|by apply H3]. rewrite Forall_forall in Hfb. by apply Hfb.
Qed.

Lemma elem_of_take_1 {A} (x : A) n l : x ∈ take n l -> x ∈ l.
Proof. intros H. rewrite <-(take_drop n l), elem_of_app. by left. Qed.
Lemma elem_of_drop_1 {A} (x : A) n l : x ∈ drop n l -> x ∈ l.
Proof. intros H. rewrite <-(take_drop n l), elem_of_app. by right. Qed.

(** The half of a split an entry goes to has room for it. *)
Lemma insert_half leaf page e :
  sorted_page leaf page -> entry_ok leaf e -> (forall x, x ∈ entries page -> rank leaf x <> rank leaf e) ->
  n_upper (node_of page) = BTREE_SPECIAL - zsum ((fun e => zlen e) <$> entries page) ->
  zsum (cost <$> entries page) + cost e <= BTREE_PAGE_CAPACITY ->
  exists slot page', entry_lower_bound page e leaf = Ok slot /\ insert_entry_at page slot e = Ok page' /\
    sorted_page leaf page' /\ (entries page' ≡ₚ e :: entries page).
Proof.
  intros Hsp He Hne Hup Hcap. set (p := prefix_len (below leaf (rank leaf e)) (entries page)).
  pose proof (prefix_len_le (below leaf (rank leaf e)) (entries page)) as Hple. fold p in Hple.
  destruct (insert_entry_effect page p e (sp_inv _ _ Hsp) Hple) as (page' & Hi & Hb' & Hn).
  - apply He.
  - by destruct (entry_ok_live leaf e He).
  - unfold n_free. rewrite Hup. change (n_entries (node_of page)) with (entries page).
    rewrite zsum_cost_lens in Hcap. unfold BTREE_PAGE_CAPACITY, cost in Hcap. bt_consts. lia.
  - exists (Z.of_nat p), page'. split; [by apply entry_lower_bound_spec|]. split; [done|].
    destruct (sorted_insert leaf page e page' Hsp He Hne Hi) as [Hsp' Hent]. split; [done|]. rewrite Hent. apply insert_at_perm.
Qed.

(** The comparison with the first entry of the right half tells the landing side. *)
Lemma split_side leaf page e k first :
  sorted_page leaf page -> entries page !! k = Some first -> (forall x, x ∈ entries page -> rank leaf x <> rank leaf e) ->
  is_less (rank_cmp (rank leaf e) (rank leaf first)) = true <-> (prefix_len (below leaf (rank leaf e)) (entries page) <= k)%nat.
Proof.
  intros Hsp Hfirst Hne.
  pose proof (prefix_len_spec _ (below leaf (rank leaf e)) (below_down leaf (rank leaf e)) _ k first (sp_sorted _ _ Hsp) Hfirst) as Hb.
  destruct (rank_total (rank leaf e) (rank leaf first)) as [Hlt|[Heq|Hgt]].
  - rewrite Hlt. split; [intros _|done]. case_decide; [|lia]. apply below_true in Hb. exfalso.
    eapply rank_lt_irrefl. by etransitivity.
  - exfalso. apply (Hne first); [by eapply list_elem_of_lookup_2|done].
  - rewrite (proj2 (below_true leaf (rank leaf e) first) Hgt) in Hb. case_decide; [|done].
    unfold rank_lt in Hgt. rewrite rank_cmp_opp, Hgt. simpl. split; [done|lia].
Qed.

(** C19: a split always makes room for the entry that caused it.  Take a sorted page
    with at least two entries whose keys obey the key limit, a freshly
    initialised right sibling and a new entry.  A split point exists;
    the copy step succeeds at it, leaves both halves non-empty and sorted, keeps
    the entries in order across them and the identity of the left page; and the
    new entry fits into the half it sorts into, which stays sorted.  So the
    insertion that triggered the split never fails again for lack of space. *)
Theorem split_makes_room leaf page right lv pending :
  sorted_page leaf page -> leaf = (lv =? 0) -> (2 <= length (entries page))%nat ->
  Forall (fun e => cost e <= MAX_COST) (entries page) ->
  bt_inv right -> entries right = [] -> n_upper (node_of right) = BTREE_SPECIAL ->
  entry_ok leaf pending -> cost pending <= MAX_COST -> pending ∉ entries page ->
  exists s left' right' first,
    choose_split_slot page lv (Some pending) = Ok s /\
    apply_split_copy s true (page, right) = (Ok tt, (left', right')) /\
    sorted_page leaf left' /\ sorted_page leaf right' /\ entries left' ++ entries right' = entries page /\
    entries left' <> [] /\ head (entries right') = Some first /\
    node_of left' = rebuilt (node_of page) (take (Z.to_nat s) (entries page)) /\
    exists c slot page',
      entry_cmp pending first leaf = Ok c /\
      let target := if is_less c then left' else right' in
      entry_lower_bound target pending leaf = Ok slot /\ insert_entry_at target slot pending = Ok page' /\
      sorted_page leaf page' /\ (entries page' ≡ₚ pending :: entries target).
Proof.
  intros Hsp Hlv Hlen Hf Hr Hre Hru He Hcp Hnin. set (es := entries page) in *.
  destruct (choose_split_slot_spec leaf page lv pending) as (s & Hs & Hrange & Hvalid); try done. fold es in Hrange, Hvalid.
  set (k := Z.to_nat s). assert (Hk : (0 < k < length es)%nat) by lia.
  assert (Hlive : Forall live_entry es) by (eapply Forall_impl; [apply Hsp|apply entry_ok_live]).
  pose proof (page_capacity _ (sp_inv _ _ Hsp)) as Hcap. fold es in Hcap. rewrite (zsum_take_drop cost k) in Hcap.
  pose proof (zsum_cost_nonneg (take k es)) as Hz1. pose proof (zsum_cost_nonneg (drop k es)) as Hz2.
  destruct (apply_split_copy_spec page right k true) as (l' & r' & Hcopy & Hl & Nl & Hr' & Nr); try done; [apply Hsp|fold es; lia|..].
  { intros _. unfold n_free. rewrite Hru. change (n_entries (node_of right)) with (entries right). rewrite Hre.
    unfold BTREE_PAGE_CAPACITY in Hcap. bt_consts. simpl length. fold es. lia. }
  fold es in Nl, Nr. rewrite Hre in Nr. cbv beta iota in Nr. simpl app in Nr.
  assert (El : entries l' = take k es) by (by apply (f_equal n_entries) in Nl).
  assert (Er : entries r' = drop k es) by (by apply (f_equal n_entries) in Nr).
  destruct (sorted_app_inv (fun a b => rank_lt (rank leaf a) (rank leaf b)) (take k es) (drop k es)) as (Sl & Sr & Hlr);
    [rewrite take_drop; apply Hsp|].
  assert (Hspl : sorted_page leaf l') by (apply (sorted_page_intro leaf l' _ Hl El); [apply Forall_take, Hsp|done]).
  assert (Hspr : sorted_page leaf r') by (apply (sorted_page_intro leaf r' _ Hr' Er); [apply Forall_drop, Hsp|done]).
  destruct (lookup_lt_is_Some_2 es k) as [first Hfirst]; [lia|].
  assert (Hin : first ∈ es) by (by eapply list_elem_of_lookup_2).
  exists s, l', r', first. split; [done|]. split; [unfold k in Hcopy; by rewrite Z2Nat.id in Hcopy by lia|]. split; [done|]. split; [done|].
  split; [by rewrite El, Er, take_drop|]. split; [rewrite El; intros Hnil; apply (f_equal length) in Hnil; rewrite length_take in Hnil; simpl in Hnil; lia|].
  split; [rewrite Er, (drop_S _ first k) by done; done|]. split; [done|].
  assert (Hne : forall x, x ∈ es -> rank leaf x <> rank leaf pending).
  { intros x Hx Heq. apply Hnin. rewrite <-(rank_inj leaf x pending); [done| |done|done]. by apply (sp_entry_ok leaf page x Hsp). }
  exists (rank_cmp (rank leaf pending) (rank leaf first)).
  pose proof (entry_cmp_rank leaf pending first He (sp_entry_ok _ _ _ Hsp Hin)) as Hcmp.
  pose proof (split_side leaf page pending k first Hsp Hfirst Hne) as Hside. fold es in Hside.
  apply split_valid_iff in Hvalid. fold es k in Hvalid. rewrite (zsum_take_drop cost k es) in Hvalid.
  destruct (is_less (rank_cmp (rank leaf pending) (rank leaf first))) eqn:Ec.
  - assert (Hp : (prefix_len (below leaf (rank leaf pending)) es <= k)%nat) by (by apply Hside).
    destruct (insert_half leaf l' pending Hspl He) as (slot & p' & H1 & H2 & H3 & H4).
    + rewrite El. intros x Hx. apply Hne. by eapply elem_of_take_1.
    + by rewrite El, Nl.
    + rewrite El. lia.
    + exists slot, p'. split; [exact Hcmp|]. done.
  - assert (Hp : (k < prefix_len (below leaf (rank leaf pending)) es)%nat).
    { destruct (decide (k < prefix_len (below leaf (rank leaf pending)) es)%nat); [done|]. assert (false = true); [|done]. apply Hside. lia. }
    destruct (insert_half leaf r' pending Hspr He) as (slot & p' & H1 & H2 & H3 & H4).
    + rewrite Er. intros x Hx. apply Hne. by eapply elem_of_drop_1.
    + rewrite Er, Nr. unfold with_entries. cbn [n_upper]. by rewrite Hru.
    + rewrite Er. lia.
    + exists slot, p'. split; [exact Hcmp|]. done.
Qed.

Lemma split_makes_room_witness :
  let fresh := BtreePage_init (zeros PAGE_SIZE) 0 BTREE_FLAG_LEAF in
  let page := snd (add_all [encode_leaf_entry [1] (mkTid 1 0); encode_leaf_entry [3] (mkTid 1 1)] fresh) in
  exists s left' right', choose_split_slot page 0 (Some (encode_leaf_entry [2] (mkTid 1 2))) = Ok s /\
    apply_split_copy s true (page, fresh) = (Ok tt, (left', right')) /\ entries left' ++ entries right' = entries page.
Proof.
  intros fresh. set (es := [encode_leaf_entry [1] (mkTid 1 0); encode_leaf_entry [3] (mkTid 1 1)]). intros page.
  destruct (init_effect (zeros PAGE_SIZE) 0 BTREE_FLAG_LEAF) as [Hb Hn]; [by rewrite length_zeros|lia|unfold BTREE_FLAG_LEAF; lia|].
  fold fresh in Hb, Hn. assert (He : entries fresh = []) by (by apply (f_equal n_entries) in Hn).
  assert (Hu : n_upper (node_of fresh) = BTREE_SPECIAL) by (by rewrite Hn).
  assert (Hok : Forall (entry_ok true) es) by (repeat constructor; vm_compute; done).
  destruct (add_all_appends es fresh Hb) as (p' & Ha & Hb' & Hn');
    [eapply Forall_impl; [exact Hok|apply entry_ok_live]|rewrite Hn; vm_compute; done|].
  assert (page = p') as -> by (unfold page; by rewrite Ha). rewrite He in Hn'. simpl app in Hn'.
  assert (He' : entries p' = es) by (by apply (f_equal n_entries) in Hn'). clearbody fresh.
  destruct (split_makes_room true p' fresh 0 (encode_leaf_entry [2] (mkTid 1 2))) as (s & l & r & f & H1 & H2 & _ & _ & H3 & _).
  - apply (sorted_page_intro true p' es Hb' He' Hok). repeat constructor; vm_compute; done.
  - done.
  - rewrite He'. simpl. lia.
  - rewrite He'. repeat constructor; vm_compute; done.
  - done.
  - done.
  - done.
  - apply entry_ok_leaf. repeat constructor; unfold is_byte; lia.
  - vm_compute; done.
  - rewrite He'. apply (bool_decide_unpack _). vm_compute. done.
  - by exists s, l, r.
Defined.
