(* ===== verification/Analysis.v ===== *)
(** * The analysis phase of recovery

    Models [pg-storage/src/analysis.rs].  A WAL reader is the stream of results
    its [next_record] calls give: records, possibly ended by an error (the list
    ends where the reader reports the end of the log).  The snapshot files are read
    through the function [read_file]; [crc32fast] is [crc32], and [dec_att] and
    [dec_dpt] are the two [bincode] decodings of vectors. *)

From S2P Require Import Prelude Types WalRecord.
Local Open Scope Z_scope.
Local Open Scope rust_scope.

Record AnalysisResult := mkAnalysisResult {
  redo_start : Lsn;
  att : list TxnId;
  dpt : list (PageId * Lsn);
}.

Definition is_hard_error (e : StorageError) : bool := match e with WalCorrupted _ => false | _ => true end.

(** What [WalReader::next_record] returns, call after call. *)
Abbreviation WalStream := (list (res StorageError WalRecord)) (only parsing).

Section touched.
Context {BC : Bincode}.

(** [decode_prefix], once per field: the value and the rest of the payload. *)
Definition prefix_u64 (buf : list Z) : res StorageError (Z * list Z) :=
  match bc_get TU64 buf with Some (FU64 x, rest) => Ok (x, rest) | _ => Err Serialize end.
Definition prefix_u16 (buf : list Z) : res StorageError (Z * list Z) :=
  match bc_get TU16 buf with Some (FU16 x, rest) => Ok (x, rest) | _ => Err Serialize end.
Definition prefix_u8 (buf : list Z) : res StorageError (Z * list Z) :=
  match bc_get TU8 buf with Some (FU8 x, rest) => Ok (x, rest) | _ => Err Serialize end.
Definition prefix_tid (buf : list Z) : res StorageError (Tid * list Z) :=
  let? p := prefix_u64 buf in
  let? s := prefix_u16 (snd p) in
  Ok (mkTid (fst p) (fst s), snd s).

Definition if_valid (p : PageId) : list PageId := if p =? PageId_INVALID then [] else [p].

(** The pages handed to the callback of [for_each_touched_page], in order. *)
Definition touched_pages (record : WalRecord) : res StorageError (list PageId) :=
  let payload := wr_payload record in
  match wr_type record with
  | PageAlloc | PageFree | FullPageImage | HeapInsert | BTreeInsert | BTreeDelete =>
      let? p := prefix_u64 payload in Ok [fst p]
  | HeapDelete =>
      let? t := prefix_tid payload in Ok [page_id (fst t)]
  | HeapUpdate =>
      let? old_tid := prefix_tid payload in
      let? new_tid := prefix_tid (snd old_tid) in
      Ok [page_id (fst old_tid); page_id (fst new_tid)]
  | HeapHotUpdate => let? p := prefix_u64 payload in Ok [fst p]
  | BTreeSplitPrepare | BTreeSplitCopy =>
      let? left := prefix_u64 payload in
      let? right := prefix_u64 (snd left) in
      Ok [fst left; fst right]
  | BTreeSplitCommit =>
      let? left := prefix_u64 payload in
      let? right := prefix_u64 (snd left) in
      let? parent := prefix_u64 (snd right) in
      Ok [fst left; fst right; fst parent]
  | BTreeSplitCLR =>
      let? left := prefix_u64 payload in
      let? right := prefix_u64 (snd left) in
      let? level := prefix_u8 (snd right) in
      let? copy_start_slot := prefix_u16 (snd level) in
      let? redo_ref_lsn := prefix_u64 (snd copy_start_slot) in
      let? parent := prefix_u64 (snd redo_ref_lsn) in
      let? parent_insert_slot := prefix_u16 (snd parent) in
      let? new_root := prefix_u64 (snd parent_insert_slot) in
      let? meta := prefix_u64 (snd new_root) in
      Ok ([fst left; fst right] ++ if_valid (fst parent) ++ if_valid (fst new_root) ++ if_valid (fst meta))
  | _ => Ok []
  end.

(** ** The two scans *)

Fixpoint checkpoint_scan (events : WalStream) (latest : option (CheckpointEndRecord * Lsn))
    : res StorageError (option (CheckpointEndRecord * Lsn)) :=
  match events with
  | [] => Ok latest
  | Ok record :: events =>
      if bool_decide (wr_type record = CheckpointEnd) then
        let? decoded := CheckpointEndRecord_decode (wr_payload record) (wr_flags record) in
        checkpoint_scan events (Some (decoded, wr_lsn record))
      else checkpoint_scan events latest
  | Err e :: _ => if is_hard_error e then Err e else Ok latest
  | Panic :: _ => Panic
  end.

Definition is_terminal (record : WalRecord) : bool :=
  match wr_type record with TxnCommit | TxnAbort => true | _ => false end.

Definition scan_att (record : WalRecord) (a : gset Z) : gset Z :=
  if is_terminal record then a ∖ {[wr_txn_id record]}
  else if negb (wr_txn_id record =? TxnId_INVALID) then {[wr_txn_id record]} ∪ a else a.

(** [dpt.entry(page_id).or_insert(lsn)] *)
Definition or_insert (lsn : Lsn) (d : gmap Z Lsn) (p : PageId) : gmap Z Lsn :=
  match d !! p with Some _ => d | None => <[p := lsn]> d end.

Fixpoint analysis_scan (events : WalStream) (a : gset Z) (d : gmap Z Lsn) : res StorageError (gset Z * gmap Z Lsn) :=
  match events with
  | [] => Ok (a, d)
  | Ok record :: events =>
      let? pages := touched_pages record in
      analysis_scan events (scan_att record a) (foldl (or_insert (wr_lsn record)) d pages)
  | Err e :: _ => if is_hard_error e then Err e else Ok (a, d)
  | Panic :: _ => Panic
  end.

End touched.

Definition page_le (a b : PageId * Lsn) : Prop := fst a <= fst b.

#[export] Instance page_le_dec : RelDecision page_le.
Proof. intros a b. unfold page_le. apply _. Defined.

Section analysis.
Context {BC : Bincode}.
Variable crc32 : list Z -> Z.
Variable dec_att : list Z -> option (list TxnId).
Variable dec_dpt : list Z -> option (list (PageId * Lsn)).
Variable read_file : list Z -> option (list Z).
Variable wal_open_at : Lsn -> res StorageError WalStream.

Definition find_latest_checkpoint_end (scan_start : Lsn) : res StorageError (option (CheckpointEndRecord * Lsn)) :=
  let? reader := wal_open_at scan_start in
  checkpoint_scan reader None.

Definition read_snapshot {A : Type} (dec : list Z -> option A) (path : list Z) : res StorageError A :=
  let? bytes := match read_file path with Some bytes => Ok bytes | None => Err Io end in
  if zlen bytes <? 4 then Err MetadataCorrupted else
  let stored_crc := get_le 4 0 bytes in
  let body := drop 4 bytes in
  if negb (stored_crc =? crc32 body) then Err MetadataCorrupted else
  match dec body with Some a => Ok a | None => Err Serialize end.

Definition load_att_snapshot (att_file : list Z) : gset Z :=
  if bool_decide (att_file = []) then ∅
  else match read_snapshot dec_att att_file with Ok xids => list_to_set xids | _ => ∅ end.

(** Collecting pairs into a map: a later entry of the same page wins. *)
Definition load_dpt_snapshot (dpt_file : list Z) : gmap Z Lsn :=
  if bool_decide (dpt_file = []) then ∅
  else match read_snapshot dec_dpt dpt_file with
       | Ok entries => foldl (fun m e => <[fst e := snd e]> m) ∅ entries
       | _ => ∅
       end.

Definition run_analysis (checkpoint_end : CheckpointEndRecord) : res StorageError AnalysisResult :=
  let checkpoint_lsn := ce_checkpoint_lsn checkpoint_end in
  let a := load_att_snapshot (ce_att_file checkpoint_end) in
  let d := load_dpt_snapshot (ce_dpt_file checkpoint_end) in
  let? reader := wal_open_at checkpoint_lsn in
  let? r := analysis_scan reader a d in
  Ok (mkAnalysisResult checkpoint_lsn (zsort (elements (fst r))) (merge_sort page_le (map_to_list (snd r)))).

End analysis.

(** ** Specifications *)

(** No record of [rs] ends transaction [x]. *)
Definition unfinished (rs : list WalRecord) (x : TxnId) : Prop :=
  Forall (fun r => is_terminal r = true -> wr_txn_id r <> x) rs.

(** [x] was active at the end of [rs], when [base] were active at its start: it
    was active or wrote a record, and did not end afterwards. *)
Definition in_flight (base : gset Z) (rs : list WalRecord) (x : TxnId) : Prop :=
  (x ∈ base /\ unfinished rs x) \/
  exists rs1 r rs2, rs = rs1 ++ r :: rs2 /\ is_terminal r = false /\ wr_txn_id r = x /\ x <> TxnId_INVALID /\
    unfinished rs2 x.

(** [l] is the recovery LSN of page [p]: the one of the snapshot, or else the LSN
    of the first record that touches it. *)
Definition first_dirtied `{Bincode} (base : gmap Z Lsn) (rs : list WalRecord) (p : PageId) (l : Lsn) : Prop :=
  base !! p = Some l \/
  base !! p = None /\ exists rs1 r rs2 pages, rs = rs1 ++ r :: rs2 /\ touched_pages r = Ok pages /\ p ∈ pages /\
    wr_lsn r = l /\ forall r' pages', r' ∈ rs1 -> touched_pages r' = Ok pages' -> p ∉ pages'.

(** The pages a payload names for modification. *)
Definition payload_pages (p : Payload) : list PageId :=
  match p with
  | PPageAlloc r => [pa_page_id r] | PPageFree r => [pf_page_id r] | PFullPageImage r => [fpi_page_id r]
  | PHeapInsert r => [hi_page_id r] | PHeapDelete r => [page_id (hd_tid r)]
  | PHeapUpdate r => [page_id (hu_old_tid r); page_id (hu_new_tid r)] | PHeapHotUpdate r => [hh_page_id r]
  | PBTreeInsert r => [bi_page_id r] | PBTreeDelete r => [bd_page_id r]
  | PSplitPrepare r => [sp_left_page r; sp_new_right_page r]
  | PSplitCopy r => [sc_left_page r; sc_right_page r]
  | PSplitCommit r => [sm_left_page r; sm_right_page r; sm_parent_page r]
  | PSplitCLR r => [clr_left_page r; clr_right_page r] ++ if_valid (clr_parent_page r)
                     ++ if_valid (clr_new_root_page r) ++ if_valid (clr_meta_page r)
  | PTxnCommit _ | PTxnAbort _ | PCheckpointEnd _ => []
  end.

(** ** Lemmas *)

Lemma scan_att_step r base rs x : in_flight (scan_att r base) rs x <-> in_flight base (r :: rs) x.
Proof.
  unfold in_flight, unfinished, scan_att. split.
  - intros [[Hb Hu]|(rs1 & r' & rs2 & -> & H)]; [|right; by exists (r :: rs1), r', rs2].
    destruct (is_terminal r) eqn:Et.
    + apply elem_of_difference in Hb as [Hb Hn]. left. split; [done|]. constructor; [|done].
      intros _ Heq. apply Hn, elem_of_singleton. congruence.
    + destruct (negb (wr_txn_id r =? TxnId_INVALID)) eqn:Ez.
      * apply elem_of_union in Hb as [Hb%elem_of_singleton|Hb].
        -- right. exists [], r, rs. zbool. subst x. done.
        -- left. split; [done|]. constructor; [congruence|done].
      * left. split; [done|]. constructor; [congruence|done].
  - intros [[Hb Hu]|(rs1 & r' & rs2 & Heq & Ht & Hx & Hz & Hu)].
    + inversion_clear Hu as [|?? Hr Hu']. left. split; [|done]. destruct (is_terminal r) eqn:Et.
      * apply elem_of_difference. split; [done|]. intros ->%elem_of_singleton. by apply Hr.
      * destruct (negb _); [|done]. apply elem_of_union. auto.
    + destruct rs1 as [|r1 rs1]; injection Heq as -> ->; [|right; by exists rs1, r', rs2].
      left. split; [|done]. rewrite Ht, Hx, (proj2 (Z.eqb_neq _ _)) by done. simpl.
      apply elem_of_union_l, elem_of_singleton. done.
Qed.

Lemma or_insert_lookup l d p q : or_insert l d p !! q = match d !! q with Some x => Some x | None => if decide (p = q) then Some l else None end.
Proof.
  unfold or_insert. destruct (d !! p) as [x|] eqn:Ep; destruct (decide (p = q)) as [<-|Hne].
  - by rewrite Ep.
  - by destruct (d !! q).
  - by rewrite lookup_insert_eq, Ep.
  - rewrite lookup_insert_ne by done. by destruct (d !! q).
Qed.

Lemma or_insert_all l pages : forall d q,
  foldl (or_insert l) d pages !! q = match d !! q with Some x => Some x | None => if decide (q ∈ pages) then Some l else None end.
Proof.
  induction pages as [|p pages IH]; intros d q; cbn [foldl].
  - destruct (d !! q); [done|]. by rewrite decide_False by apply not_elem_of_nil.
  - rewrite IH, or_insert_lookup. destruct (d !! q); [done|].
    destruct (decide (p = q)) as [->|Hne]; [by rewrite decide_True by (apply elem_of_cons; auto)|].
    destruct (decide (q ∈ pages)); [by rewrite decide_True by (apply elem_of_cons; auto)|].
    rewrite decide_False; [done|]. intros [?|?]%elem_of_cons; congruence.
Qed.

Section scan_lemmas.
Context {BC : Bincode}.

Lemma first_dirtied_step r pages base rs p l :
  touched_pages r = Ok pages ->
  first_dirtied (foldl (or_insert (wr_lsn r)) base pages) rs p l <-> first_dirtied base (r :: rs) p l.
Proof.
  intros Hp. unfold first_dirtied. rewrite or_insert_all. destruct (base !! p) as [x|] eqn:Eb.
  { split; (intros [Hx|[Hx _]]; [by left|done]). }
  destruct (decide (p ∈ pages)) as [Hin|Hin]; split.
  - intros [[= <-]|[? _]]; [|done]. right. split; [done|]. exists [], r, rs, pages.
    repeat split; try done. by intros r2 pages2 ?%elem_of_nil.
  - intros [?|[_ (rs1 & r' & rs2 & pages' & Heq & Ht & Hi & Hl & Hno)]]; [done|]. left.
    destruct rs1 as [|r1 rs1]; injection Heq as -> ->; [by rewrite Hl|].
    exfalso. eapply Hno; [apply elem_of_cons; by left|exact Hp|done].
  - intros [?|[_ (rs1 & r' & rs2 & pages' & -> & Ht & Hi & Hl & Hno)]]; [done|]. right. split; [done|].
    exists (r :: rs1), r', rs2, pages'. repeat split; try done.
    intros r2 pages2 [->|?]%elem_of_cons Ht2; [|by eapply Hno]. rewrite Hp in Ht2. by apply Ok_inj in Ht2 as <-.
  - intros [?|[_ (rs1 & r' & rs2 & pages' & Heq & Ht & Hi & Hl & Hno)]]; [done|]. right. split; [done|].
    destruct rs1 as [|r1 rs1]; injection Heq as -> ->.
    + rewrite Hp in Ht. apply Ok_inj in Ht as <-. done.
    + exists rs1, r', rs2, pages'. repeat split; try done. intros r2 pages2 Hr2. apply Hno, elem_of_cons. by right.
Qed.

(** The scan of a readable log: its tables are the specified ones; what follows
    the records decides between success and a propagated error. *)
Lemma analysis_scan_spec rs : forall a d tail,
  Forall (fun r => exists pages, touched_pages r = Ok pages) rs ->
  exists a' d', (forall x, x ∈ a' <-> in_flight a rs x) /\ (forall p l, d' !! p = Some l <-> first_dirtied d rs p l) /\
    analysis_scan ((Ok <$> rs) ++ tail) a d = analysis_scan tail a' d'.
Proof.
  induction rs as [|r rs IH]; intros a d tail Hr.
  - exists a, d. split; [|split; [|done]].
    + intros x. unfold in_flight. split; [intros; left; split; [done|constructor]|].
      intros [[? _]|(rs1 & r & rs2 & Heq & _)]; [done|]. by destruct rs1.
    + intros p l. unfold first_dirtied. split; [by left|].
      intros [?|[_ (rs1 & r & rs2 & pages & Heq & _)]]; [done|]. by destruct rs1.
  - inversion_clear Hr as [|?? [pages Hp] Hr'].
    destruct (IH (scan_att r a) (foldl (or_insert (wr_lsn r)) d pages) tail Hr') as (a' & d' & Ha & Hd & Hs).
    exists a', d'. split; [|split].
    + intros y. by rewrite Ha, scan_att_step.
    + intros p l. by rewrite Hd, first_dirtied_step.
    + simpl. rewrite Hp. apply Hs.
Qed.

Lemma decode_fields {A} `{Serde A} (buf : list Z) (a : A) :
  (forall fs (a : A), de fs = Some a -> fs = ser a) -> decode_from_slice buf = Ok a ->
  exists rest, get_fields (shape (A:=A)) buf = Some (ser a, rest).
Proof.
  intros Hs. unfold decode_from_slice. destruct (get_fields shape buf) as [[fs rest]|]; [|done]. simpl.
  destruct (de fs) as [a'|] eqn:E; [|done]. intros [= ->]. apply Hs in E as ->. eauto.
Qed.

End scan_lemmas.

Ltac ser_of_de :=
  let fs := fresh "fs" in let a := fresh "a" in let H := fresh "H" in
  intros fs a H; simpl in H;
  repeat match type of H with context [match ?l with _ => _ end] => is_var l; destruct l; try discriminate H end;
  injection H as <-; reflexivity.

Section touched_lemmas.
Context {BC : Bincode}.

(** Decoding the page-id prefix agrees with decoding the whole payload. *)
Lemma touched_interpret r p : interpret r = Ok p -> touched_pages r = Ok (payload_pages p).
Proof.
  unfold interpret, touched_pages. destruct (wr_type r) eqn:Et; intros H; try done;
    apply res_bind_ok in H as (a & Ha & H); injection H as <-; try done;
    try (unfold BTreeSplitCLRRecord_decode in Ha; apply res_bind_ok in Ha as (b & Ha & Hb); case_if Hb;
         apply Ok_inj in Hb as ->);
    (apply decode_fields in Ha as [rest Ha]; [|ser_of_de]);
    cbn [shape PageAllocRecord_serde PageFreeRecord_serde FullPageImageRecord_serde HeapInsertRecord_serde
         HeapUpdateRecord_serde HeapDeleteRecord_serde HeapHotUpdateRecord_serde BTreeInsertRecord_serde
         BTreeDeleteRecord_serde BTreeSplitPrepareRecord_serde BTreeSplitCopyRecord_serde
         BTreeSplitCommitRecord_serde BTreeSplitCLRRecord_serde ser get_fields] in Ha;
    repeat (match type of Ha with context [bc_get ?t ?b] =>
              let E := fresh "E" in let f := fresh "f" in let m := fresh "m" in
              destruct (bc_get t b) as [[f m]|] eqn:E; [|discriminate Ha]; cbn [mbind option_bind] in Ha
            end);
    injection Ha; intros; subst; unfold prefix_tid, prefix_u64, prefix_u16, prefix_u8;
    repeat match goal with E : bc_get _ _ = _ |- _ => rewrite E; cbn [res_bind fst snd]; clear E end; done.
Qed.

End touched_lemmas.

#[export] Instance page_le_trans : Transitive page_le.
Proof. intros ???. unfold page_le. lia. Qed.

#[export] Instance page_le_total : Total page_le.
Proof. intros a b. unfold page_le. lia. Qed.

Lemma sorted_strict l : StronglySorted Z.le l -> NoDup l -> StronglySorted Z.lt l.
Proof.
  induction 1 as [|x l Hs IH Hf]; intros Hn; [constructor|]. inversion_clear Hn as [|?? Hx Hn'].
  constructor; [by apply IH|]. rewrite Forall_forall in *. intros y Hy. specialize (Hf y Hy).
  assert (x <> y) by congruence. lia.
Qed.

Lemma sorted_strict_keys (l : list (PageId * Lsn)) :
  StronglySorted page_le l -> NoDup (fst <$> l) -> StronglySorted (fun a b => fst a < fst b) l.
Proof.
  induction 1 as [|x l Hs IH Hf]; intros Hn; [constructor|]. simpl in Hn. inversion_clear Hn as [|?? Hx Hn'].
  constructor; [by apply IH|]. rewrite Forall_forall in *. intros y Hy. specialize (Hf y Hy). unfold page_le in Hf.
  assert (fst x <> fst y); [|lia]. intros Heq. apply Hx. rewrite Heq. by apply list_elem_of_fmap_2.
Qed.

(** ** Properties *)

Section properties.
Context {BC : Bincode}.
Variable crc32 : list Z -> Z.
Variable dec_att : list Z -> option (list TxnId).
Variable dec_dpt : list Z -> option (list (PageId * Lsn)).
Variable read_file : list Z -> option (list Z).
Variable wal_open_at : Lsn -> res StorageError WalStream.

(** C7: analysis rebuilds the tables of the crash.  For a log that holds the
    records [rs] after the checkpoint and then ends, or is cut by a corrupt
    record, analysis succeeds: redo starts at the checkpoint; the transaction
    table holds, in order, exactly the transactions that were in flight at the
    checkpoint or wrote a record, and did not end later; the page table maps every
    page to the LSN of the record that first dirtied it.  Any other read error is
    propagated.  The pages a record touches, read from the prefix of its payload,
    are those of the fully decoded payload. *)
Theorem analysis_exact ce rs tail :
  wal_open_at (ce_checkpoint_lsn ce) = Ok ((Ok <$> rs) ++ tail) ->
  Forall (fun r => exists pages, touched_pages r = Ok pages) rs ->
  let run := run_analysis crc32 dec_att dec_dpt read_file wal_open_at ce in
  let good := exists result, run = Ok result /\ redo_start result = ce_checkpoint_lsn ce /\
    (forall x, x ∈ att result <-> in_flight (load_att_snapshot crc32 dec_att read_file (ce_att_file ce)) rs x) /\
    (forall p l, (p, l) ∈ dpt result <->
       first_dirtied (load_dpt_snapshot crc32 dec_dpt read_file (ce_dpt_file ce)) rs p l) /\
    StronglySorted Z.lt (att result) /\ StronglySorted (fun a b => fst a < fst b) (dpt result) in
  match tail with
  | [] => good
  | Err e :: _ => if is_hard_error e then run = Err e else good
  | _ => True
  end /\
  (forall r p, interpret r = Ok p -> touched_pages r = Ok (payload_pages p)).
Proof.
  intros Ho Hr run good. split; [|apply touched_interpret].
  destruct (analysis_scan_spec rs (load_att_snapshot crc32 dec_att read_file (ce_att_file ce))
              (load_dpt_snapshot crc32 dec_dpt read_file (ce_dpt_file ce)) tail Hr) as (a & d & Ha & Hd & Hs).
  assert (Hrun : run = let? r := analysis_scan tail a d in
                       Ok (mkAnalysisResult (ce_checkpoint_lsn ce) (zsort (elements (fst r)))
                             (merge_sort page_le (map_to_list (snd r))))).
  { unfold run, run_analysis. rewrite Ho. cbn [res_bind]. by rewrite Hs. }
  assert (Hgood : analysis_scan tail a d = Ok (a, d) -> good).
  { intros Ht. unfold good. rewrite Hrun, Ht. cbn [res_bind fst snd]. eexists. split; [done|]. cbn [redo_start att dpt].
    split; [done|]. split; [intros x; by rewrite elem_of_zsort, elem_of_elements, Ha|]. split.
    { intros p l. rewrite merge_sort_Permutation, elem_of_map_to_list. apply Hd. }
    split.
    - apply sorted_strict; [apply zsort_sorted|]. rewrite zsort_perm. apply NoDup_elements.
    - apply sorted_strict_keys; [apply (StronglySorted_merge_sort page_le)|].
      rewrite merge_sort_Permutation. apply NoDup_fst_map_to_list. }
  destruct tail as [|[r|e|] tail]; [by apply Hgood|done| |done].
  destruct (is_hard_error e) eqn:Ee; [by rewrite Hrun; simpl; rewrite Ee|apply Hgood; simpl; by rewrite Ee].
Qed.

End properties.

(** ** Witness: an insert of transaction 5, then a torn record *)

Definition sample_record : WalRecord := mkWalRecord 16 8 5 HeapInsert 0 (le_bytes 8 3 ++ le_bytes 2 0 ++ le_bytes 8 0).
Definition sample_wal (_ : Lsn) : res StorageError WalStream := Ok [Ok sample_record; Err (WalCorrupted 64)].
Definition sample_end : CheckpointEndRecord := mkCheckpointEndRecord 16 1 1 1 [] [].

Lemma analysis_exact_witness :
  exists result, run_analysis sum32 (fun _ => None) (fun _ => None) (fun _ => None) sample_wal sample_end = Ok result /\
    redo_start result = 16 /\ 5 ∈ att result /\ (3, 16) ∈ dpt result.
Proof.
  destruct (analysis_exact sum32 (fun _ => None) (fun _ => None) (fun _ => None) sample_wal sample_end
              [sample_record] [Err (WalCorrupted 64)]) as [(result & H1 & H2 & H3 & H4 & _) _].
  - reflexivity.
  - constructor; [|constructor]. eexists. vm_compute. reflexivity.
  - exists result. split; [exact H1|]. split; [exact H2|]. split.
    + apply H3. right. exists [], sample_record, []. split; [reflexivity|]. split; [reflexivity|].
      split; [reflexivity|]. split; [unfold TxnId_INVALID; lia|constructor].
    + apply H4. right. split; [reflexivity|]. exists [], sample_record, [], [3].
      split; [reflexivity|].
      split; [vm_compute; reflexivity|]. split; [constructor|]. split; [reflexivity|]. by intros r' pages ?%elem_of_nil.
Defined.
