(* ===== verification/WalSegment.v ===== *)
(** * WAL segment files ([pg-storage/src/wal/segment.rs], helpers of [io.rs])

    The log is one byte stream cut into files of [segment_size] bytes.  The
    directory is a map from file names to files; a file has the bytes a read
    returns ([f_data]) and the bytes that the last fsync made durable
    ([f_stable]); [wd_linked] are the names whose directory entry is durable.
    Every system call consumes one outcome of the script [wd_io]: [None] is
    success, [Some n] a failure, after [n] bytes for a write. *)

From stdpp Require Import strings.
From S2P Require Import Prelude Types.
Local Open Scope Z_scope.
Local Open Scope rust_scope.

(** ** File names *)

Definition digit (d : Z) : Ascii.ascii := Ascii.ascii_of_N (Z.to_N (48 + d)).

(** Decimal digits of [n] in front of [acc]; 20 digits hold every [u64]. *)
Fixpoint dec_digits (fuel : nat) (n : Z) (acc : string) : string :=
  match fuel with
  | O => acc
  | S fuel =>
      let acc := String (digit (n mod 10)) acc in
      if n / 10 =? 0 then acc else dec_digits fuel (n / 10) acc
  end.

Fixpoint zero_pad (n : nat) (s : string) : string :=
  match n with O => s | S n => String (digit 0) (zero_pad n s) end.

(** [format!("{:08}", n)] *)
Definition fmt08 (n : Z) : string :=
  let s := dec_digits 20 n EmptyString in zero_pad (8 - String.length s) s.

Definition wal_filename (segment_id : Z) : string :=
  String.app "wal-" (String.app (fmt08 (wrap64 (segment_id + 1))) ".log").

Fixpoint strip_prefix (p s : string) : option string :=
  match p, s with
  | EmptyString, _ => Some s
  | String a p, String b s => if Ascii.eqb a b then strip_prefix p s else None
  | String _ _, EmptyString => None
  end.

Fixpoint strip_suffix (suf s : string) : option string :=
  if String.eqb s suf then Some EmptyString
  else match s with
       | EmptyString => None
       | String a s => String a <$> strip_suffix suf s
       end.

Definition digit_val (a : Ascii.ascii) : option Z :=
  let v := Z.of_N (Ascii.N_of_ascii a) - 48 in if (0 <=? v) && (v <=? 9) then Some v else None.

Fixpoint dec_loop (acc : Z) (s : string) : option Z :=
  match s with
  | EmptyString => Some acc
  | String a s =>
      match digit_val a with
      | Some d => if acc * 10 + d <? 2 ^ 64 then dec_loop (acc * 10 + d) s else None
      | None => None
      end
  end.

Definition plus_sign : Ascii.ascii := Ascii.ascii_of_N 43.

(** [str::parse::<u64>]: an optional sign, at least one digit, no overflow. *)
Definition parse_u64 (s : string) : option Z :=
  match s with
  | EmptyString => None
  | String a s' =>
      if Ascii.eqb a plus_sign then match s' with EmptyString => None | String _ _ => dec_loop 0 s' end
      else dec_loop 0 s
  end.

Definition parse_segment_id (name : string) : option Z :=
  match strip_prefix "wal-" name with
  | Some name =>
      match strip_suffix ".log" name with
      | Some name =>
          match parse_u64 name with
          | Some one_based => if 1 <=? one_based then Some (one_based - 1) else None
          | None => None
          end
      | None => None
      end
  | None => None
  end.

(** ** The directory and the system calls on it *)

Record File := mkFile { f_data : list Z; f_stable : list Z }.

Record WalDir := mkWalDir {
  wd_entries : gmap string File;
  wd_linked : gset string;
  wd_io : list (option nat)
}.

Definition dir_call : M WalDir StorageError unit := fun d =>
  (match hd None (wd_io d) with None => Ok tt | Some _ => Err Io end,
   mkWalDir (wd_entries d) (wd_linked d) (tl (wd_io d))).

Definition on_entries (f : gmap string File -> gmap string File) : M WalDir StorageError unit :=
  mmodify (fun d => mkWalDir (f (wd_entries d)) (wd_linked d) (wd_io d)).

Definition on_file (name : string) (f : File -> File) : M WalDir StorageError unit := on_entries (alter f name).

(** [OpenOptions::new().create(true).truncate(false).open(path)] *)
Definition open_create (name : string) : M WalDir StorageError unit :=
  dir_call ;! on_entries (fun es => match es !! name with Some _ => es | None => <[name := mkFile [] []]> es end).

Definition metadata_len (name : string) : M WalDir StorageError Z :=
  dir_call ;! (let! d := mget in match wd_entries d !! name with Some f => mret (zlen (f_data f)) | None => mthrow Io end).

(** [File::set_len]: cut, or extend with zeros. *)
Definition preallocate_file (name : string) (new_size : Z) : M WalDir StorageError unit :=
  dir_call ;! on_file name (fun f =>
    mkFile (take (Z.to_nat new_size) (f_data f) ++ zeros (new_size - zlen (f_data f))) (f_stable f)).

Definition sync_all (name : string) : M WalDir StorageError unit :=
  dir_call ;! on_file name (fun f => mkFile (f_data f) (f_data f)).

Definition sync_dir : M WalDir StorageError unit :=
  dir_call ;! dir_call ;! mmodify (fun d => mkWalDir (wd_entries d) (dom (wd_entries d)) (wd_io d)).

(** Overwrite at an offset; a write past the end extends the file. *)
Definition pwrite (offset : Z) (bs data : list Z) : list Z :=
  splice offset bs (data ++ zeros (offset + zlen bs - zlen data)).

(** [file.seek(SeekFrom::Start(offset))?; file.write_all(bs)?] *)
Definition seek_write_all (name : string) (offset : Z) (bs : list Z) : M WalDir StorageError unit :=
  dir_call ;! fun d =>
    let bs' := match hd None (wd_io d) with None => bs | Some n => take n bs end in
    (match hd None (wd_io d) with None => Ok tt | Some _ => Err Io end,
     mkWalDir (alter (fun f => mkFile (pwrite offset bs' (f_data f)) (f_stable f)) name (wd_entries d))
              (wd_linked d) (tl (wd_io d))).

Definition remove_file (name : string) : M WalDir StorageError unit := dir_call ;! on_entries (delete name).

(** ** The segment manager *)

Record WalSegmentManager := mkSegMgr {
  sm_dir : WalDir;
  sm_segment_size : Z;
  sm_current_segment_id : Z
}.

Definition on_dir {A : Type} (m : M WalDir StorageError A) : M WalSegmentManager StorageError A := fun s =>
  let r := m (sm_dir s) in (fst r, mkSegMgr (snd r) (sm_segment_size s) (sm_current_segment_id s)).

Definition fold_segments (pick : Z -> Z -> bool) (names : list string) : option Z :=
  foldl (fun best name =>
    match parse_segment_id name with
    | Some id => match best with
                 | None => Some id
                 | Some m => if pick id m then Some id else Some m
                 end
    | None => best
    end) None names.

Definition names_of (d : WalDir) : list string := fst <$> map_to_list (wd_entries d).

Definition discover_latest_segment_id : M WalDir StorageError Z :=
  dir_call ;! (let! d := mget in mret (default 0 (fold_segments Z.gtb (names_of d)))).

Definition discover_oldest_segment_id : M WalDir StorageError Z :=
  dir_call ;! (let! d := mget in mret (default 0 (fold_segments Z.ltb (names_of d)))).

Definition open_segment_file (segment_id segment_size : Z) : M WalDir StorageError unit :=
  let name := wal_filename segment_id in
  open_create name ;!
  let! current_len := metadata_len name in
  (if negb (current_len =? segment_size) then preallocate_file name segment_size else mret tt) ;!
  sync_all name.

(** [open]; the directory exists ([ensure_data_dir] has made it). *)
Definition WalSegmentManager_open (segment_size : Z) : M WalDir StorageError WalSegmentManager :=
  if segment_size =? 0 then mthrow InvalidConfig
  else if negb (segment_size mod LSN_ALIGNMENT =? 0) then mthrow InvalidConfig
  else
    let! current := discover_latest_segment_id in
    open_segment_file current segment_size ;!
    let! d := mget in mret (mkSegMgr d segment_size current).

Definition current_name (s : WalSegmentManager) : string := wal_filename (sm_current_segment_id s).

Definition rotate : M WalSegmentManager StorageError unit :=
  let! s := mget in
  on_dir (sync_all (current_name s)) ;!
  let next_id := wrap64 (sm_current_segment_id s + 1) in
  on_dir (open_segment_file next_id (sm_segment_size s)) ;!
  on_dir sync_dir ;!
  mmodify (fun s => mkSegMgr (sm_dir s) (sm_segment_size s) next_id).

(** [while self.current_segment_id < target_id { self.rotate()?; }] *)
Fixpoint rotate_loop (n : nat) : M WalSegmentManager StorageError unit :=
  match n with O => mret tt | S n => rotate ;! rotate_loop n end.

Definition ensure_for_write (lsn : Lsn) : M WalSegmentManager StorageError unit :=
  let! s := mget in
  let target_id := Lsn_segment_id lsn (sm_segment_size s) in
  if target_id =? sm_current_segment_id s then mret tt
  else if target_id <? sm_current_segment_id s then mthrow WalWriteFailed
  else rotate_loop (Z.to_nat (target_id - sm_current_segment_id s)).

Fixpoint remove_before (cutoff : Z) (names : list string) : M WalDir StorageError (list string) :=
  match names with
  | [] => mret []
  | name :: names =>
      match parse_segment_id name with
      | Some id =>
          if id <? cutoff then
            remove_file name ;! let! rest := remove_before cutoff names in mret (name :: rest)
          else remove_before cutoff names
      | None => remove_before cutoff names
      end
  end.

Definition recycle_before (lsn : Lsn) : M WalSegmentManager StorageError (list string) :=
  let! s := mget in
  let cutoff := Z.min (Lsn_segment_id lsn (sm_segment_size s)) (sm_current_segment_id s) in
  on_dir (
    dir_call ;!
    let! d := mget in
    let! removed := remove_before cutoff (names_of d) in
    match removed with [] => mret removed | _ => sync_dir ;! mret removed end).

(** ** Writing a record ([write_record_to_segment] of [writer.rs]) *)

(** [while written < buf.len()]: every round writes at least one byte. *)
Fixpoint write_loop (fuel : nat) (lsn : Lsn) (buf : list Z) (written : Z) : M WalSegmentManager StorageError unit :=
  match fuel with
  | O => mpanic
  | S fuel =>
      if written <? zlen buf then
        let! s := mget in
        let segment_size := sm_segment_size s in
        let pos := wrap64 (lsn + written) in
        let offset := Lsn_segment_offset pos segment_size in
        let chunk := Z.min (segment_size - offset) (zlen buf - written) in
        ensure_for_write pos ;!
        let! s := mget in
        on_dir (seek_write_all (current_name s) offset (slice written chunk buf)) ;!
        let written := written + chunk in
        (if (written <? zlen buf) && (offset + chunk =? segment_size)
         then on_dir (sync_all (current_name s)) else mret tt) ;!
        write_loop fuel lsn buf written
      else mret tt
  end.

Definition write_record_to_segment (buf : list Z) (lsn : Lsn) : M WalSegmentManager StorageError unit :=
  let! s := mget in
  if zlen buf >? sm_segment_size s then mthrow WalWriteFailed
  else write_loop (S (length buf)) lsn buf 0.

(** ** Lemmas: file names *)

Lemma digit_val_digit d : 0 <= d <= 9 -> digit_val (digit d) = Some d.
Proof.
  intros Hd. assert (Hc : d = 0 \/ d = 1 \/ d = 2 \/ d = 3 \/ d = 4 \/ d = 5 \/ d = 6 \/ d = 7 \/ d = 8 \/ d = 9) by lia.
  repeat destruct Hc as [->|Hc]; subst; reflexivity.
Qed.

Lemma digit_not_plus d : 0 <= d <= 9 -> Ascii.eqb (digit d) plus_sign = false.
Proof.
  intros Hd. destruct (Ascii.eqb_spec (digit d) plus_sign) as [He|]; [|done].
  pose proof (digit_val_digit d Hd) as Hv. by rewrite He in Hv.
Qed.

Lemma dec_loop_digits fuel : forall n s, 0 <= n < 10 ^ Z.of_nat fuel -> n < 2 ^ 64 -> (0 < fuel)%nat ->
  dec_loop 0 (dec_digits fuel n s) = dec_loop n s.
Proof.
  induction fuel as [|fuel IH]; intros n s Hn Hm Hf; [lia|]. cbn [dec_digits].
  pose proof (Z.mod_pos_bound n 10) as Hd. pose proof (Z.div_mod n 10) as Hdm.
  rewrite Nat2Z.inj_succ, Z.pow_succ_r in Hn by lia.
  destruct (Z.eqb_spec (n / 10) 0) as [Hz|Hz].
  - cbn [dec_loop]. rewrite digit_val_digit, (proj2 (Z.ltb_lt _ _)) by lia. f_equal. lia.
  - assert (0 < n / 10) by (pose proof (Z.div_pos n 10); lia).
    destruct fuel as [|fuel]; [change (10 ^ Z.of_nat 0) with 1 in Hn; lia|].
    rewrite IH by lia. cbn [dec_loop]. rewrite digit_val_digit, (proj2 (Z.ltb_lt _ _)) by lia. f_equal. lia.
Qed.

Lemma dec_loop_pad k s : dec_loop 0 (zero_pad k s) = dec_loop 0 s.
Proof. induction k as [|k IH]; [done|]. cbn [zero_pad dec_loop]. by rewrite digit_val_digit by lia. Qed.

Lemma dec_digits_head fuel : forall n s, 0 <= n -> (0 < fuel)%nat ->
  exists d t, dec_digits fuel n s = String (digit d) t /\ 0 <= d <= 9.
Proof.
  induction fuel as [|fuel IH]; intros n s Hn Hf; [lia|]. cbn [dec_digits].
  pose proof (Z.mod_pos_bound n 10). destruct (_ =? 0) eqn:E; [do 2 eexists; split; [done|lia]|].
  destruct fuel as [|fuel]; [do 2 eexists; split; [done|lia]|]. apply IH; [apply Z.div_pos; lia|lia].
Qed.

Lemma parse_padded k n : in_u 64 n -> parse_u64 (zero_pad k (dec_digits 20 n EmptyString)) = Some n.
Proof.
  intros Hn. unfold in_u in Hn. destruct (dec_digits_head 20 n EmptyString) as (d & t & Hd & Hr); [lia..|].
  assert (Hl : dec_loop 0 (zero_pad k (dec_digits 20 n EmptyString)) = Some n).
  { rewrite dec_loop_pad. apply dec_loop_digits; [split; [lia|]|lia|lia].
    eapply Z.lt_trans; [apply Hn|]. vm_compute. reflexivity. }
  revert Hl. rewrite Hd. destruct k as [|k]; cbn [zero_pad parse_u64]; rewrite digit_not_plus by lia; auto.
Qed.

Lemma parse_fmt08 n : in_u 64 n -> parse_u64 (fmt08 n) = Some n.
Proof. apply parse_padded. Qed.

Lemma strip_prefix_app p s : strip_prefix p (String.app p s) = Some s.
Proof. induction p as [|a p IH]; [done|]. simpl. by rewrite Ascii.eqb_refl. Qed.

Lemma string_length_app s t : String.length (String.app s t) = (String.length s + String.length t)%nat.
Proof. induction s; simpl; auto. Qed.

Lemma strip_suffix_cons suf a s :
  strip_suffix suf (String a s) = if String.eqb (String a s) suf then Some EmptyString else String a <$> strip_suffix suf s.
Proof. done. Qed.

Lemma strip_suffix_app suf s : strip_suffix suf (String.app s suf) = Some s.
Proof.
  induction s as [|a s IH].
  - change (String.app EmptyString suf) with suf. destruct suf as [|a suf]; [done|]. unfold strip_suffix.
    by rewrite (proj2 (String.eqb_eq _ _)).
  - change (String.app (String a s) suf) with (String a (String.app s suf)). rewrite strip_suffix_cons, IH. destruct (String.eqb_spec (String a (String.app s suf)) suf) as [He|_].
    + apply (f_equal String.length) in He. simpl in He. rewrite string_length_app in He. lia.
    + done.
Qed.

Lemma parse_wal_filename id : 0 <= id < 2 ^ 64 - 1 -> parse_segment_id (wal_filename id) = Some id.
Proof.
  intros Hid. unfold parse_segment_id, wal_filename. rewrite strip_prefix_app, strip_suffix_app.
  unfold wrap64. rewrite Z.mod_small by lia. rewrite parse_fmt08 by (unfold in_u; lia).
  rewrite (proj2 (Z.leb_le _ _)) by lia. f_equal. lia.
Qed.

Lemma wal_filename_inj i j : 0 <= i < 2 ^ 64 - 1 -> 0 <= j < 2 ^ 64 - 1 -> wal_filename i = wal_filename j -> i = j.
Proof. intros Hi Hj He. apply (f_equal parse_segment_id) in He. rewrite !parse_wal_filename in He by done. congruence. Qed.

(** [fold_segments] picks a best id: it bounds every id, and it occurs. *)
Section fold_segments.
Variable pick : Z -> Z -> bool.
Variable s : Z.
Hypothesis Hpick : forall id m, pick id m = (s * id >? s * m).

Lemma fold_segments_from names : forall best,
  let r := foldl (fun best name =>
    match parse_segment_id name with
    | Some id => match best with None => Some id | Some m => if pick id m then Some id else Some m end
    | None => best
    end) best names in
  (forall m, best = Some m -> exists m', r = Some m' /\ s * m <= s * m') /\
  (forall name id, name ∈ names -> parse_segment_id name = Some id -> exists m', r = Some m' /\ s * id <= s * m') /\
  (forall m, r = Some m -> best = Some m \/ exists name, name ∈ names /\ parse_segment_id name = Some m).
Proof.
  induction names as [|name names IH]; intros best; cbn [foldl].
  { split; [by eauto with lia|]. split; [intros ?? []%elem_of_nil|by auto]. }
  match goal with |- context [foldl _ ?b names] => specialize (IH b) end.
  destruct IH as (I1 & I2 & I3). split; [|split].
  - intros m ->. destruct (parse_segment_id name) as [id|]; [|by apply I1]. rewrite Hpick in *.
    destruct (s * id >? s * m) eqn:E; zbool; [destruct (I1 id) as (m' & -> & ?); [done|]; exists m'; split; [done|lia]|by apply I1].
  - intros nm id [->|Hin]%elem_of_cons Hp; [|by eapply I2]. rewrite Hp in I1 |- *. destruct best as [m|].
    + rewrite Hpick in *. destruct (s * id >? s * m) eqn:E; zbool; [by apply I1|].
      destruct (I1 m) as (m' & -> & ?); [done|]. exists m'. split; [done|lia].
    + by apply I1.
  - intros m Hm. destruct (I3 m Hm) as [Hb|(nm & Hin & Hp)]; [|right; exists nm; split; [by right|done]].
    destruct (parse_segment_id name) as [id|] eqn:Ep; [|by left].
    destruct best as [m0|]; [destruct (pick id m0)|]; try by left.
    + injection Hb as ->. right. exists name. split; [by left|done].
    + injection Hb as ->. right. exists name. split; [by left|done].
Qed.

Lemma fold_segments_bound names id name :
  name ∈ names -> parse_segment_id name = Some id -> exists m, fold_segments pick names = Some m /\ s * id <= s * m.
Proof. intros Hin Hp. exact (proj1 (proj2 (fold_segments_from names None)) name id Hin Hp). Qed.

(** The result depends on the set of names only. *)
Lemma fold_segments_set names names' :
  s <> 0 -> (forall name, name ∈ names <-> name ∈ names') -> fold_segments pick names = fold_segments pick names'.
Proof.
  intros Hs Heq.
  assert (Hhalf : forall l l', (forall name, name ∈ l -> name ∈ l') -> forall m, fold_segments pick l = Some m ->
    exists m', fold_segments pick l' = Some m' /\ s * m <= s * m').
  { intros l l' Hll m Hm. destruct (proj2 (proj2 (fold_segments_from l None)) m Hm) as [?|(name & Hin & Hp)]; [done|].
    by eapply fold_segments_bound; [apply Hll|]. }
  destruct (fold_segments pick names) as [m|] eqn:E1, (fold_segments pick names') as [m'|] eqn:E2; [| | |done].
  - destruct (Hhalf names names' ltac:(naive_solver) m E1) as (x & Hx & Hle1).
    destruct (Hhalf names' names ltac:(naive_solver) m' E2) as (y & Hy & Hle2). f_equal. simplify_eq. nia.
  - destruct (Hhalf names names' ltac:(naive_solver) m E1) as (x & Hx & _). congruence.
  - destruct (Hhalf names' names ltac:(naive_solver) m' E2) as (x & Hx & _). congruence.
Qed.

End fold_segments.

Lemma gtb_picks id m : (id >? m) = (1 * id >? 1 * m).
Proof. f_equal; lia. Qed.
Lemma ltb_picks id m : (id <? m) = (-1 * id >? -1 * m).
Proof. rewrite Z.gtb_ltb. apply eq_true_iff_eq. rewrite !Z.ltb_lt. lia. Qed.

Lemma fold_segments_gtb names id name :
  name ∈ names -> parse_segment_id name = Some id -> id <= default 0 (fold_segments Z.gtb names).
Proof.
  intros Hin Hp. destruct (fold_segments_bound Z.gtb 1 gtb_picks names id name Hin Hp) as (m & -> & Hm).
  change (id <= m). lia.
Qed.
