(* ===== verification/Config.v ===== *)
(** * Configuration ([pg-storage/src/config.rs])

    The option record, its defaults, the validation that every component runs
    before it opens, and the overrides read from the environment.  The
    environment is a function from variable names to values ([None] when the
    variable is unset or not Unicode); [usize] is 64 bits wide. *)

From stdpp Require Import strings.
From S2P Require Import Prelude Types WalSegment.
Local Open Scope Z_scope.

Definition DEFAULT_BUFFER_POOL_SIZE : Z := 128 * 1024 * 1024.
Definition DEFAULT_WAL_GROUP_COMMIT_TIMEOUT_MS : Z := 2.
Definition DEFAULT_WAL_GROUP_COMMIT_BATCH_SIZE : Z := 64.
Definition DEFAULT_CHECKPOINT_INTERVAL_MS : Z := 30000.

Record StorageConfig := mkStorageConfig {
  cf_data_dir : string;
  cf_wal_segment_size : Z;
  cf_buffer_pool_size : Z;
  cf_buffer_pool_shards : Z;
  cf_wal_group_commit_batch_size : Z;
  cf_wal_group_commit_timeout_ms : Z;
  cf_checkpoint_interval_ms : Z;
  cf_page_size : Z;
}.

Definition StorageConfig_new (data_dir : string) : StorageConfig :=
  mkStorageConfig data_dir WAL_SEGMENT_SIZE DEFAULT_BUFFER_POOL_SIZE 256 DEFAULT_WAL_GROUP_COMMIT_BATCH_SIZE
    DEFAULT_WAL_GROUP_COMMIT_TIMEOUT_MS DEFAULT_CHECKPOINT_INTERVAL_MS PAGE_SIZE.

Definition StorageConfig_validate (c : StorageConfig) : res StorageError unit :=
  if negb (cf_page_size c =? PAGE_SIZE) then Err InvalidConfig
  else if cf_wal_segment_size c =? 0 then Err InvalidConfig
  else if (cf_buffer_pool_size c =? 0) || negb (cf_buffer_pool_size c mod cf_page_size c =? 0) then Err InvalidConfig
  else if cf_buffer_pool_shards c =? 0 then Err InvalidConfig
  else if cf_wal_group_commit_batch_size c =? 0 then Err InvalidConfig
  else if cf_wal_group_commit_timeout_ms c =? 0 then Err InvalidConfig
  else Ok tt.

(** [if let Ok(v) = env::var(name) { match v.parse() { Ok(n) => set, Err(_) => warn } }] *)
Definition env_override (env : string -> option string) (name : string) (set : Z -> StorageConfig -> StorageConfig)
    (c : StorageConfig) : StorageConfig :=
  match env name with
  | Some v => match parse_u64 v with Some n => set n c | None => c end
  | None => c
  end.

Definition set_cf_buffer_pool_size (n : Z) (c : StorageConfig) : StorageConfig :=
  mkStorageConfig (cf_data_dir c) (cf_wal_segment_size c) n (cf_buffer_pool_shards c) (cf_wal_group_commit_batch_size c)
    (cf_wal_group_commit_timeout_ms c) (cf_checkpoint_interval_ms c) (cf_page_size c).
Definition set_cf_buffer_pool_shards (n : Z) (c : StorageConfig) : StorageConfig :=
  mkStorageConfig (cf_data_dir c) (cf_wal_segment_size c) (cf_buffer_pool_size c) n (cf_wal_group_commit_batch_size c)
    (cf_wal_group_commit_timeout_ms c) (cf_checkpoint_interval_ms c) (cf_page_size c).
Definition set_cf_timeout_ms (n : Z) (c : StorageConfig) : StorageConfig :=
  mkStorageConfig (cf_data_dir c) (cf_wal_segment_size c) (cf_buffer_pool_size c) (cf_buffer_pool_shards c)
    (cf_wal_group_commit_batch_size c) n (cf_checkpoint_interval_ms c) (cf_page_size c).
Definition set_cf_batch_size (n : Z) (c : StorageConfig) : StorageConfig :=
  mkStorageConfig (cf_data_dir c) (cf_wal_segment_size c) (cf_buffer_pool_size c) (cf_buffer_pool_shards c) n
    (cf_wal_group_commit_timeout_ms c) (cf_checkpoint_interval_ms c) (cf_page_size c).
Definition set_cf_interval_ms (n : Z) (c : StorageConfig) : StorageConfig :=
  mkStorageConfig (cf_data_dir c) (cf_wal_segment_size c) (cf_buffer_pool_size c) (cf_buffer_pool_shards c)
    (cf_wal_group_commit_batch_size c) (cf_wal_group_commit_timeout_ms c) n (cf_page_size c).

Definition from_env (env : string -> option string) : StorageConfig :=
  let cfg := StorageConfig_new (default "pg_rust_data"%string (env "PG_RUST_DATA_DIR"%string)) in
  let cfg := env_override env "PG_RUST_BUFFER_POOL_SIZE" set_cf_buffer_pool_size cfg in
  let cfg := env_override env "PG_RUST_BP_SHARDS" set_cf_buffer_pool_shards cfg in
  let cfg := env_override env "PG_RUST_WAL_TIMEOUT_MS" set_cf_timeout_ms cfg in
  let cfg := env_override env "PG_RUST_WAL_BATCH_SIZE" set_cf_batch_size cfg in
  env_override env "PG_RUST_CHECKPOINT_INTERVAL_MS" set_cf_interval_ms cfg.

(** A valid configuration gives a pool with at least one frame and one shard. *)
Lemma validate_frames c :
  StorageConfig_validate c = Ok tt -> 0 <= cf_buffer_pool_size c -> 0 <= cf_buffer_pool_shards c ->
  1 <= cf_buffer_pool_size c / cf_page_size c /\ 1 <= cf_buffer_pool_shards c.
Proof.
  unfold StorageConfig_validate. intros H Hp Hs. repeat (case_match; zbool; try discriminate).
  rewrite <-(Z.eqb_eq (cf_page_size c)) in *. zbool.
  assert (Hps : cf_page_size c = PAGE_SIZE) by lia. rewrite Hps in *. split; [|lia].
  assert (cf_buffer_pool_size c = PAGE_SIZE * (cf_buffer_pool_size c / PAGE_SIZE)) by (apply Z.div_exact; done || lia).
  unfold PAGE_SIZE in *. lia.
Qed.
