(* ===== verification/WalReader.v ===== *)
(** * The WAL reader ([pg-storage/src/wal/reader.rs])

    The reader walks the byte stream of the segment files.  Files are a map from
    names to bytes.  [os_read segment offset available] is the number of bytes a
    [read] call returns when [available] bytes are there and wanted, or its I/O
    error: a read may be short. *)

From stdpp Require Import strings.
From S2P Require Import Prelude Types WalRecord WalSegment Analysis.
Local Open Scope Z_scope.
Local Open Scope rust_scope.

Record WalReader := mkWalReader {
  rd_files : gmap string (list Z);
  rd_segment_size : Z;
  rd_current_segment_id : Z;
  rd_current_lsn : Lsn
}.

Definition set_rd_segment (id : Z) (r : WalReader) : WalReader :=
  mkWalReader (rd_files r) (rd_segment_size r) id (rd_current_lsn r).
Definition set_rd_lsn (l : Lsn) (r : WalReader) : WalReader :=
  mkWalReader (rd_files r) (rd_segment_size r) (rd_current_segment_id r) l.

Definition is_zero_bytes (bs : list Z) : bool := forallb (Z.eqb 0) bs.

(** A position past every segment file: the bound of the loops that run to the
    end of the log. *)
Definition wal_limit (files : gmap string (list Z)) (segment_size : Z) : Z :=
  (default 0 (fold_segments Z.gtb (fst <$> map_to_list files)) + 1) * segment_size.

Section reader.
Variable crc32 : list Z -> Z.
Variable os_read : Z -> Z -> Z -> res StorageError Z.

(** [WalReader::open_at] *)
Definition WalReader_open_at (files : gmap string (list Z)) (segment_size : Z) (start_lsn : Lsn) : res StorageError WalReader :=
  if negb (Lsn_is_valid start_lsn) || negb (start_lsn mod LSN_ALIGNMENT =? 0) then Err InvalidConfig
  else if (segment_size =? 0) || negb (segment_size mod LSN_ALIGNMENT =? 0) then Err InvalidConfig
  else
    let segment_id := Lsn_segment_id start_lsn segment_size in
    match files !! wal_filename segment_id with
    | Some _ => Ok (mkWalReader files segment_size segment_id start_lsn)
    | None => Err Io
    end.

Definition WalReader_open (files : gmap string (list Z)) (segment_size : Z) : res StorageError WalReader :=
  WalReader_open_at files segment_size Lsn_FIRST.

(** [seek] to the offset and one [read] of up to [chunk] bytes of the open file. *)
Definition read_chunk (offset chunk : Z) : M WalReader StorageError (list Z) := fun r =>
  let data := default [] (rd_files r !! wal_filename (rd_current_segment_id r)) in
  let available := Z.min chunk (zlen data - offset) in
  if available <=? 0 then (Ok [], r)
  else match os_read (rd_current_segment_id r) offset available with
       | Ok n => (Ok (slice offset n data), r)
       | Err e => (Err e, r)
       | Panic => (Panic, r)
       end.

(** Open the segment of [pos] when another one is open; [false] when its file
    does not exist. *)
Definition open_segment (pos : Lsn) : M WalReader StorageError bool := fun r =>
  let segment_id := Lsn_segment_id pos (rd_segment_size r) in
  if negb (segment_id =? rd_current_segment_id r) then
    match rd_files r !! wal_filename segment_id with
    | None => (Ok false, r)
    | Some _ => (Ok true, set_rd_segment segment_id r)
    end
  else (Ok true, r).

(** The loop of [try_read_exact] and [try_read_exact_at]: the bytes
    [pos, pos + len), or [None] where the log ends first.  Every round reads at
    least one byte. *)
Fixpoint read_loop (fuel : nat) (pos len : Z) (buf : list Z) : M WalReader StorageError (option (list Z)) :=
  match fuel with
  | O => mpanic
  | S fuel =>
      if zlen buf <? len then
        let! r := mget in
        let p := wrap64 (pos + zlen buf) in
        let offset := Lsn_segment_offset p (rd_segment_size r) in
        let! opened := open_segment p in
        if negb opened then mret None
        else
          let chunk := Z.min (rd_segment_size r - offset) (len - zlen buf) in
          let! got := read_chunk offset chunk in
          if zlen got =? 0 then mret None else read_loop fuel pos len (buf ++ got)
      else mret (Some buf)
  end.

Definition try_read_exact_at (pos len : Z) : M WalReader StorageError (option (list Z)) :=
  read_loop (S (Z.to_nat len)) pos len [].

Definition try_read_exact (len : Z) : M WalReader StorageError (option (list Z)) :=
  let! r := mget in
  let! res := try_read_exact_at (rd_current_lsn r) len in
  match res with
  | Some buf => mmodify (fun r => set_rd_lsn (wrap64 (rd_current_lsn r + len)) r) ;! mret (Some buf)
  | None => mret None
  end.

(** The scan of [is_torn_tail] from [pos] on. *)
Fixpoint zero_tail (fuel : nat) (pos : Z) : M WalReader StorageError bool :=
  match fuel with
  | O => mpanic
  | S fuel =>
      let! r := mget in
      let offset := Lsn_segment_offset pos (rd_segment_size r) in
      let! opened := open_segment pos in
      if negb opened then mret true
      else
        let chunk := Z.min (rd_segment_size r - offset) (64 * 1024) in
        let! got := read_chunk offset chunk in
        if zlen got =? 0 then mret true
        else if negb (is_zero_bytes got) then mret false
        else zero_tail fuel (wrap64 (pos + zlen got))
  end.

Definition is_torn_tail (start_lsn record_end : Lsn) (header : list Z) : M WalReader StorageError bool :=
  let header_lsn := get_le 8 0 header in
  if negb (header_lsn =? start_lsn) then mret false
  else let! r := mget in zero_tail (S (Z.to_nat (wal_limit (rd_files r) (rd_segment_size r)))) record_end.

Definition rollback_to (lsn : Lsn) : M WalReader StorageError unit := mmodify (set_rd_lsn lsn).

(** The rest of [next_record] once the header and its length are known. *)
Definition decode_or_torn (start_lsn : Lsn) (total : Z) (header rest : list Z) : M WalReader StorageError (option WalRecord) :=
  match WalRecord_decode crc32 (header ++ rest) with
  | Ok (record, _) => mret (Some record)
  | Err e =>
      let record_end := wrap64 (start_lsn + total) in
      let! torn :=
        (match e with WalCorrupted _ => is_torn_tail start_lsn record_end header | _ => mret false end) in
      if torn : bool then rollback_to start_lsn ;! mret None else mthrow e
  | Panic => mpanic
  end.

(** An all-zero header: the end of the log, or a hole in it. *)
Definition end_or_hole (start_lsn : Lsn) : M WalReader StorageError (option WalRecord) :=
  let probe_pos := wrap64 (start_lsn + WAL_RECORD_HEADER_SIZE) in
  let! probe := try_read_exact_at probe_pos WAL_RECORD_HEADER_SIZE in
  match probe with
  | Some probe =>
      if negb (is_zero_bytes probe) then mthrow MetadataCorrupted
      else rollback_to start_lsn ;! mret None
  | None => rollback_to start_lsn ;! mret None
  end.

Definition next_record : M WalReader StorageError (option WalRecord) :=
  let! r := mget in
  let start_lsn := rd_current_lsn r in
  let! header := try_read_exact WAL_RECORD_HEADER_SIZE in
  match header with
  | None => mret None
  | Some header =>
      if is_zero_bytes header then end_or_hole start_lsn
      else
        let payload_len := get_le 2 26 header in
        let! total := (fun r => (align_up (WAL_RECORD_HEADER_SIZE + payload_len) 8, r)) in
        let! rest :=
          (if total >? WAL_RECORD_HEADER_SIZE then try_read_exact (total - WAL_RECORD_HEADER_SIZE) else mret (Some [])) in
        match rest with
        | None => rollback_to start_lsn ;! mret None
        | Some rest => decode_or_torn start_lsn total header rest
        end
  end.

(** [records()] up to the end of the log or the first error, where every caller
    stops. *)
Fixpoint records (fuel : nat) (r : WalReader) : WalStream * WalReader :=
  match fuel with
  | O => ([Panic], r)
  | S fuel =>
      match next_record r with
      | (Ok None, r) => ([], r)
      | (Ok (Some record), r) => let rest := records fuel r in (Ok record :: fst rest, snd rest)
      | (Err e, r) => ([Err e], r)
      | (Panic, r) => ([Panic], r)
      end
  end.

Definition read_all (r : WalReader) : WalStream * WalReader :=
  records (S (Z.to_nat (wal_limit (rd_files r) (rd_segment_size r)))) r.

(** The log as recovery reads it: what [Analysis] and [Engine] take as
    [wal_open_at]. *)
Definition wal_stream (files : gmap string (list Z)) (segment_size : Z) (start : Lsn) : res StorageError WalStream :=
  let? r := WalReader_open_at files segment_size start in
  Ok (fst (read_all r)).

End reader.

(** ** The log as a byte stream *)

Definition byte_at (files : gmap string (list Z)) (ss p : Z) : option Z :=
  match files !! wal_filename (p / ss) with Some d => d !! Z.to_nat (p mod ss) | None => None end.

Definition has_bytes (files : gmap string (list Z)) (ss pos : Z) (bs : list Z) : Prop :=
  forall (i : nat) b, bs !! i = Some b -> byte_at files ss (pos + Z.of_nat i) = Some b.

(** What [os_read] promises: progress, at most what is there, and no error but an
    I/O error. *)
Definition os_ok (os_read : Z -> Z -> Z -> res StorageError Z) : Prop :=
  forall s o a, 0 < a -> match os_read s o a with Ok n => 0 < n <= a | Err e => e = Io | Panic => False end.
Definition os_never_fails (os_read : Z -> Z -> Z -> res StorageError Z) : Prop :=
  forall s o a, 0 < a -> exists n, os_read s o a = Ok n.

Lemma has_bytes_app files ss pos a b :
  has_bytes files ss pos (a ++ b) <-> has_bytes files ss pos a /\ has_bytes files ss (pos + zlen a) b.
Proof.
  split.
  - intros H. split; intros i x Hx.
    + apply H. by apply lookup_app_l_Some.
    + rewrite <-Z.add_assoc, <-Nat2Z.inj_add. apply H. rewrite lookup_app_r by lia. by replace (length a + i - length a)%nat with i by lia.
  - intros [Ha Hb] i x Hx. apply lookup_app_Some in Hx as [Hx|[Hi Hx]]; [by apply Ha|].
    replace (pos + Z.of_nat i) with (pos + zlen a + Z.of_nat (i - length a)) by lia. by apply Hb.
Qed.

Lemma has_bytes_nil files ss pos : has_bytes files ss pos [].
Proof. intros i b. by rewrite lookup_nil. Qed.

Lemma has_bytes_eq files ss pos a b :
  has_bytes files ss pos a -> has_bytes files ss pos b -> length a = length b -> a = b.
Proof.
  intros Ha Hb Hl. apply list_eq. intros i. destruct (a !! i) as [x|] eqn:Ex.
  - destruct (b !! i) as [y|] eqn:Ey; [|apply lookup_ge_None in Ey; apply lookup_lt_Some in Ex; lia].
    pose proof (Ha _ _ Ex). pose proof (Hb _ _ Ey). congruence.
  - symmetry. apply lookup_ge_None. apply lookup_ge_None in Ex. lia.
Qed.

(** The bytes of one file from an offset on. *)
Lemma has_bytes_slice files ss p n d :
  0 < ss -> files !! wal_filename (p / ss) = Some d -> 0 <= n -> p mod ss + n <= ss -> p mod ss + n <= zlen d ->
  has_bytes files ss p (slice (p mod ss) n d).
Proof.
  intros Hss Hd Hn H1 H2 i b Hb. rewrite lookup_slice in Hb. case_decide as Hi; [|done].
  pose proof (Z.mod_pos_bound p ss Hss) as Hm. pose proof (Z.div_mod p ss) as Hdm.
  assert (Hq : (p + Z.of_nat i) / ss = p / ss) by (symmetry; apply (Z.div_unique _ _ _ (p mod ss + Z.of_nat i)); lia).
  assert (Hr : (p + Z.of_nat i) mod ss = p mod ss + Z.of_nat i) by (symmetry; apply (Z.mod_unique _ _ (p / ss)); lia).
  unfold byte_at. rewrite Hq, Hr, Hd. rewrite <-Hb. f_equal. lia.
Qed.

Section reading.
Variable os_read : Z -> Z -> Z -> res StorageError Z.
Hypothesis Hos : os_ok os_read.
Variable files : gmap string (list Z).
Variable ss : Z.
Hypothesis Hss : 0 < ss.

Definition io_fails : Prop := exists s o a, 0 < a /\ os_read s o a = Err Io.

(** A reader of these files whose open segment exists. *)
Definition reading (r : WalReader) : Prop :=
  rd_files r = files /\ rd_segment_size r = ss /\ exists d, files !! wal_filename (rd_current_segment_id r) = Some d.

Lemma open_segment_spec p r :
  reading r ->
  (open_segment p r = (Ok false, r) /\ files !! wal_filename (p / ss) = None) \/
  exists r', open_segment p r = (Ok true, r') /\ reading r' /\ rd_current_lsn r' = rd_current_lsn r /\
    rd_current_segment_id r' = p / ss.
Proof.
  intros (Hf & Hs & d & Hd). unfold open_segment. rewrite Hf, Hs. unfold Lsn_segment_id.
  destruct (Z.eqb_spec (p / ss) (rd_current_segment_id r)) as [He|He]; cbn [negb].
  - right. exists r. split; [done|]. split; [by repeat split; eauto|]. by split.
  - destruct (files !! wal_filename (p / ss)) as [d'|] eqn:E; [|by left]. right. eexists. split; [done|].
    split; [|done]. split; [done|]. split; [done|]. by exists d'.
Qed.

(** One read at [p] of at most [chunk] bytes of its segment. *)
Lemma read_chunk_spec p chunk r :
  0 <= p -> reading r -> rd_current_segment_id r = p / ss -> 0 < chunk <= ss - p mod ss ->
  (read_chunk os_read (p mod ss) chunk r = (Ok [], r) /\ byte_at files ss p = None) \/
  (exists got, read_chunk os_read (p mod ss) chunk r = (Ok got, r) /\ 0 < zlen got <= chunk /\ has_bytes files ss p got) \/
  (read_chunk os_read (p mod ss) chunk r = (Err Io, r) /\ io_fails).
Proof.
  intros Hp (Hf & Hs & d & Hd) Hid Hc. unfold read_chunk. rewrite Hid in *. rewrite Hf, Hd. change (default [] (Some d)) with d.
  pose proof (Z.mod_pos_bound p ss Hss) as Hm.
  destruct (Z.leb_spec (Z.min chunk (zlen d - p mod ss)) 0) as [Ha|Ha].
  { left. split; [done|]. unfold byte_at. rewrite Hd. apply lookup_ge_None. lia. }
  pose proof (Hos (p / ss) (p mod ss) _ Ha) as Hn.
  destruct (os_read (p / ss) (p mod ss) (Z.min chunk (zlen d - p mod ss))) as [n|e|] eqn:En; [|subst e|done].
  - right; left. eexists. split; [done|]. rewrite length_slice by lia. split; [lia|]. apply has_bytes_slice; [done|done|lia..].
  - right; right. split; [done|]. by do 3 eexists.
Qed.

Lemma read_loop_spec fuel : forall pos len buf r,
  reading r -> 0 <= pos -> pos + len < 2 ^ 64 -> has_bytes files ss pos buf -> zlen buf <= len ->
  len - zlen buf < Z.of_nat fuel ->
  exists out r', read_loop os_read fuel pos len buf r = (out, r') /\ reading r' /\ rd_current_lsn r' = rd_current_lsn r /\
    match out with
    | Ok (Some bs) => zlen bs = len /\ has_bytes files ss pos bs
    | Ok None => exists p, pos <= p < pos + len /\ byte_at files ss p = None
    | Err e => e = Io /\ io_fails
    | Panic => False
    end.
Proof.
  induction fuel as [|fuel IH]; intros pos len buf r Hr Hp Hlen Hb Hl Hf; [lia|]. cbn [read_loop].
  destruct (Z.ltb_spec (zlen buf) len) as [Hlt|Hge].
  2: { eexists _, r. split; [done|]. split; [done|]. split; [done|]. split; [lia|done]. }
  unfold mbindM at 1, mget. unfold wrap64. rewrite Z.mod_small by lia. unfold Lsn_segment_offset.
  set (p := pos + zlen buf). destruct Hr as (Hf1 & Hf2 & Hf3). rewrite Hf2.
  destruct (open_segment_spec p r) as [[Ho Hn]|(r1 & Ho & Hr1 & Hl1 & Hi1)]; [by repeat split| |]; unfold mbindM at 1; rewrite Ho; cbn [negb].
  { eexists _, r. split; [done|]. split; [by repeat split|]. split; [done|]. exists p. split; [unfold p; lia|].
    unfold byte_at. by rewrite Hn. }
  pose proof (Z.mod_pos_bound p ss Hss) as Hm.
  destruct (read_chunk_spec p (Z.min (ss - p mod ss) (len - zlen buf)) r1) as [[Hc Hn]|[(got & Hc & Hg & Hgb)|[Hc Hfail]]];
    [unfold p; lia|done|done|lia| | |]; unfold mbindM at 1; rewrite Hc.
  - eexists _, r1. split; [done|]. split; [done|]. split; [done|]. exists p. split; [unfold p; lia|done].
  - destruct (Z.eqb_spec (zlen got) 0) as [|_]; [lia|].
    destruct (IH pos len (buf ++ got) r1) as (out & r2 & Heq & Hr2 & Hl2 & Hout);
      [done|done|done|by apply has_bytes_app|rewrite length_app; lia|rewrite length_app; lia|].
    exists out, r2. split; [done|]. split; [done|]. split; [congruence|done].
  - eexists _, r1. split; [done|]. split; [done|]. by split.
Qed.

Lemma read_at_spec pos len r :
  reading r -> 0 <= pos -> 0 <= len -> pos + len < 2 ^ 64 ->
  exists out r', try_read_exact_at os_read pos len r = (out, r') /\ reading r' /\ rd_current_lsn r' = rd_current_lsn r /\
    match out with
    | Ok (Some bs) => zlen bs = len /\ has_bytes files ss pos bs
    | Ok None => exists p, pos <= p < pos + len /\ byte_at files ss p = None
    | Err e => e = Io /\ io_fails
    | Panic => False
    end.
Proof.
  intros. apply read_loop_spec; [done..|apply has_bytes_nil|simpl; lia|simpl; lia].
Qed.

(** Reading at the current position moves it only when everything was there. *)
Lemma read_exact_spec len r :
  reading r -> 0 <= rd_current_lsn r -> 0 <= len -> rd_current_lsn r + len < 2 ^ 64 ->
  exists out r', try_read_exact os_read len r = (out, r') /\ reading r' /\
    match out with
    | Ok (Some bs) => zlen bs = len /\ has_bytes files ss (rd_current_lsn r) bs /\ rd_current_lsn r' = rd_current_lsn r + len
    | Ok None => (exists p, rd_current_lsn r <= p < rd_current_lsn r + len /\ byte_at files ss p = None) /\ rd_current_lsn r' = rd_current_lsn r
    | Err e => e = Io /\ io_fails
    | Panic => False
    end.
Proof.
  intros Hr Hp Hl Hb. unfold try_read_exact, mbindM at 1, mget.
  destruct (read_at_spec (rd_current_lsn r) len r) as (out & r' & He & Hr' & Hlsn & Hout); [done..|].
  unfold mbindM at 1. rewrite He. destruct out as [[bs|]|e|]; [| |by eexists _, r'|done].
  - destruct Hout as [Hz Hbs]. unfold mbindM, mmodify, mret. do 2 eexists. split; [done|]. split; [done|].
    split; [done|]. split; [done|]. cbn [set_rd_lsn rd_current_lsn]. rewrite Hlsn. apply Z.mod_small. lia.
  - do 2 eexists. by split.
Qed.

(** The bytes read are the bytes known to be there. *)
Lemma read_exact_known bs r :
  reading r -> 0 <= rd_current_lsn r -> rd_current_lsn r + zlen bs < 2 ^ 64 -> has_bytes files ss (rd_current_lsn r) bs ->
  exists out r', try_read_exact os_read (zlen bs) r = (out, r') /\ reading r' /\
    ((out = Ok (Some bs) /\ rd_current_lsn r' = rd_current_lsn r + zlen bs) \/ (out = Err Io /\ io_fails)).
Proof.
  intros Hr Hp Hlt Hb. destruct (read_exact_spec (zlen bs) r) as (out & r' & He & Hr' & Hout); [done|done|lia|done|].
  exists out, r'. split; [done|]. split; [done|]. destruct out as [[bs'|]|e|]; [| |destruct Hout as [-> ?]; by right|done].
  - destruct Hout as (Hz & Hbs & Hl). left. split; [|done]. do 2 f_equal. eapply has_bytes_eq; [done|done|lia].
  - destruct Hout as [(p & Hpr & Hn) _]. exfalso. set (i := Z.to_nat (p - rd_current_lsn r)).
    destruct (lookup_lt_is_Some_2 bs i) as [b Hbi]; [lia|]. apply Hb in Hbi.
    replace (rd_current_lsn r + Z.of_nat i) with p in Hbi by lia. congruence.
Qed.

(** ** The end of the log *)

Hypothesis Hss8 : 8 <= ss.
Hypothesis Hroom : wal_limit files ss + 2 ^ 17 <= 2 ^ 64.

Lemma file_below_limit p d : 0 <= p < 2 ^ 64 -> files !! wal_filename (p / ss) = Some d -> p < wal_limit files ss.
Proof.
  intros Hp Hd. assert (Hq : 0 <= p / ss < 2 ^ 64 - 1).
  { split; [apply Z.div_pos; lia|]. apply Z.div_lt_upper_bound; nia. }
  assert (Hin : wal_filename (p / ss) ∈ (fst <$> map_to_list files)).
  { apply list_elem_of_fmap. exists (wal_filename (p / ss), d). split; [done|]. by apply elem_of_map_to_list. }
  pose proof (fold_segments_gtb _ _ _ Hin (parse_wal_filename _ Hq)) as Hle. unfold wal_limit.
  pose proof (Z.div_mod p ss). pose proof (Z.mod_pos_bound p ss). nia.
Qed.

Lemma byte_below_limit p b : 0 <= p < 2 ^ 64 -> byte_at files ss p = Some b -> p < wal_limit files ss.
Proof. unfold byte_at. intros Hp Hb. destruct (files !! _) as [d|] eqn:E; [by eapply file_below_limit|done]. Qed.

Lemma bytes_below_limit pos bs :
  0 <= pos -> pos + zlen bs <= 2 ^ 64 -> has_bytes files ss pos bs -> 0 < zlen bs -> pos + zlen bs <= wal_limit files ss.
Proof.
  intros Hp Hl Hb Hn. destruct (lookup_lt_is_Some_2 bs (length bs - 1)) as [x Hx]; [lia|].
  apply Hb, byte_below_limit in Hx; lia.
Qed.

Lemma is_zero_bytes_spec bs : is_zero_bytes bs = true <-> Forall (eq 0) bs.
Proof.
  unfold is_zero_bytes. rewrite forallb_forall, Forall_forall. setoid_rewrite list_elem_of_In. setoid_rewrite Z.eqb_eq. done.
Qed.

Lemma not_zero_bytes bs : is_zero_bytes bs = false -> exists (i : nat) b, bs !! i = Some b /\ b <> 0.
Proof.
  induction bs as [|b bs IH]; [done|]. cbn [is_zero_bytes forallb]. destruct (Z.eqb_spec 0 b) as [<-|Hb].
  - intros H. destruct (IH H) as (i & x & Hi & Hx). by exists (S i), x.
  - intros _. exists 0%nat, b. by split; [|congruence].
Qed.

(** Every byte from [e] on that is there is zero. *)
Definition zeros_from (e : Z) : Prop := forall p b, e <= p < 2 ^ 64 -> byte_at files ss p = Some b -> b = 0.

Lemma zeros_read e pos bs :
  zeros_from e -> e <= pos -> pos + zlen bs <= 2 ^ 64 -> has_bytes files ss pos bs -> is_zero_bytes bs = true.
Proof.
  intros Hz Hp Hle Hb. apply is_zero_bytes_spec, Forall_lookup. intros i b Hi. symmetry. eapply Hz; [|by apply Hb].
  apply lookup_lt_Some in Hi. lia.
Qed.

Lemma zero_tail_spec fuel : forall pos r,
  reading r -> 0 <= pos < 2 ^ 64 -> 0 < Z.of_nat fuel -> wal_limit files ss - pos < Z.of_nat fuel ->
  exists out r', zero_tail os_read fuel pos r = (out, r') /\ reading r' /\ rd_current_lsn r' = rd_current_lsn r /\
    match out with
    | Ok true => exists e, pos <= e /\ byte_at files ss e = None /\ forall q, pos <= q < e -> byte_at files ss q = Some 0
    | Ok false => ~ zeros_from pos
    | Err e => e = Io /\ io_fails
    | Panic => False
    end.
Proof.
  induction fuel as [|fuel IH]; intros pos r Hr Hp H0 Hf; [lia|]. cbn [zero_tail].
  unfold mbindM at 1, mget, Lsn_segment_offset. destruct Hr as (Hf1 & Hf2 & Hf3). rewrite Hf2.
  destruct (open_segment_spec pos r) as [[Ho Hn]|(r1 & Ho & Hr1 & Hl1 & Hi1)]; [by repeat split| |]; unfold mbindM at 1; rewrite Ho; cbn [negb].
  { eexists _, r. split; [done|]. split; [by repeat split|]. split; [done|]. exists pos. split; [lia|].
    split; [unfold byte_at; by rewrite Hn|lia]. }
  pose proof (Z.mod_pos_bound pos ss Hss) as Hm.
  destruct (read_chunk_spec pos (Z.min (ss - pos mod ss) (64 * 1024)) r1) as [[Hc Hn]|[(got & Hc & Hg & Hgb)|[Hc Hfail]]];
    [lia|done|done|lia| | |]; unfold mbindM at 1; rewrite Hc.
  - eexists _, r1. split; [done|]. split; [done|]. split; [done|]. exists pos. split; [lia|]. split; [done|lia].
  - destruct (Z.eqb_spec (zlen got) 0) as [|_]; [lia|].
    assert (Hb : pos < wal_limit files ss).
    { destruct (lookup_lt_is_Some_2 got 0) as [x Hx]; [lia|]. apply Hgb, byte_below_limit in Hx; lia. }
    assert (Hle : pos + zlen got <= wal_limit files ss) by (apply bytes_below_limit; [lia|lia|done|lia]).
    destruct (is_zero_bytes got) eqn:Ez; cbn [negb].
    + unfold wrap64. rewrite Z.mod_small by lia.
      destruct (IH (pos + zlen got) r1) as (out & r2 & Heq & Hr2 & Hl2 & Hout); [done|lia|lia|lia|].
      exists out, r2. split; [done|]. split; [done|]. split; [congruence|]. destruct out as [[]|e|]; [| |done|done].
      * destruct Hout as (e & He & Hn & Hq). exists e. split; [lia|]. split; [done|]. intros q Hqe.
        destruct (decide (q < pos + zlen got)); [|apply Hq; lia].
        destruct (lookup_lt_is_Some_2 got (Z.to_nat (q - pos))) as [x Hx]; [lia|].
        pose proof (Hgb _ _ Hx) as Hxx. apply is_zero_bytes_spec in Ez. eapply Forall_lookup_1 in Ez; [|done]. subst x.
        by replace (pos + Z.of_nat (Z.to_nat (q - pos))) with q in Hxx by lia.
      * intros Hz. apply Hout. intros p b Hpe. apply Hz. lia.
    + eexists _, r1. split; [done|]. split; [done|]. split; [done|]. intros Hz.
      apply (zeros_read pos pos) in Hgb; [congruence|done|lia|lia].
  - eexists _, r1. split; [done|]. split; [done|]. by split.
Qed.

(** ** One record *)

Variable crc32 : list Z -> Z.
Hypothesis crc32_range : forall bs, in_u 32 (crc32 bs).

Abbreviation HDR := WAL_RECORD_HEADER_SIZE.

Lemma reading_set_lsn l r : reading r -> reading (set_rd_lsn l r).
Proof. intros (H1 & H2 & H3). by repeat split. Qed.

Lemma frame_split r : exists rest, frame crc32 r = take 32 (frame crc32 r) ++ rest /\ zlen rest = zlen (frame crc32 r) - 32 /\
  zlen (take 32 (frame crc32 r)) = 32.
Proof.
  exists (drop 32 (frame crc32 r)). split; [symmetry; apply take_drop|].
  pose proof (zlen_frame crc32 r). pose proof (frame_size_spec (zlen (wr_payload r))) as [? _]. unfold WAL_RECORD_HEADER_SIZE in *.
  rewrite length_drop, length_take. lia.
Qed.

Lemma nonzero_header (h : list Z) n : (8 <= length h)%nat -> get_le 8 0 h = n -> n <> 0 -> is_zero_bytes h = false.
Proof.
  intros Hl Hg Hn. destruct (is_zero_bytes h) eqn:E; [|done]. exfalso. apply Hn. rewrite <-Hg. apply is_zero_bytes_spec in E.
  assert (Hz : h = zeros (zlen h)).
  { clear -E. induction E as [|x h <- E IH]; [done|]. cbn [length]. unfold zeros in *. rewrite Nat2Z.id in *. simpl. by f_equal. }
  rewrite Hz. apply get_zeros; lia.
Qed.

(** A whole record at the current position is returned. *)
Lemma next_frame rec r :
  reading r -> 0 <= rd_current_lsn r -> rd_current_lsn r + zlen (frame crc32 rec) < 2 ^ 64 ->
  WalRecord_wf rec -> zlen (wr_payload rec) <= 65535 -> wr_lsn rec <> 0 ->
  has_bytes files ss (rd_current_lsn r) (frame crc32 rec) ->
  exists out r', next_record crc32 os_read r = (out, r') /\ reading r' /\
    ((out = Ok (Some rec) /\ rd_current_lsn r' = rd_current_lsn r + zlen (frame crc32 rec)) \/ (out = Err Io /\ io_fails)).
Proof.
  intros Hr Hp Hlt Hw Hpl Hlsn Hb. destruct (frame_fields crc32 crc32_range rec [] Hw Hpl) as (F1 & _ & _ & _ & _ & F6 & _).
  rewrite app_nil_r in F1, F6. destruct (frame_split rec) as (rest & Hs & Hrl & Hhl). set (h := take 32 (frame crc32 rec)) in *.
  assert (Hz : is_zero_bytes h = false).
  { apply (nonzero_header h (wr_lsn rec)); [lia| |done]. unfold h. by rewrite get_le_take by lia. }
  assert (Hpl2 : get_le 2 26 h = zlen (wr_payload rec)) by (unfold h; by rewrite get_le_take by lia).
  rewrite Hs in Hb. apply has_bytes_app in Hb as [Hb1 Hb2]. unfold next_record, mbindM at 1, mget.
  destruct (read_exact_known h r Hr Hp) as (o1 & r1 & He1 & Hr1 & Ho1); [lia|done|]. rewrite Hhl in He1.
  unfold mbindM at 1. change WAL_RECORD_HEADER_SIZE with 32 at 1. rewrite He1.
  destruct Ho1 as [[-> Hl1]|[-> Hf]]; [|do 2 eexists; split; [done|]; split; [done|]; by right].
  rewrite Hz, Hpl2. unfold mbindM at 1. rewrite align_up_8. fold (frame_size (zlen (wr_payload rec))). rewrite <-(zlen_frame crc32 rec).
  assert (Hdec : WalRecord_decode crc32 (h ++ rest) = Ok (rec, zlen (frame crc32 rec))).
  { rewrite <-Hs. rewrite <-(app_nil_r (frame crc32 rec)) at 1. by apply decode_frame. }
  unfold WAL_RECORD_HEADER_SIZE in *. destruct (Z.gtb_spec (zlen (frame crc32 rec)) 32) as [Hgt|Hle].
  - destruct (read_exact_known rest r1 Hr1) as (o2 & r2 & He2 & Hr2 & Ho2); [lia|lia|rewrite Hl1, Hhl; by rewrite <-Hhl|].
    rewrite <-Hrl. unfold mbindM at 1. rewrite He2.
    destruct Ho2 as [[-> Hl2]|[-> Hf]]; [|do 2 eexists; split; [done|]; split; [done|]; by right].
    unfold decode_or_torn. rewrite Hdec. do 2 eexists. split; [done|]. split; [done|]. left. split; [done|lia].
  - assert (rest = []) as -> by (apply nil_length_inv; lia). unfold mbindM at 1, mret.
    unfold decode_or_torn. rewrite Hdec. do 2 eexists. split; [done|]. split; [done|]. left. split; [done|]. lia.
Qed.

Lemma rollback_none l r : reading r -> exists r', (rollback_to l ;! mret None) r = (@Ok StorageError (option WalRecord) None, r') /\ reading r' /\ rd_current_lsn r' = l.
Proof. intros Hr. eexists. split; [done|]. split; [by apply reading_set_lsn|done]. Qed.

(** Nothing but zeros from here on: the end of the log. *)
Lemma next_end r :
  reading r -> 0 <= rd_current_lsn r -> rd_current_lsn r + 64 < 2 ^ 64 -> zeros_from (rd_current_lsn r) ->
  exists out r', next_record crc32 os_read r = (out, r') /\ reading r' /\
    ((out = Ok None /\ rd_current_lsn r' = rd_current_lsn r) \/ (out = Err Io /\ io_fails)).
Proof.
  intros Hr Hp Hlt Hz. unfold next_record, mbindM at 1, mget, mbindM at 1.
  destruct (read_exact_spec HDR r Hr Hp) as (o1 & r1 & -> & Hr1 & Ho1); [done|unfold WAL_RECORD_HEADER_SIZE; lia|].
  destruct o1 as [[h|]|e|]; [| |destruct Ho1 as [-> ?]; do 2 eexists; split; [done|]; split; [done|]; by right|done].
  2: { do 2 eexists. split; [done|]. split; [done|]. left. split; [done|apply Ho1]. }
  destruct Ho1 as (Hz1 & Hb & _). unfold WAL_RECORD_HEADER_SIZE in Hz1. rewrite (zeros_read (rd_current_lsn r) (rd_current_lsn r)) by (done || lia).
  unfold end_or_hole, mbindM at 1, wrap64. unfold WAL_RECORD_HEADER_SIZE in *. rewrite Z.mod_small by lia.
  destruct (read_at_spec (rd_current_lsn r + 32) 32 r1 Hr1) as (o2 & r2 & -> & Hr2 & _ & Ho2); [lia..|].
  destruct (rollback_none (rd_current_lsn r) r2 Hr2) as (r3 & He3 & Hr3 & Hl3).
  destruct o2 as [[pr|]|e|]; [| |destruct Ho2 as [-> ?]; do 2 eexists; split; [done|]; split; [done|]; by right|done].
  - rewrite (zeros_read (rd_current_lsn r) (rd_current_lsn r + 32)); [|done|lia|destruct Ho2; lia|apply Ho2]. cbn [negb].
    do 2 eexists. split; [done|]. split; [done|]. by left.
  - do 2 eexists. split; [done|]. split; [done|]. by left.
Qed.

(** What a crash can leave of a record under way: the LSN field is there, the
    decoder rejects the bytes, and nothing follows. *)
Definition torn_at (e : Z) (img : list Z) : Prop :=
  let total := frame_size (get_le 2 26 img) in
  32 <= zlen img /\ zlen img = total /\ wf_bytes img /\ has_bytes files ss e img /\ get_le 8 0 img = e /\ e <> 0 /\
  (exists l, WalRecord_decode crc32 img = Err (WalCorrupted l)) /\ zeros_from (e + total).

Lemma next_torn img r :
  reading r -> 0 <= rd_current_lsn r -> rd_current_lsn r + zlen img < 2 ^ 64 -> torn_at (rd_current_lsn r) img ->
  exists out r', next_record crc32 os_read r = (out, r') /\ reading r' /\
    ((out = Ok None /\ rd_current_lsn r' = rd_current_lsn r) \/ (out = Err Io /\ io_fails)).
Proof.
  intros Hr Hp Hlt (Hi & Htot & Hwf & Hb & Hlsn & Hne & (l & Hdec) & Hz). set (e := rd_current_lsn r) in *.
  set (h := take 32 img) in *. assert (Hs : img = h ++ drop 32 img) by (symmetry; apply take_drop).
  assert (Hhl : zlen h = 32) by (unfold h; rewrite length_take; lia).
  assert (Hrl : zlen (drop 32 img) = zlen img - 32) by (rewrite length_drop; lia).
  assert (Hh1 : get_le 8 0 h = e) by (unfold h; by rewrite get_le_take by lia).
  assert (Hh2 : get_le 2 26 h = get_le 2 26 img) by (unfold h; by rewrite get_le_take by lia).
  rewrite Hs in Hb. apply has_bytes_app in Hb as [Hb1 Hb2]. unfold next_record, mbindM at 1, mget.
  destruct (read_exact_known h r Hr Hp) as (o1 & r1 & He1 & Hr1 & Ho1); [fold e; lia|done|]. rewrite Hhl in He1.
  unfold mbindM at 1. change WAL_RECORD_HEADER_SIZE with 32 at 1. rewrite He1.
  destruct Ho1 as [[-> Hl1]|[-> Hf]]; [|do 2 eexists; split; [done|]; split; [done|]; by right].
  rewrite (nonzero_header h e) by (done || lia). rewrite Hh2. unfold mbindM at 1. rewrite align_up_8.
  fold (frame_size (get_le 2 26 img)). rewrite <-Htot in *.
  assert (Hgo : forall r2, reading r2 -> exists out r', decode_or_torn crc32 os_read e (zlen img) h (drop 32 img) r2 = (out, r') /\ reading r' /\
    ((out = Ok None /\ rd_current_lsn r' = e) \/ (out = Err Io /\ io_fails))).
  { intros r2 Hr2. unfold decode_or_torn. rewrite <-Hs, Hdec. unfold is_torn_tail, mbindM at 1. rewrite Hh1, Z.eqb_refl. cbn [negb].
    unfold mbindM at 1, mget. unfold wrap64. rewrite (Z.mod_small (e + zlen img)) by lia.
    destruct Hr2 as (R1 & R2 & R3). rewrite R1, R2.
    destruct (zero_tail_spec (S (Z.to_nat (wal_limit files ss))) (e + zlen img) r2) as (o3 & r3 & -> & Hr3 & _ & Ho3); [by repeat split|lia|lia|lia|].
    destruct o3 as [[]|err|]; [| |destruct Ho3 as [-> ?]; do 2 eexists; split; [done|]; split; [done|]; by right|done].
    - destruct (rollback_none e r3 Hr3) as (r4 & He4 & Hr4 & Hl4). do 2 eexists. split; [done|]. split; [done|]. by left.
    - by destruct Ho3. }
  unfold WAL_RECORD_HEADER_SIZE in *. destruct (Z.gtb_spec (zlen img) 32) as [Hgt|Hle].
  - destruct (read_exact_known (drop 32 img) r1 Hr1) as (o2 & r2 & He2 & Hr2 & Ho2); [lia|lia|rewrite Hl1, Hhl; by rewrite <-Hhl|].
    rewrite <-Hrl. unfold mbindM at 1. rewrite He2.
    destruct Ho2 as [[-> Hl2]|[-> Hf]]; [by apply Hgo|do 2 eexists; split; [done|]; split; [done|]; by right].
  - assert (drop 32 img = []) as Hnil by (apply nil_length_inv; lia). unfold mbindM at 1, mret.
    rewrite <-Hnil. by apply Hgo.
Qed.

(** ** Any bytes: every call returns, and reading a record makes progress *)

Hypothesis Hwf : map_Forall (fun _ d => wf_bytes d) files.

Lemma has_bytes_wf pos bs : has_bytes files ss pos bs -> wf_bytes bs.
Proof.
  intros Hb. apply Forall_lookup. intros i b Hi. apply Hb in Hi. unfold byte_at in Hi.
  destruct (files !! _) as [d|] eqn:E; [|done]. apply Hwf in E. by eapply Forall_lookup_1.
Qed.

Lemma next_total r :
  reading r -> 0 <= rd_current_lsn r <= wal_limit files ss ->
  exists out r', next_record crc32 os_read r = (out, r') /\ reading r' /\
    match out with
    | Ok (Some _) => rd_current_lsn r + 32 <= rd_current_lsn r' <= wal_limit files ss
    | Ok None => rd_current_lsn r' = rd_current_lsn r
    | Err _ => True
    | Panic => False
    end.
Proof.
  intros Hr Hp. unfold next_record, mbindM at 1, mget, mbindM at 1.
  destruct (read_exact_spec HDR r Hr) as (o1 & r1 & -> & Hr1 & Ho1); [lia|done|unfold WAL_RECORD_HEADER_SIZE; lia|].
  destruct o1 as [[h|]|e|]; [|do 2 eexists; split; [done|]; split; [done|]; apply Ho1|by eexists _, r1|done].
  unfold WAL_RECORD_HEADER_SIZE in *. destruct Ho1 as (Hz1 & Hb1 & Hl1). destruct (is_zero_bytes h) eqn:Ez.
  { unfold end_or_hole, mbindM at 1. destruct (rollback_none (rd_current_lsn r)) with r1 as (? & _ & _); [done|].
    unfold wrap64, WAL_RECORD_HEADER_SIZE. rewrite Z.mod_small by lia.
    destruct (read_at_spec (rd_current_lsn r + 32) 32 r1 Hr1) as (o2 & r2 & -> & Hr2 & _ & Ho2); [lia..|].
    destruct (rollback_none (rd_current_lsn r) r2 Hr2) as (r3 & He3 & Hr3 & Hl3).
    destruct o2 as [[pr|]|e|]; [|by eexists _, r3|by eexists _, r2|done].
    destruct (negb _); [by eexists _, r2|by eexists _, r3]. }
  unfold mbindM at 1. rewrite align_up_8. change ((32 + get_le 2 26 h + 7) / 8 * 8) with (frame_size (get_le 2 26 h)). pose proof (has_bytes_wf _ _ Hb1) as Hwh.
  pose proof (get_le_bound 2 26 h Hwh) as Hpl. change (256 ^ Z.of_nat 2) with 65536 in Hpl.
  pose proof (frame_size_spec (get_le 2 26 h)) as [Hfs _]. unfold WAL_RECORD_HEADER_SIZE in *.
  assert (Hgo : forall rest r2, reading r2 -> has_bytes files ss (rd_current_lsn r) (h ++ rest) ->
    rd_current_lsn r2 = rd_current_lsn r + zlen (h ++ rest) -> zlen (h ++ rest) = frame_size (get_le 2 26 h) ->
    exists out r', decode_or_torn crc32 os_read (rd_current_lsn r) (frame_size (get_le 2 26 h)) h rest r2 = (out, r') /\ reading r' /\
    match out with
    | Ok (Some _) => rd_current_lsn r + 32 <= rd_current_lsn r' <= wal_limit files ss
    | Ok None => rd_current_lsn r' = rd_current_lsn r
    | Err _ => True
    | Panic => False
    end).
  { intros rest r2 Hr2 Hb Hl2 Hsz. unfold decode_or_torn. pose proof (decode_no_panic crc32 _ (has_bytes_wf _ _ Hb)) as Hnp.
    rewrite length_app in *. destruct (WalRecord_decode crc32 (h ++ rest)) as [[rec n]|e|]; [| |done].
    - eexists _, r2. split; [done|]. split; [done|]. rewrite Hl2. split; [lia|].
      rewrite <-length_app. apply bytes_below_limit; [lia| |done|]; rewrite length_app; lia.
    - assert (Ht : exists out r', (match e with WalCorrupted _ => is_torn_tail os_read (rd_current_lsn r) (wrap64 (rd_current_lsn r + frame_size (get_le 2 26 h))) h
          | _ => mret false end) r2 = (out, r') /\ reading r' /\ out <> Panic).
      { destruct e; try by eexists _, r2. unfold is_torn_tail. destruct (negb _); [by eexists _, r2|].
        unfold mbindM, mget. unfold wrap64. rewrite Z.mod_small by lia. destruct Hr2 as (R1 & R2 & R3). rewrite R1, R2.
        destruct (zero_tail_spec (S (Z.to_nat (wal_limit files ss))) (rd_current_lsn r + frame_size (get_le 2 26 h)) r2)
          as (o3 & r3 & -> & Hr3 & _ & Ho3); [by repeat split|lia|lia|lia|]. eexists _, r3. split; [done|]. split; [done|]. by intros ->. }
      destruct Ht as (out & r3 & Heq & Hr3 & Hnp3). unfold mbindM at 1. rewrite Heq. destruct out as [[]|e'|]; [|by eexists _, r3|by eexists _, r3|done].
      destruct (rollback_none (rd_current_lsn r) r3 Hr3) as (r4 & He4 & Hr4 & Hl4). by eexists _, r4. }
  destruct (Z.gtb_spec (frame_size (get_le 2 26 h)) 32) as [Hgt|Hle].
  - destruct (read_exact_spec (frame_size (get_le 2 26 h) - 32) r1 Hr1) as (o2 & r2 & He2 & Hr2 & Ho2); [lia..|].
    unfold mbindM at 1. rewrite He2.
    destruct o2 as [[rest|]|e|]; [|destruct (rollback_none (rd_current_lsn r) r2 Hr2) as (r3 & He3 & Hr3 & Hl3); by eexists _, r3|by eexists _, r2|done].
    destruct Ho2 as (Hz2 & Hb2 & Hl2). apply Hgo; [done| |rewrite length_app; lia|rewrite length_app; lia].
    apply has_bytes_app. split; [done|]. by rewrite Hz1, <-Hl1.
  - unfold mbindM at 1, mret. apply Hgo; [done| |rewrite app_nil_r; lia|rewrite app_nil_r; lia]. by rewrite app_nil_r.
Qed.

(** ** The whole log *)

Lemma records_total fuel : forall r,
  reading r -> 0 <= rd_current_lsn r <= wal_limit files ss -> wal_limit files ss - rd_current_lsn r < Z.of_nat fuel ->
  Panic ∉ fst (records crc32 os_read fuel r).
Proof.
  induction fuel as [|fuel IH]; intros r Hr Hp Hf; [lia|]. cbn [records].
  destruct (next_total r Hr Hp) as (out & r' & -> & Hr' & Hout).
  destruct out as [[rec|]|e|]; [| | |done].
  - cbn [fst]. apply not_elem_of_cons. split; [done|]. apply IH; [done|lia|lia].
  - apply not_elem_of_nil.
  - cbn [fst]. apply not_elem_of_cons. split; [done|apply not_elem_of_nil].
Qed.

Definition frames (rs : list WalRecord) : list Z := mjoin (frame crc32 <$> rs).

Lemma frames_cons rec rs : frames (rec :: rs) = frame crc32 rec ++ frames rs.
Proof. done. Qed.

Lemma frames_app rs rs' : frames (rs ++ rs') = frames rs ++ frames rs'.
Proof. unfold frames. by rewrite fmap_app, join_app. Qed.

(** A record the writer produces. *)
Definition good_record (rec : WalRecord) : Prop := WalRecord_wf rec /\ zlen (wr_payload rec) <= 65535 /\ wr_lsn rec <> 0.

Lemma frame_pos rec : 32 <= zlen (frame crc32 rec).
Proof. pose proof (zlen_frame crc32 rec). pose proof (frame_size_spec (zlen (wr_payload rec))). unfold WAL_RECORD_HEADER_SIZE in *. lia. Qed.

Lemma records_frames rs : forall fuel r,
  ~ io_fails -> reading r -> 0 <= rd_current_lsn r <= wal_limit files ss -> Forall good_record rs ->
  has_bytes files ss (rd_current_lsn r) (frames rs) -> rd_current_lsn r + zlen (frames rs) <= 2 ^ 64 ->
  exists r', reading r' /\ rd_current_lsn r' = rd_current_lsn r + zlen (frames rs) /\ rd_current_lsn r' <= wal_limit files ss /\
    records crc32 os_read (length rs + fuel) r =
      ((Ok <$> rs) ++ fst (records crc32 os_read fuel r'), snd (records crc32 os_read fuel r')).
Proof.
  induction rs as [|rec rs IH]; intros fuel r Hio Hr Hp Hg Hb Hlt.
  { exists r. split; [done|]. split; [simpl; lia|]. split; [lia|]. by destruct (records _ _ _ _). }
  inversion Hg as [|? ? (Hw & Hpl & Hlsn) Hg']; subst. rewrite frames_cons in *.
  apply has_bytes_app in Hb as [Hb1 Hb2]. rewrite length_app in *. pose proof (frame_pos rec) as Hfp.
  assert (Hlim : rd_current_lsn r + zlen (frame crc32 rec) <= wal_limit files ss) by (apply bytes_below_limit; [lia|lia|done|lia]).
  destruct (next_frame rec r Hr) as (out & r1 & He & Hr1 & Hout); [lia|lia|done..|].
  destruct Hout as [[-> Hl1]|[_ Hf]]; [|done].
  destruct (IH fuel r1) as (r' & Hr' & Hl' & Hle & Heq); [done|done|lia|done|by rewrite Hl1|lia|].
  exists r'. split; [done|]. split; [lia|]. split; [done|]. cbn [length Nat.add records]. rewrite He, Heq. done.
Qed.

Lemma frames_length rs : 32 * zlen rs <= zlen (frames rs).
Proof.
  induction rs as [|rec rs IH]; [done|]. rewrite frames_cons. cbn [length].
  rewrite length_app. pose proof (frame_pos rec). lia.
Qed.

(** The log ends at [e]: zeros, or what a crash left of the record under way. *)
Definition log_ends (e : Z) : Prop := zeros_from e \/ exists img, torn_at e img.

Lemma read_all_spec rs r :
  ~ io_fails -> reading r -> 0 <= rd_current_lsn r <= wal_limit files ss -> Forall good_record rs ->
  has_bytes files ss (rd_current_lsn r) (frames rs) -> rd_current_lsn r + zlen (frames rs) <= 2 ^ 64 ->
  let e := rd_current_lsn r + zlen (frames rs) in
  exists rest r', read_all crc32 os_read r = ((Ok <$> rs) ++ rest, r') /\ (Panic ∉ rest) /\ reading r' /\
    (log_ends e -> rest = [] /\ rd_current_lsn r' = e).
Proof.
  intros Hio Hr Hp Hg Hb Hlt e. pose proof (frames_length rs) as Hfl. destruct Hr as (R1 & R2 & R3).
  unfold read_all. rewrite R1, R2.
  assert (Hle : rd_current_lsn r + zlen (frames rs) <= wal_limit files ss).
  { destruct (decide (0 < zlen (frames rs))); [apply bytes_below_limit; [lia|lia|done|lia]|lia]. }
  assert (Hfuel : exists k, S (Z.to_nat (wal_limit files ss)) = (length rs + S k)%nat /\ wal_limit files ss - e <= Z.of_nat k).
  { exists (Z.to_nat (wal_limit files ss) - length rs)%nat. subst e. lia. }
  destruct Hfuel as (k & -> & Hk).
  destruct (records_frames rs (S k) r) as (r' & Hr' & Hl' & Hlim' & Heq); [done|by repeat split|done..|].
  rewrite Heq. eexists _, _. split; [done|]. split; [apply records_total; [done|lia|lia]|].
  cbn [records]. split.
  { clear Heq. revert k Hk Hr' Hl' Hlim'. intros k Hk Hr' Hl' Hlim'.
    assert (Hrd : forall fuel r0, reading r0 -> 0 <= rd_current_lsn r0 <= wal_limit files ss -> reading (snd (records crc32 os_read fuel r0))).
    { induction fuel as [|fuel IH]; intros r0 H0 H1; [done|]. cbn [records].
      destruct (next_total r0 H0 H1) as (out & r2 & -> & H2 & Hout). destruct out as [[rec|]|?|]; try done. cbn [snd]. apply IH; [done|lia]. }
    apply (Hrd (S k)); [done|lia]. }
  intros He. assert (Hend : exists out r2, next_record crc32 os_read r' = (out, r2) /\ reading r2 /\
    ((out = Ok None /\ rd_current_lsn r2 = rd_current_lsn r') \/ (out = Err Io /\ io_fails))).
  { subst e. rewrite <-Hl' in He. destruct He as [Hz|(img & Ht)]; [apply next_end; [done|lia|lia|done]|].
    apply (next_torn img); [done|lia| |done]. destruct Ht as (H1 & H2 & Hw & _). rewrite H2.
    pose proof (get_le_bound 2 26 img Hw) as Hpl. change (256 ^ Z.of_nat 2) with 65536 in Hpl.
    pose proof (frame_size_spec (get_le 2 26 img)) as [? _]. unfold WAL_RECORD_HEADER_SIZE in *. lia. }
  destruct Hend as (out & r2 & -> & Hr2 & [[-> Hl2]|[_ ?]]); [|done]. split; [done|]. cbn [snd]. subst e. lia.
Qed.

End reading.

(** ** Properties *)

Lemma not_io_fails os_read : os_never_fails os_read -> ~ io_fails os_read.
Proof. intros Hn (s & o & a & Ha & He). destruct (Hn s o a Ha) as [n Hn']. congruence. Qed.

Lemma open_at_reading files ss start :
  8 <= ss -> ss mod 8 = 0 -> 8 <= start -> start mod 8 = 0 -> is_Some (files !! wal_filename (start / ss)) ->
  exists r, WalReader_open_at files ss start = Ok r /\ reading files ss r /\ rd_current_lsn r = start.
Proof.
  intros H1 H2 H3 H4 [d Hd]. unfold WalReader_open_at, Lsn_is_valid, Lsn_segment_id, LSN_ALIGNMENT.
  rewrite (proj2 (Z.eqb_neq start 0)) by lia. rewrite H4, H2. rewrite (proj2 (Z.eqb_neq ss 0)) by lia. cbn [negb orb Z.eqb].
  rewrite Hd. eexists. split; [done|]. split; [|done]. split; [done|]. split; [done|]. by exists d.
Qed.

Lemma stream_reads_back crc32 os_read files ss start rs :
  (forall bs, in_u 32 (crc32 bs)) -> os_ok os_read -> os_never_fails os_read ->
  8 <= ss -> ss mod 8 = 0 -> 8 <= start -> start mod 8 = 0 -> start + zlen (frames crc32 rs) < 2 ^ 64 ->
  wal_limit files ss + 2 ^ 17 <= 2 ^ 64 -> map_Forall (fun _ d => wf_bytes d) files ->
  is_Some (files !! wal_filename (start / ss)) -> Forall good_record rs -> has_bytes files ss start (frames crc32 rs) ->
  exists rest, wal_stream crc32 os_read files ss start = Ok ((Ok <$> rs) ++ rest) /\ (Panic ∉ rest) /\
    (log_ends files ss crc32 (start + zlen (frames crc32 rs)) -> rest = []).
Proof.
  intros Hcrc Hos Hnf Hss Hal Hst Hsa Hend Hroom Hwf Hfile Hgood Hb.
  destruct (open_at_reading files ss start) as (r & Ho & Hr & Hl); [done..|]. unfold wal_stream. rewrite Ho. cbn [res_bind].
  destruct Hfile as [d Hd]. pose proof (file_below_limit files ss ltac:(lia) Hss start d ltac:(lia) Hd) as Hlt.
  destruct (read_all_spec os_read Hos files ss ltac:(lia) Hss Hroom crc32 Hcrc Hwf rs r) as (rest & r' & He & Hnp & _ & Hle);
    [by apply not_io_fails|done|lia|done|by rewrite Hl|lia|].
  exists rest. rewrite He. split; [done|]. split; [done|]. intros H. apply Hle. by rewrite Hl.
Qed.

(** C25: recovery reads back what was written.  When the segment files hold the
    frames of the records [rs] from [start] on, across any number of segment
    boundaries and however short the reads are, the reader returns exactly these
    records first, and whatever bytes follow it terminates without a panic; when
    only zeros follow, or what an interrupted write left of one more record, the
    log ends there. *)
Theorem wal_read_back crc32 os_read files ss start rs :
  (forall bs, in_u 32 (crc32 bs)) -> os_ok os_read -> os_never_fails os_read ->
  8 <= ss -> ss mod 8 = 0 -> 8 <= start -> start mod 8 = 0 -> start + zlen (frames crc32 rs) < 2 ^ 64 ->
  wal_limit files ss + 2 ^ 17 <= 2 ^ 64 -> map_Forall (fun _ d => wf_bytes d) files ->
  is_Some (files !! wal_filename (start / ss)) -> Forall good_record rs -> has_bytes files ss start (frames crc32 rs) ->
  exists rest, wal_stream crc32 os_read files ss start = Ok ((Ok <$> rs) ++ rest) /\ (Panic ∉ rest) /\
    (log_ends files ss crc32 (start + zlen (frames crc32 rs)) -> rest = []).
Proof. apply stream_reads_back. Qed.

(** A log of two records, the second across a segment boundary, read three bytes
    at a time. *)
Definition demo_log : list WalRecord :=
  [mkWalRecord 8 0 7 HeapInsert 0 [1; 2; 3; 4; 5]; mkWalRecord 48 8 7 TxnCommit 0 [6]].
Definition demo_stream : list Z := zeros 8 ++ frames sum32 demo_log ++ zeros 40.
Definition demo_files : gmap string (list Z) := {[wal_filename 0 := take 64 demo_stream; wal_filename 1 := drop 64 demo_stream]}.
Definition short_read (s o a : Z) : res StorageError Z := Ok (Z.min a 3).

Lemma short_read_ok : os_ok short_read /\ os_never_fails short_read.
Proof. split; intros s o a Ha; unfold short_read; [lia|by eexists]. Qed.

Lemma has_bytes_check files ss pos bs :
  forallb (fun i => bool_decide (byte_at files ss (pos + Z.of_nat i) = bs !! i)) (seq 0 (length bs)) = true -> has_bytes files ss pos bs.
Proof.
  rewrite forallb_forall. intros H i b Hi. specialize (H i). rewrite bool_decide_eq_true in H. rewrite H; [done|].
  apply in_seq. apply lookup_lt_Some in Hi. lia.
Qed.

Lemma zeros_from_check files ss e :
  8 <= ss -> 0 <= e ->
  forallb (fun i => bool_decide (default 0 (byte_at files ss (e + Z.of_nat i)) = 0)) (seq 0 (Z.to_nat (wal_limit files ss - e))) = true ->
  zeros_from files ss e.
Proof.
  rewrite forallb_forall. intros Hss He H p b Hp Hb. pose proof (byte_below_limit files ss ltac:(lia) Hss p b ltac:(lia) Hb).
  specialize (H (Z.to_nat (p - e))). rewrite bool_decide_eq_true in H. replace (e + Z.of_nat (Z.to_nat (p - e))) with p in H by lia.
  rewrite Hb in H. apply H. apply in_seq. lia.
Qed.

Lemma demo_log_good : Forall good_record demo_log.
Proof. repeat constructor; try (vm_compute; congruence); vm_compute; intuition congruence. Qed.

Lemma wal_read_back_witness : wal_stream sum32 short_read demo_files 64 8 = Ok (Ok <$> demo_log).
Proof.
  destruct (wal_read_back sum32 short_read demo_files 64 8 demo_log) as (rest & He & _ & Hr);
    [apply sum32_range|apply short_read_ok|apply short_read_ok|lia|done|lia|done|done|vm_compute; congruence| |by eexists|apply demo_log_good| |].
  - apply (bool_decide_unpack _). vm_compute. exact I.
  - apply has_bytes_check. vm_compute. reflexivity.
  - rewrite He, Hr; [by rewrite app_nil_r|]. left. apply zeros_from_check; [lia|vm_compute; congruence|vm_compute; reflexivity].
Defined.
