(* ===== verification/WalWriter.v ===== *)
(** * The WAL writer ([pg-storage/src/wal/writer.rs])

    The writer's state behind its mutex, the methods, and the group-commit worker
    as the three critical sections of its loop: capture a wave, fsync without the
    lock, publish.  A blocked [flush_to] is its loop body.  Elapsed time is an
    argument; notifications have no state.  The message of a recorded error is
    dropped ([ww_error] says that there is one). *)

From stdpp Require Import strings.
From S2P Require Import Prelude Types WalRecord WalSegment Analysis WalReader.
Local Open Scope Z_scope.
Local Open Scope rust_scope.

Record WalWriter := mkWalWriter {
  ww_lsn_clock : Z;
  ww_segment_manager : WalSegmentManager;
  ww_synced_lsn : Lsn;
  ww_pending : Z;
  ww_flush_requested : bool;
  ww_shutdown : bool;
  ww_error : bool
}.

Definition set_ww_clock (c : Z) (w : WalWriter) : WalWriter :=
  mkWalWriter c (ww_segment_manager w) (ww_synced_lsn w) (ww_pending w) (ww_flush_requested w) (ww_shutdown w) (ww_error w).
Definition set_ww_segs (s : WalSegmentManager) (w : WalWriter) : WalWriter :=
  mkWalWriter (ww_lsn_clock w) s (ww_synced_lsn w) (ww_pending w) (ww_flush_requested w) (ww_shutdown w) (ww_error w).
Definition set_ww_pending (n : Z) (w : WalWriter) : WalWriter :=
  mkWalWriter (ww_lsn_clock w) (ww_segment_manager w) (ww_synced_lsn w) n (ww_flush_requested w) (ww_shutdown w) (ww_error w).
Definition set_ww_requested (w : WalWriter) : WalWriter :=
  mkWalWriter (ww_lsn_clock w) (ww_segment_manager w) (ww_synced_lsn w) (ww_pending w) true (ww_shutdown w) (ww_error w).
(** [last_error = Some(..); shutdown = true] *)
Definition poison (w : WalWriter) : WalWriter :=
  mkWalWriter (ww_lsn_clock w) (ww_segment_manager w) (ww_synced_lsn w) (ww_pending w) (ww_flush_requested w) true true.

Definition on_segs {A : Type} (m : M WalSegmentManager StorageError A) : M WalWriter StorageError A := fun w =>
  let r := m (ww_segment_manager w) in (fst r, set_ww_segs (snd r) w).

Definition check_error : M WalWriter StorageError unit := fun w => (if ww_error w then Err WalWriteFailed else Ok tt, w).

(** [write_record_to_segment(..).inspect_err(..)?] *)
Definition write_or_poison (buf : list Z) (lsn : Lsn) : M WalWriter StorageError unit := fun w =>
  match on_segs (write_record_to_segment buf lsn) w with
  | (Ok tt, w) => (Ok tt, w)
  | (Err e, w) => (Err e, poison w)
  | (Panic, w) => (Panic, w)
  end.

Definition clock_next (size : Z) : M WalWriter StorageError Lsn := fun w =>
  match LsnClock_next (ww_lsn_clock w) size with
  | Ok (lsn, clock) => (Ok lsn, set_ww_clock clock w)
  | _ => (Panic, w)
  end.

Definition clock_reserve (size : Z) : M WalWriter StorageError Lsn := fun w =>
  match LsnClock_reserve (ww_lsn_clock w) size with
  | Ok (lsn, clock) => (Ok lsn, set_ww_clock clock w)
  | _ => (Panic, w)
  end.

Definition lift_res {S E A : Type} (r : res E A) : M S E A := fun s => (r, s).

Section writer.
Variable crc32 : list Z -> Z.

Definition append (record : WalRecord) : M WalWriter StorageError Lsn :=
  check_error ;!
  if zlen (wr_payload record) >? 65535 then mthrow Serialize
  else
    let! size := lift_res (record_size record) in
    let! lsn := clock_next size in
    let! buf := lift_res (WalRecord_encode crc32 (set_lsn lsn record)) in
    write_or_poison buf lsn ;!
    mmodify (fun w => set_ww_pending (ww_pending w + 1) w) ;!
    mret lsn.

(** The same steps under one lock hold. *)
Definition reserve_and_append (record : WalRecord) : M WalWriter StorageError Lsn := append record.

Definition append_at (record : WalRecord) (lsn : Lsn) (reserved_size : Z) : M WalWriter StorageError Lsn :=
  if negb (Lsn_is_valid lsn) || negb (lsn mod LSN_ALIGNMENT =? 0) then mthrow InvalidConfig
  else
    check_error ;!
    let! w := mget in
    if wrap64 (lsn + reserved_size) >? LsnClock_current (ww_lsn_clock w) then mthrow (LsnNotAvailable lsn)
    else if zlen (wr_payload record) >? 65535 then mthrow Serialize
    else
      let! buf := lift_res (WalRecord_encode crc32 (set_lsn lsn record)) in
      if negb (zlen buf =? reserved_size) then mthrow WalWriteFailed
      else
        write_or_poison buf lsn ;!
        mmodify (fun w => set_ww_pending (ww_pending w + 1) w) ;!
        mret lsn.

Definition reserve_lsn (record_size : Z) : M WalWriter StorageError Lsn := check_error ;! clock_reserve record_size.

End writer.

(** [flush_to] up to its loop: [true] when it returns at once. *)
Definition flush_to_enter (lsn : Lsn) : M WalWriter StorageError bool :=
  check_error ;!
  let! w := mget in
  if lsn >? LsnClock_current (ww_lsn_clock w) then mthrow (LsnNotAvailable lsn)
  else if ww_synced_lsn w >=? lsn then mret true
  else mmodify set_ww_requested ;! mret false.

(** One iteration of [while state.synced_lsn < lsn]: [true] when the loop ends,
    [false] when it waits on the condition variable. *)
Definition flush_to_iter (lsn : Lsn) : M WalWriter StorageError bool :=
  let! w := mget in
  if ww_synced_lsn w <? lsn then
    check_error ;!
    if ww_shutdown w then mthrow WalWriteFailed
    else mmodify set_ww_requested ;! mret false
  else mret true.

(** [flush]: the LSN to wait for, if anything is pending. *)
Definition flush_target : M WalWriter StorageError (option Lsn) :=
  check_error ;!
  let! w := mget in
  if ww_pending w =? 0 then mret None else mret (Some (LsnClock_current (ww_lsn_clock w))).

Definition synced_lsn (w : WalWriter) : Lsn := ww_synced_lsn w.
Definition current_lsn (w : WalWriter) : Lsn := LsnClock_current (ww_lsn_clock w).

Definition WalWriter_recycle_before (lsn : Lsn) : M WalWriter StorageError unit :=
  check_error ;!
  let! w := mget in
  if ww_shutdown w then mthrow WalWriteFailed
  else let! _ := on_segs (recycle_before lsn) in mret tt.

(** [Drop]: the shutdown flag, before the worker is joined. *)
Definition WalWriter_drop (w : WalWriter) : WalWriter :=
  mkWalWriter (ww_lsn_clock w) (ww_segment_manager w) (ww_synced_lsn w) (ww_pending w) (ww_flush_requested w) true (ww_error w).

(** ** The group-commit worker *)

Record Wave := mkWave { cover_lsn : Lsn; cover_segment : Z; cover_pending : Z }.

Inductive WorkerStep := Break | Sleep | Continue | Sync (wave : Wave).

(** The first critical section of an iteration. *)
Definition worker_capture (batch_size : Z) (timed_out : bool) (w : WalWriter) : WorkerStep * WalWriter :=
  if ww_shutdown w && (ww_pending w =? 0) then (Break, w)
  else
    let should_flush := (ww_pending w >? 0) &&
      (ww_shutdown w || ww_flush_requested w || (ww_pending w >=? batch_size) || timed_out) in
    if negb should_flush && negb (ww_shutdown w) then (Sleep, w)
    else if ww_pending w =? 0 then (if ww_shutdown w then (Break, w) else (Continue, w))
    else
      let wave := mkWave (LsnClock_current (ww_lsn_clock w)) (sm_current_segment_id (ww_segment_manager w)) (ww_pending w) in
      match on_segs (on_dir dir_call) w with
      | (Ok _, w) => (Sync wave, w)
      | (_, w) => (Break, poison w)
      end.

(** [sync_file.sync_all()] on the duplicated handle, without the lock. *)
Definition worker_fsync (wave : Wave) : M WalWriter StorageError unit :=
  on_segs (on_dir (sync_all (wal_filename (cover_segment wave)))).

(** The second critical section. *)
Definition worker_publish (wave : Wave) (fsync_result : res StorageError unit) (w : WalWriter) : WorkerStep * WalWriter :=
  match fsync_result with
  | Ok _ =>
      let sm := ww_segment_manager w in
      let durable :=
        if sm_current_segment_id sm =? cover_segment wave then cover_lsn wave
        else wrap64 ((cover_segment wave + 1) * sm_segment_size sm) in
      (Continue,
       mkWalWriter (ww_lsn_clock w) sm (Z.max (ww_synced_lsn w) durable) (ww_pending w - cover_pending wave) false
         (ww_shutdown w) (if negb (ww_shutdown w) then false else ww_error w))
  | _ => (Break, poison w)
  end.

(** ** Opening *)

Section opening.
Variable crc32 : list Z -> Z.
Variable os_read : Z -> Z -> Z -> res StorageError Z.

Definition dir_files (d : WalDir) : gmap string (list Z) := f_data <$> wd_entries d.

(** The first error of a stream, if any. *)
Fixpoint stream_result (events : WalStream) : res StorageError unit :=
  match events with
  | [] => Ok tt
  | Ok _ :: events => stream_result events
  | Err e :: _ => Err e
  | Panic :: _ => Panic
  end.

Definition discover_resume_lsn (segment_size : Z) (scan_start_hint : Lsn) : M WalDir StorageError Lsn :=
  let! oldest := discover_oldest_segment_id in
  let oldest_start := if oldest =? 0 then Lsn_FIRST else wrap64 (oldest * segment_size) in
  let scan_start := if Lsn_is_valid scan_start_hint && (scan_start_hint >? oldest_start) then scan_start_hint else oldest_start in
  let! d := mget in
  let! reader := lift_res (WalReader_open_at (dir_files d) segment_size scan_start) in
  let result := read_all crc32 os_read reader in
  let! _ := lift_res (stream_result (fst result)) in
  mret (rd_current_lsn (snd result)).

Definition open_with_segment_manager (sm : WalSegmentManager) (start_lsn initial_synced_lsn : Lsn) : res StorageError WalWriter :=
  match LsnClock_new start_lsn with
  | Ok clock => Ok (mkWalWriter clock sm initial_synced_lsn 0 false false false)
  | _ => Panic
  end.

Definition open_with_scan_start (segment_size : Z) (scan_start_hint : Lsn) : M WalDir StorageError WalWriter :=
  let! sm := WalSegmentManager_open segment_size in
  let! len := metadata_len (current_name sm) in
  let has_existing_records := (sm_current_segment_id sm >? 0) || (len >? 0) in
  let! start_lsn := (if has_existing_records then discover_resume_lsn segment_size scan_start_hint else mret Lsn_FIRST) in
  let initial_synced_lsn := if start_lsn >? Lsn_FIRST then start_lsn else Lsn_INVALID in
  let! d := mget in
  lift_res (open_with_segment_manager (mkSegMgr d (sm_segment_size sm) (sm_current_segment_id sm)) start_lsn initial_synced_lsn).

Definition WalWriter_open (segment_size : Z) : M WalDir StorageError WalWriter := open_with_scan_start segment_size Lsn_INVALID.

Definition WalWriter_open_at (segment_size : Z) (start_lsn : Lsn) : M WalDir StorageError WalWriter :=
  if negb (Lsn_is_valid start_lsn) || negb (start_lsn mod LSN_ALIGNMENT =? 0) then mthrow InvalidConfig
  else
    let! sm := WalSegmentManager_open segment_size in
    if negb (Lsn_segment_id start_lsn segment_size =? sm_current_segment_id sm) then mthrow InvalidConfig
    else lift_res (open_with_segment_manager sm start_lsn start_lsn).

End opening.

(** ** Lemmas: what the operations keep of the directory *)

Definition valid_id (id : Z) : Prop := 0 <= id < 2 ^ 60.
Definition seg (d : WalDir) (id : Z) : option File := wd_entries d !! wal_filename id.

Lemma seg_name_inj i j : valid_id i -> valid_id j -> wal_filename i = wal_filename j -> i = j.
Proof. unfold valid_id. intros. by apply wal_filename_inj; [lia|lia|]. Qed.

Definition file_keeps (upto : Z) (f f' : File) : Prop :=
  forall (i : nat) b, Z.of_nat i < upto -> f_data f !! i = Some b ->
    f_data f' !! i = Some b /\ (f_stable f !! i = Some b -> f_stable f' !! i = Some b).

Lemma file_keeps_refl n f : file_keeps n f f.
Proof. intros i b _ Hb. by split. Qed.
#[local] Hint Resolve file_keeps_refl : core.

(** Every byte of the stream below [n], its durability and that of its file
    survive. *)
Definition dkeeps (ss n : Z) (d d' : WalDir) : Prop :=
  forall id f, valid_id id -> seg d id = Some f ->
    exists f', seg d' id = Some f' /\ (wal_filename id ∈ wd_linked d -> wal_filename id ∈ wd_linked d') /\
      file_keeps (Z.min ss (n - id * ss)) f f'.

#[export] Instance dkeeps_po ss n : PreOrder (dkeeps ss n).
Proof.
  split.
  - intros d id f _ Hf. exists f. auto.
  - intros d1 d2 d3 H1 H2 id f Hv Hf. destruct (H1 id f Hv Hf) as (f2 & Hf2 & Hl2 & Hk2).
    destruct (H2 id f2 Hv Hf2) as (f3 & Hf3 & Hl3 & Hk3). exists f3. split; [done|]. split; [by auto|].
    intros i b Hi Hb. destruct (Hk2 i b Hi Hb) as [Hd Hs]. destruct (Hk3 i b Hi Hd) as [Hd' Hs']. by auto.
Qed.

Lemma dkeeps_same ss n d d' : wd_entries d' = wd_entries d -> wd_linked d' = wd_linked d -> dkeeps ss n d d'.
Proof. intros He Hl id f _ Hf. exists f. unfold seg. rewrite He, Hl. auto. Qed.

Lemma dkeeps_alter ss n d d' id0 g :
  wd_entries d' = alter g (wal_filename id0) (wd_entries d) -> wd_linked d' = wd_linked d -> valid_id id0 ->
  (forall f, seg d id0 = Some f -> file_keeps (Z.min ss (n - id0 * ss)) f (g f)) -> dkeeps ss n d d'.
Proof.
  intros He Hl Hv0 Hg id f Hv Hf. unfold seg in *. rewrite He, Hl. destruct (decide (id = id0)) as [->|Hne].
  - rewrite lookup_alter_eq, Hf. exists (g f). auto.
  - rewrite lookup_alter_ne by (intros H%seg_name_inj; auto). exists f. auto.
Qed.

Lemma dir_call_spec d out d' :
  dir_call d = (out, d') -> wd_entries d' = wd_entries d /\ wd_linked d' = wd_linked d /\ (out = Ok tt \/ out = Err Io).
Proof. unfold dir_call. intros [= <- <-]. split; [done|]. split; [done|]. destruct (hd _ _); auto. Qed.

(** A call that changes the files by [f] when it succeeds. *)
Lemma call_then d out d' f :
  (dir_call ;! on_entries f) d = (out, d') ->
  wd_linked d' = wd_linked d /\
  ((out = Ok tt /\ wd_entries d' = f (wd_entries d)) \/ (out = Err Io /\ wd_entries d' = wd_entries d)).
Proof.
  unfold mbindM. destruct (dir_call d) as [o d1] eqn:E. apply dir_call_spec in E as (He & Hl & [->| ->]); intros [= <- <-]; auto.
  cbn [wd_linked wd_entries]. rewrite <-He. auto.
Qed.

Lemma sync_all_spec id ss n d out d' :
  valid_id id -> sync_all (wal_filename id) d = (out, d') ->
  dkeeps ss n d d' /\ wd_linked d' = wd_linked d /\ (forall j, valid_id j -> j <> id -> seg d' j = seg d j) /\
  (out = Ok tt \/ out = Err Io) /\
  (out = Ok tt -> seg d' id = (fun f => mkFile (f_data f) (f_data f)) <$> seg d id) /\
  (forall f, seg d id = Some f -> exists f', seg d' id = Some f' /\ f_data f' = f_data f).
Proof.
  intros Hv H. apply call_then in H as (Hl & [[-> He]|[-> He]]).
  - split; [|split; [done|split; [|split; [by left|]]]].
    + eapply dkeeps_alter; [done|done|done|]. intros f _ i b _ Hb. by split.
    + intros j Hj Hne. unfold seg. rewrite He, lookup_alter_ne; [done|]. intros ?%seg_name_inj; auto.
    + unfold seg. rewrite He, lookup_alter_eq. split; [done|]. intros f ->. by eexists.
  - split; [by apply dkeeps_same|]. split; [done|]. split; [intros; unfold seg; by rewrite He|]. split; [by right|].
    split; [done|]. intros f Hf. exists f. unfold seg in *. by rewrite He.
Qed.

Lemma sync_dir_spec ss n d out d' :
  sync_dir d = (out, d') ->
  dkeeps ss n d d' /\ wd_entries d' = wd_entries d /\ (out = Ok tt \/ out = Err Io) /\
  (out = Ok tt -> wd_linked d' = dom (wd_entries d)).
Proof.
  unfold sync_dir, mbindM. destruct (dir_call d) as [o1 d1] eqn:E1. apply dir_call_spec in E1 as (He1 & Hl1 & [->| ->]).
  2: { intros [= <- <-]. split; [by apply dkeeps_same|]. split; [done|]. split; [by right|done]. }
  destruct (dir_call d1) as [o2 d2] eqn:E2. apply dir_call_spec in E2 as (He2 & Hl2 & [->| ->]).
  2: { intros [= <- <-]. split; [apply dkeeps_same; congruence|]. split; [congruence|]. split; [by right|done]. }
  intros [= <- <-]. cbn [wd_entries wd_linked]. split; [|split; [congruence|split; [by left|congruence]]].
  intros id f Hv Hf. exists f. unfold seg in *. cbn [wd_entries wd_linked]. rewrite He2, He1. split; [done|]. split; [|done].
  intros _. by apply elem_of_dom_2 in Hf.
Qed.

Lemma seek_write_spec id off bs ss n d out d' :
  valid_id id -> 0 <= off -> n <= id * ss + off -> seek_write_all (wal_filename id) off bs d = (out, d') ->
  dkeeps ss n d d' /\ wd_linked d' = wd_linked d /\ (forall j, valid_id j -> j <> id -> seg d' j = seg d j) /\
  (out = Ok tt \/ out = Err Io) /\
  (forall f, seg d id = Some f -> off + zlen bs <= zlen (f_data f) ->
     exists f', seg d' id = Some f' /\ zlen (f_data f') = zlen (f_data f) /\ (out = Ok tt -> f_data f' = splice off bs (f_data f))).
Proof.
  intros Hv Hoff Hn. unfold seek_write_all, mbindM. destruct (dir_call d) as [o1 d1] eqn:E1.
  apply dir_call_spec in E1 as (He & Hl & [->| ->]).
  2: { intros [= <- <-]. split; [by apply dkeeps_same|]. split; [done|]. split; [intros; unfold seg; by rewrite He|]. split; [by right|].
       intros f Hf _. exists f. unfold seg in *. by rewrite He. }
  set (bs' := match hd None (wd_io d1) with None => bs | Some k => take k bs end). intros [= <- <-].
  assert (Hbs' : zlen bs' <= zlen bs) by (unfold bs'; destruct (hd _ _); [rewrite length_take; lia|lia]).
  split; [|split; [done|split; [|split]]].
  - eapply dkeeps_alter; [cbn [wd_entries]; by rewrite He|done|done|]. intros f _ i b Hi Hb. cbn [f_data f_stable]. split; [|done].
    unfold pwrite. rewrite lookup_splice, decide_False by lia. by apply lookup_app_l_Some.
  - intros j Hj Hne. unfold seg. cbn [wd_entries]. rewrite lookup_alter_ne, He; [done|]. intros ?%seg_name_inj; auto.
  - destruct (hd _ _); auto.
  - intros f Hf Hlen. unfold seg in *. cbn [wd_entries]. rewrite lookup_alter_eq, He, Hf. cbn [fmap option_fmap option_map].
    eexists. split; [done|]. cbn [f_data]. unfold pwrite.
    replace (zeros (off + zlen bs' - zlen (f_data f))) with (@nil Z) by (unfold zeros; replace (Z.to_nat _) with 0%nat by lia; done).
    rewrite app_nil_r, length_splice. split; [done|]. unfold bs'. destruct (hd _ _); [done|by intros _].
Qed.

Lemma open_create_spec id ss n d out d' :
  valid_id id -> open_create (wal_filename id) d = (out, d') ->
  dkeeps ss n d d' /\ wd_linked d' = wd_linked d /\ (forall j, valid_id j -> j <> id -> seg d' j = seg d j) /\
  (out = Ok tt \/ out = Err Io) /\ (out = Ok tt -> exists f, seg d' id = Some f).
Proof.
  intros Hv H. apply call_then in H as (Hl & [[-> He]|[-> He]]).
  - destruct (wd_entries d !! wal_filename id) as [f|] eqn:E.
    + split; [by apply dkeeps_same|]. split; [done|]. split; [intros; unfold seg; by rewrite He|]. split; [by left|].
      intros _. exists f. unfold seg. by rewrite He.
    + split; [|split; [done|split; [|split; [by left|]]]].
      * intros j f Hj Hf. exists f. unfold seg in *. rewrite He, lookup_insert_ne, Hl by congruence. auto.
      * intros j Hj Hne. unfold seg. rewrite He, lookup_insert_ne; [done|]. intros ?%seg_name_inj; auto.
      * intros _. eexists. unfold seg. by rewrite He, lookup_insert_eq.
  - split; [by apply dkeeps_same|]. split; [done|]. split; [intros; unfold seg; by rewrite He|]. split; [by right|done].
Qed.

Lemma preallocate_spec id ss n d out d' :
  valid_id id -> 0 <= ss -> preallocate_file (wal_filename id) ss d = (out, d') ->
  dkeeps ss n d d' /\ wd_linked d' = wd_linked d /\ (forall j, valid_id j -> j <> id -> seg d' j = seg d j) /\
  (out = Ok tt \/ out = Err Io) /\
  (out = Ok tt -> forall f, seg d id = Some f -> exists f', seg d' id = Some f' /\ zlen (f_data f') = ss).
Proof.
  intros Hv Hss H. apply call_then in H as (Hl & [[-> He]|[-> He]]).
  - split; [|split; [done|split; [|split; [by left|]]]].
    + eapply dkeeps_alter; [done|done|done|]. intros f _ i b Hi Hb. cbn [f_data f_stable]. split; [|done].
      apply lookup_app_l_Some. rewrite lookup_take_lt by lia. done.
    + intros j Hj Hne. unfold seg. rewrite He, lookup_alter_ne; [done|]. intros ?%seg_name_inj; auto.
    + intros _ f Hf. unfold seg in *. rewrite He, lookup_alter_eq, Hf. eexists. split; [done|]. cbn [f_data].
      rewrite length_app, length_take, length_zeros. lia.
  - split; [by apply dkeeps_same|]. split; [done|]. split; [intros; unfold seg; by rewrite He|]. split; [by right|done].
Qed.

Lemma metadata_len_spec name d out d' :
  metadata_len name d = (out, d') ->
  wd_entries d' = wd_entries d /\ wd_linked d' = wd_linked d /\
  (out = Err Io \/ exists f, wd_entries d !! name = Some f /\ out = Ok (zlen (f_data f))).
Proof.
  unfold metadata_len, mbindM. destruct (dir_call d) as [o1 d1] eqn:E1. apply dir_call_spec in E1 as (He & Hl & [->| ->]).
  2: { intros [= <- <-]. auto. }
  unfold mget. rewrite He. destruct (wd_entries d !! name) as [f|]; intros [= <- <-]; eauto 10.
Qed.

Lemma open_segment_file_spec id ss n d out d' :
  valid_id id -> 0 <= ss -> open_segment_file id ss d = (out, d') ->
  dkeeps ss n d d' /\ wd_linked d' = wd_linked d /\ (forall j, valid_id j -> j <> id -> seg d' j = seg d j) /\
  (out = Ok tt \/ out = Err Io) /\
  (out = Ok tt -> exists f, seg d' id = Some f /\ zlen (f_data f) = ss /\ f_stable f = f_data f).
Proof.
  intros Hv Hss. unfold open_segment_file, mbindM at 1. destruct (open_create (wal_filename id) d) as [o1 d1] eqn:E1.
  eapply (open_create_spec id ss n) in E1 as (K1 & L1 & S1 & O1 & F1); [|done].
  destruct O1 as [->| ->]; [|intros [= <- <-]; repeat (split; [by auto|]); done]. destruct (F1 eq_refl) as [f1 Hf1].
  unfold mbindM at 1. destruct (metadata_len (wal_filename id) d1) as [o2 d2] eqn:E2.
  apply metadata_len_spec in E2 as (He2 & L2 & O2). assert (K2 : dkeeps ss n d1 d2) by by apply dkeeps_same.
  assert (S2 : forall j, seg d2 j = seg d1 j) by (intros; unfold seg; by rewrite He2).
  destruct O2 as [->|(f2 & Hf2 & ->)].
  { intros [= <- <-]. split; [by etrans|]. split; [congruence|]. split; [intros; rewrite S2; auto|]. split; [by right|done]. }
  assert (f2 = f1) as -> by (unfold seg in Hf1; congruence). rewrite <-S2 in Hf1.
  assert (Hmid : forall o3 d3, (if negb (zlen (f_data f1) =? ss) then preallocate_file (wal_filename id) ss else mret tt) d2 = (o3, d3) ->
    dkeeps ss n d2 d3 /\ wd_linked d3 = wd_linked d2 /\ (forall j, valid_id j -> j <> id -> seg d3 j = seg d2 j) /\
    (o3 = Ok tt \/ o3 = Err Io) /\ (o3 = Ok tt -> exists f', seg d3 id = Some f' /\ zlen (f_data f') = ss)).
  { intros o3 d3. destruct (Z.eqb_spec (zlen (f_data f1)) ss) as [Heq|Hne]; cbn [negb].
    - intros [= <- <-]. split; [done|]. split; [done|]. split; [done|]. split; [by left|]. intros _. by exists f1.
    - intros H3. eapply (preallocate_spec id ss n) in H3 as (K3 & L3 & S3 & O3 & F3); [|done|done]. repeat (split; [done|]). eauto. }
  unfold mbindM at 1. destruct ((if negb (zlen (f_data f1) =? ss) then preallocate_file (wal_filename id) ss else mret tt) d2) as [o3 d3]. destruct (Hmid o3 d3 eq_refl) as (K3 & L3 & S3 & O3 & F3). clear Hmid.
  assert (K13 : dkeeps ss n d d3) by (etrans; [done|]; by etrans).
  assert (S13 : forall j, valid_id j -> j <> id -> seg d3 j = seg d j) by (intros j Hj Hne; rewrite S3, S2, S1; done).
  destruct O3 as [->| ->]; [|intros [= <- <-]; split; [done|]; split; [congruence|]; split; [done|]; split; [by right|done]].
  destruct (F3 eq_refl) as (f3 & Hf3 & Hz3). intros H4. eapply (sync_all_spec id ss n) in H4 as (K4 & L4 & S4 & O4 & F4 & _); [|done].
  split; [by etrans|]. split; [congruence|]. split; [intros; rewrite S4; auto|]. split; [done|]. intros Ho. rewrite (F4 Ho), Hf3.
  eexists. split; [done|]. by split.
Qed.

(** ** The segments of a writer *)

(** File names whose directory entry is not known to be durable, and which a
    crash is assumed to keep.  [WalSegmentManager::open] creates the first segment
    file of a fresh directory without an fsync of the directory, so what a flush
    guarantees is stated relative to such a set; files created by rotation never
    belong to it. *)
Class KeptEntries := kept : gset string.

Section segments.
Context {ke : KeptEntries}.

Lemma linked_or_kept (name : string) (l l' : gset string) :
  (name ∈ l -> name ∈ l') -> name ∈ l ∪ kept -> name ∈ l' ∪ kept.
Proof. rewrite !elem_of_union. tauto. Qed.

Record segs_ok (sm : WalSegmentManager) : Prop := {
  so_size : 8 <= sm_segment_size sm;
  so_align : sm_segment_size sm mod 8 = 0;
  so_current : valid_id (sm_current_segment_id sm);
  so_file : exists f, seg (sm_dir sm) (sm_current_segment_id sm) = Some f;
  so_len : forall id f, valid_id id -> id <= sm_current_segment_id sm -> seg (sm_dir sm) id = Some f ->
             zlen (f_data f) = sm_segment_size sm /\ wal_filename id ∈ wd_linked (sm_dir sm) ∪ kept;
  so_old : forall id f, valid_id id -> id < sm_current_segment_id sm -> seg (sm_dir sm) id = Some f -> f_stable f = f_data f
}.

Lemma on_dir_inv {A} (m : M WalDir StorageError A) sm out sm' :
  on_dir m sm = (out, sm') -> m (sm_dir sm) = (out, sm_dir sm') /\ sm_segment_size sm' = sm_segment_size sm /\
    sm_current_segment_id sm' = sm_current_segment_id sm.
Proof. unfold on_dir. intros [= <- <-]. by destruct (m (sm_dir sm)). Qed.

(** A change of the directory that leaves the old segments and the length of the
    current one alone. *)
Lemma segs_ok_dir sm sm' :
  segs_ok sm -> sm_segment_size sm' = sm_segment_size sm -> sm_current_segment_id sm' = sm_current_segment_id sm ->
  (forall id, valid_id id -> id < sm_current_segment_id sm -> seg (sm_dir sm') id = seg (sm_dir sm) id) ->
  (forall f, seg (sm_dir sm) (sm_current_segment_id sm) = Some f ->
     exists f', seg (sm_dir sm') (sm_current_segment_id sm) = Some f' /\ zlen (f_data f') = zlen (f_data f)) ->
  (forall id f, valid_id id -> id <= sm_current_segment_id sm -> seg (sm_dir sm) id = Some f ->
     wal_filename id ∈ wd_linked (sm_dir sm) -> wal_filename id ∈ wd_linked (sm_dir sm')) ->
  segs_ok sm'.
Proof.
  intros [H1 H2 H3 H4 H5 H6] Hs Hc Hold Hcur Hlink. destruct H4 as [f0 Hf0]. destruct (Hcur f0 Hf0) as (f0' & Hf0' & Hl0').
  split; rewrite ?Hs, ?Hc; try done.
  - by exists f0'.
  - intros id f Hv Hle Hf. destruct (decide (id = sm_current_segment_id sm)) as [->|Hne].
    + assert (f = f0') as -> by congruence. destruct (H5 _ _ Hv Hle Hf0) as [Hl Hk]. split; [congruence|].
      eapply linked_or_kept; [|exact Hk]. by eapply Hlink.
    + rewrite Hold in Hf by (done || lia). destruct (H5 _ _ Hv Hle Hf) as [Hl Hk]. split; [done|].
      eapply linked_or_kept; [|exact Hk]. by eapply Hlink.
  - intros id f Hv Hlt Hf. rewrite Hold in Hf by done. by eapply H6.
Qed.

Definition set_current (id : Z) (sm : WalSegmentManager) : WalSegmentManager := mkSegMgr (sm_dir sm) (sm_segment_size sm) id.

(** What every operation on the segments gives, whether it succeeds or fails. *)
Record segs_step (n : Z) (sm sm' : WalSegmentManager) : Prop := {
  ss_ok : segs_ok sm';
  ss_keeps : dkeeps (sm_segment_size sm) n (sm_dir sm) (sm_dir sm');
  ss_size : sm_segment_size sm' = sm_segment_size sm;
  ss_current : sm_current_segment_id sm <= sm_current_segment_id sm'
}.

Lemma segs_step_refl n sm : segs_ok sm -> segs_step n sm sm.
Proof. intros H. by split. Qed.

Lemma segs_step_trans n a b c : segs_step n a b -> segs_step n b c -> segs_step n a c.
Proof. intros [A1 A2 A3 A4] [B1 B2 B3 B4]. rewrite A3 in *. split; [done|by etrans|congruence|lia]. Qed.

Lemma dkeeps_weaken ss n m d d' : m <= n -> dkeeps ss n d d' -> dkeeps ss m d d'.
Proof.
  intros Hm Hk id f Hv Hf. destruct (Hk id f Hv Hf) as (f' & Hf' & Hl & Hb). exists f'. split; [done|]. split; [done|].
  intros i b Hi. apply Hb. lia.
Qed.

Lemma segs_step_weaken n m a b : m <= n -> segs_step n a b -> segs_step m a b.
Proof. intros Hm [A1 A2 A3 A4]. split; [done|by eapply dkeeps_weaken|done|done]. Qed.

Lemma sync_current_spec n sm out sm' :
  segs_ok sm -> on_dir (sync_all (current_name sm)) sm = (out, sm') ->
  segs_step n sm sm' /\ sm_current_segment_id sm' = sm_current_segment_id sm /\ (out = Ok tt \/ out = Err Io) /\
  (out = Ok tt -> forall f, seg (sm_dir sm') (sm_current_segment_id sm) = Some f -> f_stable f = f_data f).
Proof.
  intros Hok H. apply on_dir_inv in H as (H & Hs & Hc). pose proof (so_current _ Hok) as Hv.
  eapply (sync_all_spec (sm_current_segment_id sm) (sm_segment_size sm) n) in H as (K & L & S & O & F & D); [|done].
  split; [|split; [done|split; [done|]]].
  - split; [|done|done|lia]. eapply segs_ok_dir; [done|done|done| | |].
    + intros id Hid Hlt. apply S; [done|lia].
    + intros f Hf. destruct (D f Hf) as (f' & Hf' & He). exists f'. split; [done|]. by rewrite He.
    + intros. by rewrite L.
  - intros Ho f Hf. rewrite (F Ho) in Hf. destruct (seg (sm_dir sm) _); simplify_eq/=. done.
Qed.

Lemma rotate_spec n sm out sm' :
  segs_ok sm -> valid_id (sm_current_segment_id sm + 1) -> rotate sm = (out, sm') ->
  segs_step n sm sm' /\
  ((out = Ok tt /\ sm_current_segment_id sm' = sm_current_segment_id sm + 1) \/ out = Err Io).
Proof.
  intros Hok Hv1. unfold rotate, mbindM at 1, mget. unfold wrap64.
  rewrite Z.mod_small by (unfold valid_id in Hv1; pose proof (so_current _ Hok) as []; lia).
  set (cur := sm_current_segment_id sm) in *. unfold mbindM at 1.
  destruct (on_dir (sync_all (current_name sm)) sm) as [o1 s1] eqn:E1.
  eapply (sync_current_spec n) in E1 as (St1 & C1 & O1 & F1); [|done]. pose proof (ss_size _ _ _ St1) as Z1.
  destruct O1 as [->| ->]; [|intros [= <- <-]; by auto]. specialize (F1 eq_refl). fold cur in F1, C1.
  unfold mbindM at 1. destruct (on_dir (open_segment_file (cur + 1) (sm_segment_size sm)) s1) as [o2 s2] eqn:E2.
  apply on_dir_inv in E2 as (E2 & Z2 & C2). pose proof (so_size _ Hok) as H8.
  eapply (open_segment_file_spec (cur + 1) (sm_segment_size sm) n) in E2 as (K2 & L2 & S2 & O2 & F2); [|done|lia].
  pose proof (so_current _ Hok) as Hv.
  assert (St2 : segs_step n s1 s2).
  { split; [|by rewrite Z1|done|lia]. eapply segs_ok_dir; [apply St1|done|done| | |].
    - intros id Hid Hlt. apply S2; [done|lia].
    - intros f Hf. exists f. rewrite C1 in *. rewrite S2; [done|done|lia].
    - intros. by rewrite L2. }
  pose proof (segs_step_trans _ _ _ _ St1 St2) as St12. destruct O2 as [->| ->]; [|intros [= <- <-]; by auto].
  destruct (F2 eq_refl) as (fn & Hfn & Hln & Hsn).
  unfold mbindM at 1. destruct (on_dir sync_dir s2) as [o3 s3] eqn:E3. apply on_dir_inv in E3 as (E3 & Z3 & C3).
  eapply (sync_dir_spec (sm_segment_size sm) n) in E3 as (K3 & En3 & O3 & L3).
  assert (Hseg3 : forall id, seg (sm_dir s3) id = seg (sm_dir s2) id) by (intros; unfold seg; by rewrite En3).
  assert (St3 : segs_step n s2 s3).
  { split; [|rewrite Z2, Z1; done|done|lia]. eapply segs_ok_dir; [apply St2|done|done| | |].
    - intros. apply Hseg3.
    - intros f Hf. exists f. by rewrite Hseg3.
    - intros id f Hid Hle Hf Hl. destruct (K3 id f Hid Hf) as (_ & _ & Hl' & _). auto. }
  pose proof (segs_step_trans _ _ _ _ St12 St3) as St. destruct O3 as [->| ->]; [|intros [= <- <-]; by auto].
  intros [= <- <-]. split; [|left; split; [done|]; cbn [sm_current_segment_id]; done].
  destruct St as [[P1 P2 P3 P4 P5 P6] Kk Zz Cc]. split; [|done|done|cbn [sm_current_segment_id]; lia].
  assert (Hcur3 : sm_current_segment_id s3 = cur) by (rewrite C3, C2; done).
  split; cbn [sm_dir sm_segment_size sm_current_segment_id]; [done|done|done| | |].
  - exists fn. by rewrite Hseg3.
  - intros id f Hid Hle Hf. split.
    + destruct (decide (id = cur + 1)) as [->|Hne]; [rewrite Hseg3 in Hf; congruence|]. apply P5 with id; [done|lia|done].
    + apply elem_of_union_l. rewrite (L3 eq_refl). rewrite <-En3. unfold seg in Hf. by apply elem_of_dom_2 in Hf.
  - intros id f Hid Hlt Hf. destruct (decide (id = cur)) as [->|Hne].
    + rewrite Hseg3, S2 in Hf by (done || lia). by apply F1.
    + apply P6 with id; [done|lia|done].
Qed.

Lemma rotate_loop_spec n k : forall sm out sm',
  segs_ok sm -> valid_id (sm_current_segment_id sm + Z.of_nat k) -> rotate_loop k sm = (out, sm') ->
  segs_step n sm sm' /\
  ((out = Ok tt /\ sm_current_segment_id sm' = sm_current_segment_id sm + Z.of_nat k) \/ out = Err Io).
Proof.
  induction k as [|k IH]; intros sm out sm' Hok Hv.
  { intros [= <- <-]. split; [by apply segs_step_refl|]. left. split; [done|lia]. }
  cbn [rotate_loop]. unfold mbindM. destruct (rotate sm) as [o1 s1] eqn:E1. pose proof (so_current _ Hok) as Hc. unfold valid_id in *.
  eapply (rotate_spec n) in E1 as (St & Ho1); [|done|unfold valid_id; lia]. destruct Ho1 as [[-> C1]| ->]; [|intros [= <- <-]; by auto].
  intros H. apply IH in H as (St2 & Ho); [|apply St|lia]. split; [by eapply segs_step_trans|].
  destruct Ho as [[-> C2]| ->]; [left; split; [done|lia]|by right].
Qed.

Lemma ensure_spec n lsn sm out sm' :
  segs_ok sm -> valid_id (lsn / sm_segment_size sm) -> ensure_for_write lsn sm = (out, sm') ->
  segs_step n sm sm' /\
  ((out = Ok tt /\ sm_current_segment_id sm' = lsn / sm_segment_size sm) \/ (out = Err Io) \/
   (out = Err WalWriteFailed /\ sm' = sm /\ lsn / sm_segment_size sm < sm_current_segment_id sm)).
Proof.
  intros Hok Hv. unfold ensure_for_write, mbindM, mget, Lsn_segment_id.
  destruct (Z.eqb_spec (lsn / sm_segment_size sm) (sm_current_segment_id sm)) as [He|Hne].
  { intros [= <- <-]. split; [by apply segs_step_refl|]. by left. }
  destruct (Z.ltb_spec (lsn / sm_segment_size sm) (sm_current_segment_id sm)) as [Hlt|Hge].
  { intros [= <- <-]. split; [by apply segs_step_refl|]. by auto. }
  pose proof (so_current _ Hok) as Hc. unfold valid_id in *.
  intros H. eapply (rotate_loop_spec n) in H as (St & Ho); [|done|unfold valid_id; lia]. split; [done|].
  destruct Ho as [[-> C2]| ->]; [left; split; [done|lia]|by auto].
Qed.

(** ** Bytes of the stream in a directory *)

Definition dbyte (d : WalDir) (ss p : Z) : option Z := byte_at (dir_files d) ss p.
Definition dbytes (d : WalDir) (ss pos : Z) (bs : list Z) : Prop := has_bytes (dir_files d) ss pos bs.

(** The byte at [p] is on stable storage, in a file whose entry is, or is kept. *)
Definition stable_at (d : WalDir) (ss p : Z) : Prop :=
  exists f b, seg d (p / ss) = Some f /\ wal_filename (p / ss) ∈ wd_linked d ∪ kept /\
    f_data f !! Z.to_nat (p mod ss) = Some b /\ f_stable f !! Z.to_nat (p mod ss) = Some b.

Lemma dbyte_seg d ss p b :
  dbyte d ss p = Some b <-> exists f, seg d (p / ss) = Some f /\ f_data f !! Z.to_nat (p mod ss) = Some b.
Proof.
  unfold dbyte, byte_at, dir_files, seg. rewrite lookup_fmap. destruct (wd_entries d !! _) as [f|]; simpl; naive_solver.
Qed.

Lemma pos_id ss p : 8 <= ss -> 0 <= p < 2 ^ 63 -> valid_id (p / ss).
Proof. intros. unfold valid_id. split; [apply Z.div_pos; lia|]. apply Z.div_lt_upper_bound; nia. Qed.

Lemma dkeeps_dbyte ss n d d' p b :
  8 <= ss -> dkeeps ss n d d' -> 0 <= p < 2 ^ 63 -> p < n -> dbyte d ss p = Some b -> dbyte d' ss p = Some b.
Proof.
  intros Hss Hk Hp Hn (f & Hf & Hb)%dbyte_seg. pose proof (Z.mod_pos_bound p ss). pose proof (Z.div_mod p ss).
  destruct (Hk (p / ss) f (pos_id _ _ Hss Hp) Hf) as (f' & Hf' & _ & Hfk). apply dbyte_seg. exists f'. split; [done|].
  apply (Hfk _ b); [lia|done].
Qed.

Lemma dkeeps_stable ss n d d' p :
  8 <= ss -> dkeeps ss n d d' -> 0 <= p < 2 ^ 63 -> p < n -> stable_at d ss p -> stable_at d' ss p.
Proof.
  intros Hss Hk Hp Hn (f & b & Hf & Hl & Hb & Hs). pose proof (Z.mod_pos_bound p ss). pose proof (Z.div_mod p ss).
  destruct (Hk (p / ss) f (pos_id _ _ Hss Hp) Hf) as (f' & Hf' & Hl' & Hfk). destruct (Hfk (Z.to_nat (p mod ss)) b) as [H1 H2]; [lia|done|].
  exists f', b. split; [done|]. split; [|by auto].
  by eapply linked_or_kept.
Qed.

Lemma dkeeps_dbytes ss n d d' pos bs :
  8 <= ss -> dkeeps ss n d d' -> 0 <= pos -> pos + zlen bs <= n -> n <= 2 ^ 63 -> dbytes d ss pos bs -> dbytes d' ss pos bs.
Proof.
  intros Hss Hk Hp Hn Hb H i b Hi. pose proof (lookup_lt_Some _ _ _ Hi). eapply dkeeps_dbyte; [done|done|lia|lia|]. by apply H.
Qed.

(** The old segments are stable. *)
Lemma old_stable sm p b :
  segs_ok sm -> 0 <= p < 2 ^ 63 -> p / sm_segment_size sm < sm_current_segment_id sm ->
  dbyte (sm_dir sm) (sm_segment_size sm) p = Some b -> stable_at (sm_dir sm) (sm_segment_size sm) p.
Proof.
  intros Hok Hp Hlt (f & Hf & Hb)%dbyte_seg. pose proof (pos_id _ _ (so_size _ Hok) Hp) as Hv. exists f, b. split; [done|].
  split; [eapply so_len; [done|done| |done]; lia|]. split; [done|]. by rewrite (so_old _ Hok _ _ Hv Hlt Hf).
Qed.

(** ** Writing a record *)

Lemma write_loop_spec fuel : forall lsn buf written sm,
  segs_ok sm -> 0 <= lsn -> lsn + zlen buf < 2 ^ 63 -> 0 <= written <= zlen buf -> zlen buf - written < Z.of_nat fuel ->
  dbytes (sm_dir sm) (sm_segment_size sm) lsn (take (Z.to_nat written) buf) ->
  (0 < written -> sm_current_segment_id sm * sm_segment_size sm < lsn + written <= (sm_current_segment_id sm + 1) * sm_segment_size sm) ->
  exists out sm', write_loop fuel lsn buf written sm = (out, sm') /\ segs_step (lsn + written) sm sm' /\ out <> Panic /\
    (out = Ok tt -> dbytes (sm_dir sm') (sm_segment_size sm) lsn buf /\
       (0 < zlen buf -> sm_current_segment_id sm' * sm_segment_size sm < lsn + zlen buf <=
                        (sm_current_segment_id sm' + 1) * sm_segment_size sm)).
Proof.
  induction fuel as [|fuel IH]; intros lsn buf written sm Hok Hl Hlt Hw Hf Hb Hend; [lia|]. cbn [write_loop].
  destruct (Z.ltb_spec written (zlen buf)) as [Hlt2|Hge].
  2: { eexists _, sm. split; [done|]. split; [by apply segs_step_refl|]. split; [done|]. intros _.
       replace (Z.to_nat written) with (length buf) in Hb by lia. rewrite firstn_all in Hb. split; [done|]. intros.
       replace (zlen buf) with written by lia. apply Hend. lia. }
  pose proof (so_size _ Hok) as H8. set (ss := sm_segment_size sm) in *.
  unfold mbindM at 1, mget. unfold wrap64. rewrite Z.mod_small by lia. unfold Lsn_segment_offset. fold ss.
  set (pos := lsn + written) in *. pose proof (Z.mod_pos_bound pos ss) as Hm. pose proof (Z.div_mod pos ss) as Hdm.
  set (chunk := Z.min (ss - pos mod ss) (zlen buf - written)) in *. assert (Hv : valid_id (pos / ss)) by (apply pos_id; lia).
  unfold mbindM at 1. destruct (ensure_for_write pos sm) as [o1 s1] eqn:E1.
  eapply (ensure_spec pos) in E1 as (St1 & O1); [|done|done].
  destruct O1 as [[-> C1]|[->|(-> & -> & _)]]; [|by eexists _, s1|by eexists _, sm].
  fold ss in C1. pose proof (ss_ok _ _ _ St1) as Hok1. pose proof (ss_size _ _ _ St1) as Z1. fold ss in Z1.
  unfold mbindM at 1, mget. unfold mbindM at 1. unfold current_name at 1. rewrite C1.
  destruct (on_dir (seek_write_all (wal_filename (pos / ss)) (pos mod ss) (slice written chunk buf)) s1) as [o2 s2] eqn:E2.
  apply on_dir_inv in E2 as (E2 & Z2 & C2). rewrite Z1 in Z2.
  eapply (seek_write_spec (pos / ss) (pos mod ss) _ ss pos) in E2 as (K2 & L2 & S2 & O2 & F2); [|done|lia|lia].
  assert (Hsl : zlen (slice written chunk buf) = chunk) by (rewrite length_slice; lia).
  destruct (so_file _ Hok1) as [f1 Hf1]. rewrite C1 in Hf1.
  destruct (so_len _ Hok1 _ f1 Hv) as [Hlen1 _]; [lia|done|]. rewrite Z1 in Hlen1.
  destruct (F2 f1 Hf1) as (f2 & Hf2 & Hlen2 & Hd2); [lia|].
  assert (St2 : segs_step pos s1 s2).
  { split; [|by rewrite Z1|by rewrite Z2|lia]. eapply segs_ok_dir; [done|by rewrite Z2|done| | |].
    - intros id Hid Hlt3. apply S2; [done|lia].
    - rewrite C1. intros f Hf3. assert (f = f1) as -> by congruence. by exists f2.
    - intros. by rewrite L2. }
  pose proof (segs_step_trans _ _ _ _ St1 St2) as St12. destruct O2 as [->| ->]; [|by eexists _, s2].
  assert (Hnew : dbytes (sm_dir s2) ss lsn (take (Z.to_nat (written + chunk)) buf)).
  { replace (take (Z.to_nat (written + chunk)) buf) with (take (Z.to_nat written) buf ++ slice written chunk buf).
    2: { unfold slice. rewrite take_take_drop. f_equal. lia. }
    apply has_bytes_app. split.
    - eapply (dkeeps_dbytes ss pos); [done|apply St12|done|rewrite length_take; lia|lia|done].
    - rewrite length_take. replace (lsn + Z.of_nat (Z.to_nat written `min` length buf)) with pos by lia.
      intros i b Hi. apply dbyte_seg. pose proof (lookup_lt_Some _ _ _ Hi).
      assert (Hq : (pos + Z.of_nat i) / ss = pos / ss) by (symmetry; apply (Z.div_unique _ _ _ (pos mod ss + Z.of_nat i)); lia).
      assert (Hr : (pos + Z.of_nat i) mod ss = pos mod ss + Z.of_nat i) by (symmetry; apply (Z.mod_unique _ _ (pos / ss)); lia).
      rewrite Hq, Hr. exists f2. split; [done|]. rewrite (Hd2 eq_refl), lookup_splice, decide_True, decide_True by lia.
      rewrite <-Hi. f_equal. lia. }
  assert (Hmid : exists o3 s3, (if (written + chunk <? zlen buf) && (pos mod ss + chunk =? ss) then on_dir (sync_all (current_name s1)) else mret tt) s2 = (o3, s3) /\
    segs_step (pos + chunk) s2 s3 /\ sm_current_segment_id s3 = sm_current_segment_id s2 /\ (o3 = Ok tt \/ o3 = Err Io)).
  { assert (Hcn : current_name s1 = current_name s2) by (unfold current_name; by rewrite C2).
    destruct (_ && _); [|eexists _, s2; split; [done|]; split; [apply segs_step_refl, St2|by auto]].
    rewrite Hcn. destruct (on_dir (sync_all (current_name s2)) s2) as [o3 s3] eqn:E3.
    eapply (sync_current_spec (pos + chunk)) in E3 as (St3 & C3 & O3 & _); [|apply St2]. by eexists _, s3. }
  destruct Hmid as (o3 & s3 & Hm3 & St3 & C3 & O3). unfold mbindM at 1. rewrite Hm3.
  pose proof (ss_size _ _ _ St3) as Z3. rewrite Z2 in Z3.
  assert (St13 : segs_step pos sm s3) by (eapply segs_step_trans; [done|]; eapply segs_step_weaken; [|done]; lia).
  destruct O3 as [->| ->]; [|by eexists _, s3].
  destruct (IH lsn buf (written + chunk) s3) as (out & s4 & He4 & St4 & Hnp & Hres); [apply St3|done|done|lia|lia| | |].
  - rewrite Z3. eapply (dkeeps_dbytes ss (pos + chunk)); [done|rewrite <-Z2; apply St3|done|rewrite length_take; lia|lia|done].
  - intros _. rewrite C3, C2, C1, Z3. nia.
  - rewrite Z3 in *. exists out, s4. split; [done|]. split; [|by split].
    eapply segs_step_trans; [done|]. eapply segs_step_weaken; [|done]. lia.
Qed.

Lemma write_record_spec buf lsn sm :
  segs_ok sm -> 0 <= lsn -> lsn + zlen buf < 2 ^ 63 ->
  exists out sm', write_record_to_segment buf lsn sm = (out, sm') /\ segs_step lsn sm sm' /\ out <> Panic /\
    (out = Ok tt -> dbytes (sm_dir sm') (sm_segment_size sm) lsn buf /\
       (0 < zlen buf -> sm_current_segment_id sm' * sm_segment_size sm < lsn + zlen buf <=
                        (sm_current_segment_id sm' + 1) * sm_segment_size sm)).
Proof.
  intros Hok Hl Hlt. unfold write_record_to_segment, mbindM, mget.
  destruct (_ >? _); [eexists _, sm; split; [done|]; split; [by apply segs_step_refl|]; by split|].
  destruct (write_loop_spec (S (length buf)) lsn buf 0 sm) as (out & sm' & He & St & Hr); [done|done|done|lia|lia|apply has_bytes_nil|lia|].
  rewrite Z.add_0_r in St. by exists out, sm'.
Qed.

End segments.
