(* ===== verification/WalDurable.v ===== *)
(** * Group commit: what a flush of the log guarantees

    The writer of [WalWriter] as a system of interleaved steps: appends of any
    number of threads, the three critical sections of the worker, [flush_to]
    waiters, recycling and shutdown, over every outcome of the system calls.  The
    log of records, and the segment up to which files were recycled, are ghost
    state.  Appends at reserved positions ([reserve_lsn], [append_at]) are not
    steps: no caller of the library uses them. *)

From stdpp Require Import strings.
From S2P Require Import Prelude Types WalRecord WalSegment Analysis WalReader WalWriter.
Local Open Scope Z_scope.
Local Open Scope rust_scope.

Section system.
Context {ke : KeptEntries}.
Variable crc32 : list Z -> Z.

Record WalSys := mkSys {
  sys_writer : WalWriter;
  sys_log : list WalRecord;
  sys_low : Z;
  (** the wave in flight, and the outcome of its fsync once it is known *)
  sys_wave : option (Wave * option bool)
}.

(** The caller's record has fields of their width. *)
Definition record_ok (rec : WalRecord) : Prop := WalRecord_wf (set_lsn 0 rec).

Inductive wal_step : WalSys -> WalSys -> Prop :=
| step_append rec lsn w w' log low wave :
    record_ok rec -> ww_lsn_clock w + frame_size (zlen (wr_payload rec)) < 2 ^ 62 ->
    append crc32 rec w = (Ok lsn, w') ->
    wal_step (mkSys w log low wave) (mkSys w' (log ++ [set_lsn lsn rec]) low wave)
| step_append_fails rec e w w' log low wave :
    record_ok rec -> ww_lsn_clock w + frame_size (zlen (wr_payload rec)) < 2 ^ 62 ->
    append crc32 rec w = (Err e, w') ->
    wal_step (mkSys w log low wave) (mkSys w' log low wave)
| step_flush_enter lsn out w w' log low wave :
    flush_to_enter lsn w = (out, w') -> wal_step (mkSys w log low wave) (mkSys w' log low wave)
| step_flush_iter lsn out w w' log low wave :
    flush_to_iter lsn w = (out, w') -> wal_step (mkSys w log low wave) (mkSys w' log low wave)
| step_recycle lsn out w w' log low wave :
    0 <= lsn -> WalWriter_recycle_before lsn w = (out, w') ->
    wal_step (mkSys w log low wave)
      (mkSys w' log (Z.max low (Z.min (Lsn_segment_id lsn (sm_segment_size (ww_segment_manager w)))
                                      (sm_current_segment_id (ww_segment_manager w)))) wave)
| step_drop w log low wave : wal_step (mkSys w log low wave) (mkSys (WalWriter_drop w) log low wave)
| step_capture batch timed_out wave w w' log low :
    worker_capture batch timed_out w = (Sync wave, w') ->
    wal_step (mkSys w log low None) (mkSys w' log low (Some (wave, None)))
| step_idle batch timed_out st w w' log low :
    worker_capture batch timed_out w = (st, w') -> (forall wave, st <> Sync wave) ->
    wal_step (mkSys w log low None) (mkSys w' log low None)
| step_fsync wave r w w' log low :
    worker_fsync wave w = (r, w') ->
    wal_step (mkSys w log low (Some (wave, None))) (mkSys w' log low (Some (wave, Some (res_is_ok r))))
| step_publish wave ok st w w' log low :
    worker_publish wave (if ok : bool then Ok tt else Err Io) w = (st, w') ->
    wal_step (mkSys w log low (Some (wave, Some ok))) (mkSys w' log low None).

(** ** The invariant *)

Definition log_end (start : Z) (s : WalSys) : Z := start + zlen (frames crc32 (sys_log s)).

Record wal_inv (start : Z) (s : WalSys) : Prop := {
  i_segs : segs_ok (ww_segment_manager (sys_writer s));
  i_start : 8 <= start;
  i_clock : log_end start s <= ww_lsn_clock (sys_writer s) < 2 ^ 62;
  i_at_end : ww_error (sys_writer s) = false -> ww_lsn_clock (sys_writer s) = log_end start s;
  i_poison : ww_error (sys_writer s) = true -> ww_shutdown (sys_writer s) = true;
  i_written : log_end start s <=
    (sm_current_segment_id (ww_segment_manager (sys_writer s)) + 1) * sm_segment_size (ww_segment_manager (sys_writer s));
  i_in_segment : ww_error (sys_writer s) = false ->
    sm_current_segment_id (ww_segment_manager (sys_writer s)) * sm_segment_size (ww_segment_manager (sys_writer s)) <= log_end start s;
  i_synced_end : ww_error (sys_writer s) = false -> ww_synced_lsn (sys_writer s) <= log_end start s;
  i_good : Forall good_record (sys_log s);
  i_bytes : forall (i : nat) b, frames crc32 (sys_log s) !! i = Some b ->
    sys_low s * sm_segment_size (ww_segment_manager (sys_writer s)) <= start + Z.of_nat i ->
    dbyte (sm_dir (ww_segment_manager (sys_writer s))) (sm_segment_size (ww_segment_manager (sys_writer s))) (start + Z.of_nat i) = Some b;
  i_synced : forall p, start <= p < log_end start s ->
    sys_low s * sm_segment_size (ww_segment_manager (sys_writer s)) <= p -> p < ww_synced_lsn (sys_writer s) ->
    stable_at (sm_dir (ww_segment_manager (sys_writer s))) (sm_segment_size (ww_segment_manager (sys_writer s))) p;
  i_wave : forall wave r, sys_wave s = Some (wave, r) ->
    let sm := ww_segment_manager (sys_writer s) in
    valid_id (cover_segment wave) /\ cover_segment wave <= sm_current_segment_id sm /\
    (cover_lsn wave <= log_end start s /\ cover_lsn wave <= (cover_segment wave + 1) * sm_segment_size sm \/
     (ww_error (sys_writer s) = true /\ log_end start s <= (cover_segment wave + 1) * sm_segment_size sm)) /\
    (r = Some true -> forall p, start <= p < log_end start s -> sys_low s * sm_segment_size sm <= p -> p < cover_lsn wave ->
       p / sm_segment_size sm = cover_segment wave -> stable_at (sm_dir sm) (sm_segment_size sm) p)
}.

(** A step that keeps the log: the segments evolve, the flags may be raised. *)
Lemma inv_same_log start s w' :
  wal_inv start s ->
  segs_step (log_end start s) (ww_segment_manager (sys_writer s)) (ww_segment_manager w') ->
  ww_lsn_clock (sys_writer s) <= ww_lsn_clock w' < 2 ^ 62 ->
  (ww_error w' = false -> ww_error (sys_writer s) = false /\ ww_lsn_clock w' = ww_lsn_clock (sys_writer s) /\
     sm_current_segment_id (ww_segment_manager w') = sm_current_segment_id (ww_segment_manager (sys_writer s))) ->
  (ww_error w' = true -> ww_shutdown w' = true) ->
  ww_synced_lsn w' = ww_synced_lsn (sys_writer s) ->
  wal_inv start (mkSys w' (sys_log s) (sys_low s) (sys_wave s)).
Proof.
  intros [I1 I2 I3 I4 I5 I6 I6a I6b I7 I8 I9 I10] [S1 S2 S3 S4] Hc He Hp Hs. unfold log_end in *. cbn [sys_log sys_writer sys_low sys_wave] in *.
  pose proof (so_size _ I1) as H8. pose proof (so_current _ I1) as Hcur.
  split; unfold log_end; cbn [sys_log sys_writer sys_low sys_wave]; rewrite ?S3; try done.
  - lia.
  - intros H. destruct (He H) as (Hf & Heq & _). rewrite Heq. by apply I4.
  - nia.
  - intros H. destruct (He H) as (Hf & _ & ->). by apply I6a.
  - intros H. destruct (He H) as (Hf & _). rewrite Hs. by apply I6b.
  - intros i b Hi Hl. pose proof (lookup_lt_Some _ _ _ Hi). eapply dkeeps_dbyte; [done|done|lia|lia|]. by apply I8.
  - intros p Hp1 Hl Hlt. rewrite Hs in Hlt. eapply dkeeps_stable; [done|done|lia|lia|]. by apply I9.
  - intros wave r Hw. destruct (I10 wave r Hw) as (W1 & W2 & W3 & W4). split; [done|]. split; [lia|].
    split.
    + destruct W3 as [W3|[W3 W3']]; [by left|]. right. split; [|done]. destruct (ww_error w') eqn:E; [done|].
      destruct (He eq_refl). congruence.
    + intros Hr p Hp1 Hl Hlt Hd. eapply dkeeps_stable; [done|done|lia|lia|]. by apply W4.
Qed.

(** Only the flags change. *)
Lemma inv_flags start s w' :
  wal_inv start s -> ww_segment_manager w' = ww_segment_manager (sys_writer s) -> ww_lsn_clock w' = ww_lsn_clock (sys_writer s) ->
  ww_error w' = ww_error (sys_writer s) -> (ww_shutdown (sys_writer s) = true -> ww_shutdown w' = true) ->
  ww_synced_lsn w' = ww_synced_lsn (sys_writer s) ->
  wal_inv start (mkSys w' (sys_log s) (sys_low s) (sys_wave s)).
Proof.
  intros Hi Hs Hc He Hd Hy. apply inv_same_log; [done| |pose proof (i_clock _ _ Hi); lia|rewrite He, Hc, Hs; done| |done].
  - rewrite Hs. apply segs_step_refl, Hi.
  - rewrite He. intros H. by apply Hd, (i_poison _ _ Hi).
Qed.

(** ** Appends *)

Definition advanced (rec : WalRecord) (w : WalWriter) : WalWriter :=
  set_ww_clock (ww_lsn_clock w + frame_size (zlen (wr_payload rec))) w.

Lemma append_cases rec w :
  0 <= ww_lsn_clock w -> ww_lsn_clock w + frame_size (zlen (wr_payload rec)) < 2 ^ 62 ->
  let lsn := ww_lsn_clock w in
  let written := write_record_to_segment (frame crc32 (set_lsn lsn rec)) lsn (ww_segment_manager w) in
  let w1 := set_ww_segs (snd written) (advanced rec w) in
  append crc32 rec w =
    if ww_error w then (Err WalWriteFailed, w)
    else if zlen (wr_payload rec) >? 65535 then (Err Serialize, w)
    else match fst written with
         | Ok _ => (Ok lsn, set_ww_pending (ww_pending w + 1) w1)
         | Err e => (Err e, poison w1)
         | Panic => (Panic, w1)
         end.
Proof.
  intros Hc Hlt lsn written w1. unfold append, check_error, mbindM at 1. destruct (ww_error w); [done|].
  destruct (zlen (wr_payload rec) >? 65535) eqn:Ep; [done|].
  unfold mbindM at 1, lift_res at 1. unfold record_size. rewrite align_up_8. fold (frame_size (zlen (wr_payload rec))).
  pose proof (frame_size_spec (zlen (wr_payload rec))) as [Hf1 Hf2]. unfold WAL_RECORD_HEADER_SIZE in Hf1.
  unfold mbindM at 1, clock_next, LsnClock_next.
  destruct (Z.gtb_spec (frame_size (zlen (wr_payload rec))) 0) as [_|]; [|lia]. cbn [negb].
  change LSN_ALIGNMENT with 8. rewrite Hf2, Z.eqb_refl. unfold wrap64. rewrite Z.mod_small by lia.
  unfold mbindM at 1, lift_res. rewrite encode_frame. cbn [set_lsn wr_payload]. rewrite Ep.
  fold (advanced rec w). unfold mbindM at 1, write_or_poison, on_segs. cbn [advanced set_ww_clock ww_segment_manager].
  fold (set_lsn (ww_lsn_clock w) rec). fold lsn. fold written. subst w1. destruct (fst written) as [[]|e|]; reflexivity.
Qed.

Lemma good_append rec lsn : record_ok rec -> 0 < lsn < 2 ^ 64 -> zlen (wr_payload rec) <= 65535 -> good_record (set_lsn lsn rec).
Proof.
  intros (H1 & H2 & H3 & H4 & H5) Hl Hp. split; [|split; [done|change (wr_lsn (set_lsn lsn rec)) with lsn; lia]].
  split; [change (wr_lsn (set_lsn lsn rec)) with lsn; unfold in_u; lia|]. exact (conj H2 (conj H3 (conj H4 H5))).
Qed.

Lemma inv_append start s rec lsn w' :
  wal_inv start s -> record_ok rec -> ww_lsn_clock (sys_writer s) + frame_size (zlen (wr_payload rec)) < 2 ^ 62 ->
  append crc32 rec (sys_writer s) = (Ok lsn, w') ->
  lsn = log_end start s /\ wal_inv start (mkSys w' (sys_log s ++ [set_lsn lsn rec]) (sys_low s) (sys_wave s)).
Proof.
  intros Hi Hr Hlt H. pose proof (i_clock _ _ Hi) as Hc. pose proof (i_start _ _ Hi) as Hst.
  assert (He0 : start <= log_end start s) by (unfold log_end; lia).
  rewrite append_cases in H by lia. destruct (ww_error (sys_writer s)) eqn:Ee; [done|].
  pose proof (i_at_end _ _ Hi Ee) as Hat. set (c := ww_lsn_clock (sys_writer s)) in *.
  destruct (zlen (wr_payload rec) >? 65535) eqn:Ep; [done|]. zbool.
  pose proof (zlen_frame crc32 (set_lsn c rec)) as Hzf. change (wr_payload (set_lsn c rec)) with (wr_payload rec) in Hzf.
  destruct (write_record_spec (frame crc32 (set_lsn c rec)) c (ww_segment_manager (sys_writer s))) as (out & sm' & Hw & St & Hnp & Hok);
    [apply Hi|lia|rewrite Hzf; lia|]. rewrite Hw in H. cbn [fst snd] in H. destruct out as [[]|e|]; [|done|done].
  injection H as <- <-. split; [done|]. destruct (Hok eq_refl) as [Hb Hend]. pose proof (frame_pos crc32 (set_lsn c rec)) as Hfp.
  specialize (Hend ltac:(lia)). destruct Hi as [I1 I2 I3 I4 I5 I6 I6a I6b I7 I8 I9 I10]. specialize (I6a Ee). specialize (I6b Ee).
  assert (Hfr : frames crc32 [set_lsn c rec] = frame crc32 (set_lsn c rec)) by (unfold frames; simpl; by rewrite app_nil_r).
  assert (Hle : forall w, log_end start (mkSys w (sys_log s ++ [set_lsn c rec]) (sys_low s) (sys_wave s)) = c + zlen (frame crc32 (set_lsn c rec))).
  { intros w. unfold log_end in *. cbn [sys_log]. rewrite frames_app, Hfr, length_app, Hat. lia. }
  destruct St as [S1 S2 S3 S4]. pose proof (so_size _ I1) as H8.
  split; rewrite ?Hle; cbn [set_ww_pending set_ww_segs advanced set_ww_clock ww_segment_manager ww_lsn_clock ww_error ww_shutdown ww_synced_lsn sys_writer sys_log sys_low sys_wave];
    fold c; rewrite ?S3; try done; try lia.
  - apply Forall_app. split; [done|]. constructor; [|done]. apply good_append; [done|lia|lia].
  - intros i b Hib Hl. rewrite frames_app, Hfr in Hib. apply lookup_app_Some in Hib as [Hib|[Hge Hib]].
    + pose proof (lookup_lt_Some _ _ _ Hib). unfold log_end in Hat.
      eapply (dkeeps_dbyte _ c); [done|done|lia|lia|]. by apply I8.
    + apply Hb in Hib. unfold dbyte. rewrite <-Hib. f_equal. unfold log_end in Hat. lia.
  - intros p Hp Hl Hs. eapply (dkeeps_stable _ c); [done|done|lia|lia|]. apply I9; [lia|done|done].
  - intros wave r Hwv. destruct (I10 wave r Hwv) as (W1 & W2 & W3 & W4). split; [done|]. split; [lia|].
    destruct W3 as [[W3 W3']|[W3 _]]; [|congruence]. split; [left; lia|]. intros Hrt p Hp Hl Hlt2 Hd.
    eapply (dkeeps_stable _ c); [done|done|lia|lia|]. apply W4; [done|lia|done..].
Qed.

Lemma inv_append_fails start s rec e w' :
  wal_inv start s -> ww_lsn_clock (sys_writer s) + frame_size (zlen (wr_payload rec)) < 2 ^ 62 ->
  append crc32 rec (sys_writer s) = (Err e, w') ->
  wal_inv start (mkSys w' (sys_log s) (sys_low s) (sys_wave s)).
Proof.
  intros Hi Hlt H. pose proof (i_clock _ _ Hi) as Hc. pose proof (i_start _ _ Hi) as Hst.
  assert (He0 : start <= log_end start s) by (unfold log_end; lia).
  rewrite append_cases in H by lia.
  assert (Hsame : wal_inv start (mkSys (sys_writer s) (sys_log s) (sys_low s) (sys_wave s))) by by destruct s.
  destruct (ww_error (sys_writer s)) eqn:Ee; [by injection H as <- <-|].
  pose proof (i_at_end _ _ Hi Ee) as Hat. set (c := ww_lsn_clock (sys_writer s)) in *.
  destruct (zlen (wr_payload rec) >? 65535) eqn:Ep; [by injection H as <- <-|]. zbool.
  pose proof (zlen_frame crc32 (set_lsn c rec)) as Hzf. change (wr_payload (set_lsn c rec)) with (wr_payload rec) in Hzf.
  destruct (write_record_spec (frame crc32 (set_lsn c rec)) c (ww_segment_manager (sys_writer s))) as (out & sm' & Hw & St & Hnp & _);
    [apply Hi|lia|rewrite Hzf; lia|]. rewrite Hw in H. cbn [fst snd] in H. destruct out as [[]|e'|]; [done| |done].
  injection H as <- <-. pose proof (frame_pos crc32 (set_lsn c rec)). apply inv_same_log; [done| | |done|done|done].
  - by rewrite Hat in St.
  - cbn [poison set_ww_segs advanced set_ww_clock ww_lsn_clock]. fold c. lia.
Qed.

(** ** Flushes, shutdown and recycling *)

Lemma flush_enter_spec lsn w out w' :
  flush_to_enter lsn w = (out, w') ->
  (w' = w \/ w' = set_ww_requested w) /\ (out = Ok true -> lsn <= ww_synced_lsn w).
Proof.
  unfold flush_to_enter, check_error, mbindM, mget, mmodify, mret, mthrow. destruct (ww_error w); [intros [= <- <-]; split; [by auto|done]|].
  destruct (_ >? _); [intros [= <- <-]; split; [by auto|done]|]. destruct (_ >=? _) eqn:E; intros [= <- <-]; [|split; [by auto|done]].
  split; [by auto|]. zbool. done.
Qed.

Lemma flush_iter_spec lsn w out w' :
  flush_to_iter lsn w = (out, w') ->
  (w' = w \/ w' = set_ww_requested w) /\ (out = Ok true -> lsn <= ww_synced_lsn w).
Proof.
  unfold flush_to_iter, check_error, mbindM, mget, mmodify, mret, mthrow. destruct (_ <? _) eqn:E.
  - destruct (ww_error w); [intros [= <- <-]; split; [by auto|done]|]. destruct (ww_shutdown w); intros [= <- <-]; (split; [by auto|done]).
  - intros [= <- <-]. split; [by auto|]. zbool. done.
Qed.

Lemma inv_requested start s w' :
  wal_inv start s -> w' = sys_writer s \/ w' = set_ww_requested (sys_writer s) ->
  wal_inv start (mkSys w' (sys_log s) (sys_low s) (sys_wave s)).
Proof. intros Hi [->| ->]; by apply inv_flags. Qed.

Lemma remove_before_spec cutoff names : forall d out d',
  remove_before cutoff names d = (out, d') ->
  wd_linked d' = wd_linked d /\ out <> Panic /\
  (forall id, valid_id id -> cutoff <= id -> seg d' id = seg d id) /\
  (forall id f, seg d' id = Some f -> seg d id = Some f).
Proof.
  induction names as [|name names IH]; intros d out d'; cbn [remove_before].
  { intros [= <- <-]. by auto. }
  destruct (parse_segment_id name) as [k|] eqn:Ek; [|by apply IH]. destruct (Z.ltb_spec k cutoff) as [Hk|]; [|by apply IH].
  unfold mbindM at 1. destruct (remove_file name d) as [o1 d1] eqn:E1. apply call_then in E1 as (L1 & O1).
  assert (Hkeep : (forall id, valid_id id -> cutoff <= id -> seg d1 id = seg d id) /\ (forall id f, seg d1 id = Some f -> seg d id = Some f)).
  { destruct O1 as [[_ He]|[_ He]]; unfold seg; rewrite He; [|done]. split.
    - intros id Hv Hc. rewrite lookup_delete_ne; [done|]. intros ->. unfold valid_id in Hv. rewrite parse_wal_filename in Ek by lia.
      injection Ek as ->. lia.
    - intros id f Hf. by apply lookup_delete_Some in Hf as [_ Hf]. }
  destruct Hkeep as [K1 K2]. destruct O1 as [[-> _]|[-> _]]; [|intros [= <- <-]; by repeat (split; [by auto|])].
  unfold mbindM at 1. destruct (remove_before cutoff names d1) as [o2 d2] eqn:E2. apply IH in E2 as (L2 & N2 & A2 & B2).
  assert (Hall : wd_linked d2 = wd_linked d /\ (forall id, valid_id id -> cutoff <= id -> seg d2 id = seg d id) /\
    (forall id f, seg d2 id = Some f -> seg d id = Some f)).
  { split; [congruence|]. split; [intros; rewrite A2; auto|intros; auto]. }
  destruct Hall as (H1 & H2 & H3). destruct o2; intros [= <- <-]; by auto.
Qed.

Lemma recycle_spec lsn sm out sm' :
  segs_ok sm -> recycle_before lsn sm = (out, sm') ->
  let cutoff := Z.min (Lsn_segment_id lsn (sm_segment_size sm)) (sm_current_segment_id sm) in
  segs_ok sm' /\ sm_segment_size sm' = sm_segment_size sm /\ sm_current_segment_id sm' = sm_current_segment_id sm /\
  (forall id, valid_id id -> cutoff <= id -> seg (sm_dir sm') id = seg (sm_dir sm) id) /\
  (forall id f, seg (sm_dir sm') id = Some f -> wal_filename id ∈ wd_linked (sm_dir sm) -> wal_filename id ∈ wd_linked (sm_dir sm')).
Proof.
  intros Hok H cutoff. unfold recycle_before, mbindM at 1, mget in H. fold cutoff in H.
  apply on_dir_inv in H as (H & Hs & Hc).
  assert (Hdir : (forall id, valid_id id -> cutoff <= id -> seg (sm_dir sm') id = seg (sm_dir sm) id) /\
    (forall id f, seg (sm_dir sm') id = Some f -> seg (sm_dir sm) id = Some f) /\
    (forall id f, seg (sm_dir sm') id = Some f -> wal_filename id ∈ wd_linked (sm_dir sm) -> wal_filename id ∈ wd_linked (sm_dir sm'))).
  { revert H. generalize (sm_dir sm') as d'. generalize (sm_dir sm) as d. intros d d'. unfold mbindM at 1.
    destruct (dir_call d) as [o1 d1] eqn:E1. apply dir_call_spec in E1 as (He1 & L1 & O1).
    assert (S1 : forall id, seg d1 id = seg d id) by (intros; unfold seg; by rewrite He1).
    destruct O1 as [->| ->].
    2: { intros [= <- <-]. split; [auto|]. split; [intros ??; by rewrite S1|intros; by rewrite L1]. }
    unfold mbindM at 1, mget, mbindM at 1. destruct (remove_before cutoff (names_of d1) d1) as [o2 d2] eqn:E2.
    apply remove_before_spec in E2 as (L2 & N2 & A2 & B2). rewrite L1 in L2.
    assert (Hr : (forall id, valid_id id -> cutoff <= id -> seg d2 id = seg d id) /\ (forall id f, seg d2 id = Some f -> seg d id = Some f)).
    { split; [intros; rewrite A2, S1; auto|intros id f Hf; rewrite <-S1; auto]. }
    destruct Hr as [R1 R2]. destruct o2 as [removed|e|]; [|intros [= <- <-]; split; [done|]; split; [done|]; intros; by rewrite L2|done].
    destruct removed as [|x removed]; [intros [= <- <-]; split; [done|]; split; [done|]; intros; by rewrite L2|].
    unfold mbindM. destruct (sync_dir d2) as [o3 d3] eqn:E3. pose proof E3 as E3'.
    apply (sync_dir_spec 0 0) in E3 as (K3 & He3 & O3 & L3). assert (S3 : forall id, seg d3 id = seg d2 id) by (intros; unfold seg; by rewrite He3).
    destruct O3 as [->| ->]; intros [= <- <-]; (split; [intros; rewrite S3; auto|]; split; [intros id f Hf; rewrite S3 in Hf; auto|]; intros id f Hf Hl).
    - rewrite (L3 eq_refl), <-He3. unfold seg in Hf. by apply elem_of_dom_2 in Hf.
    - unfold sync_dir, mbindM in E3'. destruct (dir_call d2) as [oa da] eqn:Ea. apply dir_call_spec in Ea as (_ & La & [->| ->]).
      + destruct (dir_call da) as [ob db] eqn:Eb. apply dir_call_spec in Eb as (_ & Lb & [->| ->]); simplify_eq/=.
        by rewrite Lb, La, L2.
      + simplify_eq/=. by rewrite La, L2. }
  destruct Hdir as (D1 & D2 & D3). destruct Hok as [P1 P2 P3 P4 P5 P6]. split; [|done].
  split; rewrite ?Hs, ?Hc; try done.
  - destruct P4 as [f Hf]. exists f. rewrite D1; [done|done|]. unfold cutoff. lia.
  - intros id f Hv Hle Hf. destruct (P5 id f Hv Hle (D2 _ _ Hf)) as [Hl Hk]. split; [done|].
    eapply linked_or_kept; [|exact Hk]. by eapply D3.
  - intros id f Hv Hlt Hf. eapply P6; [done|done|]. by apply D2.
Qed.

Lemma inv_recycle start s lsn out w' :
  wal_inv start s -> 0 <= lsn -> WalWriter_recycle_before lsn (sys_writer s) = (out, w') ->
  let sm := ww_segment_manager (sys_writer s) in
  wal_inv start (mkSys w' (sys_log s)
    (Z.max (sys_low s) (Z.min (Lsn_segment_id lsn (sm_segment_size sm)) (sm_current_segment_id sm))) (sys_wave s)).
Proof.
  intros Hi Hlsn H sm. set (cutoff := Z.min _ _). pose proof (so_size _ (i_segs _ _ Hi)) as H8. fold sm in H8.
  assert (Hlow : wal_inv start (mkSys (sys_writer s) (sys_log s) (Z.max (sys_low s) cutoff) (sys_wave s))).
  { destruct Hi as [I1 I2 I3 I4 I5 I6 I6a I6b I7 I8 I9 I10]. unfold log_end in *. split; unfold log_end; cbn [sys_writer sys_log sys_low sys_wave] in *; try done.
    - intros i b Hib Hl. apply I8; [done|]. fold sm in Hl |- *. nia.
    - intros p Hp Hl Hs. apply I9; [done| |done]. fold sm in Hl |- *. nia.
    - intros wave r Hw. destruct (I10 wave r Hw) as (W1 & W2 & W3 & W4). repeat (split; [done|]). intros Hr p Hp Hl Hlt Hd.
      apply W4; [done|done| |done|done]. fold sm in Hl |- *. nia. }
  unfold WalWriter_recycle_before, check_error, mbindM at 1 in H.
  destruct (ww_error (sys_writer s)) eqn:Ee; [by injection H as _ <-|]. unfold mbindM at 1, mget in H.
  destruct (ww_shutdown (sys_writer s)) eqn:Esd; [by injection H as _ <-|].
  unfold mbindM, on_segs in H. destruct (recycle_before lsn (ww_segment_manager (sys_writer s))) as [o1 sm'] eqn:E1.
  assert (w' = set_ww_segs sm' (sys_writer s)) as -> by (cbn [fst snd] in H; destruct o1; by injection H as _ <-). clear H.
  apply recycle_spec in E1 as (R1 & R2 & R3 & R4 & R5); [|apply Hi]. fold sm cutoff in R2, R3, R4, R5.
  destruct Hlow as [I1 I2 I3 I4 I5 I6 I6a I6b I7 I8 I9 I10]. unfold log_end in *.
  cbn [sys_writer sys_log sys_low sys_wave] in *. fold sm in I1, I6, I6a, I8, I9.
  assert (Hst : forall p, start <= p < start + zlen (frames crc32 (sys_log s)) -> Z.max (sys_low s) cutoff * sm_segment_size sm <= p ->
    seg (sm_dir sm') (p / sm_segment_size sm) = seg (sm_dir sm) (p / sm_segment_size sm)).
  { intros p Hp Hl. apply R4; [apply pos_id; lia|]. apply Z.div_le_lower_bound; nia. }
  assert (Hstable : forall p, start <= p < start + zlen (frames crc32 (sys_log s)) -> Z.max (sys_low s) cutoff * sm_segment_size sm <= p ->
    stable_at (sm_dir sm) (sm_segment_size sm) p -> stable_at (sm_dir sm') (sm_segment_size sm) p).
  { intros p Hp Hl (f & b & Hf & Hlk & Hd & Hs). exists f, b. rewrite Hst by done. split; [done|]. split; [|done].
    eapply linked_or_kept; [|exact Hlk]. intros. by apply (R5 _ f); [rewrite Hst|]. }
  split; unfold log_end; cbn [set_ww_segs ww_segment_manager ww_lsn_clock ww_error ww_shutdown ww_synced_lsn sys_writer sys_log sys_low sys_wave];
    rewrite ?R2, ?R3; try done.
  - intros i b Hib Hl. pose proof (I8 i b Hib Hl) as Hb. apply dbyte_seg in Hb as (f & Hf & Hb). apply dbyte_seg.
    pose proof (lookup_lt_Some _ _ _ Hib). exists f. rewrite Hst by lia. done.
  - intros p Hp Hl Hs. apply Hstable; [done|done|]. by apply I9.
  - intros wave r Hw. destruct (I10 wave r Hw) as (W1 & W2 & W3 & W4). repeat (split; [done|]). intros Hr p Hp Hl Hlt Hd.
    apply Hstable; [done|done|]. by apply W4.
Qed.

(** ** The worker *)

Lemma dir_call_step n w out w' :
  segs_ok (ww_segment_manager w) -> on_segs (on_dir dir_call) w = (out, w') ->
  segs_step n (ww_segment_manager w) (ww_segment_manager w') /\
  sm_current_segment_id (ww_segment_manager w') = sm_current_segment_id (ww_segment_manager w) /\
  ww_lsn_clock w' = ww_lsn_clock w /\ ww_error w' = ww_error w /\ ww_shutdown w' = ww_shutdown w /\
  ww_synced_lsn w' = ww_synced_lsn w /\ ww_pending w' = ww_pending w.
Proof.
  intros Hok. unfold on_segs. destruct (on_dir dir_call (ww_segment_manager w)) as [o sm'] eqn:E. intros [= <- <-].
  apply on_dir_inv in E as (E & Hs & Hc). apply dir_call_spec in E as (He & Hl & _).
  cbn [fst snd set_ww_segs ww_segment_manager ww_lsn_clock ww_error ww_shutdown ww_synced_lsn ww_pending]. split; [|by auto 10].
  split; [|by apply dkeeps_same|done|lia].
  eapply segs_ok_dir; [done|done|done| | |]; unfold seg; rewrite ?He, ?Hl; eauto.
Qed.

(** The capture: a poisoned writer only if it was, or if the handle could not be
    duplicated. *)
Lemma capture_cases batch timed_out w st w' :
  worker_capture batch timed_out w = (st, w') ->
  (w' = w /\ (forall wave, st <> Sync wave)) \/
  exists out w1, on_segs (on_dir dir_call) w = (out, w1) /\
    ((st = Sync (mkWave (ww_lsn_clock w) (sm_current_segment_id (ww_segment_manager w)) (ww_pending w)) /\ w' = w1) \/
     (st = Break /\ w' = poison w1)).
Proof.
  unfold worker_capture. destruct (_ && _); [intros [= <- <-]; by left|]. destruct (_ && _); [intros [= <- <-]; by left|].
  destruct (_ =? 0); [destruct (ww_shutdown w); intros [= <- <-]; by left|].
  destruct (on_segs (on_dir dir_call) w) as [out w1] eqn:E. intros H. right. exists out, w1. split; [done|].
  destruct out; simplify_eq/=; auto.
Qed.

Lemma inv_idle start s batch timed_out st w' :
  wal_inv start s -> worker_capture batch timed_out (sys_writer s) = (st, w') ->
  wal_inv start (mkSys w' (sys_log s) (sys_low s) (sys_wave s)).
Proof.
  intros Hi H. apply capture_cases in H as [[-> _]|(out & w1 & E & H)]; [by destruct s|].
  apply (dir_call_step (log_end start s)) in E as (S & C & K & Er & Sd & Sy & _); [|apply Hi]. pose proof (i_clock _ _ Hi).
  destruct H as [[_ ->]|[_ ->]]; (apply inv_same_log; [done|done| | | |done]); cbn [poison ww_lsn_clock ww_error ww_shutdown]; try done; try lia.
  - by rewrite Er, K.
  - rewrite Er, Sd. apply Hi.
Qed.

Lemma inv_capture start s batch timed_out wave w' :
  wal_inv start s -> sys_wave s = None -> worker_capture batch timed_out (sys_writer s) = (Sync wave, w') ->
  wal_inv start (mkSys w' (sys_log s) (sys_low s) (Some (wave, None))).
Proof.
  intros Hi Hn H. pose proof (inv_idle _ _ _ _ _ _ Hi H) as Hi'. apply capture_cases in H as [[_ Hx]|(out & w1 & E & H)]; [by destruct (Hx wave)|].
  destruct H as [[[= ->] ->]|[? _]]; [|done].
  apply (dir_call_step (log_end start s)) in E as (S & C & K & Er & Sd & Sy & _); [|apply Hi].
  pose proof (i_clock _ _ Hi) as Hc. pose proof (i_at_end _ _ Hi) as Hat. pose proof (i_written _ _ Hi) as Hw. pose proof (so_current _ (i_segs _ _ Hi)) as Hv.
  destruct Hi' as [I1 I2 I3 I4 I5 I6 I6a I6b I7 I8 I9 I10]. split; try done.
  intros wave r [= <- <-] sm. subst sm. cbn [cover_segment cover_lsn sys_writer]. rewrite (ss_size _ _ _ S), C. split; [done|]. split; [lia|].
  split; [|done]. unfold log_end in *. cbn [sys_log] in *. rewrite Er. destruct (ww_error (sys_writer s)); [by auto|]. left. rewrite Hat by done. lia.
Qed.

(** An fsync of any segment the writer has reached. *)
Lemma fsync_step n id sm out sm' :
  segs_ok sm -> valid_id id -> id <= sm_current_segment_id sm -> on_dir (sync_all (wal_filename id)) sm = (out, sm') ->
  segs_step n sm sm' /\ sm_current_segment_id sm' = sm_current_segment_id sm /\
  (res_is_ok out = true -> forall f, seg (sm_dir sm') id = Some f -> f_stable f = f_data f).
Proof.
  intros Hok Hv Hle E. apply on_dir_inv in E as (E & Hs & Hc). pose proof E as E'.
  eapply (sync_all_spec _ (sm_segment_size sm) n) in E' as (K & L & S & O & F & D); [|done].
  apply call_then in E as (_ & HE). split; [|split; [done|]].
  - split; [|done|done|lia]. destruct HE as [[-> He]|[-> He]].
    2: { eapply segs_ok_dir; [done|done|done| | |]; unfold seg; rewrite ?He, ?L; eauto. }
    eapply segs_ok_dir; [done|done|done| | |].
    + intros j Hj Hlt. destruct (decide (j = id)) as [->|Hne]; [|by apply S]. rewrite (F eq_refl).
      destruct (seg (sm_dir sm) id) as [f0|] eqn:E0; [|done]. pose proof (so_old _ Hok _ _ Hv Hlt E0) as Hst.
      destruct f0 as [fd fs]. simpl in *. by subst fs.
    + intros f Hf. destruct (decide (sm_current_segment_id sm = id)) as [<-|Hne].
      * destruct (D f Hf) as (f' & Hf' & Hd). exists f'. by rewrite Hd.
      * exists f. rewrite S; [done|apply Hok|done].
    + intros. by rewrite L.
  - intros Ho f Hf. destruct O as [->| ->]; [|done]. rewrite (F eq_refl) in Hf.
    destruct (seg (sm_dir sm) id); [|done]. by injection Hf as <-.
Qed.

Lemma inv_fsync start s wave r w' :
  wal_inv start s -> sys_wave s = Some (wave, None) -> worker_fsync wave (sys_writer s) = (r, w') ->
  wal_inv start (mkSys w' (sys_log s) (sys_low s) (Some (wave, Some (res_is_ok r)))).
Proof.
  intros Hi Hw H. unfold worker_fsync, on_segs in H.
  destruct (on_dir (sync_all (wal_filename (cover_segment wave))) (ww_segment_manager (sys_writer s))) as [o sm'] eqn:E.
  injection H as <- <-. cbn [fst snd]. destruct (i_wave _ _ Hi wave None Hw) as (W1 & W2 & _).
  apply (fsync_step (log_end start s)) in E as (St & Hc & Hst); [|apply Hi|done|done].
  assert (Hi' : wal_inv start (mkSys (set_ww_segs sm' (sys_writer s)) (sys_log s) (sys_low s) (sys_wave s))).
  { pose proof (i_clock _ _ Hi). apply inv_same_log; try done; try (cbn; lia). apply Hi. }
  rewrite Hw in Hi'. destruct Hi' as [I1 I2 I3 I4 I5 I6 I6a I6b I7 I8 I9 I10]. split; try done.
  intros wave' r [= <- <-] sm. subst sm. destruct (I10 wave None eq_refl) as (V1 & V2 & V3 & _).
  split; [done|]. split; [done|]. split; [done|]. intros Ho p Hp Hl Hlt Hd.
  cbn [sys_writer set_ww_segs ww_segment_manager sys_low sys_log] in *. unfold log_end in *. cbn [sys_log] in *.
  set (i := Z.to_nat (p - start)). destruct (lookup_lt_is_Some_2 (frames crc32 (sys_log s)) i) as [b Hb]; [lia|].
  apply I8 in Hb; [|lia]. replace (start + Z.of_nat i) with p in Hb by lia. apply dbyte_seg in Hb as (f & Hf & Hb). exists f, b.
  split; [done|]. split; [|split; [done|]].
  - eapply so_len; [done|rewrite Hd; done|rewrite Hd; done|done].
  - rewrite Hst; [done|congruence|congruence].
Qed.

Lemma inv_publish start s wave ok st w' :
  wal_inv start s -> sys_wave s = Some (wave, Some ok) ->
  worker_publish wave (if ok : bool then Ok tt else Err Io) (sys_writer s) = (st, w') ->
  wal_inv start (mkSys w' (sys_log s) (sys_low s) None).
Proof.
  intros Hi Hw H. destruct (i_wave _ _ Hi wave (Some ok) Hw) as (W1 & W2 & W3 & W4).
  assert (Hnone : wal_inv start (mkSys (sys_writer s) (sys_log s) (sys_low s) None)).
  { destruct Hi. by split. }
  destruct ok; cbn [worker_publish] in H; injection H as <- <-.
  2: { apply (inv_same_log start (mkSys (sys_writer s) (sys_log s) (sys_low s) None)); try done.
       - apply segs_step_refl, Hi.
       - pose proof (i_clock _ _ Hi). cbn. lia. }
  specialize (W4 eq_refl). destruct Hnone as [I1 I2 I3 I4 I5 I6 I6a I6b I7 I8 I9 I10].
  cbn [sys_writer sys_log sys_low] in *. set (sm := ww_segment_manager (sys_writer s)) in *. set (w := sys_writer s) in *.
  assert (Herr : (if negb (ww_shutdown w) then false else ww_error w) = ww_error w).
  { destruct (ww_shutdown w) eqn:Es; [done|]. cbn [negb]. destruct (ww_error w) eqn:Ee; [|done]. specialize (I5 eq_refl). congruence. }
  unfold log_end in *. cbn [sys_log] in *. pose proof (so_size _ I1) as H8.
  assert (Hdur : forall p, start <= p < start + zlen (frames crc32 (sys_log s)) -> sys_low s * sm_segment_size sm <= p ->
    p < (if sm_current_segment_id sm =? cover_segment wave then cover_lsn wave else wrap64 ((cover_segment wave + 1) * sm_segment_size sm)) ->
    stable_at (sm_dir sm) (sm_segment_size sm) p).
  { intros p Hp Hl Hlt. set (i := Z.to_nat (p - start)).
    destruct (lookup_lt_is_Some_2 (frames crc32 (sys_log s)) i) as [b Hb]; [lia|]. apply I8 in Hb; [|lia].
    replace (start + Z.of_nat i) with p in Hb by lia.
    assert (Hcase : p / sm_segment_size sm = cover_segment wave /\ p < cover_lsn wave \/ p / sm_segment_size sm < sm_current_segment_id sm).
    { destruct (Z.eqb_spec (sm_current_segment_id sm) (cover_segment wave)) as [Hc|Hc].
      - assert (p < (cover_segment wave + 1) * sm_segment_size sm) by (destruct W3 as [[? ?]|[? ?]]; lia).
        assert (p / sm_segment_size sm < cover_segment wave + 1) by (apply Z.div_lt_upper_bound; lia). lia.
      - unfold wrap64 in Hlt. right. assert (p / sm_segment_size sm < cover_segment wave + 1); [|lia]. apply Z.div_lt_upper_bound; [lia|].
        pose proof (Z.mod_le ((cover_segment wave + 1) * sm_segment_size sm) (2 ^ 64)). unfold valid_id in W1. nia. }
    destruct Hcase as [[Hd Hcl]|Hold]; [by apply W4|]. eapply old_stable; [done|lia|done|done]. }
  split; unfold log_end; cbn [sys_writer sys_log sys_low sys_wave ww_segment_manager ww_lsn_clock ww_error ww_shutdown ww_synced_lsn]; rewrite ?Herr; try done.
  - intros He. specialize (I6b He). specialize (I6a He). apply Z.max_lub; [done|]. destruct (Z.eqb_spec (sm_current_segment_id sm) (cover_segment wave)).
    + destruct W3 as [[? ?]|[? ?]]; [lia|congruence].
    + pose proof (Z.mod_le ((cover_segment wave + 1) * sm_segment_size sm) (2 ^ 64)). unfold wrap64. unfold valid_id in W1. nia.
  - intros p Hp Hl Hlt. destruct (decide (p < ww_synced_lsn w)); [by apply I9|]. apply Hdur; [done|done|lia].
Qed.

(** ** Runs *)

Lemma wal_step_inv start s s' : wal_inv start s -> wal_step s s' -> wal_inv start s'.
Proof.
  intros Hi Hs. destruct Hs.
  - by eapply (inv_append start (mkSys w log low wave)).
  - by eapply (inv_append_fails start (mkSys w log low wave)).
  - apply (inv_requested start (mkSys w log low wave)); [done|]. by eapply flush_enter_spec.
  - apply (inv_requested start (mkSys w log low wave)); [done|]. by eapply flush_iter_spec.
  - by eapply (inv_recycle start (mkSys w log low wave)).
  - by apply (inv_flags start (mkSys w log low wave)).
  - by eapply (inv_capture start (mkSys w log low None)).
  - by eapply (inv_idle start (mkSys w log low None)).
  - by eapply (inv_fsync start (mkSys w log low (Some (wave, None)))).
  - by eapply (inv_publish start (mkSys w log low (Some (wave, Some ok)))).
Qed.

Lemma wal_run_inv start s s' : wal_inv start s -> rtc wal_step s s' -> wal_inv start s'.
Proof. intros Hi Hr. induction Hr; [done|]. apply IHHr. by eapply wal_step_inv. Qed.

End system.

(** ** Crashes *)

Section crashes.
Context {ke : KeptEntries}.

(** What a crash leaves: the bytes that were on stable storage, in the files whose
    directory entry was, or is assumed to be kept; anything else. *)
Record crash_image (ss : Z) (d : WalDir) (files : gmap string (list Z)) : Prop := {
  ci_stable : forall id f, valid_id id -> seg d id = Some f -> wal_filename id ∈ wd_linked d ∪ kept ->
    exists bs, files !! wal_filename id = Some bs /\
      forall (i : nat) b, f_data f !! i = Some b -> f_stable f !! i = Some b -> bs !! i = Some b;
  ci_bytes : map_Forall (fun _ d => wf_bytes d) files;
  ci_room : wal_limit files ss + 2 ^ 17 <= 2 ^ 64
}.

Lemma crash_byte ss d files p :
  8 <= ss -> crash_image ss d files -> 0 <= p < 2 ^ 63 -> stable_at d ss p -> byte_at files ss p = dbyte d ss p.
Proof.
  intros Hss Hc Hp (f & b & Hf & Hl & Hd & Hs). destruct (ci_stable _ _ _ Hc _ _ (pos_id _ _ Hss Hp) Hf Hl) as (bs & Hbs & Hb).
  transitivity (Some b); [unfold byte_at; rewrite Hbs; by apply Hb|]. symmetry. apply dbyte_seg. by exists f.
Qed.

(** A writer that starts at [start], with nothing appended yet. *)
Record writer_ready (start : Z) (w : WalWriter) : Prop := {
  wr_segs : segs_ok (ww_segment_manager w);
  wr_start : 8 <= start < 2 ^ 62;
  wr_aligned : start mod 8 = 0;
  wr_clock : ww_lsn_clock w = start;
  wr_healthy : ww_error w = false;
  wr_synced : ww_synced_lsn w <= start;
  wr_segment : sm_current_segment_id (ww_segment_manager w) * sm_segment_size (ww_segment_manager w) <= start <=
               (sm_current_segment_id (ww_segment_manager w) + 1) * sm_segment_size (ww_segment_manager w)
}.

Lemma ready_inv crc32 start w : writer_ready start w -> wal_inv crc32 start (mkSys w [] 0 None).
Proof.
  intros [H1 H2 H3 H4 H5 H6 H7]. split; unfold log_end; cbn [sys_writer sys_log sys_low sys_wave]; change (zlen (frames crc32 [])) with 0; try done; try lia; try congruence.
Qed.

Lemma frames_aligned crc32 rs : zlen (frames crc32 rs) mod 8 = 0.
Proof.
  induction rs as [|r rs IH]; [done|]. rewrite frames_cons, length_app, Nat2Z.inj_add, zlen_frame.
  pose proof (frame_size_spec (zlen (wr_payload r))) as [_ H]. rewrite Z.add_mod, H, IH by lia. done.
Qed.

(** The log from a record boundary up to [synced_lsn], after a crash. *)
Lemma synced_survive crc32 os_read start s old rs new files :
  (forall bs, in_u 32 (crc32 bs)) -> os_ok os_read -> os_never_fails os_read ->
  wal_inv crc32 start s -> start mod 8 = 0 ->
  let sm := ww_segment_manager (sys_writer s) in
  let hint := start + zlen (frames crc32 old) in
  sys_log s = old ++ rs ++ new -> rs <> [] -> sys_low s * sm_segment_size sm <= hint ->
  hint + zlen (frames crc32 rs) <= ww_synced_lsn (sys_writer s) ->
  crash_image (sm_segment_size sm) (sm_dir sm) files ->
  exists rest, wal_stream crc32 os_read files (sm_segment_size sm) hint = Ok ((Ok <$> rs) ++ rest) /\ (Panic ∉ rest).
Proof.
  intros Hcrc Hos Hnf [I1 I2 I3 I4 I5 I6 I6a I6b I7 I8 I9 I10] Hal sm hint Hlog Hne Hlow Hsy Hci.
  fold sm in I1, I6, I6a, I8, I9. unfold log_end in *. pose proof (so_size _ I1) as H8.
  assert (Hfr : frames crc32 (sys_log s) = frames crc32 old ++ frames crc32 rs ++ frames crc32 new) by (rewrite Hlog, !frames_app; done).
  assert (Hz : zlen (frames crc32 (sys_log s)) = zlen (frames crc32 old) + zlen (frames crc32 rs) + zlen (frames crc32 new)).
  { rewrite Hfr, !length_app. lia. }
  assert (Hb : has_bytes files (sm_segment_size sm) hint (frames crc32 rs)).
  { intros i b Hi. pose proof (lookup_lt_Some _ _ _ Hi) as Hlt.
    rewrite (crash_byte _ _ _ _ H8 Hci); [|unfold hint; lia|apply I9; unfold hint in *; lia].
    assert (Hk : frames crc32 (sys_log s) !! (length (frames crc32 old) + i)%nat = Some b).
    { rewrite Hfr, lookup_app_r by lia. replace (_ + i - _)%nat with i by lia. by apply lookup_app_l_Some. }
    apply I8 in Hk; [|unfold hint in Hlow; lia]. rewrite <-Hk. f_equal. unfold hint. lia. }
  assert (Hgood : Forall good_record rs) by (rewrite Hlog, !Forall_app in I7; tauto).
  pose proof (frames_length crc32 rs) as Hfl. assert (0 < zlen rs) by (destruct rs; [done|simpl; lia]).
  assert (Hfile : is_Some (files !! wal_filename (hint / sm_segment_size sm))).
  { destruct (lookup_lt_is_Some_2 (frames crc32 rs) 0) as [b Hi]; [lia|]. apply Hb in Hi. rewrite Z.add_0_r in Hi.
    unfold byte_at in Hi. destruct (files !! _); [by eexists|done]. }
  destruct (stream_reads_back crc32 os_read files (sm_segment_size sm) hint rs) as (rest & He & Hnp & _);
    [done..|apply I1|unfold hint; lia| |lia|apply Hci|apply Hci|done|done|done|by exists rest].
  unfold hint. rewrite Z.add_mod, Hal, frames_aligned by lia. done.
Qed.

End crashes.

(** ** Properties *)

(** C22: group commit, relative to the directory entries that survive.  Let [kept]
    hold the names of the segment files that were present when the writer was
    opened and whose directory entry is not durable; opening a fresh directory
    leaves its first segment in this state, because no fsync of the directory
    follows its creation (segment.rs:66).  Then in every interleaving of appends,
    worker waves, flushes and recycling, and for every outcome of the system calls:
    when [flush_to(lsn)] returns, every record that ends at or before [lsn] survives
    every crash that does not lose a directory entry of [kept]; segment files
    created later, by rotation, need no such condition.  The reader, started at a
    retained record boundary of whatever the crash left, returns these records in
    order, byte for byte, before anything else. *)
Theorem flush_makes_durable (ke : KeptEntries) crc32 os_read start w0 s lsn w' old rs new files :
  (forall bs, in_u 32 (crc32 bs)) -> os_ok os_read -> os_never_fails os_read ->
  writer_ready start w0 -> rtc (wal_step crc32) (mkSys w0 [] 0 None) s ->
  flush_to_enter lsn (sys_writer s) = (Ok true, w') \/ flush_to_iter lsn (sys_writer s) = (Ok true, w') ->
  let sm := ww_segment_manager (sys_writer s) in
  let hint := start + zlen (frames crc32 old) in
  sys_log s = old ++ rs ++ new -> rs <> [] -> sys_low s * sm_segment_size sm <= hint ->
  hint + zlen (frames crc32 rs) <= lsn ->
  crash_image (sm_segment_size sm) (sm_dir sm) files ->
  exists rest, wal_stream crc32 os_read files (sm_segment_size sm) hint = Ok ((Ok <$> rs) ++ rest) /\ (Panic ∉ rest).
Proof.
  intros Hcrc Hos Hnf Hrd Hrun Hfl sm hint Hlog Hne Hlow Hle Hci.
  pose proof (wal_run_inv crc32 start _ _ (ready_inv crc32 start w0 Hrd) Hrun) as Hi.
  eapply synced_survive; [done..|by apply (wr_aligned _ _ Hrd)|done|done|done| |done].
  destruct Hfl as [H|H]; [apply flush_enter_spec in H|apply flush_iter_spec in H]; destruct H as [_ H]; specialize (H eq_refl); fold hint; lia.
Qed.

(** A writer opened on a directory with one empty segment of 64 bytes, whose
    directory entry is durable. *)
Definition demo_dir : WalDir := mkWalDir {[wal_filename 0 := mkFile (zeros 64) (zeros 64)]} {[wal_filename 0]} [].
Definition demo_writer : WalWriter := mkWalWriter 8 (mkSegMgr demo_dir 64 0) 0 0 false false false.
Definition demo_rec1 : WalRecord := mkWalRecord 0 0 7 HeapInsert 0 [1; 2; 3; 4; 5].
Definition demo_rec2 : WalRecord := mkWalRecord 0 8 7 TxnCommit 0 [6].
Definition stable_files (d : WalDir) : gmap string (list Z) := f_stable <$> wd_entries d.

Lemma demo_writer_opens : fst (WalWriter_open sum32 short_read 64 demo_dir) = Ok demo_writer.
Proof. vm_compute. reflexivity. Qed.

Definition no_kept : KeptEntries := (∅ : gset string).

Lemma demo_writer_ready : writer_ready (ke := no_kept) 8 demo_writer.
Proof.
  assert (Hs : seg demo_dir 0 = Some (mkFile (zeros 64) (zeros 64))) by (vm_compute; reflexivity).
  assert (Hid : forall id, valid_id id -> id <= 0 -> id = 0) by (unfold valid_id; lia).
  split; cbn [demo_writer ww_segment_manager ww_lsn_clock ww_error ww_synced_lsn sm_current_segment_id sm_segment_size]; try done; try lia.
  split; cbn [sm_dir sm_segment_size sm_current_segment_id]; try done; try lia.
  - eauto.
  - intros id f Hv Hle Hf. apply Hid in Hle as ->; [|done]. rewrite Hs in Hf. injection Hf as <-. split; [done|]. apply elem_of_union_l. cbn [demo_dir wd_linked]. by apply elem_of_singleton_2.
  - intros id f Hv Hlt. apply Hid in Hv; lia.
Qed.

Lemma stable_image {ke : KeptEntries} ss d :
  map_Forall (fun _ f => wf_bytes (f_stable f)) (wd_entries d) -> wal_limit (stable_files d) ss + 2 ^ 17 <= 2 ^ 64 ->
  crash_image ss d (stable_files d).
Proof.
  intros Hw Hr. split; [|by apply map_Forall_fmap|done]. intros id f _ Hf _. exists (f_stable f). unfold stable_files.
  rewrite lookup_fmap. unfold seg in Hf. rewrite Hf. split; [done|]. by intros.
Qed.

(** The runs: append, one wave of the worker; append after it. *)
Definition demo_w1 : WalWriter := snd (append sum32 demo_rec1 demo_writer).
Definition demo_wave (w : WalWriter) : Wave := mkWave (ww_lsn_clock w) (sm_current_segment_id (ww_segment_manager w)) (ww_pending w).
Definition demo_synced (w : WalWriter) : WalWriter :=
  snd (worker_publish (demo_wave w) (Ok tt) (snd (worker_fsync (demo_wave w) (snd (worker_capture 64 true w))))).

Lemma demo_wave_run w log :
  fst (worker_capture 64 true w) = Sync (demo_wave w) ->
  fst (worker_fsync (demo_wave w) (snd (worker_capture 64 true w))) = Ok tt ->
  rtc (wal_step sum32) (mkSys w log 0 None) (mkSys (demo_synced w) log 0 None).
Proof.
  intros H1 H2. eapply rtc_l; [eapply (step_capture _ 64 true (demo_wave w)); rewrite <-H1; apply surjective_pairing|].
  eapply rtc_l; [eapply step_fsync, surjective_pairing|]. rewrite H2. cbn [res_is_ok].
  eapply rtc_l; [eapply (step_publish _ _ true), surjective_pairing|]. apply rtc_refl.
Qed.

Lemma demo_append_run rec w log :
  record_ok rec -> ww_lsn_clock w + frame_size (zlen (wr_payload rec)) < 2 ^ 62 ->
  fst (append sum32 rec w) = Ok (ww_lsn_clock w) ->
  wal_step sum32 (mkSys w log 0 None) (mkSys (snd (append sum32 rec w)) (log ++ [set_lsn (ww_lsn_clock w) rec]) 0 None).
Proof. intros H1 H2 H3. apply step_append; [done|done|]. rewrite <-H3. apply surjective_pairing. Qed.

Lemma demo_recs_ok : record_ok demo_rec1 /\ record_ok demo_rec2.
Proof. split; repeat split; repeat constructor; vm_compute; intuition congruence. Qed.

Definition demo_run : WalSys :=
  mkSys (demo_synced (snd (append sum32 demo_rec2 demo_w1))) [set_lsn 8 demo_rec1; set_lsn 48 demo_rec2] 0 None.

Lemma demo_run_reached : rtc (wal_step sum32) (mkSys demo_writer [] 0 None) demo_run.
Proof.
  eapply rtc_l; [apply (demo_append_run demo_rec1); [apply demo_recs_ok|done|vm_compute; reflexivity]|].
  eapply rtc_l; [apply (demo_append_run demo_rec2); [apply demo_recs_ok|done|vm_compute; reflexivity]|].
  apply demo_wave_run; vm_compute; reflexivity.
Qed.

(** The same run of a writer opened on a fresh, empty directory: the entry of the
    first segment is not durable, and is the one the crash must keep. *)
Definition fresh_dir : WalDir := mkWalDir ∅ ∅ [].
Definition fresh_writer : WalWriter :=
  mkWalWriter 8 (mkSegMgr (mkWalDir {[wal_filename 0 := mkFile (zeros 64) (zeros 64)]} ∅ []) 64 0) 0 0 false false false.
Definition first_kept : KeptEntries := ({[wal_filename 0]} : gset string).
Definition fresh_w1 : WalWriter := snd (append sum32 demo_rec1 fresh_writer).
Definition fresh_run : WalSys :=
  mkSys (demo_synced (snd (append sum32 demo_rec2 fresh_w1))) [set_lsn 8 demo_rec1; set_lsn 48 demo_rec2] 0 None.

Lemma fresh_writer_opens : fst (WalWriter_open sum32 short_read 64 fresh_dir) = Ok fresh_writer.
Proof. vm_compute. reflexivity. Qed.

Lemma fresh_writer_ready : writer_ready (ke := first_kept) 8 fresh_writer.
Proof.
  assert (Hs : seg (sm_dir (ww_segment_manager fresh_writer)) 0 = Some (mkFile (zeros 64) (zeros 64))) by (vm_compute; reflexivity).
  assert (Hid : forall id, valid_id id -> id <= 0 -> id = 0) by (unfold valid_id; lia).
  split; cbn [fresh_writer ww_segment_manager ww_lsn_clock ww_error ww_synced_lsn sm_current_segment_id sm_segment_size]; try done; try lia.
  split; cbn [sm_dir sm_segment_size sm_current_segment_id]; try done; try lia.
  - eauto.
  - intros id f Hv Hle Hf. apply Hid in Hle as ->; [|done]. cbn [fresh_writer ww_segment_manager sm_dir] in Hs. rewrite Hs in Hf. injection Hf as <-.
    split; [done|]. apply elem_of_union_r. change (wal_filename 0 ∈ ({[wal_filename 0]} : gset string)). by apply elem_of_singleton_2.
  - intros id f Hv Hlt. apply Hid in Hv; lia.
Qed.

Lemma fresh_run_reached : rtc (wal_step sum32) (mkSys fresh_writer [] 0 None) fresh_run.
Proof.
  eapply rtc_l; [apply (demo_append_run demo_rec1); [apply demo_recs_ok|done|vm_compute; reflexivity]|].
  eapply rtc_l; [apply (demo_append_run demo_rec2); [apply demo_recs_ok|done|vm_compute; reflexivity]|].
  apply demo_wave_run; vm_compute; reflexivity.
Qed.

Lemma flush_makes_durable_witness :
  fst (WalWriter_open sum32 short_read 64 fresh_dir) = Ok fresh_writer /\
  exists rest, wal_stream sum32 short_read (stable_files (sm_dir (ww_segment_manager (sys_writer fresh_run)))) 64 8 =
    Ok ([Ok (set_lsn 8 demo_rec1); Ok (set_lsn 48 demo_rec2)] ++ rest) /\ (Panic ∉ rest).
Proof.
  split; [apply fresh_writer_opens|].
  destruct (flush_makes_durable first_kept sum32 short_read 8 fresh_writer fresh_run 88 (sys_writer fresh_run) [] (sys_log fresh_run) []
    (stable_files (sm_dir (ww_segment_manager (sys_writer fresh_run))))) as (rest & H1 & H2);
    [apply sum32_range|apply short_read_ok|apply short_read_ok|apply fresh_writer_ready|apply fresh_run_reached| | |done|vm_compute; congruence|vm_compute; congruence| |].
  - left. vm_compute. reflexivity.
  - reflexivity.
  - apply stable_image; [|vm_compute; congruence]. apply (bool_decide_unpack _). vm_compute. exact I.
  - exists rest. by split.
Defined.

(** C23: [flush_to] returns too early.  A record appended right where the last
    group commit ended has the LSN [synced_lsn], and [flush_to] of that LSN
    returns at once although no fsync covers the record: a crash loses it.  The
    transaction manager commits with exactly this call, so an acknowledged commit
    can be lost. *)
Theorem flush_to_returns_early :
  exists w0 s rec w' files log,
    writer_ready (ke := no_kept) 8 w0 /\ rtc (wal_step sum32) (mkSys w0 [] 0 None) s /\
    last (sys_log s) = Some rec /\ wr_type rec = TxnCommit /\
    flush_to_enter (wr_lsn rec) (sys_writer s) = (Ok true, w') /\
    crash_image (ke := no_kept) 64 (sm_dir (ww_segment_manager (sys_writer s))) files /\
    wal_stream sum32 short_read files 64 8 = Ok (Ok <$> log) /\ (rec ∉ log).
Proof.
  set (w := snd (append sum32 demo_rec2 (demo_synced demo_w1))).
  exists demo_writer, (mkSys w [set_lsn 8 demo_rec1; set_lsn 48 demo_rec2] 0 None), (set_lsn 48 demo_rec2), w,
    (stable_files (sm_dir (ww_segment_manager w))), [set_lsn 8 demo_rec1].
  split; [apply demo_writer_ready|]. split.
  { eapply rtc_l; [apply (demo_append_run demo_rec1); [apply demo_recs_ok|done|vm_compute; reflexivity]|].
    etransitivity; [apply demo_wave_run; vm_compute; reflexivity|].
    eapply rtc_l; [apply (demo_append_run demo_rec2); [apply demo_recs_ok|done|vm_compute; reflexivity]|]. apply rtc_refl. }
  split; [done|]. split; [done|]. split; [vm_compute; reflexivity|]. split.
  { apply stable_image; [|vm_compute; congruence]. apply (bool_decide_unpack _). vm_compute. exact I. }
  split; [vm_compute; reflexivity|]. intros H%list_elem_of_singleton. by apply (f_equal wr_lsn) in H.
Qed.

(** ** Restart *)

Definition latest_of (d : WalDir) : Z := default 0 (fold_segments Z.gtb (names_of d)).
Definition oldest_start (ss : Z) (d : WalDir) : Lsn :=
  let oldest := default 0 (fold_segments Z.ltb (names_of d)) in if oldest =? 0 then Lsn_FIRST else wrap64 (oldest * ss).

Lemma dir_call_ok d : wd_io d = [] -> dir_call d = (Ok tt, d).
Proof. intros H. destruct d as [e l io]. cbn in H. subst io. done. Qed.

Lemma names_elem d name : name ∈ names_of d <-> is_Some (wd_entries d !! name).
Proof.
  unfold names_of. rewrite list_elem_of_fmap. split.
  - intros ([n f] & -> & Hin). apply elem_of_map_to_list in Hin. by eexists.
  - intros [f Hf]. exists (name, f). split; [done|]. by apply elem_of_map_to_list.
Qed.

Definition synced_dir (id : Z) (d : WalDir) : WalDir :=
  mkWalDir (alter (fun f => mkFile (f_data f) (f_data f)) (wal_filename id) (wd_entries d)) (wd_linked d) (wd_io d).

Lemma synced_dir_files id d : dir_files (synced_dir id d) = dir_files d.
Proof.
  apply map_eq. intros name. unfold dir_files, synced_dir. cbn [wd_entries]. rewrite !lookup_fmap, lookup_alter.
  case_decide; [subst|done]. by destruct (wd_entries d !! _).
Qed.

Lemma synced_dir_oldest id ss d : oldest_start ss (synced_dir id d) = oldest_start ss d.
Proof.
  unfold oldest_start. rewrite (fold_segments_set Z.ltb (-1) ltb_picks (names_of (synced_dir id d)) (names_of d)); [done|done|].
  intros name. rewrite !names_elem. unfold synced_dir. cbn [wd_entries]. rewrite lookup_alter. case_decide; [subst|done].
  rewrite fmap_is_Some. done.
Qed.

(** Opening the manager on a directory whose last segment has its size. *)
Lemma segment_manager_reopens ss d f :
  8 <= ss -> ss mod 8 = 0 -> wd_io d = [] -> seg d (latest_of d) = Some f -> zlen (f_data f) = ss ->
  WalSegmentManager_open ss d =
    (Ok (mkSegMgr (synced_dir (latest_of d) d) ss (latest_of d)), synced_dir (latest_of d) d).
Proof.
  intros Hss Hal Hio Hf Hlen. unfold WalSegmentManager_open, LSN_ALIGNMENT. rewrite (proj2 (Z.eqb_neq ss 0)) by lia. rewrite Hal.
  cbn [Z.eqb negb]. unfold mbindM at 1, discover_latest_segment_id, mbindM at 1. rewrite dir_call_ok by done. unfold mbindM at 1, mget, mret at 1.
  fold (latest_of d). unfold mbindM at 1, open_segment_file, open_create, mbindM at 1, mbindM at 1. rewrite dir_call_ok by done.
  unfold on_entries, mmodify. unfold seg in Hf. rewrite Hf.
  replace (mkWalDir (wd_entries d) (wd_linked d) (wd_io d)) with d by by destruct d.
  unfold mbindM at 1, metadata_len, mbindM at 1. rewrite dir_call_ok by done. unfold mbindM at 1, mget. rewrite Hf. unfold mret.
  rewrite Hlen, Z.eqb_refl. cbn [negb]. unfold mbindM at 1, sync_all, mbindM at 1. rewrite dir_call_ok by done. done.
Qed.

Lemma blocked_append crc32 rec w :
  ww_error w = false -> zlen (wr_payload rec) <= 65535 -> 0 <= ww_lsn_clock w ->
  ww_lsn_clock w + frame_size (zlen (wr_payload rec)) < 2 ^ 62 ->
  ww_lsn_clock w / sm_segment_size (ww_segment_manager w) < sm_current_segment_id (ww_segment_manager w) ->
  fst (append crc32 rec w) = Err WalWriteFailed /\ ww_error (snd (append crc32 rec w)) = true.
Proof.
  intros He Hp Hc Hlt Hseg. rewrite append_cases by done. rewrite He. destruct (Z.gtb_spec (zlen (wr_payload rec)) 65535); [lia|].
  pose proof (frame_pos crc32 (set_lsn (ww_lsn_clock w) rec)) as Hfp. rewrite zlen_frame in Hfp. change (wr_payload (set_lsn _ rec)) with (wr_payload rec) in Hfp.
  assert (Hw : fst (write_record_to_segment (frame crc32 (set_lsn (ww_lsn_clock w) rec)) (ww_lsn_clock w) (ww_segment_manager w)) = Err WalWriteFailed).
  { unfold write_record_to_segment, mbindM at 1, mget. destruct (_ >? _); [done|]. cbn [write_loop].
    destruct (Z.ltb_spec 0 (zlen (frame crc32 (set_lsn (ww_lsn_clock w) rec)))) as [_|Hz]; [|rewrite zlen_frame in Hz; change (wr_payload (set_lsn _ rec)) with (wr_payload rec) in Hz; lia]. unfold mbindM at 1, mget. unfold wrap64.
    rewrite Z.add_0_r, Z.mod_small by lia. unfold mbindM at 1, ensure_for_write, mbindM at 1, mget, Lsn_segment_id.
    set (id := ww_lsn_clock w / sm_segment_size (ww_segment_manager w)) in *.
    destruct (Z.eqb_spec id (sm_current_segment_id (ww_segment_manager w))); [lia|].
    destruct (Z.ltb_spec id (sm_current_segment_id (ww_segment_manager w))); [done|lia]. }
  rewrite Hw. done.
Qed.

(** C24: a restart resumes at the end of the log.  On a directory whose log, from a
    record boundary [hint] not older than the oldest segment, is [rs] and then
    ends (in zeros or in a torn record), opening the writer succeeds, drops
    nothing that was read, and continues at the byte after the last record,
    which it counts as durable.  Where a later segment file exists already (an
    interrupted write across a segment boundary had created it) the writer that
    opens so is unusable: every append fails and poisons it. *)
Theorem reopen_resumes crc32 os_read d ss hint rs f :
  (forall bs, in_u 32 (crc32 bs)) -> os_ok os_read -> os_never_fails os_read ->
  8 <= ss -> ss mod 8 = 0 -> 8 <= hint -> hint mod 8 = 0 -> hint + zlen (frames crc32 rs) < 2 ^ 61 ->
  wd_io d = [] -> seg d (latest_of d) = Some f -> zlen (f_data f) = ss -> 0 <= latest_of d ->
  wal_limit (dir_files d) ss + 2 ^ 17 <= 2 ^ 64 -> map_Forall (fun _ bs => wf_bytes bs) (dir_files d) ->
  is_Some (dir_files d !! wal_filename (hint / ss)) -> oldest_start ss d <= hint ->
  Forall good_record rs -> dbytes d ss hint (frames crc32 rs) ->
  let e := hint + zlen (frames crc32 rs) in
  log_ends (dir_files d) ss crc32 e ->
  exists w d', open_with_scan_start crc32 os_read ss hint d = (Ok w, d') /\ dir_files d' = dir_files d /\
    ww_lsn_clock w = e /\ (e > 8 -> ww_synced_lsn w = e) /\ ww_error w = false /\
    (e / ss < latest_of d -> forall rec, zlen (wr_payload rec) <= 65535 ->
       fst (append crc32 rec w) = Err WalWriteFailed /\ ww_error (snd (append crc32 rec w)) = true).
Proof.
  intros Hcrc Hos Hnf Hss Hal Hh Hha Hend Hio Hf Hlen Hlat Hroom Hwf Hfile Hold Hgood Hb e Hle.
  set (d1 := synced_dir (latest_of d) d). assert (Hfiles : dir_files d1 = dir_files d) by apply synced_dir_files.
  assert (Hio1 : wd_io d1 = []) by done.
  destruct (open_at_reading (dir_files d) ss hint) as (r & Ho & Hr & Hl); [done..|].
  destruct Hfile as [bs Hbs]. pose proof (file_below_limit (dir_files d) ss ltac:(lia) Hss hint bs ltac:(lia) Hbs) as Hlt.
  destruct (read_all_spec os_read Hos (dir_files d) ss ltac:(lia) Hss Hroom crc32 Hcrc Hwf rs r) as (rest & r' & He & _ & _ & Hres);
    [by apply not_io_fails|done|lia|done|by rewrite Hl|lia|]. rewrite Hl in Hres. destruct (Hres Hle) as [-> Hlsn].
  assert (Hresume : discover_resume_lsn crc32 os_read ss hint d1 = (Ok e, d1)).
  { unfold discover_resume_lsn, discover_oldest_segment_id, mbindM at 1, mbindM at 1. rewrite dir_call_ok by done.
    unfold mbindM at 1, mget, mret at 1. change (if default 0 (fold_segments Z.ltb (names_of d1)) =? 0 then Lsn_FIRST else wrap64 (default 0 (fold_segments Z.ltb (names_of d1)) * ss)) with (oldest_start ss d1).
    replace (oldest_start ss d1) with (oldest_start ss d) by (symmetry; apply synced_dir_oldest).
    assert (Hscan : (if Lsn_is_valid hint && (hint >? oldest_start ss d) then hint else oldest_start ss d) = hint).
    { unfold Lsn_is_valid. rewrite (proj2 (Z.eqb_neq hint 0)) by lia. cbn [negb andb]. destruct (Z.gtb_spec hint (oldest_start ss d)); lia. }
    rewrite Hscan. unfold mbindM at 1, lift_res, mget. rewrite Hfiles. unfold mbindM at 1. rewrite Ho. unfold mbindM. rewrite He. cbn [fst snd].
    assert (Hsr : stream_result ((Ok <$> rs) ++ []) = Ok tt) by (rewrite app_nil_r; clear; induction rs; simpl; auto).
    rewrite Hsr. unfold mret. by rewrite Hlsn. }
  assert (Hmeta : exists n, metadata_len (wal_filename (latest_of d)) d1 = (Ok n, d1) /\ n > 0).
  { unfold metadata_len, mbindM. rewrite dir_call_ok by done. unfold mget, d1, synced_dir. cbn [wd_entries]. unfold seg in Hf.
    rewrite lookup_alter_eq, Hf. cbn [fmap option_fmap option_map f_data]. eexists. split; [done|]. lia. }
  destruct Hmeta as (n & Hmeta & Hn).
  assert (Hemod : e mod 8 = 0) by (subst e; rewrite Z.add_mod, Hha, frames_aligned by lia; done).
  assert (Hopen : open_with_segment_manager (mkSegMgr d1 ss (latest_of d)) e (if e >? Lsn_FIRST then e else Lsn_INVALID)
    = Ok (mkWalWriter e (mkSegMgr d1 ss (latest_of d)) (if e >? Lsn_FIRST then e else Lsn_INVALID) 0 false false false)).
  { unfold open_with_segment_manager, LsnClock_new, Lsn_is_valid, LSN_ALIGNMENT. rewrite (proj2 (Z.eqb_neq e 0)) by lia. by rewrite Hemod. }
  eexists _, d1. split.
  { unfold open_with_scan_start, mbindM at 1. rewrite (segment_manager_reopens ss d f) by done. fold d1.
    unfold mbindM at 1, current_name. cbn [sm_current_segment_id]. rewrite Hmeta.
    rewrite (proj2 (Z.gtb_lt n 0)), orb_true_r by lia. unfold mbindM at 1. rewrite Hresume.
    unfold mbindM, mget, lift_res. cbn [sm_segment_size]. by rewrite Hopen. }
  split; [done|]. split; [done|]. cbn [ww_lsn_clock ww_synced_lsn ww_error]. split.
  { intros. change Lsn_FIRST with 8. by rewrite (proj2 (Z.gtb_lt e 8)) by lia. }
  split; [done|]. intros Hseg rec Hp. pose proof (frame_size_spec (zlen (wr_payload rec))) as [? _]. unfold WAL_RECORD_HEADER_SIZE in *.
  apply blocked_append; cbn [ww_error ww_lsn_clock ww_segment_manager sm_segment_size sm_current_segment_id]; try done; lia.
Qed.

Definition demo_run_dir : WalDir := sm_dir (ww_segment_manager (sys_writer demo_run)).

Lemma reopen_resumes_witness :
  exists w d', open_with_scan_start sum32 short_read 64 8 demo_run_dir = (Ok w, d') /\ ww_lsn_clock w = 88 /\ ww_synced_lsn w = 88.
Proof.
  assert (Hseg : exists f, seg demo_run_dir (latest_of demo_run_dir) = Some f /\ zlen (f_data f) = 64).
  { destruct (seg demo_run_dir (latest_of demo_run_dir)) as [f|] eqn:E; [|vm_compute in E; discriminate].
    exists f. split; [done|]. vm_compute in E. injection E as <-. reflexivity. }
  destruct Hseg as (f & Hf & Hl).
  destruct (reopen_resumes sum32 short_read demo_run_dir 64 8 (sys_log demo_run) f) as (w & d' & Ho & _ & Hc & Hs & _ & _);
    [apply sum32_range|apply short_read_ok|apply short_read_ok|lia|done|lia|done|vm_compute; reflexivity|vm_compute; reflexivity|done|done
    |vm_compute; congruence|vm_compute; congruence| |vm_compute; by eexists|vm_compute; congruence| | | |].
  - apply (bool_decide_unpack _). vm_compute. exact I.
  - repeat constructor; try (vm_compute; congruence); vm_compute; intuition congruence.
  - apply has_bytes_check. vm_compute. reflexivity.
  - left. apply zeros_from_check; [lia|vm_compute; congruence|vm_compute; reflexivity].
  - exists w, d'. split; [done|]. change (8 + zlen (frames sum32 (sys_log demo_run))) with (8 + Z.of_nat (length (frames sum32 (sys_log demo_run)))) in *.
    replace (8 + zlen (frames sum32 (sys_log demo_run))) with 88 in * by (vm_compute; reflexivity). split; [done|]. by apply Hs.
Defined.

(** A writer like the demo one with a given segment size and script. *)
Definition scripted (ss : Z) (io : list (option nat)) (w : WalWriter) : WalWriter :=
  let sm := ww_segment_manager w in
  set_ww_segs (mkSegMgr (mkWalDir (wd_entries (sm_dir sm)) (wd_linked (sm_dir sm)) io) ss (sm_current_segment_id sm)) w.
Definition dir_left (w : WalWriter) : WalDir := sm_dir (ww_segment_manager (scripted 0 [] w)).

(** A torn write can defeat the restart, in two ways.  A record that was being
    written across a segment boundary leaves the next segment file behind: the
    writer reopens, and then every append fails.  And a torn record is
    overwritten only as far as the next record reaches: after one shorter record
    and another restart the rest of the torn bytes is read as a record, and
    opening the log fails with corruption although nothing is corrupt. *)
Theorem torn_write_breaks_restart :
  (exists d w rec,
     d = dir_left (snd (append sum32 demo_rec2 (scripted 64 [None; None; None; None; None; None; None; None; None; None; None; Some 0%nat] demo_w1))) /\
     fst (WalWriter_open sum32 short_read 64 d) = Ok w /\ ww_error w = false /\ record_ok rec /\
     fst (append sum32 rec w) = Err WalWriteFailed /\ fst (append sum32 rec (snd (append sum32 rec w))) = Err WalWriteFailed) /\
  (exists d0 big w1 w2 w3 l,
     fst (WalWriter_open sum32 short_read 256 d0) = Ok w1 /\ record_ok big /\ ww_lsn_clock w1 = 8 /\
     fst (WalWriter_open sum32 short_read 256 (dir_left (snd (append sum32 big (scripted 256 [None; Some 64%nat] w1))))) = Ok w2 /\
     append sum32 demo_rec1 w2 = (Ok 8, w3) /\
     fst (WalWriter_open sum32 short_read 256 (dir_left w3)) = Err (WalCorrupted l)).
Proof.
  split.
  - set (d := dir_left _). destruct (fst (WalWriter_open sum32 short_read 64 d)) as [w|e|] eqn:E;
      [|vm_compute in E; discriminate|vm_compute in E; discriminate].
    exists d, w, demo_rec1. split; [done|]. split; [done|]. vm_compute in E. injection E as <-.
    split; [reflexivity|]. split; [apply demo_recs_ok|]. split; vm_compute; reflexivity.
  - set (d0 := mkWalDir {[wal_filename 0 := mkFile (zeros 256) (zeros 256)]} {[wal_filename 0]} []).
    set (big := mkWalRecord 0 0 7 HeapInsert 0 (replicate 100 1)).
    destruct (fst (WalWriter_open sum32 short_read 256 d0)) as [w1|e|] eqn:E1; [|vm_compute in E1; discriminate|vm_compute in E1; discriminate].
    destruct (fst (WalWriter_open sum32 short_read 256 (dir_left (snd (append sum32 big (scripted 256 [None; Some 64%nat] w1)))))) as [w2|e|] eqn:E2;
      [|vm_compute in E1; injection E1 as <-; vm_compute in E2; discriminate|vm_compute in E1; injection E1 as <-; vm_compute in E2; discriminate].
    exists d0, big, w1, w2, (snd (append sum32 demo_rec1 w2)). vm_compute in E1. injection E1 as <-. vm_compute in E2. injection E2 as <-.
    eexists. split; [vm_compute; reflexivity|]. split; [|split; [reflexivity|split; [vm_compute; reflexivity|split; [vm_compute; reflexivity|vm_compute; reflexivity]]]].
    repeat split; try (vm_compute; congruence). apply Forall_replicate. split; done.
Qed.
