(* ===== verification/WalCommit.v ===== *)
(** * The WAL writer as the commit path's log

    [impl CommitWal for WalWriter] of [pg-txn/src/manager.rs]: the transaction
    manager's two calls, [append] and [flush_to], on the modelled writer, and the
    proof that they satisfy the laws [CommitWalLaws] the manager's theorems assume.

    A blocked [flush_to] waits on a condition variable while other threads run:
    appends of records other than transaction outcomes, the worker's critical
    sections, recycling, shutdown.  What they do, and when, is a script of
    environment steps carried by the log; each call consumes its part of it, so a
    script stands for a schedule.  A call whose script ends while it is still
    waiting has not returned ([Panic]). *)

From stdpp Require Import strings.
From S2P Require Import Prelude Types WalRecord WalSegment Analysis WalReader WalWriter WalDurable Clog TxnManager.
Local Open Scope Z_scope.
Local Open Scope rust_scope.

(** ** The environment of a call *)

#[export] Instance in_u_dec w x : Decision (in_u w x).
Proof. unfold in_u. apply _. Defined.

#[export] Instance is_byte_dec x : Decision (is_byte x).
Proof. unfold is_byte. apply _. Defined.

#[export] Instance record_ok_dec rec : Decision (record_ok rec).
Proof. unfold record_ok, WalRecord_wf. apply _. Defined.

(** The transaction outcome a record logs. *)
Definition outcome_of (rec : WalRecord) : option TxnRecord :=
  match wr_type rec with
  | TxnCommit => Some (TxnCommitRecord (wr_txn_id rec))
  | TxnAbort => Some (TxnAbortRecord (wr_txn_id rec))
  | _ => None
  end.

Inductive EnvStep :=
| EAppend (rec : WalRecord)
| ERecycle (lsn : Lsn)
| EDrop
| ECapture (batch : Z) (timed_out : bool)
| EFsync
| EPublish.

Section commit_log.
Context {BC : Bincode}.
Variable crc32 : list Z -> Z.

Definition with_writer (w : WalWriter) (s : WalSys) : WalSys := mkSys w (sys_log s) (sys_low s) (sys_wave s).

(** The writer accepts records whose fields have their width, while the log is
    below 2^62 bytes. *)
Definition accepts (rec : WalRecord) (s : WalSys) : Prop :=
  record_ok rec /\ ww_lsn_clock (sys_writer s) + frame_size (zlen (wr_payload rec)) < 2 ^ 62.

#[export] Instance accepts_dec rec s : Decision (accepts rec s).
Proof. unfold accepts. apply _. Defined.

(** [WalWriter::append], with the record kept in the ghost log. *)
Definition sys_append (rec : WalRecord) (s : WalSys) : res StorageError Lsn * WalSys :=
  if decide (accepts rec s) then
    match WalWriter.append crc32 rec (sys_writer s) with
    | (Ok lsn, w') => (Ok lsn, mkSys w' (sys_log s ++ [set_lsn lsn rec]) (sys_low s) (sys_wave s))
    | (Err e, w') => (Err e, with_writer w' s)
    | (Panic, _) => (Panic, s)
    end
  else (Panic, s).

Definition env_step (e : EnvStep) (s : WalSys) : WalSys :=
  let w := sys_writer s in
  match e with
  | EAppend rec => match outcome_of rec with None => snd (sys_append rec s) | Some _ => s end
  | ERecycle lsn =>
      if decide (0 <= lsn) then
        mkSys (snd (WalWriter_recycle_before lsn w)) (sys_log s)
          (Z.max (sys_low s) (Z.min (Lsn_segment_id lsn (sm_segment_size (ww_segment_manager w)))
                                    (sm_current_segment_id (ww_segment_manager w)))) (sys_wave s)
      else s
  | EDrop => with_writer (WalWriter_drop w) s
  | ECapture batch timed_out =>
      match sys_wave s with
      | None =>
          match worker_capture batch timed_out w with
          | (Sync wave, w') => mkSys w' (sys_log s) (sys_low s) (Some (wave, None))
          | (_, w') => with_writer w' s
          end
      | Some _ => s
      end
  | EFsync =>
      match sys_wave s with
      | Some (wave, None) =>
          let r := worker_fsync wave w in
          mkSys (snd r) (sys_log s) (sys_low s) (Some (wave, Some (res_is_ok (fst r))))
      | _ => s
      end
  | EPublish =>
      match sys_wave s with
      | Some (wave, Some ok) =>
          mkSys (snd (worker_publish wave (if ok : bool then Ok tt else Err Io) w)) (sys_log s) (sys_low s) None
      | _ => s
      end
  end.

Definition run_env (es : list EnvStep) (s : WalSys) : WalSys := foldl (fun s e => env_step e s) s es.

(** ** The two calls *)

Record CommitLog := mkCommitLog { cl_sys : WalSys; cl_script : list (list EnvStep) }.

(** The environment runs, then the call holds the writer's lock. *)
Definition cl_wait (l : CommitLog) : CommitLog :=
  mkCommitLog (run_env (hd [] (cl_script l)) (cl_sys l)) (tl (cl_script l)).

Definition record_for (r : TxnRecord) : res StorageError WalRecord :=
  match r with TxnCommitRecord xid => txn_commit xid | TxnAbortRecord xid => txn_abort xid end.

Definition cl_append (r : TxnRecord) (l : CommitLog) : res StorageError Lsn * CommitLog :=
  let l := cl_wait l in
  match record_for r with
  | Ok rec => let a := sys_append rec (cl_sys l) in (fst a, mkCommitLog (snd a) (cl_script l))
  | Err e => (Err e, l)
  | Panic => (Panic, l)
  end.

(** The loop of [flush_to]: [script] is what happens during each wait. *)
Fixpoint flush_wait (lsn : Lsn) (script : list (list EnvStep)) (s : WalSys) : res StorageError unit * CommitLog :=
  match flush_to_iter lsn (sys_writer s) with
  | (Ok true, w') => (Ok tt, mkCommitLog (with_writer w' s) script)
  | (Ok false, w') =>
      match script with
      | [] => (Panic, mkCommitLog (with_writer w' s) [])
      | es :: script => flush_wait lsn script (run_env es (with_writer w' s))
      end
  | (Err e, w') => (Err e, mkCommitLog (with_writer w' s) script)
  | (Panic, w') => (Panic, mkCommitLog (with_writer w' s) script)
  end.

Definition cl_flush_to (lsn : Lsn) (l : CommitLog) : res StorageError unit * CommitLog :=
  let l := cl_wait l in
  match flush_to_enter lsn (sys_writer (cl_sys l)) with
  | (Ok true, w') => (Ok tt, mkCommitLog (with_writer w' (cl_sys l)) (cl_script l))
  | (Ok false, w') => flush_wait lsn (cl_script l) (with_writer w' (cl_sys l))
  | (Err e, w') => (Err e, mkCommitLog (with_writer w' (cl_sys l)) (cl_script l))
  | (Panic, w') => (Panic, mkCommitLog (with_writer w' (cl_sys l)) (cl_script l))
  end.

(** ** Every call is a run of the writer's system *)

Lemma with_writer_same s : with_writer (sys_writer s) s = s.
Proof. by destruct s. Qed.

Lemma sys_append_steps rec s : rtc (wal_step crc32) s (snd (sys_append rec s)).
Proof.
  unfold sys_append. case_decide as Ha; [|apply rtc_refl]. destruct Ha as [Hr Hl]. destruct s as [w log low wave].
  cbn [sys_writer] in *. destruct (WalWriter.append crc32 rec w) as [[lsn|e|] w'] eqn:E; cbn [snd].
  - apply rtc_once. by eapply WalDurable.step_append.
  - apply rtc_once. by eapply WalDurable.step_append_fails.
  - apply rtc_refl.
Qed.

Lemma env_step_steps e s : rtc (wal_step crc32) s (env_step e s).
Proof.
  destruct s as [w log low wave]. destruct e as [rec|lsn| |batch timed_out| |]; cbn [env_step sys_writer sys_log sys_low sys_wave with_writer].
  - destruct (outcome_of rec); [apply rtc_refl|apply sys_append_steps].
  - case_decide; [|apply rtc_refl]. apply rtc_once. eapply step_recycle; [done|apply surjective_pairing].
  - apply rtc_once, step_drop.
  - destruct wave as [wave|]; [apply rtc_refl|]. destruct (worker_capture batch timed_out w) as [st w'] eqn:E.
    destruct st; apply rtc_once; try (by eapply step_capture); by eapply step_idle.
  - destruct wave as [[wave [ok|]]|]; [apply rtc_refl| |apply rtc_refl]. apply rtc_once. eapply step_fsync, surjective_pairing.
  - destruct wave as [[wave [ok|]]|]; [|apply rtc_refl|apply rtc_refl]. apply rtc_once. eapply step_publish, surjective_pairing.
Qed.

Lemma run_env_steps es : forall s, rtc (wal_step crc32) s (run_env es s).
Proof.
  induction es as [|e es IH]; intros s; [apply rtc_refl|]. etransitivity; [apply env_step_steps|apply IH].
Qed.

Lemma cl_append_steps r l : rtc (wal_step crc32) (cl_sys l) (cl_sys (snd (cl_append r l))).
Proof.
  unfold cl_append. destruct (record_for r); cbn [snd cl_sys cl_wait]; try apply run_env_steps.
  etransitivity; [apply run_env_steps|apply sys_append_steps].
Qed.

Lemma iter_step lsn s out w' : flush_to_iter lsn (sys_writer s) = (out, w') -> rtc (wal_step crc32) s (with_writer w' s).
Proof. intros E. apply rtc_once. destruct s. by eapply step_flush_iter. Qed.

Lemma flush_wait_steps lsn script : forall s, rtc (wal_step crc32) s (cl_sys (snd (flush_wait lsn script s))).
Proof.
  induction script as [|es script IH]; intros s; cbn [flush_wait];
    destruct (flush_to_iter lsn (sys_writer s)) as [[[]|e|] w'] eqn:E; cbn [snd cl_sys]; try by eapply iter_step.
  etransitivity; [by eapply iter_step|]. etransitivity; [apply run_env_steps|apply IH].
Qed.

Lemma cl_flush_steps lsn l : rtc (wal_step crc32) (cl_sys l) (cl_sys (snd (cl_flush_to lsn l))).
Proof.
  unfold cl_flush_to. cbn [cl_sys cl_wait cl_script]. set (s := run_env _ (cl_sys l)).
  etransitivity; [apply run_env_steps|]. fold s.
  destruct (flush_to_enter lsn (sys_writer s)) as [o w'] eqn:E.
  assert (He : rtc (wal_step crc32) s (with_writer w' s)) by (apply rtc_once; destruct s; by eapply step_flush_enter).
  destruct o as [[]|e|]; cbn [snd cl_sys]; try done. etransitivity; [exact He|apply flush_wait_steps].
Qed.

(** ** What the calls do to the log *)

Definition outcomes (log : list WalRecord) : list (Lsn * TxnRecord) :=
  omap (fun rec => (fun r => (wr_lsn rec, r)) <$> outcome_of rec) log.

Lemma outcomes_app log log' : outcomes (log ++ log') = outcomes log ++ outcomes log'.
Proof. apply omap_app. Qed.

Lemma sys_append_outcomes rec s :
  outcome_of rec = None -> outcomes (sys_log (snd (sys_append rec s))) = outcomes (sys_log s).
Proof.
  intros Hn. unfold sys_append. case_decide; [|done].
  destruct (WalWriter.append crc32 rec (sys_writer s)) as [[lsn|e|] w']; cbn [snd sys_log with_writer]; [|done|done].
  rewrite outcomes_app. unfold outcomes at 2. cbn [omap list_omap].
  assert (outcome_of (set_lsn lsn rec) = None) as -> by exact Hn. apply app_nil_r.
Qed.

Lemma env_step_outcomes e s : outcomes (sys_log (env_step e s)) = outcomes (sys_log s).
Proof.
  destruct e as [rec|lsn| |batch timed_out| |]; cbn [env_step]; try done.
  - destruct (outcome_of rec) eqn:E; [done|by apply sys_append_outcomes].
  - by case_decide.
  - destruct (sys_wave s); [done|]. by destruct (worker_capture batch timed_out (sys_writer s)) as [[] w'].
  - by destruct (sys_wave s) as [[wave [ok|]]|].
  - by destruct (sys_wave s) as [[wave [ok|]]|].
Qed.

Lemma run_env_outcomes es : forall s, outcomes (sys_log (run_env es s)) = outcomes (sys_log s).
Proof. induction es as [|e es IH]; intros s; [done|]. simpl. by rewrite IH, env_step_outcomes. Qed.

Lemma record_for_outcome r rec lsn : record_for r = Ok rec -> outcome_of (set_lsn lsn rec) = Some r.
Proof.
  destruct r as [xid|xid]; unfold record_for, txn_commit, txn_abort; intros H; inv_bind H; by apply Ok_inj in H as <-.
Qed.

Lemma cl_append_outcomes r l :
  match cl_append r l with
  | (Ok lsn, l') => outcomes (sys_log (cl_sys l')) = outcomes (sys_log (cl_sys l)) ++ [(lsn, r)]
  | (_, l') => outcomes (sys_log (cl_sys l')) = outcomes (sys_log (cl_sys l))
  end.
Proof.
  unfold cl_append. destruct (record_for r) as [rec|e|] eqn:Er; cbn [fst snd cl_sys cl_wait]; try apply run_env_outcomes.
  set (s := run_env _ (cl_sys l)). assert (Hs : outcomes (sys_log s) = outcomes (sys_log (cl_sys l))) by apply run_env_outcomes.
  unfold sys_append. case_decide; [|done].
  destruct (WalWriter.append crc32 rec (sys_writer s)) as [[lsn|e|] w']; cbn [fst snd cl_sys sys_log with_writer]; try done.
  rewrite outcomes_app, Hs. unfold outcomes at 2. cbn [omap list_omap]. by rewrite (record_for_outcome r rec lsn Er).
Qed.

Lemma flush_wait_outcomes lsn script : forall s,
  outcomes (sys_log (cl_sys (snd (flush_wait lsn script s)))) = outcomes (sys_log s).
Proof.
  induction script as [|es script IH]; intros s; cbn [flush_wait];
    destruct (flush_to_iter lsn (sys_writer s)) as [[[]|e|] w']; try done.
  by rewrite IH, run_env_outcomes.
Qed.

Lemma cl_flush_outcomes lsn l :
  outcomes (sys_log (cl_sys (snd (cl_flush_to lsn l)))) = outcomes (sys_log (cl_sys l)).
Proof.
  unfold cl_flush_to. cbn [cl_wait cl_sys cl_script].
  destruct (flush_to_enter lsn (sys_writer (run_env _ (cl_sys l)))) as [[[]|e|] w']; cbn [snd cl_sys];
    rewrite ?flush_wait_outcomes; cbn [sys_log with_writer]; apply run_env_outcomes.
Qed.

(** A flush that returned [Ok] has seen [synced_lsn] reach its LSN. *)
Lemma flush_wait_synced lsn script : forall s l',
  flush_wait lsn script s = (Ok tt, l') -> lsn <= ww_synced_lsn (sys_writer (cl_sys l')).
Proof.
  induction script as [|es script IH]; intros s l'; cbn [flush_wait];
    destruct (flush_to_iter lsn (sys_writer s)) as [[[]|e|] w'] eqn:E; try done; try (by apply IH);
    intros [= <-]; apply flush_iter_spec in E as [[->| ->] Hs]; by apply Hs.
Qed.

Lemma cl_flush_synced lsn l l' :
  cl_flush_to lsn l = (Ok tt, l') -> lsn <= ww_synced_lsn (sys_writer (cl_sys l')).
Proof.
  unfold cl_flush_to. cbn [cl_wait cl_sys cl_script]. set (s := run_env _ (cl_sys l)).
  destruct (flush_to_enter lsn (sys_writer s)) as [[[]|e|] w'] eqn:E; try done.
  - intros [= <-]. apply flush_enter_spec in E as [[->| ->] Hs]; by apply Hs.
  - apply flush_wait_synced.
Qed.

(** ** The durable part of the log *)

(** The records that end at or before [synced]; the first starts at [pos]. *)
Fixpoint durable_part (pos synced : Z) (log : list WalRecord) : list WalRecord :=
  match log with
  | [] => []
  | rec :: log =>
      let pos := pos + zlen (frame crc32 rec) in
      if pos <=? synced then rec :: durable_part pos synced log else []
  end.

Lemma durable_part_prefix synced log : forall pos, durable_part pos synced log `prefix_of` log.
Proof.
  induction log as [|rec log IH]; intros pos; cbn [durable_part app]; [done|]. destruct (_ <=? _); [|apply prefix_nil].
  by apply prefix_cons.
Qed.

Lemma durable_part_mono synced synced' log log' : synced <= synced' ->
  forall pos, durable_part pos synced log `prefix_of` durable_part pos synced' (log ++ log').
Proof.
  intros Hs. induction log as [|rec log IH]; intros pos; cbn [durable_part app]; [apply prefix_nil|].
  destruct (Z.leb_spec (pos + zlen (frame crc32 rec)) synced); [|apply prefix_nil].
  rewrite (proj2 (Z.leb_le _ _)) by lia. by apply prefix_cons.
Qed.

Lemma durable_part_covers synced old new : forall pos,
  pos + zlen (WalReader.frames crc32 old) <= synced -> old `prefix_of` durable_part pos synced (old ++ new).
Proof.
  induction old as [|rec old IH]; intros pos Hs; cbn [durable_part app]; [apply prefix_nil|].
  rewrite frames_cons, length_app in Hs. rewrite (proj2 (Z.leb_le _ _)) by lia. apply prefix_cons, IH. lia.
Qed.

Lemma outcomes_prefix log log' : log `prefix_of` log' -> (length (outcomes log) <= length (outcomes log'))%nat.
Proof. intros [k ->]. rewrite outcomes_app, length_app. lia. Qed.

(** ** The invariant of the log, and the laws *)

Context {ke : KeptEntries}.
Variable start : Z.

(** Records sit at their LSNs. *)
Definition placed (log : list WalRecord) : Prop :=
  forall old rec new, log = old ++ rec :: new -> wr_lsn rec = start + zlen (WalReader.frames crc32 old).

Definition log_inv (s : WalSys) : Prop := wal_inv crc32 start s /\ placed (sys_log s).

Lemma placed_snoc log rec :
  placed log -> wr_lsn rec = start + zlen (WalReader.frames crc32 log) -> placed (log ++ [rec]).
Proof.
  intros Hp Hr old rec' new He. destruct (decide (new = [])) as [->|Hne].
  - apply app_inj_tail in He as [-> ->]. done.
  - destruct (exists_last Hne) as (new' & x & ->). change (old ++ rec' :: new' ++ [x]) with (old ++ (rec' :: new') ++ [x]) in He.
    rewrite app_assoc in He. apply app_inj_tail in He as [-> _]. by eapply Hp.
Qed.

Lemma step_synced s s' : wal_inv crc32 start s -> wal_step crc32 s s' ->
  ww_synced_lsn (sys_writer s) <= ww_synced_lsn (sys_writer s') /\ sys_log s `prefix_of` sys_log s'.
Proof.
  intros Hi Hs. assert (Hc : 0 <= ww_lsn_clock (sys_writer s)).
  { pose proof (i_clock _ _ _ Hi). pose proof (i_start _ _ _ Hi). unfold log_end in *. lia. }
  destruct Hs as [rec lsn w w' log low wave Hr Hl E|rec e w w' log low wave Hr Hl E|lsn out w w' log low wave E
    |lsn out w w' log low wave E|lsn out w w' log low wave Hn E|w log low wave|batch timed_out wave w w' log low E
    |batch timed_out st w w' log low E Hst|wave r w w' log low E|wave ok st w w' log low E];
    cbn [sys_writer sys_log] in *.
  - split; [|by eexists]. rewrite append_cases in E by done. destruct (ww_error w); [done|]. destruct (_ >? _); [done|].
    destruct (fst _); by simplify_eq/=.
  - split; [|done]. rewrite append_cases in E by done. destruct (ww_error w); [by simplify_eq/=|].
    destruct (_ >? _); [by simplify_eq/=|]. destruct (fst _); by simplify_eq/=.
  - apply flush_enter_spec in E as [[->| ->] _]; by split.
  - apply flush_iter_spec in E as [[->| ->] _]; by split.
  - split; [|done]. unfold WalWriter_recycle_before, mbindM, check_error, mget, mthrow, on_segs, mret in E.
    destruct (ww_error w); [by simplify_eq/=|]. destruct (ww_shutdown w); [by simplify_eq/=|].
    destruct (recycle_before lsn (ww_segment_manager w)) as [[] sm']; by simplify_eq/=.
  - by split.
  - apply capture_cases in E as [[-> _]|(out & w1 & E & H)]; [by split|]. unfold on_segs in E. simplify_eq/=.
    destruct H as [[_ ->]|[_ ->]]; by split.
  - apply capture_cases in E as [[-> _]|(out & w1 & E & H)]; [by split|]. unfold on_segs in E. simplify_eq/=.
    destruct H as [[_ ->]|[_ ->]]; by split.
  - unfold worker_fsync, on_segs in E. simplify_eq/=. by split.
  - destruct ok; simplify_eq/=; split; try done. lia.
Qed.

Lemma step_log_inv s s' : log_inv s -> wal_step crc32 s s' -> log_inv s'.
Proof.
  intros [Hi Hp] Hs. split; [by eapply wal_step_inv|]. destruct Hs; cbn [sys_log] in *; try done.
  pose proof (inv_append crc32 start (mkSys w log low wave) rec lsn w' Hi H H0 H1) as [-> _].
  by apply placed_snoc.
Qed.

Lemma steps_log_inv s s' : log_inv s -> rtc (wal_step crc32) s s' ->
  log_inv s' /\ ww_synced_lsn (sys_writer s) <= ww_synced_lsn (sys_writer s') /\ sys_log s `prefix_of` sys_log s'.
Proof.
  intros Hi Hs. induction Hs as [s|s1 s2 s3 H12 _ IH]; [by split|].
  destruct (step_synced s1 s2 (proj1 Hi) H12) as [A1 A2].
  destruct (IH (step_log_inv _ _ Hi H12)) as (B1 & B2 & B3). split; [done|]. split; [lia|by etrans].
Qed.

(** The commit log: the writer in a state its steps can reach. *)
Definition WriterLog : Type := { l : CommitLog | log_inv (cl_sys l) }.

Lemma cl_append_inv r (w : WriterLog) : log_inv (cl_sys (snd (cl_append r (`w)))).
Proof. apply (steps_log_inv _ _ (proj2_sig w)), cl_append_steps. Qed.

Lemma cl_flush_inv lsn (w : WriterLog) : log_inv (cl_sys (snd (cl_flush_to lsn (`w)))).
Proof. apply (steps_log_inv _ _ (proj2_sig w)), cl_flush_steps. Qed.

#[export] Instance WalWriter_CommitWal : CommitWal WriterLog := {
  append := fun r w => (fst (cl_append r (`w)), exist _ (snd (cl_append r (`w))) (cl_append_inv r w));
  flush_to := fun lsn w => (fst (cl_flush_to lsn (`w)), exist _ (snd (cl_flush_to lsn (`w))) (cl_flush_inv lsn w))
}.

Definition durable_count (s : WalSys) : nat :=
  length (outcomes (durable_part start (ww_synced_lsn (sys_writer s)) (sys_log s))).

Lemma durable_count_mono s s' : log_inv s -> rtc (wal_step crc32) s s' -> (durable_count s <= durable_count s')%nat.
Proof.
  intros Hi Hs. destruct (steps_log_inv s s' Hi Hs) as (_ & Hsy & [k Hk]).
  apply outcomes_prefix. rewrite Hk. by apply durable_part_mono.
Qed.

Lemma outcomes_at log i lsn r : outcomes log !! i = Some (lsn, r) ->
  exists old rec new, log = old ++ rec :: new /\ wr_lsn rec = lsn /\ length (outcomes old) = i.
Proof.
  revert i. induction log as [|rec log IH]; intros i Hi; [done|]. unfold outcomes in Hi. cbn [omap list_omap] in Hi.
  destruct (outcome_of rec) as [r0|] eqn:E; cbn [fmap option_fmap option_map] in Hi.
  - destruct i as [|i].
    + injection Hi as <- <-. by exists [], rec, log.
    + simpl in Hi. apply IH in Hi as (old & rec' & new & -> & Hl & Hlen). exists (rec :: old), rec', new.
      split; [done|]. split; [done|]. unfold outcomes in *. cbn [omap list_omap]. rewrite E. simpl. by rewrite Hlen.
  - apply IH in Hi as (old & rec' & new & -> & Hl & Hlen). exists (rec :: old), rec', new.
    split; [done|]. split; [done|]. unfold outcomes in *. cbn [omap list_omap]. by rewrite E.
Qed.

(** A flush of a record's LSN reaches every record before it. *)
Lemma flush_reaches lsn l l' i r : log_inv (cl_sys l) -> cl_flush_to lsn l = (Ok tt, l') ->
  outcomes (sys_log (cl_sys l)) !! i = Some (lsn, r) -> (i <= durable_count (cl_sys l'))%nat.
Proof.
  intros Hi Hf Hr. pose proof (cl_flush_steps lsn l) as Hst. rewrite Hf in Hst. cbn [snd] in Hst.
  destruct (steps_log_inv _ _ Hi Hst) as (_ & _ & [k Hk]).
  destruct (outcomes_at _ _ _ _ Hr) as (old & rec & new & Hlog & Hl & Hlen).
  pose proof (cl_flush_synced _ _ _ Hf) as Hsy. rewrite <-Hl, (proj2 Hi old rec new Hlog) in Hsy.
  unfold durable_count. rewrite Hk, Hlog, <-app_assoc, <-Hlen. apply outcomes_prefix. by apply durable_part_covers.
Qed.

(** The writer satisfies what the transaction manager relies on. *)
#[export] Instance WalWriter_laws : CommitWalLaws WriterLog.
Proof.
  refine {| wal_records := fun w => outcomes (sys_log (cl_sys (`w))); wal_durable := fun w => durable_count (cl_sys (`w)) |}.
  - intros r w res w' [= <- <-]. cbn [proj1_sig]. split.
    + apply durable_count_mono; [apply (proj2_sig w)|apply cl_append_steps].
    + pose proof (cl_append_outcomes r (`w)) as H. destruct (cl_append r (`w)) as [[lsn|e|] l']; cbn [fst snd] in *; auto.
  - intros lsn w res w' [= <- <-]. cbn [proj1_sig]. split; [apply cl_flush_outcomes|]. split.
    + apply durable_count_mono; [apply (proj2_sig w)|apply cl_flush_steps].
    + intros Hok i r Hi. apply (flush_reaches lsn (`w) _ i r (proj2_sig w)); [|done].
      rewrite <-Hok. apply surjective_pairing.
Defined.

(** ** The commit path end to end *)

Lemma durable_part_synced synced log : forall pos, pos <= synced ->
  pos + zlen (WalReader.frames crc32 (durable_part pos synced log)) <= synced.
Proof.
  induction log as [|rec log IH]; intros pos Hp; cbn [durable_part]; [simpl; lia|].
  destruct (Z.leb_spec (pos + zlen (frame crc32 rec)) synced) as [Hle|]; [|simpl; lia].
  rewrite frames_cons, length_app. specialize (IH _ Hle). lia.
Qed.

(** The manager over the modelled writer: in every interleaving, and after every
    crash that keeps the entries in [kept], the reader started where the log starts
    (when that has not been recycled) returns first a run of records that gives
    every transaction readers had seen finished its outcome, except at most the one
    whose record is the next in the log. *)
Theorem acknowledged_outcomes_survive {C : Type} `{CC : ClogAccessor C} `{CL : !ClogLaws C}
    os_read first (w : WriterLog) (c : C) (s : System C WriterLog) files :
  (forall bs, in_u 32 (crc32 bs)) -> os_ok os_read -> os_never_fails os_read -> start mod 8 = 0 ->
  0 < first < 2 ^ 64 -> clog_inv c -> (forall x, first <= x < 2 ^ 64 -> clog_view c x = InProgress) ->
  steps (initial first w c) s ->
  let sys := cl_sys (proj1_sig (wal (mgr s))) in
  let sm := ww_segment_manager (sys_writer sys) in
  let rs := durable_part start (ww_synced_lsn (sys_writer sys)) (sys_log sys) in
  rs <> [] -> sys_low sys * sm_segment_size sm <= start -> crash_image (sm_segment_size sm) (sm_dir sm) files ->
  (exists rest, wal_stream crc32 os_read files (sm_segment_size sm) start = Ok ((Ok <$> rs) ++ rest) /\ (Panic ∉ rest)) /\
  (forall x, first <= x < 2 ^ 64 -> sview s x <> InProgress ->
     last_state x (snd <$> outcomes rs) None = Some (sview s x) \/
     exists lsn, last_at x (length (outcomes rs)) lsn (sview s x) (outcomes (sys_log sys))).
Proof.
  intros Hcrc Hos Hnf Hal Hf Hc Hv Hs sys sm rs Hne Hlow Hci.
  destruct (proj2_sig (wal (mgr s))) as [Hi _]. fold sys in Hi.
  destruct (durable_part_prefix (ww_synced_lsn (sys_writer sys)) (sys_log sys) start) as [new Hnew]. fold rs in Hnew.
  assert (Hpos : start <= ww_synced_lsn (sys_writer sys)).
  { unfold rs in Hne. destruct (sys_log sys) as [|rec l]; cbn [durable_part] in Hne; [done|].
    destruct (Z.leb_spec (start + zlen (frame crc32 rec)) (ww_synced_lsn (sys_writer sys))); [lia|done]. }
  split.
  - pose proof (synced_survive crc32 os_read start sys [] rs new files Hcrc Hos Hnf Hi Hal Hnew Hne) as H.
    change (zlen (WalReader.frames crc32 [])) with 0 in H. rewrite Z.add_0_r in H. apply H; [done| |done].
    by apply durable_part_synced.
  - intros x Hx Hn.
    destruct (settled_boundary _ _ _ _ (visible_within 1 first w c s x Hf Hc Hv Hs Hx Hn)) as [Hse|[lsn Hb]];
      [left|right; by exists lsn].
    apply (settled_last_state _ _ _ _ None) in Hse. rewrite <-Hse. f_equal.
    change (wal_records (wal (mgr s))) with (outcomes (sys_log sys)).
    change (wal_durable (wal (mgr s))) with (length (outcomes rs)).
    rewrite Hnew, outcomes_app, fmap_app, take_app_le by (rewrite length_fmap; lia).
    rewrite firstn_all2; [done|]. rewrite length_fmap. lia.
Qed.

End commit_log.

(** ** The contract the writer does not give *)

(** The run of [flush_to_returns_early]: a commit record appended right where the
    last group commit ended. *)
Definition early_sys : WalSys :=
  mkSys (snd (WalWriter.append sum32 demo_rec2 (demo_synced demo_w1))) [set_lsn 8 demo_rec1; set_lsn 48 demo_rec2] 0 None.

Lemma early_reached : rtc (wal_step sum32) (mkSys demo_writer [] 0 None) early_sys.
Proof.
  eapply rtc_l; [apply (demo_append_run demo_rec1); [apply demo_recs_ok|done|vm_compute; reflexivity]|].
  etransitivity; [apply demo_wave_run; vm_compute; reflexivity|].
  eapply rtc_l; [apply (demo_append_run demo_rec2); [apply demo_recs_ok|done|vm_compute; reflexivity]|]. apply rtc_refl.
Qed.

Lemma early_inv : log_inv sum32 (ke := no_kept) 8 early_sys.
Proof.
  apply (steps_log_inv sum32 (ke := no_kept) 8 (mkSys demo_writer [] 0 None)); [|apply early_reached].
  split; [apply (ready_inv (ke := no_kept)), demo_writer_ready|]. intros old rec new He. by destruct old.
Qed.

Definition early_log : WriterLog sum32 (ke := no_kept) 8 := exist _ (mkCommitLog early_sys []) early_inv.

(** With the modelled writer a successful [flush_to] of a record's LSN need not
    cover the record: the exception in the manager's theorems cannot be dropped. *)
Theorem writer_flush_may_miss_record :
  ~ FlushWithin (WriterLog sum32 (ke := no_kept) 8) 0.
Proof.
  intros Hcov. set (w' := snd (flush_to 48 early_log)).
  assert (Hf : flush_to 48 early_log = (Ok tt, w')) by (unfold w'; rewrite (surjective_pairing (flush_to 48 early_log)) at 1; f_equal; vm_compute; reflexivity).
  assert (Hi : wal_records early_log !! 0%nat = Some (48, TxnCommitRecord 7)) by (vm_compute; reflexivity).
  pose proof (Hcov 48 early_log w' 0%nat _ Hf Hi) as H. revert H.
  replace (wal_durable w') with 0%nat by (vm_compute; reflexivity). lia.
Qed.
