(* ===== verification/Recovery.v ===== *)
(** * Redo dispatch

    Models [pg-storage/src/recovery.rs]: the tables of the redo context, the
    registry of handlers and the handlers of the storage layer.

    The buffer pool is the class [PagePool]: [pin_mut] gives the content of a
    page under its write guard, [drop_mut] is the drop of that guard (the content
    written through it stays and the frame is dirty).  The class describes a pool
    whose checkpoint LSN is unset, as it is during recovery, so that [pin_mut]
    writes no full-page image.  A handler that fails in the middle drops its guard
    with whatever it has already written.

    The second part is the theory of page redo: which page actions may be
    replayed on a page of any age. *)

From S2P Require Import Prelude Types WalRecord PageAllocator Clog Superblock.
Local Open Scope Z_scope.
Local Open Scope rust_scope.

(** ** The buffer pool, as redo uses it *)

Abbreviation PageBytes := (list Z) (only parsing).

Class PagePool (P : Type) := {
  pin_mut : PageId -> M P StorageError PageBytes;
  drop_mut : PageId -> PageBytes -> P -> P;
  dirty_page_ids : P -> list PageId;
  flush : PageId -> M P StorageError unit;
  (** what a reader of the page sees, and what the data file holds *)
  pool_page : P -> PageId -> PageBytes;
  pool_disk : P -> PageId -> PageBytes;
}.

(** A frame is a [[u8; PAGE_SIZE]]. *)
Definition page_wf (page : PageBytes) : Prop := zlen page = PAGE_SIZE /\ wf_bytes page.

(** [pool_ok] says that no I/O error is ahead and every page can be pinned. *)
Class PagePoolLaws (P : Type) `{PagePool P} := {
  pool_ok : P -> Prop;
  pool_page_wf s p : page_wf (pool_page s p);
  pool_clean s p : p ∉ dirty_page_ids s -> pool_disk s p = pool_page s p;
  pin_mut_ok s p page s' : pin_mut p s = (Ok page, s') ->
    page = pool_page s p /\ (forall q, pool_page s' q = pool_page s q) /\
    (forall q, pool_disk s' q = pool_disk s q \/ pool_disk s' q = pool_page s q);
  pin_mut_total s p : pool_ok s -> exists page s', pin_mut p s = (Ok page, s') /\ pool_ok s';
  drop_mut_page s p page q : page_wf page ->
    pool_page (drop_mut p page s) q = if decide (q = p) then page else pool_page s q;
  drop_mut_disk s p page q : pool_disk (drop_mut p page s) q = pool_disk s q;
  drop_mut_total s p page : pool_ok s -> pool_ok (drop_mut p page s);
  flush_ok s p s' : flush p s = (Ok tt, s') ->
    (forall q, pool_page s' q = pool_page s q) /\ pool_disk s' p = pool_page s p /\
    (forall q, pool_disk s' q = pool_disk s q \/ pool_disk s' q = pool_page s q);
  flush_total s p : pool_ok s -> exists s', flush p s = (Ok tt, s') /\ pool_ok s';
}.

(** ** Tables of the redo context *)

Definition ActiveXactTable_add (txn_id : TxnId) (lsn : Lsn) (t : gmap Z Lsn) : gmap Z Lsn := <[txn_id := lsn]> t.
Definition ActiveXactTable_remove (txn_id : TxnId) (t : gmap Z Lsn) : gmap Z Lsn := delete txn_id t.
Definition DirtyPageTable_add (page_id : PageId) (rec_lsn : Lsn) (t : gmap Z Lsn) : gmap Z Lsn := <[page_id := rec_lsn]> t.
Definition DirtyPageTable_get (page_id : PageId) (t : gmap Z Lsn) : option Lsn := t !! page_id.

Record IncompleteSplit := mkIncompleteSplit {
  is_left_page : PageId;
  is_right_page : PageId;
  is_level : Z;
  is_left_old_next : PageId;
  is_copy_start_slot : option Z;
  is_prepare_lsn : Lsn;
}.

Definition IncompleteSplitTracker : Type := gmap Z IncompleteSplit.

Definition mark_prepare (left_page right_page : PageId) (level : Z) (left_old_next : PageId) (prepare_lsn : Lsn)
    (t : IncompleteSplitTracker) : IncompleteSplitTracker :=
  <[left_page := mkIncompleteSplit left_page right_page level left_old_next None prepare_lsn]> t.
Definition mark_copy (left_page : PageId) (copy_start_slot : Z) (t : IncompleteSplitTracker) : IncompleteSplitTracker :=
  alter (fun s => mkIncompleteSplit (is_left_page s) (is_right_page s) (is_level s) (is_left_old_next s)
                    (Some copy_start_slot) (is_prepare_lsn s)) left_page t.
Definition split_clear (left_page : PageId) (t : IncompleteSplitTracker) : IncompleteSplitTracker := delete left_page t.

#[export] Instance WalRecordType_countable : Countable WalRecordType.
Proof.
  refine (inj_countable WalRecordType_to_u8
            (fun v => match WalRecordType_from_u8 v with Ok t => Some t | _ => None end) _).
  by intros [].
Defined.

(** The replay-scoped handle on the data file, for the path without a pool. *)
Record PositionedFile := mkPositionedFile { pf_bytes : list Z; pf_io : list bool }.

Definition write_all_at (buf : list Z) (offset : Z) : M PositionedFile StorageError unit := fun f =>
  if hd true (pf_io f) && (offset + zlen buf <? 2 ^ 63)
  then (Ok tt, mkPositionedFile (pwrite offset buf (pf_bytes f)) (tl (pf_io f)))
  else (Err Io, mkPositionedFile (pf_bytes f) (tl (pf_io f))).

Section context.
Context {BC : Bincode} {P : Type} {PP : PagePool P} {C : Type} {CA : ClogAccessor C} {W : Type} {PW : PageWal W}.

Record RedoContext := mkRedoContext {
  buffer_pool : option P;
  page_allocator : PageAllocator W;
  ctx_clog : C;
  ctx_att : gmap Z Lsn;
  ctx_dpt : gmap Z Lsn;
  incomplete_splits : IncompleteSplitTracker;
  data_file : PositionedFile;
}.

Definition with_pool (b : option P) (c : RedoContext) : RedoContext :=
  mkRedoContext b (page_allocator c) (ctx_clog c) (ctx_att c) (ctx_dpt c) (incomplete_splits c) (data_file c).
Definition with_allocator (a : PageAllocator W) (c : RedoContext) : RedoContext :=
  mkRedoContext (buffer_pool c) a (ctx_clog c) (ctx_att c) (ctx_dpt c) (incomplete_splits c) (data_file c).
Definition with_ctx_clog (l : C) (c : RedoContext) : RedoContext :=
  mkRedoContext (buffer_pool c) (page_allocator c) l (ctx_att c) (ctx_dpt c) (incomplete_splits c) (data_file c).
Definition with_file (f : PositionedFile) (c : RedoContext) : RedoContext :=
  mkRedoContext (buffer_pool c) (page_allocator c) (ctx_clog c) (ctx_att c) (ctx_dpt c) (incomplete_splits c) f.

(** Pin a page, run [act] on its content through the guard, drop the guard. *)
Definition with_page (p : PageId) (act : M PageBytes StorageError unit) (pool : P) : res StorageError unit * P :=
  match pin_mut p pool with
  | (Ok page, pool) => let r := act page in (fst r, drop_mut p (snd r) pool)
  | (Err e, pool) => (Err e, pool)
  | (Panic, pool) => (Panic, pool)
  end.

(** Run on the pool of the context; [require_pool] fails when there is none. *)
Definition on_pool (f : P -> res StorageError unit * P) : M RedoContext StorageError unit := fun c =>
  match buffer_pool c with
  | Some pool => let r := f pool in (fst r, with_pool (Some (snd r)) c)
  | None => (Err InvalidOperation, c)
  end.

Definition on_allocator {A : Type} (m : M (PageAllocator W) StorageError A) : M RedoContext StorageError A := fun c =>
  let r := m (page_allocator c) in (fst r, with_allocator (snd r) c).
Definition on_ctx_clog {A : Type} (m : M C StorageError A) : M RedoContext StorageError A := fun c =>
  let r := m (ctx_clog c) in (fst r, with_ctx_clog (snd r) c).
Definition on_file {A : Type} (m : M PositionedFile StorageError A) : M RedoContext StorageError A := fun c =>
  let r := m (data_file c) in (fst r, with_file (snd r) c).
Definition of_res {A : Type} (r : res StorageError A) : M RedoContext StorageError A := fun c => (r, c).

(** ** Handlers and registry *)

Record RedoHandler := mkRedoHandler {
  kind : WalRecordType;
  apply : WalRecord -> M RedoContext StorageError unit;
}.

Abbreviation RedoRegistry := (gmap WalRecordType RedoHandler).

Definition register (h : RedoHandler) : M RedoRegistry StorageError unit := fun r =>
  (if r !! kind h is Some _ then Panic else Ok tt, <[kind h := h]> r).

Definition registry_apply (reg : RedoRegistry) (record : WalRecord) : M RedoContext StorageError unit :=
  match reg !! wr_type record with
  | Some handler => apply handler record
  | None => mthrow (UnknownRecord (WalRecordType_to_u8 (wr_type record)) (wr_lsn record))
  end.

Definition PageAllocRedoHandler : RedoHandler :=
  mkRedoHandler PageAlloc (fun record => on_allocator (replay_record record)).
Definition PageFreeRedoHandler : RedoHandler :=
  mkRedoHandler PageFree (fun record => on_allocator (replay_record record)).

(** [page.copy_from_slice(&image)] panics when the lengths differ. *)
Definition restore_image (image : list Z) (lsn : Lsn) : M PageBytes StorageError unit := fun page =>
  if zlen image =? zlen page
  then (Ok tt, set_page_pd_lsn image (Z.max lsn (page_pd_lsn image)))
  else (Panic, page).

Definition FullPageImageRedoHandler_apply (record : WalRecord) : M RedoContext StorageError unit :=
  let! decoded := of_res (decode_from_slice (wr_payload record)) in
  let! ctx := mget in
  match buffer_pool ctx with
  | Some _ => on_pool (with_page (fpi_page_id decoded) (restore_image (fpi_image decoded) (wr_lsn record)))
  | None =>
      let! image := of_res (let? _ := slice_get 0 8 (fpi_image decoded) in
                            Ok (set_page_pd_lsn (fpi_image decoded) (wr_lsn record))) in
      let offset := wrap64 ((fpi_page_id decoded - 1) mod 2 ^ 64 * PAGE_SIZE) in
      on_file (write_all_at image offset)
  end.
Definition FullPageImageRedoHandler : RedoHandler := mkRedoHandler FullPageImage FullPageImageRedoHandler_apply.

Definition NoOpRedoHandler (k : WalRecordType) : RedoHandler := mkRedoHandler k (fun _ => mret tt).

End context.

Arguments RedoContext P C W : clear implicits.
Arguments RedoHandler P C W : clear implicits.
Abbreviation RedoRegistry P C W := (gmap WalRecordType (RedoHandler P C W)).

(** ** Theory of page redo

    An action is replayable at its LSN if it is guarded by the page LSN, or if it
    overwrites the whole page. *)

Definition guarded (lsn : Lsn) (act : M PageBytes StorageError unit) : Prop :=
  (forall page, page_wf page -> lsn <= page_pd_lsn page -> act page = (Ok tt, page)) /\
  (forall page page', page_wf page -> act page = (Ok tt, page') -> page_wf page' /\ lsn <= page_pd_lsn page').

Definition overwrites (lsn : Lsn) (act : M PageBytes StorageError unit) : Prop :=
  forall page page', page_wf page -> act page = (Ok tt, page') ->
    page_wf page' /\ lsn <= page_pd_lsn page' /\ forall q, page_wf q -> act q = (Ok tt, page').

Record page_op := mkPageOp { po_lsn : Lsn; po_act : M PageBytes StorageError unit }.

Definition replayable (op : page_op) : Prop :=
  guarded (po_lsn op) (po_act op) \/ overwrites (po_lsn op) (po_act op).

(** The actions on one page, in log order; [None] when one of them fails. *)
Fixpoint run_ops (ops : list page_op) (page : PageBytes) : option PageBytes :=
  match ops with
  | [] => Some page
  | op :: ops => match po_act op page with (Ok _, page') => run_ops ops page' | _ => None end
  end.

(** A page redo can start from: some version of the page along the log (whatever
    was last flushed), or any bytes at all when the first action overwrites. *)
Definition recoverable (ops : list page_op) (base page : PageBytes) : Prop :=
  page_wf page /\
  ((exists n, run_ops (take n ops) base = Some page) \/
   (exists op rest, ops = op :: rest /\ overwrites (po_lsn op) (po_act op))).

Lemma run_ops_app l1 l2 x : run_ops (l1 ++ l2) x = run_ops l1 x ≫= run_ops l2.
Proof. revert x. induction l1 as [|op l1 IH]; intros x; [done|]. simpl. destruct (po_act op x) as [[]]; auto. Qed.

Lemma replayable_step op x y :
  replayable op -> page_wf x -> po_act op x = (Ok tt, y) -> page_wf y /\ po_lsn op <= page_pd_lsn y.
Proof. intros [[_ Hg]|Ho] Hx Hy; [by eapply Hg|]. by destruct (Ho _ _ Hx Hy) as (? & ? & _). Qed.

Lemma replayable_mono l op x y :
  replayable op -> page_wf x -> l <= po_lsn op -> l <= page_pd_lsn x -> po_act op x = (Ok tt, y) -> l <= page_pd_lsn y.
Proof. intros Hr Hx ?? Hy. destruct (replayable_step _ _ _ Hr Hx Hy). lia. Qed.

Lemma run_ops_later l ops : forall x y,
  Forall replayable ops -> Forall (fun op => l <= po_lsn op) ops -> page_wf x -> l <= page_pd_lsn x ->
  run_ops ops x = Some y -> page_wf y /\ l <= page_pd_lsn y.
Proof.
  induction ops as [|op ops IH]; intros x y Hr Hl Hx Hp Hy; [by injection Hy as <-|].
  simpl in Hy. destruct (po_act op x) as [[[]| |] x'] eqn:E; try done.
  inversion_clear Hr as [|?? Hop Hr']. inversion_clear Hl as [|?? Hlo Hl'].
  destruct (replayable_step _ _ _ Hop Hx E). eapply (IH x'); [done..| |done]. lia.
Qed.

Lemma run_ops_wf ops : forall x y, Forall replayable ops -> page_wf x -> run_ops ops x = Some y -> page_wf y.
Proof.
  induction ops as [|op ops IH]; intros x y Hr Hx Hy; [by injection Hy as <-|].
  simpl in Hy. destruct (po_act op x) as [[[]| |] x'] eqn:E; try done.
  inversion_clear Hr as [|?? Hop Hr']. destruct (replayable_step _ _ _ Hop Hx E). by eapply IH.
Qed.

(** Replaying from a later version: every action is skipped or starts over from
    its own version, so the state never leaves the versions of the page. *)
Lemma run_ops_again l1 : forall l2 x y,
  Forall replayable (l1 ++ l2) -> StronglySorted Z.le (po_lsn <$> (l1 ++ l2)) -> page_wf x ->
  run_ops l1 x = Some y ->
  (forall z, run_ops (l1 ++ l2) x = Some z -> run_ops (l1 ++ l2) y = Some z) /\
  (forall k y', run_ops (take k (l1 ++ l2)) y = Some y' ->
     exists m, run_ops (take m (l1 ++ l2)) x = Some y').
Proof.
  induction l1 as [|op l1 IH]; intros l2 x y Hr Hs Hx Hy.
  { injection Hy as <-. split; [done|]. by eauto. }
  simpl in *. destruct (po_act op x) as [[[]| |] x'] eqn:E; try done.
  inversion_clear Hr as [|?? Hop Hr']. inversion_clear Hs as [|?? Hs' Hle].
  destruct (replayable_step _ _ _ Hop Hx E) as [Hx' Hpd].
  destruct (IH l2 x' y Hr' Hs' Hx' Hy) as [IHz IHk].
  assert (page_wf y /\ po_lsn op <= page_pd_lsn y) as [Hyw Hyl].
  { apply Forall_app in Hr' as [Hr1 _]. eapply run_ops_later; [exact Hr1| |exact Hx'|exact Hpd|exact Hy].
    rewrite fmap_app in Hle. apply Forall_app in Hle as [Hle _]. by rewrite Forall_fmap in Hle. }
  destruct Hop as [[Hskip _]|Hover].
  - rewrite (Hskip _ Hyw Hyl). split; [done|]. intros [|k] y' Hk; simpl in Hk.
    + destruct (IHk 0%nat y' Hk) as [m Hm]. exists (S m). simpl. by rewrite E.
    + rewrite (Hskip _ Hyw Hyl) in Hk. destruct (IHk k y' Hk) as [m Hm]. exists (S m). simpl. by rewrite E.
  - destruct (Hover _ _ Hx E) as (_ & _ & Hany). rewrite (Hany _ Hyw). split; [done|].
    intros [|k] y' Hk; simpl in Hk.
    + destruct (IHk 0%nat y' Hk) as [m Hm]. exists (S m). simpl. by rewrite E.
    + rewrite (Hany _ Hyw) in Hk. exists (S k). simpl. by rewrite E.
Qed.

Section convergence.
Context (ops : list page_op) (base final : PageBytes).
Hypothesis ops_replayable : Forall replayable ops.
Hypothesis ops_ordered : StronglySorted Z.le (po_lsn <$> ops).
Hypothesis base_wf : page_wf base.
Hypothesis base_run : run_ops ops base = Some final.

Lemma overwrites_run op rest k page :
  ops = op :: rest -> overwrites (po_lsn op) (po_act op) -> page_wf page ->
  run_ops (take (S k) ops) page = run_ops (take (S k) ops) base.
Proof.
  intros Heq Ho Hp. rewrite Heq in *. simpl in *. destruct (po_act op base) as [[[]| |] x] eqn:E; try done.
  destruct (Ho _ _ base_wf E) as (_ & _ & Hany). by rewrite (Hany _ Hp).
Qed.

(** From any recoverable page, redo succeeds and reaches the final version. *)
Lemma redo_converges page : recoverable ops base page -> run_ops ops page = Some final.
Proof using All.
  intros [Hp [[n Hn]|(op & rest & Heq & Ho)]].
  - pose proof ops_replayable as Hr. pose proof ops_ordered as Hs. pose proof base_run as Hb.
    rewrite <-(take_drop n ops) in Hr, Hs, Hb |- *.
    by apply (proj1 (run_ops_again _ _ _ _ Hr Hs base_wf Hn)).
  - pose proof (overwrites_run op rest (length rest) page Heq Ho Hp) as H.
    rewrite !take_ge in H by (rewrite Heq; simpl; lia). by rewrite H.
Qed.

(** A crash in the middle of redo leaves a recoverable page again. *)
Lemma redo_interrupted page k page' :
  recoverable ops base page -> run_ops (take k ops) page = Some page' -> recoverable ops base page'.
Proof using All.
  intros [Hp Hcase] Hk. split.
  { eapply run_ops_wf, Hk; [by apply Forall_take|done]. }
  destruct Hcase as [[n Hn]|(op & rest & Heq & Ho)].
  - left. pose proof ops_replayable as Hr. pose proof ops_ordered as Hs.
    rewrite <-(take_drop n ops) in Hr, Hs, Hk |- *.
    eapply (proj2 (run_ops_again _ _ _ _ Hr Hs base_wf Hn)). exact Hk.
  - destruct k as [|k]; [right; eauto|]. left. exists (S k).
    by rewrite <-(overwrites_run op rest k page Heq Ho Hp).
Qed.

End convergence.

(** ** Actions on the pool *)

Abbreviation plan := (list (PageId * page_op)) (only parsing).

(** The actions of a plan on one page. *)
Fixpoint ops_on (p : PageId) (l : plan) : list page_op :=
  match l with
  | [] => []
  | (q, op) :: l => if decide (q = p) then op :: ops_on p l else ops_on p l
  end.

Section pool.
Context {P : Type} `{PagePoolLaws P}.

Fixpoint run_plan (l : plan) : M P StorageError unit :=
  match l with
  | [] => mret tt
  | (p, op) :: l => with_page p (po_act op) ;! run_plan l
  end.

Lemma ops_on_app p l1 l2 : ops_on p (l1 ++ l2) = ops_on p l1 ++ ops_on p l2.
Proof. induction l1 as [|[q op] l1 IH]; [done|]. simpl. case_decide; by rewrite IH. Qed.

Lemma elem_of_ops_on p op l : op ∈ ops_on p l -> (p, op) ∈ l.
Proof.
  induction l as [|[q op'] l IH]; simpl; [by intros ?%elem_of_nil|].
  case_decide as Hq; [subst q|intros; apply elem_of_cons; auto].
  intros [->|?]%elem_of_cons; apply elem_of_cons; auto.
Qed.

Lemma with_page_ok p op (pool pool' : P) :
  replayable op -> with_page p (po_act op) pool = (Ok tt, pool') ->
  exists page', po_act op (pool_page pool p) = (Ok tt, page') /\
    forall q, pool_page pool' q = if decide (q = p) then page' else pool_page pool q.
Proof.
  unfold with_page. intros Hr Hw. destruct (pin_mut p pool) as [[page| |] pool1] eqn:E; try done.
  apply pin_mut_ok in E as (-> & Hq & _). injection Hw as Hf <-.
  destruct (po_act op (pool_page pool p)) as [r page'] eqn:Ea. simpl in *. subst r. exists page'. split; [done|].
  destruct (replayable_step _ _ _ Hr (pool_page_wf pool p) Ea) as [Hwf _].
  intros q. rewrite drop_mut_page by done. case_decide; [done|]. apply Hq.
Qed.

Lemma with_page_total p op (pool : P) page' :
  pool_ok pool -> po_act op (pool_page pool p) = (Ok tt, page') ->
  exists pool', with_page p (po_act op) pool = (Ok tt, pool') /\ pool_ok pool'.
Proof.
  intros Hok Ha. destruct (pin_mut_total pool p Hok) as (page & pool1 & E & Hok1).
  unfold with_page. rewrite E. apply pin_mut_ok in E as (-> & _). rewrite Ha. simpl.
  eexists. split; [done|]. by apply drop_mut_total.
Qed.

Definition plan_replayable (l : plan) : Prop := Forall (fun e => replayable (snd e)) l.

Lemma run_plan_pages l : forall (pool pool' : P) p,
  plan_replayable l -> run_plan l pool = (Ok tt, pool') ->
  run_ops (ops_on p l) (pool_page pool p) = Some (pool_page pool' p).
Proof.
  induction l as [|[q op] l IH]; intros pool pool' p Hr Hrun; [by injection Hrun as <-|].
  inversion_clear Hr as [|?? Hop Hr']. simpl in Hrun. apply mbindM_ok in Hrun as ([] & pool1 & Hw & Hrun).
  apply (with_page_ok q op _ _ Hop) in Hw as (pg & Ha & Hv).
  simpl. destruct (decide (q = p)) as [->|Hqp]; specialize (Hv p).
  - rewrite decide_True in Hv by done. simpl. rewrite Ha, <-Hv. by apply IH.
  - rewrite decide_False in Hv by congruence. rewrite <-Hv. by apply IH.
Qed.

Lemma run_plan_total l : forall pool : P,
  plan_replayable l -> pool_ok pool ->
  (forall p, exists page, run_ops (ops_on p l) (pool_page pool p) = Some page) ->
  exists pool', run_plan l pool = (Ok tt, pool') /\ pool_ok pool'.
Proof.
  induction l as [|[q op] l IH]; intros pool Hr Hok Hall; [by eauto|].
  inversion_clear Hr as [|?? Hop Hr'].
  destruct (Hall q) as [page Hq]. simpl in Hq. rewrite decide_True in Hq by done. simpl in Hq.
  destruct (po_act op (pool_page pool q)) as [[[]| |] pg] eqn:Ea; try done.
  destruct (with_page_total q op pool pg Hok Ea) as (pool1 & Hw & Hok1).
  destruct (IH pool1 Hr' Hok1) as (pool' & Hrun & Hok').
  - intros p. apply (with_page_ok q op _ _ Hop) in Hw as (pg' & Ha' & Hv). rewrite Hv.
    case_decide as Hp; [subst p; rewrite Ea in Ha'; injection Ha' as <-; by eauto|].
    destruct (Hall p) as [page' Hp']. simpl in Hp'. rewrite decide_False in Hp' by congruence. by eauto.
  - exists pool'. split; [|done]. simpl. unfold mbindM. by rewrite Hw.
Qed.

Lemma plan_replayable_on p l : plan_replayable l -> Forall replayable (ops_on p l).
Proof. unfold plan_replayable. rewrite !Forall_forall. intros Hl op Hop. by apply (Hl (p, op)), elem_of_ops_on. Qed.

End pool.

(** ** Page LSNs *)

Lemma page_wf_long page : page_wf page -> 8 <= zlen page.
Proof. unfold page_wf, PAGE_SIZE. lia. Qed.

Lemma set_pd_lsn_wf page l : page_wf page -> page_wf (set_page_pd_lsn page l).
Proof. unfold page_wf, set_page_pd_lsn. rewrite length_put_le. intros []. auto with wf. Qed.

Lemma pd_lsn_set page l : page_wf page -> in_u 64 l -> page_pd_lsn (set_page_pd_lsn page l) = l.
Proof.
  intros Hp%page_wf_long Hl. unfold page_pd_lsn, set_page_pd_lsn. unfold in_u in Hl.
  apply get_put_same; [lia|lia|]. change (256 ^ Z.of_nat 8) with (2 ^ 64). lia.
Qed.

Lemma pd_lsn_range page : page_wf page -> in_u 64 (page_pd_lsn page).
Proof.
  intros Hp. pose proof (page_wf_long _ Hp). destruct Hp as [_ Hb]. unfold in_u, page_pd_lsn. change (2 ^ 64) with (256 ^ Z.of_nat 8).
  apply get_le_bound; [done|lia|lia].
Qed.

Lemma restore_image_overwrites image lsn :
  wf_bytes image -> in_u 64 lsn -> overwrites lsn (restore_image image lsn).
Proof.
  intros Hb Hl page page' Hp. unfold restore_image. destruct (zlen image =? zlen page) eqn:E; [|done].
  zbool. intros [= <-]. assert (Hi : page_wf image) by (destruct Hp; split; [lia|done]).
  pose proof (pd_lsn_range image Hi) as Hr. unfold in_u in *.
  split; [by apply set_pd_lsn_wf|]. split; [rewrite pd_lsn_set by (unfold in_u; lia || done); lia|].
  intros q [Hq _]. destruct Hp as [Hp _]. by rewrite (proj2 (Z.eqb_eq _ _)) by lia.
Qed.

(** ** A pool: dirty pages over the pages of the data file

    A page that was never written reads as zeros, like a freshly extended file.
    Each call consumes one outcome of the script; pinning may evict (and so
    flush) the page it names. *)

Record MapPool := mkMapPool { mp_dirty : gmap Z (list Z); mp_disk : gmap Z (list Z); mp_io : list bool }.

Definition as_page (b : list Z) : list Z := (fun x => x mod 256) <$> resize (Z.to_nat PAGE_SIZE) 0 b.
Definition mp_disk_page (s : MapPool) (p : PageId) : list Z := as_page (default [] (mp_disk s !! p)).
Definition mp_page (s : MapPool) (p : PageId) : list Z :=
  match mp_dirty s !! p with Some b => as_page b | None => mp_disk_page s p end.

#[export] Instance MapPool_pool : PagePool MapPool := {|
  pin_mut p s := (if hd true (mp_io s) then Ok (mp_page s p) else Err Io,
                  mkMapPool (mp_dirty s) (mp_disk s) (tl (mp_io s)));
  drop_mut p page s := mkMapPool (<[p := page]> (mp_dirty s)) (mp_disk s) (mp_io s);
  dirty_page_ids s := elements (dom (mp_dirty s));
  flush p s := if hd true (mp_io s)
               then (Ok tt, mkMapPool (delete p (mp_dirty s)) (<[p := mp_page s p]> (mp_disk s)) (tl (mp_io s)))
               else (Err Io, mkMapPool (mp_dirty s) (mp_disk s) (tl (mp_io s)));
  pool_page := mp_page;
  pool_disk := mp_disk_page;
|}.

Lemma as_page_wf b : page_wf (as_page b).
Proof.
  unfold page_wf, as_page. rewrite length_fmap, length_resize. split; [done|].
  apply Forall_fmap, Forall_true. intros x. unfold is_byte. simpl. apply Z.mod_pos_bound. lia.
Qed.

Lemma as_page_id b : page_wf b -> as_page b = b.
Proof.
  unfold page_wf, as_page. intros [Hl Hb]. rewrite resize_all_alt by lia.
  rewrite <-(list_fmap_id b) at 2. apply Forall_fmap_ext_1. eapply Forall_impl; [exact Hb|].
  intros x Hx. by apply Z.mod_small.
Qed.

Lemma mp_page_wf s p : page_wf (mp_page s p).
Proof. unfold mp_page, mp_disk_page. destruct (mp_dirty s !! p); apply as_page_wf. Qed.

#[local] Opaque as_page.

(** A clean pool shows the pages of its file. *)
Lemma mp_page_clean disk io p page : disk !! p = Some page -> page_wf page -> mp_page (mkMapPool ∅ disk io) p = page.
Proof. intros Hd Hp. unfold mp_page, mp_disk_page. cbn [mp_dirty mp_disk]. rewrite lookup_empty, Hd. by apply as_page_id. Qed.

#[export] Instance MapPool_laws : PagePoolLaws MapPool.
Proof.
  refine {| pool_ok := fun s => mp_io s = [] |}.
  - apply mp_page_wf.
  - intros s p. unfold dirty_page_ids. simpl. rewrite elem_of_elements, not_elem_of_dom.
    unfold mp_page. by intros ->.
  - intros s p page s'. simpl. destruct (hd true (mp_io s)); [|done]. intros [= <- <-]. by auto.
  - intros s p Hs. simpl. rewrite Hs. by eauto.
  - intros s p page q Hp. simpl. unfold mp_page. simpl. destruct (decide (q = p)) as [->|Hq].
    + rewrite lookup_insert_eq. by apply as_page_id.
    + by rewrite lookup_insert_ne by done.
  - done.
  - done.
  - intros s p s'. simpl. destruct (hd true (mp_io s)); [|done]. intros [= <-].
    assert (Hd : forall q, mp_disk_page (mkMapPool (delete p (mp_dirty s)) (<[p:=mp_page s p]> (mp_disk s)) (tl (mp_io s))) q
                      = if decide (q = p) then mp_page s q else mp_disk_page s q).
    { intros q. unfold mp_disk_page. simpl. destruct (decide (q = p)) as [->|Hq].
      - rewrite lookup_insert_eq. simpl. apply as_page_id, mp_page_wf.
      - by rewrite lookup_insert_ne by done. }
    split; [|split; [by rewrite Hd, decide_True|intros q; rewrite Hd; case_decide; auto]].
    intros q. unfold mp_page at 1. simpl. rewrite Hd. destruct (decide (q = p)) as [->|Hq].
    + by rewrite lookup_delete_eq.
    + rewrite lookup_delete_ne by done. by unfold mp_page.
  - intros s p Hs. simpl. rewrite Hs. simpl. by eexists.
Defined.
