(* ===== verification/BufferPool.v ===== *)
(** * The buffer pool ([pg-storage/src/buffer_pool.rs], [positioned_file.rs])

    A fixed array of frames caches the pages of the data file.  A frame has its
    metadata and its content; the latch on the content ([RwLock]) is part of the
    state, since guards hold it while other operations run.  The page table is a
    vector of maps (its shards).  The data file has the bytes a read returns and
    the bytes the last fsync made durable; each system call consumes one outcome
    of a script, [Some n] being a failure after [n] bytes of a write.

    Functions are the code of one thread between the points where it can wait:
    an uncontended [try_lock] succeeds, and a call that would wait for a latch or
    for a flush in flight has the outcome [Panic], which stands for "does not
    return" here; the interleaved system of [PoolSafe] takes no such step.
    [flush_frame] is cut where the code gives up its locks ([flush_claim],
    [flush_write], [flush_covered], [flush_sync], [flush_publish], [flush_finish]),
    so that two threads can interleave there. *)

From S2P Require Import Prelude Types WalRecord WalSegment Config PageAllocator Recovery.
Local Open Scope Z_scope.
Local Open Scope rust_scope.

(** ** The log, as the pool uses it *)

Class PoolWal (W : Type) `{PageWal W} := {
  pl_flush_to : Lsn -> M W StorageError unit;
  pl_current_lsn : W -> Lsn;
  pl_synced_lsn : W -> Lsn;
}.

(** [flush_to] brings [synced_lsn] up to its argument or fails; nothing moves it
    back; no call panics.  [pl_ok] says that no failure is ahead. *)
Class PoolWalLaws (W : Type) `{PoolWal W} := {
  pl_ok : W -> Prop;
  pl_flush_to_total lsn w : pl_ok w -> lsn <= pl_current_lsn w -> fst (pl_flush_to lsn w) = Ok tt /\ pl_ok (snd (pl_flush_to lsn w));
  pl_flush_to_ok lsn w w' : pl_flush_to lsn w = (Ok tt, w') -> lsn <= pl_synced_lsn w';
  pl_flush_to_mono lsn w : pl_synced_lsn w <= pl_synced_lsn (snd (pl_flush_to lsn w));
  pl_flush_to_no_panic lsn w : fst (pl_flush_to lsn w) <> Panic;
  pl_append_mono r w : pl_synced_lsn w <= pl_synced_lsn (snd (pw_append r w));
}.

(** ** Data *)

Record FrameMeta := mkFrameMeta {
  fm_page_id : PageId;
  fm_pin_count : Z;
  fm_dirty : bool;
  fm_reference : bool;
  fm_cached_lsn : Lsn;
  fm_first_dirty_lsn : Lsn;
  fm_needs_fpi : bool;
  fm_evicting : bool;
  fm_flushing : bool;
}.

Definition FrameMeta_default : FrameMeta :=
  mkFrameMeta PageId_INVALID 0 false false Lsn_INVALID Lsn_INVALID false false false.

(** The state of the content lock: so many readers, or one writer. *)
Inductive Latch := Readers (n : nat) | Writer.

Record Frame := mkFrame { fr_meta : FrameMeta; fr_latch : Latch; fr_content : list Z }.

Definition Frame_default : Frame := mkFrame FrameMeta_default (Readers 0) (zeros PAGE_SIZE).

Record DataFile := mkDataFile { df_data : list Z; df_stable : list Z; df_io : list (option nat) }.

Record BufferPool {W : Type} := mkBufferPool {
  bp_data_file : DataFile;
  bp_page_allocator : PageAllocator W;
  bp_page_table : list (gmap Z nat);
  bp_frames : list Frame;
  bp_clock_hand : Z;
  bp_checkpoint_lsn : Lsn;
  bp_flush_gen : Z;
  bp_synced_gen : Z;
}.
Arguments BufferPool : clear implicits.
Arguments mkBufferPool {W}.

Record PageGuard := mkPageGuard { pg_frame_id : nat; pg_page_id : PageId }.
Record PageGuardMut := mkPageGuardMut { pgm_frame_id : nat; pgm_page_id : PageId }.

(** Field updates. *)
Definition set_pin (pins : Z) (m : FrameMeta) : FrameMeta :=
  mkFrameMeta (fm_page_id m) (pins mod 2 ^ 32) (fm_dirty m) (fm_reference m) (fm_cached_lsn m) (fm_first_dirty_lsn m)
    (fm_needs_fpi m) (fm_evicting m) (fm_flushing m).
Definition set_dirty (b : bool) (m : FrameMeta) : FrameMeta :=
  mkFrameMeta (fm_page_id m) (fm_pin_count m) b (fm_reference m) (fm_cached_lsn m) (fm_first_dirty_lsn m)
    (fm_needs_fpi m) (fm_evicting m) (fm_flushing m).
Definition set_reference (b : bool) (m : FrameMeta) : FrameMeta :=
  mkFrameMeta (fm_page_id m) (fm_pin_count m) (fm_dirty m) b (fm_cached_lsn m) (fm_first_dirty_lsn m)
    (fm_needs_fpi m) (fm_evicting m) (fm_flushing m).
Definition set_cached_lsn (l : Lsn) (m : FrameMeta) : FrameMeta :=
  mkFrameMeta (fm_page_id m) (fm_pin_count m) (fm_dirty m) (fm_reference m) l (fm_first_dirty_lsn m)
    (fm_needs_fpi m) (fm_evicting m) (fm_flushing m).
Definition set_first_dirty (l : Lsn) (m : FrameMeta) : FrameMeta :=
  mkFrameMeta (fm_page_id m) (fm_pin_count m) (fm_dirty m) (fm_reference m) (fm_cached_lsn m) l
    (fm_needs_fpi m) (fm_evicting m) (fm_flushing m).
Definition set_needs_fpi (b : bool) (m : FrameMeta) : FrameMeta :=
  mkFrameMeta (fm_page_id m) (fm_pin_count m) (fm_dirty m) (fm_reference m) (fm_cached_lsn m) (fm_first_dirty_lsn m)
    b (fm_evicting m) (fm_flushing m).
Definition set_evicting (b : bool) (m : FrameMeta) : FrameMeta :=
  mkFrameMeta (fm_page_id m) (fm_pin_count m) (fm_dirty m) (fm_reference m) (fm_cached_lsn m) (fm_first_dirty_lsn m)
    (fm_needs_fpi m) b (fm_flushing m).
Definition set_flushing (b : bool) (m : FrameMeta) : FrameMeta :=
  mkFrameMeta (fm_page_id m) (fm_pin_count m) (fm_dirty m) (fm_reference m) (fm_cached_lsn m) (fm_first_dirty_lsn m)
    (fm_needs_fpi m) (fm_evicting m) b.

(** ** positioned_file.rs *)

Definition data_call : M DataFile StorageError unit := fun d =>
  (match hd None (df_io d) with None => Ok tt | Some _ => Err Io end,
   mkDataFile (df_data d) (df_stable d) (tl (df_io d))).

Definition read_exact_at (n offset : Z) : M DataFile StorageError (list Z) :=
  data_call ;!
  let! d := mget in
  if offset + n <=? zlen (df_data d) then mret (slice offset n (df_data d)) else mthrow Io.

Definition pf_write_all_at (buf : list Z) (offset : Z) : M DataFile StorageError unit := fun d =>
  match hd None (df_io d) with
  | None => (Ok tt, mkDataFile (pwrite offset buf (df_data d)) (df_stable d) (tl (df_io d)))
  | Some n => (Err Io, mkDataFile (pwrite offset (take n buf) (df_data d)) (df_stable d) (tl (df_io d)))
  end.

Definition pf_sync_all : M DataFile StorageError unit :=
  data_call ;! mmodify (fun d => mkDataFile (df_data d) (df_data d) (df_io d)).

(** The file as the allocator's [set_len] and [sync_all] leave it. *)
Definition grow_file (len : Z) (d : DataFile) : DataFile :=
  if len >? zlen (df_data d) then
    let data := df_data d ++ zeros (len - zlen (df_data d)) in mkDataFile data data (df_io d)
  else d.

(** [Result::map_err] with clean-up code: run [h] on the error path. *)
Definition mcatch {S E A : Type} (m : M S E A) (h : E -> M S E A) : M S E A := fun s =>
  match m s with
  | (Err e, s') => h e s'
  | r => r
  end.

Section pool.
Context {BC : Bincode} {W : Type} {PW : PageWal W} {PL : PoolWal W}.
Abbreviation BP := (BufferPool W).
Abbreviation MP := (M BP StorageError).

Definition bp_wal (s : BP) : W := PageAllocator.wal_writer (bp_page_allocator s).

Definition set_file (d : DataFile) (s : BP) : BP :=
  mkBufferPool d (bp_page_allocator s) (bp_page_table s) (bp_frames s) (bp_clock_hand s) (bp_checkpoint_lsn s) (bp_flush_gen s) (bp_synced_gen s).
Definition set_allocator (a : PageAllocator W) (s : BP) : BP :=
  mkBufferPool (bp_data_file s) a (bp_page_table s) (bp_frames s) (bp_clock_hand s) (bp_checkpoint_lsn s) (bp_flush_gen s) (bp_synced_gen s).
Definition set_table (t : list (gmap Z nat)) (s : BP) : BP :=
  mkBufferPool (bp_data_file s) (bp_page_allocator s) t (bp_frames s) (bp_clock_hand s) (bp_checkpoint_lsn s) (bp_flush_gen s) (bp_synced_gen s).
Definition set_frames (l : list Frame) (s : BP) : BP :=
  mkBufferPool (bp_data_file s) (bp_page_allocator s) (bp_page_table s) l (bp_clock_hand s) (bp_checkpoint_lsn s) (bp_flush_gen s) (bp_synced_gen s).
Definition set_hand (h : Z) (s : BP) : BP :=
  mkBufferPool (bp_data_file s) (bp_page_allocator s) (bp_page_table s) (bp_frames s) h (bp_checkpoint_lsn s) (bp_flush_gen s) (bp_synced_gen s).
Definition set_gens (flush synced : Z) (s : BP) : BP :=
  mkBufferPool (bp_data_file s) (bp_page_allocator s) (bp_page_table s) (bp_frames s) (bp_clock_hand s) (bp_checkpoint_lsn s) flush synced.

Definition on_data {A : Type} (m : M DataFile StorageError A) : MP A := fun s =>
  let r := m (bp_data_file s) in (fst r, set_file (snd r) s).
Definition on_pool_wal {A : Type} (m : M W StorageError A) : MP A := fun s =>
  let r := m (bp_wal s) in (fst r, set_allocator (set_wal (snd r) (bp_page_allocator s)) s).
Definition of_pool_res {A : Type} (r : res StorageError A) : MP A := fun s => (r, s).

(** [self.frames[i]] *)
Definition frame_at (f : nat) : MP Frame := fun s =>
  match bp_frames s !! f with Some fr => (Ok fr, s) | None => (Panic, s) end.
Definition on_frame (f : nat) (g : Frame -> Frame) : MP unit := mmodify (fun s => set_frames (alter g f (bp_frames s)) s).
Definition on_meta (f : nat) (g : FrameMeta -> FrameMeta) : MP unit :=
  on_frame f (fun fr => mkFrame (g (fr_meta fr)) (fr_latch fr) (fr_content fr)).
Definition set_content (bytes : list Z) (fr : Frame) : Frame := mkFrame (fr_meta fr) (fr_latch fr) bytes.
Definition set_latch (l : Latch) (fr : Frame) : Frame := mkFrame (fr_meta fr) l (fr_content fr).

(** [content.read()] and [content.write()], and their release. *)
Definition latch_read (f : nat) : MP unit :=
  let! fr := frame_at f in
  match fr_latch fr with Readers n => on_frame f (set_latch (Readers (S n))) | Writer => mpanic end.
Definition latch_write (f : nat) : MP unit :=
  let! fr := frame_at f in
  match fr_latch fr with Readers O => on_frame f (set_latch Writer) | _ => mpanic end.
Definition unlatch (f : nat) : MP unit :=
  on_frame f (fun fr => set_latch (match fr_latch fr with Readers n => Readers (pred n) | Writer => Readers 0 end) fr).

(** ** Opening and accessors *)

Definition BufferPool_open (config : StorageConfig) (data_file : DataFile) (page_allocator : PageAllocator W) : res StorageError BP :=
  match StorageConfig_validate config with
  | Ok _ =>
      let frame_count := cf_buffer_pool_size config / cf_page_size config in
      Ok (mkBufferPool data_file page_allocator (replicate (Z.to_nat (cf_buffer_pool_shards config)) ∅)
            (replicate (Z.to_nat frame_count) Frame_default) 0 Lsn_INVALID 0 0)
  | Err e => Err e
  | Panic => Panic
  end.

Definition set_checkpoint_lsn (lsn : Lsn) (s : BP) : BP :=
  mkBufferPool (bp_data_file s) (bp_page_allocator s) (bp_page_table s) (bp_frames s) (bp_clock_hand s) lsn (bp_flush_gen s) (bp_synced_gen s).
Definition frame_count (s : BP) : Z := zlen (bp_frames s).
Definition shard_count (s : BP) : Z := zlen (bp_page_table s).

Definition shard_index (page_id : PageId) (s : BP) : nat := Z.to_nat (page_id mod zlen (bp_page_table s)).

Definition table_get (page_id : PageId) (s : BP) : option nat := bp_page_table s !! shard_index page_id s ≫= lookup page_id.
Definition table_insert (page_id : PageId) (f : nat) (s : BP) : BP :=
  set_table (alter (insert page_id f) (shard_index page_id s) (bp_page_table s)) s.
Definition table_remove (page_id : PageId) (s : BP) : BP :=
  set_table (alter (delete page_id) (shard_index page_id s) (bp_page_table s)) s.

(** Frames that are dirty, with a page. *)
Definition dirty_frames (s : BP) : list FrameMeta :=
  filter (fun m => fm_dirty m && negb (fm_page_id m =? PageId_INVALID)) (fr_meta <$> bp_frames s).
Definition BufferPool_dirty_page_ids (s : BP) : list PageId := fm_page_id <$> dirty_frames s.
Definition dirty_page_snapshot (s : BP) : list (PageId * Lsn) :=
  (fun m => (fm_page_id m, fm_first_dirty_lsn m)) <$> filter (fun m => Lsn_is_valid (fm_first_dirty_lsn m)) (dirty_frames s).

(** ** Flushing one frame *)

Definition restore_first_dirty_lsn (current saved : Lsn) : Lsn :=
  if Lsn_is_valid saved && ((current =? Lsn_INVALID) || (saved <? current)) then saved else current.

Inductive FlushClaim := FlushWait | FlushClean | FlushClaimed (page_id : PageId) (saved_first_dirty_lsn : Lsn).

Definition flush_claim (f : nat) : MP FlushClaim :=
  let! fr := frame_at f in
  let m := fr_meta fr in
  if fm_flushing m then mret FlushWait
  else if negb (fm_dirty m) || (fm_page_id m =? PageId_INVALID) then mret FlushClean
  else
    on_meta f (fun m => set_first_dirty Lsn_INVALID (set_dirty false (set_flushing true m))) ;!
    mret (FlushClaimed (fm_page_id m) (fm_first_dirty_lsn m)).

(** The error path: the page is dirty again, with the older anchor. *)
Definition flush_failed {A : Type} (f : nat) (saved : Lsn) (e : StorageError) : MP A :=
  on_meta f (fun m => set_flushing false (set_first_dirty (restore_first_dirty_lsn (fm_first_dirty_lsn m) saved) (set_dirty true m))) ;!
  mthrow e.

Definition flush_write (f : nat) (page_id : PageId) (saved : Lsn) : MP Z :=
  let! fr := frame_at f in
  match fr_latch fr with
  | Writer => mpanic
  | Readers _ =>
      let content := fr_content fr in
      let page_lsn := page_pd_lsn content in
      let! s := mget in
      (if Lsn_is_valid page_lsn && (page_lsn <=? pl_current_lsn (bp_wal s)) && (pl_synced_lsn (bp_wal s) <? page_lsn)
       then mcatch (on_pool_wal (pl_flush_to page_lsn)) (flush_failed f saved)
       else mret tt) ;!
      let offset := wrap64 ((page_id - 1) * PAGE_SIZE) in
      mcatch (on_data (pf_write_all_at content offset)) (flush_failed f saved) ;!
      mmodify (fun s => set_gens (wrap64 (bp_flush_gen s + 1)) (bp_synced_gen s) s) ;!
      on_meta f (set_needs_fpi true) ;!
      let! s := mget in mret (bp_flush_gen s)
  end.

(** The generation that an fsync started now covers; [None] when no fsync is due. *)
Definition flush_covered (my_gen : Z) (s : BP) : option Z :=
  if bp_synced_gen s <? my_gen then Some (bp_flush_gen s) else None.

Definition flush_sync (f : nat) (saved : Lsn) : MP unit := mcatch (on_data pf_sync_all) (flush_failed f saved).
Definition flush_publish (covered_gen : Z) : MP unit :=
  mmodify (fun s => set_gens (bp_flush_gen s) (Z.max (bp_synced_gen s) covered_gen) s).
Definition flush_finish (f : nat) : MP unit := on_meta f (set_flushing false).

Definition flush_frame (f : nat) : MP unit :=
  let! claim := flush_claim f in
  match claim with
  | FlushWait => mpanic
  | FlushClean => mret tt
  | FlushClaimed page_id saved =>
      let! my_gen := flush_write f page_id saved in
      let! s := mget in
      (match flush_covered my_gen s with
       | Some covered_gen => flush_sync f saved ;! flush_publish covered_gen
       | None => mret tt
       end) ;!
      flush_finish f
  end.

Definition BufferPool_flush (page_id : PageId) : MP unit :=
  if page_id =? PageId_INVALID then mthrow InvalidConfig
  else
    let! s := mget in
    match table_get page_id s with
    | Some f => flush_frame f
    | None => mthrow (PageNotFound page_id)
    end.

(** ** Locating and loading a page *)

Definition try_pin_resident (page_id : PageId) : MP (option nat) :=
  let! s := mget in
  match table_get page_id s with
  | None => mret None
  | Some f =>
      let! fr := frame_at f in
      let m := fr_meta fr in
      if negb (fm_page_id m =? page_id) || fm_evicting m then mret None
      else on_meta f (fun m => set_reference true (set_pin (fm_pin_count m + 1) m)) ;! mret (Some f)
  end.

(** The victim is chosen; make it durable, then free it. *)
Definition evict_victim (hand : nat) (m : FrameMeta) : MP nat :=
  on_meta hand (set_evicting true) ;!
  (if fm_dirty m && negb (fm_page_id m =? PageId_INVALID)
   then mcatch (flush_frame hand) (fun e => on_meta hand (set_evicting false) ;! mthrow e)
   else mret tt) ;!
  (if negb (fm_page_id m =? PageId_INVALID) then mmodify (table_remove (fm_page_id m)) else mret tt) ;!
  on_meta hand (fun _ => FrameMeta_default) ;!
  mret hand.

Fixpoint evict_loop (scans : nat) : MP nat :=
  match scans with
  | O => mthrow BufferPoolFull
  | S scans =>
      let! s := mget in
      let hand := Z.to_nat (bp_clock_hand s mod frame_count s) in
      mmodify (fun s => set_hand (wrap64 (bp_clock_hand s + 1)) s) ;!
      let! fr := frame_at hand in
      let m := fr_meta fr in
      if (fm_pin_count m >? 0) || fm_evicting m then evict_loop scans
      else if fm_reference m then on_meta hand (set_reference false) ;! evict_loop scans
      else evict_victim hand m
  end.

Definition evict_frame : MP nat :=
  let! s := mget in
  if frame_count s =? 0 then mthrow BufferPoolFull else evict_loop (Z.to_nat (frame_count s * 2)).

Definition read_page_from_disk (page_id : PageId) (f : nat) : MP unit :=
  let offset := wrap64 ((page_id - 1) * PAGE_SIZE) in
  let! bytes := on_data (read_exact_at PAGE_SIZE offset) in
  on_frame f (set_content bytes).

(** After the victim is free: fill it and enter it in the table. *)
Definition install_page (page_id : PageId) (load_from_disk : bool) (f : nat) : MP nat :=
  on_frame f (set_content (zeros PAGE_SIZE)) ;!
  (if load_from_disk then read_page_from_disk page_id f else mret tt) ;!
  let! fr := frame_at f in
  let cached_lsn := page_pd_lsn (fr_content fr) in
  on_meta f (fun m => mkFrameMeta page_id 1 false true cached_lsn Lsn_INVALID true (fm_evicting m) (fm_flushing m)) ;!
  mmodify (table_insert page_id f) ;!
  mret f.

(** A page that is in the table but cannot be pinned makes the loop spin until
    its frame becomes free. *)
Definition alloc_frame (page_id : PageId) (load_from_disk : bool) : MP nat :=
  let! resident := try_pin_resident page_id in
  match resident with
  | Some f => mret f
  | None =>
      let! s := mget in
      match table_get page_id s with
      | Some _ => mpanic
      | None => let! f := evict_frame in install_page page_id load_from_disk f
      end
  end.

Definition locate_or_load (page_id : PageId) : MP nat :=
  let! resident := try_pin_resident page_id in
  match resident with
  | Some f => mret f
  | None => alloc_frame page_id true
  end.

(** ** Guards *)

Definition BufferPool_pin (page_id : PageId) : MP PageGuard :=
  if page_id =? PageId_INVALID then mthrow InvalidConfig
  else let! f := locate_or_load page_id in latch_read f ;! mret (mkPageGuard f page_id).

Definition pin_mut_without_fpi (page_id : PageId) : MP PageGuardMut :=
  if page_id =? PageId_INVALID then mthrow InvalidConfig
  else
    let! f := locate_or_load page_id in
    latch_write f ;! on_meta f (set_dirty true) ;! mret (mkPageGuardMut f page_id).

Definition ensure_fpi (g : PageGuardMut) : MP unit :=
  let f := pgm_frame_id g in
  let! fr := frame_at f in
  let! s := mget in
  let page_lsn := page_pd_lsn (fr_content fr) in
  if negb (fm_needs_fpi (fr_meta fr) && Lsn_is_valid (bp_checkpoint_lsn s) && (page_lsn <? bp_checkpoint_lsn s)) then mret tt
  else
    let! fpi_record := of_pool_res (full_page_image (pgm_page_id g) (fr_content fr)) in
    let! fpi_lsn := on_pool_wal (pw_append fpi_record) in
    on_frame f (fun fr => set_content (set_page_pd_lsn (fr_content fr) fpi_lsn) fr) ;!
    on_meta f (fun m =>
      let m := set_cached_lsn fpi_lsn m in
      let m := if fm_first_dirty_lsn m =? Lsn_INVALID then set_first_dirty fpi_lsn m else m in
      set_dirty true m).

Definition unpin (f : nat) : MP unit := on_meta f (fun m => set_pin (fm_pin_count m - 1) m).

Definition PageGuard_drop (g : PageGuard) : MP unit := unlatch (pg_frame_id g) ;! unpin (pg_frame_id g).

Definition PageGuardMut_drop (g : PageGuardMut) : MP unit :=
  let f := pgm_frame_id g in
  let! fr := frame_at f in
  let lsn_at_drop := page_pd_lsn (fr_content fr) in
  unlatch f ;!
  on_meta f (fun m =>
    if negb (fm_page_id m =? PageId_INVALID) then
      set_dirty true (if fm_first_dirty_lsn m =? Lsn_INVALID then set_first_dirty lsn_at_drop m else m)
    else m) ;!
  unpin f.

(** [guard.page_mut()]: the caller overwrites the content through the guard. *)
Definition page_mut (g : PageGuardMut) (bytes : list Z) : MP unit := on_frame (pgm_frame_id g) (set_content bytes).

(** The guard of the first line is dropped when [ensure_fpi] fails. *)
Definition BufferPool_pin_mut (page_id : PageId) : MP PageGuardMut :=
  let! guard := pin_mut_without_fpi page_id in
  mcatch (ensure_fpi guard) (fun e => PageGuardMut_drop guard ;! mthrow e) ;!
  mret guard.

Definition new_page : MP PageGuardMut :=
  let! page_id := (fun s : BP =>
    let r := alloc_page (bp_page_allocator s) in
    (fst r, set_file (grow_file (current_file_len (snd r)) (bp_data_file s)) (set_allocator (snd r) s))) in
  let! f := alloc_frame page_id false in
  on_meta f (fun m => set_dirty true (set_needs_fpi false m)) ;!
  latch_write f ;!
  mret (mkPageGuardMut f page_id).

End pool.
