(* ===== verification/PoolSafe.v ===== *)
(** * The buffer pool under concurrency

    The invariant of the pool, with the flushes in flight as ghost state, the
    effect of every operation on what a reader of a page sees ([view]), and the
    interleaved system of guards and flushes.  The discipline under which the
    pool is correct is that a thread that flushes a page holds a read guard on
    it; the last part shows what happens without. *)

From S2P Require Import Prelude Types WalRecord WalSegment Config PageAllocator Recovery BufferPool.
Local Open Scope Z_scope.
Local Open Scope rust_scope.

(** ** Pages of the data file *)

Definition page_valid (data : list Z) (p : PageId) : Prop := 1 <= p /\ p * PAGE_SIZE <= zlen data.
#[export] Instance page_valid_dec data p : Decision (page_valid data p).
Proof. unfold page_valid. apply _. Defined.

Definition disk_page (data : list Z) (p : PageId) : list Z :=
  if decide (page_valid data p) then slice ((p - 1) * PAGE_SIZE) PAGE_SIZE data else zeros PAGE_SIZE.

Lemma disk_page_wf data p : wf_bytes data -> page_wf (disk_page data p).
Proof.
  intros Hd. unfold disk_page, page_valid, page_wf. case_decide as Hv.
  - rewrite length_slice by (unfold PAGE_SIZE in *; lia). split; [done|]. by apply Forall_slice.
  - rewrite length_zeros. split; [done|]. apply wf_zeros.
Qed.

Lemma pwrite_inside off bs data : 0 <= off -> off + zlen bs <= zlen data -> pwrite off bs data = splice off bs data.
Proof.
  intros ??. unfold pwrite. replace (zeros _) with (@nil Z); [by rewrite app_nil_r|].
  unfold zeros. by replace (Z.to_nat _) with 0%nat by lia.
Qed.

(** A write inside the range of one page. *)
Lemma disk_page_write data p bs q :
  page_valid data p -> zlen bs <= PAGE_SIZE ->
  let data' := pwrite ((p - 1) * PAGE_SIZE) bs data in
  length data' = length data /\ (q <> p -> disk_page data' q = disk_page data q) /\
  (zlen bs = PAGE_SIZE -> disk_page data' p = bs).
Proof.
  intros [Hp1 Hp2] Hb data'. unfold data'. rewrite pwrite_inside by (unfold PAGE_SIZE in *; lia).
  split; [apply length_splice|]. split.
  - intros Hq. unfold disk_page. repeat case_decide; unfold page_valid in *; rewrite length_splice in *; try lia; [|done].
    apply slice_splice_disj; unfold PAGE_SIZE in *; lia.
  - intros Hfull. unfold disk_page. rewrite decide_True by (unfold page_valid; rewrite length_splice; lia).
    apply slice_splice_same; unfold PAGE_SIZE in *; lia.
Qed.

(** Growing the file by whole pages. *)
Lemma disk_page_grow data n q :
  zlen data mod PAGE_SIZE = 0 -> disk_page (data ++ zeros n) q = disk_page data q.
Proof.
  intros Hm. unfold disk_page. repeat case_decide; unfold page_valid in *; rewrite length_app, length_zeros in *; try lia; [by rewrite slice_app_l by (unfold PAGE_SIZE in *; lia)| |done].
  assert (zlen data <= (q - 1) * PAGE_SIZE).
  { apply Z.div_exact in Hm; [|done]. unfold PAGE_SIZE in *. lia. }
  rewrite slice_app_r by lia. apply slice_zeros; unfold PAGE_SIZE in *; lia.
Qed.

(** ** Flushes in flight *)

Inductive FlightPhase :=
| FClaimed
| FWritten (my_gen : Z)
| FSyncing (my_gen covered_gen : Z)
| FSynced (my_gen covered_gen : Z)
| FDone.

Record Flight := mkFlight { fl_page : PageId; fl_saved : Lsn; fl_phase : FlightPhase }.

(** The generation of a flight whose page was written. *)
Definition fl_gen (x : Flight) : option Z :=
  match fl_phase x with FWritten g | FSyncing g _ | FSynced g _ => Some g | _ => None end.

Definition latch_count (l : Latch) : Z := match l with Readers n => Z.of_nat n | Writer => 1 end.

(** ** The invariant *)

(** [ev] is set for a frame that a thread works on alone, under the allocation
    lock; [Some true] says that it is the victim of an eviction under way. *)
Record frame_ok (data : list Z) (ev : option bool) (fl : option Flight) (fr : Frame) : Prop := {
  fo_content : page_wf (fr_content fr);
  fo_evicting : fm_evicting (fr_meta fr) = default false ev;
  fo_victim : ev = Some true -> fr_latch fr = Readers 0;
  fo_flushing : fm_flushing (fr_meta fr) = bool_decide (is_Some fl);
  fo_pins : fm_pin_count (fr_meta fr) = latch_count (fr_latch fr) /\ latch_count (fr_latch fr) < 2 ^ 32;
  fo_empty : fm_page_id (fr_meta fr) = PageId_INVALID -> fr_latch fr = Readers 0 /\ fm_dirty (fr_meta fr) = false;
  fo_valid : fm_page_id (fr_meta fr) <> PageId_INVALID -> page_valid data (fm_page_id (fr_meta fr));
  fo_flight x : fl = Some x -> fl_page x = fm_page_id (fr_meta fr) /\ fl_page x <> PageId_INVALID /\
                  fm_dirty (fr_meta fr) = false /\ (ev = None -> exists n, fr_latch fr = Readers (S n));
  fo_writer : fr_latch fr = Writer -> fm_dirty (fr_meta fr) = true;
  fo_clean : fm_page_id (fr_meta fr) <> PageId_INVALID -> fm_dirty (fr_meta fr) = false ->
               (forall x, fl = Some x -> fl_phase x <> FClaimed) ->
               fr_content fr = disk_page data (fm_page_id (fr_meta fr));
}.

Definition own (ev : option (nat * bool)) (f : nat) : option bool :=
  match ev with Some (i, b) => if decide (i = f) then Some b else None | None => None end.

Record file_ok (d : DataFile) : Prop := {
  dk_wf : wf_bytes (df_data d);
  dk_len : zlen (df_data d) < 2 ^ 63;
  dk_pages : zlen (df_data d) mod PAGE_SIZE = 0;
  dk_stable : length (df_stable d) = length (df_data d);
}.

(** What a flight that was written knows about the file. *)
Definition flight_ok (d : DataFile) (flush_gen synced_gen : Z) (fls : gmap nat Flight) (x : Flight) : Prop :=
  (forall g, fl_gen x = Some g -> 0 < g <= flush_gen /\
             (g <= synced_gen -> disk_page (df_stable d) (fl_page x) = disk_page (df_data d) (fl_page x))) /\
  match fl_phase x with
  | FSyncing g c => g <= c <= flush_gen
  | FSynced g c => g <= c <= flush_gen /\
      forall f y g', fls !! f = Some y -> fl_gen y = Some g' -> g' <= c ->
        disk_page (df_stable d) (fl_page y) = disk_page (df_data d) (fl_page y)
  | FDone => disk_page (df_stable d) (fl_page x) = disk_page (df_data d) (fl_page x)
  | _ => True
  end.

Section safe.
Context {BC : Bincode} {W : Type} {PW : PageWal W} {PL : PoolWal W}.
Abbreviation BP := (BufferPool W).
Implicit Types (s : BP) (ev : option (nat * bool)) (fls : gmap nat Flight) (p q : PageId).

Record pool_inv ev fls s : Prop := {
  pi_shards : bp_page_table s <> [];
  pi_file : file_ok (bp_data_file s);
  pi_frames f fr : bp_frames s !! f = Some fr -> frame_ok (df_data (bp_data_file s)) (own ev f) (fls !! f) fr;
  pi_table p f : table_get p s = Some f <->
    p <> PageId_INVALID /\ exists fr, bp_frames s !! f = Some fr /\ fm_page_id (fr_meta fr) = p;
  pi_gens : 0 <= bp_synced_gen s <= bp_flush_gen s /\ bp_flush_gen s < 2 ^ 64;
  pi_flights f x : fls !! f = Some x -> is_Some (bp_frames s !! f) /\
    flight_ok (bp_data_file s) (bp_flush_gen s) (bp_synced_gen s) fls x;
}.

(** What a reader of a page sees. *)
Definition view s p : list Z :=
  match table_get p s with
  | Some f => match bp_frames s !! f with Some fr => fr_content fr | None => zeros PAGE_SIZE end
  | None => disk_page (df_data (bp_data_file s)) p
  end.

(** ** The page table *)

Lemma table_shard s p : bp_page_table s <> [] -> is_Some (bp_page_table s !! shard_index p s).
Proof.
  intros Hne. apply lookup_lt_is_Some. unfold shard_index.
  assert (0 < zlen (bp_page_table s)) by (destruct (bp_page_table s); simpl; [done|lia]).
  pose proof (Z.mod_pos_bound p (zlen (bp_page_table s))). lia.
Qed.

Lemma table_get_insert s p f q : bp_page_table s <> [] ->
  table_get q (table_insert p f s) = if decide (q = p) then Some f else table_get q s.
Proof.
  intros Hne. destruct (table_shard s p Hne) as [m Hm]. unfold table_get, table_insert.
  set (i := shard_index p s) in *. unfold shard_index at 1. cbn [bp_page_table set_table]. rewrite length_alter. fold (shard_index q s).
  destruct (decide (q = p)) as [->|Hq].
  - rewrite list_lookup_alter_eq, Hm. simpl. by rewrite lookup_insert_eq.
  - destruct (decide (i = shard_index q s)) as [Hi|Hi].
    + rewrite <-Hi, list_lookup_alter_eq, Hm. simpl. by rewrite lookup_insert_ne.
    + by rewrite list_lookup_alter_ne.
Qed.

Lemma table_get_remove s p q : bp_page_table s <> [] ->
  table_get q (table_remove p s) = if decide (q = p) then None else table_get q s.
Proof.
  intros Hne. destruct (table_shard s p Hne) as [m Hm]. unfold table_get, table_remove.
  set (i := shard_index p s) in *. unfold shard_index at 1. cbn [bp_page_table set_table]. rewrite length_alter. fold (shard_index q s).
  destruct (decide (q = p)) as [->|Hq].
  - rewrite list_lookup_alter_eq, Hm. simpl. by rewrite lookup_delete_eq.
  - destruct (decide (i = shard_index q s)) as [Hi|Hi].
    + rewrite <-Hi, list_lookup_alter_eq, Hm. simpl. by rewrite lookup_delete_ne.
    + by rewrite list_lookup_alter_ne.
Qed.

Lemma alter_nonempty {A} (g : A -> A) i (l : list A) : l <> [] -> alter g i l <> [].
Proof. intros Hl H. apply (f_equal length) in H. rewrite length_alter in H. by destruct l. Qed.

(** A page has one frame. *)
Lemma inv_unique ev fls s f1 f2 fr1 fr2 :
  pool_inv ev fls s -> bp_frames s !! f1 = Some fr1 -> bp_frames s !! f2 = Some fr2 ->
  fm_page_id (fr_meta fr1) = fm_page_id (fr_meta fr2) -> fm_page_id (fr_meta fr1) <> PageId_INVALID -> f1 = f2.
Proof.
  intros Hi H1 H2 He Hne. assert (E1 : table_get (fm_page_id (fr_meta fr1)) s = Some f1) by (apply (pi_table _ _ _ Hi); eauto).
  assert (E2 : table_get (fm_page_id (fr_meta fr1)) s = Some f2) by (apply (pi_table _ _ _ Hi); rewrite He in *; eauto). congruence.
Qed.

Lemma view_wf ev fls s p : pool_inv ev fls s -> page_wf (view s p).
Proof.
  intros Hi. unfold view. destruct (table_get p s) as [f|] eqn:E.
  - apply (pi_table _ _ _ Hi) in E as (_ & fr & Hf & _). rewrite Hf. by apply (pi_frames _ _ _ Hi) in Hf as [].
  - apply disk_page_wf, (pi_file _ _ _ Hi).
Qed.

(** ** Updates of one frame *)

Definition upd_frame (f : nat) (g : Frame -> Frame) (s : BP) : BP := set_frames (alter g f (bp_frames s)) s.

Lemma on_frame_eq f g s : on_frame f g s = (Ok tt, upd_frame f g s).
Proof. done. Qed.

Lemma table_get_upd f g s p : table_get p (upd_frame f g s) = table_get p s.
Proof. done. Qed.

Lemma upd_frame_lookup f g s i :
  bp_frames (upd_frame f g s) !! i = if decide (i = f) then g <$> bp_frames s !! f else bp_frames s !! i.
Proof. unfold upd_frame. simpl. rewrite list_lookup_alter. repeat case_decide; congruence. Qed.

Lemma inv_upd ev ev' fls fls' s f fr g :
  pool_inv ev fls s -> bp_frames s !! f = Some fr -> fm_page_id (fr_meta (g fr)) = fm_page_id (fr_meta fr) ->
  (forall i, i <> f -> fls' !! i = fls !! i) -> (forall i, i <> f -> own ev' i = own ev i) ->
  frame_ok (df_data (bp_data_file s)) (own ev' f) (fls' !! f) (g fr) ->
  (forall i x, fls' !! i = Some x -> flight_ok (bp_data_file s) (bp_flush_gen s) (bp_synced_gen s) fls' x) ->
  pool_inv ev' fls' (upd_frame f g s).
Proof.
  intros Hi Hf Hp Hfl Hev Hok Hx. destruct Hi as [I1 I2 I3 I4 I5 I6]. split; try done.
  - intros i fr'. rewrite upd_frame_lookup. destruct (decide (i = f)) as [Hif|Hif].
    + subst i. rewrite Hf. intros [= <-]. done.
    + intros Hi. rewrite Hfl by done. rewrite Hev by done. by apply I3.
  - intros p i. rewrite table_get_upd, I4, upd_frame_lookup. apply and_iff_compat_l. destruct (decide (i = f)) as [Hif|Hif]; [subst i|done].
    rewrite Hf. simpl. split; intros (fr' & [= <-] & <-); eauto.
  - intros i x Hfx. split; [|by eapply Hx]. rewrite upd_frame_lookup. destruct (decide (i = f)) as [Hif|Hif]; [subst; rewrite Hf; by eexists|].
    rewrite Hfl in Hfx by done. by apply I6 in Hfx as [].
Qed.

Lemma view_upd s f fr g q :
  bp_frames s !! f = Some fr -> fr_content (g fr) = fr_content fr -> view (upd_frame f g s) q = view s q.
Proof.
  intros Hf Hc. unfold view. rewrite table_get_upd. destruct (table_get q s) as [i|]; [|done].
  rewrite upd_frame_lookup. case_decide; [subst|done]. by rewrite Hf.
Qed.

(** A change of the metadata that the invariant does not look at. *)
Lemma inv_meta ev fls s f fr g :
  pool_inv ev fls s -> bp_frames s !! f = Some fr ->
  (forall P, frame_ok (df_data (bp_data_file s)) P (fls !! f) fr -> frame_ok (df_data (bp_data_file s)) P (fls !! f) (g fr)) ->
  fm_page_id (fr_meta (g fr)) = fm_page_id (fr_meta fr) -> pool_inv ev fls (upd_frame f g s).
Proof.
  intros Hi Hf Hg Hp. eapply inv_upd; [done..| |]; [apply Hg; by apply (pi_frames _ _ _ Hi)|].
  intros i x Hx. by apply (pi_flights _ _ _ Hi) in Hx as [].
Qed.

(** ** The phases of a flush *)

Lemma flight_ok_sub d fg sg fls fls' x :
  (forall i y g, fls' !! i = Some y -> fl_gen y = Some g -> fls !! i = Some y) ->
  flight_ok d fg sg fls x -> flight_ok d fg sg fls' x.
Proof.
  intros Hsub [Hg Hp]. split; [done|]. destruct (fl_phase x); try done.
  destruct Hp as [Hc Hs]. split; [done|]. intros i y g' Hy Hgy. eapply Hs; [by eapply Hsub|done].
Qed.

Lemma flights_sub ev fls fls' s :
  pool_inv ev fls s -> (forall i y, fls' !! i = Some y -> fls !! i = Some y \/ fl_phase y = FClaimed) ->
  forall i x, fls' !! i = Some x -> flight_ok (bp_data_file s) (bp_flush_gen s) (bp_synced_gen s) fls' x.
Proof.
  intros Hi Hsub i x Hx. destruct (Hsub _ _ Hx) as [Hf|Hc].
  - eapply flight_ok_sub; [|by apply (pi_flights _ _ _ Hi) in Hf as [_ H]].
    intros j y g Hy Hg. destruct (Hsub _ _ Hy) as [|Hc]; [done|]. unfold fl_gen in Hg. by rewrite Hc in Hg.
  - unfold flight_ok, fl_gen. by rewrite Hc.
Qed.

(** The page of a flight belongs to no other frame. *)
Lemma flight_page ev fls s f x : pool_inv ev fls s -> fls !! f = Some x ->
  exists fr, bp_frames s !! f = Some fr /\ fm_page_id (fr_meta fr) = fl_page x /\ fl_page x <> PageId_INVALID /\
    page_valid (df_data (bp_data_file s)) (fl_page x) /\ table_get (fl_page x) s = Some f.
Proof.
  intros Hi Hx. destruct (pi_flights _ _ _ Hi f x Hx) as [[fr Hf] _]. pose proof (pi_frames _ _ _ Hi f fr Hf) as Hok.
  destruct (fo_flight _ _ _ _ Hok x Hx) as (Hp & Hne & _). exists fr. repeat split; try done.
  - rewrite Hp. apply (fo_valid _ _ _ _ Hok). congruence.
  - rewrite Hp. apply (fo_valid _ _ _ _ Hok). congruence.
  - apply (pi_table _ _ _ Hi). eauto.
Qed.

Lemma inv_claim ev fls s f fr :
  pool_inv ev fls s -> bp_frames s !! f = Some fr -> fls !! f = None ->
  fm_dirty (fr_meta fr) = true -> fm_page_id (fr_meta fr) <> PageId_INVALID ->
  fr_latch fr <> Writer -> (own ev f = None -> exists n, fr_latch fr = Readers (S n)) ->
  pool_inv ev (<[f := mkFlight (fm_page_id (fr_meta fr)) (fm_first_dirty_lsn (fr_meta fr)) FClaimed]> fls)
    (upd_frame f (fun fr => mkFrame (set_first_dirty Lsn_INVALID (set_dirty false (set_flushing true (fr_meta fr)))) (fr_latch fr) (fr_content fr)) s).
Proof.
  intros Hi Hf Hx Hd Hp Hl Hr. pose proof (pi_frames _ _ _ Hi f fr Hf) as Hok.
  eapply inv_upd; [done|done|done|intros i Hif; by rewrite lookup_insert_ne|done| |].
  - rewrite lookup_insert_eq. destruct Hok as [O1 O2 O3 O4 O5 O6 O7 O8 O9 O10].
    split; cbn [fr_meta fr_latch fr_content set_first_dirty set_dirty set_flushing fm_page_id fm_dirty fm_flushing fm_evicting fm_pin_count]; try done.
    + intros x [= <-]. simpl. repeat split; try done.
    + intros _ _ Hc. by destruct (Hc _ eq_refl).
  - eapply flights_sub; [done|]. intros i y. destruct (decide (i = f)) as [->|Hif].
    + rewrite lookup_insert_eq. intros [= <-]. by right.
    + rewrite lookup_insert_ne by done. by left.
Qed.

Definition failed_meta (saved : Lsn) (fr : Frame) : Frame :=
  mkFrame (set_flushing false (set_first_dirty (restore_first_dirty_lsn (fm_first_dirty_lsn (fr_meta fr)) saved)
             (set_dirty true (fr_meta fr)))) (fr_latch fr) (fr_content fr).

Lemma flush_failed_eq {A} f saved e s : flush_failed (A:=A) f saved e s = (Err e, upd_frame f (failed_meta saved) s).
Proof. done. Qed.

Lemma inv_failed ev fls s f x saved :
  pool_inv ev fls s -> fls !! f = Some x -> pool_inv ev (delete f fls) (upd_frame f (failed_meta saved) s).
Proof.
  intros Hi Hx. destruct (flight_page _ _ _ _ _ Hi Hx) as (fr & Hf & Hp & Hne & _).
  pose proof (pi_frames _ _ _ Hi f fr Hf) as Hok.
  eapply inv_upd; [done|done|done|intros i Hif; by rewrite lookup_delete_ne|done| |].
  - rewrite lookup_delete_eq. destruct Hok as [O1 O2 O3 O4 O5 O6 O7 O8 O9 O10].
    split; cbn [failed_meta fr_meta fr_latch fr_content set_first_dirty set_dirty set_flushing fm_page_id fm_dirty fm_flushing fm_evicting fm_pin_count]; try done.
    intros He. congruence.
  - eapply flights_sub; [done|]. intros i y Hy. left. by apply lookup_delete_Some in Hy as [].
Qed.

(** A write to the page of a claimed flight, complete or torn. *)
Lemma inv_data ev fls s f p saved data' io' :
  pool_inv ev fls s -> fls !! f = Some (mkFlight p saved FClaimed) ->
  length data' = length (df_data (bp_data_file s)) -> wf_bytes data' ->
  (forall q, q <> p -> disk_page data' q = disk_page (df_data (bp_data_file s)) q) ->
  let s' := set_file (mkDataFile data' (df_stable (bp_data_file s)) io') s in
  pool_inv ev fls s' /\ forall q, view s' q = view s q.
Proof.
  intros Hi Hx Hlen Hwf Hq s'. destruct (flight_page _ _ _ _ _ Hi Hx) as (fr & Hf & Hp & Hne & Hv & Ht). simpl in *.
  assert (Hother : forall i fr', i <> f -> bp_frames s !! i = Some fr' -> fm_page_id (fr_meta fr') <> PageId_INVALID ->
    fm_page_id (fr_meta fr') <> p).
  { intros i fr' Hif Hf' Hn He. apply Hif. eapply inv_unique; [done|done|exact Hf|congruence|done]. }
  split.
  - destruct Hi as [I1 I2 I3 I4 I5 I6]. split; try done.
    + destruct I2 as [D1 D2 D3 D4]. split; simpl; rewrite ?Hlen; done.
    + intros i fr' Hf'. specialize (I3 _ _ Hf'). cbn [bp_data_file set_file df_data s'].
      destruct I3 as [O1 O2 O3 O4 O5 O6 O7 O8 O9 O10]. split; try done.
      * unfold page_valid in *. by rewrite Hlen.
      * intros Hn Hd Hc. destruct (decide (i = f)) as [->|Hif]; [by destruct (Hc _ Hx)|].
        rewrite Hq; [by apply O10|by apply (Hother i)].
    + intros i x Hfx. destruct (I6 _ _ Hfx) as [Hs [Hg Hph]]. split; [done|].
      assert (Hpg : forall j y, fls !! j = Some y -> fl_phase y <> FClaimed -> disk_page data' (fl_page y) = disk_page (df_data (bp_data_file s)) (fl_page y)).
      { intros j y Hy Hph'. apply Hq. destruct (decide (j = f)) as [->|Hjf]; [rewrite Hx in Hy; injection Hy as <-; done|].
        destruct (I6 _ _ Hy) as [[fy Hfy] _]. destruct (fo_flight _ _ _ _ (I3 _ _ Hfy) y Hy) as (Hyp & Hyn & _).
        rewrite Hyp in *. by apply (Hother j). }
      assert (Hgen : forall y g, fl_gen y = Some g -> fl_phase y <> FClaimed) by (intros y g; unfold fl_gen; by destruct (fl_phase y)).
      cbn [bp_data_file set_file df_data df_stable bp_flush_gen bp_synced_gen s']. split.
      * intros g Hgx. destruct (Hg _ Hgx) as [Hl Hst]. split; [done|]. intros Hle. cbn [df_stable df_data].
        rewrite (Hpg i x) by (try done; by eapply Hgen). by apply Hst.
      * destruct (fl_phase x) eqn:Eph; try done; cbn [df_stable df_data].
        -- destruct Hph as [Hl Hst]. split; [done|]. intros j y g' Hy Hgy Hle. rewrite (Hpg j y) by (try done; by eapply Hgen). by eapply Hst.
        -- rewrite (Hpg i x) by (try done; by rewrite Eph). done.
  - intros q. unfold view. change (table_get q s') with (table_get q s). destruct (table_get q s) as [i|] eqn:E; [done|].
    simpl. apply Hq. intros ->. congruence.
Qed.

(** A flight moves to a later phase, with other counters or another durable file. *)
Lemma inv_phase ev fls s s' f x ph :
  pool_inv ev fls s -> fls !! f = Some x -> ph <> FClaimed ->
  (fl_phase x = FClaimed -> forall fr, bp_frames s !! f = Some fr -> fr_content fr = disk_page (df_data (bp_data_file s)) (fl_page x)) ->
  bp_page_table s' = bp_page_table s -> bp_frames s' = bp_frames s -> df_data (bp_data_file s') = df_data (bp_data_file s) ->
  length (df_stable (bp_data_file s')) = length (df_data (bp_data_file s)) ->
  0 <= bp_synced_gen s' <= bp_flush_gen s' -> bp_flush_gen s' < 2 ^ 64 ->
  let fls' := <[f := mkFlight (fl_page x) (fl_saved x) ph]> fls in
  (forall i y, fls' !! i = Some y -> flight_ok (bp_data_file s') (bp_flush_gen s') (bp_synced_gen s') fls' y) ->
  pool_inv ev fls' s' /\ forall q, view s' q = view s q.
Proof.
  intros Hi Hx Hph Hc Ht Hfs Hd Hst Hg1 Hg2 fls' Hfl.
  assert (Htab : forall q, table_get q s' = table_get q s) by (intros q; unfold table_get, shard_index; by rewrite Ht).
  split; [|intros q; unfold view; by rewrite Htab, Hfs, Hd]. destruct Hi as [I1 I2 I3 I4 I5 I6]. split; try done.
  - congruence.
  - destruct I2 as [D1 D2 D3 D4]. split; rewrite ?Hd; done.
  - intros i fr. rewrite Hfs, Hd. intros Hf. specialize (I3 _ _ Hf). destruct (decide (i = f)) as [->|Hif].
    + unfold fls'. rewrite lookup_insert_eq. destruct I3 as [O1 O2 O3 O4 O5 O6 O7 O8 O9 O10]. destruct (O8 x Hx) as (E1 & E2 & E3 & E4).
      rewrite Hx in *. split; try done; [by intros y [= <-]|].
      intros Hn Hdy _. destruct (fl_phase x) eqn:Eph; [rewrite <-E1; by apply (Hc eq_refl)|..]; apply O10; try done; intros y [= <-]; by rewrite Eph.
    + unfold fls'. by rewrite lookup_insert_ne by done.
  - intros p i. by rewrite Htab, Hfs, I4.
  - intros i y Hy. split; [|by eapply Hfl]. rewrite Hfs. destruct (decide (i = f)) as [->|Hif]; [by eapply I6|].
    unfold fls' in Hy. rewrite lookup_insert_ne in Hy by done. by eapply I6.
Qed.

Lemma inv_written ev fls s f p saved fr :
  pool_inv ev fls s -> fls !! f = Some (mkFlight p saved FClaimed) -> bp_frames s !! f = Some fr ->
  fr_content fr = disk_page (df_data (bp_data_file s)) p -> bp_flush_gen s + 1 < 2 ^ 64 ->
  let s' := set_gens (bp_flush_gen s + 1) (bp_synced_gen s) s in
  pool_inv ev (<[f := mkFlight p saved (FWritten (bp_flush_gen s + 1))]> fls) s' /\ forall q, view s' q = view s q.
Proof.
  intros Hi Hx Hf Hc Hg s'. pose proof (pi_gens _ _ _ Hi) as [Hg1 Hg2].
  apply (inv_phase ev fls s s' f (mkFlight p saved FClaimed)); try done.
  - intros _ fr' Hf'. rewrite Hf in Hf'. injection Hf' as <-. done.
  - apply (pi_file _ _ _ Hi).
  - simpl. lia.
  - simpl. intros i y. destruct (decide (i = f)) as [->|Hif].
    + rewrite lookup_insert_eq. intros [= <-]. split; [|done]. intros g [= <-]. split; [lia|]. lia.
    + rewrite lookup_insert_ne by done. intros Hy. destruct (pi_flights _ _ _ Hi _ _ Hy) as [_ [H1 H2]]. split.
      * intros g Hgy. destruct (H1 _ Hgy). split; [lia|done].
      * destruct (fl_phase y) as [|g|g c|g c|] eqn:Eph; try done; [lia|]. destruct H2 as [Hgc Hall]. split; [lia|].
        intros j z g' Hz Hgz Hle. destruct (decide (j = f)) as [->|Hjf].
        -- rewrite lookup_insert_eq in Hz. injection Hz as <-. cbn in Hgz. injection Hgz as <-. lia.
        -- rewrite lookup_insert_ne in Hz by done. by eapply Hall.
Qed.

Lemma flights_insert fls f x ph i y g :
  fls !! f = Some x -> <[f := mkFlight (fl_page x) (fl_saved x) ph]> fls !! i = Some y -> fl_gen y = Some g ->
  (forall g', fl_gen (mkFlight (fl_page x) (fl_saved x) ph) = Some g' -> fl_gen x = Some g') ->
  exists y', fls !! i = Some y' /\ fl_gen y' = Some g /\ fl_page y' = fl_page y.
Proof.
  intros Hx Hy Hg Hgen. destruct (decide (i = f)) as [->|Hif].
  - rewrite lookup_insert_eq in Hy. injection Hy as <-. exists x. split; [done|]. split; [by apply Hgen|done].
  - rewrite lookup_insert_ne in Hy by done. by exists y.
Qed.

(** The load of the covered generation. *)
Lemma inv_covered ev fls s f p saved g :
  pool_inv ev fls s -> fls !! f = Some (mkFlight p saved (FWritten g)) ->
  pool_inv ev (<[f := mkFlight p saved (FSyncing g (bp_flush_gen s))]> fls) s.
Proof.
  intros Hi Hx. pose proof (pi_gens _ _ _ Hi) as [Hg1 Hg2]. destruct (pi_flights _ _ _ Hi _ _ Hx) as [_ [Hown _]].
  apply (inv_phase ev fls s s f (mkFlight p saved (FWritten g))); try done; [apply (pi_file _ _ _ Hi)|].
  intros i y Hy. destruct (decide (i = f)) as [->|Hif].
  - rewrite lookup_insert_eq in Hy. injection Hy as <-. split; [exact Hown|]. simpl. destruct (Hown g eq_refl). lia.
  - rewrite lookup_insert_ne in Hy by done. destruct (pi_flights _ _ _ Hi _ _ Hy) as [_ [H1 H2]]. split; [done|].
    destruct (fl_phase y); try done. destruct H2 as [Hgc Hall]. split; [done|]. intros j z g' Hz Hgz Hle.
    eapply flights_insert in Hz as (z' & Hz' & Hgz' & <-); [|done|done|done]. by eapply Hall.
Qed.

(** The fsync itself. *)
Lemma inv_synced ev fls s f p saved g c io' :
  pool_inv ev fls s -> fls !! f = Some (mkFlight p saved (FSyncing g c)) ->
  let d := bp_data_file s in let s' := set_file (mkDataFile (df_data d) (df_data d) io') s in
  pool_inv ev (<[f := mkFlight p saved (FSynced g c)]> fls) s' /\ forall q, view s' q = view s q.
Proof.
  intros Hi Hx d s'. pose proof (pi_gens _ _ _ Hi) as [Hg1 Hg2]. destruct (pi_flights _ _ _ Hi _ _ Hx) as [_ [Hown Hph]]. simpl in Hph.
  apply (inv_phase ev fls s s' f (mkFlight p saved (FSyncing g c))); try done.
  intros i y Hy. destruct (decide (i = f)) as [->|Hif].
  - rewrite lookup_insert_eq in Hy. injection Hy as <-. split; [|done]. intros g' [= <-]. split; [|done]. by apply (Hown g).
  - rewrite lookup_insert_ne in Hy by done. destruct (pi_flights _ _ _ Hi _ _ Hy) as [_ [H1 H2]]. split.
    + intros g' Hg'. split; [|done]. by apply H1.
    + destruct (fl_phase y); try done. by destruct H2.
Qed.

(** The publication of the covered generation: the flight is durable. *)
Lemma pool_published ev fls s f p saved g c :
  pool_inv ev fls s -> fls !! f = Some (mkFlight p saved (FSynced g c)) ->
  let s' := set_gens (bp_flush_gen s) (Z.max (bp_synced_gen s) c) s in
  pool_inv ev (<[f := mkFlight p saved FDone]> fls) s' /\ forall q, view s' q = view s q.
Proof.
  intros Hi Hx s'. pose proof (pi_gens _ _ _ Hi) as [Hg1 Hg2]. destruct (pi_flights _ _ _ Hi _ _ Hx) as [_ [Hown Hph]]. simpl in Hph.
  destruct Hph as [Hgc Hall].
  apply (inv_phase ev fls s s' f (mkFlight p saved (FSynced g c))); try done; [apply (pi_file _ _ _ Hi)|simpl; lia|].
  intros i y Hy. destruct (decide (i = f)) as [->|Hif].
  - rewrite lookup_insert_eq in Hy. injection Hy as <-. split; [done|]. cbn. by apply (Hall f (mkFlight p saved (FSynced g c)) g); [| |lia].
  - rewrite lookup_insert_ne in Hy by done. destruct (pi_flights _ _ _ Hi _ _ Hy) as [_ [H1 H2]]. split.
    + intros g' Hg'. destruct (H1 _ Hg') as [Hl Hs]. split; [done|]. cbn [bp_synced_gen set_gens s']. intros Hle.
      destruct (decide (g' <= bp_synced_gen s)); [by apply Hs|]. eapply Hall; [done|done|lia].
    + destruct (fl_phase y); try done. destruct H2 as [Hgc' Hall']. split; [done|]. intros j z g' Hz Hgz Hle.
      eapply flights_insert in Hz as (z' & Hz' & Hgz' & <-); [|done|done|done]. by eapply Hall'.
Qed.

(** No fsync is due: an earlier one covered the write. *)
Lemma inv_skip ev fls s f p saved g :
  pool_inv ev fls s -> fls !! f = Some (mkFlight p saved (FWritten g)) -> g <= bp_synced_gen s ->
  pool_inv ev (<[f := mkFlight p saved FDone]> fls) s.
Proof.
  intros Hi Hx Hle. pose proof (pi_gens _ _ _ Hi) as [Hg1 Hg2]. destruct (pi_flights _ _ _ Hi _ _ Hx) as [_ [Hown _]].
  apply (inv_phase ev fls s s f (mkFlight p saved (FWritten g))); try done; [apply (pi_file _ _ _ Hi)|].
  intros i y Hy. destruct (decide (i = f)) as [->|Hif].
  - rewrite lookup_insert_eq in Hy. injection Hy as <-. split; [done|]. cbn. by destruct (Hown g eq_refl) as [_ H]; apply H.
  - rewrite lookup_insert_ne in Hy by done. destruct (pi_flights _ _ _ Hi _ _ Hy) as [_ [H1 H2]]. split; [done|].
    destruct (fl_phase y); try done. destruct H2 as [Hgc' Hall']. split; [done|]. intros j z g' Hz Hgz Hle'.
    eapply flights_insert in Hz as (z' & Hz' & Hgz' & <-); [|done|done|done]. by eapply Hall'.
Qed.

Definition finished (fr : Frame) : Frame := mkFrame (set_flushing false (fr_meta fr)) (fr_latch fr) (fr_content fr).

Lemma inv_finish ev fls s f p saved :
  pool_inv ev fls s -> fls !! f = Some (mkFlight p saved FDone) -> pool_inv ev (delete f fls) (upd_frame f finished s).
Proof.
  intros Hi Hx. destruct (flight_page _ _ _ _ _ Hi Hx) as (fr & Hf & Hp & Hne & _).
  pose proof (pi_frames _ _ _ Hi f fr Hf) as Hok.
  eapply inv_upd; [done|done|done|intros i Hif; by rewrite lookup_delete_ne|done| |].
  - rewrite lookup_delete_eq. rewrite Hx in Hok. destruct Hok as [O1 O2 O3 O4 O5 O6 O7 O8 O9 O10].
    split; cbn [finished fr_meta fr_latch fr_content set_flushing fm_page_id fm_dirty fm_flushing fm_evicting fm_pin_count]; try done.
    intros Hn Hd _. apply O10; try done. by intros y [= <-].
  - eapply flights_sub; [done|]. intros i y Hy. left. by apply lookup_delete_Some in Hy as [].
Qed.

(** ** What a flush leaves alone *)

Definition frame_key (fr : Frame) : PageId * Z * bool * Latch * list Z :=
  (fm_page_id (fr_meta fr), fm_pin_count (fr_meta fr), fm_reference (fr_meta fr), fr_latch fr, fr_content fr).

Record kept s s' : Prop := {
  kp_table : bp_page_table s' = bp_page_table s;
  kp_frames i : frame_key <$> bp_frames s' !! i = frame_key <$> bp_frames s !! i;
  kp_len : length (df_data (bp_data_file s')) = length (df_data (bp_data_file s));
  kp_hand : bp_clock_hand s' = bp_clock_hand s;
  kp_ckpt : bp_checkpoint_lsn s' = bp_checkpoint_lsn s;
  kp_alloc : bp_page_allocator s' = set_wal (bp_wal s') (bp_page_allocator s);
  kp_synced : pl_synced_lsn (bp_wal s) <= pl_synced_lsn (bp_wal s');
}.

#[export] Instance kept_preorder : PreOrder kept.
Proof.
  split.
  - intros s. split; try done. unfold bp_wal. by destruct (bp_page_allocator s).
  - intros s1 s2 s3 [A1 A2 A3 A4 A5 A6 A7] [B1 B2 B3 B4 B5 B6 B7].
    split; [congruence|intros i; by rewrite B2|congruence..|by rewrite B6, A6|lia].
Qed.

Lemma kept_upd s f fr g : bp_frames s !! f = Some fr -> frame_key (g fr) = frame_key fr -> kept s (upd_frame f g s).
Proof.
  intros Hf Hg. split; try done; [|unfold bp_wal; simpl; by destruct (bp_page_allocator s)].
  intros i. rewrite upd_frame_lookup. case_decide; [subst|done]. rewrite Hf. simpl. by rewrite Hg.
Qed.

Lemma kept_frame s s' f fr : kept s s' -> bp_frames s !! f = Some fr ->
  exists fr', bp_frames s' !! f = Some fr' /\ frame_key fr' = frame_key fr.
Proof. intros Hk Hf. pose proof (kp_frames _ _ Hk f) as H. rewrite Hf in H. simpl in H. by apply fmap_Some in H as (fr' & ? & ?); eauto. Qed.

Lemma kept_table_get s s' q : kept s s' -> table_get q s' = table_get q s.
Proof. intros Hk. unfold table_get, shard_index. by rewrite (kp_table _ _ Hk). Qed.

Lemma inv_alloc ev fls s a : pool_inv ev fls s -> pool_inv ev fls (set_allocator a s).
Proof. by intros [I1 I2 I3 I4 I5 I6]. Qed.

(** No failure is ahead, in the data file or in the log. *)
Definition calm `{!PoolWalLaws W} s : Prop := df_io (bp_data_file s) = [] /\ pl_ok (bp_wal s).

Context {LW : PoolWalLaws W}.

Lemma wal_flush_spec ev fls s lsn :
  pool_inv ev fls s -> let s' := snd (on_pool_wal (pl_flush_to lsn) s) in
  pool_inv ev fls s' /\ kept s s' /\ (forall q, view s' q = view s q) /\ bp_flush_gen s' = bp_flush_gen s /\ bp_frames s' = bp_frames s.
Proof.
  intros Hi s'. split; [by apply inv_alloc|]. split; [|done]. split; try done.
  unfold s', on_pool_wal. simpl. unfold bp_wal at 2. simpl. apply pl_flush_to_mono.
Qed.

Lemma wrap_page_offset data p : page_valid data p -> zlen data < 2 ^ 63 -> wrap64 ((p - 1) * PAGE_SIZE) = (p - 1) * PAGE_SIZE.
Proof. intros [??] ?. apply wrap64_small. unfold PAGE_SIZE in *. lia. Qed.

(** The write of a claimed page. *)
Lemma data_write_spec ev fls s f p saved content :
  pool_inv ev fls s -> fls !! f = Some (mkFlight p saved FClaimed) -> page_wf content ->
  let r := on_data (pf_write_all_at content (wrap64 ((p - 1) * PAGE_SIZE))) s in
  pool_inv ev fls (snd r) /\ kept s (snd r) /\ (forall q, view (snd r) q = view s q) /\
  bp_flush_gen (snd r) = bp_flush_gen s /\ bp_frames (snd r) = bp_frames s /\ bp_page_allocator (snd r) = bp_page_allocator s /\
  (df_io (bp_data_file s) = [] -> fst r = Ok tt /\ df_io (bp_data_file (snd r)) = []) /\
  (fst r = Ok tt /\ disk_page (df_data (bp_data_file (snd r))) p = content \/ fst r = Err Io).
Proof.
  intros Hi Hx [Hlen Hwf]. destruct (flight_page _ _ _ _ _ Hi Hx) as (fr & Hf & Hp & Hne & Hv & Ht). simpl in *.
  pose proof (pi_file _ _ _ Hi) as [D1 D2 D3 D4]. rewrite (wrap_page_offset _ _ Hv D2).
  set (d := bp_data_file s) in *. unfold on_data. fold d. unfold pf_write_all_at.
  assert (Hany : forall bs, zlen bs <= PAGE_SIZE -> wf_bytes bs ->
    let s' := set_file (mkDataFile (pwrite ((p - 1) * PAGE_SIZE) bs (df_data d)) (df_stable d) (tl (df_io d))) s in
    pool_inv ev fls s' /\ kept s s' /\ (forall q, view s' q = view s q)).
  { intros bs Hb Hw s'. destruct (disk_page_write (df_data d) p bs p Hv Hb) as (Hl & _).
    destruct (inv_data ev fls s f p saved (pwrite ((p - 1) * PAGE_SIZE) bs (df_data d)) (tl (df_io d)) Hi Hx Hl) as [H1 H2].
    - rewrite pwrite_inside by (unfold page_valid, PAGE_SIZE in *; lia). by apply Forall_splice.
    - intros q Hq. by apply (disk_page_write (df_data d) p bs q Hv Hb).
    - split; [done|]. split; [|done]. split; try done. unfold bp_wal. simpl. by destruct (bp_page_allocator s). }
  destruct (hd None (df_io d)) as [n|] eqn:E; cbn [fst snd].
  - destruct (Hany (take n content)) as (H1 & H2 & H3); [rewrite length_take; lia|by apply Forall_take|].
    repeat (split; [done|]). split; [|by right]. intros Hio. by rewrite Hio in E.
  - destruct (Hany content) as (H1 & H2 & H3); [lia|done|]. repeat (split; [done|]).
    split; [intros ->; done|]. left. split; [done|]. destruct (disk_page_write (df_data d) p content p Hv) as (_ & _ & Hd); [lia|]. by apply Hd.
Qed.

(** What a failed phase leaves: the page is dirty again and the flight is over. *)
Definition failed_flush ev fls s (f : nat) (saved : Lsn) s' : Prop :=
  pool_inv ev (delete f fls) s' /\ kept s s' /\ (forall q, view s' q = view s q) /\
  bp_flush_gen s <= bp_flush_gen s' <= bp_flush_gen s + 1 /\
  exists fr fr', bp_frames s !! f = Some fr /\ bp_frames s' !! f = Some fr' /\ fm_dirty (fr_meta fr') = true /\
    fm_first_dirty_lsn (fr_meta fr') = restore_first_dirty_lsn (fm_first_dirty_lsn (fr_meta fr)) saved.

Lemma fail_spec {A} ev fls s s1 f x saved e :
  pool_inv ev fls s1 -> fls !! f = Some x -> kept s s1 -> (forall q, view s1 q = view s q) ->
  bp_flush_gen s <= bp_flush_gen s1 <= bp_flush_gen s + 1 ->
  (forall fr1, bp_frames s1 !! f = Some fr1 -> exists fr, bp_frames s !! f = Some fr /\
     fm_first_dirty_lsn (fr_meta fr1) = fm_first_dirty_lsn (fr_meta fr)) ->
  failed_flush ev fls s f saved (snd (flush_failed (A:=A) f saved e s1)).
Proof.
  intros Hi Hx Hk Hv Hg Hfd. rewrite flush_failed_eq. cbn [snd]. destruct (flight_page _ _ _ _ _ Hi Hx) as (fr & Hf & _).
  split; [by eapply inv_failed|]. split; [etrans; [done|by eapply kept_upd]|].
  split; [intros q; by erewrite view_upd|]. split; [done|].
  destruct (Hfd fr Hf) as (fr0 & Hf0 & He). exists fr0, (failed_meta saved fr).
  rewrite upd_frame_lookup, decide_True, Hf by done. repeat (split; [done|]). simpl. by rewrite He.
Qed.

(** WAL before data: the log is durable up to the page's LSN, unless that LSN is
    ahead of the log (a page image that recovery brought). *)
Definition wal_covers (lsn : Lsn) (w : W) : Prop := lsn <= pl_synced_lsn w \/ lsn = Lsn_INVALID \/ pl_current_lsn w < lsn.

(** The condition under which [flush_write] flushes the log, and what holds after. *)
Lemma wal_step_spec ev fls s f x saved lsn r s1 :
  pool_inv ev fls s -> fls !! f = Some x ->
  (if Lsn_is_valid lsn && (lsn <=? pl_current_lsn (bp_wal s)) && (pl_synced_lsn (bp_wal s) <? lsn)
   then mcatch (on_pool_wal (pl_flush_to lsn)) (flush_failed f saved) else mret tt) s = (r, s1) ->
  match r with
  | Ok _ => pool_inv ev fls s1 /\ kept s s1 /\ (forall q, view s1 q = view s q) /\ bp_flush_gen s1 = bp_flush_gen s /\
            bp_frames s1 = bp_frames s /\ (lsn <= pl_synced_lsn (bp_wal s1) \/ lsn = Lsn_INVALID \/ pl_current_lsn (bp_wal s) < lsn) /\
            (calm s -> calm s1)
  | Err _ => failed_flush ev fls s f saved s1 /\ ~ calm s
  | Panic => False
  end.
Proof.
  intros Hi Hx. unfold Lsn_is_valid. destruct (_ && _) eqn:Ec.
  - zbool. destruct (wal_flush_spec ev fls s lsn Hi) as (A1 & A2 & A3 & A4 & A5). unfold mcatch.
    assert (Hcalm : calm s -> fst (on_pool_wal (pl_flush_to lsn) s) = Ok tt /\ calm (snd (on_pool_wal (pl_flush_to lsn) s))).
    { intros [Hio Hok]. destruct (pl_flush_to_total lsn (bp_wal s) Hok ltac:(done)) as [Ht Hk]. split; [done|]. by split. }
    pose proof (pl_flush_to_no_panic lsn (bp_wal s)) as Hnp. pose proof (pl_flush_to_ok lsn (bp_wal s)) as Hok.
    unfold on_pool_wal in *. destruct (pl_flush_to lsn (bp_wal s)) as [[[]|e|] w]; cbn [fst snd] in *; [|clear Hok|done].
    + intros H'; injection H' as <- <-. repeat (split; [done|]). split; [left; by apply Hok|]. by intros Hc; apply Hcalm.
    + intros H'. assert (Hs1 : s1 = snd (flush_failed (A:=unit) f saved e (set_allocator (set_wal w (bp_page_allocator s)) s))) by (by rewrite H').
      assert (r = Err e) as -> by (by injection H'). rewrite Hs1. split; [|by intros Hc; apply Hcalm in Hc as []].
      eapply fail_spec; [done..|lia|by eauto].
  - intros H'; injection H' as <- <-. repeat (split; [done|]). split; [|done].
    apply andb_false_iff in Ec as [Ec|Ec]; [apply andb_false_iff in Ec as [Ec|Ec]|]; zbool; unfold Lsn_INVALID; [|lia..].
    right; left. done.
Qed.

Lemma flush_write_spec ev fls s f p saved fr r s' :
  pool_inv ev fls s -> fls !! f = Some (mkFlight p saved FClaimed) -> bp_flush_gen s + 1 < 2 ^ 64 ->
  bp_frames s !! f = Some fr -> fr_latch fr <> Writer -> flush_write f p saved s = (r, s') ->
  match r with
  | Ok g => pool_inv ev (<[f := mkFlight p saved (FWritten g)]> fls) s' /\ kept s s' /\ (forall q, view s' q = view s q) /\
            bp_flush_gen s' = bp_flush_gen s + 1 /\ (calm s -> calm s') /\
            (page_pd_lsn (fr_content fr) <= pl_synced_lsn (bp_wal s') \/ page_pd_lsn (fr_content fr) = Lsn_INVALID \/
             pl_current_lsn (bp_wal s) < page_pd_lsn (fr_content fr)) /\
            exists fr', bp_frames s' !! f = Some fr' /\ fm_first_dirty_lsn (fr_meta fr') = fm_first_dirty_lsn (fr_meta fr)
  | Err _ => failed_flush ev fls s f saved s' /\ ~ calm s
  | Panic => False
  end.
Proof.
  intros Hi Hx Hgen Hf Hl H. unfold flush_write, mbindM at 1, frame_at in H. rewrite Hf in H.
  destruct (fr_latch fr) as [n|] eqn:El; [|done]. clear Hl. unfold mbindM at 1, mget at 1 in H. unfold mbindM at 1 in H.
  set (lsn := page_pd_lsn (fr_content fr)) in *.
  match type of H with (let (_, _) := ?t in _) = _ => destruct t as [r1 s1] eqn:E1 end.
  eapply wal_step_spec in E1; [|done..]. destruct r1 as [[]|e|]; [|injection H as <- <-; exact E1|done].
  destruct E1 as (Hi1 & Hk1 & Hv1 & Hg1 & Hf1 & Hlsn & Hc1).
  pose proof (pi_frames _ _ _ Hi1 f fr ltac:(by rewrite Hf1)) as Hok1.
  destruct (data_write_spec ev fls s1 f p saved (fr_content fr) Hi1 Hx (fo_content _ _ _ _ Hok1)) as (Hi2 & Hk2 & Hv2 & Hg2 & Hf2 & Ha2 & Hio2 & Hres).
  unfold mbindM at 1, mcatch in H. set (w2 := on_data _ s1) in *. destruct w2 as [r2 s2] eqn:E2. cbn [fst snd] in *.
  destruct Hres as [[-> Hdisk] | ->].
  - assert (Hw2 : bp_wal s2 = bp_wal s1) by (unfold bp_wal; by rewrite Ha2).
    destruct (inv_written ev fls s2 f p saved fr Hi2 Hx ltac:(congruence) ltac:(congruence) ltac:(rewrite Hg2, Hg1; lia)) as [Hi3 Hv3].
    pose proof (pi_gens _ _ _ Hi2) as [Hgp _].
    unfold mbindM, mmodify, mget, mret, on_meta in H. rewrite on_frame_eq in H. rewrite wrap64_small in H by lia.
    injection H as <- <-. cbn [bp_flush_gen upd_frame set_frames set_gens].
    set (s3 := set_gens _ _ _) in *.
    assert (Hf3 : bp_frames s3 !! f = Some fr) by (unfold s3; cbn; congruence).
    assert (Hw3 : forall g, bp_wal (upd_frame f g s3) = bp_wal s1) by (intros g; exact Hw2).
    split; [|split; [|split; [|split; [|split; [|split]]]]].
    + eapply inv_meta; [exact Hi3|exact Hf3| |done]. intros P [O1 O2 O3 O4 O5 O6 O7 O8 O9 O10]. by split.
    + etrans; [done|]. etrans; [done|]. etrans; [|by eapply kept_upd].
      split; try done. unfold bp_wal. simpl. by destruct (bp_page_allocator s2).
    + intros q. erewrite view_upd; [|exact Hf3|done]. rewrite Hv3, Hv2. apply Hv1.
    + lia.
    + intros Hc. apply Hc1 in Hc as [Hio Hok]. split; [apply Hio2, Hio|]. by rewrite Hw3.
    + by rewrite Hw3.
    + rewrite upd_frame_lookup, decide_True, Hf3 by done. by eexists.
  - rewrite flush_failed_eq in H. injection H as <- <-. split.
    + apply (fail_spec (A:=unit) ev fls s s2 f (mkFlight p saved FClaimed) saved Io); [done|done|by etrans|intros q; by rewrite Hv2|lia|].
      intros fr1 Hfr1. exists fr1. split; [congruence|done].
    + intros Hc. apply Hc1 in Hc as [Hio _]. by apply Hio2 in Hio as [].
Qed.

Lemma flush_sync_spec ev fls s f p saved g c r s' :
  pool_inv ev fls s -> fls !! f = Some (mkFlight p saved (FSyncing g c)) -> flush_sync f saved s = (r, s') ->
  match r with
  | Ok _ => pool_inv ev (<[f := mkFlight p saved (FSynced g c)]> fls) s' /\ kept s s' /\ (forall q, view s' q = view s q) /\
            bp_flush_gen s' = bp_flush_gen s /\ (calm s -> calm s')
  | Err _ => failed_flush ev fls s f saved s' /\ ~ calm s /\ bp_flush_gen s' = bp_flush_gen s
  | Panic => False
  end.
Proof.
  intros Hi Hx. unfold flush_sync, mcatch, on_data, pf_sync_all, mbindM, data_call, mmodify.
  destruct (inv_synced ev fls s f p saved g c (tl (df_io (bp_data_file s))) Hi Hx) as [Hi1 Hv1].
  assert (Hk : forall d io, length d = length (df_data (bp_data_file s)) -> kept s (set_file (mkDataFile (df_data (bp_data_file s)) d io) s)).
  { intros d io Hd. split; try done. unfold bp_wal. simpl. by destruct (bp_page_allocator s). }
  destruct (hd None (df_io (bp_data_file s))) as [n|] eqn:E; cbn [fst snd]; intros H.
  - rewrite flush_failed_eq in H. injection H as <- <-. split; [|split; [intros [Hio _]; by rewrite Hio in E|done]].
    pose proof (pi_file _ _ _ Hi) as [D1 D2 D3 D4].
    apply (fail_spec (A:=unit) ev fls s (set_file (mkDataFile (df_data (bp_data_file s)) (df_stable (bp_data_file s)) (tl (df_io (bp_data_file s)))) s)
             f (mkFlight p saved (FSyncing g c)) saved Io); [by destruct Hi as [I1 I2 I3 I4 I5 I6]|done|by apply Hk|done|simpl; lia|by eauto].
  - injection H as <- <-. split; [done|]. split; [by apply Hk|]. split; [done|]. split; [done|]. intros [Hio Hw]. by split; [simpl; rewrite Hio|].
Qed.

Lemma inv_own_drop fls s f b : pool_inv (Some (f, b)) fls s -> b = false -> fls !! f = None -> pool_inv None fls s.
Proof.
  intros [I1 I2 I3 I4 I5 I6] -> Hx. split; try done. intros i fr Hf. specialize (I3 _ _ Hf). unfold own in *. case_decide; [subst|done].
  rewrite Hx in *. destruct I3 as [O1 O2 O3 O4 O5 O6 O7 O8 O9 O10]. by split.
Qed.

Lemma inv_own_take fls s f : pool_inv None fls s -> pool_inv (Some (f, false)) fls s.
Proof.
  intros [I1 I2 I3 I4 I5 I6]. split; try done. intros i fr Hf. specialize (I3 _ _ Hf). unfold own in *. case_decide; [subst|done].
  destruct I3 as [O1 O2 O3 O4 O5 O6 O7 O8 O9 O10]. split; try done.
  intros x Hx. destruct (O8 x Hx) as (?&?&?&?). by repeat split.
Qed.

(** The outcome of a whole flush of frame [f]: the page is durable and clean, or
    it is dirty again with its old anchor. *)
Definition flush_outcome ev fls s (f : nat) (fr : Frame) (r : res StorageError unit) s' : Prop :=
  pool_inv ev fls s' /\ kept s s' /\ (forall q, view s' q = view s q) /\ (calm s -> r = Ok tt /\ calm s') /\
  bp_flush_gen s <= bp_flush_gen s' <= bp_flush_gen s + 1 /\
  exists fr', bp_frames s' !! f = Some fr' /\
  match r with
  | Ok _ => fm_dirty (fr_meta fr') = false /\
            (fm_dirty (fr_meta fr) = true -> disk_page (df_stable (bp_data_file s')) (fm_page_id (fr_meta fr)) = fr_content fr)
  | Err _ => fm_dirty (fr_meta fr') = true /\
             fm_first_dirty_lsn (fr_meta fr') = restore_first_dirty_lsn Lsn_INVALID (fm_first_dirty_lsn (fr_meta fr))
  | Panic => False
  end.

(** The state right after the claim of frame [f]. *)
Record claimed ev fls s (f : nat) (fr : Frame) s1 : Prop := {
  cl_inv : pool_inv ev (<[f := mkFlight (fm_page_id (fr_meta fr)) (fm_first_dirty_lsn (fr_meta fr)) FClaimed]> fls) s1;
  cl_none : fls !! f = None;
  cl_kept : kept s s1;
  cl_view q : view s1 q = view s q;
  cl_calm : calm s -> calm s1;
  cl_gen : bp_flush_gen s1 = bp_flush_gen s;
  cl_frame : exists fr1, bp_frames s1 !! f = Some fr1 /\ frame_key fr1 = frame_key fr /\ fm_first_dirty_lsn (fr_meta fr1) = Lsn_INVALID;
}.

Lemma fail_outcome ev fls s f fr s1 s2 e :
  claimed ev fls s f fr s1 ->
  failed_flush ev (<[f := mkFlight (fm_page_id (fr_meta fr)) (fm_first_dirty_lsn (fr_meta fr)) FClaimed]> fls) s1 f (fm_first_dirty_lsn (fr_meta fr)) s2 ->
  ~ calm s1 -> flush_outcome ev fls s f fr (Err e) s2.
Proof.
  intros [C1 C2 C3 C4 C5 C6 (fr1 & C7 & C8 & C9)] (A1 & A2 & A3 & A4 & fra & fr' & A5 & A6 & A7 & A8) Hnc.
  rewrite delete_insert_id in A1 by done. split; [done|]. split; [by etrans|]. split; [intros q; by rewrite A3|].
  split; [by intros Hc; apply C5 in Hc|]. split; [lia|]. exists fr'. split; [done|]. split; [done|].
  rewrite C7 in A5. injection A5 as <-. by rewrite A8, C9.
Qed.

Lemma done_outcome ev fls s f fr s1 s3 :
  claimed ev fls s f fr s1 ->
  pool_inv ev (<[f := mkFlight (fm_page_id (fr_meta fr)) (fm_first_dirty_lsn (fr_meta fr)) FDone]> fls) s3 ->
  kept s1 s3 -> (forall q, view s3 q = view s1 q) -> bp_flush_gen s3 = bp_flush_gen s1 + 1 -> (calm s1 -> calm s3) ->
  flush_outcome ev fls s f fr (fst (flush_finish f s3)) (snd (flush_finish f s3)).
Proof.
  intros [C1 C2 C3 C4 C5 C6 (fr1 & C7 & C8 & C9)] Hi3 Hk3 Hv3 Hg3 Hc3. unfold flush_finish, on_meta. rewrite on_frame_eq. cbn [fst snd].
  set (x3 := mkFlight _ _ FDone) in *. assert (Hx3 : <[f := x3]> fls !! f = Some x3) by apply lookup_insert_eq.
  destruct (flight_page _ _ _ _ _ Hi3 Hx3) as (fr3 & Hf3 & Hp3 & Hne & _). destruct (kept_frame _ _ _ _ Hk3 C7) as (fr3' & Hf3' & Hkey).
  rewrite Hf3 in Hf3'. injection Hf3' as <-. pose proof (pi_frames _ _ _ Hi3 _ _ Hf3) as Hok3. rewrite Hx3 in Hok3.
  destruct (pi_flights _ _ _ Hi3 _ _ Hx3) as [_ [_ Hst]]. cbn in Hst.
  destruct (fo_flight _ _ _ _ Hok3 _ eq_refl) as (_ & _ & Hd3 & _).
  pose proof (inv_finish _ _ _ _ _ _ Hi3 Hx3) as Hi4. rewrite delete_insert_id in Hi4 by done.
  split; [exact Hi4|]. split; [etrans; [exact C3|]; etrans; [exact Hk3|]; by eapply kept_upd|].
  split; [intros q; erewrite view_upd; [|exact Hf3|done]; by rewrite Hv3|]. split; [intros Hc; split; [done|by apply Hc3, C5]|].
  split; [cbn; lia|]. exists (finished fr3). rewrite upd_frame_lookup, decide_True, Hf3 by done. split; [done|]. split; [done|].
  intros _. cbn [bp_data_file upd_frame set_frames]. rewrite Hst.
  assert (Hcont : fr_content fr3 = fr_content fr) by (rewrite C8 in Hkey; unfold frame_key in Hkey; injection Hkey; done). rewrite <-Hcont.
  change (fm_page_id (fr_meta fr)) with (fl_page x3). rewrite <-Hp3. symmetry.
  apply (fo_clean _ _ _ _ Hok3); [by rewrite Hp3|done|by intros x [= <-]].
Qed.

(** From the written page to the end. *)
Lemma sync_outcome ev fls s f fr s1 s2 my_gen r s' :
  let saved := fm_first_dirty_lsn (fr_meta fr) in
  claimed ev fls s f fr s1 -> pool_inv ev (<[f := mkFlight (fm_page_id (fr_meta fr)) saved (FWritten my_gen)]> fls) s2 ->
  kept s1 s2 -> (forall q, view s2 q = view s1 q) -> bp_flush_gen s2 = bp_flush_gen s1 + 1 -> (calm s1 -> calm s2) ->
  (exists fr2, bp_frames s2 !! f = Some fr2 /\ fm_first_dirty_lsn (fr_meta fr2) = Lsn_INVALID) ->
  ((match flush_covered my_gen s2 with
    | Some covered_gen => flush_sync f saved ;! flush_publish covered_gen
    | None => mret tt
    end) ;! flush_finish f) s2 = (r, s') -> flush_outcome ev fls s f fr r s'.
Proof.
  intros saved Hcl Hi2 Hk2 Hv2 Hg2 Hc2 (fr2 & Hf2 & Hfd2) H. set (p := fm_page_id (fr_meta fr)) in *.
  unfold flush_covered in H. destruct (Z.ltb_spec (bp_synced_gen s2) my_gen) as [Hlt|Hge].
  - pose proof (inv_covered _ _ _ _ _ _ _ Hi2 (lookup_insert_eq _ _ _)) as Hi3. rewrite insert_insert_eq in Hi3.
    unfold mbindM in H. destruct (flush_sync f saved s2) as [r3 s3] eqn:E3.
    eapply flush_sync_spec in E3; [|exact Hi3|apply lookup_insert_eq]. destruct r3 as [[]|e|]; [|..|done].
    + destruct E3 as (Hi4 & Hk4 & Hv4 & Hg4 & Hc4). rewrite insert_insert_eq in Hi4.
      destruct (pool_published ev _ s3 f p saved my_gen (bp_flush_gen s2) Hi4 (lookup_insert_eq _ _ _)) as [Hi5 Hv5]. rewrite insert_insert_eq in Hi5.
      assert (Hk5 : kept s3 (set_gens (bp_flush_gen s3) (Z.max (bp_synced_gen s3) (bp_flush_gen s2)) s3)) by (split; try done; unfold bp_wal; simpl; by destruct (bp_page_allocator s3)).
      assert (Hout := done_outcome ev fls s f fr s1 _ Hcl Hi5 ltac:(etrans; [exact Hk2|]; by etrans) ltac:(intros q; by rewrite Hv5, Hv4, Hv2) ltac:(cbn; lia) ltac:(auto)).
      unfold flush_publish, mmodify in H. by rewrite H in Hout.
    + destruct E3 as [(A1 & A2 & A3 & A4 & fra & fr' & A5 & A6 & A7 & A8) [Hnc Hge]]. injection H as <- <-.
      eapply fail_outcome; [exact Hcl| |by intros Hc; apply Hnc, Hc2]. rewrite delete_insert_eq in A1.
      split; [by rewrite delete_insert_eq|]. split; [by etrans|]. split; [intros q; by rewrite A3|]. 
      split; [lia|]. destruct (cl_frame _ _ _ _ _ _ Hcl) as (fr1 & C7 & C8 & C9). exists fr1, fr'. repeat (split; [done|]).
      rewrite A8, C9. rewrite Hf2 in A5. injection A5 as <-. by rewrite Hfd2.
  - pose proof (inv_skip _ _ _ _ _ _ _ Hi2 (lookup_insert_eq _ _ _) Hge) as Hi3. rewrite insert_insert_eq in Hi3.
    assert (Hout := done_outcome ev fls s f fr s1 _ Hcl Hi3 Hk2 Hv2 Hg2 Hc2). unfold mbindM, mret in H. by rewrite H in Hout.
Qed.

(** A flush from claim to finish, by a thread that works on the frame alone or
    holds its latch. *)
Lemma flush_frame_spec ev fls s f fr r s' :
  pool_inv ev fls s -> fls !! f = None -> bp_frames s !! f = Some fr -> fr_latch fr <> Writer ->
  (own ev f = None -> exists n, fr_latch fr = Readers (S n)) -> bp_flush_gen s + 1 < 2 ^ 64 ->
  flush_frame f s = (r, s') -> flush_outcome ev fls s f fr r s'.
Proof.
  intros Hi Hx Hf Hl Hown Hgen H. pose proof (pi_frames _ _ _ Hi f fr Hf) as Hok.
  unfold flush_frame, mbindM at 1, flush_claim, mbindM at 1, frame_at in H. rewrite Hf in H.
  rewrite (fo_flushing _ _ _ _ Hok), Hx in H. rewrite bool_decide_false in H by (by intros []).
  destruct (fm_dirty (fr_meta fr)) eqn:Ed; cbn [negb orb] in H.
  2: { unfold mret in H. injection H as <- <-. split; [done|]. split; [done|]. split; [done|]. split; [done|]. split; [lia|]. exists fr. by rewrite Ed. }
  destruct (Z.eqb_spec (fm_page_id (fr_meta fr)) PageId_INVALID) as [Ep|Ep]; [destruct (fo_empty _ _ _ _ Hok Ep); congruence|].
  unfold mbindM at 1, on_meta, mret at 1 in H. rewrite on_frame_eq in H.
  pose proof (inv_claim ev fls s f fr Hi Hf Hx Ed Ep Hl Hown) as Hi1. set (g0 := fun fr : Frame => mkFrame (set_first_dirty _ _) _ _) in *.
  assert (Hf1 : bp_frames (upd_frame f g0 s) !! f = Some (g0 fr)) by (by rewrite upd_frame_lookup, decide_True, Hf).
  assert (Hcl : claimed ev fls s f fr (upd_frame f g0 s)).
  { split; try done; [by eapply kept_upd|intros q; by erewrite view_upd|]. exists (g0 fr). done. }
  set (s1 := upd_frame f g0 s) in *. unfold mbindM at 1 in H. destruct (flush_write _ _ _ s1) as [r2 s2] eqn:E2.
  eapply flush_write_spec in E2; [|exact Hi1|apply lookup_insert_eq|done|exact Hf1|done].
  destruct r2 as [my_gen|e|]; [|injection H as <- <-; destruct E2; by eapply fail_outcome|done].
  destruct E2 as (Hi2 & Hk2 & Hv2 & Hg2 & Hc2 & _ & Hfd). rewrite insert_insert_eq in Hi2. by eapply sync_outcome.
Qed.

(** ** Eviction *)

Definition frame_id (fr : Frame) : PageId * Z * Latch * list Z :=
  (fm_page_id (fr_meta fr), fm_pin_count (fr_meta fr), fr_latch fr, fr_content fr).

(** Everything but frame [f], the page table, the clock and the reference bits. *)
Record kept_but (f : option nat) s s' : Prop := {
  kb_frames i : f <> Some i -> frame_id <$> bp_frames s' !! i = frame_id <$> bp_frames s !! i;
  kb_count : length (bp_frames s') = length (bp_frames s);
  kb_len : length (df_data (bp_data_file s')) = length (df_data (bp_data_file s));
  kb_ckpt : bp_checkpoint_lsn s' = bp_checkpoint_lsn s;
  kb_alloc : bp_page_allocator s' = set_wal (bp_wal s') (bp_page_allocator s);
  kb_synced : pl_synced_lsn (bp_wal s) <= pl_synced_lsn (bp_wal s');
  kb_gen : bp_flush_gen s <= bp_flush_gen s' <= bp_flush_gen s + 1;
}.

Lemma kept_length s s' : kept s s' -> length (bp_frames s') = length (bp_frames s).
Proof.
  intros Hk. pose proof (kp_frames _ _ Hk) as H. apply Nat.le_antisymm; apply Nat.le_ngt; intros Hlt.
  - specialize (H (length (bp_frames s))). rewrite (lookup_ge_None_2 (bp_frames s)) in H by done.
    destruct (lookup_lt_is_Some_2 _ _ Hlt) as [x Hx]. by rewrite Hx in H.
  - specialize (H (length (bp_frames s'))). rewrite (lookup_ge_None_2 (bp_frames s')) in H by done.
    destruct (lookup_lt_is_Some_2 _ _ Hlt) as [x Hx]. by rewrite Hx in H.
Qed.

Lemma kept_kept_but s s' f : kept s s' -> bp_flush_gen s <= bp_flush_gen s' <= bp_flush_gen s + 1 -> kept_but f s s'.
Proof.
  intros Hk Hg. pose proof (kept_length _ _ Hk). destruct Hk as [K1 K2 K3 K4 K5 K6 K7]. split; try done. intros i _. specialize (K2 i).
  destruct (bp_frames s' !! i) as [a|], (bp_frames s !! i) as [b|]; simpl in *; try done. f_equal.
  unfold frame_key, frame_id in *. congruence.
Qed.

(** Two stretches of an eviction, of which at most the second one flushes. *)
Lemma kept_but_trans f s s1 s2 : kept_but None s s1 -> bp_flush_gen s1 = bp_flush_gen s -> kept_but f s1 s2 -> kept_but f s s2.
Proof.
  intros [A1 A2 A3 A4 A5 A6 A7] Hg [B1 B2 B3 B4 B5 B6 B7]. split; [|congruence..|by rewrite B5, A5|lia|lia].
  intros i Hi. rewrite B1 by done. by apply A1.
Qed.

(** The unpinned frame [hand] becomes a victim. *)
Lemma inv_victim fls s hand fr :
  pool_inv None fls s -> bp_frames s !! hand = Some fr -> fm_pin_count (fr_meta fr) <= 0 ->
  fr_latch fr = Readers 0 /\ fls !! hand = None /\
  pool_inv (Some (hand, true)) fls (upd_frame hand (fun fr => mkFrame (set_evicting true (fr_meta fr)) (fr_latch fr) (fr_content fr)) s).
Proof.
  intros Hi Hf Hp. pose proof (pi_frames _ _ _ Hi _ _ Hf) as Hok. cbn [own] in Hok.
  assert (Hl : fr_latch fr = Readers 0).
  { destruct (fo_pins _ _ _ _ Hok) as [Hc _]. destruct (fr_latch fr) as [[|n]|]; simpl in Hc; [done|lia..]. }
  assert (Hx : fls !! hand = None).
  { destruct (fls !! hand) as [x|] eqn:E; [|done]. destruct (fo_flight _ _ _ _ Hok x eq_refl) as (_ & _ & _ & Hr). destruct Hr as [n Hr]; [done|congruence]. }
  split; [done|]. split; [done|]. eapply inv_upd; [exact Hi|done|done|done|intros i Hif; simpl; by rewrite decide_False|..].
  - rewrite Hx in *. cbn [own]. rewrite decide_True by done. destruct Hok as [O1 O2 O3 O4 O5 O6 O7 O8 O9 O10]. by split.
  - intros i x Hxi. by apply (pi_flights _ _ _ Hi) in Hxi as [].
Qed.

(** A clean victim gives up its page. *)
Lemma inv_evicted fls s hand fr :
  pool_inv (Some (hand, true)) fls s -> bp_frames s !! hand = Some fr -> fls !! hand = None ->
  fm_dirty (fr_meta fr) = false ->
  let p := fm_page_id (fr_meta fr) in
  let s1 := if negb (p =? PageId_INVALID) then table_remove p s else s in
  let s' := upd_frame hand (fun fr => mkFrame FrameMeta_default (fr_latch fr) (fr_content fr)) s1 in
  pool_inv None fls s' /\ (forall q, view s' q = view s q).
Proof.
  intros Hi Hf Hx Hd p s1 s'. pose proof (pi_frames _ _ _ Hi _ _ Hf) as Hok. cbn [own] in Hok. rewrite decide_True in Hok by done.
  assert (Htab : forall q, table_get q s' = if decide (q = p /\ p <> PageId_INVALID) then None else table_get q s).
  { intros q. unfold s'. rewrite table_get_upd. unfold s1. destruct (Z.eqb_spec p PageId_INVALID) as [E|E]; cbn [negb].
    - by rewrite decide_False by tauto.
    - rewrite table_get_remove by apply (pi_shards _ _ _ Hi). destruct (decide (q = p)); [by rewrite decide_True|by rewrite decide_False by tauto]. }
  assert (Hfs : bp_frames s1 = bp_frames s) by (unfold s1; by destruct (negb _)).
  assert (Hdf : bp_data_file s' = bp_data_file s) by (unfold s', s1; by destruct (negb _)).
  assert (Hfl : forall i, bp_frames s' !! i = if decide (i = hand) then Some (mkFrame FrameMeta_default (fr_latch fr) (fr_content fr)) else bp_frames s !! i).
  { intros i. unfold s'. rewrite upd_frame_lookup, Hfs. destruct (decide (i = hand)) as [->|Hih]; [by rewrite Hf|done]. }
  split.
  - destruct Hi as [I1 I2 I3 I4 I5 I6]. split.
    + unfold s'. simpl. unfold s1. destruct (negb _); [by apply alter_nonempty|done].
    + by rewrite Hdf.
    + intros i fri. rewrite Hfl, Hdf. destruct (decide (i = hand)) as [->|Hne]; intros Hfi.
      * injection Hfi as <-. rewrite Hx. destruct Hok as [O1 O2 O3 O4 O5 O6 O7 O8 O9 O10]. specialize (O3 eq_refl). rewrite O3 in *. split; simpl; done.
      * specialize (I3 _ _ Hfi). cbn [own] in *. by rewrite decide_False in I3.
    + intros q i. rewrite Htab, Hfl. destruct (decide (q = p /\ p <> PageId_INVALID)) as [Hq|Hq].
      * split; [done|]. intros (Hq0 & fri & Hfi & Hpi). destruct (decide (i = hand)) as [Hih|Hih]; [injection Hfi as <-; simpl in Hpi; by rewrite <-Hpi in Hq0|].
        exfalso. apply Hih. eapply (inv_unique _ _ _ _ _ fri fr); [by split|done|done|destruct Hq; unfold p in *; congruence|congruence].
      * rewrite I4. split; intros (Hq0 & fri & Hfi & Hpi); (split; [done|]).
        -- exists fri. destruct (decide (i = hand)) as [Hih|Hih]; [|done]. subst i. rewrite Hf in Hfi. injection Hfi as <-. exfalso. apply Hq. by subst.
        -- destruct (decide (i = hand)) as [Hih|Hih]; [injection Hfi as <-; simpl in Hpi; by rewrite <-Hpi in Hq0|]. by exists fri.
    + unfold s', s1. by destruct (negb _).
    + intros i x Hxi. destruct (I6 _ _ Hxi) as [Hs Hfo]. split; [rewrite Hfl; destruct (decide (i = hand)); [by eexists|done]|].
      unfold s', s1. by destruct (negb _).
  - intros q. unfold view. rewrite Htab, Hdf. destruct (decide (q = p /\ p <> PageId_INVALID)) as [Hq|Hq].
    + destruct Hq as [-> Hp]. assert (table_get p s = Some hand) as -> by (apply (pi_table _ _ _ Hi); eauto). rewrite Hf. symmetry.
      apply (fo_clean _ _ _ _ Hok); [done|done|]. rewrite Hx. done.
    + destruct (table_get q s) as [i|] eqn:E; [|done]. rewrite Hfl. destruct (decide (i = hand)); [subst i|done]. by rewrite Hf.
Qed.

(** An eviction frees an unpinned frame, or fails and leaves every page as it was. *)
Definition evict_post fls s (r : res StorageError nat) s' : Prop :=
  pool_inv None fls s' /\ (forall q, view s' q = view s q) /\
  match r with
  | Ok f => kept_but (Some f) s s' /\ (calm s -> calm s') /\ fls !! f = None /\
      exists fr fr', bp_frames s !! f = Some fr /\ fm_pin_count (fr_meta fr) <= 0 /\ bp_frames s' !! f = Some fr' /\
        fr_meta fr' = FrameMeta_default /\ fr_latch fr' = Readers 0
  | Err _ => kept_but None s s'
  | Panic => False
  end.

Lemma bind_tt {A} (b : bool) (g : BP -> BP) (k : M BP StorageError A) s :
  ((if b then mmodify g else mret tt) ;! k) s = k (if b then g s else s).
Proof. by destruct b. Qed.

Lemma evicted_post fls s s1 hand fr :
  pool_inv (Some (hand, true)) fls s1 -> fls !! hand = None -> kept s s1 -> bp_flush_gen s <= bp_flush_gen s1 <= bp_flush_gen s + 1 ->
  (forall q, view s1 q = view s q) -> (calm s -> calm s1) ->
  bp_frames s !! hand = Some fr -> fm_pin_count (fr_meta fr) <= 0 -> fr_latch fr = Readers 0 ->
  (forall fr1, bp_frames s1 !! hand = Some fr1 -> fm_dirty (fr_meta fr1) = false) ->
  let p := fm_page_id (fr_meta fr) in
  evict_post fls s (Ok hand) (upd_frame hand (fun fr => mkFrame FrameMeta_default (fr_latch fr) (fr_content fr))
    (if negb (p =? PageId_INVALID) then table_remove p s1 else s1)).
Proof.
  intros Hi Hx Hk Hg Hv Hc Hf Hp Hl Hd p. destruct (kept_frame _ _ _ _ Hk Hf) as (fr1 & Hf1 & Hkey).
  assert (Hp1 : fm_page_id (fr_meta fr1) = p) by (unfold frame_key in Hkey; injection Hkey; done).
  assert (Hl1 : fr_latch fr1 = Readers 0) by (unfold frame_key in Hkey; injection Hkey; congruence).
  destruct (inv_evicted fls s1 hand fr1 Hi Hf1 Hx (Hd _ Hf1)) as [Hi' Hv']. rewrite Hp1 in Hi', Hv'.
  set (s2 := if negb (p =? PageId_INVALID) then table_remove p s1 else s1) in *.
  assert (Hs2 : bp_frames s2 = bp_frames s1 /\ bp_data_file s2 = bp_data_file s1 /\ bp_page_allocator s2 = bp_page_allocator s1 /\
    bp_checkpoint_lsn s2 = bp_checkpoint_lsn s1 /\ bp_flush_gen s2 = bp_flush_gen s1) by (unfold s2; by destruct (negb _)).
  destruct Hs2 as (E1 & E2 & E3 & E4 & E5). split; [done|]. split; [intros q; by rewrite Hv'|]. split; [|split].
  - destruct (kept_kept_but s s1 None Hk Hg) as [B1 B2 B3 B4 B5 B6 B7]. split.
    + intros i Hi0. rewrite upd_frame_lookup, decide_False by congruence. rewrite E1. by apply B1.
    + cbn. by rewrite length_alter, E1.
    + cbn. by rewrite E2.
    + cbn. by rewrite E4.
    + unfold bp_wal in *. cbn. by rewrite E3.
    + unfold bp_wal in *. cbn. by rewrite E3.
    + cbn. by rewrite E5.
  - intros Hcs. apply Hc in Hcs as [Hio Hok]. unfold calm, bp_wal in *. cbn. by rewrite E2, E3.
  - split; [done|]. exists fr, (mkFrame FrameMeta_default (fr_latch fr1) (fr_content fr1)). rewrite upd_frame_lookup, decide_True, E1, Hf1 by done. done.
Qed.

Lemma evict_victim_spec fls s hand fr r s' :
  pool_inv None fls s -> bp_frames s !! hand = Some fr -> fm_pin_count (fr_meta fr) <= 0 -> bp_flush_gen s + 1 < 2 ^ 64 ->
  evict_victim hand (fr_meta fr) s = (r, s') -> evict_post fls s r s' /\ (calm s -> r = Ok hand).
Proof.
  intros Hi Hf Hp Hgen H. destruct (inv_victim fls s hand fr Hi Hf Hp) as (Hl & Hx & Hi1).
  unfold evict_victim, mbindM at 1, on_meta at 1 in H. rewrite on_frame_eq in H.
  set (g1 := fun fr : Frame => mkFrame (set_evicting true _) _ _) in *.
  assert (Hk1 : kept s (upd_frame hand g1 s)) by (by eapply kept_upd).
  assert (Hv1 : forall q, view (upd_frame hand g1 s) q = view s q) by (intros q; by erewrite view_upd).
  assert (Hf1 : bp_frames (upd_frame hand g1 s) !! hand = Some (g1 fr)) by (by rewrite upd_frame_lookup, decide_True, Hf).
  assert (Hc1 : calm s -> calm (upd_frame hand g1 s)) by done. assert (Hg1 : bp_flush_gen (upd_frame hand g1 s) = bp_flush_gen s) by done.
  set (s1 := upd_frame hand g1 s) in *. unfold mbindM at 1 in H.
  assert (Hdone : forall s2, pool_inv (Some (hand, true)) fls s2 -> kept s1 s2 -> bp_flush_gen s1 <= bp_flush_gen s2 <= bp_flush_gen s1 + 1 ->
    (forall q, view s2 q = view s1 q) -> (calm s1 -> calm s2) -> (forall fr2, bp_frames s2 !! hand = Some fr2 -> fm_dirty (fr_meta fr2) = false) ->
    ((if negb (fm_page_id (fr_meta fr) =? PageId_INVALID) then mmodify (table_remove (fm_page_id (fr_meta fr))) else mret tt) ;!
     on_meta hand (fun _ => FrameMeta_default) ;! mret hand) s2 = (r, s') -> evict_post fls s r s' /\ (calm s -> r = Ok hand)).
  { intros s2 Hi2 Hk2 Hg2 Hv2 Hc2 Hd2 H2. rewrite bind_tt in H2. unfold mbindM, on_meta, mret in H2. rewrite on_frame_eq in H2. injection H2 as <- <-.
    split; [|done]. eapply evicted_post; try done; [by etrans|intros q; by rewrite Hv2]. }
  destruct (fm_dirty (fr_meta fr) && negb (fm_page_id (fr_meta fr) =? PageId_INVALID)) eqn:Ed.
  - unfold mcatch in H. destruct (flush_frame hand s1) as [r2 s2] eqn:E2. apply andb_true_iff in Ed as [Ed Ep].
    eapply flush_frame_spec in E2; [|exact Hi1|done|exact Hf1|by cbn; rewrite Hl|cbn; by rewrite decide_True|lia].
    destruct E2 as (Hi2 & Hk2 & Hv2 & Hc2 & Hg2 & fr2 & Hf2 & Hr2). destruct r2 as [[]|e|]; [|..|done].
    + eapply Hdone; [exact Hi2|done|done|done|by intros Hc; apply Hc2|intros fr2' Hf2'; rewrite Hf2 in Hf2'; by injection Hf2' as <-; destruct Hr2|exact H].
    + unfold mbindM, on_meta, mthrow in H. rewrite on_frame_eq in H. injection H as <- <-. split; [|intros Hc; by apply Hc1, Hc2 in Hc as []].
      assert (Hkr : kept s2 (upd_frame hand (fun fr => mkFrame (set_evicting false (fr_meta fr)) (fr_latch fr) (fr_content fr)) s2)) by (by eapply kept_upd).
      split; [|split; [intros q; erewrite view_upd; [|exact Hf2|done]; by rewrite Hv2|]].
      * eapply inv_own_drop with (f := hand) (b := false); [|done|done].
        eapply inv_upd; [exact Hi2|exact Hf2|done|done|intros i Hi0; unfold own; repeat case_decide; congruence|..].
        -- pose proof (pi_frames _ _ _ Hi2 _ _ Hf2) as Hok. cbn [own] in *. rewrite decide_True in * by done.
           destruct Hok as [O1 O2 O3 O4 O5 O6 O7 O8 O9 O10]. split; try done. by rewrite Hx.
        -- intros i x Hxi. by apply (pi_flights _ _ _ Hi2) in Hxi as [].
      * apply kept_kept_but; [etrans; [exact Hk1|]; by etrans|cbn; lia].
  - eapply Hdone; [exact Hi1|done|lia|done|done| |exact H].
    intros fr2. rewrite Hf1. intros [= <-]. simpl. apply andb_false_iff in Ed as [|Ed]; [done|]. zbool.
    by apply (fo_empty _ _ _ _ (pi_frames _ _ _ Hi _ _ Hf)).
Qed.

(** One turn of the clock that frees nothing. *)
Lemma tick_spec fls s h hand fr b :
  pool_inv None fls s -> bp_frames s !! hand = Some fr ->
  let g := fun fr => mkFrame (set_reference false (fr_meta fr)) (fr_latch fr) (fr_content fr) in
  let s' := if b : bool then upd_frame hand g (set_hand h s) else set_hand h s in
  pool_inv None fls s' /\ (forall q, view s' q = view s q) /\ kept_but None s s' /\ bp_flush_gen s' = bp_flush_gen s /\
  (calm s -> calm s') /\ bp_clock_hand s' = h /\
  bp_frames s' = (if b then alter g hand (bp_frames s) else bp_frames s).
Proof.
  intros Hi Hf g s'. assert (Hi1 : pool_inv None fls (set_hand h s)) by (by destruct Hi as [I1 I2 I3 I4 I5 I6]).
  assert (Hkb : kept_but None s (set_hand h s)).
  { split; try done; [unfold bp_wal; cbn; by destruct (bp_page_allocator s)|cbn; lia]. }
  destruct b; [|done]. subst s'. split; [|split; [|split; [|done]]].
  - eapply inv_meta; [exact Hi1|exact Hf| |done]. intros P [O1 O2 O3 O4 O5 O6 O7 O8 O9 O10]. by split.
  - intros q. erewrite view_upd; [done|exact Hf|done].
  - eapply kept_but_trans; [exact Hkb|done|]. split; try done; [|cbn; by rewrite length_alter|unfold bp_wal; cbn; by destruct (bp_page_allocator s)|cbn; lia].
    intros i _. rewrite upd_frame_lookup. destruct (decide (i = hand)); [subst|done]. cbn [bp_frames set_hand]. by rewrite Hf.
Qed.

Lemma frame_count_pos s hand fr : bp_frames s !! hand = Some fr -> 0 < frame_count s.
Proof. intros Hf. apply lookup_lt_Some in Hf. unfold frame_count. lia. Qed.

Lemma hand_frame s : 0 < frame_count s -> is_Some (bp_frames s !! Z.to_nat (bp_clock_hand s mod frame_count s)).
Proof.
  intros Hc. apply lookup_lt_is_Some. pose proof (Z.mod_pos_bound (bp_clock_hand s) (frame_count s) Hc). unfold frame_count in *. lia.
Qed.

(** The loop body as a case analysis. *)
Lemma evict_loop_step n s fr :
  bp_frames s !! Z.to_nat (bp_clock_hand s mod frame_count s) = Some fr ->
  let hand := Z.to_nat (bp_clock_hand s mod frame_count s) in
  let s1 := set_hand (wrap64 (bp_clock_hand s + 1)) s in
  evict_loop (S n) s =
    if (fm_pin_count (fr_meta fr) >? 0) || fm_evicting (fr_meta fr) then evict_loop n s1
    else if fm_reference (fr_meta fr)
    then evict_loop n (upd_frame hand (fun fr => mkFrame (set_reference false (fr_meta fr)) (fr_latch fr) (fr_content fr)) s1)
    else evict_victim hand (fr_meta fr) s1.
Proof.
  intros Hf hand s1. cbn [evict_loop]. unfold mbindM, mget, mmodify, frame_at. cbn [bp_frames set_hand]. fold hand in Hf |- *. rewrite Hf.
  destruct (_ || _); [done|]. by destruct (fm_reference _).
Qed.

Lemma evict_post_trans fls s s1 r s' :
  kept_but None s s1 -> bp_flush_gen s1 = bp_flush_gen s -> (forall q, view s1 q = view s q) -> (calm s -> calm s1) ->
  evict_post fls s1 r s' -> evict_post fls s r s'.
Proof.
  intros Hk Hg Hv Hc (Hi & Hv' & Hr). split; [done|]. split; [intros q; by rewrite Hv'|].
  destruct r as [f|e|]; [|by eapply kept_but_trans|done]. destruct Hr as (B1 & B2 & B3 & fr1 & fr' & E1 & E2 & E3 & E4 & E5).
  split; [by eapply kept_but_trans|]. split; [by auto|]. split; [done|].
  assert (H := kb_frames _ _ _ Hk f ltac:(done)). rewrite E1 in H. cbn in H. symmetry in H. apply fmap_Some in H as (fr & Hf & Hid).
  exists fr, fr'. split; [done|]. split; [|done]. unfold frame_id in Hid. injection Hid. lia.
Qed.

Lemma evict_loop_spec fls n s r s' :
  pool_inv None fls s -> 0 < frame_count s -> bp_flush_gen s + 1 < 2 ^ 64 -> evict_loop n s = (r, s') -> evict_post fls s r s'.
Proof.
  revert s. induction n as [|n IH]; intros s Hi Hc Hgen H.
  { injection H as <- <-. split; [done|]. split; [done|]. split; try done; [unfold bp_wal; by destruct (bp_page_allocator s)|lia]. }
  destruct (hand_frame s Hc) as [fr Hf]. rewrite (evict_loop_step n s fr Hf) in H. set (hand := Z.to_nat _) in *.
  assert (Htick : forall b s1, s1 = (if b : bool then upd_frame hand (fun fr => mkFrame (set_reference false (fr_meta fr)) (fr_latch fr) (fr_content fr)) (set_hand (wrap64 (bp_clock_hand s + 1)) s) else set_hand (wrap64 (bp_clock_hand s + 1)) s) ->
    evict_loop n s1 = (r, s') -> evict_post fls s r s').
  { intros b s1 -> H1. destruct (tick_spec fls s (wrap64 (bp_clock_hand s + 1)) hand fr b Hi Hf) as (A1 & A2 & A3 & A4 & A5 & _ & A6).
    eapply evict_post_trans; [exact A3|done..|]. apply IH in H1; [done|done|unfold frame_count; by rewrite (kb_count _ _ _ A3)|by rewrite A4]. }
  destruct (_ || _) eqn:Ep; [by eapply (Htick false)|]. destruct (fm_reference _); [by eapply (Htick true)|]. clear Htick.
  apply orb_false_iff in Ep as [Ep _]. rewrite Z.gtb_ltb in Ep. zbool.
  destruct (tick_spec fls s (wrap64 (bp_clock_hand s + 1)) hand fr false Hi Hf) as (A1 & A2 & A3 & A4 & A5 & _).
  eapply evict_post_trans; [exact A3|done..|]. by eapply evict_victim_spec in H as [H _].
Qed.

(** The sweep finds an unpinned frame: it clears a reference bit on the first
    visit and takes the frame on the second one. *)
Lemma evict_finds fls n s j fr k :
  pool_inv None fls s -> calm s -> bp_flush_gen s + 1 < 2 ^ 64 -> bp_frames s !! j = Some fr -> fm_pin_count (fr_meta fr) <= 0 ->
  0 <= bp_clock_hand s -> bp_clock_hand s + Z.of_nat n < 2 ^ 64 ->
  0 <= k < frame_count s -> (bp_clock_hand s + k) mod frame_count s = Z.of_nat j ->
  (if fm_reference (fr_meta fr) then k + frame_count s < Z.of_nat n else k < Z.of_nat n) ->
  exists f s', evict_loop n s = (Ok f, s').
Proof.
  revert s fr k. induction n as [|n IH]; intros s fr k Hi Hcalm Hgen Hj Hp Hh Hhn Hk Hmod Hn; [destruct (fm_reference _); lia|].
  assert (Hc : 0 < frame_count s) by lia. destruct (hand_frame s Hc) as [fh Hf]. rewrite (evict_loop_step n s fh Hf).
  set (hand := Z.to_nat (bp_clock_hand s mod frame_count s)) in *. pose proof (Z.mod_pos_bound (bp_clock_hand s) (frame_count s) Hc) as Hmb.
  rewrite (wrap64_small (bp_clock_hand s + 1)) by lia.
  pose proof (fun b => tick_spec fls s (bp_clock_hand s + 1) hand fh b Hi Hf) as Htick.
  destruct (decide (hand = j)) as [Hhj|Hhj].
  - (* the hand is on the frame *)
    rewrite <-Hhj in Hj, Hmod. rewrite Hj in Hf. injection Hf as <-. assert (k = 0) as ->.
    { destruct (decide (k = 0)); [done|]. exfalso. unfold hand in Hmod. rewrite Z2Nat.id in Hmod by lia.
      rewrite Z.add_mod, (Z.mod_small k) in Hmod by lia. set (m := bp_clock_hand s mod frame_count s) in *.
      destruct (Z.lt_ge_cases (m + k) (frame_count s)); [rewrite Z.mod_small in Hmod; lia|].
      replace (m + k) with (m + k - frame_count s + 1 * frame_count s) in Hmod by lia. rewrite Z_mod_plus_full, Z.mod_small in Hmod; lia. }
    rewrite Z.gtb_ltb, (proj2 (Z.ltb_ge 0 (fm_pin_count (fr_meta fr)))) by lia.
    rewrite (fo_evicting _ _ _ _ (pi_frames _ _ _ Hi _ _ Hj)). cbn [own default orb].
    destruct (fm_reference (fr_meta fr)) eqn:Er.
    + destruct (Htick true) as (A1 & A2 & A3 & A4 & A5 & A6 & A7). set (s1 := upd_frame hand _ _) in *.
      assert (Hcnt : frame_count s1 = frame_count s) by (unfold frame_count; by rewrite (kb_count _ _ _ A3)).
      assert (Hs1 : bp_frames s1 !! hand = Some (mkFrame (set_reference false (fr_meta fr)) (fr_latch fr) (fr_content fr))) by (rewrite A7, list_lookup_alter_eq, Hj; done).
      eapply (IH s1 _ (frame_count s - 1)); [done|by apply A5|by rewrite A4|rewrite <-Hhj; exact Hs1|done|lia|lia|lia| |cbn; lia].
      rewrite Hcnt, A6. replace (bp_clock_hand s + 1 + (frame_count s - 1)) with (bp_clock_hand s + 0 + 1 * frame_count s) by lia.
      rewrite Z_mod_plus_full, Hmod. congruence.
    + destruct (Htick false) as (A1 & A2 & A3 & A4 & A5 & A6 & A7). destruct (evict_victim hand (fr_meta fr) _) as [r s'] eqn:E.
      eapply evict_victim_spec in E as [_ E]; [|exact A1|done|done|done]. rewrite (E (A5 Hcalm)). by eauto.
  - (* another frame *)
    assert (Hk0 : k <> 0) by (intros ->; apply Hhj; unfold hand; rewrite Z.add_0_r in Hmod; lia).
    assert (Hnext : forall b s1, s1 = (if b : bool then upd_frame hand (fun fr => mkFrame (set_reference false (fr_meta fr)) (fr_latch fr) (fr_content fr)) (set_hand (bp_clock_hand s + 1) s) else set_hand (bp_clock_hand s + 1) s) ->
      exists f s', evict_loop n s1 = (Ok f, s')).
    { intros b s1 ->. destruct (Htick b) as (A1 & A2 & A3 & A4 & A5 & A6 & A7). set (s1 := if b then _ else _) in *.
      assert (Hcnt : frame_count s1 = frame_count s) by (unfold frame_count; by rewrite (kb_count _ _ _ A3)).
      eapply (IH s1 fr (k - 1)); [done|by apply A5|by rewrite A4| |done|lia|lia|lia| |].
      - rewrite A7. destruct b; [by rewrite list_lookup_alter_ne|done].
      - rewrite Hcnt, A6, <-Hmod. f_equal. lia.
      - rewrite Hcnt. destruct (fm_reference (fr_meta fr)); lia. }
    destruct (_ || _) eqn:Ep; [by eapply (Hnext false)|]. destruct (fm_reference (fr_meta fh)) eqn:Er; [by eapply (Hnext true)|]. clear Hnext.
    apply orb_false_iff in Ep as [Ep _]. rewrite Z.gtb_ltb in Ep. zbool.
    destruct (Htick false) as (A1 & A2 & A3 & A4 & A5 & A6 & A7). destruct (evict_victim hand (fr_meta fh) _) as [r s'] eqn:E.
    eapply evict_victim_spec in E as [_ E]; [|exact A1|done|done|done]. rewrite (E (A5 Hcalm)). by eauto.
Qed.

Lemma evict_frame_spec fls s r s' :
  pool_inv None fls s -> bp_flush_gen s + 1 < 2 ^ 64 -> evict_frame s = (r, s') -> evict_post fls s r s'.
Proof.
  intros Hi Hgen H. unfold evict_frame, mbindM, mget in H. destruct (Z.eqb_spec (frame_count s) 0) as [E|E].
  - injection H as <- <-. split; [done|]. split; [done|]. split; try done; [unfold bp_wal; by destruct (bp_page_allocator s)|lia].
  - eapply evict_loop_spec; [done| |done|done]. unfold frame_count in *. lia.
Qed.

Lemma evict_frame_total fls s j fr :
  pool_inv None fls s -> calm s -> bp_flush_gen s + 1 < 2 ^ 64 -> bp_frames s !! j = Some fr -> fm_pin_count (fr_meta fr) <= 0 ->
  0 <= bp_clock_hand s -> bp_clock_hand s + 2 * frame_count s < 2 ^ 64 -> exists f s', evict_frame s = (Ok f, s').
Proof.
  intros Hi Hcalm Hgen Hj Hp Hh Hhn. pose proof (frame_count_pos _ _ _ Hj) as Hc. unfold evict_frame, mbindM, mget.
  rewrite (proj2 (Z.eqb_neq _ _)) by lia. set (c := frame_count s) in *.
  assert (Hjc : Z.of_nat j < c) by (apply lookup_lt_Some in Hj; unfold c, frame_count; lia).
  pose proof (Z.mod_pos_bound (bp_clock_hand s) c Hc) as Hm. pose proof (Z.div_mod (bp_clock_hand s) c ltac:(lia)) as Hdm.
  set (h := bp_clock_hand s mod c) in *.
  eapply (evict_finds fls _ s j fr (if decide (h <= Z.of_nat j) then Z.of_nat j - h else Z.of_nat j - h + c)); try done; fold c.
  - rewrite Z2Nat.id; lia.
  - case_decide; lia.
  - rewrite Hdm. case_decide.
    + replace (c * (bp_clock_hand s / c) + h + (Z.of_nat j - h)) with (Z.of_nat j + bp_clock_hand s / c * c) by lia.
      rewrite Z_mod_plus_full, Z.mod_small; lia.
    + replace (c * (bp_clock_hand s / c) + h + (Z.of_nat j - h + c)) with (Z.of_nat j + (bp_clock_hand s / c + 1) * c) by lia.
      rewrite Z_mod_plus_full, Z.mod_small; lia.
  - rewrite Z2Nat.id by lia. case_decide; destruct (fm_reference _); lia.
Qed.

(** ** Loading a page *)

(** No guard notices: pin counts and latches stay, pinned pages stay in place. *)
Record kept_pins s s' : Prop := {
  kn_frames i fr : bp_frames s !! i = Some fr -> exists fr', bp_frames s' !! i = Some fr' /\
    fm_pin_count (fr_meta fr') = fm_pin_count (fr_meta fr) /\ fr_latch fr' = fr_latch fr /\
    (fm_pin_count (fr_meta fr) > 0 -> frame_id fr' = frame_id fr);
  kn_count : length (bp_frames s') = length (bp_frames s);
  kn_len : length (df_data (bp_data_file s')) = length (df_data (bp_data_file s));
  kn_ckpt : bp_checkpoint_lsn s' = bp_checkpoint_lsn s;
  kn_alloc : bp_page_allocator s' = set_wal (bp_wal s') (bp_page_allocator s);
  kn_synced : pl_synced_lsn (bp_wal s) <= pl_synced_lsn (bp_wal s');
  kn_gen : bp_flush_gen s <= bp_flush_gen s' <= bp_flush_gen s + 1;
}.

Lemma kept_pins_refl s : kept_pins s s.
Proof. split; try done; [intros i fr Hf; by exists fr|unfold bp_wal; by destruct (bp_page_allocator s)|lia]. Qed.

Lemma kept_pins_trans s s1 s2 : kept_pins s s1 -> kept_pins s1 s2 -> bp_flush_gen s2 = bp_flush_gen s1 -> kept_pins s s2.
Proof.
  intros [A1 A2 A3 A4 A5 A6 A7] [B1 B2 B3 B4 B5 B6 B7] Hg. split; [|congruence..|by rewrite B5, A5|lia|lia].
  intros i fr Hf. destruct (A1 _ _ Hf) as (fr1 & Hf1 & P1 & L1 & I1). destruct (B1 _ _ Hf1) as (fr2 & Hf2 & P2 & L2 & I2).
  exists fr2. repeat split; [done|congruence|congruence|]. intros Hp. rewrite I2 by congruence. by apply I1.
Qed.

Lemma evict_kept_pins fls s f s' : pool_inv None fls s -> evict_post fls s (Ok f) s' -> kept_pins s s'.
Proof.
  intros Hi (_ & _ & [B1 B2 B3 B4 B5 B6 B7] & _ & _ & fr & fr' & E1 & E2 & E3 & E4 & E5). split; try done.
  intros i fri Hfi. destruct (decide (i = f)) as [->|Hif].
  - rewrite E1 in Hfi. injection Hfi as <-. destruct (fo_pins _ _ _ _ (pi_frames _ _ _ Hi _ _ E1)) as [Hc _].
    exists fr'. split; [done|]. rewrite E4, E5. destruct (fr_latch fr) as [[|n]|]; simpl in Hc; [|lia..]. repeat split; [done|lia].
  - specialize (B1 i ltac:(congruence)). rewrite Hfi in B1. cbn in B1. apply fmap_Some in B1 as (fr'' & Hf'' & Hid).
    exists fr''. unfold frame_id in Hid. injection Hid as H1 H2 H3 H4. repeat split; try done. intros _. unfold frame_id. congruence.
Qed.

Lemma kept_but_pins s s' : kept_but None s s' -> kept_pins s s'.
Proof.
  intros [B1 B2 B3 B4 B5 B6 B7]. split; try done. intros i fr Hf. specialize (B1 i ltac:(done)). rewrite Hf in B1. cbn in B1.
  apply fmap_Some in B1 as (fr'' & Hf'' & Hid). exists fr''. unfold frame_id in Hid. injection Hid as H1 H2 H3 H4.
  repeat split; try done. intros _. unfold frame_id. congruence.
Qed.

(** A new mapping for a free frame. *)
Lemma inv_install fls s f fr0 p fr' :
  pool_inv None fls s -> bp_frames s !! f = Some fr0 -> fm_page_id (fr_meta fr0) = PageId_INVALID -> fls !! f = None ->
  table_get p s = None -> p <> PageId_INVALID -> fm_page_id (fr_meta fr') = p ->
  frame_ok (df_data (bp_data_file s)) None None fr' ->
  let s' := table_insert p f (upd_frame f (fun _ => fr') s) in
  pool_inv None fls s' /\ (forall q, view s' q = if decide (q = p) then fr_content fr' else view s q).
Proof.
  intros Hi Hf Hp0 Hx Ht Hp Hp' Hok s'.
  assert (Htab : forall q, table_get q s' = if decide (q = p) then Some f else table_get q s).
  { intros q. unfold s'. rewrite table_get_insert by apply (pi_shards _ _ _ Hi). by rewrite table_get_upd. }
  assert (Hfl : forall i, bp_frames s' !! i = if decide (i = f) then Some fr' else bp_frames s !! i).
  { intros i. change (bp_frames s') with (bp_frames (upd_frame f (fun _ => fr') s)). rewrite upd_frame_lookup, Hf. done. }
  split.
  - destruct Hi as [I1 I2 I3 I4 I5 I6]. split; try done.
    + unfold s'. cbn. by apply alter_nonempty.
    + intros i fri. rewrite Hfl. destruct (decide (i = f)) as [->|Hif]; [intros [= <-]; by rewrite Hx|apply I3].
    + intros q i. rewrite Htab, Hfl. destruct (decide (q = p)) as [->|Hqp], (decide (i = f)) as [->|Hif].
      * split; [|done]. intros _. split; [done|]. by exists fr'.
      * split; [congruence|]. intros Hc. apply I4 in Hc. congruence.
      * rewrite I4. split; [|intros (? & fri & [= <-] & ?); congruence].
        intros (Hq & fri & Hfi & Hpi). rewrite Hf in Hfi. injection Hfi as <-. congruence.
      * apply I4.
    + intros i x Hxi. destruct (I6 _ _ Hxi). split; [rewrite Hfl; destruct (decide (i = f)); [by eexists|done]|done].
  - intros q. unfold view. rewrite Htab. destruct (decide (q = p)) as [->|Hq]; [by rewrite Hfl, decide_True|].
    destruct (table_get q s) as [i|] eqn:E; [|done]. rewrite Hfl. destruct (decide (i = f)) as [->|]; [|done].
    apply (pi_table _ _ _ Hi) in E as (Hq0 & fri & Hfi & Hpi). rewrite Hf in Hfi. injection Hfi as <-. congruence.
Qed.

Definition pinned (fr : Frame) : Frame :=
  mkFrame (set_reference true (set_pin (fm_pin_count (fr_meta fr) + 1) (fr_meta fr))) (fr_latch fr) (fr_content fr).

(** The frame of a page that was just brought in. *)
Definition fresh_frame (p : PageId) (content : list Z) (fr : Frame) : Frame :=
  mkFrame (mkFrameMeta p 1 false true (page_pd_lsn content) Lsn_INVALID true (fm_evicting (fr_meta fr)) (fm_flushing (fr_meta fr)))
    (fr_latch fr) content.

Definition install_state (p : PageId) (f : nat) (content : list Z) (s : BP) : BP :=
  table_insert p f (upd_frame f (fresh_frame p content) s).

Lemma upd_upd f g h s : upd_frame f g (upd_frame f h s) = upd_frame f (fun fr => g (h fr)) s.
Proof. unfold upd_frame, set_frames. cbn. f_equal. apply list_eq. intros i.
  rewrite !list_lookup_alter. repeat case_decide; try done. subst. by destruct (bp_frames s !! i). Qed.

Lemma upd_ext f g h s fr : bp_frames s !! f = Some fr -> g fr = h fr -> upd_frame f g s = upd_frame f h s.
Proof. intros Hf Hg. unfold upd_frame. f_equal. apply list_alter_ext; [|done]. intros x Hx. congruence. Qed.

Lemma try_pin_spec fls s p :
  pool_inv None fls s ->
  try_pin_resident p s = match table_get p s with Some f => (Ok (Some f), upd_frame f pinned s) | None => (Ok None, s) end.
Proof.
  intros Hi. unfold try_pin_resident, mbindM, mget. destruct (table_get p s) as [f|] eqn:E; [|done].
  apply (pi_table _ _ _ Hi) in E as (Hp & fr & Hf & Hpf). unfold frame_at. rewrite Hf, Hpf, Z.eqb_refl.
  by rewrite (fo_evicting _ _ _ _ (pi_frames _ _ _ Hi _ _ Hf)).
Qed.

(** A free frame found for page [p], which is not resident. *)
Record freed fls s (p : PageId) (f : nat) s0 : Prop := {
  fd_inv : pool_inv None fls s0;
  fd_view q : view s0 q = view s q;
  fd_pins : kept_pins s s0;
  fd_calm : calm s -> calm s0;
  fd_absent : table_get p s0 = None;
  fd_flight : fls !! f = None;
  fd_unpinned : exists fr, bp_frames s !! f = Some fr /\ fm_pin_count (fr_meta fr) <= 0;
  fd_frame : exists fr, bp_frames s0 !! f = Some fr /\ fr_meta fr = FrameMeta_default /\ fr_latch fr = Readers 0;
}.

Lemma evict_freed fls s p f s0 :
  pool_inv None fls s -> table_get p s = None -> evict_post fls s (Ok f) s0 -> freed fls s p f s0.
Proof.
  intros Hi Ht Hev. pose proof (evict_kept_pins _ _ _ _ Hi Hev) as Hkn.
  destruct Hev as (Hi0 & Hv & Hk & Hc & Hx & fr & fr' & E1 & E2 & E3 & E4 & E5). split; try done; [|by exists fr|by exists fr'].
  destruct (table_get p s0) as [i|] eqn:E; [|done]. exfalso. apply (pi_table _ _ _ Hi0) in E as (Hp & fri & Hfi & Hpi).
  destruct (decide (i = f)) as [->|Hif]; [rewrite E3 in Hfi; injection Hfi as <-; by rewrite E4 in Hpi; simpl in Hpi|].
  pose proof (kb_frames _ _ _ Hk i ltac:(congruence)) as Hid. rewrite Hfi in Hid. cbn in Hid. symmetry in Hid. apply fmap_Some in Hid as (fr2 & Hf2 & Hid).
  assert (table_get p s = Some i); [|congruence]. apply (pi_table _ _ _ Hi). split; [done|]. exists fr2. split; [done|].
  unfold frame_id in Hid. injection Hid. congruence.
Qed.

(** The content of a free frame is of no interest. *)
Lemma inv_scrub fls s f fr bytes io' :
  pool_inv None fls s -> bp_frames s !! f = Some fr -> fr_meta fr = FrameMeta_default -> page_wf bytes ->
  let d := bp_data_file s in
  let s' := set_file (mkDataFile (df_data d) (df_stable d) io') (upd_frame f (set_content bytes) s) in
  pool_inv None fls s' /\ (forall q, view s' q = view s q) /\
  bp_frames s' !! f = Some (set_content bytes fr).
Proof.
  intros Hi Hf Hm Hb d s'.
  assert (Hi1 : pool_inv None fls (upd_frame f (set_content bytes) s)).
  { eapply inv_meta; [done|done| |done]. intros P [O1 O2 O3 O4 O5 O6 O7 O8 O9 O10]. split; try done; cbn; by rewrite ?Hm. }
  split; [destruct Hi1 as [I1 [D1 D2 D3 D4] I3 I4 I5 I6]; by split|]. split.
  - intros q. unfold view. change (table_get q s') with (table_get q s). destruct (table_get q s) as [i|] eqn:E; [|done].
    change (bp_frames s') with (bp_frames (upd_frame f (set_content bytes) s)). rewrite upd_frame_lookup.
    destruct (decide (i = f)) as [->|]; [|done]. apply (pi_table _ _ _ Hi) in E as (Hq & fri & Hfi & Hpi).
    rewrite Hf in Hfi. injection Hfi as <-. rewrite Hm in Hpi. by rewrite <-Hpi in Hq.
  - change (bp_frames s') with (bp_frames (upd_frame f (set_content bytes) s)). by rewrite upd_frame_lookup, decide_True, Hf.
Qed.

Lemma zeros_wf : page_wf (zeros PAGE_SIZE).
Proof. split; [rewrite length_zeros; done|apply wf_zeros]. Qed.

Lemma scrub_pins s f fr bytes io' :
  bp_frames s !! f = Some fr -> fr_meta fr = FrameMeta_default ->
  kept_pins s (set_file (mkDataFile (df_data (bp_data_file s)) (df_stable (bp_data_file s)) io') (upd_frame f (set_content bytes) s)).
Proof.
  intros Hf Hm. split; try done; [|cbn; by rewrite length_alter|unfold bp_wal; cbn; by destruct (bp_page_allocator s)|cbn; lia].
  intros i fri Hfi. change (bp_frames (set_file _ ?t)) with (bp_frames t). rewrite upd_frame_lookup.
  destruct (decide (i = f)) as [->|]; [|by exists fri]. rewrite Hfi. exists (set_content bytes fri). split; [done|]. split; [done|]. split; [done|].
  rewrite Hf in Hfi. injection Hfi as <-. rewrite Hm. simpl. lia.
Qed.

Lemma freed_io fls s p f s0 :
  freed fls s p f s0 -> let d := bp_data_file s0 in
  freed fls s p f (set_file (mkDataFile (df_data d) (df_stable d) (tl (df_io d))) s0).
Proof.
  intros [F1 F2 F3 F4 F5 F6 F7 F8] d. split; try done.
  - destruct F1 as [I1 [D1 D2 D3 D4] I3 I4 I5 I6]. by split.
  - eapply kept_pins_trans; [exact F3| |done]. split; try done; [intros i fr Hf; by exists fr|unfold bp_wal; cbn; by destruct (bp_page_allocator s0)|cbn; lia].
  - intros Hc. destruct (F4 Hc) as [Hio Hw]. split; [cbn; unfold d; by rewrite Hio|done].
Qed.

Lemma read_exact_eq n off d :
  read_exact_at n off d =
    (match hd None (df_io d) with
     | Some _ => Err Io
     | None => if off + n <=? zlen (df_data d) then Ok (slice off n (df_data d)) else Err Io
     end, mkDataFile (df_data d) (df_stable d) (tl (df_io d))).
Proof. unfold read_exact_at, mbindM, data_call, mget. destruct (hd None (df_io d)); [done|]. cbn [df_data]. by destruct (_ <=? _). Qed.

(** What a failed load leaves. *)
Definition load_failed fls s s' : Prop := pool_inv None fls s' /\ (forall q, view s' q = view s q) /\ kept_pins s s'.

Lemma install_load_spec fls s p f s0 r s' :
  freed fls s p f s0 -> 1 <= p < 2 ^ 51 -> install_page p true f s0 = (r, s') ->
  match r with
  | Ok f' => f' = f /\ exists s1, freed fls s p f s1 /\ df_data (bp_data_file s1) = df_data (bp_data_file s0) /\
      page_valid (df_data (bp_data_file s1)) p /\ s' = install_state p f (disk_page (df_data (bp_data_file s1)) p) s1
  | Err _ => load_failed fls s s' /\ (calm s -> ~ page_valid (df_data (bp_data_file s0)) p)
  | Panic => False
  end.
Proof.
  intros Hfd Hp H. pose proof Hfd as [F1 F2 F3 F4 F5 F6 F7 (fr & Hf & Hm & Hl)]. set (d := bp_data_file s0) in *.
  assert (Hoff : wrap64 ((p - 1) * PAGE_SIZE) = (p - 1) * PAGE_SIZE) by (apply wrap64_small; unfold PAGE_SIZE; lia).
  assert (Hfail : load_failed fls s (set_file (mkDataFile (df_data d) (df_stable d) (tl (df_io d))) (upd_frame f (set_content (zeros PAGE_SIZE)) s0))).
  { destruct (inv_scrub fls s0 f fr (zeros PAGE_SIZE) (tl (df_io d)) F1 Hf Hm zeros_wf) as (A1 & A2 & _).
    split; [done|]. split; [intros q; by rewrite A2|]. eapply kept_pins_trans; [exact F3|by eapply scrub_pins|done]. }
  unfold install_page, mbindM at 1 in H. rewrite on_frame_eq in H. unfold mbindM at 1, read_page_from_disk, mbindM at 1 in H.
  rewrite Hoff in H. unfold on_data in H. change (bp_data_file (upd_frame f (set_content (zeros PAGE_SIZE)) s0)) with d in H.
  rewrite read_exact_eq in H. destruct (hd None (df_io d)) as [n|] eqn:Eio; cbn [fst snd] in H.
  { injection H as <- <-. split; [exact Hfail|]. intros Hc. apply F4 in Hc as [Hio _]. fold d in Hio. by rewrite Hio in Eio. }
  destruct (Z.leb_spec ((p - 1) * PAGE_SIZE + PAGE_SIZE) (zlen (df_data d))) as [Hv|Hv]; cbn [fst snd] in H.
  2: { injection H as <- <-. split; [exact Hfail|]. intros _ [_ Hv']. unfold PAGE_SIZE in *. lia. }
  assert (Hval : page_valid (df_data d) p) by (unfold page_valid, PAGE_SIZE in *; lia).
  pose proof (freed_io _ _ _ _ _ Hfd) as Hfd1. cbn [bp_data_file] in Hfd1. fold d in Hfd1. set (d1 := mkDataFile _ _ _) in *.
  rewrite on_frame_eq in H. set (bytes := slice _ _ _) in *. assert (Hbytes : bytes = disk_page (df_data d) p) by (unfold disk_page; by rewrite decide_True).
  assert (Hst : upd_frame f (set_content bytes) (set_file d1 (upd_frame f (set_content (zeros PAGE_SIZE)) s0)) = upd_frame f (set_content bytes) (set_file d1 s0)).
  { change (set_file d1 (upd_frame f (set_content (zeros PAGE_SIZE)) s0)) with (upd_frame f (set_content (zeros PAGE_SIZE)) (set_file d1 s0)). by rewrite upd_upd. }
  rewrite Hst in H. clear Hst. unfold mbindM at 1, frame_at in H. rewrite upd_frame_lookup, decide_True in H by done.
  cbn [bp_frames set_file] in H. rewrite Hf in H. cbn [fmap option_fmap option_map] in H.
  unfold mbindM, on_meta, mmodify, mret in H. rewrite on_frame_eq, upd_upd in H. injection H as <- <-. split; [done|].
  exists (set_file d1 s0). split; [exact Hfd1|]. split; [reflexivity|]. split; [exact Hval|].
  cbn [bp_data_file set_file d1 df_data]. rewrite <-Hbytes. reflexivity.
Qed.

(** The two ways a page is located: in its frame, or brought into a free one. *)
Inductive located fls s (p : PageId) (f : nat) : list Z -> Frame -> BP -> Prop :=
| located_hit fr :
    table_get p s = Some f -> bp_frames s !! f = Some fr -> fm_page_id (fr_meta fr) = p ->
    located fls s p f (fr_content fr) (pinned fr) (upd_frame f pinned s)
| located_miss s0 fr0 content :
    table_get p s = None -> freed fls s p f s0 -> bp_frames s0 !! f = Some fr0 ->
    page_valid (df_data (bp_data_file s0)) p -> page_wf content ->
    located fls s p f content (fresh_frame p content fr0) (install_state p f content s0).

Lemma located_at fls s p f content fr1 s1 : located fls s p f content fr1 s1 -> bp_frames s1 !! f = Some fr1.
Proof.
  intros [fr Ht Hf Hp|s0 fr0 c Ht Hfd Hf Hv Hc]; [by rewrite upd_frame_lookup, decide_True, Hf|].
  change (bp_frames (install_state p f c s0)) with (bp_frames (upd_frame f (fresh_frame p c) s0)). by rewrite upd_frame_lookup, decide_True, Hf.
Qed.

Lemma located_upd fls s p f content fr1 s1 h :
  pool_inv None fls s -> p <> PageId_INVALID -> located fls s p f content fr1 s1 ->
  fm_page_id (fr_meta (h fr1)) = p -> frame_ok (df_data (bp_data_file s1)) None (fls !! f) (h fr1) ->
  pool_inv None fls (upd_frame f h s1) /\
  (forall q, view (upd_frame f h s1) q = if decide (q = p) then fr_content (h fr1) else view s q).
Proof.
  intros Hi Hp0 [fr Ht Hf Hp|s0 fr0 c Ht Hfd Hf Hv Hc] Hph Hok.
  - rewrite upd_upd. split.
    + eapply inv_upd; [done|done|congruence|done|done|done|]. intros i x Hx. by apply (pi_flights _ _ _ Hi) in Hx as [].
    + intros q. unfold view. rewrite table_get_upd. destruct (decide (q = p)) as [->|Hq].
      * rewrite Ht, upd_frame_lookup, decide_True, Hf by done. done.
      * destruct (table_get q s) as [i|] eqn:E; [|done]. rewrite upd_frame_lookup. destruct (decide (i = f)) as [->|]; [|done].
        apply (pi_table _ _ _ Hi) in E as (_ & fri & Hfi & Hpi). congruence.
  - destruct Hfd as [F1 F2 F3 F4 F5 F6 F7 (fr & Hf' & Hm & Hl)]. rewrite Hf in Hf'. injection Hf' as <-.
    change (upd_frame f h (install_state p f c s0)) with (table_insert p f (upd_frame f h (upd_frame f (fresh_frame p c) s0))).
    rewrite upd_upd. erewrite (upd_ext f _ (fun _ => h (fresh_frame p c fr0))); [|exact Hf|done].
    destruct (inv_install fls s0 f fr0 p (h (fresh_frame p c fr0))) as [A1 A2]; try done; [by rewrite Hm|by rewrite F6 in Hok|].
    split; [done|]. intros q. rewrite A2. case_decide; [done|]. apply F2.
Qed.

Lemma locate_spec fls s p r s1 :
  pool_inv None fls s -> 1 <= p < 2 ^ 51 -> bp_flush_gen s + 1 < 2 ^ 64 -> locate_or_load p s = (r, s1) ->
  match r with
  | Ok f => exists fr1, located fls s p f (view s p) fr1 s1
  | Err _ => load_failed fls s s1
  | Panic => False
  end.
Proof.
  intros Hi Hp Hgen H. unfold locate_or_load, mbindM in H. rewrite (try_pin_spec fls) in H by done.
  destruct (table_get p s) as [f|] eqn:Ht.
  - injection H as <- <-. pose proof Ht as Ht'. apply (pi_table _ _ _ Hi) in Ht' as (_ & fr & Hf & Hpf). exists (pinned fr).
    unfold view. rewrite Ht, Hf. by apply located_hit.
  - unfold alloc_frame, mbindM in H. rewrite (try_pin_spec fls) in H by done. rewrite Ht in H. unfold mget in H. rewrite Ht in H.
    destruct (evict_frame s) as [re se] eqn:Ee. eapply evict_frame_spec in Ee; [|done|done]. destruct re as [f|e|]; [|injection H as <- <-|by destruct Ee as (_ & _ & [])].
    + apply evict_freed with (p := p) in Ee; [|done|done]. pose proof H as H'. eapply install_load_spec in H; [|done|lia]. destruct r as [f'|e|]; [|by destruct H|done].
      destruct H as (-> & s0 & Hfd & Hd & Hv & ->). pose proof Hfd as [F1 F2 F3 F4 F5 F6 F7 (fr & Hf & Hm & Hl)]. exists (fresh_frame p (view s p) fr).
      assert (Hc : disk_page (df_data (bp_data_file s0)) p = view s p) by (rewrite <-F2; unfold view; by rewrite F5). rewrite Hc.
      apply located_miss; try done. rewrite <-Hc. apply disk_page_wf, (pi_file _ _ _ F1).
    + destruct Ee as (A1 & A2 & A3). split; [done|]. split; [done|]. by apply kept_but_pins.
Qed.

(** ** Guards *)

(** A guard on frame [f] appears; no other guard notices. *)
Record pin_effect (f : nat) (p : PageId) (add : Latch -> Latch) s s' : Prop := {
  pe_other i fr : i <> f -> bp_frames s !! i = Some fr -> exists fr', bp_frames s' !! i = Some fr' /\
    fr_latch fr' = fr_latch fr /\ (fm_pin_count (fr_meta fr) > 0 -> frame_id fr' = frame_id fr);
  pe_frame : exists fr fr', bp_frames s !! f = Some fr /\ bp_frames s' !! f = Some fr' /\ fm_page_id (fr_meta fr') = p /\
    (fm_pin_count (fr_meta fr) > 0 -> fm_page_id (fr_meta fr) = p) /\ fr_latch fr' = add (fr_latch fr);
  pe_count : length (bp_frames s') = length (bp_frames s);
  pe_len : (length (df_data (bp_data_file s)) <= length (df_data (bp_data_file s')))%nat;
  pe_ckpt : bp_checkpoint_lsn s' = bp_checkpoint_lsn s;
  pe_gen : bp_flush_gen s' <= bp_flush_gen s + 1;
}.

Lemma located_effect fls s p f content fr1 s1 h add :
  located fls s p f content fr1 s1 -> (forall fr, fm_page_id (fr_meta (h fr)) = fm_page_id (fr_meta fr)) ->
  fr_latch (h fr1) = add (fr_latch fr1) ->
  pin_effect f p add s (upd_frame f h s1).
Proof.
  intros [fr Ht Hf Hp|s0 fr0 c Ht Hfd Hf Hv Hc] Hh Hadd.
  - rewrite upd_upd. split; [| |cbn; by rewrite length_alter|done|done|cbn; lia].
    + intros i fri Hif Hfi. rewrite upd_frame_lookup, decide_False by done. by exists fri.
    + exists fr, (h (pinned fr)). rewrite upd_frame_lookup, decide_True, Hf by done. repeat split; try done. by rewrite Hh.
  - destruct Hfd as [F1 F2 [K1 K2 K3 K4 K5 K6 K7] F4 F5 F6 (fu & Hu & Hpu) (fr & Hf' & Hm & Hl)]. rewrite Hf in Hf'. injection Hf' as <-.
    change (upd_frame f h (install_state p f c s0)) with (table_insert p f (upd_frame f h (upd_frame f (fresh_frame p c) s0))). rewrite upd_upd.
    set (s2 := upd_frame f _ s0). change (table_insert p f s2) with (set_table (alter (insert p f) (shard_index p s2) (bp_page_table s2)) s2).
    split; cbn [bp_frames set_table bp_data_file bp_checkpoint_lsn bp_flush_gen]; [| |cbn; by rewrite length_alter|cbn; rewrite K3; lia|exact K4|cbn; lia].
    + intros i fri Hif Hfi. unfold s2. rewrite upd_frame_lookup, decide_False by done. destruct (K1 _ _ Hfi) as (fr' & A1 & A2 & A3 & A4). by exists fr'.
    + destruct (K1 _ _ Hu) as (fr' & A1 & A2 & A3 & A4). rewrite Hf in A1. injection A1 as <-.
      exists fu, (h (fresh_frame p c fr0)). unfold s2. rewrite upd_frame_lookup, decide_True, Hf by done.
      split; [done|]. split; [done|]. split; [by rewrite Hh|]. split; [lia|].
      rewrite Hadd. cbn [fresh_frame fr_latch]. by rewrite A3.
Qed.

Definition add_reader (l : Latch) : Latch := match l with Readers n => Readers (S n) | Writer => Writer end.
Definition add_writer (l : Latch) : Latch := Writer.

(** No frame is pinned so often that its counter is about to wrap. *)
Definition room s : Prop := forall f fr, bp_frames s !! f = Some fr -> latch_count (fr_latch fr) + 1 < 2 ^ 32.

Lemma located_pins fls s p f content fr1 s1 :
  pool_inv None fls s -> room s -> located fls s p f content fr1 s1 ->
  fm_pin_count (fr_meta fr1) = latch_count (fr_latch fr1) + 1 /\ latch_count (fr_latch fr1) + 1 < 2 ^ 32 /\
  fm_page_id (fr_meta fr1) = p /\ fr_content fr1 = content /\ page_wf content /\ page_valid (df_data (bp_data_file s1)) p \/ p = PageId_INVALID.
Proof.
  intros Hi Hroom [fr Ht Hf Hp|s0 fr0 c Ht Hfd Hf Hv Hc].
  - destruct (decide (p = PageId_INVALID)) as [|Hp0]; [by right|left]. pose proof (pi_frames _ _ _ Hi _ _ Hf) as Hok.
    destruct (fo_pins _ _ _ _ Hok) as [Hpin Hlt]. specialize (Hroom _ _ Hf). cbn [pinned fr_meta set_reference set_pin fm_pin_count fr_latch fm_page_id fr_content].
    assert (0 <= latch_count (fr_latch fr)) by (destruct (fr_latch fr); simpl; lia).
    rewrite Hpin, Z.mod_small by lia. repeat split; try done; try lia; try apply (fo_content _ _ _ _ Hok); rewrite <-Hp; apply (fo_valid _ _ _ _ Hok); congruence.
  - left. destruct Hfd as [F1 F2 F3 F4 F5 F6 F7 (fr & Hf' & Hm & Hl)]. rewrite Hf in Hf'. injection Hf' as <-.
    cbn [fresh_frame fr_meta fm_pin_count fr_latch fm_page_id fr_content]. rewrite Hl. cbn [latch_count]. repeat split; try done; try lia; apply Hc || apply Hv.
Qed.

Definition read_latched (fr : Frame) : Frame := set_latch (add_reader (fr_latch fr)) fr.
Definition write_latched (fr : Frame) : Frame := mkFrame (set_dirty true (fr_meta fr)) Writer (fr_content fr).

(** The frame with one more reader. *)
Lemma frame_ok_reader fls s p f fr1 s1 n :
  pool_inv None fls s -> room s -> p <> PageId_INVALID -> located fls s p f (view s p) fr1 s1 -> fr_latch fr1 = Readers n ->
  frame_ok (df_data (bp_data_file s1)) None (fls !! f) (read_latched fr1).
Proof.
  intros Hi Hroom Hp0 Hloc Hn. destruct (located_pins _ _ _ _ _ _ _ Hi Hroom Hloc) as [(P1 & P2 & P3 & P4 & P5 & P6)|]; [|done].
  rewrite Hn in P1, P2. cbn [latch_count] in P1, P2. unfold read_latched. rewrite Hn.
  remember (view s p) as c eqn:Ec. destruct Hloc as [fr Ht Hf Hp|s0 fr0 c Ht Hfd Hf Hv Hc].
  - pose proof (pi_frames _ _ _ Hi _ _ Hf) as Hok. cbn [own] in Hok.
    destruct Hok as [O1 O2 O3 O4 O5 O6 O7 O8 O9 O10].
    split; cbn [pinned read_latched set_latch set_reference set_pin fr_meta fr_latch fr_content fm_page_id fm_dirty fm_flushing fm_evicting fm_pin_count add_reader latch_count] in *; try done.
    + rewrite P1. split; lia.
    + congruence.
    + intros x Hx. destruct (O8 x Hx) as (E1 & E2 & E3 & E4). repeat split; try done. intros _. by exists n.
  - destruct Hfd as [F1 F2 F3 F4 F5 F6 F7 (fr & Hf' & Hm & Hl)]. rewrite Hf in Hf'. injection Hf' as <-. rewrite F6.
    split; cbn [fresh_frame set_latch fr_meta fr_latch fr_content fm_page_id fm_dirty fm_flushing fm_evicting fm_pin_count latch_count] in *; rewrite ?Hm; try done.
    + cbn [add_reader latch_count]. split; lia.
    + intros _ _ _. change (df_data (bp_data_file (install_state p f c s0))) with (df_data (bp_data_file s0)).
      rewrite Ec, <-F2. unfold view. by rewrite F5.
Qed.

Lemma frame_ok_writer fls s p f content fr1 s1 :
  pool_inv None fls s -> room s -> p <> PageId_INVALID -> located fls s p f content fr1 s1 -> fr_latch fr1 = Readers 0 ->
  frame_ok (df_data (bp_data_file s1)) None (fls !! f) (write_latched fr1).
Proof.
  intros Hi Hroom Hp0 Hloc Hn. destruct (located_pins _ _ _ _ _ _ _ Hi Hroom Hloc) as [(P1 & P2 & P3 & P4 & P5 & P6)|]; [|done].
  rewrite Hn in P1, P2. cbn [latch_count] in P1, P2.
  assert (Hfl : fls !! f = None /\ fm_evicting (fr_meta fr1) = false /\ fm_flushing (fr_meta fr1) = false).
  { destruct Hloc as [fr Ht Hf Hp|s0 fr0 c Ht Hfd Hf Hv Hc].
    - pose proof (pi_frames _ _ _ Hi _ _ Hf) as Hok. cbn [own] in Hok.
      assert (Hx : fls !! f = None).
      { destruct (fls !! f) as [x|] eqn:E; [|done]. destruct (fo_flight _ _ _ _ Hok x eq_refl) as (_ & _ & _ & Hr). destruct Hr as [m Hr]; [done|].
        cbn in Hn. congruence. }
      split; [done|]. split; [apply (fo_evicting _ _ _ _ Hok)|]. cbn. rewrite (fo_flushing _ _ _ _ Hok), Hx. by rewrite bool_decide_false by (by intros []).
    - destruct Hfd as [F1 F2 F3 F4 F5 F6 F7 (fr & Hf' & Hm & Hl)]. rewrite Hf in Hf'. injection Hf' as <-. cbn. by rewrite Hm. }
  destruct Hfl as (Hx & He & Hfu). rewrite Hx.
  split; cbn [write_latched set_dirty fr_meta fr_latch fr_content fm_page_id fm_dirty fm_flushing fm_evicting fm_pin_count latch_count]; try done.
  - by rewrite P4.
  - split; lia.
  - congruence.
Qed.

Lemma latch_read_eq f s fr : bp_frames s !! f = Some fr ->
  latch_read f s = match fr_latch fr with Readers n => (Ok tt, upd_frame f read_latched s) | Writer => (Panic, s) end.
Proof.
  intros Hf. unfold latch_read, mbindM, frame_at. rewrite Hf. destruct (fr_latch fr) as [n|] eqn:E; [|done].
  rewrite on_frame_eq. f_equal. eapply upd_ext; [done|]. unfold read_latched. by rewrite E.
Qed.

Lemma latch_write_eq f s fr : bp_frames s !! f = Some fr ->
  latch_write f s = match fr_latch fr with Readers O => (Ok tt, upd_frame f (set_latch Writer) s) | _ => (Panic, s) end.
Proof. intros Hf. unfold latch_write, mbindM, frame_at. rewrite Hf. by destruct (fr_latch fr) as [[|n]|]. Qed.

Lemma pin_spec fls s p r s' :
  pool_inv None fls s -> 0 <= p < 2 ^ 51 -> bp_flush_gen s + 1 < 2 ^ 64 -> room s -> BufferPool_pin p s = (r, s') ->
  match r with
  | Ok g => pg_page_id g = p /\ p <> PageId_INVALID /\ pool_inv None fls s' /\ (forall q, view s' q = view s q) /\
            pin_effect (pg_frame_id g) p add_reader s s' /\
            (exists n, fr_latch <$> bp_frames s !! pg_frame_id g = Some (Readers n)) /\ 
            fr_content <$> bp_frames s' !! pg_frame_id g = Some (view s p)
  | Err _ => load_failed fls s s'
  | Panic => True
  end.
Proof.
  intros Hi Hp Hgen Hroom H. unfold BufferPool_pin in H. destruct (Z.eqb_spec p PageId_INVALID) as [E|E].
  { injection H as <- <-. split; [done|]. split; [done|]. apply kept_pins_refl. }
  unfold PageId_INVALID in E. unfold mbindM at 1 in H. destruct (locate_or_load p s) as [r1 s1] eqn:E1.
  eapply locate_spec in E1; [|done|lia|done]. destruct r1 as [f|e|]; [|injection H as <- <-; done|done].
  destruct E1 as [fr1 Hloc]. pose proof (located_at _ _ _ _ _ _ _ Hloc) as Hf1. unfold mbindM in H. rewrite (latch_read_eq _ _ _ Hf1) in H.
  destruct (fr_latch fr1) as [n|] eqn:El; [|injection H as <- <-; done]. unfold mret in H. injection H as <- <-. cbn [pg_page_id pg_frame_id].
  pose proof (frame_ok_reader _ _ _ _ _ _ _ Hi Hroom E Hloc El) as Hok.
  destruct (located_pins _ _ _ _ _ _ _ Hi Hroom Hloc) as [(P1 & P2 & P3 & P4 & P5 & P6)|]; [|done].
  destruct (located_upd fls s p f _ fr1 s1 read_latched Hi E Hloc P3 Hok) as [A1 A2].
  pose proof (located_effect fls s p f _ fr1 s1 read_latched add_reader Hloc ltac:(done) ltac:(done)) as Hpe.
  split; [done|]. split; [done|]. split; [done|]. split.
  { intros q. rewrite A2. case_decide; [subst|done]. done. }
  split; [done|]. split.
  - destruct (pe_frame _ _ _ _ _ Hpe) as (fr & fr' & B1 & B2 & _ & _ & B5). rewrite B1. cbn.
    rewrite upd_frame_lookup, decide_True, Hf1 in B2 by done. injection B2 as <-. unfold read_latched in B5. rewrite El in B5. cbn in B5.
    destruct (fr_latch fr) as [m|]; [by exists m|done].
  - rewrite upd_frame_lookup, decide_True, Hf1 by done. cbn. by rewrite P4.
Qed.

Lemma pin_mut_raw_spec fls s p r s' :
  pool_inv None fls s -> 0 <= p < 2 ^ 51 -> bp_flush_gen s + 1 < 2 ^ 64 -> room s -> pin_mut_without_fpi p s = (r, s') ->
  match r with
  | Ok g => pgm_page_id g = p /\ p <> PageId_INVALID /\ pool_inv None fls s' /\ (forall q, view s' q = view s q) /\
            pin_effect (pgm_frame_id g) p add_writer s s' /\ fr_latch <$> bp_frames s !! pgm_frame_id g = Some (Readers 0) /\
            fr_content <$> bp_frames s' !! pgm_frame_id g = Some (view s p)
  | Err _ => load_failed fls s s'
  | Panic => True
  end.
Proof.
  intros Hi Hp Hgen Hroom H. unfold pin_mut_without_fpi in H. destruct (Z.eqb_spec p PageId_INVALID) as [E|E].
  { injection H as <- <-. split; [done|]. split; [done|]. apply kept_pins_refl. }
  unfold PageId_INVALID in E. unfold mbindM at 1 in H. destruct (locate_or_load p s) as [r1 s1] eqn:E1.
  eapply locate_spec in E1; [|done|lia|done]. destruct r1 as [f|e|]; [|injection H as <- <-; done|done].
  destruct E1 as [fr1 Hloc]. pose proof (located_at _ _ _ _ _ _ _ Hloc) as Hf1. unfold mbindM in H. rewrite (latch_write_eq _ _ _ Hf1) in H.
  destruct (fr_latch fr1) as [[|n]|] eqn:El; [|injection H as <- <-; done..]. unfold on_meta, mret in H. rewrite on_frame_eq, upd_upd in H.
  injection H as <- <-. cbn [pgm_page_id pgm_frame_id]. change (fun fr => mkFrame _ _ _) with write_latched.
  pose proof (frame_ok_writer _ _ _ _ _ _ _ Hi Hroom E Hloc El) as Hok.
  destruct (located_pins _ _ _ _ _ _ _ Hi Hroom Hloc) as [(P1 & P2 & P3 & P4 & P5 & P6)|]; [|done].
  destruct (located_upd fls s p f _ fr1 s1 write_latched Hi E Hloc P3 Hok) as [A1 A2].
  pose proof (located_effect fls s p f _ fr1 s1 write_latched add_writer Hloc ltac:(done) ltac:(done)) as Hpe.
  split; [done|]. split; [done|]. split; [done|]. split.
  { intros q. rewrite A2. case_decide; [subst|done]. done. }
  split; [done|]. split.
  - pose proof (located_effect fls s p f _ fr1 s1 id (fun l => l) Hloc ltac:(done) ltac:(done)) as Hid.
    destruct (pe_frame _ _ _ _ _ Hid) as (fr & fr' & B1 & B2 & _ & _ & B5). rewrite B1. cbn.
    rewrite upd_frame_lookup, decide_True, Hf1 in B2 by done. injection B2 as <-. cbn in B5. by rewrite <-B5, El.
  - rewrite upd_frame_lookup, decide_True, Hf1 by done. cbn. by rewrite P4.
Qed.

(** Dropping a read guard. *)
Lemma drop_spec fls s f p fr n :
  pool_inv None fls s -> bp_frames s !! f = Some fr -> fr_latch fr = Readers (S n) -> (is_Some (fls !! f) -> n <> O) ->
  let s' := upd_frame f (fun fr => mkFrame (set_pin (fm_pin_count (fr_meta fr) - 1) (fr_meta fr)) (Readers n) (fr_content fr)) s in
  PageGuard_drop (mkPageGuard f p) s = (Ok tt, s') /\ pool_inv None fls s' /\ (forall q, view s' q = view s q).
Proof.
  intros Hi Hf Hl Hn s'. pose proof (pi_frames _ _ _ Hi _ _ Hf) as Hok. cbn [own] in Hok. split.
  - unfold PageGuard_drop, mbindM, unlatch, unpin, on_meta. cbn [pg_frame_id]. rewrite !on_frame_eq, upd_upd. f_equal.
    eapply upd_ext; [done|]. cbn. by rewrite Hl.
  - split; [|intros q; unfold s'; by erewrite view_upd].
    eapply inv_upd; [done|done|done|done|done| |intros i x Hx; by apply (pi_flights _ _ _ Hi) in Hx as []].
    destruct Hok as [O1 O2 O3 O4 O5 O6 O7 O8 O9 O10]. rewrite Hl in *. cbn [latch_count] in *.
    split; cbn [set_pin fr_meta fr_latch fr_content fm_page_id fm_dirty fm_flushing fm_evicting fm_pin_count latch_count]; try done.
    + destruct O5 as [Hp Hlt]. rewrite Hp, Z.mod_small by lia. split; lia.
    + intros Hp. by apply O6 in Hp as [].
    + intros x Hx. destruct (O8 x Hx) as (E1 & E2 & E3 & E4). repeat split; try done. intros _. destruct n as [|n]; [|by exists n].
      exfalso. by apply Hn; [eexists|].
Qed.

Definition dropped (fr : Frame) : Frame :=
  let m := fr_meta fr in
  mkFrame (set_pin (fm_pin_count m - 1)
    (set_dirty true (if fm_first_dirty_lsn m =? Lsn_INVALID then set_first_dirty (page_pd_lsn (fr_content fr)) m else m)))
    (Readers 0) (fr_content fr).

(** Dropping a write guard: the page stays, dirty, with an anchor. *)
Lemma drop_mut_spec fls s f p fr :
  pool_inv None fls s -> bp_frames s !! f = Some fr -> fr_latch fr = Writer ->
  let s' := upd_frame f dropped s in
  PageGuardMut_drop (mkPageGuardMut f p) s = (Ok tt, s') /\ pool_inv None fls s' /\ (forall q, view s' q = view s q).
Proof.
  intros Hi Hf Hl s'. pose proof (pi_frames _ _ _ Hi _ _ Hf) as Hok. cbn [own] in Hok.
  assert (Hp0 : fm_page_id (fr_meta fr) <> PageId_INVALID) by (intros E; apply (fo_empty _ _ _ _ Hok) in E as [E _]; congruence). split.
  - unfold PageGuardMut_drop, mbindM, frame_at, unlatch, unpin, on_meta. cbn [pgm_frame_id]. rewrite Hf, !on_frame_eq, !upd_upd. f_equal.
    eapply upd_ext; [done|]. cbn. rewrite Hl. rewrite (proj2 (Z.eqb_neq _ _)) by done. cbn. unfold dropped. by destruct (fm_first_dirty_lsn _ =? _).
  - assert (Hmeta : fm_page_id (fr_meta (dropped fr)) = fm_page_id (fr_meta fr) /\ fm_evicting (fr_meta (dropped fr)) = fm_evicting (fr_meta fr) /\
      fm_flushing (fr_meta (dropped fr)) = fm_flushing (fr_meta fr) /\ fm_pin_count (fr_meta (dropped fr)) = (fm_pin_count (fr_meta fr) - 1) mod 2 ^ 32).
    { unfold dropped. by destruct (fm_first_dirty_lsn _ =? _). }
    destruct Hmeta as (M1 & M2 & M3 & M4). split; [|intros q; unfold s'; by erewrite view_upd].
    eapply inv_upd; [done|done|done|done|done| |intros i x Hx; by apply (pi_flights _ _ _ Hi) in Hx as []].
    destruct Hok as [O1 O2 O3 O4 O5 O6 O7 O8 O9 O10]. rewrite Hl in *.
    assert (Hx : fls !! f = None) by (destruct (fls !! f) as [x|] eqn:E; [destruct (O8 x eq_refl) as (_ & _ & Hd & _); rewrite O9 in Hd by done; done|done]).
    rewrite Hx in *. split; rewrite ?M1, ?M2, ?M3, ?M4; try done.
    destruct O5 as [Hp Hlt]. rewrite Hp. cbn. split; [done|lia].
Qed.

(** Writing through a write guard. *)
Lemma page_mut_spec fls s f p fr bytes :
  pool_inv None fls s -> bp_frames s !! f = Some fr -> fr_latch fr = Writer -> fm_page_id (fr_meta fr) = p -> page_wf bytes ->
  let s' := upd_frame f (set_content bytes) s in
  page_mut (mkPageGuardMut f p) bytes s = (Ok tt, s') /\ pool_inv None fls s' /\
  (forall q, view s' q = if decide (q = p) then bytes else view s q).
Proof.
  intros Hi Hf Hl Hp Hb s'. pose proof (pi_frames _ _ _ Hi _ _ Hf) as Hok. cbn [own] in Hok. split; [done|].
  assert (Hp0 : fm_page_id (fr_meta fr) <> PageId_INVALID) by (intros E; apply (fo_empty _ _ _ _ Hok) in E as [E _]; congruence).
  assert (Hd : fm_dirty (fr_meta fr) = true) by (by apply (fo_writer _ _ _ _ Hok)). split.
  - eapply inv_meta; [done|done| |done]. intros P [O1 O2 O3 O4 O5 O6 O7 O8 O9 O10]. split; try done. cbn. congruence.
  - intros q. unfold view. unfold s'. rewrite table_get_upd. destruct (decide (q = p)) as [->|Hq].
    + assert (table_get p s = Some f) as -> by (apply (pi_table _ _ _ Hi); split; [congruence|eauto]). by rewrite upd_frame_lookup, decide_True, Hf.
    + destruct (table_get q s) as [i|] eqn:E; [|done]. rewrite upd_frame_lookup. destruct (decide (i = f)) as [->|]; [|done].
      apply (pi_table _ _ _ Hi) in E as (_ & fri & Hfi & Hpi). congruence.
Qed.

(** ** Full-page images *)

Definition fpi_due (fr : Frame) s : bool :=
  fm_needs_fpi (fr_meta fr) && Lsn_is_valid (bp_checkpoint_lsn s) && (page_pd_lsn (fr_content fr) <? bp_checkpoint_lsn s).

(** The frame after its image went to the log at [lsn]. *)
Definition imaged (lsn : Lsn) (fr : Frame) : Frame :=
  let m := set_cached_lsn lsn (fr_meta fr) in
  mkFrame (set_dirty true (if fm_first_dirty_lsn m =? Lsn_INVALID then set_first_dirty lsn m else m)) (fr_latch fr)
    (set_page_pd_lsn (fr_content fr) lsn).

Lemma imaged_meta lsn fr :
  fm_page_id (fr_meta (imaged lsn fr)) = fm_page_id (fr_meta fr) /\ fm_pin_count (fr_meta (imaged lsn fr)) = fm_pin_count (fr_meta fr) /\
  fm_evicting (fr_meta (imaged lsn fr)) = fm_evicting (fr_meta fr) /\ fm_flushing (fr_meta (imaged lsn fr)) = fm_flushing (fr_meta fr) /\
  fm_dirty (fr_meta (imaged lsn fr)) = true /\ fr_latch (imaged lsn fr) = fr_latch fr.
Proof. unfold imaged. by destruct (_ =? _). Qed.

Lemma ensure_fpi_eq f p s fr :
  bp_frames s !! f = Some fr ->
  ensure_fpi (mkPageGuardMut f p) s =
    if negb (fpi_due fr s) then (Ok tt, s)
    else match full_page_image p (fr_content fr) with
         | Ok rec => match pw_append rec (bp_wal s) with
                     | (Ok lsn, w) => (Ok tt, upd_frame f (imaged lsn) (set_allocator (set_wal w (bp_page_allocator s)) s))
                     | (Err e, w) => (Err e, set_allocator (set_wal w (bp_page_allocator s)) s)
                     | (Panic, w) => (Panic, set_allocator (set_wal w (bp_page_allocator s)) s)
                     end
         | Err e => (Err e, s)
         | Panic => (Panic, s)
         end.
Proof.
  intros Hf. unfold ensure_fpi, mbindM, frame_at, mget. cbn [pgm_frame_id pgm_page_id]. rewrite Hf. fold (fpi_due fr s).
  destruct (negb (fpi_due fr s)); [done|]. unfold of_pool_res. destruct (full_page_image p (fr_content fr)) as [rec|e|]; [|done..].
  unfold on_pool_wal. destruct (pw_append rec (bp_wal s)) as [[lsn|e|] w]; cbn [fst snd]; [|done..].
  unfold on_meta. rewrite !on_frame_eq, upd_upd. done.
Qed.

Lemma ensure_fpi_spec fls s f p fr r s' :
  pool_inv None fls s -> bp_frames s !! f = Some fr -> fr_latch fr = Writer -> fm_page_id (fr_meta fr) = p ->
  ensure_fpi (mkPageGuardMut f p) s = (r, s') ->
  pool_inv None fls s' /\ (forall q, q <> p -> view s' q = view s q) /\
  (forall i, frame_id <$> bp_frames s' !! i = frame_id <$> bp_frames s !! i \/ i = f) /\
  (exists fr', bp_frames s' !! f = Some fr' /\ fr_latch fr' = Writer /\ fm_page_id (fr_meta fr') = p /\ fm_pin_count (fr_meta fr') = fm_pin_count (fr_meta fr) /\
     view s' p = fr_content fr') /\
  length (bp_frames s') = length (bp_frames s) /\ bp_data_file s' = bp_data_file s /\ bp_checkpoint_lsn s' = bp_checkpoint_lsn s /\ bp_flush_gen s' = bp_flush_gen s.
Proof.
  intros Hi Hf Hl Hp H. rewrite (ensure_fpi_eq _ _ _ _ Hf) in H. pose proof (pi_frames _ _ _ Hi _ _ Hf) as Hok. cbn [own] in Hok.
  assert (Hp0 : fm_page_id (fr_meta fr) <> PageId_INVALID) by (intros E; apply (fo_empty _ _ _ _ Hok) in E as [E _]; congruence).
  assert (Ht : table_get p s = Some f) by (apply (pi_table _ _ _ Hi); split; [congruence|eauto]).
  assert (Hsame : forall a, pool_inv None fls (set_allocator a s) /\ (forall q, q <> p -> view (set_allocator a s) q = view s q) /\
    (forall i, frame_id <$> bp_frames (set_allocator a s) !! i = frame_id <$> bp_frames s !! i \/ i = f) /\
    (exists fr', bp_frames (set_allocator a s) !! f = Some fr' /\ fr_latch fr' = Writer /\ fm_page_id (fr_meta fr') = p /\ fm_pin_count (fr_meta fr') = fm_pin_count (fr_meta fr) /\
       view (set_allocator a s) p = fr_content fr')).
  { intros a. split; [by apply inv_alloc|]. split; [done|]. split; [by left|]. exists fr. repeat split; try done.
    unfold view. change (table_get p (set_allocator a s)) with (table_get p s). rewrite Ht. cbn. by rewrite Hf. }
  assert (Hs : set_allocator (bp_page_allocator s) s = s) by (by destruct s).
  destruct (negb (fpi_due fr s)); [injection H as <- <-; rewrite <-Hs; destruct (Hsame (bp_page_allocator s)) as (A1 & A2 & A3 & A4); done|].
  destruct (full_page_image p (fr_content fr)) as [rec|e|];
    [|injection H as <- <-; rewrite <-Hs; destruct (Hsame (bp_page_allocator s)) as (A1 & A2 & A3 & A4); done..].
  destruct (pw_append rec (bp_wal s)) as [[lsn|e|] w];
    [|injection H as <- <-; destruct (Hsame (set_wal w (bp_page_allocator s))) as (A1 & A2 & A3 & A4); done..].
  injection H as <- <-. clear Hs. destruct (Hsame (set_wal w (bp_page_allocator s))) as (A1 & A2 & _ & _). clear Hsame. set (s1 := set_allocator _ s) in *.
  destruct (imaged_meta lsn fr) as (M1 & M2 & M3 & M4 & M5 & M6). assert (Hf1 : bp_frames s1 !! f = Some fr) by done.
  assert (Hfs : bp_frames (upd_frame f (imaged lsn) s1) !! f = Some (imaged lsn fr)) by (by rewrite upd_frame_lookup, decide_True, Hf1).
  split; [|split; [|split; [|split; [|cbn; by rewrite length_alter]]]].
  - eapply inv_meta; [exact A1|exact Hf1| |done]. intros P [O1 O2 O3 O4 O5 O6 O7 O8 O9 O10]. rewrite Hl in *. specialize (O9 eq_refl).
    assert (Hx : fls !! f = None) by (destruct (fls !! f) as [x|] eqn:E; [destruct (O8 x eq_refl) as (_ & _ & Hd & _); congruence|done]).
    rewrite Hx in *. destruct O1 as [O1l O1w].
    split; rewrite ?M1, ?M2, ?M3, ?M4, ?M5, ?M6; try done; try congruence.
    unfold page_wf, imaged, set_page_pd_lsn. cbn [fr_content]. rewrite length_put_le. split; [done|]. by apply wf_put_le.
  - intros q Hq. unfold view. rewrite table_get_upd. change (table_get q s1) with (table_get q s). destruct (table_get q s) as [i|] eqn:E; [|reflexivity].
    rewrite upd_frame_lookup. destruct (decide (i = f)) as [->|]; [|done]. apply (pi_table _ _ _ Hi) in E as (_ & fri & Hfi & Hpi). congruence.
  - intros i. rewrite upd_frame_lookup. destruct (decide (i = f)); [by right|by left].
  - exists (imaged lsn fr). split; [done|]. split; [congruence|]. split; [congruence|]. split; [done|].
    unfold view. rewrite table_get_upd. change (table_get p s1) with (table_get p s). by rewrite Ht, Hfs.
Qed.

(** ** New pages *)

Lemma inv_grow fls s len :
  pool_inv None fls s -> len mod PAGE_SIZE = 0 -> len < 2 ^ 63 ->
  let s' := set_file (grow_file len (bp_data_file s)) s in
  pool_inv None fls s' /\ (forall q, view s' q = view s q) /\ len <= zlen (df_data (bp_data_file s')) /\
  (length (df_data (bp_data_file s)) <= length (df_data (bp_data_file s')))%nat /\ (calm s -> calm s').
Proof.
  intros Hi Hm Hlt s'. unfold s', grow_file. destruct (Z.gtb_spec len (zlen (df_data (bp_data_file s)))) as [Hg|Hg].
  2: { replace (set_file (bp_data_file s) s) with s by (by destruct s). done. }
  set (d := bp_data_file s) in *. pose proof (pi_file _ _ _ Hi) as [D1 D2 D3 D4]. fold d in D1, D2, D3, D4.
  assert (Hlen : zlen (df_data d ++ zeros (len - zlen (df_data d))) = len) by (rewrite length_app, length_zeros; lia).
  assert (Hpg : forall q, disk_page (df_data d ++ zeros (len - zlen (df_data d))) q = disk_page (df_data d) q) by (intros q; by apply disk_page_grow).
  split; [|split; [|split; [cbn; lia|split; [cbn; lia|done]]]].
  - destruct Hi as [I1 I2 I3 I4 I5 I6]. split; try done.
    + split; cbn; [apply Forall_app; split; [done|apply wf_zeros]|lia|congruence|done].
    + intros i fr Hf. specialize (I3 _ _ Hf). cbn [bp_data_file set_file df_data]. destruct I3 as [O1 O2 O3 O4 O5 O6 O7 O8 O9 O10].
      split; try done; [|by rewrite Hpg]. intros Hn. destruct (O7 Hn). unfold page_valid. fold d in H0. lia.
    + intros i x Hx. destruct (I6 _ _ Hx) as [Hs [H1 H2]]. split; [done|]. split.
      * intros g Hg'. by destruct (H1 _ Hg').
      * cbn. destruct (fl_phase x); try done. by destruct H2.
  - intros q. unfold view. change (table_get q (set_file _ s)) with (table_get q s). destruct (table_get q s); [done|]. apply Hpg.
Qed.

Lemma alloc_new_spec fls s p r s1 :
  pool_inv None fls s -> 1 <= p -> page_valid (df_data (bp_data_file s)) p -> bp_flush_gen s + 1 < 2 ^ 64 -> alloc_frame p false s = (r, s1) ->
  match r with
  | Ok f => exists fr1, located fls s p f (match table_get p s with Some _ => view s p | None => zeros PAGE_SIZE end) fr1 s1
  | Err _ => load_failed fls s s1
  | Panic => False
  end.
Proof.
  intros Hi Hp Hv Hgen H. unfold alloc_frame, mbindM in H. rewrite (try_pin_spec fls) in H by done. destruct (table_get p s) as [f|] eqn:Ht.
  - injection H as <- <-. pose proof Ht as Ht'. apply (pi_table _ _ _ Hi) in Ht' as (_ & fr & Hf & Hpf). exists (pinned fr).
    unfold view. rewrite Ht, Hf. by apply located_hit.
  - unfold mget in H. rewrite Ht in H. destruct (evict_frame s) as [re se] eqn:Ee. eapply evict_frame_spec in Ee; [|done|done].
    destruct re as [f|e|]; [|injection H as <- <-|by destruct Ee as (_ & _ & [])].
    + apply evict_freed with (p := p) in Ee; [|done|done]. pose proof Ee as [F1 F2 F3 F4 F5 F6 F7 (fr & Hf & Hm & Hl)].
      unfold install_page, mbindM, mret in H. rewrite on_frame_eq in H. unfold frame_at in H. rewrite upd_frame_lookup, decide_True, Hf in H by done.
      cbn [fmap option_fmap option_map] in H. unfold on_meta, mmodify in H. rewrite on_frame_eq, upd_upd in H. injection H as <- <-.
      exists (fresh_frame p (zeros PAGE_SIZE) fr). apply (located_miss fls s p f se fr); try done; [|apply zeros_wf].
      unfold page_valid in *. by rewrite (kn_len _ _ F3).
    + destruct Ee as (A1 & A2 & A3). split; [done|]. split; [done|]. by apply kept_but_pins.
Qed.

Context {BL : BincodeLaws} {PWL : PageWalLaws W}.

(** The allocator keeps whole pages in a file below 8 EiB. *)
Record alloc_ok (owned : gset Z) (a : PageAllocator W) : Prop := {
  ao_inv : alloc_inv a owned;
  ao_next : next_page_id a + 256 < 2 ^ 50;
  ao_len : current_file_len a mod PAGE_SIZE = 0;
  ao_max : 0 <= current_file_len a < 2 ^ 63;
}.

Lemma capacity_len p (a : PageAllocator W) r a' :
  0 <= p -> p + 256 <= 2 ^ 50 -> current_file_len a mod PAGE_SIZE = 0 -> 0 <= current_file_len a < 2 ^ 63 ->
  ensure_data_file_capacity p a = (r, a') ->
  current_file_len a' mod PAGE_SIZE = 0 /\ current_file_len a <= current_file_len a' < 2 ^ 63.
Proof.
  intros Hp0 Hp Hm Hl. unfold ensure_data_file_capacity, PAGE_SIZE, DATA_FILE_GROWTH_BYTES.
  rewrite (wrap64_small (p * 8192)) by lia.
  set (k := (p * 8192 + 1024 * 1024 - 1) / (1024 * 1024)).
  assert (Hk : p * 8192 <= k * (1024 * 1024) < p * 8192 + 1024 * 1024).
  { pose proof (Z.div_mod (p * 8192 + 1024 * 1024 - 1) (1024 * 1024) ltac:(lia)). pose proof (Z.mod_pos_bound (p * 8192 + 1024 * 1024 - 1) (1024 * 1024) ltac:(lia)). lia. }
  rewrite wrap64_small by lia. destruct (Z.gtb_spec (p * 8192) (current_file_len a)); [|intros [= <- <-]; split; [done|lia]].
  assert (Htgt : k * (1024 * 1024) mod 8192 = 0) by (replace (k * (1024 * 1024)) with (k * 128 * 8192) by lia; apply Z_mod_mult).
  unfold mbindM, PageAllocator.data_call, mmodify.
  destruct (data_io a) as [|[] io]; cbn [hd tl data_io]; [|destruct io as [|[] io]; cbn [hd tl data_io]|]; intros [= <- <-]; cbn; (split; [done|lia]).
Qed.

Lemma alloc_page_len owned (a : PageAllocator W) r a' :
  alloc_ok owned a -> alloc_page a = (r, a') ->
  current_file_len a' mod PAGE_SIZE = 0 /\ current_file_len a <= current_file_len a' < 2 ^ 63.
Proof.
  intros [A1 A2 A3 A4] H. pose proof (picked_spec _ _ A1) as (Hpk & _). unfold alloc_page in H. case_match; [injection H as <- <-; split; [done|lia]|].
  fold (picked a) in H. unfold mbindM at 1, mmodify at 1 in H. set (a1 := set_freelist _ a) in *. unfold mbindM at 1 in H.
  destruct (ensure_data_file_capacity (picked a) a1) as [r2 a2] eqn:E2. apply capacity_len in E2; [|lia|lia|done|done].
  assert (Hlen : current_file_len a' = current_file_len a2); [|by rewrite Hlen].
  destruct r2 as [[]|e|]; [|by injection H as <- <-..]. unfold mbindM, mlift, append_wal, mmodify, mret in H.
  destruct (page_alloc (picked a)) as [rec|e|]; [|by injection H as <- <-..].
  destruct (pw_append rec (wal_writer a2)) as [[l|e|] w]; cbn [fst snd] in H; injection H as <- <-; [|done..]. repeat case_match; done.
Qed.

Definition new_frame (fr : Frame) : Frame := mkFrame (set_dirty true (set_needs_fpi false (fr_meta fr))) Writer (fr_content fr).

(** A new page is owned by nobody else, and its guard sees zeros, except that a
    page that is still resident (it was freed and is handed out again) keeps the
    content it had.  On failure no page changes. *)
Lemma new_page_spec owned fls s r s' :
  pool_inv None fls s -> alloc_ok owned (bp_page_allocator s) -> bp_flush_gen s + 1 < 2 ^ 64 -> room s -> new_page s = (r, s') ->
  match r with
  | Ok g => let p := pgm_page_id g in (p ∉ owned) /\ p <> PageId_INVALID /\ pool_inv None fls s' /\
            pin_effect (pgm_frame_id g) p add_writer s s' /\ fr_latch <$> bp_frames s !! pgm_frame_id g = Some (Readers 0) /\
            forall q, view s' q = if decide (q = p) then match table_get p s with Some _ => view s p | None => zeros PAGE_SIZE end else view s q
  | Err _ => pool_inv None fls s' /\ (forall q, view s' q = view s q) /\
             (forall i fr, bp_frames s !! i = Some fr -> exists fr', bp_frames s' !! i = Some fr' /\ fr_latch fr' = fr_latch fr /\
                (fm_pin_count (fr_meta fr) > 0 -> frame_id fr' = frame_id fr)) /\ length (bp_frames s') = length (bp_frames s)
  | Panic => True
  end.
Proof.
  intros Hi Hao Hgen Hroom H. unfold new_page, mbindM at 1 in H. destruct (alloc_page (bp_page_allocator s)) as [ra a] eqn:Ea. cbn [fst snd] in H.
  destruct (alloc_page_len _ _ _ _ Hao Ea) as [L1 L2]. pose proof Hao as [AI AN _ _].
  destruct (inv_grow fls (set_allocator a s) (current_file_len a) (inv_alloc _ _ _ _ Hi) L1 ltac:(lia)) as (Hi1 & Hv1 & Hcap & Hlen & Hc1).
  cbn [bp_data_file set_allocator] in *. set (s1 := set_file _ _) in *.
  assert (Hsp := alloc_page_spec _ _ _ _ AI ltac:(lia) Ea). pose proof (picked_spec _ _ AI) as (Hpk & Hown & _).
  destruct ra as [p|e|]; [|injection H as <- <-|done].
  2: { split; [done|]. split; [done|]. split; [intros i fr Hf; by exists fr|done]. }
  destruct Hsp as (-> & _ & _ & Hpl & _). set (p := picked (bp_page_allocator s)) in *.
  unfold mbindM at 1 in H. destruct (alloc_frame p false s1) as [r2 s2] eqn:E2.
  eapply alloc_new_spec in E2; [|done|lia|split; [lia|cbn in *; lia]|done]. destruct r2 as [f|e|]; [|injection H as <- <-|done].
  2: { destruct E2 as (B1 & B2 & [K1 K2 K3 K4 K5 K6 K7]). split; [done|]. split; [intros q; by rewrite B2|]. split; [|exact K2].
       intros i fr Hf. destruct (K1 i fr Hf) as (fr' & ?&?&?&?). by exists fr'. }
  destruct E2 as [fr1 Hloc]. change (table_get p s1) with (table_get p s) in Hloc. rewrite Hv1 in Hloc. change (view (set_allocator a s) p) with (view s p) in Hloc.
  pose proof (located_at _ _ _ _ _ _ _ Hloc) as Hf1. unfold mbindM, on_meta in H. rewrite on_frame_eq in H.
  erewrite latch_write_eq in H by (rewrite upd_frame_lookup, decide_True, Hf1; done). cbn [fr_latch] in H.
  destruct (fr_latch fr1) as [[|n]|] eqn:El; [|injection H as <- <-; done..]. rewrite upd_upd in H. unfold mret in H. injection H as <- <-.
  cbn [pgm_page_id pgm_frame_id]. change (fun fr => set_latch Writer _) with new_frame.
  assert (Hroom1 : room s1) by done. assert (Hp0 : p <> PageId_INVALID) by (unfold PageId_INVALID; lia).
  pose proof (frame_ok_writer _ _ _ _ _ _ _ Hi1 Hroom1 Hp0 Hloc El) as Hok.
  destruct (located_pins _ _ _ _ _ _ _ Hi1 Hroom1 Hloc) as [(P1 & P2 & P3 & P4 & P5 & P6)|]; [|done].
  destruct (located_upd fls s1 p f _ fr1 s2 new_frame Hi1 Hp0 Hloc P3) as [A1 A2]; [by destruct Hok|].
  pose proof (located_effect fls s1 p f _ fr1 s2 new_frame add_writer Hloc ltac:(done) ltac:(done)) as [E1 E3 E4 E5 E6 E7].
  pose proof (located_effect fls s1 p f _ fr1 s2 id (fun l => l) Hloc ltac:(done) ltac:(done)) as Hid.
  split; [done|]. split; [done|]. split; [done|]. split; [split; try done; cbn in *; lia|]. split.
  - destruct (pe_frame _ _ _ _ _ Hid) as (fr & fr' & B1 & B2 & _ & _ & B5). change (bp_frames s) with (bp_frames s1). rewrite B1. cbn.
    rewrite upd_frame_lookup, decide_True, Hf1 in B2 by done. injection B2 as <-. cbn in B5. by rewrite <-B5, El.
  - intros q. rewrite A2. case_decide; [cbn; by rewrite P4|]. apply Hv1.
Qed.

(** ** The interleaved system *)

(** A guard that some thread holds. *)
Record Hold := mkHold { h_frame : nat; h_page : PageId; h_write : bool }.

(** The pool, the guards held, and the flushes in flight, by frame.  A flush in
    flight keeps the read guard of the thread that runs it. *)
Record PoolSys := mkPoolSys { ps_pool : BP; ps_holds : list Hold; ps_flights : gmap nat Flight }.

(** Counters far from their end. *)
Definition counters_ok (st : PoolSys) : Prop :=
  bp_flush_gen (ps_pool st) + 1 < 2 ^ 64 /\ zlen (ps_holds st) + Z.of_nat (size (ps_flights st)) + 1 < 2 ^ 32.

(** The steps of the threads. *)
Inductive pool_act : PoolSys -> PoolSys -> Prop :=
| pa_pin s s' hs fls p g : 0 <= p < 2 ^ 51 -> BufferPool_pin p s = (Ok g, s') ->
    pool_act (mkPoolSys s hs fls) (mkPoolSys s' (mkHold (pg_frame_id g) p false :: hs) fls)
| pa_pin_err s s' hs fls p e : 0 <= p < 2 ^ 51 -> BufferPool_pin p s = (Err e, s') -> pool_act (mkPoolSys s hs fls) (mkPoolSys s' hs fls)
| pa_pin_mut s s' hs fls p g : 0 <= p < 2 ^ 51 -> pin_mut_without_fpi p s = (Ok g, s') ->
    pool_act (mkPoolSys s hs fls) (mkPoolSys s' (mkHold (pgm_frame_id g) p true :: hs) fls)
| pa_pin_mut_err s s' hs fls p e : 0 <= p < 2 ^ 51 -> pin_mut_without_fpi p s = (Err e, s') -> pool_act (mkPoolSys s hs fls) (mkPoolSys s' hs fls)
| pa_fpi s s' hs fls f p r : mkHold f p true ∈ hs -> ensure_fpi (mkPageGuardMut f p) s = (r, s') -> pool_act (mkPoolSys s hs fls) (mkPoolSys s' hs fls)
| pa_write s s' hs fls f p bytes : mkHold f p true ∈ hs -> page_wf bytes -> page_mut (mkPageGuardMut f p) bytes s = (Ok tt, s') ->
    pool_act (mkPoolSys s hs fls) (mkPoolSys s' hs fls)
| pa_drop s s' hs1 hs2 fls f p : PageGuard_drop (mkPageGuard f p) s = (Ok tt, s') ->
    pool_act (mkPoolSys s (hs1 ++ mkHold f p false :: hs2) fls) (mkPoolSys s' (hs1 ++ hs2) fls)
| pa_drop_mut s s' hs1 hs2 fls f p : PageGuardMut_drop (mkPageGuardMut f p) s = (Ok tt, s') ->
    pool_act (mkPoolSys s (hs1 ++ mkHold f p true :: hs2) fls) (mkPoolSys s' (hs1 ++ hs2) fls)
| pa_new s s' hs fls owned g : alloc_ok owned (bp_page_allocator s) -> new_page s = (Ok g, s') ->
    pool_act (mkPoolSys s hs fls) (mkPoolSys s' (mkHold (pgm_frame_id g) (pgm_page_id g) true :: hs) fls)
| pa_new_err s s' hs fls owned e : alloc_ok owned (bp_page_allocator s) -> new_page s = (Err e, s') -> pool_act (mkPoolSys s hs fls) (mkPoolSys s' hs fls)
| pa_checkpoint s hs fls lsn : pool_act (mkPoolSys s hs fls) (mkPoolSys (set_checkpoint_lsn lsn s) hs fls)
| pa_claim s s' hs1 hs2 fls f p saved : flush_claim f s = (Ok (FlushClaimed p saved), s') ->
    pool_act (mkPoolSys s (hs1 ++ mkHold f p false :: hs2) fls) (mkPoolSys s' (hs1 ++ hs2) (<[f := mkFlight p saved FClaimed]> fls))
| pa_flush_write s s' hs fls f p saved g : fls !! f = Some (mkFlight p saved FClaimed) -> flush_write f p saved s = (Ok g, s') ->
    pool_act (mkPoolSys s hs fls) (mkPoolSys s' hs (<[f := mkFlight p saved (FWritten g)]> fls))
| pa_flush_write_err s s' hs fls f p saved e : fls !! f = Some (mkFlight p saved FClaimed) -> flush_write f p saved s = (Err e, s') ->
    pool_act (mkPoolSys s hs fls) (mkPoolSys s' (mkHold f p false :: hs) (delete f fls))
| pa_covered s hs fls f p saved g c : fls !! f = Some (mkFlight p saved (FWritten g)) -> flush_covered g s = Some c ->
    pool_act (mkPoolSys s hs fls) (mkPoolSys s hs (<[f := mkFlight p saved (FSyncing g c)]> fls))
| pa_skip s hs fls f p saved g : fls !! f = Some (mkFlight p saved (FWritten g)) -> flush_covered g s = None ->
    pool_act (mkPoolSys s hs fls) (mkPoolSys s hs (<[f := mkFlight p saved FDone]> fls))
| pa_sync s s' hs fls f p saved g c : fls !! f = Some (mkFlight p saved (FSyncing g c)) -> flush_sync f saved s = (Ok tt, s') ->
    pool_act (mkPoolSys s hs fls) (mkPoolSys s' hs (<[f := mkFlight p saved (FSynced g c)]> fls))
| pa_sync_err s s' hs fls f p saved g c e : fls !! f = Some (mkFlight p saved (FSyncing g c)) -> flush_sync f saved s = (Err e, s') ->
    pool_act (mkPoolSys s hs fls) (mkPoolSys s' (mkHold f p false :: hs) (delete f fls))
| pa_publish s s' hs fls f p saved g c : fls !! f = Some (mkFlight p saved (FSynced g c)) -> flush_publish c s = (Ok tt, s') ->
    pool_act (mkPoolSys s hs fls) (mkPoolSys s' hs (<[f := mkFlight p saved FDone]> fls))
| pa_finish s s' hs fls f p saved : fls !! f = Some (mkFlight p saved FDone) -> flush_finish f s = (Ok tt, s') ->
    pool_act (mkPoolSys s hs fls) (mkPoolSys s' (mkHold f p false :: hs) (delete f fls)).

Definition pool_step (st st' : PoolSys) : Prop := counters_ok st /\ pool_act st st'.

(** The guards on a frame. *)
Definition nholds (w : bool) (f : nat) (hs : list Hold) : nat := length (filter (fun h => h_frame h = f /\ h_write h = w) hs).
Definition nreads (f : nat) (hs : list Hold) (fls : gmap nat Flight) : nat :=
  (nholds false f hs + match fls !! f with Some _ => 1 | None => 0 end)%nat.

Definition latch_matches (l : Latch) (reads writes : nat) : Prop :=
  match l with Readers n => n = reads /\ writes = O | Writer => writes = 1%nat /\ reads = O end.

Record sys_inv (st : PoolSys) : Prop := {
  si_pool : pool_inv None (ps_flights st) (ps_pool st);
  si_latch f fr : bp_frames (ps_pool st) !! f = Some fr ->
    latch_matches (fr_latch fr) (nreads f (ps_holds st) (ps_flights st)) (nholds true f (ps_holds st));
  si_holds h : h ∈ ps_holds st -> exists fr, bp_frames (ps_pool st) !! h_frame h = Some fr /\ fm_page_id (fr_meta fr) = h_page h;
}.

Lemma nholds_cons w f h hs :
  nholds w f (h :: hs) = ((if decide (h_frame h = f /\ h_write h = w) then 1 else 0) + nholds w f hs)%nat.
Proof. unfold nholds. rewrite filter_cons. by case_decide. Qed.

Lemma nholds_app w f hs1 hs2 : nholds w f (hs1 ++ hs2) = (nholds w f hs1 + nholds w f hs2)%nat.
Proof. unfold nholds. by rewrite filter_app, length_app. Qed.

Lemma nholds_mid w f hs1 h hs2 : nholds w f (hs1 ++ h :: hs2) = nholds w f (h :: hs1 ++ hs2).
Proof. rewrite nholds_app, !nholds_cons, nholds_app. lia. Qed.

Lemma nholds_le f hs : (nholds false f hs + nholds true f hs <= length hs)%nat.
Proof. induction hs as [|h hs IH]; [done|]. rewrite !nholds_cons. cbn [length]. repeat case_decide; try lia. destruct_and!. congruence. Qed.

Lemma nholds_in w f p hs : mkHold f p w ∈ hs -> (0 < nholds w f hs)%nat.
Proof. intros Hin. apply list_elem_of_split in Hin as (l1 & l2 & ->). rewrite nholds_mid, nholds_cons, decide_True by done. lia. Qed.

Lemma sys_room st : sys_inv st -> counters_ok st -> room (ps_pool st).
Proof.
  intros [I1 I2 I3] [_ Hc] f fr Hf. specialize (I2 _ _ Hf). pose proof (nholds_le f (ps_holds st)) as Hn. unfold nreads in I2.
  destruct (ps_flights st !! f) as [x|] eqn:E.
  - assert (0 < size (ps_flights st))%nat by (apply Nat.neq_0_lt_0; intros H0; apply map_size_empty_inv in H0; rewrite H0 in E; by rewrite lookup_empty in E).
    destruct (fr_latch fr); cbn in *; lia.
  - destruct (fr_latch fr); cbn in *; lia.
Qed.

(** A pinned frame is one with a guard. *)
Lemma hold_pinned st h fr : sys_inv st -> h ∈ ps_holds st -> bp_frames (ps_pool st) !! h_frame h = Some fr -> fm_pin_count (fr_meta fr) > 0.
Proof.
  intros [I1 I2 I3] Hin Hf. destruct (fo_pins _ _ _ _ (pi_frames _ _ _ I1 _ _ Hf)) as [Hp _]. rewrite Hp. specialize (I2 _ _ Hf).
  destruct h as [f p w]. pose proof (nholds_in w f p _ Hin) as Hn. cbn in *. unfold nreads in I2. destruct (fr_latch fr); cbn in *; [|lia]. destruct w; lia.
Qed.

(** Every frame keeps its latch, and its page while it is pinned. *)
Definition latches_kept s s' : Prop :=
  length (bp_frames s') = length (bp_frames s) /\
  forall i fr, bp_frames s !! i = Some fr -> exists fr', bp_frames s' !! i = Some fr' /\ fr_latch fr' = fr_latch fr /\
    (fm_pin_count (fr_meta fr) > 0 -> fm_page_id (fr_meta fr') = fm_page_id (fr_meta fr)).

Lemma frame_back s s' i fr' : length (bp_frames s') = length (bp_frames s) -> bp_frames s' !! i = Some fr' -> is_Some (bp_frames s !! i).
Proof. intros Hl Hf. apply lookup_lt_is_Some. apply lookup_lt_Some in Hf. lia. Qed.

Lemma sys_quiet s s' hs fls fls' :
  sys_inv (mkPoolSys s hs fls) -> pool_inv None fls' s' -> (forall f, is_Some (fls' !! f) <-> is_Some (fls !! f)) -> latches_kept s s' ->
  sys_inv (mkPoolSys s' hs fls').
Proof.
  intros Hsi Hi Hd [Hl Hk]. split; [done|..]; cbn [ps_pool ps_holds ps_flights].
  - intros f fr' Hf'. destruct (frame_back _ _ _ _ Hl Hf') as [fr Hf]. destruct (Hk _ _ Hf) as (fr'' & E1 & E2 & _). rewrite Hf' in E1. injection E1 as <-.
    rewrite E2. pose proof (si_latch _ Hsi f fr Hf) as Hm. cbn [ps_pool ps_holds ps_flights] in Hm. unfold nreads in *. specialize (Hd f).
    destruct (fls' !! f), (fls !! f); try done; exfalso; destruct Hd as [D1 D2]; [destruct D1|destruct D2]; try done; by eexists.
  - intros h Hin. destruct (si_holds _ Hsi h Hin) as (fr & Hf & Hp). destruct (Hk _ _ Hf) as (fr' & E1 & _ & E3). exists fr'. split; [done|].
    rewrite E3; [done|]. by eapply hold_pinned in Hf.
Qed.

Lemma kept_latches s s' : kept s s' -> latches_kept s s'.
Proof.
  intros Hk. split; [by apply kept_length|]. intros i fr Hf. destruct (kept_frame _ _ _ _ Hk Hf) as (fr' & Hf' & Hkey). exists fr'. split; [done|].
  unfold frame_key in Hkey. injection Hkey as ? ? ? ? ?. by split.
Qed.

Lemma pins_latches s s' : kept_pins s s' -> latches_kept s s'.
Proof.
  intros [K1 K2 K3 K4 K5 K6 K7]. split; [done|]. intros i fr Hf. destruct (K1 _ _ Hf) as (fr' & E1 & E2 & E3 & E4). exists fr'. split; [done|]. split; [done|].
  intros Hp. apply E4 in Hp. unfold frame_id in Hp. by injection Hp.
Qed.

(** A new guard. *)
Lemma sys_add s s' hs fls f p (w : bool) :
  sys_inv (mkPoolSys s hs fls) -> pool_inv None fls s' -> pin_effect f p (if w then add_writer else add_reader) s s' ->
  (exists n, fr_latch <$> bp_frames s !! f = Some (Readers n) /\ (w = true -> n = O)) ->
  sys_inv (mkPoolSys s' (mkHold f p w :: hs) fls).
Proof.
  intros Hsi Hi [E1 (fr & fr' & F1 & F2 & F3 & F4 & F5) E3 _ _ _] (n & Hn & Hw). rewrite F1 in Hn. cbn in Hn. injection Hn as Hn. split; [done|..]; cbn [ps_pool ps_holds ps_flights].
  - intros i fri Hfi. unfold nreads. rewrite !nholds_cons. cbn [h_frame h_write]. destruct (decide (i = f)) as [->|Hif].
    + rewrite F2 in Hfi. injection Hfi as <-. rewrite F5, Hn. pose proof (si_latch _ Hsi f fr F1) as Hm. cbn [ps_pool ps_holds ps_flights] in Hm. rewrite Hn in Hm. destruct Hm as [Hm1 Hm2].
      unfold nreads in Hm1. destruct w; cbn [add_reader latch_matches]; unfold add_writer, latch_matches.
      * rewrite Hw in * by done. rewrite decide_True by done. rewrite decide_False by (by intros []). lia.
      * rewrite decide_True by done. rewrite decide_False by (by intros []). lia.
    + rewrite !decide_False by (intros []; congruence). destruct (frame_back _ _ _ _ E3 Hfi) as [fr0 Hf0]. destruct (E1 _ _ Hif Hf0) as (fr1 & G1 & G2 & _).
      rewrite Hfi in G1. injection G1 as <-. rewrite G2. apply (si_latch _ Hsi i fr0 Hf0).
  - intros h Hin. apply elem_of_cons in Hin as [->|Hin]; [by exists fr'|]. destruct (si_holds _ Hsi h Hin) as (fr0 & Hf0 & Hp0). cbn in Hf0.
    pose proof (hold_pinned _ _ _ Hsi Hin Hf0) as Hpin. destruct (decide (h_frame h = f)) as [Hhf|Hhf].
    + exists fr'. rewrite Hhf in *. split; [done|]. rewrite F1 in Hf0. injection Hf0 as <-. by rewrite F3, <-(F4 Hpin).
    + destruct (E1 _ _ Hhf Hf0) as (fr1 & G1 & _ & G3). exists fr1. split; [done|]. apply G3 in Hpin. unfold frame_id in Hpin. injection Hpin. congruence.
Qed.

(** A guard goes. *)
Lemma sys_remove s hs1 hs2 fls f p (w : bool) g fr :
  sys_inv (mkPoolSys s (hs1 ++ mkHold f p w :: hs2) fls) -> pool_inv None fls (upd_frame f g s) -> bp_frames s !! f = Some fr ->
  fm_page_id (fr_meta (g fr)) = fm_page_id (fr_meta fr) ->
  fr_latch (g fr) = (match fr_latch fr with Readers n => Readers (pred n) | Writer => Readers 0 end) ->
  sys_inv (mkPoolSys (upd_frame f g s) (hs1 ++ hs2) fls).
Proof.
  intros Hsi Hi Hf Hp Hl. split; [done|..]; cbn [ps_pool ps_holds ps_flights].
  - intros i fri. rewrite upd_frame_lookup. destruct (decide (i = f)) as [->|Hif].
    + rewrite Hf. intros [= <-]. rewrite Hl. pose proof (si_latch _ Hsi f fr Hf) as Hm. cbn [ps_pool ps_holds ps_flights] in Hm. unfold nreads in *. rewrite !nholds_mid, !nholds_cons in Hm. cbn [h_frame h_write] in Hm.
      destruct w; [rewrite decide_False in Hm by (by intros []); rewrite decide_True in Hm by done|rewrite decide_True in Hm by done; rewrite decide_False in Hm by (by intros [])]; destruct (fr_latch fr); cbn in *; lia.
    + intros Hfi. pose proof (si_latch _ Hsi i fri Hfi) as Hm. cbn [ps_pool ps_holds ps_flights] in Hm. unfold nreads in *. rewrite !nholds_mid, !nholds_cons in Hm. cbn [h_frame h_write] in Hm.
      by rewrite !decide_False in Hm by (intros []; congruence).
  - intros h Hin. assert (Hin' : h ∈ hs1 ++ mkHold f p w :: hs2) by set_solver. destruct (si_holds _ Hsi h Hin') as (fr0 & Hf0 & Hp0). cbn in Hf0.
    rewrite upd_frame_lookup. destruct (decide (h_frame h = f)) as [Hhf|Hhf]; [|by exists fr0]. rewrite Hhf in Hf0. rewrite Hf0. exists (g fr0). split; [done|]. congruence.
Qed.

(** A guard becomes the guard of a flight, or comes back from it. *)
Lemma sys_claim s s' hs1 hs2 fls f p saved :
  sys_inv (mkPoolSys s (hs1 ++ mkHold f p false :: hs2) fls) -> fls !! f = None ->
  pool_inv None (<[f := mkFlight p saved FClaimed]> fls) s' -> latches_kept s s' ->
  sys_inv (mkPoolSys s' (hs1 ++ hs2) (<[f := mkFlight p saved FClaimed]> fls)).
Proof.
  intros Hsi Hx Hi [Hl Hk]. split; [done|..]; cbn [ps_pool ps_holds ps_flights].
  - intros i fr' Hf'. destruct (frame_back _ _ _ _ Hl Hf') as [fr Hf]. destruct (Hk _ _ Hf) as (fr'' & E1 & E2 & _). rewrite Hf' in E1. injection E1 as <-.
    rewrite E2. pose proof (si_latch _ Hsi i fr Hf) as Hm. cbn [ps_pool ps_holds ps_flights] in Hm. unfold nreads in *.
    rewrite !nholds_mid, !nholds_cons in Hm. cbn [h_frame h_write] in Hm. rewrite (decide_False (P := _ /\ false = true)) in Hm by (by intros []).
    destruct (decide (i = f)) as [->|Hif].
    + rewrite lookup_insert_eq. rewrite Hx, decide_True in Hm by done. destruct (fr_latch fr); cbn in *; lia.
    + rewrite lookup_insert_ne by done. by rewrite decide_False in Hm by (intros []; congruence).
  - intros h Hin. assert (Hin' : h ∈ hs1 ++ mkHold f p false :: hs2) by set_solver. destruct (si_holds _ Hsi h Hin') as (fr & Hf & Hp).
    destruct (Hk _ _ Hf) as (fr' & E1 & _ & E3). exists fr'. split; [done|]. rewrite E3; [done|]. by eapply hold_pinned in Hf.
Qed.

Lemma sys_land s s' hs fls f x :
  sys_inv (mkPoolSys s hs fls) -> fls !! f = Some x -> pool_inv None (delete f fls) s' -> latches_kept s s' ->
  sys_inv (mkPoolSys s' (mkHold f (fl_page x) false :: hs) (delete f fls)).
Proof.
  intros Hsi Hx Hi [Hl Hk]. destruct (flight_page _ _ _ _ _ (si_pool _ Hsi) Hx) as (frx & Hfx & Hpx & _).
  destruct (fo_flight _ _ _ _ (pi_frames _ _ _ (si_pool _ Hsi) _ _ Hfx) x Hx) as (_ & _ & _ & [n Hn]); [done|].
  split; [done|..]; cbn [ps_pool ps_holds ps_flights].
  - intros i fr' Hf'. destruct (frame_back _ _ _ _ Hl Hf') as [fr Hf]. destruct (Hk _ _ Hf) as (fr'' & E1 & E2 & _). rewrite Hf' in E1. injection E1 as <-.
    rewrite E2. pose proof (si_latch _ Hsi i fr Hf) as Hm. cbn [ps_pool ps_holds ps_flights] in Hm. unfold nreads in *. rewrite !nholds_cons. cbn [h_frame h_write].
    rewrite (decide_False (P := _ /\ false = true)) by (by intros []). destruct (decide (i = f)) as [->|Hif].
    + rewrite lookup_delete_eq, decide_True by done. rewrite Hx in Hm. destruct (fr_latch fr); cbn in *; lia.
    + rewrite lookup_delete_ne by done. by rewrite decide_False by (intros []; congruence).
  - intros h Hin. apply elem_of_cons in Hin as [->|Hin].
    + cbn. cbn in Hfx. destruct (Hk _ _ Hfx) as (fr' & E1 & _ & E3). exists fr'. split; [done|]. rewrite E3; [done|].
      destruct (fo_pins _ _ _ _ (pi_frames _ _ _ (si_pool _ Hsi) _ _ Hfx)) as [Hp _]. rewrite Hp, Hn. cbn. lia.
    + destruct (si_holds _ Hsi h Hin) as (fr & Hf & Hp). destruct (Hk _ _ Hf) as (fr' & E1 & _ & E3). exists fr'. split; [done|]. rewrite E3; [done|].
      by eapply hold_pinned in Hf.
Qed.

(** Where the views of two states may differ. *)
Definition changed s s' (P : PageId -> Prop) : Prop := forall q, view s' q = view s q \/ P q.

Lemma changed_none s s' P : (forall q, view s' q = view s q) -> changed s s' P.
Proof. intros H q. by left. Qed.

Lemma is_Some_insert (fls : gmap nat Flight) f x y i : fls !! f = Some x -> is_Some (<[f := y]> fls !! i) <-> is_Some (fls !! i).
Proof. intros Hx. destruct (decide (i = f)) as [->|Hif]; [rewrite lookup_insert_eq, Hx; split; by eexists|by rewrite lookup_insert_ne]. Qed.

Lemma flight_latch fls s f x : pool_inv None fls s -> fls !! f = Some x -> exists fr, bp_frames s !! f = Some fr /\ fr_latch fr <> Writer.
Proof.
  intros Hi Hx. destruct (flight_page _ _ _ _ _ Hi Hx) as (fr & Hf & _). exists fr. split; [done|].
  destruct (fo_flight _ _ _ _ (pi_frames _ _ _ Hi _ _ Hf) x Hx) as (_ & _ & _ & [n Hn]); [done|]. congruence.
Qed.

(** What one step does to the pages: only a page under a write guard changes, or
    one that is being handed out. *)
Definition may_change (st st' : PoolSys) (q : PageId) : Prop :=
  (exists f, mkHold f q true ∈ ps_holds st) \/ (exists f, ps_holds st' = mkHold f q true :: ps_holds st).

(** The flush steps. *)
Lemma flush_act_ok s hs fls f x s' ph r :
  sys_inv (mkPoolSys s hs fls) -> fls !! f = Some x ->
  match r with
  | Ok _ => pool_inv None (<[f := mkFlight (fl_page x) (fl_saved x) ph]> fls) s' /\ kept s s' /\ forall q, view s' q = view s q
  | Err _ => failed_flush None fls s f (fl_saved x) s'
  | Panic => False
  end ->
  let hs' := match r with Ok _ => hs | _ => mkHold f (fl_page x) false :: hs end in
  let fls' := match (r : res StorageError unit) with Ok _ => <[f := mkFlight (fl_page x) (fl_saved x) ph]> fls | _ => delete f fls end in
  sys_inv (mkPoolSys s' hs' fls') /\ changed s s' (may_change (mkPoolSys s hs fls) (mkPoolSys s' hs' fls')).
Proof.
  intros Hsi Hx Hr. destruct r as [[]|e|]; [|..|done]; cbn.
  - destruct Hr as (H1 & H2 & H3). split; [|by apply changed_none]. eapply sys_quiet; [exact Hsi|done|intros i; by apply is_Some_insert with x|by apply kept_latches].
  - destruct Hr as (H1 & H2 & H3 & _). split; [|by apply changed_none]. by apply sys_land with s; [..|apply kept_latches].
Qed.

Lemma hold_frame s hs fls f p w : sys_inv (mkPoolSys s hs fls) -> mkHold f p w ∈ hs ->
  exists fr, bp_frames s !! f = Some fr /\ fm_page_id (fr_meta fr) = p /\
    (if w then fr_latch fr = Writer else exists n, fr_latch fr = Readers (S n) /\ (is_Some (fls !! f) -> n <> O)).
Proof.
  intros Hsi Hin. destruct (si_holds _ Hsi _ Hin) as (fr & Hf & Hp). cbn in *. exists fr. split; [done|]. split; [done|].
  pose proof (si_latch _ Hsi f fr Hf) as Hm. cbn [ps_holds ps_flights] in Hm. pose proof (nholds_in w f p hs Hin) as Hn. unfold nreads in Hm.
  destruct w, (fr_latch fr) as [n|]; cbn in Hm; try lia; [done|]. destruct n as [|n]; [lia|]. exists n. split; [done|]. intros [x Hx]. rewrite Hx in Hm. lia.
Qed.

Lemma frame_id_page fr fr' : frame_id fr' = frame_id fr -> fm_page_id (fr_meta fr') = fm_page_id (fr_meta fr).
Proof. unfold frame_id. intros H. by injection H. Qed.

(** Two guards on one frame are read guards. *)
Lemma two_holds s hs fls i j h1 h2 : sys_inv (mkPoolSys s hs fls) -> i <> j -> hs !! i = Some h1 -> hs !! j = Some h2 -> h_frame h1 = h_frame h2 ->
  h_write h1 = false /\ h_write h2 = false.
Proof.
  intros Hsi Hij H1 H2 Hfr.
  assert (Hcount : forall w1 w2, h_write h1 = w1 -> h_write h2 = w2 -> w1 = true \/ w2 = true ->
    (2 <= nholds false (h_frame h1) hs + nholds true (h_frame h1) hs)%nat).
  { intros w1 w2 Hw1 Hw2 _. assert (Hlt : (i < j \/ j < i)%nat) by lia.
    assert (Hgo : forall a b ha hb, (a < b)%nat -> hs !! a = Some ha -> hs !! b = Some hb -> h_frame ha = h_frame h1 -> h_frame hb = h_frame h1 ->
      (2 <= nholds false (h_frame h1) hs + nholds true (h_frame h1) hs)%nat).
    { intros a b ha hb Hab Ha Hb Fa Fb. rewrite <-(take_drop_middle hs a ha Ha). rewrite !nholds_mid, !nholds_cons, !nholds_app.
      assert (Hb' : drop (S a) hs !! (b - S a)%nat = Some hb) by (rewrite lookup_drop; rewrite <-Hb; f_equal; lia).
      rewrite <-(take_drop_middle _ _ hb Hb'). rewrite !nholds_mid, !nholds_cons, Fa, Fb.
      destruct (h_write ha), (h_write hb); repeat case_decide; try lia; tauto. }
    destruct Hlt; [by eapply (Hgo i j h1 h2)|by eapply (Hgo j i h2 h1)]. }
  destruct (si_holds _ Hsi h1 ltac:(by eapply list_elem_of_lookup_2)) as (fr & Hf & _). cbn in Hf.
  pose proof (si_latch _ Hsi _ _ Hf) as Hm. cbn [ps_holds ps_flights] in Hm. unfold nreads in Hm.
  assert (Hw : h_write h1 = true \/ h_write h2 = true -> False).
  { intros Hor. specialize (Hcount _ _ eq_refl eq_refl Hor).
    assert (0 < nholds true (h_frame h1) hs)%nat.
    { destruct Hor as [Hw|Hw]; [apply (nholds_in true (h_frame h1) (h_page h1))|rewrite Hfr; apply (nholds_in true (h_frame h2) (h_page h2))];
        [apply list_elem_of_lookup_2 with i|apply list_elem_of_lookup_2 with j]; [rewrite H1|rewrite H2]; f_equal; [destruct h1|destruct h2]; cbn in *; congruence. }
    destruct (fr_latch fr); cbn in Hm; lia. }
  destruct (h_write h1), (h_write h2); naive_solver.
Qed.

(** Steps that fail leave the guards and the pages. *)
Lemma load_failed_act s hs fls s' : sys_inv (mkPoolSys s hs fls) -> load_failed fls s s' ->
  sys_inv (mkPoolSys s' hs fls) /\ changed s s' (may_change (mkPoolSys s hs fls) (mkPoolSys s' hs fls)).
Proof. intros Hsi (H1 & H2 & H3). split; [eapply sys_quiet; [done..|by apply pins_latches]|by apply changed_none]. Qed.

Lemma fpi_act s hs fls f p r s' : sys_inv (mkPoolSys s hs fls) -> mkHold f p true ∈ hs -> ensure_fpi (mkPageGuardMut f p) s = (r, s') ->
  sys_inv (mkPoolSys s' hs fls) /\ changed s s' (may_change (mkPoolSys s hs fls) (mkPoolSys s' hs fls)).
Proof.
  intros Hsi Hin H. destruct (hold_frame _ _ _ _ _ _ Hsi Hin) as (fr & Hf & Hp & Hw).
  eapply ensure_fpi_spec in H as (H1 & H2 & H3 & (fr' & G1 & G2 & G3 & G4 & _) & H5 & _); [|exact (si_pool _ Hsi)|done..]. split.
  - eapply sys_quiet; [done..|]. split; [done|]. intros i fri Hfi. destruct (decide (i = f)) as [->|Hif].
    + rewrite Hf in Hfi. injection Hfi as <-. exists fr'. split; [done|]. split; congruence.
    + destruct (H3 i) as [Hid|]; [|done]. rewrite Hfi in Hid. cbn in Hid. apply fmap_Some in Hid as (fri' & E1 & E2). exists fri'. split; [done|].
      symmetry in E2. split; [unfold frame_id in E2; by injection E2|]. intros _. by apply frame_id_page.
  - intros q. destruct (decide (q = p)) as [->|Hq]; [right; left; by exists f|left; by apply H2].
Qed.

Lemma write_act s hs fls f p bytes s' : sys_inv (mkPoolSys s hs fls) -> mkHold f p true ∈ hs -> page_wf bytes ->
  page_mut (mkPageGuardMut f p) bytes s = (Ok tt, s') ->
  sys_inv (mkPoolSys s' hs fls) /\ changed s s' (may_change (mkPoolSys s hs fls) (mkPoolSys s' hs fls)).
Proof.
  intros Hsi Hin Hb H. destruct (hold_frame _ _ _ _ _ _ Hsi Hin) as (fr & Hf & Hp & Hw).
  destruct (page_mut_spec fls s f p fr bytes (si_pool _ Hsi) Hf Hw Hp Hb) as (H1 & H2 & H3). rewrite H in H1. injection H1 as ->. split.
  - eapply sys_quiet; [done..|]. split; [cbn; by rewrite length_alter|]. intros i fri Hfi. rewrite upd_frame_lookup.
    destruct (decide (i = f)) as [->|]; [rewrite Hfi; by eexists|by exists fri].
  - intros q. rewrite H3. case_decide; [subst; right; left; by exists f|by left].
Qed.

Lemma drop_act s hs1 hs2 fls f p s' : sys_inv (mkPoolSys s (hs1 ++ mkHold f p false :: hs2) fls) -> PageGuard_drop (mkPageGuard f p) s = (Ok tt, s') ->
  sys_inv (mkPoolSys s' (hs1 ++ hs2) fls) /\ forall q, view s' q = view s q.
Proof.
  intros Hsi H. assert (Hin : mkHold f p false ∈ hs1 ++ mkHold f p false :: hs2) by set_solver.
  destruct (hold_frame _ _ _ _ _ _ Hsi Hin) as (fr & Hf & Hp & n & Hn & Hfl).
  destruct (drop_spec fls s f p fr n (si_pool _ Hsi) Hf Hn Hfl) as (H1 & H2 & H3). rewrite H in H1. injection H1 as ->. split; [|done].
  eapply sys_remove; [exact Hsi|done|done|done|]. cbn. by rewrite Hn.
Qed.

Lemma drop_mut_act s hs1 hs2 fls f p s' : sys_inv (mkPoolSys s (hs1 ++ mkHold f p true :: hs2) fls) -> PageGuardMut_drop (mkPageGuardMut f p) s = (Ok tt, s') ->
  sys_inv (mkPoolSys s' (hs1 ++ hs2) fls) /\ forall q, view s' q = view s q.
Proof.
  intros Hsi H. assert (Hin : mkHold f p true ∈ hs1 ++ mkHold f p true :: hs2) by set_solver.
  destruct (hold_frame _ _ _ _ _ _ Hsi Hin) as (fr & Hf & Hp & Hw).
  destruct (drop_mut_spec fls s f p fr (si_pool _ Hsi) Hf Hw) as (H1 & H2 & H3). rewrite H in H1. injection H1 as ->. split; [|done].
  eapply sys_remove; [exact Hsi|done|done|unfold dropped; by destruct (fm_first_dirty_lsn (fr_meta fr) =? Lsn_INVALID)|by rewrite Hw].
Qed.

Lemma claim_act s hs1 hs2 fls f p saved s' : sys_inv (mkPoolSys s (hs1 ++ mkHold f p false :: hs2) fls) -> flush_claim f s = (Ok (FlushClaimed p saved), s') ->
  sys_inv (mkPoolSys s' (hs1 ++ hs2) (<[f := mkFlight p saved FClaimed]> fls)) /\ forall q, view s' q = view s q.
Proof.
  intros Hsi H. assert (Hin : mkHold f p false ∈ hs1 ++ mkHold f p false :: hs2) by set_solver.
  destruct (hold_frame _ _ _ _ _ _ Hsi Hin) as (fr & Hf & Hp & n & Hn & _). pose proof (si_pool _ Hsi) as Hi. cbn in Hi.
  pose proof (pi_frames _ _ _ Hi _ _ Hf) as Hok. unfold flush_claim, mbindM, frame_at in H. rewrite Hf in H.
  destruct (fm_flushing (fr_meta fr)) eqn:Efl; [done|]. destruct (_ || _) eqn:Ed; [done|]. apply orb_false_iff in Ed as [Ed Ep]. zbool.
  unfold on_meta in H. rewrite on_frame_eq in H. injection H as Hp' Hs' <-.
  assert (Hx : fls !! f = None).
  { rewrite (fo_flushing _ _ _ _ Hok) in Efl. apply bool_decide_eq_false in Efl. by apply eq_None_not_Some. }
  assert (Hi1 : pool_inv None (<[f := mkFlight (fm_page_id (fr_meta fr)) (fm_first_dirty_lsn (fr_meta fr)) FClaimed]> fls) _) by (apply inv_claim; try done; [congruence|by eauto]).
  rewrite Hp', Hs' in Hi1. split; [|intros q; by erewrite view_upd]. eapply sys_claim; [exact Hsi|done|exact Hi1|]. by eapply kept_latches, kept_upd.
Qed.

Lemma pool_act_ok st st' : sys_inv st -> pool_step st st' ->
  sys_inv st' /\ changed (ps_pool st) (ps_pool st') (may_change st st').
Proof.
  intros Hsi [Hc Hact]. pose proof (sys_room _ Hsi Hc) as Hroom. pose proof (si_pool _ Hsi) as Hi. destruct Hc as [Hgen _].
  destruct Hact as [s s' hs fls p g Hp H|s s' hs fls p e Hp H|s s' hs fls p g Hp H|s s' hs fls p e Hp H|s s' hs fls f p r Hin H
    |s s' hs fls f p bytes Hin Hb H|s s' hs1 hs2 fls f p H|s s' hs1 hs2 fls f p H|s s' hs fls owned g Ha H|s s' hs fls owned e Ha H|s hs fls lsn
    |s s' hs1 hs2 fls f p saved H|s s' hs fls f p saved g Hx H|s s' hs fls f p saved e Hx H|s hs fls f p saved g c Hx H|s hs fls f p saved g Hx H
    |s s' hs fls f p saved g c Hx H|s s' hs fls f p saved g c e Hx H|s s' hs fls f p saved g c Hx H|s s' hs fls f p saved Hx H]; cbn [ps_pool ps_holds ps_flights] in *.
  - eapply pin_spec in H as (H1 & H2 & H3 & H4 & H5 & (n & H6) & _); [|done..]. split; [|by apply changed_none].
    apply (sys_add s s' hs fls _ p false); try done. exists n. by split.
  - apply load_failed_act; [done|]. by eapply pin_spec in H.
  - eapply pin_mut_raw_spec in H as (H1 & H2 & H3 & H4 & H5 & H6 & _); [|done..]. split; [|by apply changed_none].
    apply (sys_add s s' hs fls _ p true); try done. exists O. by split.
  - apply load_failed_act; [done|]. by eapply pin_mut_raw_spec in H.
  - by eapply fpi_act.
  - by eapply write_act.
  - eapply drop_act in H as [H1 H2]; [|done]. split; [done|by apply changed_none].
  - eapply drop_mut_act in H as [H1 H2]; [|done]. split; [done|by apply changed_none].
  - eapply new_page_spec in H as (H1 & H2 & H3 & H4 & H5 & H6); [|done..]. split.
    + apply (sys_add s s' hs fls _ _ true); try done. exists O. by split.
    + intros q. rewrite H6. case_decide; [subst; right; right; by eexists|by left].
  - eapply new_page_spec in H as (H1 & H2 & H3 & H4); [|done..]. split; [|by apply changed_none].
    eapply sys_quiet; [done..|]. split; [done|]. intros i fr Hf. destruct (H3 _ _ Hf) as (fr' & E1 & E2 & E3). exists fr'. split; [done|]. split; [done|].
    intros Hpin. by apply frame_id_page, E3.
  - split; [|by apply changed_none]. eapply sys_quiet; [done|by destruct Hi as [I1 I2 I3 I4 I5 I6]|done|]. split; [done|]. intros i fr Hf. by exists fr.
  - eapply claim_act in H as [H1 H2]; [|done]. split; [done|by apply changed_none].
  - destruct (flight_latch _ _ _ _ Hi Hx) as (fr & Hf & Hl). eapply flush_write_spec in H as (H1 & H2 & H3 & _); [|done..].
    by apply (flush_act_ok s hs fls f (mkFlight p saved FClaimed) s' (FWritten g) (Ok tt)).
  - destruct (flight_latch _ _ _ _ Hi Hx) as (fr & Hf & Hl). eapply flush_write_spec in H as (H1 & _); [|done..].
    by apply (flush_act_ok s hs fls f (mkFlight p saved FClaimed) s' FDone (Err e)).
  - unfold flush_covered in H. destruct (_ <? _); [|done]. injection H as <-. pose proof (inv_covered _ _ _ _ _ _ _ Hi Hx) as H1.
    by apply (flush_act_ok s hs fls f (mkFlight p saved (FWritten g)) s (FSyncing g (bp_flush_gen s)) (Ok tt)).
  - unfold flush_covered in H. destruct (Z.ltb_spec (bp_synced_gen s) g) as [|Hge]; [done|]. pose proof (inv_skip _ _ _ _ _ _ _ Hi Hx Hge) as H1.
    by apply (flush_act_ok s hs fls f (mkFlight p saved (FWritten g)) s FDone (Ok tt)).
  - eapply flush_sync_spec in H as (H1 & H2 & H3 & _); [|done..]. by apply (flush_act_ok s hs fls f (mkFlight p saved (FSyncing g c)) s' (FSynced g c) (Ok tt)).
  - eapply flush_sync_spec in H as (H1 & _); [|done..]. by apply (flush_act_ok s hs fls f (mkFlight p saved (FSyncing g c)) s' FDone (Err e)).
  - unfold flush_publish, mmodify in H. injection H as <-. destruct (pool_published _ _ _ _ _ _ _ _ Hi Hx) as [H1 H2].
    apply (flush_act_ok s hs fls f (mkFlight p saved (FSynced g c)) _ FDone (Ok tt)); try done. split; [done|]. split; [|done].
    split; try done. unfold bp_wal. cbn. by destruct (bp_page_allocator s).
  - unfold flush_finish, on_meta in H. rewrite on_frame_eq in H. injection H as <-. pose proof (inv_finish _ _ _ _ _ _ Hi Hx) as H1.
    destruct (flight_page _ _ _ _ _ Hi Hx) as (fr & Hf & _). split; [|apply changed_none; intros q; by erewrite view_upd].
    apply (sys_land s _ hs fls f (mkFlight p saved FDone)); try done. by eapply kept_latches, kept_upd.
Qed.

(** A pool that was just opened on a well-formed file. *)
Definition pool_start (st : PoolSys) : Prop :=
  exists config d a, BufferPool_open config d a = Ok (ps_pool st) /\ 0 <= cf_buffer_pool_size config /\ 0 <= cf_buffer_pool_shards config /\
    file_ok d /\ ps_holds st = [] /\ ps_flights st = ∅.

Lemma open_inv st : pool_start st -> sys_inv st /\ forall q, view (ps_pool st) q = disk_page (df_data (bp_data_file (ps_pool st))) q.
Proof.
  destruct st as [s hs fls]. intros (config & d & a & H & Hp & Hs & Hd & Eh & Ef). cbn in *. subst hs fls. unfold BufferPool_open in H.
  destruct (StorageConfig_validate config) as [[]|e|] eqn:Ev; [|done..]. injection H as <-.
  destruct (validate_frames config Ev Hp Hs) as [Hc Hsh].
  set (s := mkBufferPool _ _ _ _ _ _ _ _).
  assert (Hfr : forall i fr, bp_frames s !! i = Some fr -> fr = Frame_default) by (intros i fr Hf; cbn in Hf; apply lookup_replicate in Hf as [-> _]; done).
  assert (Htab : forall q, table_get q s = None).
  { intros q. unfold table_get. cbn [bp_page_table s]. destruct (replicate _ ∅ !! shard_index q s) as [m|] eqn:E; [|done]. apply lookup_replicate in E as [-> _]. cbn. apply lookup_empty. }
  split; [|intros q; unfold view; by rewrite Htab]. split; cbn [ps_pool ps_holds ps_flights].
  - split; try done.
    + cbn. destruct (Z.to_nat (cf_buffer_pool_shards config)) eqn:E; [lia|done].
    + intros i fr Hf. rewrite (Hfr _ _ Hf), lookup_empty. split; try done. apply zeros_wf.
    + intros q f. rewrite Htab. split; [done|]. intros (Hq & fr & Hf & Hpf). rewrite (Hfr _ _ Hf) in Hpf. cbn in Hpf. congruence.
  - intros f fr Hf. rewrite (Hfr _ _ Hf). done.
  - intros h Hin. by apply not_elem_of_nil in Hin.
Qed.

Lemma pool_reach st st' : pool_start st -> rtc pool_step st st' -> sys_inv st'.
Proof. intros Hst Hrun. apply open_inv in Hst as [Hst _]. induction Hrun as [|x y z Hxy _ IH]; [done|]. apply IH. by apply (pool_act_ok x y). Qed.

(** ** Pinning succeeds *)

(** The clock hand is far from the end of its counter. *)
Definition hand_ok s : Prop := 0 <= bp_clock_hand s /\ bp_clock_hand s + 2 * frame_count s < 2 ^ 64.

Lemma valid_small fls s p : pool_inv None fls s -> page_valid (df_data (bp_data_file s)) p -> 1 <= p < 2 ^ 51.
Proof. intros Hi [H1 H2]. pose proof (dk_len _ (pi_file _ _ _ Hi)). unfold PAGE_SIZE in *. lia. Qed.

Lemma locate_total fls s p :
  pool_inv None fls s -> calm s -> bp_flush_gen s + 1 < 2 ^ 64 -> hand_ok s -> page_valid (df_data (bp_data_file s)) p ->
  is_Some (table_get p s) \/ (exists j fr, bp_frames s !! j = Some fr /\ fm_pin_count (fr_meta fr) <= 0) ->
  exists f s1, locate_or_load p s = (Ok f, s1) /\ (df_io (bp_data_file s1) = [] /\ pl_ok (bp_wal s1)).
Proof.
  intros Hi Hc Hgen [Hh1 Hh2] Hv Hor. pose proof (valid_small _ _ _ Hi Hv) as Hp. unfold locate_or_load, mbindM. rewrite (try_pin_spec fls) by done.
  destruct (table_get p s) as [f|] eqn:Ht; [by eexists _, _|]. destruct Hor as [[x Hx]|(j & fr & Hj & Hpin)]; [done|].
  destruct (evict_frame_total fls s j fr) as (f & s0 & He); try done. pose proof He as He'. eapply evict_frame_spec in He'; [|done|done].
  unfold alloc_frame, mbindM. rewrite (try_pin_spec fls) by done. rewrite Ht. unfold mget. rewrite Ht, He.
  apply evict_freed with (p := p) in He'; [|done|done]. pose proof (fd_calm _ _ _ _ _ He' Hc) as Hc0.
  destruct (install_page p true f s0) as [r s1] eqn:E1. eapply install_load_spec in E1; [|done|lia].
  assert (Hv0 : page_valid (df_data (bp_data_file s0)) p) by (unfold page_valid in *; by rewrite (kn_len _ _ (fd_pins _ _ _ _ _ He'))).
  destruct r as [f'|e|]; [|by destruct E1 as [_ Hn]; destruct (Hn Hc)|done].
  destruct E1 as (-> & s2 & Hfd & _ & _ & ->). exists f, (install_state p f (disk_page (df_data (bp_data_file s2)) p) s2). split; [done|]. apply (fd_calm _ _ _ _ _ Hfd Hc).
Qed.

Lemma pin_mut_raw_total fls s p :
  pool_inv None fls s -> calm s -> bp_flush_gen s + 1 < 2 ^ 64 -> hand_ok s -> page_valid (df_data (bp_data_file s)) p ->
  (exists f fr, table_get p s = Some f /\ bp_frames s !! f = Some fr /\ fr_latch fr = Readers 0) \/
  (table_get p s = None /\ exists j fr, bp_frames s !! j = Some fr /\ fm_pin_count (fr_meta fr) <= 0) ->
  exists g s1, pin_mut_without_fpi p s = (Ok g, s1) /\ calm s1.
Proof.
  intros Hi Hc Hgen Hh Hv Hor. pose proof (valid_small _ _ _ Hi Hv) as Hp.
  destruct (locate_total fls s p Hi Hc Hgen Hh Hv) as (f & s1 & Hl & Hc1); [destruct Hor as [(f & fr & Ht & _)|[_ H]]; [left; by eexists|by right]|].
  pose proof Hl as Hl'. eapply locate_spec in Hl' as [fr1 Hloc]; [|done|lia|done]. pose proof (located_at _ _ _ _ _ _ _ Hloc) as Hf1.
  unfold pin_mut_without_fpi. rewrite (proj2 (Z.eqb_neq p PageId_INVALID)) by (unfold PageId_INVALID; lia). unfold mbindM. rewrite Hl, (latch_write_eq _ _ _ Hf1).
  assert (Hlat : fr_latch fr1 = Readers 0).
  { remember (view s p) as c. destruct Hloc as [fr Ht Hf Hpf|s0 fr0 c Ht Hfd Hf Hv' Hwf].
    - destruct Hor as [(f' & fr' & Ht' & Hf' & Hl')|[Ht' _]]; [|congruence]. cbn. congruence.
    - destruct Hfd as [F1 F2 F3 F4 F5 F6 F7 (fr & Hf' & Hm & Hl0)]. rewrite Hf in Hf'. injection Hf' as <-. done. }
  rewrite Hlat. unfold on_meta, mret. rewrite on_frame_eq. by eexists _, _.
Qed.

(** A write of the data file happens only under the cover of the log. *)
Lemma write_covered ev fls s f p saved fr r s' :
  pool_inv ev fls s -> fls !! f = Some (mkFlight p saved FClaimed) -> bp_frames s !! f = Some fr -> fr_latch fr <> Writer ->
  flush_write f p saved s = (r, s') -> bp_data_file s' <> bp_data_file s ->
  let lsn := page_pd_lsn (fr_content fr) in
  lsn = Lsn_INVALID \/ pl_current_lsn (bp_wal s) < lsn \/ lsn <= pl_synced_lsn (bp_wal s').
Proof.
  intros Hi Hx Hf Hl H Hne lsn. unfold flush_write, mbindM at 1, frame_at in H. rewrite Hf in H. destruct (fr_latch fr) as [n|] eqn:El; [|done].
  unfold mbindM at 1, mget at 1 in H. unfold mbindM at 1 in H. fold lsn in H. match type of H with (let (_, _) := ?t in _) = _ => destruct t as [r1 s1] eqn:E1 end.
  assert (Hfile : bp_data_file s1 = bp_data_file s).
  { destruct (_ && _ && _) in E1; [|injection E1 as <- <-; done]. unfold mcatch, on_pool_wal in E1.
    destruct (pl_flush_to lsn (bp_wal s)) as [[[]|e|] w]; cbn [fst snd] in E1; [..|rewrite flush_failed_eq in E1|]; injection E1 as <- <-; done. }
  eapply wal_step_spec in E1; [|done..]. destruct r1 as [[]|e|]; [|injection H as <- <-; done|done].
  destruct E1 as (Hi1 & Hk1 & Hv1 & Hg1 & Hf1 & Hlsn & Hc1).
  assert (Hw : bp_wal s' = bp_wal s1); [|rewrite Hw; tauto].
  unfold mbindM, mcatch, mmodify, on_meta, mget, mret in H. unfold on_data in H.
  destruct (pf_write_all_at _ _ _) as [[[]|e|] d]; cbn [fst snd] in H; [|rewrite flush_failed_eq in H|]; injection H as <- <-; done.
Qed.

(** ** Properties *)

Implicit Types (st : PoolSys).

(** C26: guards are sound under every interleaving.  In each reachable state of
    concurrent pins, writes, drops, allocations, evictions and guarded flushes:
    a guard's frame holds its page and shows what any reader of that page sees; two
    guards on one page are both read guards; and a page that is being flushed is
    under no write guard.  (A pin with the eviction it needs is one step.) *)
Theorem pool_guards_sound st0 st :
  pool_start st0 -> rtc pool_step st0 st ->
  (forall h, h ∈ ps_holds st -> table_get (h_page h) (ps_pool st) = Some (h_frame h) /\
     fr_content <$> bp_frames (ps_pool st) !! h_frame h = Some (view (ps_pool st) (h_page h))) /\
  (forall i j h1 h2, i <> j -> ps_holds st !! i = Some h1 -> ps_holds st !! j = Some h2 -> h_page h1 = h_page h2 ->
     h_write h1 = false /\ h_write h2 = false) /\
  (forall f x h, ps_flights st !! f = Some x -> h ∈ ps_holds st -> h_page h = fl_page x -> h_write h = false).
Proof.
  intros Hst Hrun. pose proof (pool_reach _ _ Hst Hrun) as Hsi. destruct st as [s hs fls]. cbn [ps_pool ps_holds ps_flights] in *.
  pose proof (si_pool _ Hsi) as Hi. cbn in Hi.
  assert (Htab : forall h, h ∈ hs -> table_get (h_page h) s = Some (h_frame h)).
  { intros [f p w] Hin. destruct (hold_frame _ _ _ _ _ _ Hsi Hin) as (fr & Hf & Hp & Hl). cbn. apply (pi_table _ _ _ Hi). split; [|eauto].
    intros E. pose proof (pi_frames _ _ _ Hi _ _ Hf) as Hok. rewrite E in Hp. apply (fo_empty _ _ _ _ Hok) in Hp as [Hp _]. rewrite Hp in Hl.
    destruct w; [done|]. by destruct Hl as (n & Hl & _). }
  split; [|split].
  - intros h Hin. split; [by apply Htab|]. destruct (si_holds _ Hsi h Hin) as (fr & Hf & _). cbn in Hf. unfold view. by rewrite (Htab h Hin), Hf.
  - intros i j h1 h2 Hij H1 H2 Hp. assert (Hin1 : h1 ∈ hs) by (by eapply list_elem_of_lookup_2). assert (Hin2 : h2 ∈ hs) by (by eapply list_elem_of_lookup_2).
    assert (Hfr : h_frame h1 = h_frame h2) by (pose proof (Htab _ Hin1); pose proof (Htab _ Hin2); congruence). by eapply two_holds.
  - intros f x [f' p w] Hx Hin Hp. cbn in Hp. destruct (flight_page _ _ _ _ _ Hi Hx) as (fr & Hf & _ & _ & _ & Ht).
    pose proof (Htab _ Hin) as Ht'. cbn in Ht'. rewrite Hp, Ht in Ht'. injection Ht' as <-. destruct (hold_frame _ _ _ _ _ _ Hsi Hin) as (fr' & Hf' & _ & Hl).
    destruct w; [|done]. destruct (flight_latch _ _ _ _ Hi Hx) as (fr2 & Hf2 & Hn). congruence.
Qed.

(** C27: the pool is the map of its pages.  Evictions, loads, flushes, their
    failures and every other step of an interleaving leave what a reader of any page
    sees, except that a page may change while a write guard on it is held, or when
    it is handed out as a new page. *)
Theorem pool_pages_kept st0 st st' q :
  pool_start st0 -> rtc pool_step st0 st -> pool_step st st' ->
  view (ps_pool st') q = view (ps_pool st) q \/
  (exists f, mkHold f q true ∈ ps_holds st) \/ (exists f, ps_holds st' = mkHold f q true :: ps_holds st).
Proof. intros Hst Hrun Hs. apply (pool_act_ok st st'); [by eapply pool_reach|done]. Qed.

(** C28: a flush that succeeds is durable.  When a guarded flush reaches its end in
    any interleaving, also when it skips its own fsync because another thread's
    fsync covered its generation, the durable part of the file holds exactly what
    a reader of the page sees. *)
Theorem pool_flush_durable st0 st f p saved :
  pool_start st0 -> rtc pool_step st0 st -> ps_flights st !! f = Some (mkFlight p saved FDone) ->
  disk_page (df_stable (bp_data_file (ps_pool st))) p = view (ps_pool st) p.
Proof.
  intros Hst Hrun Hx. pose proof (pool_reach _ _ Hst Hrun) as Hsi. pose proof (si_pool _ Hsi) as Hi.
  destruct (pi_flights _ _ _ Hi _ _ Hx) as [_ [_ Hd]]. cbn in Hd. rewrite Hd. destruct (flight_page _ _ _ _ _ Hi Hx) as (fr & Hf & Hp & Hne & _ & Ht). cbn in *.
  pose proof (pi_frames _ _ _ Hi _ _ Hf) as Hok. unfold view. rewrite Ht, Hf, <-Hp. symmetry.
  destruct (fo_flight _ _ _ _ Hok _ Hx) as (_ & _ & Hcl & _). apply (fo_clean _ _ _ _ Hok); [congruence|done|]. rewrite Hx. by intros x [= <-].
Qed.

(** C29: the log before the data.  Whenever the write phase of a flush touches the
    data file, be it an explicit flush or the write-back of a victim, whether the
    write succeeds or not, the log is synced up to the LSN of the page image; the
    exceptions the code makes are pages without an LSN and images that recovery
    brought from beyond the log's end. *)
Theorem wal_before_data ev fls s f p saved fr r s' :
  pool_inv ev fls s -> fls !! f = Some (mkFlight p saved FClaimed) -> bp_frames s !! f = Some fr -> fr_latch fr <> Writer ->
  flush_write f p saved s = (r, s') -> bp_data_file s' <> bp_data_file s ->
  let lsn := page_pd_lsn (fr_content fr) in
  lsn = Lsn_INVALID \/ pl_current_lsn (bp_wal s) < lsn \/ lsn <= pl_synced_lsn (bp_wal s').
Proof. apply write_covered. Qed.

(** A failed flush loses nothing.  When the log, the write or the fsync fails,
    the frame is dirty again with the anchor it had (the oldest LSN recovery must
    replay from), every page reads as before, and no frame changed hands. *)
Theorem failed_flush_stays_dirty fls s f fr e s' n :
  pool_inv None fls s -> bp_frames s !! f = Some fr -> fls !! f = None -> fr_latch fr = Readers (S n) -> bp_flush_gen s + 1 < 2 ^ 64 ->
  flush_frame f s = (Err e, s') ->
  (exists fr', bp_frames s' !! f = Some fr' /\ fm_dirty (fr_meta fr') = true /\ fm_first_dirty_lsn (fr_meta fr') = fm_first_dirty_lsn (fr_meta fr)) /\
  (forall q, view s' q = view s q) /\ bp_page_table s' = bp_page_table s /\ pool_inv None fls s'.
Proof.
  intros Hi Hf Hx Hl Hgen H. eapply flush_frame_spec in H; [|exact Hi|done|exact Hf|congruence|by eauto|done].
  destruct H as (H1 & H2 & H3 & _ & _ & fr' & H4 & H5 & H6). split; [|split; [done|split; [apply H2|done]]].
  exists fr'. split; [done|]. split; [done|]. rewrite H6. unfold restore_first_dirty_lsn, Lsn_is_valid, Lsn_INVALID.
  by destruct (Z.eqb_spec (fm_first_dirty_lsn (fr_meta fr)) 0) as [->|].
Qed.

(** A pin succeeds when it can.  With no I/O failure ahead, pinning a page of
    the file for writing succeeds whenever the page is resident and unlatched, or
    some frame is unpinned: two turns of the clock always find it. *)
Theorem pool_pin_total fls s p :
  pool_inv None fls s -> calm s -> bp_flush_gen s + 1 < 2 ^ 64 -> hand_ok s -> page_valid (df_data (bp_data_file s)) p ->
  (exists f fr, table_get p s = Some f /\ bp_frames s !! f = Some fr /\ fr_latch fr = Readers 0) \/
  (table_get p s = None /\ exists j fr, bp_frames s !! j = Some fr /\ fm_pin_count (fr_meta fr) <= 0) ->
  exists g s1, pin_mut_without_fpi p s = (Ok g, s1) /\ calm s1.
Proof. apply pin_mut_raw_total. Qed.

End safe.
