(* ===== verification/PoolRace.v ===== *)
(** * Runs of the buffer pool

    A log in memory for the pool, runs that exercise the theorems of [PoolSafe],
    and the interleaving in which a flush without a guard corrupts a page. *)

From stdpp Require Import strings.
From S2P Require Import Prelude Types WalRecord WalSegment Config PageAllocator Recovery BufferPool PoolSafe.
Local Open Scope Z_scope.
Local Open Scope rust_scope.

(** ** A log in memory with a synced position *)

Record SyncWal := mkSyncWal { sw_log : LogWal; sw_synced : Lsn }.

#[export] Instance SyncWal_PageWal : PageWal SyncWal := {|
  pw_append r w := let x := pw_append r (sw_log w) in (fst x, mkSyncWal (snd x) (sw_synced w));
  pw_log w := pw_log (sw_log w) |}.

#[export] Instance SyncWal_PageWalLaws : PageWalLaws SyncWal.
Proof.
  split.
  - intros r w l w' H. cbn in H |- *. destruct (hd true (lg_io (sw_log w))); [|done]. injection H as <- <-. done.
  - intros r w e w' H. cbn in H |- *. destruct (hd true (lg_io (sw_log w))); [done|]. injection H as <- <-. done.
  - intros r w. cbn. by destruct (hd true (lg_io (sw_log w))).
Qed.

(** [flush_to] succeeds while the script of the log says so. *)
#[export] Instance SyncWal_PoolWal : PoolWal SyncWal := {|
  pl_flush_to lsn w :=
    let l := sw_log w in
    if lsn >? lg_next l then (Err (LsnNotAvailable lsn), w)
    else if hd true (lg_io l) then (Ok tt, mkSyncWal (mkLogWal (lg_recs l) (lg_next l) (tl (lg_io l))) (Z.max (sw_synced w) (lg_next l)))
    else (Err WalWriteFailed, mkSyncWal (mkLogWal (lg_recs l) (lg_next l) (tl (lg_io l))) (sw_synced w));
  pl_current_lsn w := lg_next (sw_log w);
  pl_synced_lsn := sw_synced |}.

#[export] Instance SyncWal_laws : PoolWalLaws SyncWal.
Proof.
  refine {| pl_ok := fun w => lg_io (sw_log w) = [] |}; unfold pl_flush_to, pl_current_lsn, pl_synced_lsn; cbn.
  - intros lsn w Hio Hle. destruct (Z.gtb_spec lsn (lg_next (sw_log w))); [lia|]. by rewrite Hio.
  - intros lsn w w'. destruct (Z.gtb_spec lsn (lg_next (sw_log w))); [done|]. destruct (hd true _); [|done]. intros [= <-]. cbn. lia.
  - intros lsn w. destruct (lsn >? _); [done|]. destruct (hd true _); cbn; lia.
  - intros lsn w. destruct (lsn >? _); [done|]. by destruct (hd true _).
  - intros r w. done.
Defined.

(** ** A pool with one frame on a file of two empty pages *)

Definition demo_config : StorageConfig :=
  mkStorageConfig EmptyString WAL_SEGMENT_SIZE PAGE_SIZE 1 64 2 0 PAGE_SIZE.

Definition demo_file : DataFile := mkDataFile (zeros 16384) (zeros 16384) [].
Definition demo_allocator : PageAllocator SyncWal := mkPageAllocator (mkSyncWal (mkLogWal [] 48 []) 8) [] 16384 3 [] true.

Abbreviation Pool := (BufferPool SyncWal).

Definition demo_pool : Pool :=
  match BufferPool_open demo_config demo_file demo_allocator with
  | Ok s => s
  | _ => mkBufferPool demo_file demo_allocator [] [] 0 0 0 0
  end.

(** An image of page 1 with LSN 40. *)
Definition demo_image : list Z := le_bytes 8 40 ++ 1 :: zeros 8183.

Lemma demo_image_wf : page_wf demo_image.
Proof.
  split; [unfold demo_image; rewrite length_app, length_le_bytes; cbn [length]; rewrite length_zeros; done|].
  unfold demo_image. apply Forall_app. split; [apply wf_le_bytes|]. constructor; [unfold is_byte; lia|apply wf_zeros].
Qed.

Lemma demo_file_ok : file_ok demo_file.
Proof. split; cbn [demo_file df_data df_stable]; [apply wf_zeros|rewrite length_zeros; lia|rewrite length_zeros; done|done]. Qed.

Lemma run_ok {S A} (m : M S StorageError A) s a : fst (m s) = Ok a -> m s = (Ok a, snd (m s)).
Proof. intros H. rewrite (surjective_pairing (m s)) at 1. by rewrite H. Qed.

(** One writer, then a guarded flush of its page. *)
Definition d0 : Pool := demo_pool.
Definition d1 : Pool := snd (pin_mut_without_fpi 1 d0).
Definition d2 : Pool := snd (page_mut (mkPageGuardMut 0 1) demo_image d1).
Definition d3 : Pool := snd (PageGuardMut_drop (mkPageGuardMut 0 1) d2).
Definition d4 : Pool := snd (BufferPool_pin 1 d3).
Definition d5 : Pool := snd (flush_claim 0 d4).
Definition d6 : Pool := snd (flush_write 0 1 40 d5).
Definition d7 : Pool := snd (flush_sync 0 40 d6).
Definition d8 : Pool := snd (flush_publish 1 d7).

Ltac run m s := exact (run_ok m s _ ltac:(vm_compute; reflexivity)).

Lemma d1_eq : pin_mut_without_fpi 1 d0 = (Ok (mkPageGuardMut 0 1), d1).
Proof. run (pin_mut_without_fpi (W := SyncWal) 1) d0. Qed.
Lemma d2_eq : page_mut (mkPageGuardMut 0 1) demo_image d1 = (Ok tt, d2).
Proof. run (page_mut (W := SyncWal) (mkPageGuardMut 0 1) demo_image) d1. Qed.
Lemma d3_eq : PageGuardMut_drop (mkPageGuardMut 0 1) d2 = (Ok tt, d3).
Proof. run (PageGuardMut_drop (W := SyncWal) (mkPageGuardMut 0 1)) d2. Qed.
Lemma d4_eq : BufferPool_pin 1 d3 = (Ok (mkPageGuard 0 1), d4).
Proof. run (BufferPool_pin (W := SyncWal) 1) d3. Qed.
Lemma d5_eq : flush_claim 0 d4 = (Ok (FlushClaimed 1 40), d5).
Proof. run (flush_claim (W := SyncWal) 0) d4. Qed.
Lemma d6_eq : flush_write 0 1 40 d5 = (Ok 1, d6).
Proof. run (flush_write (W := SyncWal) 0 1 40) d5. Qed.
Lemma d7_eq : flush_sync 0 40 d6 = (Ok tt, d7).
Proof. run (flush_sync (W := SyncWal) 0 40) d6. Qed.
Lemma d8_eq : flush_publish 1 d7 = (Ok tt, d8).
Proof. run (flush_publish (W := SyncWal) 1) d7. Qed.

Lemma d6_covered : flush_covered 1 d6 = Some 1.
Proof. vm_compute. reflexivity. Qed.

Definition demo_start : PoolSys := mkPoolSys d0 [] ∅.
Definition demo_writing : PoolSys := mkPoolSys d2 [mkHold 0 1 true] ∅.
Definition demo_claimed : PoolSys := mkPoolSys d5 [] {[0%nat := mkFlight 1 40 FClaimed]}.
Definition demo_done : PoolSys := mkPoolSys d8 [] {[0%nat := mkFlight 1 40 FDone]}.

Lemma demo_start_ok : pool_start demo_start.
Proof. exists demo_config, demo_file, demo_allocator. split; [reflexivity|]. split; [done|]. split; [done|]. split; [apply demo_file_ok|done]. Qed.

#[local] Opaque d0 d1 d2 d3 d4 d5 d6 d7 d8.

Ltac act := split; [split; [vm_compute; reflexivity|vm_compute; reflexivity]|].

Lemma demo_run1 : rtc pool_step demo_start demo_writing.
Proof.
  apply rtc_l with (mkPoolSys d1 [mkHold 0 1 true] ∅).
  { act. apply (pa_pin_mut d0 d1 [] ∅ 1 (mkPageGuardMut 0 1)); [lia|exact d1_eq]. }
  apply rtc_once. act. apply (pa_write d1 d2 [mkHold 0 1 true] ∅ 0 1 demo_image); [apply list_elem_of_here|apply demo_image_wf|exact d2_eq].
Qed.

Lemma demo_run2 : rtc pool_step demo_writing demo_claimed.
Proof.
  apply rtc_l with (mkPoolSys d3 [] ∅). { act. exact (pa_drop_mut d2 d3 [] [] ∅ 0 1 d3_eq). }
  apply rtc_l with (mkPoolSys d4 [mkHold 0 1 false] ∅). { act. apply (pa_pin d3 d4 [] ∅ 1 (mkPageGuard 0 1)); [lia|exact d4_eq]. }
  apply rtc_once. act. exact (pa_claim d4 d5 [] [] ∅ 0 1 40 d5_eq).
Qed.

Lemma demo_run3 : rtc pool_step demo_claimed demo_done.
Proof.
  apply rtc_l with (mkPoolSys d6 [] {[0%nat := mkFlight 1 40 (FWritten 1)]}). { act. exact (pa_flush_write d5 d6 [] {[0%nat := mkFlight 1 40 FClaimed]} 0 1 40 1 eq_refl d6_eq). }
  apply rtc_l with (mkPoolSys d6 [] {[0%nat := mkFlight 1 40 (FSyncing 1 1)]}).
  { act. exact (pa_covered d6 [] {[0%nat := mkFlight 1 40 (FWritten 1)]} 0 1 40 1 1 eq_refl d6_covered). }
  apply rtc_l with (mkPoolSys d7 [] {[0%nat := mkFlight 1 40 (FSynced 1 1)]}). { act. exact (pa_sync d6 d7 [] {[0%nat := mkFlight 1 40 (FSyncing 1 1)]} 0 1 40 1 1 eq_refl d7_eq). }
  apply rtc_once. act. exact (pa_publish d7 d8 [] {[0%nat := mkFlight 1 40 (FSynced 1 1)]} 0 1 40 1 1 eq_refl d8_eq).
Qed.

Lemma demo_reach : rtc pool_step demo_start demo_done.
Proof. etrans; [apply demo_run1|]. etrans; [apply demo_run2|apply demo_run3]. Qed.

Lemma demo_claimed_inv : pool_inv None (ps_flights demo_claimed) d5.
Proof. apply (si_pool demo_claimed). apply (pool_reach demo_start); [apply demo_start_ok|]. etrans; [apply demo_run1|apply demo_run2]. Qed.

(** A failing disk. *)
Definition failing (io : list (option nat)) (s : Pool) : Pool :=
  set_file (mkDataFile (df_data (bp_data_file s)) (df_stable (bp_data_file s)) io) s.

Lemma failing_inv ev fls io s : pool_inv ev fls s -> pool_inv ev fls (failing io s).
Proof. intros [I1 [D1 D2 D3 D4] I3 I4 I5 I6]. by split. Qed.

Lemma demo_dropped : rtc pool_step demo_start (mkPoolSys d3 [] ∅).
Proof. etrans; [apply demo_run1|]. apply rtc_once. act. exact (pa_drop_mut d2 d3 [] [] ∅ 0 1 d3_eq). Qed.

Lemma d3_inv : pool_inv None ∅ d3.
Proof. apply (si_pool (mkPoolSys d3 [] ∅)). apply (pool_reach demo_start); [apply demo_start_ok|apply demo_dropped]. Qed.

Lemma d4_inv : pool_inv None ∅ d4.
Proof.
  apply (si_pool (mkPoolSys d4 [mkHold 0 1 false] ∅)). apply (pool_reach demo_start); [apply demo_start_ok|]. etrans; [apply demo_dropped|].
  apply rtc_once. act. apply (pa_pin d3 d4 [] ∅ 1 (mkPageGuard 0 1)); [lia|exact d4_eq].
Qed.

Lemma d0_inv : pool_inv None ∅ d0.
Proof. apply (si_pool demo_start). apply (pool_reach demo_start); [apply demo_start_ok|]. apply rtc_refl. Qed.

(** ** Witnesses *)

Lemma pool_guards_sound_witness :
  fr_content <$> bp_frames d2 !! 0%nat = Some (view d2 1) /\ view d2 1 = demo_image.
Proof.
  split; [|vm_compute; reflexivity].
  exact (proj2 (proj1 (pool_guards_sound demo_start demo_writing demo_start_ok demo_run1) (mkHold 0 1 true) (list_elem_of_here _ _))).
Defined.

Lemma pool_pages_kept_witness :
  view d2 2 = view d1 2 \/ (exists f, mkHold f 2 true ∈ [mkHold 0 1 true]) \/ (exists f, [mkHold 0 1 true] = mkHold f 2 true :: [mkHold 0 1 true]).
Proof.
  apply (pool_pages_kept demo_start (mkPoolSys d1 [mkHold 0 1 true] ∅) demo_writing 2 demo_start_ok).
  - apply rtc_once. act. apply (pa_pin_mut d0 d1 [] ∅ 1 (mkPageGuardMut 0 1)); [lia|exact d1_eq].
  - act. apply (pa_write d1 d2 [mkHold 0 1 true] ∅ 0 1 demo_image); [apply list_elem_of_here|apply demo_image_wf|exact d2_eq].
Defined.

Lemma pool_flush_durable_witness :
  disk_page (df_stable (bp_data_file d8)) 1 = view d8 1 /\ view d8 1 = demo_image.
Proof.
  split; [|vm_compute; reflexivity].
  exact (pool_flush_durable demo_start demo_done 0 1 40 demo_start_ok demo_reach eq_refl).
Defined.

Lemma wal_before_data_witness :
  let lsn := page_pd_lsn (fr_content (default Frame_default (bp_frames d5 !! 0%nat))) in
  lsn = Lsn_INVALID \/ pl_current_lsn (bp_wal d5) < lsn \/ lsn <= pl_synced_lsn (bp_wal d6).
Proof.
  apply (wal_before_data None (ps_flights demo_claimed) d5 0 1 40 (default Frame_default (bp_frames d5 !! 0%nat)) (Ok 1) d6 demo_claimed_inv);
    [reflexivity|vm_compute; reflexivity|vm_compute; discriminate|exact d6_eq|].
  intros H. apply (f_equal (fun d => disk_page (df_data d) 1)) in H. vm_compute in H. discriminate.
Defined.

Lemma failed_flush_stays_dirty_witness :
  let s' := snd (flush_frame 0 (failing [Some 100%nat] d4)) in
  (exists fr', bp_frames s' !! 0%nat = Some fr' /\ fm_dirty (fr_meta fr') = true /\ fm_first_dirty_lsn (fr_meta fr') = fm_first_dirty_lsn (fr_meta (default Frame_default (bp_frames d4 !! 0%nat)))) /\
  (forall q, view s' q = view (failing [Some 100%nat] d4) q) /\ bp_page_table s' = bp_page_table (failing [Some 100%nat] d4) /\ pool_inv None ∅ s'.
Proof.
  apply (failed_flush_stays_dirty ∅ (failing [Some 100%nat] d4) 0 (default Frame_default (bp_frames d4 !! 0%nat)) Io _ 0);
    [apply failing_inv, d4_inv|vm_compute; reflexivity|reflexivity|vm_compute; reflexivity|vm_compute; reflexivity|].
  rewrite (surjective_pairing (flush_frame 0 (failing [Some 100%nat] d4))) at 1. apply (f_equal2 pair); [vm_compute; reflexivity|reflexivity].
Defined.

Lemma pool_pin_total_witness : exists g s1, pin_mut_without_fpi 2 d0 = (Ok g, s1) /\ calm s1.
Proof.
  apply (pool_pin_total ∅ d0 2 d0_inv); [split; vm_compute; reflexivity|vm_compute; reflexivity|split; vm_compute; [discriminate|reflexivity]|split; vm_compute; discriminate|].
  right. split; [vm_compute; reflexivity|]. exists 0%nat, Frame_default. split; [vm_compute; reflexivity|vm_compute; discriminate].
Defined.

(** ** A flush without a guard *)

(** [BufferPool_flush] as the checkpoint calls it, cut at the point where the frame
    is claimed and its content not yet latched. *)
Definition r1 : Pool := snd (flush_claim 0 d3).
Definition r2 : Pool := snd (BufferPool_pin 2 r1).
Definition flush_rest : M Pool StorageError unit :=
  let! my_gen := flush_write 0 1 40 in
  let! s := mget in
  (match flush_covered my_gen s with
   | Some covered_gen => flush_sync 0 40 ;! flush_publish covered_gen
   | None => mret tt
   end) ;! flush_finish 0.
Definition r3 : Pool := snd (flush_rest r2).

Lemma flush_cut : table_get 1 d3 = Some 0%nat /\
  BufferPool_flush 1 d3 = match flush_claim 0 d3 with
                          | (Ok (FlushClaimed 1 40), s) => flush_rest s
                          | _ => (Panic, d3)
                          end.
Proof. split; vm_compute; reflexivity. Qed.

(** C30: a flush that holds no guard can destroy its page and report success.
    [flush_frame] clears the dirty flag before it writes, and eviction takes a clean,
    unpinned frame without looking at the flag that says a flush is in flight.  In
    the run below the checkpoint's [flush(1)] claims the frame of the dirty page 1,
    another thread pins page 2 and gets that same frame, and the flush then writes
    page 2's bytes to page 1's place: it returns success, and the update of page 1
    is gone from memory and from the disk. *)
Theorem unpinned_flush_corrupts :
  view d3 1 = demo_image /\
  flush_claim 0 d3 = (Ok (FlushClaimed 1 40), r1) /\
  BufferPool_pin 2 r1 = (Ok (mkPageGuard 0 2), r2) /\
  flush_rest r2 = (Ok tt, r3) /\
  view r3 1 = zeros PAGE_SIZE /\ disk_page (df_stable (bp_data_file r3)) 1 = zeros PAGE_SIZE /\
  BufferPool_dirty_page_ids r3 = [].
Proof.
  split; [vm_compute; reflexivity|]. split; [run (flush_claim (W := SyncWal) 0) d3|].
  split; [run (BufferPool_pin (W := SyncWal) 2) r1|]. split; [run flush_rest r2|].
  split; [vm_compute; reflexivity|]. split; vm_compute; reflexivity.
Qed.

(** ** New pages *)

(** A page that was freed while it is still resident. *)
Definition n0 : Pool := set_allocator (snd (free_page 1 (bp_page_allocator d3))) d3.
Definition n1 : Pool := snd (new_page n0).

(** A recycled page is not empty.  [new_page] documents that the content is
    zero-filled, but a page that was freed and is handed out again while its old
    frame is resident comes with the old content, and without the full-page image
    that a page with an on-disk version needs. *)
Theorem recycled_page_keeps_content :
  fst (new_page n0) = Ok (mkPageGuardMut 0 1) /\ view n1 1 = demo_image /\
  fm_needs_fpi (fr_meta (default Frame_default (bp_frames n1 !! 0%nat))) = false.
Proof. split; [vm_compute; reflexivity|]. split; vm_compute; reflexivity. Qed.

(** A pool whose only frame is pinned. *)
Definition full_pool : Pool := snd (BufferPool_pin 1 d0).

(** A page can leak.  When no frame is free, [new_page] fails after the page was
    allocated and logged, and does not give it back: the page belongs to nobody. *)
Theorem full_pool_leaks_page :
  fst (new_page full_pool) = Err BufferPoolFull /\
  next_page_id (bp_page_allocator full_pool) = 3 /\ next_page_id (bp_page_allocator (snd (new_page full_pool))) = 4 /\
  freelist (bp_page_allocator (snd (new_page full_pool))) = [].
Proof. split; [vm_compute; reflexivity|]. split; [vm_compute; reflexivity|]. split; vm_compute; reflexivity. Qed.
