(* ===== verification/Checkpoint.v ===== *)
(** * Checkpoints ([pg-storage/src/checkpoint.rs])

    The coordinator of fuzzy checkpoints, over the buffer pool of [BufferPool], the
    superblock file of [Superblock] and the directory [meta/], in which the
    snapshot files are written atomically ([write_atomic] of [io.rs]).  The disk
    commit log and the transaction manager are behind the two traits the code has
    for them ([ClogFlush], [AttProvider]); the log is the pool's.

    [trigger_checkpoint] is cut into its phases where other threads run in between;
    the mutexes that keep one checkpoint at a time and the commit barrier are held
    throughout.  Every system call on the directory consumes one outcome of a
    script. *)

From stdpp Require Import strings.
From S2P Require Import Prelude Types WalRecord WalSegment Config PageAllocator Superblock Recovery BufferPool.
Local Open Scope Z_scope.
Local Open Scope rust_scope.

(** ** Traits *)

Class ClogFlush (C : Type) := { cf_flush_dirty : M C StorageError unit }.
Class AttProvider (A : Type) := { ap_active_xids : A -> list TxnId }.

(** The writer's operations for checkpoints. *)
Class CheckpointWal (W : Type) := {
  cw_reserve_and_append : WalRecord -> M W StorageError Lsn;
  cw_recycle_before : Lsn -> M W StorageError unit;
}.

(** ** The directory [meta/] *)

Record MetaDir := mkMetaDir { md_files : gmap string (list Z); md_io : list Outcome }.

Definition md_outcome (d : MetaDir) : Outcome := hd Done (md_io d).
Definition md_set (files : gmap string (list Z)) (d : MetaDir) : MetaDir := mkMetaDir files (tl (md_io d)).

(** A call that changes the files by [f] when it succeeds. *)
Definition md_call (f : gmap string (list Z) -> gmap string (list Z)) : M MetaDir StorageError unit := fun d =>
  match md_outcome d with
  | Done => (Ok tt, md_set (f (md_files d)) d)
  | Fails _ => (Err Io, md_set (md_files d) d)
  end.

Definition md_write_all (name : string) (contents : list Z) : M MetaDir StorageError unit := fun d =>
  match md_outcome d with
  | Done => (Ok tt, md_set (<[name := contents]> (md_files d)) d)
  | Fails k => (Err Io, md_set (<[name := take k contents]> (md_files d)) d)
  end.

Definition tmp_name (name : string) : string := String.app name ".pg_rust_tmp".

Definition rename_file (tmp name : string) (files : gmap string (list Z)) : gmap string (list Z) :=
  <[name := default [] (files !! tmp)]> (delete tmp files).

(** [io::write_atomic]: [create_dir_all], [create], [write_all], [sync_all],
    [rename], [sync_dir]. *)
Definition write_atomic (name : string) (contents : list Z) : M MetaDir StorageError unit :=
  let tmp := tmp_name name in
  md_call id ;!
  md_call (insert tmp []) ;!
  md_write_all tmp contents ;!
  md_call id ;!
  md_call (rename_file tmp name) ;!
  md_call id.

(** ** Names of snapshot files *)

(** [format!("{:016}", n)] *)
Definition fmt016 (n : Z) : string :=
  let s := dec_digits 20 n EmptyString in zero_pad (16 - String.length s) s.

Definition snapshot_name (kind : string) (lsn : Lsn) : string :=
  String.app kind (String.app (fmt016 lsn) ".snapshot").
Definition rel_path (name : string) : list Z :=
  (fun a => Z.of_N (Ascii.N_of_ascii a)) <$> String.list_ascii_of_string (String.app "meta/" name).

Fixpoint all_digits (s : string) : bool :=
  match s with
  | EmptyString => true
  | String a s => match digit_val a with Some _ => all_digits s | None => false end
  end.

Definition parse_snapshot_file_lsn (name : string) : option Z :=
  let rest := match strip_prefix "att-" name with Some rest => Some rest | None => strip_prefix "dpt-" name end in
  match rest with
  | None => None
  | Some rest =>
      match strip_suffix ".snapshot" rest with
      | None => None
      | Some digits => if String.eqb digits EmptyString || negb (all_digits digits) then None else parse_u64 digits
      end
  end.

Definition RETAINED_SNAPSHOT_CHECKPOINTS : nat := 3.

(** ** The coordinator *)

Record CheckpointCoordinator (W C A : Type) := mkCheckpointCoordinator {
  cc_config : StorageConfig;
  cc_superblock : Superblock;
  cc_sb_file : SbFile;
  cc_buffer_pool : BufferPool W;
  cc_meta : MetaDir;
  cc_next_oid_source : Z;
  cc_next_txn_id_source : Z;
  cc_clog_flush : option C;
  cc_att_provider : option A;
  cc_shutdown : bool;
  cc_background_handle : bool;
}.
Arguments mkCheckpointCoordinator {W C A}.
Arguments cc_config {W C A} _.
Arguments cc_superblock {W C A} _.
Arguments cc_sb_file {W C A} _.
Arguments cc_buffer_pool {W C A} _.
Arguments cc_meta {W C A} _.
Arguments cc_next_oid_source {W C A} _.
Arguments cc_next_txn_id_source {W C A} _.
Arguments cc_clog_flush {W C A} _.
Arguments cc_att_provider {W C A} _.
Arguments cc_shutdown {W C A} _.
Arguments cc_background_handle {W C A} _.

Section coordinator.
Context {BC : Bincode} {W : Type} {PW : PageWal W} {PL : PoolWal W} {CW : CheckpointWal W}.
Context {C : Type} {CF : ClogFlush C} {A : Type} {AP : AttProvider A}.
Variable crc32 : list Z -> Z.
Variable enc_att : list TxnId -> list Z.
Variable enc_dpt : list (PageId * Lsn) -> list Z.
Abbreviation CC := (CheckpointCoordinator W C A).
Abbreviation MC := (M CC StorageError).

Definition CheckpointCoordinator_new (config : StorageConfig) (sb : Superblock) (file : SbFile) (pool : BufferPool W) (meta : MetaDir) : CC :=
  mkCheckpointCoordinator config sb file pool meta (OidCounter_new (sb_next_oid sb)) (sb_next_txn_id sb) None None false false.

Definition set_pool (p : BufferPool W) (c : CC) : CC :=
  mkCheckpointCoordinator (cc_config c) (cc_superblock c) (cc_sb_file c) p (cc_meta c) (cc_next_oid_source c) (cc_next_txn_id_source c)
    (cc_clog_flush c) (cc_att_provider c) (cc_shutdown c) (cc_background_handle c).
Definition set_meta (d : MetaDir) (c : CC) : CC :=
  mkCheckpointCoordinator (cc_config c) (cc_superblock c) (cc_sb_file c) (cc_buffer_pool c) d (cc_next_oid_source c) (cc_next_txn_id_source c)
    (cc_clog_flush c) (cc_att_provider c) (cc_shutdown c) (cc_background_handle c).
Definition set_sb (sb : Superblock) (file : SbFile) (c : CC) : CC :=
  mkCheckpointCoordinator (cc_config c) sb file (cc_buffer_pool c) (cc_meta c) (cc_next_oid_source c) (cc_next_txn_id_source c)
    (cc_clog_flush c) (cc_att_provider c) (cc_shutdown c) (cc_background_handle c).

Definition set_next_oid_source (source : Z) (c : CC) : CC :=
  mkCheckpointCoordinator (cc_config c) (cc_superblock c) (cc_sb_file c) (cc_buffer_pool c) (cc_meta c) source (cc_next_txn_id_source c)
    (cc_clog_flush c) (cc_att_provider c) (cc_shutdown c) (cc_background_handle c).
Definition set_next_txn_id_source (source : Z) (c : CC) : CC :=
  mkCheckpointCoordinator (cc_config c) (cc_superblock c) (cc_sb_file c) (cc_buffer_pool c) (cc_meta c) (cc_next_oid_source c) source
    (cc_clog_flush c) (cc_att_provider c) (cc_shutdown c) (cc_background_handle c).
Definition set_clog_flush (source : C) (c : CC) : CC :=
  mkCheckpointCoordinator (cc_config c) (cc_superblock c) (cc_sb_file c) (cc_buffer_pool c) (cc_meta c) (cc_next_oid_source c) (cc_next_txn_id_source c)
    (Some source) (cc_att_provider c) (cc_shutdown c) (cc_background_handle c).
Definition set_att_provider (provider : A) (c : CC) : CC :=
  mkCheckpointCoordinator (cc_config c) (cc_superblock c) (cc_sb_file c) (cc_buffer_pool c) (cc_meta c) (cc_next_oid_source c) (cc_next_txn_id_source c)
    (cc_clog_flush c) (Some provider) (cc_shutdown c) (cc_background_handle c).

Definition on_ck_pool {B : Type} (m : M (BufferPool W) StorageError B) : MC B := fun c =>
  let r := m (cc_buffer_pool c) in (fst r, set_pool (snd r) c).
Definition on_meta_dir {B : Type} (m : M MetaDir StorageError B) : MC B := fun c =>
  let r := m (cc_meta c) in (fst r, set_meta (snd r) c).
Definition of_ck_res {B : Type} (r : res StorageError B) : MC B := fun c => (r, c).

(** ** Phases *)

(** Phase 1, under the lock of the page allocator. *)
Definition checkpoint_reserve : MC (Lsn * FreelistMeta) :=
  let! begin_lsn := on_ck_pool (on_pool_wal (cw_reserve_and_append checkpoint_begin)) in
  mmodify (fun c => set_pool (set_checkpoint_lsn begin_lsn (cc_buffer_pool c)) c) ;!
  let! c := mget in
  mret (begin_lsn, pa_snapshot begin_lsn (bp_page_allocator (cc_buffer_pool c))).

(** [map_err] into [CheckpointFailed] *)
Definition as_failed {B : Type} (m : MC B) : MC B := mcatch m (fun _ => mthrow CheckpointFailed).

Definition write_snapshot_file (name : string) (body : list Z) : MC unit :=
  as_failed (on_meta_dir (write_atomic name (le_bytes 4 (crc32 body) ++ body))).

(** Phase 2a: the transaction and dirty-page tables, on disk before any page. *)
Definition checkpoint_snapshots (begin_lsn : Lsn) : MC unit :=
  let! c := mget in
  let att := match cc_att_provider c with Some p => ap_active_xids p | None => [] end in
  let dpt := dirty_page_snapshot (cc_buffer_pool c) in
  write_snapshot_file (snapshot_name "att-" begin_lsn) (enc_att att) ;!
  write_snapshot_file (snapshot_name "dpt-" begin_lsn) (enc_dpt dpt).

(** Phase 2, for one page: a page evicted in the meantime is durable already. *)
Definition flush_for_checkpoint (page_id : PageId) : MC unit :=
  mcatch (on_ck_pool (BufferPool_flush page_id))
    (fun e => match e with PageNotFound _ => mret tt | _ => mthrow CheckpointFailed end).

Fixpoint flush_all (pages : list PageId) : MC unit :=
  match pages with
  | [] => mret tt
  | page_id :: pages => flush_for_checkpoint page_id ;! flush_all pages
  end.

Definition checkpoint_flush_pages : MC unit :=
  let! c := mget in flush_all (BufferPool_dirty_page_ids (cc_buffer_pool c)).

Definition checkpoint_flush_clog : MC unit := fun c =>
  match cc_clog_flush c with
  | None => (Ok tt, c)
  | Some clog =>
      let r := cf_flush_dirty clog in
      (match fst r with Ok _ => Ok tt | Err _ => Err CheckpointFailed | Panic => Panic end, set_clog_flush (snd r) c)
  end.

(** Phase 3: the end record, durable before the superblock names the checkpoint.
    The result holds the values the record and the superblock share. *)
Definition checkpoint_end_record (begin_lsn : Lsn) : MC Superblock :=
  let! c := mget in
  let sb := cc_superblock c in
  let new_sb := mkSuperblock (sb_version sb) (sb_page_size sb) begin_lsn (next_page_id (bp_page_allocator (cc_buffer_pool c)))
    (TxnIdClock_current (cc_next_txn_id_source c)) (OidCounter_current (cc_next_oid_source c)) (sb_created_at sb) in
  let! end_record := of_ck_res (checkpoint_end begin_lsn (sb_next_page_id new_sb) (sb_next_txn_id new_sb) (sb_next_oid new_sb)
    (rel_path (snapshot_name "att-" begin_lsn)) (rel_path (snapshot_name "dpt-" begin_lsn))) in
  let! end_lsn := on_ck_pool (on_pool_wal (pw_append end_record)) in
  on_ck_pool (on_pool_wal (pl_flush_to end_lsn)) ;!
  mret new_sb.

(** A failure to write the freelist snapshot is logged and ignored. *)
Definition checkpoint_freelist (snap : FreelistMeta) : MC unit :=
  mcatch (on_meta_dir (write_atomic "freelist.meta" (FreelistMeta_encode crc32 snap))) (fun _ => mret tt).

(** The in-memory superblock is updated first, then written. *)
Definition checkpoint_superblock (new_sb : Superblock) : MC unit := fun c =>
  let r := Superblock_write crc32 new_sb (cc_sb_file c) in (fst r, set_sb new_sb (snd r) c).

(** ** Old snapshot files *)

(** [read_dir]: the entries that can be read and parsed. *)
Fixpoint list_snapshots (names : list string) : M MetaDir StorageError (list (Z * string)) := fun d =>
  match names with
  | [] => (Ok [], d)
  | name :: names =>
      let o := md_outcome d in
      match list_snapshots names (md_set (md_files d) d) with
      | (Ok rest, d) =>
          (Ok (match o, parse_snapshot_file_lsn name with
               | Done, Some lsn => (lsn, name) :: rest
               | _, _ => rest
               end), d)
      | r => r
      end
  end.

(** The newest distinct LSNs, in descending order. *)
Definition newest_lsns (lsns : list Z) : list Z :=
  take RETAINED_SNAPSHOT_CHECKPOINTS (reverse (zsort (remove_dups lsns))).

(** Removes what is not kept; counts the files that went. *)
Fixpoint remove_old (keep : list Z) (snapshots : list (Z * string)) : M MetaDir StorageError nat := fun d =>
  match snapshots with
  | [] => (Ok O, d)
  | (lsn, name) :: snapshots =>
      if bool_decide (lsn ∈ keep) then remove_old keep snapshots d
      else
        match md_outcome d with
        | Done =>
            match remove_old keep snapshots (md_set (delete name (md_files d)) d) with
            | (Ok n, d) => (Ok (S n), d)
            | r => r
            end
        | Fails _ => remove_old keep snapshots (md_set (md_files d) d)
        end
  end.

(** After the directory could be opened. *)
Definition prune_listed (current_checkpoint_lsn : Lsn) : M MetaDir StorageError unit :=
  let! d := mget in
  let! snapshots := list_snapshots (map_to_list (md_files d)).*1 in
  let keep := current_checkpoint_lsn :: newest_lsns (snapshots.*1) in
  let! removed := remove_old keep snapshots in
  if (removed =? 0)%nat then mret tt else mcatch (md_call id) (fun _ => mret tt).

Definition prune_snapshot_files : MC unit := fun c =>
  match md_call id (cc_meta c) with
  | (Ok _, d) =>
      let r := prune_listed (sb_checkpoint_lsn (cc_superblock c)) d in (fst r, set_meta (snd r) c)
  | (_, d) => (Ok tt, set_meta d c)
  end.

(** ** One checkpoint *)

(** What follows the reservation. *)
Definition checkpoint_rest (begin : Lsn * FreelistMeta) : MC Lsn :=
  let begin_lsn := fst begin in
  checkpoint_snapshots begin_lsn ;!
  checkpoint_flush_pages ;!
  checkpoint_flush_clog ;!
  let! new_sb := checkpoint_end_record begin_lsn in
  checkpoint_freelist (snd begin) ;!
  checkpoint_superblock new_sb ;!
  on_ck_pool (on_pool_wal (cw_recycle_before begin_lsn)) ;!
  prune_snapshot_files ;!
  mret begin_lsn.

Definition trigger_checkpoint : MC Lsn :=
  let! begin := checkpoint_reserve in checkpoint_rest begin.

(** ** The background thread *)

Definition TICK_MS : Z := 100.

(** The sleep before one checkpoint, in small chunks; [flags] are the values of the
    shutdown flag as it is read, call after call.  [true]: the interval is over. *)
Fixpoint background_sleep (flags : list bool) (interval_ms elapsed : Z) : bool :=
  match flags with
  | [] => false
  | f :: flags =>
      if elapsed <? interval_ms then
        if f then false else background_sleep flags interval_ms (elapsed + Z.min TICK_MS (interval_ms - elapsed))
      else negb f
  end.

Definition set_background (b : bool) (c : CC) : CC :=
  mkCheckpointCoordinator (cc_config c) (cc_superblock c) (cc_sb_file c) (cc_buffer_pool c) (cc_meta c) (cc_next_oid_source c) (cc_next_txn_id_source c)
    (cc_clog_flush c) (cc_att_provider c) (cc_shutdown c) b.

Definition set_shutdown (c : CC) : CC :=
  mkCheckpointCoordinator (cc_config c) (cc_superblock c) (cc_sb_file c) (cc_buffer_pool c) (cc_meta c) (cc_next_oid_source c) (cc_next_txn_id_source c)
    (cc_clog_flush c) (cc_att_provider c) true (cc_background_handle c).

(** [spawned]: whether the thread could be started.  If not, the clone that was
    meant for it is dropped, and its [Drop] sets the shared shutdown flag. *)
Definition start_background_checkpointing (spawned : bool) : MC unit := fun c =>
  if cf_checkpoint_interval_ms (cc_config c) =? 0 then (Ok tt, c)
  else if cc_background_handle c then (Err InvalidConfig, c)
  else if spawned then (Ok tt, set_background true c) else (Err Io, set_shutdown c).

Definition ck_shutdown (c : CC) : CC := if cc_shutdown c then c else set_background false (set_shutdown c).

End coordinator.
