(* ===== verification/CheckpointSafe.v ===== *)
(** * What a checkpoint guarantees

    The superblock on disk moves to a new checkpoint only when everything recovery
    no longer replays is on disk; a checkpoint that fails leaves the old one in
    force; the snapshot files it names read back as they were taken. *)

From stdpp Require Import strings.
From S2P Require Import Prelude Types WalRecord WalSegment Config PageAllocator Superblock Recovery BufferPool PoolSafe Analysis Checkpoint.
Local Open Scope Z_scope.
Local Open Scope rust_scope.

(** A sequence fails in its first part, or in the second after the first. *)
Lemma mbindM_err {S E X Y} (m : M S E X) (k : X -> M S E Y) s e s' :
  mbindM m k s = (Err e, s') -> m s = (Err e, s') \/ exists a s1, m s = (Ok a, s1) /\ k a s1 = (Err e, s').
Proof. unfold mbindM. destruct (m s) as [[a|e'|] s1]; intros H; [right; eauto|left; by injection H as -> ->|done]. Qed.

(** ** Flushing one page with nobody else at work *)

Section flush.
Context {BC : Bincode} {W : Type} {PW : PageWal W} {PL : PoolWal W} {PLL : PoolWalLaws W}.
Abbreviation BP := (BufferPool W).
Implicit Types (s : BP).

(** The log reports no missing page, its positions are 64-bit numbers, and of the
    calls a checkpoint makes only the appends add to the records appended so far
    ([pw_log] is that history; recycling removes old files, not history). *)
Class CheckpointWalLaws `{CheckpointWal W} := {
  cl_flush_not_page lsn w p : fst (pl_flush_to lsn w) <> Err (PageNotFound p);
  cl_reserve_u64 rec w l w' : cw_reserve_and_append rec w = (Ok l, w') -> in_u 64 l;
  cl_reserve_log rec w l w' : cw_reserve_and_append rec w = (Ok l, w') -> pw_log w' = pw_log w ++ [set_lsn l rec];
  cl_flush_log lsn w : pw_log (snd (pl_flush_to lsn w)) = pw_log w;
  cl_recycle_log lsn w : pw_log (snd (cw_recycle_before lsn w)) = pw_log w;
  cl_recycle_mono lsn w : pl_synced_lsn w <= pl_synced_lsn (snd (cw_recycle_before lsn w));
}.
Context {CW : CheckpointWal W} {CWL : CheckpointWalLaws}.

(** Actions that touch no frame but [f]. *)
Definition only_frame {A} (f : nat) (m : M BP StorageError A) : Prop :=
  forall s r s' i, m s = (r, s') -> i <> f -> bp_frames s' !! i = bp_frames s !! i.

Lemma only_bind {A B} f (m : M BP StorageError A) (k : A -> M BP StorageError B) :
  only_frame f m -> (forall a, only_frame f (k a)) -> only_frame f (mbindM m k).
Proof.
  intros Hm Hk s r s' i H Hi. unfold mbindM in H. destruct (m s) as [[a|e|] s1] eqn:E; [|injection H as <- <-; by eapply Hm..].
  rewrite (Hk a s1 r s' i H Hi). by eapply Hm.
Qed.

Lemma only_catch {A} f (m : M BP StorageError A) (h : StorageError -> M BP StorageError A) :
  only_frame f m -> (forall e, only_frame f (h e)) -> only_frame f (mcatch m h).
Proof.
  intros Hm Hh s r s' i H Hi. unfold mcatch in H. destruct (m s) as [[a|e|] s1] eqn:E; [injection H as <- <-; by eapply Hm| |injection H as <- <-; by eapply Hm].
  rewrite (Hh e s1 r s' i H Hi). by eapply Hm.
Qed.

Lemma only_same {A} f (m : M BP StorageError A) : (forall s, bp_frames (snd (m s)) = bp_frames s) -> only_frame f m.
Proof. intros Hm s r s' i H _. specialize (Hm s). rewrite H in Hm. cbn in Hm. by rewrite Hm. Qed.

Lemma only_on_meta f g : only_frame f (on_meta (W := W) f g).
Proof. intros s r s' i H Hi. unfold on_meta in H. rewrite on_frame_eq in H. injection H as <- <-. by rewrite upd_frame_lookup, decide_False by done. Qed.

Create HintDb frames discriminated.
Hint Resolve only_bind only_catch only_on_meta : frames.

Lemma flush_frame_only f : only_frame f (flush_frame f).
Proof.
  assert (Hfail : forall B saved e, only_frame f (flush_failed (A := B) f saved e)).
  { intros. apply only_bind; [auto with frames|]. intros. by apply only_same. }
  apply only_bind.
  { apply only_bind; [apply only_same; intros s; unfold frame_at; by destruct (_ !! _)|]. intros fr. cbv zeta. repeat (case_match; [by apply only_same|]).
    apply only_bind; [auto with frames|]. intros. by apply only_same. }
  intros [| |p saved]; [by apply only_same..|]. apply only_bind.
  { apply only_bind; [apply only_same; intros s; unfold frame_at; by destruct (_ !! _)|]. intros fr. cbv zeta. destruct (fr_latch fr); [|by apply only_same].
    apply only_bind; [by apply only_same|]. intros s0. apply only_bind; [case_match; [apply only_catch; [by apply only_same|auto]|by apply only_same]|]. intros _.
    apply only_bind; [apply only_catch; [by apply only_same|auto]|]. intros _. apply only_bind; [by apply only_same|]. intros _.
    apply only_bind; [auto with frames|]. intros _. apply only_bind; [by apply only_same|]. intros. by apply only_same. }
  intros g. apply only_bind; [by apply only_same|]. intros s0. apply only_bind; [|intros; unfold flush_finish; auto with frames].
  case_match; [|by apply only_same]. apply only_bind; [apply only_catch; [by apply only_same|auto]|]. intros. by apply only_same.
Qed.

(** Actions that append no record to the log. *)
Definition log_kept {A} (m : M BP StorageError A) : Prop := forall s, pw_log (bp_wal (snd (m s))) = pw_log (bp_wal s).

Lemma log_bind {A B} (m : M BP StorageError A) (k : A -> M BP StorageError B) :
  log_kept m -> (forall a, log_kept (k a)) -> log_kept (mbindM m k).
Proof. intros Hm Hk s. unfold mbindM. specialize (Hm s). destruct (m s) as [[a|e|] s1]; cbn in *; [by rewrite Hk|done..]. Qed.

Lemma log_catch {A} (m : M BP StorageError A) (h : StorageError -> M BP StorageError A) :
  log_kept m -> (forall e, log_kept (h e)) -> log_kept (mcatch m h).
Proof. intros Hm Hh s. unfold mcatch. specialize (Hm s). destruct (m s) as [[a|e|] s1]; cbn in *; [done|by rewrite Hh|done]. Qed.

Lemma log_wal_flush lsn : log_kept (on_pool_wal (pl_flush_to lsn)).
Proof. intros s. unfold on_pool_wal. cbn. apply cl_flush_log. Qed.

Lemma log_frame_at f : log_kept (frame_at (W := W) f).
Proof. intros s. unfold frame_at. by destruct (_ !! _). Qed.

Lemma flush_frame_log f : log_kept (flush_frame f).
Proof.
  assert (Hfail : forall B saved e, log_kept (flush_failed (A := B) f saved e)) by (intros; by apply log_bind).
  apply log_bind.
  { apply log_bind; [apply log_frame_at|]. intros fr. cbv zeta. repeat (case_match; [done|]). by apply log_bind. }
  intros [| |p saved]; [done..|]. apply log_bind.
  { apply log_bind; [apply log_frame_at|]. intros fr. cbv zeta. destruct (fr_latch fr); [|done].
    apply log_bind; [done|]. intros s0. apply log_bind; [case_match; [apply log_catch; [apply log_wal_flush|auto]|done]|]. intros _.
    apply log_bind; [by apply log_catch|]. intros _. apply log_bind; [done|]. intros _.
    apply log_bind; [done|]. intros _. by apply log_bind. }
  intros g. apply log_bind; [done|]. intros s0. apply log_bind; [|done].
  case_match; [|done]. apply log_bind; [by apply log_catch|done].
Qed.

Lemma pool_flush_log p : log_kept (BufferPool_flush p).
Proof.
  unfold BufferPool_flush. case_match; [done|]. apply log_bind; [done|]. intros s0. case_match; [apply flush_frame_log|done].
Qed.

(** The flush of a dirty page ends with an fsync of the whole file. *)
Lemma flush_frame_synced f s s' fr : bp_frames s !! f = Some fr -> fm_dirty (fr_meta fr) = true -> fm_page_id (fr_meta fr) <> PageId_INVALID ->
  0 <= bp_synced_gen s <= bp_flush_gen s -> bp_flush_gen s + 1 < 2 ^ 64 -> flush_frame f s = (Ok tt, s') ->
  df_stable (bp_data_file s') = df_data (bp_data_file s').
Proof.
  intros Hf Hd Hp Hg Hlt H. unfold flush_frame in H. apply mbindM_ok in H as (c & s1 & Hc & H).
  unfold flush_claim in Hc. apply mbindM_ok in Hc as (fr0 & s0 & Hfr & Hc). unfold frame_at in Hfr. rewrite Hf in Hfr. injection Hfr as <- <-.
  cbv zeta in Hc. destruct (fm_flushing (fr_meta fr)); [injection Hc as <- <-; discriminate H|]. rewrite Hd, (proj2 (Z.eqb_neq _ _) Hp) in Hc. cbn [negb orb] in Hc.
  unfold mbindM, on_meta in Hc. rewrite on_frame_eq in Hc. injection Hc as <- <-.
  apply mbindM_ok in H as (g & s2 & Hw & H). apply mbindM_ok in H as (s3 & s4 & Hget & H). injection Hget as <- <-.
  assert (Hgen : g = bp_flush_gen s + 1 /\ bp_synced_gen s2 = bp_synced_gen s).
  { unfold flush_write in Hw. apply mbindM_ok in Hw as (fr1 & s5 & Hfr1 & Hw). unfold frame_at in Hfr1. rewrite upd_frame_lookup, decide_True, Hf in Hfr1 by done.
    injection Hfr1 as <- <-. cbn [fr_latch] in Hw. destruct (fr_latch fr); [|discriminate Hw]. cbv zeta in Hw. apply mbindM_ok in Hw as (s6 & s7 & Hget & Hw). injection Hget as <- <-.
    apply mbindM_ok in Hw as ([] & s8 & H8 & Hw). apply mbindM_ok in Hw as ([] & s9 & H9 & Hw). apply mbindM_ok in Hw as ([] & s10 & H10 & Hw).
    apply mbindM_ok in Hw as ([] & s11 & H11 & Hw). injection H10 as <-. unfold on_meta in H11. rewrite on_frame_eq in H11. injection H11 as <-.
    unfold mbindM, mget, mret in Hw. injection Hw as <- <-.
    assert (E8 : bp_flush_gen s8 = bp_flush_gen s /\ bp_synced_gen s8 = bp_synced_gen s).
    { destruct (_ && _) in H8; [|by injection H8 as <-]. unfold mcatch, on_pool_wal in H8. destruct (pl_flush_to _ _) as [[[]|e|] w]; cbn [fst] in H8; [by injection H8 as <-|done|done]. }
    assert (E9 : bp_flush_gen s9 = bp_flush_gen s8 /\ bp_synced_gen s9 = bp_synced_gen s8).
    { unfold mcatch, on_data in H9. destruct (pf_write_all_at _ _ _) as [[[]|e|] d]; cbn [fst] in H9; [by injection H9 as <-|done|done]. }
    cbn. rewrite wrap64_small by lia. split; [lia|]. destruct E8, E9. congruence. }
  destruct Hgen as [-> Hsg]. unfold flush_covered in H. rewrite Hsg, (proj2 (Z.ltb_lt _ _)) in H by lia.
  apply mbindM_ok in H as ([] & s5 & Hs & H). apply mbindM_ok in Hs as ([] & s6 & Hs & Hpub). injection Hpub as <-.
  unfold flush_finish, on_meta in H. rewrite on_frame_eq in H. injection H as <-. unfold flush_sync, mcatch, on_data in Hs.
  destruct (pf_sync_all (bp_data_file s2)) as [[[]|e|] d] eqn:Es; cbn [fst snd] in Hs; [|done..]. injection Hs as <-. cbn.
  unfold pf_sync_all in Es. apply mbindM_ok in Es as ([] & d1 & _ & Es). by injection Es as <-.
Qed.

(** The errors of a flush are those of the log and of the data file. *)
Lemma flush_frame_error f s e s' : flush_frame f s = (Err e, s') -> e = Io \/ exists lsn w, fst (pl_flush_to lsn w) = Err e.
Proof.
  assert (Hcall : forall d e, fst (BufferPool.data_call d) = Err e -> e = Io) by (intros d e'; unfold BufferPool.data_call; cbn; by case_match; intros [= <-]).
  intros H. unfold flush_frame in H. apply mbindM_err in H as [H|(c & s1 & Hc & H)].
  { unfold flush_claim, frame_at in H. apply mbindM_err in H as [H|(fr & s1 & _ & H)]; [by destruct (bp_frames s !! f)|].
    cbv zeta in H. destruct (fm_flushing _); [done|]. destruct (_ || _); [done|]. done. }
  destruct c as [| |p saved]; [done..|]. apply mbindM_err in H as [H|(g & s2 & Hw & H)].
  { unfold flush_write in H. apply mbindM_err in H as [H|(fr & s2 & _ & H)]; [unfold frame_at in H; by destruct (bp_frames s1 !! f)|]. cbv zeta in H.
    destruct (fr_latch fr); [|done]. apply mbindM_err in H as [H|(s3 & s4 & _ & H)]; [done|]. apply mbindM_err in H as [H|([] & s5 & _ & H)].
    { destruct (_ && _) in H; [|done]. unfold mcatch, on_pool_wal in H. destruct (pl_flush_to _ _) as [[[]|e0|] w] eqn:E; cbn [fst snd] in H; [done| |done].
      rewrite flush_failed_eq in H. injection H as <- <-. right. eexists _, _. by rewrite E. }
    apply mbindM_err in H as [H|([] & s6 & _ & H)]; [|done]. left. unfold mcatch, on_data, pf_write_all_at in H.
    destruct (hd None _); cbn [fst snd] in H; [|done]. rewrite flush_failed_eq in H. by injection H as <- <-. }
  apply mbindM_err in H as [H|(s3 & s4 & _ & H)]; [done|]. apply mbindM_err in H as [H|([] & s5 & _ & H)]; [|done]. left.
  destruct (flush_covered g s3); [|done]. apply mbindM_err in H as [H|([] & s5 & _ & H)]; [|done]. unfold flush_sync, mcatch, on_data in H.
  destruct (pf_sync_all _) as [[[]|e0|] d] eqn:E; cbn [fst snd] in H; [done| |done]. rewrite flush_failed_eq in H. injection H as <- <-.
  unfold pf_sync_all in E. apply mbindM_err in E as [E|([] & d1 & _ & E)]; [|done]. eapply Hcall. by rewrite E.
Qed.

(** A page is durable, or a dirty frame holds it. *)
Definition durable s (p : PageId) : Prop := disk_page (df_stable (bp_data_file s)) p = view s p.
Definition dirty_in s (p : PageId) : Prop := exists f fr, bp_frames s !! f = Some fr /\ fm_page_id (fr_meta fr) = p /\ fm_dirty (fr_meta fr) = true.
Definition settled s : Prop := forall p, page_valid (df_data (bp_data_file s)) p -> dirty_in s p \/ durable s p.

(** The state of a flush pass: only pages of [l] are still dirty. *)
Record flushing (l : list PageId) s : Prop := {
  fg_inv : pool_inv None ∅ s;
  fg_settled : settled s;
  fg_dirty p : dirty_in s p -> p ∈ l;
}.

Lemma clean_view s p : pool_inv None ∅ s -> ~ dirty_in s p -> view s p = disk_page (df_data (bp_data_file s)) p.
Proof.
  intros Hi Hc. unfold view. destruct (table_get p s) as [f|] eqn:Et; [|done]. apply (pi_table _ _ _ Hi) in Et as (Hp & fr & Hf & Hpf). rewrite Hf.
  pose proof (pi_frames _ _ _ Hi _ _ Hf) as Hok. rewrite <-Hpf. apply (fo_clean _ _ _ _ Hok); [congruence| |by intros x; rewrite lookup_empty].
  destruct (fm_dirty (fr_meta fr)) eqn:Ed; [|done]. destruct Hc. by exists f, fr.
Qed.

Lemma synced_settled s : pool_inv None ∅ s -> df_stable (bp_data_file s) = df_data (bp_data_file s) -> settled s.
Proof.
  intros Hi Hs p _. destruct (table_get p s) as [f|] eqn:Et.
  - pose proof Et as (Hp & fr & Hf & Hpf)%(pi_table _ _ _ Hi). destruct (fm_dirty (fr_meta fr)) eqn:Ed; [left; by exists f, fr|]. right.
    unfold durable. rewrite Hs. symmetry. apply clean_view; [done|]. intros (f2 & fr2 & Hf2 & Hp2 & Hd2).
    assert (f2 = f) as -> by (eapply inv_unique; [done|exact Hf2|exact Hf|congruence|congruence]). congruence.
  - right. unfold durable, view. by rewrite Et, Hs.
Qed.

Lemma flush_page_spec p l s r s' : flushing (p :: l) s -> bp_flush_gen s + 1 < 2 ^ 64 -> BufferPool_flush p s = (r, s') ->
  match r with
  | Ok _ | Err (PageNotFound _) => flushing l s' /\ kept s s' /\ (forall q, view s' q = view s q) /\ bp_flush_gen s' <= bp_flush_gen s + 1
  | _ => True
  end.
Proof.
  intros [Hi Hs Hd] Hg H. unfold BufferPool_flush in H. destruct (Z.eqb_spec p PageId_INVALID) as [->|Hp]; [by injection H as <- <-|].
  unfold mbindM, mget in H. destruct (table_get p s) as [f|] eqn:Et.
  2: { injection H as <- <-. split; [|split; [done|split; [done|lia]]]. split; [done|done|]. intros q Hq. apply Hd in Hq as Hin.
       apply elem_of_cons in Hin as [->|]; [|done]. destruct Hq as (f & fr & Hf & Hpf & _). assert (Ht : table_get p s = Some f) by (apply (pi_table _ _ _ Hi); eauto). congruence. }
  pose proof Et as (_ & fr & Hf & Hpf)%(pi_table _ _ _ Hi).
  assert (Hw : fr_latch fr = Writer -> match r with Ok _ | Err (PageNotFound _) => False | _ => True end).
  { intros Hw. assert (Hdf : fm_dirty (fr_meta fr) = true) by (by apply (fo_writer _ _ _ _ (pi_frames _ _ _ Hi _ _ Hf))).
    unfold flush_frame, flush_claim, mbindM at 1, mbindM at 1, frame_at in H. rewrite Hf in H.
    rewrite (fo_flushing _ _ _ _ (pi_frames _ _ _ Hi _ _ Hf)), lookup_empty in H. rewrite bool_decide_false in H by (by intros []).
    rewrite Hdf, Hpf, (proj2 (Z.eqb_neq _ _) Hp) in H. cbn [negb orb] in H. unfold mbindM at 1, on_meta, mret at 1 in H. rewrite on_frame_eq in H.
    unfold mbindM at 1, flush_write, mbindM at 1, frame_at in H. rewrite upd_frame_lookup, decide_True, Hf in H by done. cbn in H. rewrite Hw in H. by injection H as <- <-. }
  destruct (fr_latch fr) as [n|] eqn:El; [|by specialize (Hw eq_refl); destruct r as [|[]|]]. clear Hw.
  assert (Hspec : flush_outcome (Some (f, false)) ∅ s f fr r s').
  { eapply flush_frame_spec; [by apply inv_own_take|apply lookup_empty|done|congruence| |done|done]. unfold own. by rewrite decide_True. }
  destruct Hspec as (Hi' & Hk & Hv & _ & Hgen & fr' & Hf' & Hr). apply inv_own_drop in Hi'; [|done|apply lookup_empty].
  assert (Hothers : forall q, dirty_in s' q -> q = p \/ dirty_in s q).
  { intros q (i & fri & Hfi & Hqi & Hdi). destruct (decide (i = f)) as [->|Hne].
    - left. rewrite Hf' in Hfi. injection Hfi as <-. destruct (kept_frame _ _ _ _ Hk Hf) as (fr2 & Hf2 & Hkey). rewrite Hf' in Hf2. injection Hf2 as <-.
      unfold frame_key in Hkey. injection Hkey as Hkey _ _ _ _. congruence.
    - right. exists i, fri. by rewrite <-(flush_frame_only f s r s' i H Hne). }
  destruct r as [[]|e|]; [|destruct e; try done|done].
  - destruct Hr as [Hclean _]. split; [|split; [done|split; [done|lia]]].
    assert (Hnp : ~ dirty_in s' p).
    { intros (i & fri & Hfi & Hqi & Hdi). assert (Ht : table_get p s' = Some i) by (apply (pi_table _ _ _ Hi'); eauto).
      rewrite (kept_table_get _ _ _ Hk), Et in Ht. injection Ht as <-. congruence. }
    split; [done| |].
    + destruct (fm_dirty (fr_meta fr)) eqn:Ed.
      * apply synced_settled; [done|]. apply (flush_frame_synced f s s' fr Hf Ed); [congruence|apply (pi_gens _ _ _ Hi)|done|done].
      * unfold flush_frame, flush_claim, mbindM at 1, mbindM at 1, frame_at in H. rewrite Hf, Ed in H.
        rewrite (fo_flushing _ _ _ _ (pi_frames _ _ _ Hi _ _ Hf)), lookup_empty in H. rewrite bool_decide_false in H by (by intros []). by injection H as <-.
    + intros q Hq. destruct (Hothers q Hq) as [->|Hq']; [done|]. apply Hd in Hq'. apply elem_of_cons in Hq' as [->|]; [done|done].
  - exfalso. apply flush_frame_error in H as [H|(lsn & w & H)]; [done|]. by apply cl_flush_not_page in H.
Qed.

End flush.

(** ** Names *)

Lemma all_digits_loop s : forall acc n, dec_loop acc s = Some n -> all_digits s = true.
Proof. induction s as [|a s IH]; intros acc n H; [done|]. cbn [dec_loop all_digits] in *. destruct (digit_val a); [|done]. case_if H. by eapply IH. Qed.

Lemma parse_fmt016 n : in_u 64 n -> parse_u64 (fmt016 n) = Some n /\ all_digits (fmt016 n) = true /\ String.eqb (fmt016 n) EmptyString = false.
Proof.
  intros Hn. pose proof (parse_padded (16 - String.length (dec_digits 20 n EmptyString)) n Hn) as Hp. fold (fmt016 n) in Hp.
  split; [done|]. unfold fmt016 in *. destruct (dec_digits_head 20 n EmptyString) as (d & t & Hd & Hr); [unfold in_u in *; lia|lia|].
  set (k := (16 - _)%nat) in *. clearbody k. rewrite Hd in *. destruct k as [|k]; cbn [zero_pad parse_u64] in *;
    rewrite digit_not_plus in Hp by lia; (split; [by eapply all_digits_loop|done]).
Qed.

(** The two kinds of snapshot. *)
Definition kind_ok (kind : string) : Prop := kind = "att-"%string \/ kind = "dpt-"%string.

Lemma parse_snapshot_name kind lsn : kind_ok kind -> in_u 64 lsn -> parse_snapshot_file_lsn (snapshot_name kind lsn) = Some lsn.
Proof.
  intros Hk Hl. destruct (parse_fmt016 lsn Hl) as (H1 & H2 & H3). unfold parse_snapshot_file_lsn, snapshot_name.
  assert (Hr : match strip_prefix "att-" (String.app kind (String.app (fmt016 lsn) ".snapshot")) with
               | Some rest => Some rest | None => strip_prefix "dpt-" (String.app kind (String.app (fmt016 lsn) ".snapshot")) end
               = Some (String.app (fmt016 lsn) ".snapshot")) by (by destruct Hk as [->| ->]).
  rewrite Hr, strip_suffix_app, H2, H3. done.
Qed.

Lemma rel_path_inj n1 n2 : rel_path n1 = rel_path n2 -> n1 = n2.
Proof.
  unfold rel_path. intros H. apply (list_fmap_eq_inj (fun a => Z.of_N (Ascii.N_of_ascii a))) in H.
  2: { intros a b E. apply N2Z.inj in E. rewrite <-(Ascii.ascii_N_embedding a), <-(Ascii.ascii_N_embedding b). by f_equal. }
  apply (f_equal String.string_of_list_ascii) in H. rewrite !String.string_of_list_ascii_of_string in H. by injection H.
Qed.

(** ** Atomic writes *)

Lemma md_call_files f d r d' : md_call f d = (r, d') -> md_files d' = (match r with Ok _ => f (md_files d) | _ => md_files d end) /\ r <> Panic.
Proof. unfold md_call. destruct (md_outcome d); by intros [= <- <-]. Qed.

(** On success the file has its contents; on failure no other file changed but the
    temporary one. *)
Lemma write_atomic_spec name contents d r d' : write_atomic name contents d = (r, d') ->
  (r = Ok tt -> md_files d' !! name = Some contents) /\
  (forall n, n <> name -> n <> tmp_name name -> md_files d' !! n = md_files d !! n) /\ r <> Panic.
Proof.
  unfold write_atomic, mbindM. intros H.
  destruct (md_call id d) as [r1 d1] eqn:E1. apply md_call_files in E1 as [F1 P1]. destruct r1 as [[]|e|]; [|injection H as <- <-; (split; [done|]); (split; [intros; by rewrite F1|done])|done].
  destruct (md_call _ d1) as [r2 d2] eqn:E2. apply md_call_files in E2 as [F2 P2]. destruct r2 as [[]|e|]; [|injection H as <- <-; (split; [done|]); (split; [intros; by rewrite F2, F1|done])|done].
  destruct (md_write_all _ _ d2) as [r3 d3] eqn:E3. unfold md_write_all in E3.
  assert (F3 : exists x, md_files d3 = <[tmp_name name := x]> (md_files d2) /\ (r3 = Ok tt -> x = contents) /\ r3 <> Panic).
  { destruct (md_outcome d2); injection E3 as <- <-; cbn; eexists; by split_and!. }
  destruct F3 as (x & F3 & Hx & P3). destruct r3 as [[]|e|]; [|injection H as <- <-|done].
  2: { split; [done|]. split; [|done]. intros n Hn Ht. by rewrite F3, F2, !lookup_insert_ne, F1 by done. }
  rewrite Hx in F3 by done. clear Hx. destruct (md_call id d3) as [r4 d4] eqn:E4. apply md_call_files in E4 as [F4 P4].
  assert (Hn3 : forall n, n <> tmp_name name -> md_files d3 !! n = md_files d !! n) by (intros n Ht; by rewrite F3, F2, !lookup_insert_ne, F1 by done).
  destruct r4 as [[]|e|]; [|injection H as <- <-|done].
  2: { split; [done|]. split; [|done]. intros n _ Ht. rewrite F4. by apply Hn3. }
  destruct (md_call _ d4) as [r5 d5] eqn:E5. apply md_call_files in E5 as [F5 P5]. destruct r5 as [[]|e|]; [|injection H as <- <-|done].
  2: { split; [done|]. split; [|done]. intros n _ Ht. rewrite F5, F4. by apply Hn3. }
  apply md_call_files in H as [F6 P6]. assert (F6' : md_files d' = md_files d5) by (by destruct r). clear F6.
  rewrite F6', F5. unfold rename_file, id in *. split; [|split; [|done]].
  - intros _. rewrite lookup_insert_eq, F4, F3, lookup_insert_eq. done.
  - intros n Hn Ht. rewrite lookup_insert_ne, lookup_delete_ne, F4 by done. by apply Hn3.
Qed.

(** ** Pruning *)

Lemma list_snapshots_spec names : forall d, exists l d', list_snapshots names d = (Ok l, d') /\ md_files d' = md_files d /\
  forall lsn n, (lsn, n) ∈ l -> n ∈ names /\ parse_snapshot_file_lsn n = Some lsn.
Proof.
  induction names as [|n names IH]; intros d; cbn [list_snapshots].
  - exists [], d. split; [done|]. split; [done|]. intros lsn n Hin. by apply not_elem_of_nil in Hin.
  - destruct (IH (md_set (md_files d) d)) as (l & d' & -> & Hf & Hl). eexists _, d'. split; [done|]. split; [done|]. intros lsn m Hin.
    destruct (md_outcome d); [destruct (parse_snapshot_file_lsn n) as [x|] eqn:E|].
    + apply elem_of_cons in Hin as [[= -> ->]|Hin]; [split; [by apply list_elem_of_here|done]|]. apply Hl in Hin as []. split; [by apply elem_of_cons; right|done].
    + apply Hl in Hin as []. split; [by apply elem_of_cons; right|done].
    + apply Hl in Hin as []. split; [by apply elem_of_cons; right|done].
Qed.

Lemma remove_old_spec keep l : forall d, exists n d', remove_old keep l d = (Ok n, d') /\
  forall m, md_files d' !! m = md_files d !! m \/ md_files d' !! m = None /\ exists lsn, (lsn, m) ∈ l /\ lsn ∉ keep.
Proof.
  induction l as [|[lsn n] l IH]; intros d; cbn [remove_old].
  - exists O, d. split; [done|]. by left.
  - case_bool_decide as Hk.
    + destruct (IH d) as (cnt & d' & -> & Hd). exists cnt, d'. split; [done|]. intros m. destruct (Hd m) as [|[? (x & ? & ?)]]; [by left|right].
      split; [done|]. exists x. split; [by apply elem_of_cons; right|done].
    + destruct (md_outcome d).
      * destruct (IH (md_set (delete n (md_files d)) d)) as (cnt & d' & -> & Hd). exists (S cnt), d'. split; [done|]. intros m.
        destruct (Hd m) as [E|[? (x & ? & ?)]]; [|right; split; [done|]; exists x; split; [by apply elem_of_cons; right|done]].
        cbn in E. destruct (decide (m = n)) as [->|Hne]; [|left; by rewrite E, lookup_delete_ne]. right. rewrite lookup_delete_eq in E. split; [done|].
        exists lsn. split; [by apply list_elem_of_here|done].
      * destruct (IH (md_set (md_files d) d)) as (cnt & d' & -> & Hd). exists cnt, d'. split; [done|]. intros m. destruct (Hd m) as [|[? (x & ? & ?)]]; [by left|right].
        split; [done|]. exists x. split; [by apply elem_of_cons; right|done].
Qed.

(** What falls out of the window is older than everything in it. *)
Lemma newest_greater l x : x ∈ l -> x ∉ newest_lsns l ->
  length (newest_lsns l) = RETAINED_SNAPSHOT_CHECKPOINTS /\ NoDup (newest_lsns l) /\ forall y, y ∈ newest_lsns l -> y ∈ l /\ x < y.
Proof.
  intros Hx Hn. unfold newest_lsns in *. set (s := zsort (remove_dups l)) in *.
  assert (Hin : forall y, y ∈ s <-> y ∈ l) by (intros y; unfold s; by rewrite elem_of_zsort, elem_of_remove_dups).
  assert (Hnd : NoDup s) by (unfold s; rewrite zsort_perm; apply NoDup_remove_dups).
  assert (Hs : StronglySorted Z.le s) by apply zsort_sorted.
  pose proof (reverse_involutive s) as Hrev. rewrite <-(take_drop RETAINED_SNAPSHOT_CHECKPOINTS (reverse s)), reverse_app in Hrev.
  set (new := take RETAINED_SNAPSHOT_CHECKPOINTS (reverse s)) in *. set (old := drop RETAINED_SNAPSHOT_CHECKPOINTS (reverse s)) in *.
  assert (Hxo : x ∈ old).
  { assert (Hxs : x ∈ s) by (by apply Hin). rewrite <-Hrev in Hxs. apply elem_of_app in Hxs as [Hxs|Hxs]; rewrite elem_of_reverse in Hxs; [done|by destruct Hn]. }
  assert (Hnr : NoDup (reverse s)) by (by rewrite reverse_Permutation). split; [|split].
  - assert (length old <> 0)%nat by (intros E; apply nil_length_inv in E; rewrite E in Hxo; by apply not_elem_of_nil in Hxo).
    unfold old, new in *. rewrite length_take. rewrite length_drop in *. lia.
  - eapply sublist_NoDup; [exact Hnr|apply sublist_take].
  - intros y Hy. split.
    + apply Hin. rewrite <-Hrev. apply elem_of_app. right. by apply elem_of_reverse.
    + rewrite <-Hrev in Hs. assert (x <= y) by (eapply (StronglySorted_app_1_elem_of Z.le); [exact Hs|by apply elem_of_reverse|by apply elem_of_reverse]).
      assert (x <> y) by congruence. lia.
Qed.

(** ** The coordinator *)

Section coordinator.
Context {BC : Bincode} {W : Type} {PW : PageWal W} {PWL : PageWalLaws W} {PL : PoolWal W} {PLL : PoolWalLaws W} {CW : CheckpointWal W} {CWL : CheckpointWalLaws (W := W)}.
Context {C : Type} {CF : ClogFlush C} {A : Type} {AP : AttProvider A}.
Variable crc32 : list Z -> Z.
Variable enc_att : list TxnId -> list Z.
Variable enc_dpt : list (PageId * Lsn) -> list Z.
Abbreviation CC := (CheckpointCoordinator W C A).
Abbreviation MC := (M CC StorageError).
Implicit Types (c : CC).

(** What a phase does when it does not stop: [m] ran to the end, or it stopped and
    left its state. *)
Lemma mbindM_inv {S E X Y} (m : M S E X) (k : X -> M S E Y) s r s' : mbindM m k s = (r, s') ->
  (exists a s1, m s = (Ok a, s1) /\ k a s1 = (r, s')) \/ snd (m s) = s' /\ forall y, r <> Ok y.
Proof. unfold mbindM. destruct (m s) as [[a|e|] s1]; intros H; [left; eauto|right; injection H as <- <-; done..]. Qed.

(** The parts a phase leaves alone. *)
Definition keeps {X B} (f : CC -> X) (m : MC B) : Prop := forall c, f (snd (m c)) = f c.

Lemma keeps_bind {X B D} (f : CC -> X) (m : MC B) (k : B -> MC D) : keeps f m -> (forall b, keeps f (k b)) -> keeps f (mbindM m k).
Proof. intros Hm Hk c. unfold mbindM. specialize (Hm c). destruct (m c) as [[b|e|] c1]; cbn in *; [by rewrite Hk|done..]. Qed.

Lemma keeps_catch {X B} (f : CC -> X) (m : MC B) h : keeps f m -> (forall e, keeps f (h e)) -> keeps f (mcatch m h).
Proof. intros Hm Hh c. unfold mcatch. specialize (Hm c). destruct (m c) as [[b|e|] c1]; cbn in *; [done|by rewrite Hh|done]. Qed.

Create HintDb keeps discriminated.
Hint Resolve keeps_bind keeps_catch : keeps.

Definition other_parts c := (cc_superblock c, cc_sb_file c, cc_next_oid_source c, cc_next_txn_id_source c, cc_att_provider c).

Lemma keeps_pool {B} (m : M (BufferPool W) StorageError B) : keeps (fun c => (other_parts c, cc_meta c, cc_clog_flush c)) (on_ck_pool m).
Proof. done. Qed.

Lemma keeps_meta {B} (m : M MetaDir StorageError B) : keeps (fun c => (other_parts c, cc_buffer_pool c, cc_clog_flush c)) (on_meta_dir m).
Proof. done. Qed.

Lemma flush_all_keeps l : keeps (fun c => (other_parts c, cc_meta c, cc_clog_flush c)) (flush_all l).
Proof.
  induction l as [|p l IH]; [done|]. cbn [flush_all]. apply keeps_bind; [|done]. apply keeps_catch; [done|]. by intros [].
Qed.

Lemma snapshots_keep begin_lsn : keeps (fun c => (other_parts c, cc_buffer_pool c, cc_clog_flush c)) (checkpoint_snapshots crc32 enc_att enc_dpt begin_lsn).
Proof. apply keeps_bind; [done|]. intros c0. apply keeps_bind; [by apply keeps_catch|]. intros _. by apply keeps_catch. Qed.

Lemma freelist_keeps snap : keeps (fun c => (other_parts c, cc_buffer_pool c, cc_clog_flush c)) (checkpoint_freelist crc32 snap).
Proof. by apply keeps_catch. Qed.

Lemma end_record_keeps begin_lsn : keeps (fun c => (other_parts c, cc_meta c, cc_clog_flush c)) (checkpoint_end_record begin_lsn).
Proof. apply keeps_bind; [done|]. intros c0. apply keeps_bind; [done|]. intros r. apply keeps_bind; [done|]. intros l. by apply keeps_bind. Qed.

Lemma reserve_keeps : keeps (fun c => (other_parts c, cc_meta c, cc_clog_flush c)) (checkpoint_reserve (A := A) (C := C)).
Proof. apply keeps_bind; [done|]. intros l. by apply keeps_bind. Qed.

Lemma clog_keeps : keeps (fun c => (other_parts c, cc_meta c, cc_buffer_pool c)) (checkpoint_flush_clog (A := A)).
Proof. intros c. unfold checkpoint_flush_clog. by destruct (cc_clog_flush c). Qed.

(** The history of the log, as the coordinator's pool sees it. *)
Definition ck_log c : list WalRecord := pw_log (bp_wal (cc_buffer_pool c)).

Lemma flush_all_log l : keeps ck_log (flush_all l).
Proof.
  induction l as [|p l IH]; [done|]. cbn [flush_all]. apply keeps_bind; [|done].
  apply keeps_catch; [|by intros []]. intros c. unfold ck_log, on_ck_pool. cbn. apply pool_flush_log.
Qed.

(** The pass over the dirty pages. *)
Lemma flush_all_spec l : forall c r c', flushing l (cc_buffer_pool c) -> bp_flush_gen (cc_buffer_pool c) + zlen l < 2 ^ 64 ->
  flush_all l c = (r, c') -> r = Ok tt ->
  flushing [] (cc_buffer_pool c') /\ kept (cc_buffer_pool c) (cc_buffer_pool c') /\ forall q, view (cc_buffer_pool c') q = view (cc_buffer_pool c) q.
Proof.
  induction l as [|p l IH]; intros c r c' Hf Hg H ->.
  { injection H as <-. done. }
  cbn [flush_all] in H. apply mbindM_ok in H as ([] & c1 & H1 & H). unfold flush_for_checkpoint, mcatch, on_ck_pool in H1.
  destruct (BufferPool_flush p (cc_buffer_pool c)) as [r1 s1] eqn:E1. cbn [fst snd length] in *.
  eapply flush_page_spec in E1; [|done|lia].
  assert (Hstep : flushing l s1 /\ kept (cc_buffer_pool c) s1 /\ (forall q, view s1 q = view (cc_buffer_pool c) q) /\
                  bp_flush_gen s1 <= bp_flush_gen (cc_buffer_pool c) + 1 /\ c1 = set_pool s1 c).
  { destruct r1 as [[]|e|]; [injection H1 as <-; naive_solver|destruct e; try done; injection H1 as <-; naive_solver|done]. }
  destruct Hstep as (Hf1 & Hk1 & Hv1 & Hg1 & ->). eapply IH in H as (Hf2 & Hk2 & Hv2); [|done|cbn; lia|done].
  split; [done|]. split; [by etrans|]. intros q. rewrite Hv2. apply Hv1.
Qed.

Lemma dirty_ids_spec (s : BufferPool W) p : pool_inv None ∅ s -> dirty_in s p -> p ∈ BufferPool_dirty_page_ids s.
Proof.
  intros Hi (f & fr & Hf & Hp & Hd). unfold BufferPool_dirty_page_ids, dirty_frames. apply list_elem_of_fmap. exists (fr_meta fr). split; [done|].
  apply list_elem_of_filter. split; [|apply list_elem_of_fmap; exists fr; split; [done|by eapply list_elem_of_lookup_2]].
  rewrite Hd. destruct (Z.eqb_spec (fm_page_id (fr_meta fr)) PageId_INVALID) as [E|]; [|done].
  destruct (fo_empty _ _ _ _ (pi_frames _ _ _ Hi _ _ Hf) E). congruence.
Qed.

Lemma dirty_ids_length (s : BufferPool W) : (length (BufferPool_dirty_page_ids s) <= length (bp_frames s))%nat.
Proof. unfold BufferPool_dirty_page_ids, dirty_frames. rewrite length_fmap. etrans; [apply length_filter|]. by rewrite length_fmap. Qed.

(** Changes of the log and of the checkpoint LSN leave the pages alone. *)
Definition same_pages (s s' : BufferPool W) : Prop :=
  bp_data_file s' = bp_data_file s /\ bp_page_table s' = bp_page_table s /\ bp_frames s' = bp_frames s /\
  bp_flush_gen s' = bp_flush_gen s /\ bp_synced_gen s' = bp_synced_gen s.

Lemma same_pages_view s s' q : same_pages s s' -> view s' q = view s q.
Proof. intros (H1 & H2 & H3 & _). unfold view, table_get, shard_index. by rewrite H1, H2, H3. Qed.

Lemma same_pages_inv s s' : same_pages s s' -> pool_inv None ∅ s -> pool_inv None ∅ s'.
Proof.
  intros (H1 & H2 & H3 & H4 & H5) [I1 I2 I3 I4 I5 I6]. split; rewrite ?H1, ?H2, ?H3, ?H4, ?H5; try done.
  intros p f. rewrite <-I4. unfold table_get, shard_index. by rewrite H2.
Qed.

Lemma same_pages_settled s s' : same_pages s s' -> settled s -> settled s'.
Proof.
  intros Hs Hset p Hp. pose proof (same_pages_view s s' p Hs) as Hv. destruct Hs as (H1 & _ & H3 & _). unfold settled, durable, dirty_in in *.
  rewrite H1, H3, Hv in *. by apply Hset.
Qed.

(** ** Reading the snapshot files back *)

Definition meta_reader (d : MetaDir) (path : list Z) : option (list Z) :=
  (fun x => snd (snd x)) <$> list_find (fun nc : string * list Z => rel_path (fst nc) = path) (map_to_list (md_files d)).

Lemma meta_reader_spec d n x : md_files d !! n = Some x -> meta_reader d (rel_path n) = Some x.
Proof.
  intros Hn. apply elem_of_map_to_list in Hn as Hin. unfold meta_reader. destruct (list_find _ _) as [[i [n' x']]|] eqn:E; cbn.
  - apply list_find_Some in E as (Hi & Hp & _). cbn in Hp. apply rel_path_inj in Hp as ->. apply list_elem_of_lookup_2, elem_of_map_to_list in Hi. congruence.
  - apply list_find_None in E. rewrite Forall_forall in E. by destruct (E _ Hin).
Qed.

Lemma read_back {X} (dec : list Z -> option X) d n body x : in_u 32 (crc32 body) -> md_files d !! n = Some (le_bytes 4 (crc32 body) ++ body) -> dec body = Some x ->
  read_snapshot crc32 (meta_reader d) dec (rel_path n) = Ok x.
Proof.
  intros Hc Hn Hd. unfold read_snapshot. rewrite (meta_reader_spec _ _ _ Hn). cbn [res_bind]. rewrite length_app, length_le_bytes.
  rewrite (proj2 (Z.ltb_ge _ _)) by lia. assert (Hg : get_le 4 0 (le_bytes 4 (crc32 body) ++ body) = crc32 body).
  { unfold get_le. rewrite slice_app_exact by (by rewrite length_le_bytes). by apply le_val_le_bytes_id. }
  rewrite Hg. rewrite drop_app_length' by (by rewrite length_le_bytes). rewrite Z.eqb_refl. cbn. by rewrite Hd.
Qed.

(** ** The phases of a checkpoint that completes them *)

Lemma reserve_spec c b snap c1 : checkpoint_reserve c = (Ok (b, snap), c1) ->
  same_pages (cc_buffer_pool c) (cc_buffer_pool c1) /\ in_u 64 b /\ ck_log c1 = ck_log c ++ [set_lsn b checkpoint_begin].
Proof.
  intros H. unfold checkpoint_reserve in H. apply mbindM_ok in H as (l & c2 & H1 & H). unfold on_ck_pool, on_pool_wal in H1.
  destruct (cw_reserve_and_append checkpoint_begin (bp_wal (cc_buffer_pool c))) as [r w] eqn:E. cbn [fst snd] in H1. injection H1 as -> <-.
  unfold mbindM, mmodify, mget, mret in H. injection H as <- _ <-. split; [done|]. split; [by eapply cl_reserve_u64|].
  unfold ck_log. cbn. by apply cl_reserve_log.
Qed.

Definition snapshot_bytes (body : list Z) : list Z := le_bytes 4 (crc32 body) ++ body.

Lemma write_snapshot_spec name body c r c' : write_snapshot_file crc32 name body c = (r, c') ->
  (r = Ok tt -> md_files (cc_meta c') !! name = Some (snapshot_bytes body)) /\
  (forall n, n <> name -> n <> tmp_name name -> md_files (cc_meta c') !! n = md_files (cc_meta c) !! n).
Proof.
  unfold write_snapshot_file, as_failed, mcatch, on_meta_dir. fold (snapshot_bytes body).
  destruct (write_atomic name (snapshot_bytes body) (cc_meta c)) as [r1 d1] eqn:E. apply write_atomic_spec in E as (H1 & H2 & H3).
  cbn [fst snd]. destruct r1 as [[]|e|]; [|intros [= <- <-]; by split|done]. intros [= <- <-]. split; [intros _; by apply H1|done].
Qed.

Definition att_of c : list TxnId := match cc_att_provider c with Some p => ap_active_xids p | None => [] end.

Lemma snapshots_spec b c c' : checkpoint_snapshots crc32 enc_att enc_dpt b c = (Ok tt, c') ->
  md_files (cc_meta c') !! snapshot_name "att-" b = Some (snapshot_bytes (enc_att (att_of c))) /\
  md_files (cc_meta c') !! snapshot_name "dpt-" b = Some (snapshot_bytes (enc_dpt (dirty_page_snapshot (cc_buffer_pool c)))).
Proof.
  intros H. unfold checkpoint_snapshots in H. apply mbindM_ok in H as (c0 & c1 & H0 & H). injection H0 as <- <-. cbv zeta in H. fold (att_of c) in H.
  apply mbindM_ok in H as ([] & c2 & H1 & H). apply write_snapshot_spec in H1 as [H1 _], H as [H2 H3].
  split; [rewrite H3; [by apply H1|done..]|by apply H2].
Qed.

Lemma freelist_files snap c r c' n : checkpoint_freelist crc32 snap c = (r, c') -> n <> "freelist.meta"%string -> n <> tmp_name "freelist.meta" ->
  md_files (cc_meta c') !! n = md_files (cc_meta c) !! n.
Proof.
  unfold checkpoint_freelist, mcatch, on_meta_dir. destruct (write_atomic _ _ _) as [r1 d1] eqn:E. apply write_atomic_spec in E as (_ & H2 & H3).
  cbn [fst snd]. intros H Hn Ht. destruct r1 as [[]|e|]; [| |done]; injection H as <- <-; by apply H2.
Qed.

(** A snapshot file of a checkpoint that is neither the current one nor among the
    newest three present. *)
Definition prunable (current : Lsn) (files : gmap string (list Z)) (n : string) : Prop :=
  exists lsn newer, parse_snapshot_file_lsn n = Some lsn /\ lsn <> current /\
    NoDup newer /\ length newer = RETAINED_SNAPSHOT_CHECKPOINTS /\
    forall y, y ∈ newer -> lsn < y /\ exists n', parse_snapshot_file_lsn n' = Some y /\ is_Some (files !! n').

Lemma prune_listed_spec current d0 : exists d, prune_listed current d0 = (Ok tt, d) /\
  forall n, md_files d !! n = md_files d0 !! n \/
    md_files d !! n = None /\ prunable current (md_files d0) n.
Proof.
  unfold prune_listed, mbindM, mget. destruct (list_snapshots_spec ((map_to_list (md_files d0)).*1) d0) as (l & d1 & -> & F1 & Hl).
  set (keep := _ :: newest_lsns l.*1). destruct (remove_old_spec keep l d1) as (k & d2 & -> & Hd).
  assert (Hfin : exists d3, (if (k =? 0)%nat then mret tt else mcatch (md_call id) (fun _ => mret tt)) d2 = (Ok tt, d3) /\ md_files d3 = md_files d2).
  { destruct (k =? 0)%nat; [by exists d2|]. unfold mcatch. destruct (md_call id d2) as [r3 d3] eqn:E3. apply md_call_files in E3 as [F3 P3]. unfold id in F3.
    exists d3. by destruct r3 as [[]|e|]. }
  destruct Hfin as (d3 & -> & F3). exists d3. split; [done|]. intros n. rewrite F3. destruct (Hd n) as [E|[E (lsn & Hin & Hk)]]; [left; by rewrite E, F1|].
  right. split; [done|]. destruct (Hl _ _ Hin) as [_ Hp]. apply not_elem_of_cons in Hk as [Hcur Hnew].
  destruct (newest_greater l.*1 lsn) as (L1 & L2 & L3); [apply list_elem_of_fmap; by exists (lsn, n)|done|].
  exists lsn, (newest_lsns l.*1). do 4 (split; [done|]). intros y Hy. destruct (L3 y Hy) as [Hyl Hlt]. split; [done|].
  apply list_elem_of_fmap in Hyl as ([y' n'] & -> & Hyl). destruct (Hl _ _ Hyl) as [Hn' Hp']. exists n'. split; [done|].
  apply list_elem_of_fmap in Hn' as ([n2 x2] & -> & Hn2). apply elem_of_map_to_list in Hn2. by exists x2.
Qed.

(** Pruning succeeds, and removes only snapshot files of checkpoints that are not
    current and older than three others that are present. *)
Lemma prune_spec c : exists d, prune_snapshot_files c = (Ok tt, set_meta d c) /\
  forall n, md_files d !! n = md_files (cc_meta c) !! n \/
    md_files d !! n = None /\ prunable (sb_checkpoint_lsn (cc_superblock c)) (md_files (cc_meta c)) n.
Proof.
  unfold prune_snapshot_files. destruct (md_call id (cc_meta c)) as [r0 d0] eqn:E0. apply md_call_files in E0 as [F0 P0].
  destruct r0 as [[]|e|]; [|exists d0; split; [done|]; intros n; left; by rewrite F0|done]. unfold id in F0.
  destruct (prune_listed_spec (sb_checkpoint_lsn (cc_superblock c)) d0) as (d3 & -> & Hd). exists d3. split; [done|]. rewrite F0 in Hd. exact Hd.
Qed.

Lemma clog_spec c c' : checkpoint_flush_clog c = (Ok tt, c') ->
  match cc_clog_flush c with None => cc_clog_flush c' = None | Some l => fst (cf_flush_dirty l) = Ok tt /\ cc_clog_flush c' = Some (snd (cf_flush_dirty l)) end.
Proof.
  unfold checkpoint_flush_clog. destruct (cc_clog_flush c) as [l|] eqn:E; [|by intros [= <-]]. destruct (cf_flush_dirty l) as [[[]|e|] l']; cbn; by intros [= <-].
Qed.

(** Everything the superblock promises when it names the checkpoint [begin_lsn]. *)
Record checkpoint_done c (begin_lsn : Lsn) (new_sb : Superblock) c' : Prop := {
  cd_lsn : sb_checkpoint_lsn new_sb = begin_lsn;
  cd_pages p : page_valid (df_data (bp_data_file (cc_buffer_pool c))) p ->
    disk_page (df_stable (bp_data_file (cc_buffer_pool c'))) p = view (cc_buffer_pool c) p;
  cd_att : md_files (cc_meta c') !! snapshot_name "att-" begin_lsn = Some (snapshot_bytes (enc_att (att_of c)));
  cd_dpt : md_files (cc_meta c') !! snapshot_name "dpt-" begin_lsn = Some (snapshot_bytes (enc_dpt (dirty_page_snapshot (cc_buffer_pool c))));
  cd_clog l : cc_clog_flush c = Some l -> fst (cf_flush_dirty l) = Ok tt /\ cc_clog_flush c' = Some (snd (cf_flush_dirty l));
  cd_next : sb_next_txn_id new_sb = TxnIdClock_current (cc_next_txn_id_source c) /\ sb_next_oid new_sb = OidCounter_current (cc_next_oid_source c);
  cd_log : exists rec end_lsn,
    checkpoint_end begin_lsn (sb_next_page_id new_sb) (sb_next_txn_id new_sb) (sb_next_oid new_sb)
      (rel_path (snapshot_name "att-" begin_lsn)) (rel_path (snapshot_name "dpt-" begin_lsn)) = Ok rec /\
    ck_log c' = ck_log c ++ [set_lsn begin_lsn checkpoint_begin; set_lsn end_lsn rec] /\
    end_lsn <= pl_synced_lsn (bp_wal (cc_buffer_pool c'));
}.

Lemma end_record_spec b c sb c' : checkpoint_end_record b c = (Ok sb, c') ->
  same_pages (cc_buffer_pool c) (cc_buffer_pool c') /\ sb_checkpoint_lsn sb = b /\
  sb_next_txn_id sb = TxnIdClock_current (cc_next_txn_id_source c) /\ sb_next_oid sb = OidCounter_current (cc_next_oid_source c) /\
  exists rec end_lsn,
    checkpoint_end b (sb_next_page_id sb) (sb_next_txn_id sb) (sb_next_oid sb)
      (rel_path (snapshot_name "att-" b)) (rel_path (snapshot_name "dpt-" b)) = Ok rec /\
    ck_log c' = ck_log c ++ [set_lsn end_lsn rec] /\ end_lsn <= pl_synced_lsn (bp_wal (cc_buffer_pool c')).
Proof.
  intros H. unfold checkpoint_end_record in H. apply mbindM_ok in H as (c0 & c1 & H0 & H). injection H0 as <- <-. cbv zeta in H.
  apply mbindM_ok in H as (rec & c1 & H1 & H). unfold of_ck_res in H1. injection H1 as Hrec <-.
  apply mbindM_ok in H as (l & c2 & H2 & H). unfold on_ck_pool, on_pool_wal in H2.
  destruct (pw_append rec (bp_wal (cc_buffer_pool c))) as [r1 w1] eqn:E1. cbn [fst snd] in H2. injection H2 as -> <-.
  apply mbindM_ok in H as ([] & c3 & H3 & H). unfold on_ck_pool, on_pool_wal in H3. cbn [cc_buffer_pool set_pool] in H3.
  change (bp_wal (set_allocator _ _)) with w1 in H3. destruct (pl_flush_to l w1) as [r2 w2] eqn:E2. cbn [fst snd] in H3. injection H3 as -> <-. injection H as <- <-.
  do 4 (split; [done|]). exists rec, l. split; [done|]. change (bp_wal (cc_buffer_pool _)) with w2.
  unfold ck_log. change (bp_wal (cc_buffer_pool _)) with w2 at 1.
  split; [|by eapply pl_flush_to_ok]. pose proof (cl_flush_log l w1) as Hl. rewrite E2 in Hl. cbn in Hl. rewrite Hl.
  by apply pw_append_ok.
Qed.

(** The state before the superblock is written. *)
Lemma before_superblock c b snap c1 c2 c3 c4 new_sb c5 r6 c6 :
  pool_inv None ∅ (cc_buffer_pool c) -> settled (cc_buffer_pool c) ->
  bp_flush_gen (cc_buffer_pool c) + zlen (bp_frames (cc_buffer_pool c)) < 2 ^ 64 ->
  checkpoint_reserve c = (Ok (b, snap), c1) -> checkpoint_snapshots crc32 enc_att enc_dpt b c1 = (Ok tt, c2) ->
  checkpoint_flush_pages c2 = (Ok tt, c3) -> checkpoint_flush_clog c3 = (Ok tt, c4) -> checkpoint_end_record b c4 = (Ok new_sb, c5) ->
  checkpoint_freelist crc32 snap c5 = (r6, c6) -> in_u 64 b /\ checkpoint_done c b new_sb c6.
Proof.
  intros Hi Hs Hg H1 H2 H3 H4 H5 H6.
  pose proof (reserve_keeps c) as K1. rewrite H1 in K1. cbn in K1. injection K1 as K1a K1b K1c K1d K1e K1f K1g.
  pose proof (snapshots_keep b c1) as K2. rewrite H2 in K2. cbn in K2. injection K2 as K2a K2b K2c K2d K2e K2f K2g.
  unfold checkpoint_flush_pages in H3. apply mbindM_ok in H3 as (c2' & c2'' & Hget & H3). injection Hget as <- <-.
  pose proof (flush_all_keeps (BufferPool_dirty_page_ids (cc_buffer_pool c2)) c2) as K3. rewrite H3 in K3. cbn in K3. injection K3 as K3a K3b K3c K3d K3e K3f K3g.
  pose proof (clog_keeps c3) as K4. rewrite H4 in K4. cbn in K4. injection K4 as K4a K4b K4c K4d K4e K4f K4g.
  pose proof (end_record_keeps b c4) as K5. rewrite H5 in K5. cbn in K5. injection K5 as K5a K5b K5c K5d K5e K5f K5g.
  pose proof (freelist_keeps snap c5) as K6. rewrite H6 in K6. cbn in K6. injection K6 as K6a K6b K6c K6d K6e K6f K6g.
  pose proof (flush_all_log (BufferPool_dirty_page_ids (cc_buffer_pool c2)) c2) as L3. rewrite H3 in L3. cbn [snd] in L3.
  apply reserve_spec in H1 as (P1 & Hb & L1). apply snapshots_spec in H2 as [Fa Fd]. apply clog_spec in H4. apply end_record_spec in H5 as (P5 & E1 & E2 & E3 & E4).
  assert (Hf : flushing (BufferPool_dirty_page_ids (cc_buffer_pool c2)) (cc_buffer_pool c2)).
  { rewrite K2f. assert (pool_inv None ∅ (cc_buffer_pool c1)) by (by eapply same_pages_inv). split; [done|by eapply same_pages_settled|]. intros p. by apply dirty_ids_spec. }
  eapply flush_all_spec in H3 as (Hf3 & Hk3 & Hv3); [|exact Hf| |done].
  2: { pose proof (dirty_ids_length (cc_buffer_pool c2)). destruct P1 as (_ & _ & Pf & Pg & _). rewrite K2f in *. rewrite Pf, Pg in *. lia. }
  assert (Hfiles : forall n, n <> "freelist.meta"%string -> n <> tmp_name "freelist.meta" -> md_files (cc_meta c6) !! n = md_files (cc_meta c2) !! n).
  { intros n N1 N2. rewrite (freelist_files snap c5 r6 c6 n H6 N1 N2). congruence. }
  split; [done|]. split.
  - done.
  - intros p Hp. rewrite K6f. destruct P5 as (-> & _). rewrite K4g. destruct Hf3 as [Hi3 Hset3 Hnone3].
    assert (Hp3 : page_valid (df_data (bp_data_file (cc_buffer_pool c3))) p).
    { unfold page_valid in *. rewrite (kp_len _ _ Hk3), K2f. destruct P1 as (-> & _). done. }
    destruct (Hset3 p Hp3) as [Hd|Hd]; [apply Hnone3, not_elem_of_nil in Hd as []|]. rewrite Hd, Hv3, K2f. by apply same_pages_view.
  - rewrite Hfiles by done. unfold att_of in *. rewrite <-K1e. exact Fa.
  - rewrite Hfiles by done. rewrite Fd. unfold dirty_page_snapshot, dirty_frames. destruct P1 as (_ & _ & -> & _). done.
  - intros l Hl. assert (Hc3 : cc_clog_flush c3 = Some l) by congruence. rewrite Hc3 in H4. destruct H4. split; [done|congruence].
  - split; congruence.
  - destruct E4 as (rec & end_lsn & Hrec & Hlog & Hsy). exists rec, end_lsn. split; [done|].
    assert (L6 : forall a b, cc_buffer_pool a = cc_buffer_pool b -> ck_log a = ck_log b) by (intros a a' He; unfold ck_log; by rewrite He).
    rewrite (L6 c6 c5), Hlog, (L6 c4 c3), L3, (L6 c2 c1), L1 by done. split; [by rewrite <-app_assoc|]. by rewrite K6f.
Qed.

(** What the superblock, the recycling and the pruning leave of it. *)
Lemma done_frame c b sb c1 c2 : checkpoint_done c b sb c1 ->
  bp_data_file (cc_buffer_pool c2) = bp_data_file (cc_buffer_pool c1) -> cc_clog_flush c2 = cc_clog_flush c1 ->
  ck_log c2 = ck_log c1 -> pl_synced_lsn (bp_wal (cc_buffer_pool c1)) <= pl_synced_lsn (bp_wal (cc_buffer_pool c2)) ->
  (forall n, parse_snapshot_file_lsn n = Some b -> md_files (cc_meta c2) !! n = md_files (cc_meta c1) !! n) -> in_u 64 b ->
  checkpoint_done c b sb c2.
Proof.
  intros [D1 D2 D3 D4 D5 D6 D7] Hd Hc Hl Hsy Hm Hb. split; try done; rewrite ?Hd, ?Hc; try done.
  - rewrite Hm; [done|]. apply parse_snapshot_name; [by left|done].
  - rewrite Hm; [done|]. apply parse_snapshot_name; [by right|done].
  - destruct D7 as (rec & l & E1 & E2 & E3). exists rec, l. rewrite Hl. split; [done|]. split; [done|lia].
Qed.

Lemma recycle_pool b c r c' : on_ck_pool (on_pool_wal (cw_recycle_before b)) c = (r, c') ->
  bp_data_file (cc_buffer_pool c') = bp_data_file (cc_buffer_pool c) /\ cc_clog_flush c' = cc_clog_flush c /\ cc_meta c' = cc_meta c /\
  cc_sb_file c' = cc_sb_file c /\ cc_superblock c' = cc_superblock c /\
  ck_log c' = ck_log c /\ pl_synced_lsn (bp_wal (cc_buffer_pool c)) <= pl_synced_lsn (bp_wal (cc_buffer_pool c')).
Proof.
  unfold on_ck_pool, on_pool_wal. intros [= <- <-]. do 5 (split; [done|]). unfold ck_log. cbn. split; [apply cl_recycle_log|apply cl_recycle_mono].
Qed.

(** C12: a checkpoint is all or nothing.  With no other thread in between, either
    [trigger_checkpoint] does not succeed and the superblock file is as before, so
    recovery starts at the old checkpoint; or the superblock file got one write, of
    a superblock that names the new checkpoint, and by then: every page of the data
    file is durable as readers saw it when the checkpoint began; the disk commit log
    was flushed; the log has grown by exactly the begin record at the checkpoint's
    LSN and the end record, which carries the same next ids, and has been forced up
    to the LSN of the end record (so every earlier record is durable; that flush
    need not cover the end record itself, writer.rs:398); and the two snapshot files
    the end record names read back as the transactions in flight and the dirty pages
    at the beginning, also after old files were pruned.  Success is reported only
    when that write succeeded. *)
Theorem checkpoint_safe dec_att dec_dpt c r c' :
  (forall l, dec_att (enc_att l) = Some l) -> (forall l, dec_dpt (enc_dpt l) = Some l) -> (forall x, in_u 32 (crc32 x)) ->
  pool_inv None ∅ (cc_buffer_pool c) -> settled (cc_buffer_pool c) ->
  bp_flush_gen (cc_buffer_pool c) + zlen (bp_frames (cc_buffer_pool c)) < 2 ^ 64 ->
  trigger_checkpoint crc32 enc_att enc_dpt c = (r, c') ->
  (cc_sb_file c' = cc_sb_file c /\ forall l, r <> Ok l) \/
  (exists new_sb, let b := sb_checkpoint_lsn new_sb in
    cc_sb_file c' = snd (Superblock_write crc32 new_sb (cc_sb_file c)) /\ checkpoint_done c b new_sb c' /\
    read_snapshot crc32 (meta_reader (cc_meta c')) dec_att (rel_path (snapshot_name "att-" b)) = Ok (att_of c) /\
    read_snapshot crc32 (meta_reader (cc_meta c')) dec_dpt (rel_path (snapshot_name "dpt-" b)) = Ok (dirty_page_snapshot (cc_buffer_pool c)) /\
    forall l, r = Ok l -> l = b /\ fst (Superblock_write crc32 new_sb (cc_sb_file c)) = Ok tt).
Proof.
  intros Da Dd Dc Hi Hs Hg H. unfold trigger_checkpoint in H.
  apply mbindM_inv in H as [([b snap] & c1 & H1 & H)|[<- Hr]]; [|left; split; [|done]; pose proof (reserve_keeps c) as K; by injection K].
  pose proof (reserve_keeps c) as K1. rewrite H1 in K1. unfold checkpoint_rest in H. cbn [fst snd] in *. injection K1 as _ K1 _ _ _ _ _.
  apply mbindM_inv in H as [([] & c2 & H2 & H)|[<- Hr]]; [|left; split; [|done]; pose proof (snapshots_keep b c1) as K; rewrite <-K1; by injection K].
  pose proof (snapshots_keep b c1) as K2. rewrite H2 in K2. cbn [fst snd] in *. injection K2 as _ K2 _ _ _ _ _.
  apply mbindM_inv in H as [([] & c3 & H3 & H)|[<- Hr]].
  2: { left. split; [|done]. pose proof (flush_all_keeps (BufferPool_dirty_page_ids (cc_buffer_pool c2)) c2) as K. rewrite <-K1, <-K2. by injection K. }
  pose proof (flush_all_keeps (BufferPool_dirty_page_ids (cc_buffer_pool c2)) c2) as K3. unfold checkpoint_flush_pages, mbindM, mget in H3. rewrite H3 in K3.
  cbn [fst snd] in *. injection K3 as _ K3 _ _ _ _ _.
  apply mbindM_inv in H as [([] & c4 & H4 & H)|[<- Hr]]; [|left; split; [|done]; pose proof (clog_keeps c3) as K; rewrite <-K1, <-K2, <-K3; by injection K].
  pose proof (clog_keeps c3) as K4. rewrite H4 in K4. cbn [fst snd] in *. injection K4 as _ K4 _ _ _ _ _.
  apply mbindM_inv in H as [(new_sb & c5 & H5 & H)|[<- Hr]]; [|left; split; [|done]; pose proof (end_record_keeps b c4) as K; rewrite <-K1, <-K2, <-K3, <-K4; by injection K].
  pose proof (end_record_keeps b c4) as K5. rewrite H5 in K5. cbn [fst snd] in *. injection K5 as _ K5 _ _ _ _ _.
  pose proof (freelist_keeps snap c5) as K6.
  apply mbindM_inv in H as [([] & c6 & H6 & H)|[<- Hr]]; [|left; split; [|done]; rewrite <-K1, <-K2, <-K3, <-K4, <-K5; by injection K6].
  rewrite H6 in K6. cbn [fst snd] in *. injection K6 as _ K6 _ _ _ _ _.
  destruct (before_superblock c b snap c1 c2 c3 c4 new_sb c5 (Ok tt) c6) as [Hb Hdone]; try done.
  assert (Hlsn : sb_checkpoint_lsn new_sb = b) by apply Hdone.
  assert (Hsb : cc_sb_file c6 = cc_sb_file c) by congruence. right. exists new_sb. cbv zeta. rewrite Hlsn.
  set (wr := Superblock_write crc32 new_sb (cc_sb_file c)).
  assert (Hfin : cc_sb_file c' = snd wr /\ checkpoint_done c b new_sb c' /\ forall l, r = Ok l -> l = b /\ fst wr = Ok tt).
  { apply mbindM_inv in H as [([] & c7 & H7 & H)|[<- Hr]].
    2: { unfold checkpoint_superblock. rewrite Hsb. fold wr. cbn. split; [done|]. split; [|by intros l El; destruct (Hr l)]. by eapply done_frame; [exact Hdone|..]. }
    unfold checkpoint_superblock in H7. rewrite Hsb in H7. fold wr in H7. injection H7 as Hwr <-.
    apply mbindM_inv in H as [([] & c8 & H8 & H)|[<- Hr]].
    2: { destruct (on_ck_pool (on_pool_wal (cw_recycle_before b)) (set_sb new_sb (snd wr) c6)) as [r8 c8] eqn:H8.
         apply recycle_pool in H8 as (R1 & R2 & R3 & R4 & R5 & R6 & R7). cbn [snd]. split; [by rewrite R4|].
         split; [|by intros l El; destruct (Hr l)]. eapply done_frame; [exact Hdone|done..| |done]. intros n _. by rewrite R3. }
    apply recycle_pool in H8 as (R1 & R2 & R3 & R4 & R5 & R6 & R7). destruct (prune_spec c8) as (d & Hp & Hn). unfold mbindM, mret in H. rewrite Hp in H. injection H as <- <-.
    cbn [cc_sb_file set_meta]. split; [by rewrite R4|]. split; [|by intros l [= <-]]. eapply done_frame; [exact Hdone|done..| |done].
    intros n Hpn. cbn [cc_meta set_meta]. rewrite R3 in Hn. destruct (Hn n) as [E|[_ (lsn & newer & Hpn' & Hne & _)]]; [done|]. rewrite R5 in Hne. cbn in Hne. congruence. }
  destruct Hfin as (F1 & F2 & F3). split; [done|]. split; [done|]. split; [eapply read_back; [done|apply F2|done]|]. split; [eapply read_back; [done|apply F2|done]|done].
Qed.

End coordinator.
