(* ===== verification/CheckpointRun.v ===== *)
(** * Runs of checkpoints

    The commit log and the transaction manager as a checkpoint sees them, a run that
    exercises the theorem of [CheckpointSafe], and the interleaving that leaves a
    page without a full-page image. *)

From stdpp Require Import strings.
From S2P Require Import Prelude Types WalRecord WalSegment Config PageAllocator Superblock Recovery Clog TxnManager BufferPool PoolSafe PoolRace Analysis Checkpoint CheckpointSafe.
Local Open Scope Z_scope.
Local Open Scope rust_scope.

(** ** The real commit log and transaction manager *)

#[export] Instance ClogBuffer_flush : ClogFlush ClogBuffer := {| cf_flush_dirty := flush_dirty |}.
#[export] Instance TxnManager_att {C W : Type} : AttProvider (TxnManager C W) := {| ap_active_xids := TxnManager.active_xids |}.

(** ** A log in memory *)

#[export] Instance SyncWal_checkpoint : CheckpointWal SyncWal := {|
  cw_reserve_and_append r w :=
    if (0 <=? lg_next (sw_log w)) && (lg_next (sw_log w) <? 2 ^ 64) then pw_append r w else (Err WalWriteFailed, w);
  cw_recycle_before lsn w := (Ok tt, w) |}.

#[export] Instance SyncWal_checkpoint_laws : CheckpointWalLaws (W := SyncWal).
Proof.
  split.
  - intros lsn w p. cbn. destruct (lsn >? _); [done|]. by destruct (hd true _).
  - intros rec w l w' H. cbn in H. destruct (_ && _) eqn:E; [|done]. zbool. destruct (hd true _); [|done]. injection H as <- <-. unfold in_u. lia.
  - intros rec w l w' H. cbn in H. destruct (_ && _); [|done]. destruct (hd true _); [|done]. by injection H as <- <-.
  - intros lsn w. cbn. destruct (lsn >? _); [done|]. by destruct (hd true _).
  - done.
  - done.
Qed.

Definition enc_att (l : list TxnId) : list Z := l.
Definition dec_att (b : list Z) : option (list TxnId) := Some b.
Fixpoint enc_dpt (l : list (PageId * Lsn)) : list Z := match l with [] => [] | (p, r) :: l => p :: r :: enc_dpt l end.
Fixpoint dec_dpt (b : list Z) : option (list (PageId * Lsn)) :=
  match b with [] => Some [] | p :: r :: b => cons (p, r) <$> dec_dpt b | _ => None end.

Lemma dec_enc_dpt l : dec_dpt (enc_dpt l) = Some l.
Proof. induction l as [|[p r] l IH]; [done|]. cbn. by rewrite IH. Qed.

(** ** One checkpoint *)

(** Page 1 is dirty, transaction 7 in flight, the last checkpoint was at LSN 8. *)
Definition ck0 : CheckpointCoordinator SyncWal ClogBuffer (TxnManager InMemoryClogAccessor LogWal) :=
  CheckpointCoordinator_new demo_config demo_old (mkSbFile (Some (demo_copy demo_old ++ demo_copy demo_old)) [] []) d3
    (mkMetaDir {[ "att-0000000000000008.snapshot" := [1]; "dpt-0000000000000008.snapshot" := [2] ]} []).

Definition ck_run := trigger_checkpoint sum32 enc_att enc_dpt ck0.

Lemma ck_run_ok : fst ck_run = Ok 48 /\ recovers sum32 (sb_content (cc_sb_file (snd ck_run))) = Ok (mkSuperblock 2 8192 48 3 5 16384 77).
Proof. split; vm_compute; reflexivity. Qed.

Lemma d3_settled : settled d3.
Proof. apply synced_settled; [exact d3_inv|]. vm_compute. reflexivity. Qed.

Lemma checkpoint_safe_witness : exists c', trigger_checkpoint sum32 enc_att enc_dpt ck0 = (Ok 48, c') /\
  disk_page (df_stable (bp_data_file (cc_buffer_pool c'))) 1 = demo_image /\
  exists rec end_lsn, last (ck_log c') = Some (set_lsn end_lsn rec) /\ wr_type rec = CheckpointEnd /\
    end_lsn <= pl_synced_lsn (bp_wal (cc_buffer_pool c')).
Proof.
  exists (snd ck_run). assert (Hrun : trigger_checkpoint sum32 enc_att enc_dpt ck0 = (Ok 48, snd ck_run)) by exact (run_ok _ _ _ (proj1 ck_run_ok)).
  split; [exact Hrun|].
  destruct (checkpoint_safe sum32 enc_att enc_dpt dec_att dec_dpt ck0 (Ok 48) (snd ck_run)) as [[_ Hne]|(sb & _ & Hd & _)].
  - intros l. reflexivity.
  - exact dec_enc_dpt.
  - exact sum32_range.
  - exact d3_inv.
  - exact d3_settled.
  - vm_compute. reflexivity.
  - exact Hrun.
  - exfalso. by apply (Hne 48).
  - split.
    + rewrite (cd_pages _ _ _ _ _ _ _ Hd 1); [vm_compute; reflexivity|]. split; [lia|vm_compute; discriminate].
    + destruct (cd_log _ _ _ _ _ _ _ Hd) as (rec & end_lsn & Hrec & Hlog & Hsy). exists rec, end_lsn. rewrite Hlog.
      split; [exact (eq_trans (f_equal last (app_assoc _ [_] [_])) (last_snoc _ _))|].
      split; [|exact Hsy]. unfold checkpoint_end in Hrec. inv_bind Hrec. by apply Ok_inj in Hrec as <-.
Defined.

(** ** A writer that straddles the beginning of a checkpoint *)

Definition guard1 : PageGuardMut := mkPageGuardMut 0 1.

(** The change of page 1 that record [lsn] describes. *)
Definition write1 (lsn : Lsn) (s : Pool) : Pool :=
  snd (PageGuardMut_drop guard1 (snd (page_mut guard1 (set_page_pd_lsn demo_image lsn) s))).
Definition insert1 (s : Pool) : res StorageError Lsn * Pool :=
  match heap_insert 1 0 [7] 5 with Ok rec => on_pool_wal (pw_append rec) s | _ => (Panic, s) end.

(** The last checkpoint was at LSN 8; a writer pins page 1 and stops. *)
Definition f0 : Pool := set_checkpoint_lsn 8 d0.
Definition f1 : Pool := snd (BufferPool_pin_mut 1 f0).
Definition fk0 : CheckpointCoordinator SyncWal ClogBuffer (TxnManager InMemoryClogAccessor LogWal) :=
  CheckpointCoordinator_new demo_config demo_old (mkSbFile (Some (demo_copy demo_old ++ demo_copy demo_old)) [] []) f1 (mkMetaDir ∅ []).
(** The checkpoint begins. *)
Definition fk1 := snd (checkpoint_reserve fk0).
Definition fbegin : Lsn * FreelistMeta := match fst (checkpoint_reserve fk0) with Ok b => b | _ => (0, mkFreelistMeta 0 []) end.
(** The writer logs its change, makes it and drops its guard. *)
Definition f2 : Pool := snd (insert1 (cc_buffer_pool fk1)).
Definition flsn : Lsn := match fst (insert1 (cc_buffer_pool fk1)) with Ok l => l | _ => 0 end.
Definition f3 : Pool := write1 flsn f2.
(** The checkpoint completes. *)
Definition fk3 := snd (checkpoint_rest sum32 enc_att enc_dpt fbegin (set_pool f3 fk1)).
(** Another writer changes the page again. *)
Definition f4 : Pool := snd (BufferPool_pin_mut 1 (cc_buffer_pool fk3)).
Definition f5 : Pool := snd (insert1 f4).
Definition flsn2 : Lsn := match fst (insert1 f4) with Ok l => l | _ => 0 end.
Definition f6 : Pool := write1 flsn2 f5.

(** C13: a page can go without a full-page image after a checkpoint.  The decision
    to log an image is taken when the page is pinned; a writer that pinned its page
    before the checkpoint began and logs its change after it gives the page an LSN
    beyond the checkpoint, and from then on no pin finds an image due.  In the run
    below the checkpoint at LSN 88 completes and the superblock names it; page 1 is
    changed by the records at LSN 128 and 208 and is dirty, and the log holds no
    image of it from the checkpoint on, so a torn write of the page cannot be
    repaired by redo. *)
Theorem checkpoint_fpi_missing :
  fst (BufferPool_pin_mut 1 f0) = Ok guard1 /\ fst (checkpoint_reserve fk0) = Ok fbegin /\ fst fbegin = 88 /\
  fst (insert1 (cc_buffer_pool fk1)) = Ok 128 /\ fst (checkpoint_rest sum32 enc_att enc_dpt fbegin (set_pool f3 fk1)) = Ok 88 /\
  (sb_checkpoint_lsn <$> match recovers sum32 (sb_content (cc_sb_file fk3)) with Ok sb => Some sb | _ => None end) = Some 88 /\
  fst (BufferPool_pin_mut 1 (cc_buffer_pool fk3)) = Ok guard1 /\ fst (insert1 f4) = Ok 208 /\
  page_pd_lsn (PoolSafe.view f6 1) = 208 /\ BufferPool_dirty_page_ids f6 = [1] /\
  filter (fun r => wr_type r = FullPageImage /\ 88 <= wr_lsn r) (pw_log (bp_wal f6)) = [].
Proof. repeat (split; [vm_compute; reflexivity|]). vm_compute. reflexivity. Qed.
