(* ===== verification/HeapRedo.v ===== *)
(** * Redo and undo of heap changes

    Models [pg-am-heap/src/redo.rs] (the four heap redo handlers), the flag
    constants of [tuple.rs] they use, and [undo.rs].  The body of a handler under
    its page guard is an action of the monad [M Page StorageError], so that a
    failing handler leaves the half-written page in the pool, as the guard does. *)

From S2P Require Import Prelude Types LinePointer SlottedPage Tuple Clog WalRecord PageAllocator Recovery.
Local Open Scope Z_scope.
Local Open Scope rust_scope.

Definition HEAP_UPDATED : Z := 0x2000.
Definition HEAP_XMAX_LOCK_ONLY : Z := 0x1000.
Definition HEAP_XMAX_IS_SHARE : Z := 0x4000.
Definition HEAP_HOT_UPDATED : Z := 0x4000.

Definition heap_to_storage (e : HeapError) : StorageError :=
  match e with Storage s => s | _ => MetadataCorrupted end.

(** [f(page, ..).map_err(heap_to_storage)?] *)
Definition heap_step {A : Type} (f : Page -> res HeapError (A * Page)) : M Page StorageError A := fun page =>
  match f page with
  | Ok (a, page) => (Ok a, page)
  | Err e => (Err (heap_to_storage e), page)
  | Panic => (Panic, page)
  end.

Definition stamp_pd_lsn (lsn : Lsn) (page : Page) : Page :=
  set_page_pd_lsn page (Z.max lsn (page_pd_lsn page)).

Definition stamped_header (xmax : TxnId) (updated : bool) (h : TupleHeader) : TupleHeader :=
  let mask := if updated then Z.lor (t_infomask h) HEAP_UPDATED else t_infomask h in
  let mask := Z.ldiff mask (Z.lor HEAP_XMAX_LOCK_ONLY HEAP_XMAX_IS_SHARE) in
  mkTupleHeader (t_xmin h) xmax (t_agent_id h) (t_trace_id h) (t_ctid h) mask (t_infomask2 h) (t_hoff h)
    (t_flags h) (t_cid h).

Definition hot_header (xmax : TxnId) (new_tid : Tid) (h : TupleHeader) : TupleHeader :=
  let h := stamped_header xmax true h in
  mkTupleHeader (t_xmin h) (t_xmax h) (t_agent_id h) (t_trace_id h) new_tid (t_infomask h)
    (Z.lor (t_infomask2 h) HEAP_HOT_UPDATED) (t_hoff h) (t_flags h) (t_cid h).

(** The common body of [stamp_deleted] and [stamp_hot_update]: rewrite the header
    of the tuple at [tid]. *)
Definition restamp (f : TupleHeader -> TupleHeader) (tid : Tid) (page : Page) : res HeapError (unit * Page) :=
  let? lp := line_pointer page (slot_id tid) in
  if negb (bool_decide (LP_flags lp = Normal)) then Err (TupleNotFound tid) else
  let off := LP_off lp in
  let? bytes := slice_get off TUPLE_HEADER_SIZE page in
  let? header := TupleHeader_read_from bytes in
  let? page := slice_set off (TupleHeader_write_to (f header) bytes) page in
  Ok (tt, page).

Definition stamp_deleted (tid : Tid) (xmax : TxnId) (updated : bool) : Page -> res HeapError (unit * Page) :=
  restamp (stamped_header xmax updated) tid.
Definition stamp_hot_update (old_tid new_tid : Tid) (xmax : TxnId) : Page -> res HeapError (unit * Page) :=
  restamp (hot_header xmax new_tid) old_tid.

(** The guard every handler starts with. *)
Definition if_older (lsn : Lsn) (act : M Page StorageError unit) : M Page StorageError unit := fun page =>
  if page_pd_lsn page >=? lsn then (Ok tt, page) else act page.

Definition init_fresh : M Page StorageError unit :=
  mmodify (fun page => init_if_fresh_with_special page HEAP_SPECIAL_SIZE).

(** Insert at the recorded slot, or fail: redo never writes to another slot. *)
Definition add_at (slot : Z) (bytes : list Z) : M Page StorageError unit :=
  let! got := heap_step (fun page => add_tuple page bytes) in
  if negb (got =? slot) then mthrow MetadataCorrupted else mret tt.

Definition insert_page (lsn : Lsn) (slot : Z) (bytes : list Z) : M Page StorageError unit :=
  if_older lsn (init_fresh ;! add_at slot bytes ;! mmodify (stamp_pd_lsn lsn)).

Definition update_same_page (lsn : Lsn) (rec : HeapUpdateRecord) : M Page StorageError unit :=
  if_older lsn (init_fresh ;! heap_step (stamp_deleted (hu_old_tid rec) (hu_xmax_old rec) true) ;!
                add_at (slot_id (hu_new_tid rec)) (hu_new_tuple_bytes rec) ;! mmodify (stamp_pd_lsn lsn)).
Definition update_old_page (lsn : Lsn) (rec : HeapUpdateRecord) : M Page StorageError unit :=
  if_older lsn (init_fresh ;! heap_step (stamp_deleted (hu_old_tid rec) (hu_xmax_old rec) true) ;!
                mmodify (stamp_pd_lsn lsn)).

Definition delete_page (lsn : Lsn) (rec : HeapDeleteRecord) : M Page StorageError unit :=
  if_older lsn (heap_step (stamp_deleted (hd_tid rec) (hd_xmax rec) false) ;! mmodify (stamp_pd_lsn lsn)).

Definition hot_page (lsn : Lsn) (rec : HeapHotUpdateRecord) : M Page StorageError unit :=
  let old_tid := mkTid (hh_page_id rec) (hh_old_slot rec) in
  let new_tid := mkTid (hh_page_id rec) (hh_new_slot rec) in
  if_older lsn (init_fresh ;! heap_step (stamp_hot_update old_tid new_tid (hh_xmax rec)) ;!
                add_at (hh_new_slot rec) (hh_new_tuple_bytes rec) ;! mmodify (stamp_pd_lsn lsn)).

Section handlers.
Context {BC : Bincode} {P : Type} {PP : PagePool P} {C : Type} {CA : ClogAccessor C} {W : Type} {PW : PageWal W}.

Definition HeapInsertHandler_apply (record : WalRecord) : M (RedoContext P C W) StorageError unit :=
  let! rec := of_res (HeapInsertRecord_decode (wr_payload record)) in
  on_pool (with_page (hi_page_id rec) (insert_page (wr_lsn record) (hi_slot_id rec) (hi_tuple_bytes rec))).

Definition HeapUpdateHandler_apply (record : WalRecord) : M (RedoContext P C W) StorageError unit :=
  let! rec := of_res (HeapUpdateRecord_decode (wr_payload record)) in
  let lsn := wr_lsn record in
  on_pool
    (if page_id (hu_old_tid rec) =? page_id (hu_new_tid rec)
     then with_page (page_id (hu_old_tid rec)) (update_same_page lsn rec)
     else with_page (page_id (hu_old_tid rec)) (update_old_page lsn rec) ;!
          with_page (page_id (hu_new_tid rec))
            (insert_page lsn (slot_id (hu_new_tid rec)) (hu_new_tuple_bytes rec))).

Definition HeapDeleteHandler_apply (record : WalRecord) : M (RedoContext P C W) StorageError unit :=
  let! rec := of_res (HeapDeleteRecord_decode (wr_payload record)) in
  on_pool (with_page (page_id (hd_tid rec)) (delete_page (wr_lsn record) rec)).

Definition HeapHotUpdateHandler_apply (record : WalRecord) : M (RedoContext P C W) StorageError unit :=
  let! rec := of_res (HeapHotUpdateRecord_decode (wr_payload record)) in
  on_pool (with_page (hh_page_id rec) (hot_page (wr_lsn record) rec)).

Definition heap_redo_handlers : list (RedoHandler P C W) :=
  [mkRedoHandler HeapInsert HeapInsertHandler_apply; mkRedoHandler HeapUpdate HeapUpdateHandler_apply;
   mkRedoHandler HeapDelete HeapDeleteHandler_apply; mkRedoHandler HeapHotUpdate HeapHotUpdateHandler_apply].

(** ** undo.rs *)

Fixpoint HeapUndoHandler_undo (att : list TxnId) : M C StorageError unit :=
  match att with
  | [] => mret tt
  | xid :: att => set_state xid Aborted ;! HeapUndoHandler_undo att
  end.

End handlers.

(** ** Lemmas: every action keeps the page a page *)

Lemma slice_set_wf {E} off bs (l l' : list Z) :
  wf_bytes bs -> page_wf l -> slice_set (E:=E) off bs l = Ok l' -> page_wf l'.
Proof.
  unfold slice_set, page_wf. intros Hb [Hl Hw] H. case_if H. apply Ok_inj in H as <-.
  rewrite length_splice. auto with wf.
Qed.

Lemma put_le_wf n off x page : page_wf page -> page_wf (put_le n off x page).
Proof. unfold page_wf. rewrite length_put_le. intros []. auto with wf. Qed.

Lemma add_tuple_wf page bytes slot page' :
  wf_bytes bytes -> page_wf page -> add_tuple page bytes = Ok (slot, page') -> page_wf page'.
Proof.
  unfold add_tuple. intros Hb Hp H. inv_bind H. do 2 case_if H. inv_bind H. case_if H.
  apply res_bind_ok in H as (q & Hq & H). apply (slice_set_wf _ _ _ _ Hb Hp) in Hq.
  apply res_bind_ok in H as ([s r] & Hr & H). injection H as <- <-. apply put_le_wf. cbn [snd].
  destruct a0 as [k|]; apply res_bind_ok in Hr as (q' & Hq' & Hr); unfold set_line_pointer in Hq';
    apply (slice_set_wf _ _ _ _ (wf_le_bytes _ _) Hq) in Hq'; injection Hr as <- <-; [done|by apply put_le_wf].
Qed.

Lemma write_to_wf h buf : wf_bytes (t_trace_id h) -> wf_bytes buf -> wf_bytes (TupleHeader_write_to h buf).
Proof. intros. unfold TupleHeader_write_to. auto 20 with wf. Qed.

(** The header changes keep the trace id. *)
Definition keeps_trace (f : TupleHeader -> TupleHeader) : Prop := forall h, t_trace_id (f h) = t_trace_id h.

Lemma restamp_wf f tid page r : keeps_trace f -> page_wf page -> restamp f tid page = Ok r -> page_wf (snd r).
Proof.
  unfold restamp. intros Hf Hp H. inv_bind H. case_if H. apply res_bind_ok in H as (b & Hb & H).
  apply res_bind_ok in H as (h & Hh & H). apply res_bind_ok in H as (q & Hq & H). injection H as <-.
  assert (wf_bytes b).
  { unfold slice_get in Hb. case_if Hb. apply Ok_inj in Hb as <-. destruct Hp. auto with wf. }
  eapply slice_set_wf, Hq; [|done]. apply write_to_wf; [|done]. rewrite Hf.
  unfold TupleHeader_read_from in Hh. do 2 case_if Hh. apply Ok_inj in Hh as <-. simpl. auto with wf.
Qed.

Lemma init_if_fresh_wf page : page_wf page -> page_wf (init_if_fresh_with_special page HEAP_SPECIAL_SIZE).
Proof.
  intros [Hl Hw]. unfold init_if_fresh_with_special. destruct (_ =? 0); [|done].
  edestruct init_with_special_fields as (H1 & H2 & _); [exact Hl| |by split].
  unfold HEAP_SPECIAL_SIZE, PAGE_SIZE, PAGE_HEADER_SIZE. lia.
Qed.

(** An action that leaves a page when it succeeds. *)
Definition keeps_wf {A : Type} (act : M Page StorageError A) : Prop :=
  forall page a page', page_wf page -> act page = (Ok a, page') -> page_wf page'.

Lemma keeps_wf_bind {A B} (m : M Page StorageError A) (k : A -> M Page StorageError B) :
  keeps_wf m -> (forall a, keeps_wf (k a)) -> keeps_wf (mbindM m k).
Proof. intros Hm Hk page b page' Hp H. apply mbindM_ok in H as (a & q & Ha & H). eapply Hk, H. by eapply Hm, Ha. Qed.

Lemma keeps_wf_heap {A} (f : Page -> res HeapError (A * Page)) :
  (forall page r, page_wf page -> f page = Ok r -> page_wf (snd r)) -> keeps_wf (heap_step f).
Proof.
  intros Hf page a page' Hp. unfold heap_step. destruct (f page) as [[x q]| |] eqn:E; try done.
  intros [= <- <-]. by apply (Hf _ _ Hp E).
Qed.

Lemma keeps_wf_add slot bytes : wf_bytes bytes -> keeps_wf (add_at slot bytes).
Proof.
  intros Hb. apply keeps_wf_bind.
  - apply keeps_wf_heap. intros page [s q] Hp H. by eapply add_tuple_wf, H.
  - intros got page a page' Hp. destruct (negb _); [done|]. by intros [= <- <-].
Qed.

Lemma keeps_wf_restamp f tid : keeps_trace f -> keeps_wf (heap_step (restamp f tid)).
Proof. intros Hf. apply keeps_wf_heap. intros page r Hp. by apply restamp_wf. Qed.

Lemma keeps_wf_init : keeps_wf init_fresh.
Proof. intros page a page' Hp [= <- <-]. by apply init_if_fresh_wf. Qed.

Lemma keeps_wf_stamp lsn : keeps_wf (mmodify (stamp_pd_lsn lsn)).
Proof. intros page a page' Hp [= <- <-]. by apply set_pd_lsn_wf. Qed.

Lemma stamped_trace xmax updated : keeps_trace (stamped_header xmax updated).
Proof. done. Qed.

Lemma hot_trace xmax tid : keeps_trace (hot_header xmax tid).
Proof. done. Qed.

Create HintDb redo discriminated.
#[export] Hint Resolve stamped_trace hot_trace : redo.
#[export] Hint Resolve keeps_wf_bind keeps_wf_add keeps_wf_restamp keeps_wf_init keeps_wf_stamp : redo.

(** What the last step, the stamp, establishes. *)
Definition stamps (lsn : Lsn) (act : M Page StorageError unit) : Prop :=
  forall page page', page_wf page -> act page = (Ok tt, page') -> page_wf page' /\ lsn <= page_pd_lsn page'.

Lemma stamps_stamp lsn : in_u 64 lsn -> stamps lsn (mmodify (stamp_pd_lsn lsn)).
Proof.
  intros Hl page page' Hp [= <-]. split; [by apply set_pd_lsn_wf|]. unfold stamp_pd_lsn.
  pose proof (pd_lsn_range _ Hp). unfold in_u in *. rewrite pd_lsn_set; [lia|done|unfold in_u; lia].
Qed.

Lemma stamps_bind {A} lsn (m : M Page StorageError A) k :
  keeps_wf m -> (forall a, stamps lsn (k a)) -> stamps lsn (mbindM m k).
Proof. intros Hm Hk page page' Hp H. apply mbindM_ok in H as (a & q & Ha & H). eapply Hk, H. by eapply Hm, Ha. Qed.

#[export] Hint Resolve stamps_stamp stamps_bind : redo.

Lemma if_older_guarded lsn act : stamps lsn act -> guarded lsn (if_older lsn act).
Proof.
  intros Ha. unfold guarded, if_older. split.
  - intros page _ Hle. by rewrite (proj2 (Z.geb_le _ _)).
  - intros page page' Hp H. destruct (page_pd_lsn page >=? lsn) eqn:E; [|by eapply Ha].
    injection H as <-. zbool. split; [done|lia].
Qed.

Lemma insert_guarded lsn slot bytes : in_u 64 lsn -> wf_bytes bytes -> guarded lsn (insert_page lsn slot bytes).
Proof. intros. apply if_older_guarded. auto 10 with redo. Qed.

Lemma update_same_guarded lsn rec :
  in_u 64 lsn -> wf_bytes (hu_new_tuple_bytes rec) -> guarded lsn (update_same_page lsn rec).
Proof. intros. apply if_older_guarded. unfold stamp_deleted. auto 10 with redo. Qed.

Lemma update_old_guarded lsn rec : in_u 64 lsn -> guarded lsn (update_old_page lsn rec).
Proof. intros. apply if_older_guarded. unfold stamp_deleted. auto 10 with redo. Qed.

Lemma delete_guarded lsn rec : in_u 64 lsn -> guarded lsn (delete_page lsn rec).
Proof. intros. apply if_older_guarded. unfold stamp_deleted. auto 10 with redo. Qed.

Lemma hot_guarded lsn rec :
  in_u 64 lsn -> wf_bytes (hh_new_tuple_bytes rec) -> guarded lsn (hot_page lsn rec).
Proof. intros. apply if_older_guarded. unfold stamp_hot_update. auto 10 with redo. Qed.

(** ** Lemmas: what a restamped tuple is, and that no other slot changes *)

Lemma disjoint_pair a b rest rs :
  StronglySorted before rs -> rs ≡ₚ a :: b :: rest -> before a b \/ before b a.
Proof.
  intros Hs Hp. assert (Ha : a ∈ rs) by (rewrite Hp; apply elem_of_cons; auto).
  apply list_elem_of_split in Ha as (r1 & r2 & ->).
  assert (Hb : b ∈ r1 ++ r2).
  { rewrite <-Permutation_middle in Hp. apply Permutation_cons_inv in Hp. rewrite Hp. apply elem_of_cons; auto. }
  apply elem_of_app in Hb as [Hb|Hb].
  - right. eapply (StronglySorted_app_1_elem_of before r1 (a :: r2)); [done|done|apply elem_of_cons; auto].
  - left. apply StronglySorted_app_1_r in Hs. inversion_clear Hs as [|?? _ Hf].
    rewrite Forall_forall in Hf. by apply Hf.
Qed.

Lemma live_disjoint page i j lpi lpj :
  page_inv page -> lps page !! i = Some lpi -> lps page !! j = Some lpj -> i <> j ->
  LP_flags lpi <> Unused -> LP_flags lpj <> Unused ->
  LP_off lpi + LP_len lpi <= LP_off lpj \/ LP_off lpj + LP_len lpj <= LP_off lpi.
Proof.
  intros Hinv Hi Hj Hne Hfi Hfj. destruct (inv_disj _ Hinv) as (rs & Hp & Hs).
  assert (Hri : region lpi = Some (LP_off lpi, LP_off lpi + LP_len lpi)) by (unfold region; by rewrite decide_False).
  assert (Hrj : region lpj = Some (LP_off lpj, LP_off lpj + LP_len lpj)) by (unfold region; by rewrite decide_False).
  assert (exists rest, lps page ≡ₚ lpi :: lpj :: rest) as [rest Hrest].
  { pose proof (delete_Permutation _ _ _ Hi) as H1.
    assert (Hin : lpj ∈ delete i (lps page)).
    { apply list_elem_of_lookup. destruct (decide (j < i)%nat).
      - exists j. by rewrite list_lookup_delete_lt by done.
      - exists (j - 1)%nat. rewrite list_lookup_delete_ge by lia. by replace (S (j - 1)) with j by lia. }
    apply elem_of_Permutation in Hin as [rest Hr]. exists rest. by rewrite H1, Hr. }
  rewrite Hrest in Hp. simpl in Hp. rewrite Hri, Hrj in Hp.
  destruct (disjoint_pair _ _ _ _ Hs Hp) as [H|H]; unfold before in H; simpl in H; lia.
Qed.

(** A tuple with its header rewritten. *)
Definition restamped (f : TupleHeader -> TupleHeader) (b : list Z) (h : TupleHeader) : list Z :=
  splice 0 (TupleHeader_write_to (f h) (slice 0 TUPLE_HEADER_SIZE b)) b.

(** Where the tuple of a slot lies. *)
Lemma normal_slot page i b :
  page_inv page -> view page !! i = Some (VNormal b) ->
  exists lp, lps page !! i = Some lp /\ LP_flags lp = Normal /\ b = slice (LP_off lp) (LP_len lp) page /\
    PAGE_HEADER_SIZE <= pd_upper (header page) <= LP_off lp /\ LP_off lp + LP_len lp <= pd_special (header page) /\
    pd_special (header page) <= zlen page /\ zlen b = LP_len lp.
Proof.
  intros Hinv Hv. unfold view in Hv. rewrite list_lookup_fmap in Hv.
  destruct (lps page !! i) as [lp|] eqn:El; [|done]. simpl in Hv. injection Hv as Hv.
  unfold slot_view in Hv. destruct (LP_flags lp) eqn:Ef; try done. injection Hv as <-.
  destruct (lp_in_bounds page lp Hinv) as (Hr & Hu & Hsp & Hl); [by eapply list_elem_of_lookup_2|congruence|].
  pose proof (inv_geo _ Hinv) as Hg. pose proof (geo_lower _ Hg). pose proof (geo_lower_upper _ Hg).
  pose proof (geo_special _ Hg). pose proof (geo_len _ Hg). exists lp.
  rewrite length_slice by (unfold PAGE_HEADER_SIZE in *; lia).
  split; [done|]. split; [done|]. split; [done|]. unfold PAGE_HEADER_SIZE in *. lia.
Qed.

(** Overwriting bytes inside one live tuple. *)
Lemma splice_in_slot page i lp off bs :
  page_inv page -> lps page !! i = Some lp -> LP_flags lp = Normal -> wf_bytes bs ->
  LP_off lp <= off -> off + zlen bs <= LP_off lp + LP_len lp ->
  page_inv (splice off bs page) /\ header (splice off bs page) = header page /\
  view (splice off bs page) =
    <[i := VNormal (splice (off - LP_off lp) bs (slice (LP_off lp) (LP_len lp) page))]> (view page).
Proof.
  intros Hinv Hi Hf Hb Ho Hend. pose proof (inv_geo _ Hinv) as Hg. destruct (slot_count_geometry _ Hg) as (_ & Hsc & ?).
  destruct (lp_in_bounds page lp Hinv) as (Hr & Hu & Hsp & Hl); [by eapply list_elem_of_lookup_2|congruence|].
  pose proof (geo_lower _ Hg). pose proof (geo_lower_upper _ Hg). pose proof (geo_special _ Hg). pose proof (geo_len _ Hg).
  pose proof (geo_wf _ Hg).
  assert (Hh : header (splice off bs page) = header page) by (apply header_frame; lia).
  assert (Hg' : geometry (splice off bs page)).
  { apply (geometry_same_header page); [done|by rewrite length_splice|auto with wf|done]. }
  assert (Hlps : lps (splice off bs page) = lps page).
  { apply lps_ext; [done|unfold slot_count; rewrite Hh, length_lps; fold (slot_count page); lia|].
    intros k Hk. rewrite length_lps in Hk. rewrite lookup_lps by lia. f_equal. symmetry.
    unfold PAGE_HEADER_SIZE, LINE_POINTER_SIZE in *. apply get_splice_disj; lia. }
  split; [|split; [done|]].
  { destruct Hinv as [_ Hlive Hdis]. split; [done|by rewrite Hh, Hlps|by rewrite Hlps]. }
  apply list_eq. intros j. unfold view at 1. rewrite Hlps, list_lookup_fmap.
  destruct (decide (i = j)) as [<-|Hij].
  - rewrite list_lookup_insert_eq by (unfold view; rewrite length_fmap; by eapply lookup_lt_Some).
    rewrite Hi. simpl. unfold slot_view. rewrite Hf. do 2 f_equal.
    unfold PAGE_HEADER_SIZE in *. apply slice_splice_inner; lia.
  - rewrite list_lookup_insert_ne by done. unfold view. rewrite list_lookup_fmap.
    destruct (lps page !! j) as [lpj|] eqn:Ej; [|done]. simpl. f_equal. unfold slot_view.
    destruct (LP_flags lpj) eqn:Efj; try done. f_equal.
    destruct (live_disjoint page i j lp lpj Hinv Hi Ej Hij) as [Hd|Hd]; [congruence|congruence|..];
      (destruct (lp_in_bounds page lpj Hinv) as (? & ? & ? & ?); [by eapply list_elem_of_lookup_2|congruence|]);
      unfold PAGE_HEADER_SIZE in *; apply slice_splice_disj; lia.
Qed.

(** The slot holds a tuple with header [h]. *)
Definition tuple_at (page : Page) (slot : Z) (b : list Z) (h : TupleHeader) : Prop :=
  0 <= slot /\ view page !! Z.to_nat slot = Some (VNormal b) /\ TUPLE_HEADER_SIZE <= zlen b /\
  TupleHeader_read_from (slice 0 TUPLE_HEADER_SIZE b) = Ok h.

Lemma restamp_spec f tid page b h :
  page_inv page -> keeps_trace f -> tuple_at page (slot_id tid) b h ->
  exists page', restamp f tid page = Ok (tt, page') /\ page_inv page' /\ header page' = header page /\
    view page' = <[Z.to_nat (slot_id tid) := VNormal (restamped f b h)]> (view page).
Proof.
  intros Hinv Hf (Hs & Hv & Hlen & Hread).
  destruct (normal_slot _ _ _ Hinv Hv) as (lp & Hlp & Hfl & Hb & Hu & Hend & Hsp & Hzb).
  unfold TUPLE_HEADER_SIZE, PAGE_HEADER_SIZE in *. unfold restamp. rewrite line_pointer_lookup, Hlp by (done || apply Hinv).
  cbn [res_bind]. rewrite bool_decide_true by done. cbn [negb]. unfold TUPLE_HEADER_SIZE.
  rewrite slice_get_ok by lia. cbn [res_bind].
  assert (Hsl : slice (LP_off lp) 64 page = slice 0 64 b).
  { rewrite Hb, slice_slice by lia. by rewrite Z.add_0_r. }
  rewrite Hsl, Hread. cbn [res_bind].
  assert (Hwl : zlen (TupleHeader_write_to (f h) (slice 0 64 b)) = 64).
  { rewrite length_write_to, length_slice by lia. lia. }
  rewrite slice_set_ok by lia. cbn [res_bind]. eexists. split; [done|].
  pose proof (geo_wf _ (inv_geo _ Hinv)) as Hwf.
  assert (Hwb : wf_bytes (TupleHeader_write_to (f h) (slice 0 64 b))).
  { assert (wf_bytes b) by (rewrite Hb; auto with wf). apply write_to_wf; [|auto with wf]. rewrite Hf.
    unfold TupleHeader_read_from in Hread. do 2 case_if Hread. apply Ok_inj in Hread as <-. simpl. auto with wf. }
  destruct (splice_in_slot page _ lp (LP_off lp) _ Hinv Hlp Hfl Hwb) as (H1 & H2 & H3); [lia|lia|].
  split; [done|]. split; [done|]. rewrite H3, Z.sub_diag, <-Hb. done.
Qed.

(** The page LSN is not part of the slots. *)
Lemma set_pd_lsn_view page l :
  page_inv page -> page_inv (set_page_pd_lsn page l) /\ view (set_page_pd_lsn page l) = view page.
Proof.
  intros Hinv. pose proof (inv_geo _ Hinv) as Hg. destruct (slot_count_geometry _ Hg) as (_ & Hsc & ?).
  pose proof (geo_len _ Hg) as Hlen. unfold PAGE_SIZE in Hlen.
  assert (Hd : pd_lower (header (set_page_pd_lsn page l)) = pd_lower (header page) /\
               pd_upper (header (set_page_pd_lsn page l)) = pd_upper (header page) /\
               pd_special (header (set_page_pd_lsn page l)) = pd_special (header page)).
  { unfold header, PageHeader_read_from, set_page_pd_lsn. cbn [pd_lower pd_upper pd_special].
    rewrite !get_put_disj by lia. done. }
  destruct Hd as (Hlo & Hup & Hsp).
  assert (Hrest : forall off n, 8 <= off -> slice off n (set_page_pd_lsn page l) = slice off n page).
  { intros. apply slice_put_disj; lia. }
  assert (Hg' : geometry (set_page_pd_lsn page l)).
  { destruct Hg. split; rewrite ?Hlo, ?Hup, ?Hsp; try done; unfold set_page_pd_lsn; [by rewrite length_put_le|auto with wf]. }
  assert (Hlps : lps (set_page_pd_lsn page l) = lps page).
  { apply lps_ext; [done|unfold slot_count; rewrite Hlo, length_lps; fold (slot_count page); lia|].
    intros k Hk. rewrite length_lps in Hk. rewrite lookup_lps by lia. f_equal. symmetry.
    unfold PAGE_HEADER_SIZE, LINE_POINTER_SIZE in *. unfold get_le. by rewrite Hrest by lia. }
  pose proof (geo_lower _ Hg). pose proof (geo_lower_upper _ Hg). unfold PAGE_HEADER_SIZE in *. split.
  - destruct Hinv as [_ Hlive Hdis]. split; [done|by rewrite Hup, Hsp, Hlps|by rewrite Hlps].
  - unfold view at 1. rewrite Hlps. apply view_frame; [done|]. intros. apply Hrest. lia.
Qed.

Lemma page_inv_wf page : page_inv page -> page_wf page.
Proof. intros [Hg _ _]. split; apply Hg. Qed.

(** The page with the record's LSN, as every handler leaves it. *)
Lemma stamp_view page lsn :
  page_inv page -> in_u 64 lsn ->
  page_inv (stamp_pd_lsn lsn page) /\ view (stamp_pd_lsn lsn page) = view page /\
  page_pd_lsn (stamp_pd_lsn lsn page) = Z.max lsn (page_pd_lsn page).
Proof.
  intros Hinv Hl. destruct (set_pd_lsn_view page (Z.max lsn (page_pd_lsn page)) Hinv) as [H1 H2].
  pose proof (page_inv_wf _ Hinv) as Hw. pose proof (pd_lsn_range _ Hw). unfold in_u in *.
  split; [done|]. split; [done|]. apply pd_lsn_set; [done|unfold in_u; lia].
Qed.

Lemma add_at_spec slot bytes page page' :
  page_inv page -> wf_bytes bytes -> add_at slot bytes page = (Ok tt, page') ->
  page_inv page' /\ (Z.to_nat slot, view page') = spec_add (view page) bytes.
Proof.
  intros Hinv Hb H. unfold add_at in H. apply mbindM_ok in H as (got & q & Hq & H).
  destruct (negb (got =? slot)) eqn:E; [done|]. injection H as <-. zbool. subst got.
  unfold heap_step in Hq. destruct (add_tuple page bytes) as [[s p]| |] eqn:Ea; try done.
  injection Hq as -> <-. apply add_tuple_effect in Ea as [-> He]; [|apply Hinv|done].
  split; [by eapply add_effect_inv|]. rewrite (view_add _ _ _ _ Hinv He), first_unused_view.
  by rewrite Nat2Z.id.
Qed.

Lemma if_older_run lsn act page : page_pd_lsn page < lsn -> if_older lsn act page = act page.
Proof. intros. unfold if_older. rewrite Z.geb_leb. by rewrite (proj2 (Z.leb_gt _ _)). Qed.

Lemma stamp_last lsn (m : M Page StorageError unit) page page' :
  (m ;! mmodify (stamp_pd_lsn lsn)) page = (Ok tt, page') ->
  exists q, m page = (Ok tt, q) /\ page' = stamp_pd_lsn lsn q.
Proof. intros H. apply mbindM_ok in H as ([] & q & Hq & H). injection H as <-. eauto. Qed.

(** ** Properties *)

(** What heap redo does to a page older than the record.  Inserting puts
    the tuple into the recorded slot, which is the first free one, and changes no
    other slot; deleting succeeds on every slot holding a tuple and rewrites only
    that tuple's header: the deleter's id is set, a lock-only mark is cleared, all
    other fields and the data stay; the same-page update does both in this order.
    Each leaves a well-formed page whose LSN covers the record, on which the
    record is then skipped. *)
Theorem heap_redo_effect page lsn :
  let base := init_if_fresh_with_special page HEAP_SPECIAL_SIZE in
  page_inv base -> page_wf page -> in_u 64 lsn -> page_pd_lsn page < lsn ->
  (forall slot bytes page', wf_bytes bytes -> insert_page lsn slot bytes page = (Ok tt, page') ->
     page_inv page' /\ lsn <= page_pd_lsn page' /\ (Z.to_nat slot, view page') = spec_add (view base) bytes) /\
  (forall rec b h, page_inv page -> tuple_at page (slot_id (hd_tid rec)) b h ->
     exists page', delete_page lsn rec page = (Ok tt, page') /\ page_inv page' /\ lsn <= page_pd_lsn page' /\
       view page' = <[Z.to_nat (slot_id (hd_tid rec)) := VNormal (restamped (stamped_header (hd_xmax rec) false) b h)]>
                      (view page)) /\
  (forall rec b h page', wf_bytes (hu_new_tuple_bytes rec) -> tuple_at base (slot_id (hu_old_tid rec)) b h ->
     update_same_page lsn rec page = (Ok tt, page') ->
     page_inv page' /\ lsn <= page_pd_lsn page' /\
     (Z.to_nat (slot_id (hu_new_tid rec)), view page') =
       spec_add (<[Z.to_nat (slot_id (hu_old_tid rec)) :=
                     VNormal (restamped (stamped_header (hu_xmax_old rec) true) b h)]> (view base))
         (hu_new_tuple_bytes rec)).
Proof.
  intros base Hinv Hpw Hl Hold. split; [|split].
  - intros slot bytes page' Hb H. destruct (insert_guarded lsn slot bytes Hl Hb) as [_ Hg].
    destruct (Hg _ _ Hpw H) as [_ Hpd]. unfold insert_page in H. rewrite if_older_run in H by done.
    apply mbindM_ok in H as ([] & q & Hq & H). injection Hq as <-.
    apply stamp_last in H as (q & Hq & ->). apply add_at_spec in Hq as [Hi Hv]; [|done|done].
    destruct (stamp_view q lsn Hi Hl) as (H1 & H2 & _). by rewrite H2.
  - intros rec b h Hinv' Ht.
    destruct (restamp_spec (stamped_header (hd_xmax rec) false) (hd_tid rec) page b h) as (q & Hq & Hi & _ & Hv); [done..|].
    destruct (stamp_view q lsn Hi Hl) as (H1 & H2 & H3). exists (stamp_pd_lsn lsn q).
    split; [|split; [done|split; [lia|by rewrite H2]]]. unfold delete_page. rewrite if_older_run by done.
    unfold mbindM, heap_step, stamp_deleted. by rewrite Hq.
  - intros rec b h page' Hb Ht H. destruct (update_same_guarded lsn rec Hl Hb) as [_ Hg].
    destruct (Hg _ _ Hpw H) as [_ Hpd]. unfold update_same_page in H. rewrite if_older_run in H by done.
    apply mbindM_ok in H as ([] & q0 & Hq0 & H). injection Hq0 as <-.
    apply mbindM_ok in H as ([] & q1 & Hq1 & H). apply stamp_last in H as (q2 & Hq2 & ->).
    destruct (restamp_spec (stamped_header (hu_xmax_old rec) true) (hu_old_tid rec) base b h) as (q & Hq & Hi & _ & Hv);
      [done..|].
    unfold heap_step, stamp_deleted in Hq1. fold base in Hq1. rewrite Hq in Hq1. injection Hq1 as <-.
    apply add_at_spec in Hq2 as [Hi2 Hv2]; [|done|done]. rewrite Hv in Hv2.
    destruct (stamp_view q2 lsn Hi2 Hl) as (H1 & H2 & _). by rewrite H2.
Qed.

(** ** Witness: the first insert into a freshly extended page *)

Definition fresh_page : Page := zeros PAGE_SIZE.
Definition sample_tuple : list Z := replicate 70 7.

Lemma fresh_page_base : page_inv (init_if_fresh_with_special fresh_page HEAP_SPECIAL_SIZE).
Proof.
  assert (E : init_if_fresh_with_special fresh_page HEAP_SPECIAL_SIZE = init_with_special fresh_page HEAP_SPECIAL_SIZE)
    by (vm_compute; reflexivity).
  rewrite E. apply init_inv; [vm_compute; reflexivity|]. unfold HEAP_SPECIAL_SIZE, PAGE_SIZE, PAGE_HEADER_SIZE. lia.
Qed.

Lemma heap_redo_effect_witness :
  exists page', insert_page 8 0 sample_tuple fresh_page = (Ok tt, page') /\ page_inv page' /\ 8 <= page_pd_lsn page' /\
    view page' = [VNormal sample_tuple].
Proof.
  destruct (insert_page 8 0 sample_tuple fresh_page) as [r page'] eqn:E.
  assert (Hr : fst (insert_page 8 0 sample_tuple fresh_page) = Ok tt) by (vm_compute; reflexivity).
  rewrite E in Hr. simpl in Hr. subst r. exists page'. split; [reflexivity|].
  destruct (heap_redo_effect fresh_page 8 fresh_page_base) as (Hins & _).
  - split; [vm_compute; reflexivity|apply wf_zeros].
  - unfold in_u. lia.
  - vm_compute. reflexivity.
  - assert (Hb : wf_bytes sample_tuple) by (apply Forall_replicate; unfold is_byte; lia).
    destruct (Hins 0 sample_tuple page' Hb E) as (H1 & H2 & H3).
    split; [exact H1|]. split; [exact H2|].
    assert (Hv : view (init_if_fresh_with_special fresh_page HEAP_SPECIAL_SIZE) = []) by (vm_compute; reflexivity).
    rewrite Hv in H3. by injection H3.
Defined.
