(* ===== verification/HeapPage.v ===== *)
(** * Heap rows on a page ([pg-am-heap/src/heap_am.rs], page-local part)

    The stamps the access method writes into tuple headers, the forward and
    backward walks of HOT chains, and what a scan and the dead-tuple search read
    from one page.  The commit log is the argument [get_state], the trait method
    of the oracle the caller passes. *)

From S2P Require Import Prelude Types LinePointer SlottedPage Tuple Visibility WalRecord Recovery HeapRedo.
Local Open Scope Z_scope.
Local Open Scope rust_scope.

Definition HEAP_ONLY_TUPLE : Z := 0x8000.

Definition MAX_TUPLE_BYTES : Z := PAGE_SIZE - HEAP_SPECIAL_SIZE - PAGE_HEADER_SIZE - LINE_POINTER_SIZE.

(** [h.flags & bit != 0] *)
Definition has_bit (mask bit : Z) : bool := negb (Z.land mask bit =? 0).

(** ** Preparing the bytes of a new version *)

Definition validate_tuple_len (bytes : list Z) : res HeapError unit :=
  if zlen bytes =? 0 then Err InvalidArgument
  else if zlen bytes >? MAX_TUPLE_BYTES then Err (TupleTooLarge (zlen bytes))
  else Ok tt.

Definition stamp_xmin (tuple : list Z) (xid : TxnId) : res HeapError (list Z) :=
  if zlen tuple <? TUPLE_HEADER_SIZE then Err InvalidArgument
  else Ok (put_le 8 0 xid tuple).

Definition stamp_hot_only (tuple : list Z) (xid : TxnId) : res HeapError (list Z) :=
  if zlen tuple <? TUPLE_HEADER_SIZE then Err InvalidArgument
  else
    let owned := put_le 8 0 xid tuple in
    let infomask2 := get_le 2 54 owned in
    Ok (put_le 2 54 (Z.lor infomask2 HEAP_ONLY_TUPLE) owned).

(** [slot_count(page) as u16]: the slot a new row version is expected to get. *)
Definition next_slot (page : Page) : Z := slot_count page mod 2 ^ 16.

(** ** Stamping a row version in place *)

Definition set_cid (curcid : Z) (h : TupleHeader) : TupleHeader :=
  mkTupleHeader (t_xmin h) (t_xmax h) (t_agent_id h) (t_trace_id h) (t_ctid h) (t_infomask h) (t_infomask2 h) (t_hoff h)
    (t_flags h) curcid.

Definition am_deleted_header (xmax : TxnId) (curcid : Z) (updated : bool) (h : TupleHeader) : TupleHeader :=
  let mask := if updated then Z.lor (t_infomask h) HEAP_UPDATED else t_infomask h in
  let mask := Z.ldiff mask (Z.lor HEAP_XMAX_LOCK_ONLY HEAP_XMAX_IS_SHARE) in
  mkTupleHeader (t_xmin h) xmax (t_agent_id h) (t_trace_id h) (t_ctid h) mask (t_infomask2 h) (t_hoff h) (t_flags h) curcid.

Definition am_hot_header (xmax : TxnId) (curcid : Z) (new_tid : Tid) (h : TupleHeader) : TupleHeader :=
  let mask := Z.lor (t_infomask h) HEAP_UPDATED in
  let mask := Z.ldiff mask (Z.lor HEAP_XMAX_LOCK_ONLY HEAP_XMAX_IS_SHARE) in
  mkTupleHeader (t_xmin h) xmax (t_agent_id h) (t_trace_id h) new_tid mask
    (Z.lor (t_infomask2 h) HEAP_HOT_UPDATED) (t_hoff h) (t_flags h) curcid.

Definition am_lock_header (locker : TxnId) (curcid : Z) (shared : bool) (h : TupleHeader) : TupleHeader :=
  let mask := Z.lor (t_infomask h) HEAP_XMAX_LOCK_ONLY in
  let mask := if shared then Z.lor mask HEAP_XMAX_IS_SHARE else Z.ldiff mask HEAP_XMAX_IS_SHARE in
  mkTupleHeader (t_xmin h) locker (t_agent_id h) (t_trace_id h) (t_ctid h) mask (t_infomask2 h) (t_hoff h) (t_flags h) curcid.

Definition am_stamp_deleted (tid : Tid) (xmax : TxnId) (curcid : Z) (updated : bool) : Page -> res HeapError (unit * Page) :=
  restamp (am_deleted_header xmax curcid updated) tid.
Definition am_stamp_hot_update (tid : Tid) (xmax : TxnId) (curcid : Z) (new_tid : Tid) : Page -> res HeapError (unit * Page) :=
  restamp (am_hot_header xmax curcid new_tid) tid.
Definition stamp_lock_only (tid : Tid) (locker : TxnId) (curcid : Z) (shared : bool) : Page -> res HeapError (unit * Page) :=
  restamp (am_lock_header locker curcid shared) tid.

(** Locate the live tuple and read its header. *)
Definition tuple_header (page : Page) (tid : Tid) : res HeapError TupleHeader :=
  let? lp := line_pointer page (slot_id tid) in
  if negb (bool_decide (LP_flags lp = Normal)) then Err (TupleNotFound tid) else
  let? bytes := slice_get (LP_off lp) TUPLE_HEADER_SIZE page in
  TupleHeader_read_from bytes.

(** ** Visibility and HOT chains *)

Definition visibility_xmax (h : TupleHeader) : TxnId :=
  if has_bit (t_infomask h) HEAP_XMAX_LOCK_ONLY then TxnId_INVALID else t_xmax h.

Section judge.
Context (snapshot : Snapshot) (get_state : TxnId -> TxnState).

Definition header_visible (h : TupleHeader) : bool :=
  is_visible (t_xmin h) (visibility_xmax h) (t_cid h) snapshot get_state.

(** [TupleHeader::read_from(&bytes[..TUPLE_HEADER_SIZE])] *)
Definition read_header (bytes : list Z) : res HeapError TupleHeader :=
  let? b := slice_get 0 TUPLE_HEADER_SIZE bytes in TupleHeader_read_from b.

Fixpoint follow_loop (hops : nat) (page : Page) (pid : PageId) (chain_tid : Tid) : res HeapError (option Tid) :=
  match hops with
  | O => Err Corrupted
  | S hops =>
      if negb (page_id chain_tid =? pid) then Ok None
      else
        let? t := tuple page (slot_id chain_tid) in
        match t with
        | None => Ok None
        | Some bytes =>
            let? h := read_header bytes in
            if header_visible h then Ok (Some chain_tid)
            else if has_bit (t_infomask2 h) HEAP_HOT_UPDATED && negb (bool_decide (t_ctid h = chain_tid))
            then follow_loop hops page pid (t_ctid h)
            else Ok None
        end
  end.

Definition follow_hot_chain (page : Page) (pid : PageId) (start : Tid) : res HeapError (option Tid) :=
  follow_loop (Z.to_nat (slot_count page mod 2 ^ 16)) page pid start.

(** One slot of the scan: a row or nothing. *)
Definition scan_slot (page : Page) (pid : PageId) (columns : list ColumnType) (slot : Z)
    : res HeapError (option (Tid * list (option Datum))) :=
  let? t := tuple page slot in
  match t with
  | None => Ok None
  | Some bytes =>
      let? '(h, values) := decode_tuple bytes columns in
      if has_bit (t_infomask2 h) HEAP_ONLY_TUPLE then Ok None
      else
        let self_tid := mkTid pid slot in
        if header_visible h then Ok (Some (self_tid, values))
        else if has_bit (t_infomask2 h) HEAP_HOT_UPDATED && negb (bool_decide (t_ctid h = self_tid)) then
          let? v := follow_hot_chain page pid (t_ctid h) in
          match v with
          | None => Ok None
          | Some visible_tid =>
              let? c := tuple page (slot_id visible_tid) in
              match c with
              | None => Panic
              | Some chain_bytes =>
                  let? '(_, chain_values) := decode_tuple chain_bytes columns in
                  Ok (Some (visible_tid, chain_values))
              end
          end
        else Ok None
  end.

Fixpoint scan_slots (n : nat) (slot : Z) (page : Page) (pid : PageId) (columns : list ColumnType)
    : res HeapError (list (Tid * list (option Datum))) :=
  match n with
  | O => Ok []
  | S n =>
      let? row := scan_slot page pid columns slot in
      let? rows := scan_slots n (slot + 1) page pid columns in
      Ok (match row with Some r => r :: rows | None => rows end)
  end.

Definition scan_page (page : Page) (pid : PageId) (columns : list ColumnType)
    : res HeapError (list (Tid * list (option Datum))) :=
  if pd_upper (header page) =? 0 then Ok []
  else scan_slots (Z.to_nat (slot_count page mod 2 ^ 16)) 0 page pid columns.

End judge.

(** ** The owner of a version's index entries *)

Fixpoint hot_links (n : nat) (slot : Z) (page : Page) (links : gmap Tid Z) : res HeapError (gmap Tid Z) :=
  match n with
  | O => Ok links
  | S n =>
      let? t := tuple page slot in
      match t with
      | None => hot_links n (slot + 1) page links
      | Some bytes =>
          let? h := read_header bytes in
          hot_links n (slot + 1) page
            (if has_bit (t_infomask2 h) HEAP_HOT_UPDATED then <[t_ctid h := slot]> links else links)
      end
  end.

Fixpoint root_loop (hops : nat) (page : Page) (pid : PageId) (links : gmap Tid Z) (cur : Tid) : res HeapError Tid :=
  match hops with
  | O => Err Corrupted
  | S hops =>
      let? t := tuple page (slot_id cur) in
      match t with
      | None => Ok cur
      | Some bytes =>
          let? h := read_header bytes in
          if negb (has_bit (t_infomask2 h) HEAP_ONLY_TUPLE) then Ok cur
          else match links !! cur with
               | Some slot => root_loop hops page pid links (mkTid pid slot)
               | None => Ok cur
               end
      end
  end.

Definition hot_chain_root (page : Page) (pid : PageId) (tid : Tid) : res HeapError Tid :=
  let n := Z.to_nat (slot_count page mod 2 ^ 16) in
  let? links := hot_links n 0 page ∅ in
  root_loop n page pid links tid.

(** ** Dead row versions *)

Definition header_dead (oldest_xmin : TxnId) (get_state : TxnId -> TxnState) (h : TupleHeader) : bool :=
  bool_decide (get_state (t_xmin h) = Aborted) ||
  (negb (has_bit (t_infomask h) HEAP_XMAX_LOCK_ONLY) && negb (t_xmax h =? TxnId_INVALID) && (t_xmax h <? oldest_xmin) &&
   bool_decide (get_state (t_xmax h) = Committed)).

Fixpoint dead_slots (n : nat) (slot : Z) (page : Page) (pid : PageId) (oldest_xmin : TxnId) (get_state : TxnId -> TxnState)
    : res HeapError (list Tid) :=
  match n with
  | O => Ok []
  | S n =>
      let? t := tuple page slot in
      let? rest := dead_slots n (slot + 1) page pid oldest_xmin get_state in
      match t with
      | None => Ok rest
      | Some bytes =>
          match TupleHeader_read_from bytes with
          | Ok h => Ok (if header_dead oldest_xmin get_state h then mkTid pid slot :: rest else rest)
          | Err _ => Ok rest
          | Panic => Panic
          end
      end
  end.

Definition dead_page (page : Page) (pid : PageId) (oldest_xmin : TxnId) (get_state : TxnId -> TxnState) : res HeapError (list Tid) :=
  if pd_upper (header page) =? 0 then Ok []
  else dead_slots (Z.to_nat (slot_count page mod 2 ^ 16)) 0 page pid oldest_xmin get_state.

(** ** Lemmas: headers on the page *)

Lemma header_reread h buf : header_wf h -> zlen buf = TUPLE_HEADER_SIZE -> TupleHeader_read_from (TupleHeader_write_to h buf) = Ok h.
Proof.
  intros [H1 H2 H3 H4 H5 H6 H7 H8 H9 H10 H11] Hb. unfold in_u, TUPLE_HEADER_SIZE in *.
  unfold TupleHeader_read_from, TUPLE_HEADER_SIZE.
  rewrite length_write_to, (proj2 (Z.ltb_ge _ _)) by lia.
  unfold TupleHeader_write_to. bytes. cbn [negb Z.eqb]. by destruct h as [? ? ? ? [] ? ? ? ? ?].
Qed.

Lemma read_from_wf b h : wf_bytes b -> TupleHeader_read_from b = Ok h -> header_wf h.
Proof.
  unfold TupleHeader_read_from, TUPLE_HEADER_SIZE. intros Hb H. case_if H. case_if H. zbool. apply Ok_inj in H as <-.
  assert (Hg : forall n off, 0 <= off -> off + Z.of_nat n <= 64 -> 0 <= get_le n off b < 256 ^ Z.of_nat n) by (intros; apply get_le_bound; [done|lia|lia]).
  split; cbn [t_xmin t_xmax t_agent_id t_trace_id t_ctid page_id slot_id t_infomask t_infomask2 t_hoff t_flags t_cid]; unfold in_u;
    try (change (2 ^ 64) with (256 ^ Z.of_nat 8)); try (change (2 ^ 16) with (256 ^ Z.of_nat 2)); try (change (2 ^ 32) with (256 ^ Z.of_nat 4));
    try (apply Hg; lia).
  apply Nat2Z.inj. rewrite length_slice; lia.
Qed.

(** Masks of 16 bits stay masks of 16 bits. *)
Lemma ldiff_bound a m n : 0 <= n -> 0 <= a < 2 ^ n -> 0 <= Z.ldiff a m < 2 ^ n.
Proof.
  intros Hn Ha. rewrite <-(Z.mod_small a (2 ^ n)), <-Z.land_ones, Z.ldiff_land, <-Z.land_assoc by done.
  rewrite (Z.land_comm (Z.ones n)), Z.land_assoc, Z.land_ones by done. apply Z.mod_pos_bound. lia.
Qed.

(** A header change that keeps the field widths. *)
Definition keeps_header (f : TupleHeader -> TupleHeader) : Prop := keeps_trace f /\ forall h, header_wf h -> header_wf (f h).

Lemma mask_stamped m b : in_u 16 m ->
  in_u 16 (Z.ldiff (if b : bool then Z.lor m HEAP_UPDATED else m) (Z.lor HEAP_XMAX_LOCK_ONLY HEAP_XMAX_IS_SHARE)).
Proof.
  intros Hm. apply ldiff_bound; [done|]. destruct b; [|done]. apply lor_bound; [done|done|]. unfold HEAP_UPDATED. lia.
Qed.

Lemma am_deleted_keeps xmax cid updated : in_u 64 xmax -> in_u 32 cid -> keeps_header (am_deleted_header xmax cid updated).
Proof. intros Hx Hc. split; [done|]. intros h []. split; try done; cbn. by apply mask_stamped. Qed.

Lemma am_hot_keeps xmax cid tid :
  in_u 64 xmax -> in_u 32 cid -> in_u 64 (page_id tid) -> in_u 16 (slot_id tid) -> keeps_header (am_hot_header xmax cid tid).
Proof.
  intros Hx Hc Hp Hs. split; [done|]. intros h []. split; try done; cbn; [by apply (mask_stamped _ true)|].
  apply lor_bound; [done|done|unfold HEAP_HOT_UPDATED; lia].
Qed.

Lemma am_lock_keeps xmax cid shared : in_u 64 xmax -> in_u 32 cid -> keeps_header (am_lock_header xmax cid shared).
Proof.
  intros Hx Hc. split; [done|]. intros h []. split; try done; cbn.
  assert (in_u 16 (Z.lor (t_infomask h) HEAP_XMAX_LOCK_ONLY)) by (apply lor_bound; [done|done|unfold HEAP_XMAX_LOCK_ONLY; lia]).
  destruct shared; [apply lor_bound; [done|done|unfold HEAP_XMAX_IS_SHARE; lia]|by apply ldiff_bound].
Qed.

Lemma tuple_header_at page tid b h : page_inv page -> tuple_at page (slot_id tid) b h -> tuple_header page tid = Ok h.
Proof.
  intros Hinv (Hs & Hv & Hlen & Hread). destruct (normal_slot _ _ _ Hinv Hv) as (lp & Hlp & Hfl & Hb & Hu & Hend & Hsp & Hzb).
  unfold TUPLE_HEADER_SIZE, PAGE_HEADER_SIZE in *. unfold tuple_header. rewrite line_pointer_lookup, Hlp by (done || apply Hinv).
  cbn [res_bind]. rewrite bool_decide_true by done. cbn [negb]. unfold TUPLE_HEADER_SIZE.
  rewrite slice_get_ok by lia. cbn [res_bind].
  assert (slice (LP_off lp) 64 page = slice 0 64 b) as ->; [|done].
  rewrite Hb, slice_slice by lia. by rewrite Z.add_0_r.
Qed.

Lemma tuple_at_header_wf page slot b h : page_inv page -> tuple_at page slot b h -> header_wf h /\ wf_bytes b.
Proof.
  intros Hinv (Hs & Hv & Hlen & Hread). destruct (normal_slot _ _ _ Hinv Hv) as (lp & _ & _ & Hb & _).
  pose proof (geo_wf _ (inv_geo _ Hinv)). assert (wf_bytes b) by (rewrite Hb; auto with wf). split; [|done].
  eapply read_from_wf, Hread. auto with wf.
Qed.

(** What a stamp leaves behind: the same page with one header changed. *)
Lemma restamp_at f tid page b h :
  page_inv page -> keeps_header f -> tuple_at page (slot_id tid) b h ->
  exists page', restamp f tid page = Ok (tt, page') /\ page_inv page' /\ header page' = header page /\
    view page' = <[Z.to_nat (slot_id tid) := VNormal (restamped f b h)]> (view page) /\
    tuple_at page' (slot_id tid) (restamped f b h) (f h).
Proof.
  intros Hinv [Hf Hw] Hat. destruct (restamp_spec f tid page b h Hinv Hf Hat) as (page' & H1 & H2 & H3 & H4).
  exists page'. do 4 (split; [done|]). destruct (tuple_at_header_wf _ _ _ _ Hinv Hat) as [Hh Hb].
  destruct Hat as (Hs & Hv & Hlen & Hread). unfold TUPLE_HEADER_SIZE in *.
  assert (Hsl : zlen (slice 0 64 b) = 64) by (rewrite length_slice; lia).
  assert (Hwl : zlen (TupleHeader_write_to (f h) (slice 0 64 b)) = 64) by (by rewrite length_write_to).
  split; [done|]. split; [|split].
  - rewrite H4, list_lookup_insert_eq; [done|]. by eapply lookup_lt_Some.
  - unfold restamped. rewrite length_splice. done.
  - unfold restamped, TUPLE_HEADER_SIZE. rewrite slice_splice_same by lia. by apply header_reread; [apply Hw|].
Qed.
