(* ===== verification/HeapChain.v ===== *)
(** * Version chains and scans of a heap page

    What [follow_hot_chain], [hot_chain_root] and a scan of one page compute, in
    terms of the chains of row versions on the page: a chain starts at a root
    version, every HOT update appends a version marked [HEAP_ONLY_TUPLE] and links
    it from its predecessor through [t_ctid]. *)

From S2P Require Import Prelude Types LinePointer SlottedPage Tuple Visibility WalRecord Recovery HeapRedo HeapPage.
Local Open Scope Z_scope.
Local Open Scope rust_scope.

(** The row version in a slot, with its header. *)
Definition row_at (page : Page) (i : nat) (b : list Z) (h : TupleHeader) : Prop :=
  view page !! i = Some (VNormal b) /\ read_header b = Ok h.

(** A page as the access method builds it: every slot holds a row version. *)
Definition heap_page (page : Page) : Prop :=
  page_inv page /\ forall i v, view page !! i = Some v -> exists b h, row_at page i b h.

Definition version_header (page : Page) (t : Tid) : option TupleHeader :=
  match view page !! Z.to_nat (slot_id t) with
  | Some (VNormal b) => match read_header b with Ok h => Some h | _ => None end
  | _ => None
  end.

Definition linked (h : TupleHeader) (t : Tid) : bool :=
  has_bit (t_infomask2 h) HEAP_HOT_UPDATED && negb (bool_decide (t_ctid h = t)).

(** The versions from [t] to the end of its chain, all on page [pid]. *)
Inductive hot_path (page : Page) (pid : PageId) : Tid -> list Tid -> Prop :=
| path_end t b h : page_id t = pid -> 0 <= slot_id t -> row_at page (Z.to_nat (slot_id t)) b h -> linked h t = false ->
    hot_path page pid t [t]
| path_link t b h l : page_id t = pid -> 0 <= slot_id t -> row_at page (Z.to_nat (slot_id t)) b h -> linked h t = true ->
    hot_path page pid (t_ctid h) l -> hot_path page pid t (t :: l).

Definition version_visible (snapshot : Snapshot) (get_state : TxnId -> TxnState) (page : Page) (t : Tid) : bool :=
  match version_header page t with Some h => header_visible snapshot get_state h | None => false end.

(** ** Lemmas *)

Lemma row_header page t b h : row_at page (Z.to_nat (slot_id t)) b h -> version_header page t = Some h.
Proof. intros [Hv Hr]. unfold version_header. by rewrite Hv, Hr. Qed.

Lemma row_tuple page slot b h : page_inv page -> 0 <= slot -> row_at page (Z.to_nat slot) b h -> tuple page slot = Ok (Some b).
Proof. intros Hi Hs [Hv _]. by rewrite tuple_view, Hv. Qed.

Lemma length_view page : page_inv page -> zlen (view page) = slot_count page /\ slot_count page mod 2 ^ 16 = slot_count page.
Proof.
  intros Hi. pose proof (inv_geo _ Hi) as Hg. destruct (slot_count_geometry _ Hg) as (_ & H1 & H2).
  pose proof (geo_lower_upper _ Hg). pose proof (geo_special _ Hg). pose proof (geo_upper_special _ Hg). unfold PAGE_SIZE, PAGE_HEADER_SIZE, LINE_POINTER_SIZE in *.
  unfold view. rewrite length_fmap, length_lps. split; [lia|]. apply Z.mod_small. lia.
Qed.

Lemma path_slot page pid t l : hot_path page pid t l -> forall u, u ∈ l -> page_id u = pid /\ 0 <= slot_id u /\ (Z.to_nat (slot_id u) < length (view page))%nat.
Proof.
  induction 1 as [t b h Hp Hs [Hv _] _|t b h l Hp Hs [Hv _] _ _ IH]; intros u Hu.
  - apply list_elem_of_singleton in Hu as ->. split; [done|]. split; [done|]. by eapply lookup_lt_Some.
  - apply elem_of_cons in Hu as [->|Hu]; [|by apply IH]. split; [done|]. split; [done|]. by eapply lookup_lt_Some.
Qed.

(** A chain that visits no version twice is no longer than the page has slots. *)
Lemma path_length page pid t l : page_inv page -> hot_path page pid t l -> NoDup l -> zlen l <= slot_count page.
Proof.
  intros Hi Hp Hn. destruct (length_view page Hi) as [<- _].
  assert (Hinj : NoDup ((fun u => Z.to_nat (slot_id u)) <$> l)).
  { apply NoDup_fmap_2_strong; [|done]. intros u v Hu Hv E. destruct (path_slot _ _ _ _ Hp u Hu) as (? & ? & _), (path_slot _ _ _ _ Hp v Hv) as (? & ? & _).
    destruct u as [pu su], v as [pv sv]. cbn in *. f_equal; [congruence|lia]. }
  assert (Hsub : (fun u => Z.to_nat (slot_id u)) <$> l ⊆ seq 0 (length (view page))).
  { intros i Hi'. apply list_elem_of_fmap in Hi' as (u & -> & Hu). apply elem_of_seq. destruct (path_slot _ _ _ _ Hp u Hu) as (_ & _ & ?). lia. }
  pose proof (NoDup_submseteq _ _ Hinj Hsub) as Hm. apply submseteq_length in Hm.
  rewrite length_fmap, length_seq in Hm. lia.
Qed.

Section judge.
Context (snapshot : Snapshot) (get_state : TxnId -> TxnState).
Abbreviation vis := (version_visible snapshot get_state).

Lemma follow_loop_path page pid t l : page_inv page -> hot_path page pid t l -> forall n, (length l <= n)%nat ->
  follow_loop snapshot get_state n page pid t = Ok (List.find (vis page) l).
Proof.
  intros Hi. induction 1 as [t b h Hp Hs Hr Hl|t b h l Hp Hs Hr Hl Hpath IH]; intros n Hn; (destruct n as [|n]; [cbn in Hn; lia|]); cbn [follow_loop];
    rewrite (proj2 (Z.eqb_eq _ _) Hp); cbn [negb]; rewrite (row_tuple _ _ _ _ Hi Hs Hr); cbn [res_bind]; rewrite (proj2 Hr); cbn [res_bind List.find];
    unfold version_visible at 1; rewrite (row_header _ _ _ _ Hr); (destruct (header_visible _ _ h); [done|]); fold (linked h t); rewrite Hl.
  - done.
  - apply IH. cbn in Hn. lia.
Qed.

Lemma follow_path page pid t l : page_inv page -> hot_path page pid t l -> NoDup l ->
  follow_hot_chain snapshot get_state page pid t = Ok (List.find (vis page) l).
Proof.
  intros Hi Hp Hn. pose proof (path_length _ _ _ _ Hi Hp Hn). unfold follow_hot_chain. destruct (length_view page Hi) as [_ ->].
  eapply follow_loop_path; [done|done|lia].
Qed.

End judge.

(** ** Links backwards *)

(** No two versions claim the same successor. *)
Definition links_unique (page : Page) : Prop :=
  forall i j bi hi bj hj, row_at page i bi hi -> row_at page j bj hj -> has_bit (t_infomask2 hi) HEAP_HOT_UPDATED = true ->
    has_bit (t_infomask2 hj) HEAP_HOT_UPDATED = true -> t_ctid hi = t_ctid hj -> i = j.

Definition link_of (page : Page) (u : Tid) (s : Z) : Prop :=
  0 <= s /\ exists b h, row_at page (Z.to_nat s) b h /\ has_bit (t_infomask2 h) HEAP_HOT_UPDATED = true /\ t_ctid h = u.

Lemma hot_links_spec page : heap_page page -> forall n slot links, 0 <= slot -> slot + Z.of_nat n <= slot_count page ->
  exists links', hot_links n slot page links = Ok links' /\
    (forall u s, links' !! u = Some s -> links !! u = Some s \/ (slot <= s < slot + Z.of_nat n /\ link_of page u s)) /\
    (forall u s, slot <= s < slot + Z.of_nat n -> link_of page u s -> is_Some (links' !! u)) /\
    (forall u, is_Some (links !! u) -> is_Some (links' !! u)).
Proof.
  intros [Hi Hrows]. destruct (length_view page Hi) as [Hlen _]. induction n as [|n IH]; intros slot links Hs Hn.
  { exists links. split; [done|]. split; [by left|]. split; [lia|done]. }
  cbn [hot_links]. destruct (lookup_lt_is_Some_2 (view page) (Z.to_nat slot)) as [v Hv]; [lia|].
  destruct (Hrows _ _ Hv) as (b & h & Hr). rewrite (row_tuple _ _ _ _ Hi Hs Hr). cbn [res_bind]. rewrite (proj2 Hr). cbn [res_bind].
  edestruct (IH (slot + 1)) as (links' & H1 & H2 & H3 & H4); [lia|lia|]. exists links'. split; [exact H1|]. split; [|split].
  - intros u s Hu. destruct (H2 u s Hu) as [Hl|[? ?]]; [|right; split; [lia|done]].
    destruct (has_bit (t_infomask2 h) HEAP_HOT_UPDATED) eqn:Eb; [|by left].
    apply lookup_insert_Some in Hl as [[<- <-]|[_ Hl]]; [|by left]. right. split; [lia|]. split; [done|]. by exists b, h.
  - intros u s Hs' Hl. destruct (decide (s = slot)) as [->|]; [|apply (H3 u s); [lia|done]]. apply H4.
    destruct Hl as (_ & b' & h' & Hr' & Hb & Hc). destruct Hr as [Hr1 Hr2], Hr' as [Hr1' Hr2']. rewrite Hr1 in Hr1'. injection Hr1' as <-.
    rewrite Hr2 in Hr2'. injection Hr2' as <-. rewrite Hb, Hc, lookup_insert_eq. by eexists.
  - intros u Hu. apply H4. destruct (has_bit _ _); [|done]. destruct (decide (t_ctid h = u)) as [<-|]; [rewrite lookup_insert_eq; by eexists|].
    by rewrite lookup_insert_ne.
Qed.

(** The versions of a chain behind its root are reached through links only. *)
Definition heap_only (page : Page) (t : Tid) : bool :=
  match version_header page t with Some h => has_bit (t_infomask2 h) HEAP_ONLY_TUPLE | None => false end.

Lemma path_head page pid t l : hot_path page pid t l -> exists l', l = t :: l'.
Proof. destruct 1; eauto. Qed.

Lemma path_pred page pid t l : hot_path page pid t l -> forall k u v, l !! k = Some u -> l !! S k = Some v ->
  exists b h, row_at page (Z.to_nat (slot_id u)) b h /\ linked h u = true /\ t_ctid h = v.
Proof.
  induction 1 as [t b h Hp Hs Hr Hl|t b h l Hp Hs Hr Hl Hpath IH]; intros k u v Hu Hv; [by destruct k|].
  destruct k as [|k]; [|by eapply IH]. injection Hu as <-. destruct (path_head _ _ _ _ Hpath) as [l' ->]. injection Hv as <-. eauto.
Qed.

Lemma path_row page pid t l : hot_path page pid t l -> forall u, u ∈ l -> exists b h, row_at page (Z.to_nat (slot_id u)) b h.
Proof.
  induction 1 as [t b h Hp Hs Hr Hl|t b h l Hp Hs Hr Hl Hpath IH]; intros u Hu.
  - apply list_elem_of_singleton in Hu as ->. eauto.
  - apply elem_of_cons in Hu as [->|Hu]; [eauto|by apply IH].
Qed.

Lemma root_loop_path page pid root l links : heap_page page -> links_unique page -> hot_path page pid root l ->
  heap_only page root = false -> (forall k u, l !! S k = Some u -> heap_only page u = true) ->
  (forall u s, links !! u = Some s -> link_of page u s) ->
  (forall u s, 0 <= s < slot_count page -> link_of page u s -> is_Some (links !! u)) ->
  forall k t n, l !! k = Some t -> (k < n)%nat -> root_loop n page pid links t = Ok root.
Proof.
  intros [Hi _] Huniq Hp Hroot Honly Hsound Hcompl. destruct (length_view page Hi) as [Hlen _].
  induction k as [|k IH]; intros t n Ht Hn; (destruct n as [|n]; [lia|]); cbn [root_loop];
    destruct (path_row _ _ _ _ Hp t (list_elem_of_lookup_2 _ _ _ Ht)) as (b & h & Hr);
    destruct (path_slot _ _ _ _ Hp t (list_elem_of_lookup_2 _ _ _ Ht)) as (Hpt & Hst & _);
    rewrite (row_tuple _ _ _ _ Hi Hst Hr); cbn [res_bind]; rewrite (proj2 Hr); cbn [res_bind].
  - destruct (path_head _ _ _ _ Hp) as [l' ->]. injection Ht as <-. unfold heap_only in Hroot. rewrite (row_header _ _ _ _ Hr) in Hroot. by rewrite Hroot.
  - pose proof (Honly k t Ht) as Ho. unfold heap_only in Ho. rewrite (row_header _ _ _ _ Hr) in Ho. rewrite Ho. cbn [negb].
    destruct (lookup_lt_is_Some_2 l k) as [u Hu]; [apply lookup_lt_Some in Ht; lia|].
    destruct (path_pred _ _ _ _ Hp k u t Hu Ht) as (bu & hu & Hru & Hlu & Hcu).
    destruct (path_slot _ _ _ _ Hp u (list_elem_of_lookup_2 _ _ _ Hu)) as (Hpu & Hsu & Hu').
    assert (Hbu : has_bit (t_infomask2 hu) HEAP_HOT_UPDATED = true) by (unfold linked in Hlu; by apply andb_true_iff in Hlu as [? _]).
    destruct (Hcompl t (slot_id u)) as [s Hs]; [lia|split; [done|by exists bu, hu]|]. rewrite Hs.
    destruct (Hsound _ _ Hs) as (Hs0 & b' & h' & Hr' & Hb' & Hc').
    assert (s = slot_id u) as ->. { assert (Z.to_nat s = Z.to_nat (slot_id u)) by (eapply Huniq; try done; congruence). lia. }
    replace (mkTid pid (slot_id u)) with u by (destruct u; cbn in *; congruence). apply IH; [done|lia].
Qed.

(** HOT chains are walked exactly.  On a page whose chains are finite,
    [follow_hot_chain] returns the first version of the chain that the snapshot
    sees, or nothing, for chains of any length; and [hot_chain_root] leads every
    version of a chain back to the root that owns its index entries. *)
Theorem hot_chain_exact snapshot get_state page pid root l t k :
  heap_page page -> links_unique page -> hot_path page pid root l -> NoDup l ->
  heap_only page root = false -> (forall j u, l !! S j = Some u -> heap_only page u = true) -> l !! k = Some t ->
  follow_hot_chain snapshot get_state page pid root = Ok (List.find (version_visible snapshot get_state page) l) /\
  hot_chain_root page pid t = Ok root.
Proof.
  intros Hh Huniq Hp Hn Hroot Honly Ht. pose proof Hh as [Hi _]. split; [by apply follow_path|].
  unfold hot_chain_root. destruct (length_view page Hi) as [Hlen ->]. pose proof (path_length _ _ _ _ Hi Hp Hn) as Hpl. pose proof (lookup_lt_Some _ _ _ Ht).
  destruct (hot_links_spec page Hh (Z.to_nat (slot_count page)) 0 ∅) as (links & H1 & H2 & H3 & _); [lia|lia|]. rewrite H1. cbn [res_bind].
  eapply root_loop_path; try done; [| |lia].
  - intros u s Hu. by destruct (H2 u s Hu) as [Hl|[_ ?]].
  - intros u s Hs. apply H3. lia.
Qed.

(** ** Scans *)

Lemma read_header_full b h : read_header b = Ok h -> TupleHeader_read_from b = Ok h.
Proof.
  unfold read_header, slice_get, TUPLE_HEADER_SIZE. intros H. apply res_bind_ok in H as (b' & Hb & H). case_if Hb. zbool. apply Ok_inj in Hb as <-.
  rewrite <-H. unfold TupleHeader_read_from, TUPLE_HEADER_SIZE. rewrite length_slice, !(proj2 (Z.ltb_ge _ _)) by lia.
  assert (Hg : forall n off, 0 <= off -> off + Z.of_nat n <= 64 -> get_le n off (slice 0 64 b) = get_le n off b).
  { intros n off Ho Hn. unfold slice at 1. change (Z.to_nat 0) with 0%nat. rewrite drop_0. apply get_le_take; lia. }
  rewrite !Hg, slice_slice by lia. done.
Qed.

(** The columns of a version. *)
Definition version_values (page : Page) (columns : list ColumnType) (t : Tid) : list (option Datum) :=
  match view page !! Z.to_nat (slot_id t) with
  | Some (VNormal b) => match decode_tuple b columns with Ok (_, values) => values | _ => [] end
  | _ => []
  end.

Definition rows_decode (page : Page) (columns : list ColumnType) : Prop :=
  forall i b h, row_at page i b h -> exists values, decode_tuple b columns = Ok (h, values).

Section scan.
Context (snapshot : Snapshot) (get_state : TxnId -> TxnState) (columns : list ColumnType) (page : Page) (pid : PageId).
Context (Hpage : heap_page page) (Hdec : rows_decode page columns).

(** The version a scan shows for the chain that starts in a slot. *)
Definition visible_row (paths : Z -> list Tid) (slot : Z) : option (Tid * list (option Datum)) :=
  if heap_only page (mkTid pid slot) then None
  else (fun t => (t, version_values page columns t)) <$> List.find (version_visible snapshot get_state page) (paths slot).

Definition paths_ok (paths : Z -> list Tid) : Prop :=
  forall slot, 0 <= slot < slot_count page -> heap_only page (mkTid pid slot) = false ->
    hot_path page pid (mkTid pid slot) (paths slot) /\ NoDup (paths slot).

Lemma find_visible_values l t : (forall u, u ∈ l -> exists b h, row_at page (Z.to_nat (slot_id u)) b h) ->
  List.find (version_visible snapshot get_state page) l = Some t ->
  exists b h, row_at page (Z.to_nat (slot_id t)) b h /\ decode_tuple b columns = Ok (h, version_values page columns t).
Proof.
  intros Hl Hf. apply List.find_some in Hf as [Hin _]. apply list_elem_of_In in Hin. destruct (Hl t Hin) as (b & h & Hr). exists b, h. split; [done|].
  destruct (Hdec _ _ _ Hr) as [values Hd]. unfold version_values. by rewrite (proj1 Hr), Hd.
Qed.

Lemma scan_slot_spec paths slot : paths_ok paths -> 0 <= slot < slot_count page ->
  scan_slot snapshot get_state page pid columns slot = Ok (visible_row paths slot).
Proof.
  intros Hpaths Hs. destruct Hpage as [Hi Hrows]. destruct (length_view page Hi) as [Hlen _].
  destruct (lookup_lt_is_Some_2 (view page) (Z.to_nat slot)) as [v Hv]; [lia|]. destruct (Hrows _ _ Hv) as (b & h & Hr).
  destruct (Hdec _ _ _ Hr) as [values Hd]. unfold scan_slot. rewrite (row_tuple _ slot _ _ Hi) by (done || lia). cbn [res_bind]. rewrite Hd. cbn [res_bind].
  pose proof (row_header page (mkTid pid slot) b h Hr) as Hh. unfold visible_row. specialize (Hpaths slot Hs). unfold heap_only in *. rewrite Hh in *.
  destruct (has_bit (t_infomask2 h) HEAP_ONLY_TUPLE); [done|]. destruct (Hpaths eq_refl) as [Hp Hn].
  destruct (path_head _ _ _ _ Hp) as [l' El]. rewrite El in *. cbn [List.find].
  unfold version_visible at 1. rewrite Hh. destruct (header_visible snapshot get_state h) eqn:Ev.
  { unfold version_values. cbn [slot_id fmap option_fmap option_map]. by rewrite (proj1 Hr), Hd. }
  fold (linked h (mkTid pid slot)). inversion Hp as [t0 b0 h0 _ _ Hr0 Hl0|t0 b0 h0 l0 _ _ Hr0 Hl0 Hp0]; subst.
  - assert (h0 = h) as -> by (apply (row_header page (mkTid pid slot)) in Hr0; congruence). by rewrite Hl0.
  - assert (h0 = h) as -> by (apply (row_header page (mkTid pid slot)) in Hr0; congruence). rewrite Hl0.
    apply NoDup_cons in Hn as [_ Hn]. rewrite (follow_path _ _ _ _ _ _ Hi Hp0 Hn). cbn [res_bind].
    destruct (List.find _ l') as [t|] eqn:Ef; [|done].
    destruct (find_visible_values l' t (path_row _ _ _ _ Hp0) Ef) as (bt & ht & Hrt & Hdt). apply List.find_some in Ef as [Hin _]. apply list_elem_of_In in Hin.
    destruct (path_slot _ _ _ _ Hp0 t Hin) as (_ & Hst & _). rewrite (row_tuple _ _ _ _ Hi Hst Hrt). cbn [res_bind]. rewrite Hdt. done.
Qed.

Lemma scan_slots_spec paths n slot : paths_ok paths -> 0 <= slot -> slot + Z.of_nat n <= slot_count page ->
  scan_slots snapshot get_state n slot page pid columns = Ok (omap (visible_row paths) (seqZ slot (Z.of_nat n))).
Proof.
  intros Hp. revert slot. induction n as [|n IH]; intros slot Hs Hn; [done|]. cbn [scan_slots]. rewrite (scan_slot_spec paths) by (done || lia).
  cbn [res_bind]. rewrite IH by lia. cbn [res_bind]. rewrite (seqZ_cons slot) by lia. replace (Z.pred (Z.of_nat (S n))) with (Z.of_nat n) by lia.
  cbn. by destruct (visible_row paths slot).
Qed.

End scan.

(** C10: a scan of a page shows every row once, in the version its snapshot sees:
    for each chain, in the order of its root's slot, the first visible version
    with its columns, and nothing for a chain without one.  Versions that are only
    reachable through links are never shown on their own. *)
Theorem heap_scan_exact snapshot get_state columns page pid paths :
  heap_page page -> rows_decode page columns -> paths_ok page pid paths ->
  scan_page snapshot get_state page pid columns =
    Ok (omap (visible_row snapshot get_state columns page pid paths) (seqZ 0 (slot_count page))).
Proof.
  intros Hh Hd Hp. pose proof Hh as [Hi _]. pose proof (inv_geo _ Hi) as Hg. destruct (slot_count_geometry _ Hg) as (_ & _ & Hc).
  unfold scan_page. pose proof (geo_lower _ Hg). pose proof (geo_lower_upper _ Hg). unfold PAGE_HEADER_SIZE in *.
  rewrite (proj2 (Z.eqb_neq _ _)) by lia. destruct (length_view page Hi) as [_ ->].
  rewrite (scan_slots_spec _ _ _ _ _ Hh Hd paths) by (done || lia). by rewrite Z2Nat.id.
Qed.

(** ** Witnesses *)

(** A row inserted by transaction 1 and HOT-updated by transaction 2. *)
Definition chain_columns : list ColumnType := [Int4].
Definition chain_bytes (xid v : Z) : list Z :=
  match encode_tuple (TupleHeader_new xid 0 0 (replicate 16 0) (mkTid 5 0) 0) chain_columns [Some (DInt4 v)] with Ok b => b | _ => [] end.
Definition chain_new : list Z := match stamp_hot_only (chain_bytes 2 20) 2 with Ok b => b | _ => [] end.
Definition chain_page0 : Page :=
  match add_tuple (init_with_special (zeros PAGE_SIZE) HEAP_SPECIAL_SIZE) (chain_bytes 1 10) with Ok (_, p) => p | _ => [] end.
Definition chain_page1 : Page := match am_stamp_hot_update (mkTid 5 0) 2 0 (mkTid 5 1) chain_page0 with Ok (_, p) => p | _ => [] end.
Definition chain_page : Page := match add_tuple chain_page1 chain_new with Ok (_, p) => p | _ => [] end.
Definition chain_old : list Z := match view chain_page !! 0%nat with Some (VNormal b) => b | _ => [] end.
Definition chain_snapshot : Snapshot := {| xmin := 9; xmax := 10; xip := []; current_xid := 9; curcid := 0 |}.
Definition chain_header0 : TupleHeader := match read_header chain_old with Ok h => h | _ => TupleHeader_new 0 0 0 [] (mkTid 0 0) 0 end.
Definition chain_header1 : TupleHeader := match read_header chain_new with Ok h => h | _ => TupleHeader_new 0 0 0 [] (mkTid 0 0) 0 end.

Definition chain_first : TupleHeader := match read_header (chain_bytes 1 10) with Ok h => h | _ => chain_header1 end.

Lemma chain_first_at : tuple_at chain_page0 0 (chain_bytes 1 10) chain_first.
Proof. split; [done|]. split; [vm_compute; reflexivity|]. split; [vm_compute; discriminate|vm_compute; reflexivity]. Qed.

Lemma chain_page_inv : page_inv chain_page.
Proof.
  assert (H0 : page_inv chain_page0).
  { apply page_reach_inv. eapply (reach_add (init_with_special (zeros PAGE_SIZE) HEAP_SPECIAL_SIZE) (chain_bytes 1 10) 0).
    - apply reach_init; [done|vm_compute; split; congruence].
    - vm_compute. repeat constructor; discriminate.
    - vm_compute. reflexivity. }
  assert (H1 : page_inv chain_page1).
  { destruct (restamp_at (am_hot_header 2 0 (mkTid 5 1)) (mkTid 5 0) chain_page0 (chain_bytes 1 10) chain_first
      H0 (am_hot_keeps 2 0 (mkTid 5 1) ltac:(done) ltac:(done) ltac:(done) ltac:(done)) chain_first_at) as (p & Hp & Hi & _).
    assert (chain_page1 = p) as ->; [|exact Hi]. unfold chain_page1, am_stamp_hot_update. rewrite Hp. reflexivity. }
  assert (Ha : add_tuple chain_page1 chain_new = Ok (1, chain_page)) by (vm_compute; reflexivity).
  apply add_tuple_effect in Ha as [_ He]; [|apply H1|vm_compute; repeat constructor; discriminate]. by eapply add_effect_inv.
Qed.

Lemma chain_view : view chain_page = [VNormal chain_old; VNormal chain_new].
Proof. vm_compute. reflexivity. Qed.

Lemma chain_row0 : row_at chain_page 0 chain_old chain_header0.
Proof. split; [by rewrite chain_view|vm_compute; reflexivity]. Qed.

Lemma chain_row1 : row_at chain_page 1 chain_new chain_header1.
Proof. split; [by rewrite chain_view|vm_compute; reflexivity]. Qed.

Definition normal_bytes (v : option SlotView) : list Z := match v with Some (VNormal b) => b | _ => [] end.

Lemma chain_rows i b h : row_at chain_page i b h -> (i = 0%nat /\ b = chain_old /\ h = chain_header0) \/ (i = 1%nat /\ b = chain_new /\ h = chain_header1).
Proof.
  intros [Hv Hr]. pose proof (proj2 chain_row0) as H0. pose proof (proj2 chain_row1) as H1. rewrite chain_view in Hv.
  destruct i as [|[|i]]; [left|right|discriminate Hv]; apply (f_equal normal_bytes) in Hv; cbn in Hv;
    subst b; (split; [reflexivity|]); (split; [reflexivity|]).
  - rewrite H0 in Hr. by apply Ok_inj in Hr.
  - rewrite H1 in Hr. by apply Ok_inj in Hr.
Qed.

Lemma chain_heap_page : heap_page chain_page.
Proof.
  split; [apply chain_page_inv|]. intros i v Hv. rewrite chain_view in Hv.
  destruct i as [|[|i]]; [eexists _, _; apply chain_row0|eexists _, _; apply chain_row1|done].
Qed.

Lemma chain_unique : links_unique chain_page.
Proof.
  intros i j bi hi bj hj Hi Hj Bi Bj _. apply chain_rows in Hi as [(-> & _)|(-> & _ & ->)]; [|by vm_compute in Bi].
  apply chain_rows in Hj as [(-> & _)|(-> & _ & ->)]; [done|by vm_compute in Bj].
Qed.

Lemma chain_path : hot_path chain_page 5 (mkTid 5 0) [mkTid 5 0; mkTid 5 1].
Proof.
  eapply (path_link _ _ (mkTid 5 0) chain_old chain_header0); [done|done|apply chain_row0|vm_compute; reflexivity|].
  change (t_ctid chain_header0) with (mkTid 5 1).
  eapply (path_end _ _ (mkTid 5 1) chain_new chain_header1); [done|done|apply chain_row1|vm_compute; reflexivity].
Qed.

Lemma chain_nodup : NoDup [mkTid 5 0; mkTid 5 1].
Proof. repeat constructor; set_solver. Qed.

Lemma hot_chain_exact_witness :
  follow_hot_chain chain_snapshot (fun _ => Committed) chain_page 5 (mkTid 5 0) = Ok (Some (mkTid 5 1)) /\
  hot_chain_root chain_page 5 (mkTid 5 1) = Ok (mkTid 5 0).
Proof.
  pose proof (hot_chain_exact chain_snapshot (fun _ => Committed) chain_page 5 (mkTid 5 0) [mkTid 5 0; mkTid 5 1] (mkTid 5 1) 1
    chain_heap_page chain_unique chain_path chain_nodup) as H. destruct H as [H1 H2].
  - vm_compute. reflexivity.
  - intros [|j] u Hu; [injection Hu as <-; vm_compute; reflexivity|done].
  - done.
  - split; [rewrite H1; vm_compute; reflexivity|exact H2].
Defined.

Definition chain_paths (slot : Z) : list Tid := [mkTid 5 0; mkTid 5 1].

Lemma chain_slots : slot_count chain_page = 2.
Proof. vm_compute. reflexivity. Qed.

Lemma chain_paths_ok : paths_ok chain_page 5 chain_paths.
Proof.
  intros slot Hs Ho. rewrite chain_slots in Hs. destruct (Z.eq_dec slot 0) as [->|Hne]; [split; [exact chain_path|exact chain_nodup]|].
  assert (slot = 1) as -> by (clear Ho; lia). vm_compute in Ho. discriminate Ho.
Qed.

Lemma heap_scan_exact_witness :
  scan_page chain_snapshot (fun _ => Committed) chain_page 5 chain_columns = Ok [(mkTid 5 1, [Some (DInt4 20)])].
Proof.
  rewrite (heap_scan_exact chain_snapshot (fun _ => Committed) chain_columns chain_page 5 chain_paths).
  - vm_compute. reflexivity.
  - exact chain_heap_page.
  - intros i b h Hr. apply chain_rows in Hr as [(_ & -> & ->)|(_ & -> & ->)]; eexists; vm_compute; reflexivity.
  - exact chain_paths_ok.
Defined.
