(* ===== verification/HeapDo.v ===== *)
(** * Do and redo of heap changes

    The running access method predicts the slot of a new row version, logs it,
    and then changes the page; recovery repeats the change from the record.  This
    file shows that on a heap page the prediction is right, that every change
    keeps the page a heap page, and that redo rebuilds the page the access method
    wrote, apart from the command id, which is not logged. *)

From S2P Require Import Prelude Types LinePointer SlottedPage Tuple WalRecord PageAllocator Recovery HeapRedo HeapPage HeapChain.
Local Open Scope Z_scope.
Local Open Scope rust_scope.

(** ** Lemmas: rows and headers *)

Lemma read_header_tuple b h : read_header b = Ok h <-> TUPLE_HEADER_SIZE <= zlen b /\ TupleHeader_read_from (slice 0 TUPLE_HEADER_SIZE b) = Ok h.
Proof.
  unfold read_header, slice_get, TUPLE_HEADER_SIZE. cbn [Z.add]. split.
  - intros H. apply res_bind_ok in H as (c & Hc & H). case_if Hc. zbool. apply Ok_inj in Hc as <-. split; [lia|done].
  - intros [Hl H]. destruct (_ && _) eqn:E; [done|]. zbool. lia.
Qed.

Lemma row_tuple_at page slot b h : 0 <= slot -> row_at page (Z.to_nat slot) b h <-> tuple_at page slot b h.
Proof. intros Hs. unfold row_at, tuple_at. rewrite read_header_tuple. naive_solver. Qed.

(** A page keeps being a heap page when one row version is rewritten or appended. *)
Lemma heap_page_intro page vs : page_inv page -> view page = vs ->
  (forall v, v ∈ vs -> exists b h, v = VNormal b /\ read_header b = Ok h) -> heap_page page.
Proof.
  intros Hi <- Hv. split; [done|]. intros i v Hl. destruct (Hv v) as (b & h & -> & Hr); [by eapply list_elem_of_lookup_2|].
  by exists b, h.
Qed.

Lemma heap_page_rows page : heap_page page -> forall v, v ∈ view page -> exists b h, v = VNormal b /\ read_header b = Ok h.
Proof. intros [_ Hr] v Hv. apply list_elem_of_lookup in Hv as [i Hi]. destruct (Hr _ _ Hi) as (b & h & Hv & Hh). exists b, h. split; [congruence|done]. Qed.

Lemma heap_page_stamp page lsn : heap_page page -> in_u 64 lsn -> heap_page (stamp_pd_lsn lsn page).
Proof.
  intros Hh Hl. destruct (stamp_view page lsn (proj1 Hh) Hl) as (H1 & H2 & _). eapply heap_page_intro; [done|exact H2|].
  by apply heap_page_rows.
Qed.

(** The line pointer array of a heap page has no slot to recycle. *)
Lemma heap_first_unused page : heap_page page -> first_unused page = length (lps page) /\ next_slot page = Z.of_nat (length (lps page)).
Proof.
  intros Hh. pose proof Hh as [Hi _]. split.
  - unfold first_unused. destruct (list_find _ _) as [[i lp]|] eqn:E; [|done]. apply list_find_Some in E as (E & Hf & _).
    destruct (heap_page_rows _ Hh (slot_view page lp)) as (b & h & Hv & _).
    { unfold view. apply list_elem_of_fmap. exists lp. split; [done|by eapply list_elem_of_lookup_2]. }
    apply (slot_view_unused page) in Hf. congruence.
  - unfold next_slot. destruct (length_view page Hi) as [Hl ->]. rewrite <-Hl. unfold view. by rewrite length_fmap.
Qed.

Lemma heap_add page bytes h : heap_page page -> wf_bytes bytes -> read_header bytes = Ok h ->
  zlen bytes + LINE_POINTER_SIZE <= free_space page ->
  exists page', add_tuple page bytes = Ok (next_slot page, page') /\ heap_page page' /\ view page' = view page ++ [VNormal bytes].
Proof.
  intros Hh Hb Hr Hroom. pose proof Hh as [Hi _]. pose proof (inv_geo _ Hi) as Hg. destruct (heap_first_unused _ Hh) as [Hu Hn].
  pose proof (proj1 (read_header_tuple _ _) Hr) as [Hlen _]. unfold TUPLE_HEADER_SIZE, LINE_POINTER_SIZE in *.
  pose proof (geo_lower _ Hg). pose proof (geo_lower_upper _ Hg). pose proof (geo_upper_special _ Hg). unfold PAGE_HEADER_SIZE in *.
  destruct (add_tuple_outcome page bytes Hg Hb) as (_ & _ & _ & Hok).
  destruct Hok as (slot & page' & Ha).
  { lia. }
  { unfold free_space in Hroom. lia. }
  { unfold LINE_POINTER_SIZE. destruct (decide _); lia. }
  exists page'. destruct (add_tuple_effect _ _ _ _ Hg Hb Ha) as [-> He]. rewrite Ha, Hu, Hn. split; [done|].
  assert (Hv : view page' = view page ++ [VNormal bytes]).
  { rewrite (view_add _ _ _ _ Hi He), Hu. unfold put_slot. rewrite decide_False; [done|]. unfold view. rewrite length_fmap. lia. }
  split; [|done]. eapply heap_page_intro; [by eapply add_effect_inv|exact Hv|].
  intros v Hin. apply elem_of_app in Hin as [Hin|Hin]; [by apply heap_page_rows with page|].
  apply list_elem_of_singleton in Hin as ->. by exists bytes, h.
Qed.

Lemma heap_restamp page f tid b h : heap_page page -> keeps_header f -> tuple_at page (slot_id tid) b h ->
  exists page', restamp f tid page = Ok (tt, page') /\ heap_page page' /\ header page' = header page /\
    view page' = <[Z.to_nat (slot_id tid) := VNormal (restamped f b h)]> (view page) /\
    tuple_at page' (slot_id tid) (restamped f b h) (f h).
Proof.
  intros Hh Hf Ht. destruct (restamp_at f tid page b h (proj1 Hh) Hf Ht) as (p & H1 & H2 & H3 & H4 & H5).
  exists p. split; [done|]. split; [|done]. eapply heap_page_intro; [done|exact H4|].
  intros v Hv. apply list_elem_of_lookup in Hv as [i Hi]. apply list_lookup_insert_Some in Hi as [(_ & <- & _)|[_ Hi]].
  - exists (restamped f b h), (f h). split; [done|]. apply read_header_tuple. destruct H5 as (_ & _ & H5 & H6). done.
  - apply heap_page_rows with page; [done|]. by eapply list_elem_of_lookup_2.
Qed.

(** ** Lemmas: pages that agree but for a command id *)

(** Writing one header field on pages with equal headers. *)
Ltac header_put :=
  unfold PAGE_SIZE, in_u; intros Hp Hq Hl [= H1 H2 H3 H4 H5 H6 H7 H8];
  unfold header, PageHeader_read_from, page_pd_lsn, set_page_pd_lsn, set_pd_upper, set_pd_lower in *;
  rewrite !get_put_same
    by (lia || (change (256 ^ Z.of_nat 8) with (2 ^ 64); change (256 ^ Z.of_nat 2) with (2 ^ 16); lia));
  rewrite !get_put_disj by lia; congruence.

Lemma header_put_lsn p q l : zlen p = PAGE_SIZE -> zlen q = PAGE_SIZE -> in_u 64 l -> header p = header q ->
  header (set_page_pd_lsn p l) = header (set_page_pd_lsn q l).
Proof. header_put. Qed.

Lemma header_put_upper p q x : zlen p = PAGE_SIZE -> zlen q = PAGE_SIZE -> in_u 16 x -> header p = header q ->
  header (set_pd_upper p x) = header (set_pd_upper q x).
Proof. header_put. Qed.

Lemma header_put_lower p q x : zlen p = PAGE_SIZE -> zlen q = PAGE_SIZE -> in_u 16 x -> header p = header q ->
  header (set_pd_lower p x) = header (set_pd_lower q x).
Proof. header_put. Qed.

(** Adding the same tuple to heap pages with equal headers. *)
Lemma heap_add_header p q bytes slot p' q' : heap_page p -> heap_page q -> header p = header q ->
  add_tuple p bytes = Ok (slot, p') -> add_tuple q bytes = Ok (slot, q') -> header p' = header q'.
Proof.
  intros Hp Hq Hh Ap Aq. destruct (heap_first_unused _ Hp) as [Up Np], (heap_first_unused _ Hq) as [Uq Nq].
  pose proof (inv_geo _ (proj1 Hp)) as Gp. pose proof (inv_geo _ (proj1 Hq)) as Gq.
  pose proof (geo_len _ Gp). pose proof (geo_len _ Gq). destruct (slot_count_geometry _ Gp) as (_ & Sp & ?), (slot_count_geometry _ Gq) as (_ & Sq & ?).
  pose proof (length_lps p) as Lp. pose proof (length_lps q) as Lq. pose proof (geo_lower _ Gp). pose proof (geo_upper_special _ Gp). pose proof (geo_special _ Gp).
  apply add_tuple_unfold in Ap as (_ & _ & Ap); [|done]. apply add_tuple_unfold in Aq as (Hpos & _ & Aq); [|done].
  rewrite Up, decide_False in Ap by lia. rewrite Uq, decide_False in Aq by lia. destruct Ap as [Rp ->], Aq as [_ ->].
  rewrite <-Hh in *. unfold PAGE_HEADER_SIZE, LINE_POINTER_SIZE, PAGE_SIZE, in_u in *.
  apply header_put_upper; unfold set_pd_lower; rewrite ?length_put_le, ?length_placed; (done || (unfold PAGE_SIZE, in_u; lia) || idtac).
  apply header_put_lower; rewrite ?length_placed; (done || (unfold PAGE_SIZE, in_u; lia) || idtac).
  rewrite !header_placed; [done|..]; unfold PAGE_HEADER_SIZE, LINE_POINTER_SIZE; rewrite <-?Hh; lia.
Qed.

(** Two pages that differ at most in the command id of one row version. *)
Definition same_but_cid (cid : Z) (slot : Z) (p q : Page) : Prop :=
  header p = header q /\ (forall i, i <> Z.to_nat slot -> view p !! i = view q !! i) /\
  exists bp bq hq, view p !! Z.to_nat slot = Some (VNormal bp) /\ view q !! Z.to_nat slot = Some (VNormal bq) /\
    read_header bq = Ok hq /\ read_header bp = Ok (set_cid cid hq) /\ drop 64 bp = drop 64 bq.

Lemma restamped_data f b h : TUPLE_HEADER_SIZE <= zlen b -> drop 64 (restamped f b h) = drop 64 b.
Proof.
  unfold restamped, splice, TUPLE_HEADER_SIZE. intros Hl.
  assert (Hw : length (TupleHeader_write_to (f h) (slice 0 64 b)) = 64%nat).
  { apply Nat2Z.inj. rewrite length_write_to, length_slice by lia. lia. }
  change (Z.to_nat 0) with 0%nat. rewrite take_0, app_nil_l, Hw. rewrite (take_ge (TupleHeader_write_to _ _)) by lia.
  by rewrite drop_app_length'.
Qed.

Lemma restamp_cid page f g cid tid b h : heap_page page -> keeps_header f -> keeps_header g -> tuple_at page (slot_id tid) b h ->
  f h = set_cid cid (g h) ->
  exists p q, restamp f tid page = Ok (tt, p) /\ restamp g tid page = Ok (tt, q) /\ heap_page p /\ heap_page q /\
    same_but_cid cid (slot_id tid) p q /\ length (view p) = length (view page) /\ header p = header page.
Proof.
  intros Hh Hf Hg Ht E. pose proof Ht as (Hs & Hv & Hl & _).
  destruct (heap_restamp page f tid b h) as (p & P1 & P2 & P3 & P4 & P5); [done..|].
  destruct (heap_restamp page g tid b h) as (q & Q1 & Q2 & Q3 & Q4 & Q5); [done..|]. apply row_tuple_at in P5 as [P5 P6], Q5 as [Q5 Q6]; [|done..].
  exists p, q. do 4 (split; [done|]). split; [|split; [by rewrite P4, length_insert|done]]. split; [congruence|]. split.
  - intros i Hi. by rewrite P4, Q4, !list_lookup_insert_ne by done.
  - exists (restamped f b h), (restamped g b h), (g h). rewrite <-E. do 4 (split; [done|]). by rewrite !restamped_data.
Qed.

Lemma same_but_cid_stamp cid slot p q lsn : heap_page p -> heap_page q -> in_u 64 lsn -> same_but_cid cid slot p q ->
  same_but_cid cid slot (stamp_pd_lsn lsn p) (stamp_pd_lsn lsn q).
Proof.
  intros [Hp _] [Hq _] Hl (H1 & H2 & H3). destruct (stamp_view p lsn Hp Hl) as (_ & Vp & _), (stamp_view q lsn Hq Hl) as (_ & Vq & _).
  split; [|by rewrite Vp, Vq]. assert (El : page_pd_lsn p = page_pd_lsn q) by (apply (f_equal pd_lsn) in H1; exact H1).
  unfold stamp_pd_lsn. rewrite El. pose proof (pd_lsn_range _ (page_inv_wf _ Hq)). unfold in_u in *.
  apply header_put_lsn; [apply (geo_len _ (inv_geo _ Hp))|apply (geo_len _ (inv_geo _ Hq))|unfold in_u; lia|done].
Qed.

(** The new version, added on both sides. *)
Lemma same_but_cid_add cid slot p q bytes h : heap_page p -> heap_page q -> 0 <= slot -> same_but_cid cid slot p q ->
  length (view p) = length (view q) -> wf_bytes bytes -> read_header bytes = Ok h -> zlen bytes + LINE_POINTER_SIZE <= free_space p ->
  exists p' q', add_tuple p bytes = Ok (next_slot p, p') /\ add_tuple q bytes = Ok (next_slot p, q') /\ heap_page p' /\ heap_page q' /\
    same_but_cid cid slot p' q'.
Proof.
  intros Hp Hq Hs (H1 & H2 & bp & bq & hq & B1 & B2 & B3 & B4 & B5) Hlen Hb Hr Hroom.
  destruct (heap_add p bytes h) as (p' & P1 & P2 & P3); [done..|].
  assert (Hroom' : zlen bytes + LINE_POINTER_SIZE <= free_space q) by (unfold free_space in *; congruence).
  destruct (heap_add q bytes h) as (q' & Q1 & Q2 & Q3); [done..|].
  assert (En : next_slot q = next_slot p) by (unfold next_slot, slot_count; congruence). rewrite En in Q1.
  exists p', q'. do 4 (split; [done|]). split; [exact (heap_add_header _ _ _ _ _ _ Hp Hq H1 P1 Q1)|]. apply lookup_lt_Some in B1 as Lp. apply lookup_lt_Some in B2 as Lq.
  rewrite P3, Q3. split.
  - intros i Hi. destruct (decide (i < length (view p))%nat).
    + rewrite !lookup_app_l by lia. by apply H2.
    + rewrite !lookup_app_r by lia. by rewrite Hlen.
  - exists bp, bq, hq. rewrite !lookup_app_l by done. done.
Qed.

(** ** Lemmas: the redo handlers on a heap page *)

Lemma stamped_keeps xmax updated : in_u 64 xmax -> keeps_header (stamped_header xmax updated).
Proof. intros Hx. split; [done|]. intros h []. split; try done; cbn. by apply mask_stamped. Qed.

Lemma hot_keeps xmax tid : in_u 64 xmax -> in_u 64 (page_id tid) -> in_u 16 (slot_id tid) -> keeps_header (hot_header xmax tid).
Proof.
  intros Hx Hp Hs. split; [done|]. intros h []. split; try done; cbn; [by apply (mask_stamped _ true)|].
  apply lor_bound; [done|done|unfold HEAP_HOT_UPDATED; lia].
Qed.

Lemma heap_not_fresh page : heap_page page -> init_if_fresh_with_special page HEAP_SPECIAL_SIZE = page.
Proof.
  intros [Hi _]. pose proof (inv_geo _ Hi) as Hg. pose proof (geo_lower _ Hg). pose proof (geo_lower_upper _ Hg).
  unfold PAGE_HEADER_SIZE in *. unfold init_if_fresh_with_special. by rewrite (proj2 (Z.eqb_neq _ _)) by lia.
Qed.

Lemma redo_init page {A} (k : M Page StorageError A) : heap_page page -> (init_fresh ;! k) page = k page.
Proof. intros Hh. unfold mbindM, init_fresh, mmodify. by rewrite heap_not_fresh. Qed.

Lemma redo_step {A B} (f : Page -> res HeapError (A * Page)) (k : A -> M Page StorageError B) page a p :
  f page = Ok (a, p) -> mbindM (heap_step f) k page = k a p.
Proof. intros H. unfold mbindM, heap_step. by rewrite H. Qed.

Lemma redo_add {B} slot bytes (k : M Page StorageError B) page p : add_tuple page bytes = Ok (slot, p) -> (add_at slot bytes ;! k) page = k p.
Proof. intros H. unfold add_at, mbindM, heap_step. rewrite H, Z.eqb_refl. done. Qed.

Section do_redo.
Context (page : Page) (lsn : Lsn) (xmax : TxnId) (cid : Z).
Hypothesis Hh : heap_page page.
Hypothesis Hl : in_u 64 lsn.
Hypothesis Hold : page_pd_lsn page < lsn.
Hypothesis Hx : in_u 64 xmax.
Hypothesis Hc : in_u 32 cid.

Lemma next_slot_range : in_u 16 (next_slot page).
Proof. unfold next_slot, in_u. apply Z.mod_pos_bound. lia. Qed.

Lemma do_redo_insert tuple h : wf_bytes tuple -> read_header tuple = Ok h -> zlen tuple + LINE_POINTER_SIZE <= free_space page ->
  exists p, add_tuple page tuple = Ok (next_slot page, p) /\ heap_page (stamp_pd_lsn lsn p) /\
    insert_page lsn (next_slot page) tuple page = (Ok tt, stamp_pd_lsn lsn p).
Proof.
  intros Hb Hr Hroom. destruct (heap_add page tuple h) as (p & P1 & P2 & _); [done..|]. exists p. split; [done|].
  split; [by apply heap_page_stamp|]. unfold insert_page. rewrite if_older_run, redo_init by done. by rewrite (redo_add _ _ _ _ p).
Qed.

(** A stamp on the old version, logged by a record whose redo applies [g]. *)
Lemma do_redo_stamp f g tid b h : keeps_header f -> keeps_header g -> tuple_at page (slot_id tid) b h -> f h = set_cid cid (g h) ->
  exists p q, restamp f tid page = Ok (tt, p) /\ restamp g tid page = Ok (tt, q) /\ heap_page (stamp_pd_lsn lsn p) /\
    same_but_cid cid (slot_id tid) (stamp_pd_lsn lsn p) (stamp_pd_lsn lsn q).
Proof.
  intros Hf Hg Ht E. destruct (restamp_cid page f g cid tid b h) as (p & q & P1 & Q1 & P2 & Q2 & S & _); [done..|].
  exists p, q. do 2 (split; [done|]). split; [by apply heap_page_stamp|by apply same_but_cid_stamp].
Qed.

(** The same, followed by the new version on this page. *)
Lemma do_redo_replace f g tid b h tuple h' : keeps_header f -> keeps_header g -> tuple_at page (slot_id tid) b h -> f h = set_cid cid (g h) ->
  wf_bytes tuple -> read_header tuple = Ok h' -> zlen tuple + LINE_POINTER_SIZE <= free_space page ->
  exists p1 q1 p q, restamp f tid page = Ok (tt, p1) /\ restamp g tid page = Ok (tt, q1) /\
    add_tuple p1 tuple = Ok (next_slot page, p) /\ add_tuple q1 tuple = Ok (next_slot page, q) /\ heap_page (stamp_pd_lsn lsn p) /\
    same_but_cid cid (slot_id tid) (stamp_pd_lsn lsn p) (stamp_pd_lsn lsn q).
Proof.
  intros Hf Hg Ht E Hb Hr Hroom. pose proof Ht as (Hs & _).
  destruct (restamp_cid page f g cid tid b h) as (p1 & q1 & P1 & Q1 & P2 & Q2 & S & L & Eh); [done..|].
  assert (En : next_slot p1 = next_slot page) by (unfold next_slot, slot_count; congruence).
  assert (Hlen : length (view p1) = length (view q1)).
  { destruct S as (Sh & _). rewrite <-(Nat2Z.id (length (view p1))), <-(Nat2Z.id (length (view q1))). f_equal.
    rewrite (proj1 (length_view p1 (proj1 P2))), (proj1 (length_view q1 (proj1 Q2))). unfold slot_count. congruence. }
  assert (Hroom1 : zlen tuple + LINE_POINTER_SIZE <= free_space p1) by (unfold free_space in *; congruence).
  destruct (same_but_cid_add cid (slot_id tid) p1 q1 tuple h') as (p & q & A1 & A2 & A3 & A4 & A5); [done..|].
  rewrite En in A1, A2. exists p1, q1, p, q. do 4 (split; [done|]). split; [by apply heap_page_stamp|by apply same_but_cid_stamp].
Qed.

End do_redo.

(** C8: recovery repeats what the running access method did.  On a heap page that
    is older than the record, the predicted slot is the one the page gives to the
    new version and the insertion succeeds whenever the free space checked before
    allows it; each change leaves a heap page; and the redo handler succeeds on the
    page before the change and rebuilds the page after it: byte for byte for an
    insert, and for a delete, an update on the page, a HOT update and the old side
    of an update across pages with the same header, the same other slots and the
    same data, the stamped version differing only in the command id, which the
    records do not carry. *)
Theorem heap_do_redo page lsn xmax cid tuple h pid :
  heap_page page -> in_u 64 lsn -> page_pd_lsn page < lsn -> in_u 64 xmax -> in_u 32 cid -> in_u 64 pid ->
  wf_bytes tuple -> read_header tuple = Ok h -> zlen tuple + LINE_POINTER_SIZE <= free_space page ->
  (exists p, add_tuple page tuple = Ok (next_slot page, p) /\ heap_page (stamp_pd_lsn lsn p) /\
     insert_page lsn (next_slot page) tuple page = (Ok tt, stamp_pd_lsn lsn p)) /\
  (forall old b h0, let tid := mkTid pid old in let new_tid := mkTid pid (next_slot page) in tuple_at page old b h0 ->
     (exists p q, am_stamp_deleted tid xmax cid false page = Ok (tt, p) /\ heap_page (stamp_pd_lsn lsn p) /\
        delete_page lsn (mkHeapDeleteRecord tid xmax) page = (Ok tt, q) /\ same_but_cid cid old (stamp_pd_lsn lsn p) q) /\
     (exists p1 p q, am_stamp_deleted tid xmax cid true page = Ok (tt, p1) /\ add_tuple p1 tuple = Ok (next_slot page, p) /\
        heap_page (stamp_pd_lsn lsn p) /\
        update_same_page lsn (mkHeapUpdateRecord tid new_tid xmax tuple) page = (Ok tt, q) /\
        same_but_cid cid old (stamp_pd_lsn lsn p) q) /\
     (exists p1 p q, am_stamp_hot_update tid xmax cid new_tid page = Ok (tt, p1) /\ add_tuple p1 tuple = Ok (next_slot page, p) /\
        heap_page (stamp_pd_lsn lsn p) /\
        hot_page lsn (mkHeapHotUpdateRecord pid old (next_slot page) tuple xmax) page = (Ok tt, q) /\
        same_but_cid cid old (stamp_pd_lsn lsn p) q) /\
     (forall other, exists p q, am_stamp_deleted tid xmax cid true page = Ok (tt, p) /\ heap_page (stamp_pd_lsn lsn p) /\
        update_old_page lsn (mkHeapUpdateRecord tid other xmax tuple) page = (Ok tt, q) /\ same_but_cid cid old (stamp_pd_lsn lsn p) q)).
Proof.
  intros Hh Hl Hold Hx Hc Hpid Hb Hr Hroom. split; [by eapply do_redo_insert|]. intros old b h0 tid new_tid Ht.
  pose proof (fun u => am_deleted_keeps xmax cid u Hx Hc) as Kd. pose proof (fun u => stamped_keeps xmax u Hx) as Ks.
  pose proof (next_slot_range page) as Hn. split; [|split; [|split]].
  - destruct (do_redo_stamp page lsn cid Hh Hl (am_deleted_header xmax cid false) (stamped_header xmax false) tid b h0)
      as (p & q & P & Q & Hp & S); [done..|]. exists p, (stamp_pd_lsn lsn q). do 2 (split; [done|]). split; [|done].
    unfold delete_page. rewrite if_older_run by done. by rewrite (redo_step _ _ _ _ _ Q).
  - destruct (do_redo_replace page lsn cid Hh Hl (am_deleted_header xmax cid true) (stamped_header xmax true) tid b h0 tuple h)
      as (p1 & q1 & p & q & P & Q & Ap & Aq & Hp & S); [done..|]. exists p1, p, (stamp_pd_lsn lsn q). do 3 (split; [done|]). split; [|done].
    unfold update_same_page. rewrite if_older_run, redo_init by done. rewrite (redo_step _ _ _ _ _ Q). by rewrite (redo_add _ _ _ _ _ Aq).
  - destruct (do_redo_replace page lsn cid Hh Hl (am_hot_header xmax cid new_tid) (hot_header xmax new_tid) tid b h0 tuple h)
      as (p1 & q1 & p & q & P & Q & Ap & Aq & Hp & S); [by apply am_hot_keeps|by apply hot_keeps|done..|].
    exists p1, p, (stamp_pd_lsn lsn q). do 3 (split; [done|]). split; [|done].
    unfold hot_page. rewrite if_older_run, redo_init by done. rewrite (redo_step _ _ _ _ _ Q). by rewrite (redo_add _ _ _ _ _ Aq).
  - intros other. destruct (do_redo_stamp page lsn cid Hh Hl (am_deleted_header xmax cid true) (stamped_header xmax true) tid b h0)
      as (p & q & P & Q & Hp & S); [done..|]. exists p, (stamp_pd_lsn lsn q). do 2 (split; [done|]). split; [|done].
    unfold update_old_page. rewrite if_older_run, redo_init by done. by rewrite (redo_step _ _ _ _ _ Q).
Qed.

(** ** Witness *)

Definition redo_header : TupleHeader := match read_header (chain_bytes 3 30) with Ok h => h | _ => chain_header1 end.

Lemma chain_page_lsn : page_pd_lsn chain_page = 0.
Proof. vm_compute. reflexivity. Qed.

Lemma redo_tuple_ok : wf_bytes (chain_bytes 3 30) /\ read_header (chain_bytes 3 30) = Ok redo_header /\
  zlen (chain_bytes 3 30) + LINE_POINTER_SIZE <= free_space chain_page.
Proof. split; [vm_compute; repeat constructor; discriminate|]. split; [vm_compute; reflexivity|vm_compute; discriminate]. Qed.

(** The third version, appended behind the chain of two. *)
Lemma heap_do_redo_witness :
  next_slot chain_page = 2 /\
  exists p, add_tuple chain_page (chain_bytes 3 30) = Ok (next_slot chain_page, p) /\ heap_page (stamp_pd_lsn 100 p) /\
    insert_page 100 (next_slot chain_page) (chain_bytes 3 30) chain_page = (Ok tt, stamp_pd_lsn 100 p).
Proof.
  split; [unfold next_slot; rewrite chain_slots; reflexivity|]. pose proof redo_tuple_ok as (Hw & Hr & Hroom).
  refine (proj1 (heap_do_redo chain_page 100 3 0 (chain_bytes 3 30) redo_header 5 chain_heap_page _ _ _ _ _ Hw Hr Hroom)).
  - clear. unfold in_u. lia.
  - rewrite chain_page_lsn. clear. lia.
  - clear. unfold in_u. lia.
  - clear. unfold in_u. lia.
  - clear. unfold in_u. lia.
Defined.
