(* ===== verification/RowSafe.v ===== *)
(** * What the row-lock protocol guarantees

    The environment of the gate is described by laws: every transaction is fresh,
    live (running), done (with its outcome in the commit log) or lost (it crashed
    before this start), and time only moves it forward.  The system of this file
    is one row version, the transactions that ask for it, and everything else that
    may happen in between.  The transaction manager under interference is the
    instance of the laws at the end of the file. *)

From S2P Require Import Prelude Types LinePointer SlottedPage Tuple Clog TxnManager WalRecord Recovery HeapRedo HeapPage RowLock.
Local Open Scope Z_scope.
Local Open Scope rust_scope.

(** ** The life of a transaction, as the gate can observe it *)

Inductive XStatus := Fresh | Live | Done (s : TxnState) | Lost.

Definition status_le (a b : XStatus) : Prop :=
  match a with
  | Fresh => True
  | Live => b = Live \/ exists s, b = Done s
  | Done s => b = Done s
  | Lost => b = Lost
  end.

Definition status_reads (a : XStatus) (st : TxnState) : Prop :=
  match a with
  | Fresh | Live => st = InProgress
  | Done s => st = s /\ terminal s
  | Lost => st = InProgress \/ st = SubCommitted
  end.

Class RowEnvLaws (T : Type) `{RowEnv T} := {
  re_inv : T -> Prop;
  re_status : T -> TxnId -> XStatus;
  re_le : T -> T -> Prop;
  re_le_refl e : re_le e e;
  re_le_trans e1 e2 e3 : re_le e1 e2 -> re_le e2 e3 -> re_le e1 e3;
  re_le_inv e e' : re_inv e -> re_le e e' -> re_inv e';
  re_le_status e e' x : re_inv e -> re_le e e' -> valid_xid x -> status_le (re_status e x) (re_status e' x);
  re_get_state_le x e : re_inv e -> valid_xid x -> re_le e (snd (re_get_state x e));
  re_get_state_ok x e st : re_inv e -> valid_xid x -> fst (re_get_state x e) = Ok st -> status_reads (re_status e x) st;
  re_is_active_le x e : re_inv e -> re_le e (snd (re_is_active x e));
  re_is_active_ok x e : re_inv e -> re_status e x = Live -> fst (re_is_active x e) = true;
  re_register_le x y e : re_inv e -> re_le e (re_register_row_wait x y e);
  re_unregister_le x e : re_inv e -> re_le e (re_unregister_row_wait x e);
  re_wait_le x y e : re_inv e -> re_le e (snd (re_wait_for x y e));
}.

(** ** Flag bits *)

Lemma has_bit_testbit m k : 0 <= k -> has_bit m (2 ^ k) = Z.testbit m k.
Proof.
  intros Hk. unfold has_bit. assert (Hl : Z.land m (2 ^ k) = if Z.testbit m k then 2 ^ k else 0).
  { apply Z.bits_inj'. intros n Hn. rewrite Z.land_spec, Z.pow2_bits_eqb by done. destruct (Z.eqb_spec k n) as [->|Hne].
    - destruct (Z.testbit m n); cbn; [by rewrite Z.pow2_bits_true|by rewrite Z.bits_0].
    - rewrite andb_false_r. destruct (Z.testbit m k); [|by rewrite Z.bits_0]. by rewrite Z.pow2_bits_false by done. }
  rewrite Hl. destruct (Z.testbit m k); [|done]. destruct (Z.eqb_spec (2 ^ k) 0) as [E|]; [|done].
  exfalso. pose proof (Z.pow_pos_nonneg 2 k). lia.
Qed.

Definition lock_only_bit (h : TupleHeader) : bool := has_bit (t_infomask h) HEAP_XMAX_LOCK_ONLY.
Definition share_bit (h : TupleHeader) : bool := has_bit (t_infomask h) HEAP_XMAX_IS_SHARE.

Lemma flag_bits m : has_bit m HEAP_XMAX_LOCK_ONLY = Z.testbit m 12 /\ has_bit m HEAP_XMAX_IS_SHARE = Z.testbit m 14.
Proof. unfold HEAP_XMAX_LOCK_ONLY, HEAP_XMAX_IS_SHARE. by rewrite <-!has_bit_testbit. Qed.

(** The stamps a granted request may write. *)
Inductive grant_stamp (tid : Tid) (x : TxnId) : LockRequest -> (TupleHeader -> TupleHeader) -> Prop :=
| grant_delete cid updated : in_u 32 cid -> grant_stamp tid x LockWriter (am_deleted_header x cid updated)
| grant_hot cid new_tid : in_u 32 cid -> in_u 64 (page_id new_tid) -> in_u 16 (slot_id new_tid) ->
    grant_stamp tid x LockWriter (am_hot_header x cid new_tid)
| grant_lock cid : in_u 32 cid -> grant_stamp tid x LockExclusive (am_lock_header x cid false)
| grant_share cid : in_u 32 cid -> grant_stamp tid x LockShared (am_lock_header x cid true).

Lemma grant_keeps tid x req f : valid_xid x -> grant_stamp tid x req f -> keeps_header f.
Proof.
  intros [Hx0 Hx] Hg. assert (Hx64 : in_u 64 x) by (unfold in_u; lia).
  destruct Hg; [by apply am_deleted_keeps|by apply am_hot_keeps|by apply am_lock_keeps|by apply am_lock_keeps].
Qed.

Lemma grant_header tid x req f h : grant_stamp tid x req f ->
  t_xmax (f h) = x /\ share_bit (f h) = bool_decide (req = LockShared) /\ (req = LockWriter -> lock_only_bit (f h) = false).
Proof.
  intros Hg. unfold share_bit, lock_only_bit. destruct (flag_bits (t_infomask (f h))) as [-> ->].
  destruct Hg as [cid up Hc|cid t Hc Hp Hs|cid Hc|cid Hc]; cbn [am_deleted_header am_hot_header am_lock_header t_xmax t_infomask];
    (split; [done|]); unfold HEAP_UPDATED, HEAP_XMAX_LOCK_ONLY, HEAP_XMAX_IS_SHARE; rewrite ?Z.lor_spec, ?Z.ldiff_spec; cbn;
    rewrite ?andb_false_r, ?orb_true_r; done.
Qed.

(** ** What one pass of the gate does *)

Section gate_spec.
Context {T : Type} {RE : RowEnv T} {RL : RowEnvLaws T}.
Implicit Types (l : RowLocks T) (h : TupleHeader).

Lemma le_inv_status e e' y : re_inv e -> re_le e e' -> valid_xid y -> re_status e y <> Fresh ->
  re_status e' y = Live -> re_status e y = Live.
Proof.
  intros Hi Hle Hy Hf Hl. pose proof (re_le_status _ _ _ Hi Hle Hy) as H. rewrite Hl in H.
  destruct (re_status e y); cbn in H; done.
Qed.

Lemma le_not_fresh e e' y : re_inv e -> re_le e e' -> valid_xid y -> re_status e y <> Fresh -> re_status e' y <> Fresh.
Proof.
  intros Hi Hle Hy Hf E. pose proof (re_le_status _ _ _ Hi Hle Hy) as H. rewrite E in H.
  destruct (re_status e y); cbn in H; try done. by destruct H as [|[]].
Qed.

Lemma le_committed e e' y : re_inv e -> re_le e e' -> valid_xid y -> re_status e y <> Fresh ->
  re_status e' y = Done Committed -> re_status e y = Live \/ re_status e y = Done Committed.
Proof.
  intros Hi Hle Hy Hf Hl. pose proof (re_le_status _ _ _ Hi Hle Hy) as H. rewrite Hl in H.
  destruct (re_status e y); cbn in H; try done; eauto.
Qed.

(** The registry entry of a row. *)
Definition holders l tid : gset Z := default ∅ (rl_share_locks l !! lock_key tid).

(** Only the environment and the row's registry entry change. *)
Record moved tid l l' : Prop := {
  mv_env : re_le (rl_env l) (rl_env l');
  mv_inv : re_inv (rl_env l');
  mv_waiter : rl_row_waiter l' = rl_row_waiter l;
  mv_others : forall k, k <> lock_key tid -> rl_share_locks l' !! k = rl_share_locks l !! k;
}.

Lemma moved_refl tid l : re_inv (rl_env l) -> moved tid l l.
Proof. intros. split; [apply re_le_refl|done..]. Qed.

Lemma moved_trans tid l1 l2 l3 : moved tid l1 l2 -> moved tid l2 l3 -> moved tid l1 l3.
Proof.
  intros [A1 A2 A3 A4] [B1 B2 B3 B4]. split; [by eapply re_le_trans|done|congruence|].
  intros k Hk. by rewrite B4, A4.
Qed.

Lemma moved_set_env tid l e : re_inv (rl_env l) -> re_le (rl_env l) e -> moved tid l (set_env e l).
Proof. intros Hi Hle. split; cbn; [done|by eapply re_le_inv|done|done]. Qed.

Lemma note_moved tid x req l : re_inv (rl_env l) ->
  exists l', note_stamp_overwrite tid x req l = (Ok tt, l') /\ moved tid l l' /\
    holders l' tid = match req with LockShared => {[x]} | _ => ∅ end.
Proof.
  intros Hi. eexists. split; [done|]. split.
  - split; cbn; [apply re_le_refl|done|done|]. intros k Hk. destruct req; by rewrite ?lookup_delete_ne, ?lookup_insert_ne by done.
  - unfold holders. cbn. destruct req; rewrite ?lookup_delete_eq, ?lookup_insert_eq; done.
Qed.

Lemma register_moved tid x l : re_inv (rl_env l) ->
  exists l', register_share_holder tid x l = (Ok tt, l') /\ moved tid l l' /\ holders l' tid = {[x]} ∪ holders l tid.
Proof.
  intros Hi. eexists. split; [done|]. split.
  - split; cbn; [apply re_le_refl|done|done|]. intros k Hk. by rewrite lookup_insert_ne.
  - unfold holders. cbn. by rewrite lookup_insert_eq.
Qed.

Lemma edge_moved tid x y l r l' : re_inv (rl_env l) -> register_wait_edge x y l = (r, l') ->
  moved tid l l' /\ rl_share_locks l' = rl_share_locks l.
Proof.
  intros Hi. unfold register_wait_edge, mbindM, mget. destruct (rl_row_waiter l) eqn:E.
  - intros [= <- <-]. split; [|done]. by apply moved_set_env, re_register_le.
  - intros [= <- <-]. split; [by apply moved_refl|done].
Qed.

Lemma ask_clog_moved tid x l r l' : re_inv (rl_env l) -> valid_xid x -> ask_clog x l = (r, l') ->
  moved tid l l' /\ rl_share_locks l' = rl_share_locks l /\ (forall st, r = Ok st -> status_reads (re_status (rl_env l) x) st).
Proof.
  intros Hi Hx. unfold ask_clog. intros [= <- <-]. split; [by apply moved_set_env, re_get_state_le|]. split; [done|].
  intros st E. apply (re_get_state_ok _ _ _ Hi Hx). destruct (fst _); cbn in E; congruence.
Qed.

Lemma ask_active_moved tid x l r l' : re_inv (rl_env l) -> ask (re_is_active x) l = (r, l') ->
  moved tid l l' /\ rl_share_locks l' = rl_share_locks l /\ exists b, r = Ok b /\ (re_status (rl_env l) x = Live -> b = true).
Proof.
  intros Hi. unfold ask. intros [= <- <-]. split; [by apply moved_set_env, re_is_active_le|]. split; [done|].
  eexists. split; [done|]. by apply re_is_active_ok.
Qed.

(** A live holder survives the pruning loop. *)
Lemma live_loop_spec tid hs : forall live l r l',
  re_inv (rl_env l) -> Forall (fun y => valid_xid y /\ re_status (rl_env l) y <> Fresh) hs ->
  live_loop tid hs live l = (r, l') ->
  moved tid l l' /\ rl_share_locks l' = rl_share_locks l /\
  forall live', r = Ok live' -> live ⊆ live' /\ live' ⊆ live ∪ list_to_set hs /\
    forall y, y ∈ hs -> re_status (rl_env l') y = Live -> y ∈ live'.
Proof.
  induction hs as [|x hs IH]; intros live l r l' Hi Hhs H.
  { injection H as <- <-. split; [by apply moved_refl|]. split; [done|]. intros ? [= <-]. split; [done|]. split; [set_solver|]. set_solver. }
  apply Forall_cons in Hhs as [[Hx Hfx] Hhs]. cbn [live_loop] in H. unfold mbindM at 1 in H.
  destruct (ask_clog x l) as [r1 l1] eqn:E1. destruct (ask_clog_moved tid _ _ _ _ Hi Hx E1) as (M1 & S1 & R1).
  assert (Hlater : forall l2, moved tid l l2 -> Forall (fun y => valid_xid y /\ re_status (rl_env l2) y <> Fresh) hs).
  { intros l2 M. eapply Forall_impl; [exact Hhs|]. intros y [Hy Hfy]. split; [done|]. by eapply le_not_fresh; [|apply M|..]. }
  destruct r1 as [st|e|]; [|by injection H as <- <-..].
  specialize (R1 st eq_refl).
  assert (Hdead : re_status (rl_env l) x <> Live -> live_loop tid hs live l1 = (r, l') -> moved tid l l' /\ rl_share_locks l' = rl_share_locks l /\
    forall live', r = Ok live' -> live ⊆ live' /\ live' ⊆ live ∪ list_to_set (x :: hs) /\
      forall y, y ∈ x :: hs -> re_status (rl_env l') y = Live -> y ∈ live').
  { intros Hnl H'. destruct (IH _ _ _ _ (mv_inv _ _ _ M1) (Hlater _ M1) H') as (M3 & S3 & R3).
    split; [by eapply moved_trans|]. split; [congruence|]. intros live' ->. destruct (R3 live' eq_refl) as (A1 & A2 & A3).
    split; [done|]. split; [set_solver|]. intros y [->|Hy]%elem_of_cons Hl; [|by apply A3]. exfalso.
    apply Hnl. by eapply le_inv_status; [|apply (moved_trans _ _ _ _ M1 M3)|..]. }
  destruct (decide (terminal st)) as [Ht|Ht].
  { apply Hdead; [intros El; rewrite El in R1; cbn in R1; subst; by destruct Ht|]. by destruct Ht as [->| ->]. }
  assert (Ha : (let! l := mget in if rl_row_waiter l then let! a := ask (re_is_active x) in
      live_loop tid hs (if a : bool then {[x]} ∪ live else live) else mthrow (TupleNotFound tid)) l1 = (r, l')).
  { destruct st; done || (exfalso; apply Ht; unfold terminal; tauto). }
  unfold mbindM at 1, mget in Ha. destruct (rl_row_waiter l1) eqn:Ew; [|by injection Ha as <- <-].
  unfold mbindM at 1 in Ha. destruct (ask (re_is_active x) l1) as [r2 l2] eqn:E2.
  destruct (ask_active_moved tid _ _ _ _ (mv_inv _ _ _ M1) E2) as (M2 & S2 & b & -> & Hb).
  pose proof (moved_trans _ _ _ _ M1 M2) as M12.
  destruct (IH _ _ _ _ (mv_inv _ _ _ M12) (Hlater _ M12) Ha) as (M3 & S3 & R3).
  split; [by eapply moved_trans|]. split; [congruence|]. intros live' ->. destruct (R3 live' eq_refl) as (A1 & A2 & A3).
  split; [destruct b; set_solver|]. split; [destruct b; set_solver|].
  intros y [->|Hy]%elem_of_cons Hl; [|by apply A3]. rewrite Hb in A1; [set_solver|].
  eapply le_inv_status; [apply M1|eapply re_le_trans; [apply M2|apply M3]|done| |done]. by eapply le_not_fresh; [|apply M1|..].
Qed.

(** Transactions a registry entry or a stamp may name. *)
Definition begun (e : T) (y : TxnId) : Prop := valid_xid y /\ re_status e y <> Fresh.

Lemma live_share_spec tid xmax l r l' :
  re_inv (rl_env l) -> (forall y, y ∈ {[xmax]} ∪ holders l tid -> begun (rl_env l) y) -> live_share_holders tid xmax l = (r, l') ->
  moved tid l l' /\
  match r with
  | Ok live => holders l' tid = live /\ live ⊆ {[xmax]} ∪ holders l tid /\
      forall y, y ∈ {[xmax]} ∪ holders l tid -> re_status (rl_env l') y = Live -> y ∈ live
  | _ => rl_share_locks l' = rl_share_locks l
  end.
Proof.
  intros Hi Hb H. unfold live_share_holders in H. unfold mbindM at 1, mget in H. unfold mbindM at 1 in H.
  fold (holders l tid) in H. destruct (live_loop _ _ _ l) as [r1 l1] eqn:E1.
  apply live_loop_spec in E1 as (M1 & S1 & R1); [|done|].
  2: { apply Forall_forall. intros y Hy. apply Hb. by apply elem_of_zsort, elem_of_elements in Hy. }
  destruct r1 as [live|e|]; [|by injection H as <- <-..]. destruct (R1 live eq_refl) as (A1 & A2 & A3).
  unfold mbindM, mmodify, mret in H. injection H as <- <-. split.
  - eapply moved_trans; [exact M1|]. split; cbn; [apply re_le_refl|apply M1|done|].
    intros k Hk. case_bool_decide; by rewrite ?lookup_delete_ne, ?lookup_insert_ne by done.
  - split; [|split].
    + unfold holders. cbn. case_bool_decide as E; [by rewrite lookup_delete_eq|by rewrite lookup_insert_eq].
    + intros y Hy. apply A2 in Hy. apply elem_of_union in Hy as [?|Hy]; [set_solver|].
      by apply elem_of_list_to_set, elem_of_zsort, elem_of_elements in Hy.
    + intros y Hy Hl. apply A3; [|done]. by apply elem_of_zsort, elem_of_elements.
Qed.

(** Live holders stay known. *)
Definition keeps_live tid h l l' : Prop :=
  forall y, y ∈ {[t_xmax h]} ∪ holders l tid -> re_status (rl_env l') y = Live -> y ∈ {[t_xmax h]} ∪ holders l' tid.

(** The registry only names transactions it or the stamp named before, and the caller. *)
Definition names_from tid (x : TxnId) h l l' : Prop :=
  forall y, y ∈ holders l' tid -> y = x \/ (t_xmax h <> 0 /\ y = t_xmax h) \/ y ∈ holders l tid.

Definition verdict_ok tid x req h l (v : RowLockGate) l' : Prop :=
  match v with
  | Wait _ => keeps_live tid h l l'
  | ProceedNoStamp =>
      req = LockShared /\ t_xmax h <> 0 /\ keeps_live tid h l l' /\
      ((t_xmax h = x /\ share_bit h = false) \/ (share_bit h = true /\ x ∈ {[t_xmax h]} ∪ holders l' tid))
  | Proceed =>
      (req = LockShared -> x ∈ holders l' tid) /\
      (t_xmax h = x -> req <> LockShared /\ (lock_only_bit h = false -> req = LockWriter)) /\
      (t_xmax h <> 0 -> t_xmax h <> x -> share_bit h = false ->
        re_status (rl_env l') (t_xmax h) <> Live /\
        (lock_only_bit h = false -> re_status (rl_env l') (t_xmax h) <> Done Committed)) /\
      (t_xmax h <> 0 -> share_bit h = true ->
        forall y, y ∈ {[t_xmax h]} ∪ holders l tid -> y <> x -> re_status (rl_env l') y <> Live)
  end.

Lemma keeps_same tid h l l' : rl_share_locks l' = rl_share_locks l -> keeps_live tid h l l'.
Proof. intros E y Hy _. unfold holders. by rewrite E. Qed.

(** Overwriting the stamp, once nothing stands in the way. *)
Lemma overwrite_spec tid x req l r l' : re_inv (rl_env l) ->
  (note_stamp_overwrite tid x req ;! mret Proceed) l = (r, l') ->
  r = Ok Proceed /\ moved tid l l' /\ rl_env l' = rl_env l /\ (req = LockShared -> x ∈ holders l' tid) /\
  forall y, y ∈ holders l' tid -> y = x.
Proof.
  intros Hi H. destruct (note_moved tid x req l Hi) as (l1 & E1 & M1 & H1). unfold mbindM in H. rewrite E1 in H.
  injection H as <- <-. split; [done|]. split; [done|]. split; [by injection E1 as <-|].
  rewrite H1. split; [intros ->; set_solver|]. destruct req; set_solver.
Qed.

(** A request that found a blocking holder. *)
Lemma edge_wait_spec tid x b h l l1 r l' : re_inv (rl_env l) -> moved tid l l1 ->
  (forall y, y ∈ {[t_xmax h]} ∪ holders l tid -> re_status (rl_env l1) y = Live -> y ∈ {[t_xmax h]} ∪ holders l1 tid) ->
  (forall y, y ∈ {[t_xmax h]} ∪ holders l tid -> begun (rl_env l) y) ->
  (register_wait_edge x b ;! mret (Wait b)) l1 = (r, l') ->
  moved tid l l' /\ keeps_live tid h l l' /\ holders l' tid = holders l1 tid /\ (r = Ok (Wait b) \/ r = Panic).
Proof.
  intros Hi M1 Hk Hb H. unfold mbindM in H. destruct (register_wait_edge x b l1) as [r1 l2] eqn:E.
  destruct (edge_moved tid _ _ _ _ _ (mv_inv _ _ _ M1) E) as [M2 S2].
  assert (Hl' : l' = l2 /\ (r = Ok (Wait b) \/ r = Panic)).
  { unfold register_wait_edge, mbindM, mget in E. destruct (rl_row_waiter l1); injection E as <- <-; injection H as <- <-; auto. }
  destruct Hl' as [-> Hr]. split; [by eapply moved_trans|].
  split; [|split; [unfold holders; by rewrite S2|done]].
  intros y Hy Hl. unfold holders at 1. rewrite S2. apply Hk; [done|]. destruct (Hb y Hy) as [Hv Hf].
  eapply le_inv_status; [apply M1|apply M2|done| |done]. by eapply le_not_fresh; [|apply M1|..].
Qed.

Definition gate_post tid x req h l (r : res HeapError RowLockGate) l' : Prop :=
  moved tid l l' /\
  match r with
  | Ok v => names_from tid x h l l' /\ verdict_ok tid x req h l v l'
  | Err _ => names_from tid x h l l' /\ keeps_live tid h l l'
  | Panic => True
  end.

Lemma same_err tid x h l l' : rl_share_locks l' = rl_share_locks l -> names_from tid x h l l' /\ keeps_live tid h l l'.
Proof. intros E. split; [|by apply keeps_same]. intros y Hy. unfold holders in *. rewrite E in Hy. auto. Qed.

(** The share branches: the pruned holders decide. *)
Lemma share_wait_or_take tid x req h l l1 live r l' :
  re_inv (rl_env l) -> moved tid l l1 -> holders l1 tid = live -> share_bit h = true -> lock_only_bit h = true -> req <> LockShared ->
  t_xmax h <> 0 -> live ⊆ {[t_xmax h]} ∪ holders l tid ->
  (forall y, y ∈ {[t_xmax h]} ∪ holders l tid -> begun (rl_env l) y) ->
  (forall y, y ∈ {[t_xmax h]} ∪ holders l tid -> re_status (rl_env l1) y = Live -> y ∈ live) ->
  (forall c, c = head (filter (fun y => y <> x) (zsort (elements live))) \/ (not (x ∈ live) /\ c = head (zsort (elements live))) ->
   (match c with
    | Some blocking => register_wait_edge x blocking ;! mret (Wait blocking)
    | None => note_stamp_overwrite tid x req ;! mret Proceed
    end) l1 = (r, l') -> gate_post tid x req h l r l').
Proof.
  intros Hi M1 Hh Hs Hlo Hreq Hx0 Hsub Hb Hl c Hc H. destruct c as [b|].
  - destruct (edge_wait_spec tid x b h l l1 r l' Hi M1) as (M2 & K2 & N2 & [-> | ->]); try done.
    2: { split; [done|]. split; [|done]. intros y Hy. rewrite N2, Hh in Hy. set_solver. }
    rewrite Hh. intros y Hy E. apply elem_of_union_r. by apply Hl.
  - destruct (overwrite_spec tid x req l1 r l' (mv_inv _ _ _ M1) H) as (-> & M2 & E2 & _ & N2).
    split; [by eapply moved_trans|]. split; [intros y Hy; left; by apply N2|]. cbn. split; [done|]. split; [split; [done|congruence]|]. split; [congruence|].
    intros _ _ y Hy Hyx Hlive. rewrite E2 in Hlive. pose proof (Hl y Hy Hlive) as Hyl.
    assert (Hin : y ∈ zsort (elements live)) by (by apply elem_of_zsort, elem_of_elements).
    destruct Hc as [Hc|[_ Hc]].
    + destruct (filter _ _) as [|z zs] eqn:Ef; [|done].
      assert (y ∈ filter (fun y => y <> x) (zsort (elements live))) as Hf by (by apply list_elem_of_filter). rewrite Ef in Hf. set_solver.
    + destruct (zsort _); [set_solver|done].
Qed.

Lemma other_stamp_spec tid x req h l r l' :
  re_inv (rl_env l) -> begun (rl_env l) (t_xmax h) -> t_xmax h <> x -> share_bit h = false ->
  other_stamp tid x (t_xmax h) (lock_only_bit h) req l = (r, l') -> gate_post tid x req h l r l'.
Proof.
  intros Hi [Hv Hf] Hne Hs H. unfold other_stamp in H. unfold mbindM at 1 in H.
  destruct (ask_clog (t_xmax h) l) as [r1 l1] eqn:E1. destruct (ask_clog_moved tid _ _ _ _ Hi Hv E1) as (M1 & S1 & R1).
  assert (Hend : forall l2 st, moved tid l l2 -> rl_share_locks l2 = rl_share_locks l -> re_status (rl_env l2) (t_xmax h) <> Live ->
    (st <> Committed -> re_status (rl_env l2) (t_xmax h) <> Done Committed) ->
    ended_stamp tid x (lock_only_bit h) req st l2 = (r, l') -> gate_post tid x req h l r l').
  { intros l2 st M2 S2 Hnl Hnc H'.
    assert (Hover : lock_only_bit h = true \/ st <> Committed -> (note_stamp_overwrite tid x req ;! mret Proceed) l2 = (r, l') -> gate_post tid x req h l r l').
    { intros Hok H2. destruct (overwrite_spec tid x req l2 r l' (mv_inv _ _ _ M2) H2) as (-> & M3 & E3 & H3 & N3).
      split; [by eapply moved_trans|]. split; [intros y Hy; left; by apply N3|]. cbn. split; [done|]. split; [congruence|]. split; [|congruence].
      intros _ _ _. rewrite E3. split; [done|]. intros Hlo. apply Hnc. destruct Hok; congruence. }
    destruct st; cbn [ended_stamp] in H'; try (by apply Hover; [right|]).
    destruct (lock_only_bit h) eqn:El; [by apply Hover; [left|]|]. injection H' as <- <-. split; [done|]. by apply same_err. }
  destruct r1 as [st|e|]; [|injection H as <- <-; split; [done|]; try done; by apply same_err..].
  specialize (R1 st eq_refl). destruct (decide (terminal st)) as [Ht|Ht].
  { assert (Hd : re_status (rl_env l) (t_xmax h) = Done st).
    { destruct (re_status _ _); cbn in R1; try done; [subst; by destruct Ht|by destruct R1 as [-> _]|destruct R1; subst; by destruct Ht]. }
    pose proof (re_le_status _ _ _ Hi (mv_env _ _ _ M1) Hv) as Hd1. rewrite Hd in Hd1. cbn in Hd1.
    apply (Hend l1 st); [done|done|congruence|congruence|]. by destruct Ht as [-> | ->]. }
  assert (Ha : (let! l := mget in if rl_row_waiter l then let! a := ask (re_is_active (t_xmax h)) in
      if a : bool then tell (re_register_row_wait x (t_xmax h)) ;! mret (Wait (t_xmax h))
      else let! state := ask_clog (t_xmax h) in ended_stamp tid x (lock_only_bit h) req state else mthrow (TupleNotFound tid)) l1 = (r, l')).
  { destruct st; done || (exfalso; apply Ht; unfold terminal; tauto). }
  clear H. unfold mbindM at 1, mget in Ha. destruct (rl_row_waiter l1); [|injection Ha as <- <-; split; [done|by apply same_err]].
  unfold mbindM at 1 in Ha. destruct (ask (re_is_active _) l1) as [r2 l2] eqn:E2.
  destruct (ask_active_moved tid _ _ _ _ (mv_inv _ _ _ M1) E2) as (M2 & S2 & b & -> & Hb). pose proof (moved_trans _ _ _ _ M1 M2) as M12.
  destruct b.
  - injection Ha as <- <-. split; [|apply same_err; cbn; congruence].
    eapply moved_trans; [exact M12|]. apply moved_set_env; [apply M12|]. apply re_register_le, M12.
  - unfold mbindM at 1 in Ha. destruct (ask_clog (t_xmax h) l2) as [r3 l3] eqn:E3.
    destruct (ask_clog_moved tid _ _ _ _ (mv_inv _ _ _ M12) Hv E3) as (M3 & S3 & R3). pose proof (moved_trans _ _ _ _ M12 M3) as M13.
    destruct r3 as [st'|e|]; [|injection Ha as <- <-; split; [done|]; try done; apply same_err; congruence..].
    specialize (R3 st' eq_refl).
    assert (Hf1 : re_status (rl_env l1) (t_xmax h) <> Fresh) by (by eapply le_not_fresh; [|apply M1|..]).
    assert (Hnl1 : re_status (rl_env l1) (t_xmax h) <> Live) by (intros E; by specialize (Hb E)).
    pose proof (mv_inv _ _ _ M1) as I1. pose proof (mv_inv _ _ _ M12) as I2.
    apply (Hend l3 st'); [done|congruence| | |done].
    + intros E. apply Hnl1. eapply le_inv_status; [done|eapply re_le_trans; [apply M2|apply M3]|done..].
    + intros Hst E. assert (Hf2 : re_status (rl_env l2) (t_xmax h) <> Fresh) by (by eapply le_not_fresh; [|apply M2|..]).
      destruct (le_committed _ _ _ I2 (mv_env _ _ _ M3) Hv Hf2 E) as [E'|E'].
      * apply Hnl1. by eapply le_inv_status; [|apply M2|..].
      * rewrite E' in R3. by destruct R3.
Qed.

Lemma gate_spec page tid x req h l r l' :
  re_inv (rl_env l) -> tuple_header page tid = Ok h -> (share_bit h = true -> lock_only_bit h = true) ->
  (t_xmax h <> 0 -> begun (rl_env l) (t_xmax h)) -> (forall y, y ∈ holders l tid -> begun (rl_env l) y) -> x <> 0 ->
  row_lock_gate page tid x req l = (r, l') -> gate_post tid x req h l r l'.
Proof.
  intros Hi Hh Hsl Hbx Hbs Hx H. unfold row_lock_gate in H. unfold mbindM at 1, of_res_l in H. rewrite Hh in H.
  fold (lock_only_bit h) (share_bit h) in H. unfold TxnId_INVALID in H. destruct (Z.eqb_spec (t_xmax h) 0) as [E0|E0].
  { destruct (overwrite_spec tid x req l r l' Hi H) as (-> & M2 & E2 & H2 & N2). split; [done|].
    split; [intros y Hy; left; by apply N2|]. cbn. split; [done|]. split; [congruence|]. by split; intros. }
  assert (Hball : forall y, y ∈ {[t_xmax h]} ∪ holders l tid -> begun (rl_env l) y).
  { intros y [->%elem_of_singleton|Hy]%elem_of_union; [by apply Hbx|by apply Hbs]. }
  destruct (Z.eqb_spec (t_xmax h) x) as [Ex|Ex].
  - unfold own_stamp in H. destruct (lock_only_bit h) eqn:El; cbn [negb] in H.
    2: { case_bool_decide; injection H as <- <-; (split; [by apply moved_refl|]); [|by apply same_err].
         split; [by apply same_err|]. cbn. rewrite El. split; [congruence|]. split; [split; congruence|]. split; [done|]. intros _ Hsh. by specialize (Hsl Hsh). }
    destruct (share_bit h) eqn:Es.
    + destruct (decide (req = LockShared)) as [->|Hreq].
      * destruct (register_moved tid x l Hi) as (l1 & E1 & M1 & H1). unfold mbindM in H. rewrite E1 in H. injection H as <- <-.
        split; [done|]. split; [intros y Hy; rewrite H1 in Hy; set_solver|]. cbn. rewrite H1. split; [done|]. split; [done|]. split; [|right; set_solver].
        intros y Hy _. rewrite H1. set_solver.
      * assert (Ha : (let! live := live_share_holders tid x in
          match other_holder x live with
          | Some blocking => register_wait_edge x blocking ;! mret (Wait blocking)
          | None => note_stamp_overwrite tid x req ;! mret Proceed
          end) l = (r, l')) by (by destruct req). clear H. rewrite <-Ex in Ha at 1.
        unfold mbindM at 1 in Ha. destruct (live_share_holders tid (t_xmax h) l) as [r1 l1] eqn:E1.
        destruct (live_share_spec _ _ _ _ _ Hi Hball E1) as [M1 R1].
        destruct r1 as [live|e|]; [|injection Ha as <- <-; split; [done|]; try done; by apply same_err..].
        destruct R1 as (R1 & R2 & R3). eapply (share_wait_or_take tid x req h l l1 live); try done. by left.
    + case_bool_decide as Er; injection H as <- <-; (split; [by apply moved_refl|]); (split; [by apply same_err|]); cbn.
      * split; [done|]. split; [done|]. split; [by apply keeps_same|]. by left.
      * split; [done|]. rewrite El. split; [by split|]. split; [done|]. congruence.
  - destruct (share_bit h) eqn:Es; [|by eapply other_stamp_spec; [|apply Hbx|..]].
    unfold share_stamp_gate in H. unfold mbindM at 1 in H. destruct (live_share_holders tid (t_xmax h) l) as [r1 l1] eqn:E1.
    destruct (live_share_spec _ _ _ _ _ Hi Hball E1) as [M1 R1].
    destruct r1 as [live|e|]; [|injection H as <- <-; split; [done|]; try done; by apply same_err..].
    destruct R1 as (R1 & R2 & R3).
    assert (Hreg : req = LockShared -> (register_share_holder tid x ;! mret ProceedNoStamp) l1 = (r, l') -> gate_post tid x req h l r l').
    { intros -> H2. destruct (register_moved tid x l1 (mv_inv _ _ _ M1)) as (l2 & E2 & M2 & H2').
      unfold mbindM in H2. rewrite E2 in H2. injection H2 as <- <-. split; [by eapply moved_trans|].
      split; [intros y Hy; rewrite H2', R1 in Hy; set_solver|]. cbn. rewrite H2', R1.
      split; [done|]. split; [done|]. split; [|right; set_solver]. intros y Hy Hl. rewrite H2', R1.
      apply elem_of_union_r, elem_of_union_r, R3; [done|]. by injection E2 as <-. }
    destruct (decide (req = LockShared)) as [->|Hreq].
    + case_bool_decide as Ein; [by apply Hreg|]. case_bool_decide as Ee; [|by apply Hreg].
      destruct (overwrite_spec tid x LockShared l1 r l' (mv_inv _ _ _ M1) H) as (-> & M2 & E2 & H2 & N2).
      split; [by eapply moved_trans|]. split; [intros y Hy; left; by apply N2|]. cbn. split; [done|]. split; [done|]. split; [congruence|].
      intros _ _ y Hy _ Hl. rewrite E2 in Hl. specialize (R3 y Hy Hl). set_solver.
    + eapply (share_wait_or_take tid x req h l l1 live) with (c := if bool_decide (x ∈ live) then other_holder x live else head (zsort (elements live)));
        try done; [by apply Hsl| |].
      * case_bool_decide; [by left|by right].
      * rewrite <-H. case_bool_decide; by destruct req.
Qed.

End gate_spec.

(** ** One row and the transactions that ask for it *)

Section row_system.
Context {T : Type} {RE : RowEnv T} {RL : RowEnvLaws T}.
Context (tid : Tid).

(** [rs_held] lists the requests granted so far. *)
Record RowSys := mkRowSys { rs_locks : RowLocks T; rs_page : Page; rs_held : list (TxnId * LockRequest) }.

Definition running (l : RowLocks T) (x : TxnId) : Prop := valid_xid x /\ re_status (rl_env l) x = Live.

(** [cut] allows an operation to pass the gate and give up the latch before it
    stamps the row: the first pass of an update that moves to another page, or an
    operation whose log record cannot be appended. *)
Inductive row_step (cut : bool) : RowSys -> RowSys -> Prop :=
| row_env l page held e : re_le (rl_env l) e -> row_step cut (mkRowSys l page held) (mkRowSys (set_env e l) page held)
| row_elsewhere l page held shares page' :
    shares !! lock_key tid = rl_share_locks l !! lock_key tid -> page_inv page' ->
    (forall b h, tuple_at page (slot_id tid) b h -> exists b', tuple_at page' (slot_id tid) b' h) ->
    row_step cut (mkRowSys l page held) (mkRowSys (set_shares shares l) page' held)
| row_wait l page held x req b l' :
    running l x -> running l' x -> row_lock_gate page tid x req l = (Ok (Wait b), l') ->
    row_step cut (mkRowSys l page held) (mkRowSys l' page held)
| row_refused l page held x req e l' :
    running l x -> running l' x -> row_lock_gate page tid x req l = (Err e, l') ->
    row_step cut (mkRowSys l page held) (mkRowSys l' page held)
| row_join l page held x req l' :
    running l x -> running l' x -> row_lock_gate page tid x req l = (Ok ProceedNoStamp, l') ->
    row_step cut (mkRowSys l page held) (mkRowSys l' page ((x, req) :: held))
| row_grant l page held x req f l' page' :
    running l x -> running l' x -> row_lock_gate page tid x req l = (Ok Proceed, l') ->
    grant_stamp tid x req f -> restamp f tid page = Ok (tt, page') ->
    row_step cut (mkRowSys l page held) (mkRowSys l' page' ((x, req) :: held))
| row_cut l page held x req l' :
    cut = true -> running l x -> running l' x -> row_lock_gate page tid x req l = (Ok Proceed, l') ->
    row_step cut (mkRowSys l page held) (mkRowSys l' page held).

Record stamp_inv (cut : bool) (l : RowLocks T) (h : TupleHeader) (held : list (TxnId * LockRequest)) : Prop := {
  si_env : re_inv (rl_env l);
  si_share_bit : share_bit h = true -> lock_only_bit h = true;
  si_stamper : t_xmax h <> 0 -> begun (rl_env l) (t_xmax h);
  si_holders : forall y, y ∈ holders l tid -> begun (rl_env l) y;
  si_held : forall y r, (y, r) ∈ held -> begun (rl_env l) y;
  si_writer : forall y, (y, LockWriter) ∈ held -> re_status (rl_env l) y = Live \/ re_status (rl_env l) y = Done Committed ->
    t_xmax h = y /\ lock_only_bit h = false /\ share_bit h = false;
  si_exclusive : forall y, (y, LockExclusive) ∈ held -> re_status (rl_env l) y = Live -> t_xmax h = y /\ share_bit h = false;
  si_shared : cut = false -> forall y, (y, LockShared) ∈ held -> re_status (rl_env l) y = Live ->
    t_xmax h = y /\ share_bit h = false \/ share_bit h = true /\ t_xmax h <> 0 /\ y ∈ {[t_xmax h]} ∪ holders l tid;
}.

Definition row_inv (cut : bool) (s : RowSys) : Prop :=
  page_inv (rs_page s) /\ exists b h, tuple_at (rs_page s) (slot_id tid) b h /\ stamp_inv cut (rs_locks s) h (rs_held s).

(** A row nobody holds yet; its old stamp, if any, is one of a started transaction. *)
Definition row_start (s : RowSys) : Prop :=
  rs_held s = [] /\ page_inv (rs_page s) /\ rl_share_locks (rs_locks s) !! lock_key tid = None /\ re_inv (rl_env (rs_locks s)) /\
  exists b h, tuple_at (rs_page s) (slot_id tid) b h /\ (share_bit h = true -> lock_only_bit h = true) /\
    (t_xmax h <> 0 -> begun (rl_env (rs_locks s)) (t_xmax h)).

Lemma begun_moved (l l' : RowLocks T) y : re_inv (rl_env l) -> re_le (rl_env l) (rl_env l') -> begun (rl_env l) y -> begun (rl_env l') y.
Proof. intros Hi Hle [Hv Hf]. split; [done|]. by eapply le_not_fresh. Qed.

Lemma live_back (l l' : RowLocks T) y : re_inv (rl_env l) -> re_le (rl_env l) (rl_env l') -> begun (rl_env l) y ->
  re_status (rl_env l') y = Live -> re_status (rl_env l) y = Live.
Proof. intros Hi Hle [Hv Hf]. by apply le_inv_status. Qed.

(** Time passes, the live holders stay known, nobody is granted anything. *)
Lemma stamp_inv_moved cut l l' h held :
  stamp_inv cut l h held -> re_inv (rl_env l') -> re_le (rl_env l) (rl_env l') ->
  (forall y, y ∈ holders l' tid -> begun (rl_env l') y) -> (cut = false -> keeps_live tid h l l') -> stamp_inv cut l' h held.
Proof.
  intros [S1 S2 S3 S4 S5 S6 S7 S8] Hi Hle Hh Hk. split; try done.
  - intros Hz. by eapply begun_moved, S3.
  - intros y r Hy. by eapply begun_moved, S5.
  - intros y Hy Hst. apply S6; [done|]. destruct (S5 _ _ Hy) as [Hv Hf]. destruct Hst as [E|E].
    + left. by eapply le_inv_status.
    + by eapply le_committed.
  - intros y Hy E. apply S7; [done|]. eapply live_back, E; [done|done|by eapply S5].
  - intros -> y Hy E. destruct (S8 eq_refl y Hy) as [?|(E1 & E2 & E3)]; [eapply live_back, E; [done|done|by eapply S5]|by left|].
    right. split; [done|]. split; [done|]. by apply Hk.
Qed.

Lemma names_begun x h l l' : re_inv (rl_env l) -> re_le (rl_env l) (rl_env l') -> names_from tid x h l l' -> running l' x ->
  (t_xmax h <> 0 -> begun (rl_env l) (t_xmax h)) -> (forall y, y ∈ holders l tid -> begun (rl_env l) y) ->
  forall y, y ∈ holders l' tid -> begun (rl_env l') y.
Proof.
  intros Hi Hle Hn [Hv Hl] Hx Hh y Hy. destruct (Hn y Hy) as [->|[[Hz ->]|Hy']].
  - split; [done|congruence].
  - by eapply begun_moved, Hx.
  - by eapply begun_moved, Hh.
Qed.

(** A new stamp: every other live holder is gone, or the request could not have passed. *)
Lemma stamp_inv_grant cut l l' h f x req held :
  stamp_inv cut l h held -> moved tid l l' -> names_from tid x h l l' -> verdict_ok tid x req h l Proceed l' -> running l' x ->
  grant_stamp tid x req f -> stamp_inv cut l' (f h) ((x, req) :: held).
Proof.
  intros Hst [Hle Hi _ _] Hn (V1 & V2 & V3 & V4) Hrun Hg. destruct (grant_header tid x req f h Hg) as (F1 & F2 & F3).
  destruct Hst as [S1 S2 S3 S4 S5 S6 S7 S8]. pose proof Hrun as [Hv Hl].
  assert (Hx : begun (rl_env l') x) by (split; [done|congruence]).
  assert (Hold : forall y r, (y, r) ∈ held -> re_status (rl_env l') y = Live -> t_xmax h <> 0 ->
    t_xmax h = y /\ share_bit h = false \/ share_bit h = true /\ y ∈ {[t_xmax h]} ∪ holders l tid -> y = x).
  { intros y r Hy Hyl Hz [[E1 E2]|[E1 E2]]; destruct (decide (y = x)) as [|Hne]; try done; exfalso.
    - destruct (V3 Hz) as [V _]; [congruence|done|]. by rewrite E1 in V.
    - by apply (V4 Hz E1 y E2). }
  split; rewrite ?F1, ?F2; try done.
  - case_bool_decide as E; [|done]. intros _. subst. unfold lock_only_bit. destruct (flag_bits (t_infomask (f h))) as [-> _].
    inversion Hg; subst. cbn [am_lock_header t_infomask]. by rewrite !Z.lor_spec, orb_true_r.
  - by apply (names_begun x h l l').
  - intros y r [[= -> ->]|Hy]%elem_of_cons; [done|]. by eapply begun_moved, S5.
  - intros y [[= <- <-]|Hy]%elem_of_cons Hyst; [by rewrite F3|].
    destruct (S5 _ _ Hy) as [Hyv Hyf].
    assert (Hw : t_xmax h = y /\ lock_only_bit h = false /\ share_bit h = false).
    { apply S6; [done|]. destruct Hyst as [E|E]; [left; by eapply le_inv_status|by eapply le_committed]. }
    destruct Hw as (E1 & E2 & E3). assert (t_xmax h <> 0) by (unfold valid_xid in Hyv; lia).
    destruct (decide (y = x)) as [->|Hne].
    + destruct (V2 E1) as [_ V2']. specialize (V2' E2). subst req. by rewrite F3.
    + exfalso. destruct (V3 ltac:(done) ltac:(congruence) E3) as [V5 V6]. rewrite E1 in V5, V6. destruct Hyst; [done|]. by apply V6.
  - intros y [[= <- <-]|Hy]%elem_of_cons Hyl; [done|]. destruct (S5 _ _ Hy) as [Hyv Hyf].
    destruct (S7 y Hy) as [E1 E2]; [by eapply le_inv_status|].
    assert (Hz : t_xmax h <> 0) by (unfold valid_xid in Hyv; lia).
    assert (y = x) as -> by (eapply Hold; [done|done|done|by left]). split; [done|].
    case_bool_decide as E; [|done]. by destruct (V2 E1).
  - intros -> y [[= <- <-]|Hy]%elem_of_cons Hyl.
    + right. split; [done|]. unfold valid_xid in Hv. split; [lia|set_solver].
    + destruct (S5 _ _ Hy) as [Hyv Hyf].
      assert (Hc : t_xmax h = y /\ share_bit h = false \/ share_bit h = true /\ t_xmax h <> 0 /\ y ∈ {[t_xmax h]} ∪ holders l tid).
      { apply S8; [done|done|]. by eapply le_inv_status. }
      assert (Hz : t_xmax h <> 0) by (destruct Hc as [[E _]|(_ & E & _)]; [unfold valid_xid in Hyv; lia|done]).
      assert (y = x) as -> by (eapply Hold; [done|done|done|tauto]).
      case_bool_decide; [right|by left]. split; [done|]. split; [unfold valid_xid in Hv; lia|set_solver].
Qed.

Lemma stamp_inv_join cut l l' h x req held :
  stamp_inv cut l' h held -> verdict_ok tid x req h l ProceedNoStamp l' -> running l' x -> stamp_inv cut l' h ((x, req) :: held).
Proof.
  intros [S1 S2 S3 S4 S5 S6 S7 S8] (-> & Hz & _ & Hx) [Hv Hl]. split; try done.
  - intros y r [[= -> ->]|Hy]%elem_of_cons; [split; [done|congruence]|by eapply S5].
  - intros y [[=]|Hy]%elem_of_cons. by apply S6.
  - intros y [[=]|Hy]%elem_of_cons. by apply S7.
  - intros Hc y [[= ->]|Hy]%elem_of_cons Hyl; [|by apply S8]. destruct Hx as [?|[]]; auto.
Qed.

Lemma row_step_inv cut s s' : row_inv cut s -> row_step cut s s' -> row_inv cut s'.
Proof.
  intros [Hp (b & h & Hat & Hst)] Hstep. pose proof Hst as [S1 S2 S3 S4 S5 S6 S7 S8].
  assert (Hgate : forall l page held x req r l', mkRowSys l page held = s -> running l x ->
    row_lock_gate page tid x req l = (r, l') -> gate_post tid x req h l r l').
  { intros l page held x req r l' <- [Hv _] Hg. cbn in *. eapply gate_spec, Hg; try done.
    - by eapply tuple_header_at.
    - unfold valid_xid in Hv. lia. }
  assert (Hquiet : forall l page held x l', mkRowSys l page held = s -> running l' x -> moved tid l l' -> names_from tid x h l l' ->
    (cut = false -> keeps_live tid h l l') -> stamp_inv cut l' h held).
  { intros l page held x l' <- Hr [M1 M2 _ _] Hn Hk. cbn in *. eapply stamp_inv_moved; [done|done|done| |done]. by apply (names_begun x h l l'). }
  destruct Hstep as [l page held e Hle|l page held shares page' Hsh Hp' Hat'|l page held x req w l' Hr Hr' Hg|l page held x req e l' Hr Hr' Hg
    |l page held x req l' Hr Hr' Hg|l page held x req f l' page' Hr Hr' Hg Hf Hs|l page held x req l' Hcut Hr Hr' Hg]; cbn in *.
  - split; [done|]. exists b, h. split; [done|]. cbn. eapply stamp_inv_moved; [done|cbn; by eapply re_le_inv|done| |intros _; by apply keeps_same].
    cbn. intros y Hy. eapply (begun_moved l (set_env e l)); [done|done|]. by apply S4.
  - split; [done|]. destruct (Hat' _ _ Hat) as [b' Hb']. exists b', h. split; [done|].
    assert (Hh : holders (set_shares shares l) tid = holders l tid) by (unfold holders; cbn; by rewrite Hsh).
    apply (stamp_inv_moved _ l (set_shares shares l)); [done|done|apply re_le_refl|intros y; rewrite Hh; apply S4|]. intros _ y Hy _. by rewrite Hh.
  - destruct (Hgate _ _ _ _ _ _ _ eq_refl Hr Hg) as (M & N & K). split; [done|]. exists b, h. split; [done|]. by eapply Hquiet.
  - destruct (Hgate _ _ _ _ _ _ _ eq_refl Hr Hg) as (M & N & K). split; [done|]. exists b, h. split; [done|]. by eapply Hquiet.
  - destruct (Hgate _ _ _ _ _ _ _ eq_refl Hr Hg) as (M & N & K). split; [done|]. exists b, h. split; [done|].
    eapply stamp_inv_join; [|done|done]. eapply Hquiet; try done. intros _. apply K.
  - destruct (Hgate _ _ _ _ _ _ _ eq_refl Hr Hg) as (M & N & K). destruct Hr' as [Hv Hl].
    destruct (restamp_at f tid page b h Hp (grant_keeps _ _ _ _ Hv Hf) Hat) as (q & Hq & Hpi & _ & _ & Hat'). rewrite Hs in Hq. injection Hq as <-.
    split; [done|]. eexists _, (f h). split; [done|]. by eapply stamp_inv_grant.
  - destruct (Hgate _ _ _ _ _ _ _ eq_refl Hr Hg) as (M & N & K). split; [done|]. exists b, h. split; [done|].
    eapply Hquiet; try done. congruence.
Qed.

Lemma row_reach_inv cut s s' : row_start s -> rtc (row_step cut) s s' -> row_inv cut s'.
Proof.
  intros (H1 & H2 & H3 & H4 & b & h & H5 & H6 & H7) Hs.
  assert (Hi : row_inv cut s).
  { split; [done|]. exists b, h. split; [done|]. rewrite H1. split; try done; try (intros; set_solver).
    unfold holders. rewrite H3. set_solver. }
  clear -Hs Hi. induction Hs as [|s1 s2 s3 H12 _ IH]; [done|]. apply IH. by eapply row_step_inv.
Qed.

(** C9: row locks exclude each other.  However the transactions that want a row
    version and everything around them interleave, at most one running
    transaction has been granted it for writing or locking, and at most one
    writer of the version ever commits, so no update is lost; when no operation
    gives up the latch between the gate and its stamp, a running share holder
    also keeps every other transaction from writing or locking the row. *)
Theorem row_lock_safe cut s s' x y rx ry :
  row_start s -> rtc (row_step cut) s s' -> (x, rx) ∈ rs_held s' -> (y, ry) ∈ rs_held s' ->
  (running (rs_locks s') x -> running (rs_locks s') y -> rx <> LockShared -> ry <> LockShared \/ cut = false -> x = y) /\
  (rx = LockWriter -> ry = LockWriter -> re_status (rl_env (rs_locks s')) x = Done Committed ->
    re_status (rl_env (rs_locks s')) y = Done Committed -> x = y).
Proof.
  intros Hstart Hs Hx Hy. destruct (row_reach_inv _ _ _ Hstart Hs) as [_ (b & h & _ & Hst)].
  assert (Hexcl : forall z rz, (z, rz) ∈ rs_held s' -> running (rs_locks s') z -> rz <> LockShared -> t_xmax h = z /\ share_bit h = false).
  { intros z [] Hz [_ Hl] Hne; [|by apply (si_exclusive _ _ _ _ Hst)|done]. destruct (si_writer _ _ _ _ Hst z Hz) as (? & _ & ?); auto. }
  split.
  - intros Hrx Hry Hnx Hny. destruct (Hexcl _ _ Hx Hrx Hnx) as [E1 E2]. destruct (decide (ry = LockShared)) as [->|Hny'].
    + destruct Hny as [|Hc]; [done|]. destruct Hry as [_ Hl]. destruct (si_shared _ _ _ _ Hst Hc y Hy Hl) as [[]|[]]; congruence.
    + destruct (Hexcl _ _ Hy Hry Hny'). congruence.
  - intros -> -> Ex Ey. destruct (si_writer _ _ _ _ Hst x Hx) as (E1 & _); [auto|].
    destruct (si_writer _ _ _ _ Hst y Hy) as (E2 & _); [auto|]. congruence.
Qed.

End row_system.
