(* ===== verification/RowRun.v ===== *)
(** * Row locks under the transaction manager

    The environment of the row-lock gate, implemented by the transaction manager
    while other threads run: after every access the next entry of a script, any
    sequence of steps of the manager, takes place.  The laws of [RowSafe] hold for
    it.  At the end, runs of the row system: the witness of the safety theorem and
    the run in which a share lock is lost. *)

From S2P Require Import Prelude Types LinePointer SlottedPage Tuple Clog TxnManager WalRecord Recovery HeapRedo HeapPage RowLock RowSafe.
Local Open Scope Z_scope.
Local Open Scope rust_scope.

#[export] Instance Phase_eq_dec : EqDecision Phase.
Proof. solve_decision. Defined.

Section race.
Context {C : Type} {CC : ClogAccessor C} {CL : ClogLaws C} {W : Type} {WW : CommitWal W} {WL : CommitWalLaws W}.
Abbreviation Sys := (System C W).

Record TxnRace := mkTxnRace { tr_start : Z; tr_sys : Sys; tr_script : list (Sys -> Sys) }.

Definition set_sys (s : Sys) (r : TxnRace) : TxnRace := mkTxnRace (tr_start r) s (tr_script r).

(** Other threads run. *)
Definition interfere (r : TxnRace) : TxnRace :=
  match tr_script r with
  | [] => r
  | f :: fs => mkTxnRace (tr_start r) (f (tr_sys r)) fs
  end.

Definition race_get_state (x : TxnId) : M TxnRace StorageError TxnState := fun r =>
  match on_clog (get_state x) (mgr (tr_sys r)) with
  | (Ok st, m) => (Ok st, interfere (set_sys (mkSystem m (pc (tr_sys r)) (sleeping (tr_sys r)) (unnotified (tr_sys r))) r))
  | (Err e, _) => (Err e, r)
  | (Panic, _) => (Panic, r)
  end.

Definition race_register (x y : TxnId) (r : TxnRace) : TxnRace := set_sys (upd_mgr (register_row_wait x y) (tr_sys r)) r.
Definition race_unregister (x : TxnId) (r : TxnRace) : TxnRace := set_sys (upd_mgr (unregister_row_wait x) (tr_sys r)) r.

(** The thread awake, then one pass of the wait loop; asleep, it leaves the script
    to run on.  At the end of the script nothing will wake it any more. *)
Definition race_wait_pass (x y : TxnId) (s : Sys) : option (res TxnError unit) * Sys :=
  let s := mkSystem (mgr s) (pc s) (delete x (sleeping s)) (unnotified s) in
  let r := wait_for_iter x y (mgr s) in
  (fst r, mkSystem (snd r) (pc s) (match fst r with None => <[x := y]> (sleeping s) | Some _ => sleeping s end) (unnotified s)).

Fixpoint race_wait_loop (fs : list (Sys -> Sys)) (x y : TxnId) (start : Z) (s : Sys) : res TxnError unit * TxnRace :=
  let p := race_wait_pass x y s in
  match fst p with
  | Some out => (out, mkTxnRace start (snd p) fs)
  | None => match fs with
            | [] => (Panic, mkTxnRace start (snd p) [])
            | f :: fs => race_wait_loop fs x y start (f (snd p))
            end
  end.

Definition race_wait_for (x y : TxnId) (r : TxnRace) : res TxnError unit * TxnRace :=
  if x =? y then (Err (SelfWait x), r) else race_wait_loop (tr_script r) x y (tr_start r) (tr_sys r).

#[export] Instance TxnRace_env : RowEnv TxnRace := {
  re_get_state := race_get_state;
  re_is_active := fun x r => (is_active x (mgr (tr_sys r)), interfere r);
  re_register_row_wait := race_register;
  re_unregister_row_wait := race_unregister;
  re_wait_for := race_wait_for;
}.

(** ** The laws *)

Definition script_ok (start : Z) (fs : list (Sys -> Sys)) : Prop := Forall (fun f => forall s, sys_inv 1 start s -> steps s (f s)) fs.

Definition race_inv (r : TxnRace) : Prop := sys_inv 1 (tr_start r) (tr_sys r) /\ script_ok (tr_start r) (tr_script r).
Definition race_le (r r' : TxnRace) : Prop :=
  tr_start r' = tr_start r /\ steps (tr_sys r) (tr_sys r') /\ (race_inv r -> script_ok (tr_start r) (tr_script r')).

Definition race_status (r : TxnRace) (x : TxnId) : XStatus :=
  match sview (tr_sys r) x with
  | Committed => Done Committed
  | Aborted => Done Aborted
  | _ => if decide (x ∈ active (mgr (tr_sys r))) then Live
         else if decide (txn_id_clock (mgr (tr_sys r)) <= x) then Fresh else Lost
  end.

Lemma steps_app (s1 s2 s3 : Sys) : steps s1 s2 -> steps s2 s3 -> steps s1 s3.
Proof. intros H12 H23. induction H12; [done|]. eapply steps_cons; [done|auto]. Qed.

Lemma steps_one (s1 s2 : Sys) : step s1 s2 -> steps s1 s2.
Proof. intros H. eapply steps_cons; [done|apply steps_refl]. Qed.

(** A recorded outcome is final, also while its transaction is still in the active set. *)
Lemma step_done start (s s' : Sys) x : sys_inv 1 start s -> step s s' -> valid_xid x -> terminal (sview s x) -> sview s' x = sview s x.
Proof.
  intros Hinv Hstep Hx Ht. pose proof Hinv as [Hcl Hco Hsl]. pose proof (core_clock _ _ _ _ _ _ _ Hco) as Hc.
  destruct (decide (x < txn_id_clock (mgr s))) as [Hlt|].
  2: { rewrite (core_future _ _ _ _ _ _ _ Hco) in Ht by (unfold valid_xid in Hx; lia). by destruct Ht. }
  destruct (decide (x ∈ active (mgr s))) as [Hin|Hin].
  2: { destruct (step_stable start s s' Hinv Hstep) as (_ & Hv & _). apply Hv; [unfold valid_xid in Hx; lia|done]. }
  assert (Hpc : pc s !! x = Some ClogSet).
  { destruct (decide (pc s !! x = Some ClogSet)) as [|Hne]; [done|]. rewrite (core_running _ _ _ _ _ _ _ Hco x Hin Hne) in Ht. by destruct Ht. }
  destruct Hstep as
    [s Hw|s z state l m' Hz Hp Hst Ha|s z state e m' Hz Hp Hst Ha|s z state l m' Hp Hf|s z state l e m' Hp Hf
    |s z state Hp|s z state m' Hp Hs|s z Hp|s z Hp|s z st m' Hz Hg|s self b|s self|s self b r m' Hne Hns Hwt|s self
    |s z|s]; try done.
  - by apply on_wal_inv in Ha as (w' & _ & ->).
  - by apply on_wal_inv in Ha as (w' & _ & ->).
  - by apply on_wal_inv in Hf as (w' & _ & ->).
  - by apply on_wal_inv in Hf as (w' & _ & ->).
  - destruct (set_inv start s z state m' Hinv Hp Hs) as [_ Hv]. unfold sview at 1. cbn. rewrite Hv by done.
    rewrite decide_False; [done|]. intros <-. congruence.
  - apply on_clog_inv in Hg as (c' & Hg & ->). apply get_state_ok in Hg as (_ & _ & Hv); [|done|done]. by apply Hv.
  - unfold wait_for_iter, victims_take in Hwt. cbn in Hwt. repeat case_bool_decide; cbn in Hwt; by injection Hwt as <- <-.
Qed.

Lemma race_status_done r x : terminal (sview (tr_sys r) x) -> race_status r x = Done (sview (tr_sys r) x).
Proof. unfold race_status. by intros [-> | ->]. Qed.

Lemma race_status_open r x : ~ terminal (sview (tr_sys r) x) ->
  race_status r x = if decide (x ∈ active (mgr (tr_sys r))) then Live
                    else if decide (txn_id_clock (mgr (tr_sys r)) <= x) then Fresh else Lost.
Proof. unfold race_status. destruct (sview _ _) eqn:E; try done; intros []; unfold terminal; auto. Qed.

Lemma step_status start (s s' : Sys) fs fs' x : sys_inv 1 start s -> step s s' -> valid_xid x ->
  status_le (race_status (mkTxnRace start s fs) x) (race_status (mkTxnRace start s' fs') x).
Proof.
  intros Hinv Hstep Hx. pose proof (step_inv start s s' Hinv Hstep) as Hinv'.
  destruct (step_stable start s s' Hinv Hstep) as (Hck & Hvs & Hact).
  destruct (decide (terminal (sview s x))) as [Ht|Ht].
  { rewrite !race_status_done; cbn; rewrite ?(step_done start s s' x) by done; done. }
  rewrite (race_status_open (mkTxnRace start s fs)) by done. cbn [tr_sys]. destruct (decide (x ∈ active (mgr s))) as [Hin|Hin].
  - destruct (decide (terminal (sview s' x))) as [Ht'|Ht']; [rewrite race_status_done by done; right; by eexists|].
    rewrite race_status_open by done. cbn [tr_sys]. rewrite decide_True; [by left|].
    destruct (decide (x ∈ active (mgr s'))) as [|Hin']; [done|]. exfalso. apply Ht'.
    apply (core_done _ _ _ _ _ _ _ (sys_core _ _ _ Hinv')); [|done].
    pose proof (core_active _ _ _ _ _ _ _ (sys_core _ _ _ Hinv) x Hin). lia.
  - destruct (decide _) as [|Hlt]; [done|]. assert (Hr : 0 < x < txn_id_clock (mgr s)) by (unfold valid_xid in Hx; lia).
    rewrite race_status_open by (cbn; by rewrite Hvs). cbn [tr_sys]. rewrite decide_False by (by apply Hact). by rewrite decide_False by lia.
Qed.

Lemma status_le_trans a b c : status_le a b -> status_le b c -> status_le a c.
Proof. destruct a; cbn; [done|intros [->|[s ->]]; cbn; eauto|by intros -> |by intros ->]. Qed.

Lemma steps_status start (s s' : Sys) fs fs' x : sys_inv 1 start s -> steps s s' -> valid_xid x ->
  status_le (race_status (mkTxnRace start s fs) x) (race_status (mkTxnRace start s' fs') x).
Proof.
  intros Hinv Hs Hx. induction Hs as [s|s1 s2 s3 H12 _ IH].
  - unfold race_status. cbn. repeat case_match; cbn; auto.
  - eapply status_le_trans; [by eapply (step_status _ _ _ fs fs)|]. apply IH. by eapply step_inv.
Qed.

Lemma interfere_le r r0 : tr_start r = tr_start r0 -> steps (tr_sys r0) (tr_sys r) -> tr_script r = tr_script r0 -> race_inv r0 -> race_le r0 (interfere r).
Proof.
  intros Es Hs Ef [Hi Hf]. unfold interfere. rewrite Ef. destruct (tr_script r0) as [|f fs] eqn:E.
  - split; [done|]. split; [done|]. intros _. rewrite Ef. done.
  - apply Forall_cons in Hf as [Hf Hfs]. split; [done|]. split; [|by intros _]. cbn. eapply steps_app; [done|]. apply Hf. by eapply steps_inv.
Qed.

Lemma race_read r x st m : race_inv r -> valid_xid x -> on_clog (get_state x) (mgr (tr_sys r)) = (Ok st, m) ->
  st = sview (tr_sys r) x /\
  race_le r (interfere (set_sys (mkSystem m (pc (tr_sys r)) (sleeping (tr_sys r)) (unnotified (tr_sys r))) r)).
Proof.
  intros Hi Hx E. split.
  - apply on_clog_inv in E as (c' & Hg & ->). by apply get_state_ok in Hg as (-> & _); [|apply Hi|].
  - apply interfere_le; [done| |done|done]. apply steps_one. by eapply step_read.
Qed.

Lemma wait_pass_steps x y (s : Sys) : x <> y -> steps s (snd (race_wait_pass x y s)).
Proof.
  intros Hne. eapply steps_cons; [apply (step_spurious_wake s x)|]. apply steps_one. unfold race_wait_pass. cbn zeta. cbn [fst snd mgr pc sleeping unnotified].
  destruct (wait_for_iter x y (mgr s)) as [o m] eqn:E. cbn [fst snd].
  pose proof (step_wait (mkSystem (mgr s) (pc s) (delete x (sleeping s)) (unnotified s)) x y o m Hne) as Hs.
  cbn [mgr pc sleeping unnotified] in Hs. apply Hs; [by rewrite lookup_delete_eq|done].
Qed.

Lemma wait_loop_le x y start fs : x <> y -> forall s, sys_inv 1 start s -> script_ok start fs ->
  let r := snd (race_wait_loop fs x y start s) in
  tr_start r = start /\ steps s (tr_sys r) /\ script_ok start (tr_script r).
Proof.
  intros Hne. induction fs as [|f fs IH]; intros s Hi Hf; cbn [race_wait_loop]; pose proof (wait_pass_steps x y s Hne) as Hp.
  - by destruct (fst (race_wait_pass x y s)).
  - destruct (fst (race_wait_pass x y s)) as [o|]; [done|]. apply Forall_cons in Hf as [Hf Hfs].
    pose proof (steps_inv _ _ _ Hi Hp) as Hi1. pose proof (Hf _ Hi1) as Hs1.
    destruct (IH (f (snd (race_wait_pass x y s)))) as (H1 & H2 & H3); [by eapply steps_inv|done|].
    split; [done|]. split; [|done]. eapply steps_app; [exact Hp|]. by eapply steps_app.
Qed.

#[export] Program Instance TxnRace_laws : RowEnvLaws TxnRace := {
  re_inv := race_inv;
  re_status := race_status;
  re_le := race_le;
}.
Next Obligation. intros r. split; [done|]. split; [apply steps_refl|]. by intros []. Qed.
Next Obligation.
  intros r1 r2 r3 (A1 & A2 & A3) (B1 & B2 & B3). split; [congruence|]. split; [by eapply steps_app|].
  intros Hi. rewrite <-A1. apply B3. split; rewrite A1; [eapply steps_inv, A2; apply Hi|by apply A3].
Qed.
Next Obligation. intros r r' [Hi Hf] (A1 & A2 & A3). split; rewrite A1; [by eapply steps_inv|by apply A3]. Qed.
Next Obligation. intros [st s fs] [st' s' fs'] x [Hi _] (A1 & A2 & _) Hx. cbn in *. subst st'. by eapply steps_status. Qed.
Next Obligation.
  intros x r Hi Hx. change (race_le r (snd (race_get_state x r))). unfold race_get_state.
  destruct (on_clog (get_state x) (mgr (tr_sys r))) as [[st|e|] m] eqn:E; cbn [snd].
  - by apply (race_read r x st m).
  - split; [done|]. split; [apply steps_refl|]. by intros [].
  - split; [done|]. split; [apply steps_refl|]. by intros [].
Qed.
Next Obligation.
  intros x r st Hi Hx. change (fst (race_get_state x r) = Ok st -> status_reads (race_status r x) st). unfold race_get_state.
  destruct (on_clog (get_state x) (mgr (tr_sys r))) as [[st0|e|] m] eqn:E; cbn [fst]; [|done..].
  intros [= ->]. destruct (race_read r x st m Hi Hx E) as [-> _]. destruct Hi as [[_ Hco _] _].
  destruct (decide (terminal (sview (tr_sys r) x))) as [Ht|Ht]; [by rewrite race_status_done|].
  rewrite race_status_open by done. destruct (decide _) as [Hin|Hin].
  - cbn. destruct (decide (pc (tr_sys r) !! x = Some ClogSet)) as [Hp|Hp].
    + exfalso. apply Ht. by apply (core_phase _ _ _ _ _ _ _ Hco) in Hp as (_ & _ & ?).
    + by apply (core_running _ _ _ _ _ _ _ Hco).
  - destruct (decide _); cbn.
    + apply (core_future _ _ _ _ _ _ _ Hco). unfold valid_xid in Hx. lia.
    + destruct (sview _ _); auto; exfalso; apply Ht; unfold terminal; auto.
Qed.
Next Obligation. intros x r Hi. cbn. apply interfere_le; [done|apply steps_refl|done|done]. Qed.
Next Obligation.
  intros x r Hi Hl. cbn. unfold is_active. apply bool_decide_eq_true. unfold race_status in Hl. repeat case_match; done.
Qed.
Next Obligation. intros x y r Hi. split; [done|]. split; [apply steps_one, step_register|]. by intros []. Qed.
Next Obligation. intros x r Hi. split; [done|]. split; [apply steps_one, step_unregister|]. by intros []. Qed.
Next Obligation.
  intros x y r [Hi Hf]. cbn. unfold race_wait_for. destruct (Z.eqb_spec x y) as [->|Hne].
  - split; [done|]. split; [apply steps_refl|]. by intros [].
  - destruct (wait_loop_le x y (tr_start r) (tr_script r) Hne (tr_sys r) Hi Hf) as (H1 & H2 & H3). done.
Qed.

End race.

(** ** Runs *)

Definition race_tid : Tid := mkTid 5 0.
Definition race_tuple : list Z := TupleHeader_write_to (TupleHeader_new 1 0 0 (replicate 16 0) race_tid 0) (zeros TUPLE_HEADER_SIZE).
Definition race_page : Page :=
  match add_tuple (init_with_special (zeros PAGE_SIZE) HEAP_SPECIAL_SIZE) race_tuple with Ok (_, p) => p | _ => [] end.

(** Transactions 1, 2 and 3 run; later 1 commits. *)
Definition begin_one (s : System InMemoryClogAccessor ListWal) : System InMemoryClogAccessor ListWal := upd_mgr (fun m => snd (begin_txn m)) s.
Definition race_sys : System InMemoryClogAccessor ListWal := begin_one (begin_one (begin_one demo0)).
Definition race_sys1 : System InMemoryClogAccessor ListWal := mkSystem (snd (commit_txn 1 (mgr race_sys))) (pc race_sys) ∅ (unnotified race_sys).

Abbreviation RaceLocks := (RowLocks (TxnRace (C := InMemoryClogAccessor) (W := ListWal))).
Definition rl0 : RaceLocks := mkRowLocks true ∅ (mkTxnRace 1 race_sys []).
Definition rl1 : RaceLocks := snd (row_lock_gate race_page race_tid 1 LockShared rl0).
Definition race_page1 : Page := match stamp_lock_only race_tid 1 0 true race_page with Ok (_, p) => p | _ => [] end.
Definition rl2 : RaceLocks := snd (row_lock_gate race_page1 race_tid 2 LockShared rl1).
Definition rl3 : RaceLocks := set_env (mkTxnRace 1 race_sys1 []) rl2.
Definition rl4 : RaceLocks := snd (row_lock_gate race_page1 race_tid 2 LockWriter rl3).
Definition rl5 : RaceLocks := snd (row_lock_gate race_page1 race_tid 3 LockExclusive rl4).
Definition race_page2 : Page := match stamp_lock_only race_tid 3 0 false race_page1 with Ok (_, p) => p | _ => [] end.

Lemma pair_run {A B : Type} (p : A * B) a : fst p = a -> p = (a, snd p).
Proof. by destruct p; intros <-. Qed.

Lemma race_sys_inv : sys_inv 1 1 race_sys.
Proof.
  eapply steps_inv; [apply (initial_inv 1 (mkListWal [] 0 8 []) MemClog_new); apply demo_start|].
  do 3 (eapply steps_cons; [by apply step_begin|]). apply steps_refl.
Qed.

Lemma race_commit : steps race_sys race_sys1.
Proof. apply (commit_steps race_sys 1); [vm_compute; set_solver|done|]. vm_compute. reflexivity. Qed.

Lemma race_page_inv : page_inv race_page.
Proof.
  apply page_reach_inv. eapply (reach_add (init_with_special (zeros PAGE_SIZE) HEAP_SPECIAL_SIZE) race_tuple 0).
  - apply reach_init; [done|vm_compute; split; congruence].
  - vm_compute. repeat constructor; discriminate.
  - vm_compute. reflexivity.
Qed.

Lemma race_tuple_at : tuple_at race_page (slot_id race_tid) race_tuple (TupleHeader_new 1 0 0 (replicate 16 0) race_tid 0).
Proof. split; [done|]. split; [vm_compute; reflexivity|]. split; [vm_compute; congruence|vm_compute; reflexivity]. Qed.

Lemma race_start_ok : row_start race_tid (mkRowSys rl0 race_page []).
Proof.
  split; [done|]. split; [apply race_page_inv|]. split; [done|]. split; [split; [apply race_sys_inv|by constructor]|].
  eexists _, _. split; [apply race_tuple_at|]. split; [done|]. intros H. by destruct H.
Qed.

Definition race_held : list (TxnId * LockRequest) := [(2, LockShared); (1, LockShared)].

(** 1 takes a share lock, 2 joins it, 1 commits. *)
Lemma race_run cut : rtc (row_step race_tid cut) (mkRowSys rl0 race_page []) (mkRowSys rl3 race_page1 race_held).
Proof.
  assert (Hr : forall x, 1 <= x <= 3 -> forall l : RaceLocks, race_status (rl_env l) x = Live -> running l x).
  { intros x Hx l Hl. split; [unfold valid_xid; lia|done]. }
  eapply rtc_l.
  { apply (row_grant race_tid cut rl0 race_page [] 1 LockShared (am_lock_header 1 0 true) rl1 race_page1).
    - apply Hr; [lia|vm_compute; reflexivity].
    - apply Hr; [lia|vm_compute; reflexivity].
    - apply pair_run. vm_compute. reflexivity.
    - constructor. unfold in_u. lia.
    - vm_compute. reflexivity. }
  eapply rtc_l.
  { apply (row_join race_tid cut rl1 race_page1 [(1, LockShared)] 2 LockShared rl2).
    - apply Hr; [lia|vm_compute; reflexivity].
    - apply Hr; [lia|vm_compute; reflexivity].
    - apply pair_run. vm_compute. reflexivity. }
  eapply rtc_l; [|apply rtc_refl]. apply (row_env race_tid cut rl2). split; [done|]. split; [apply race_commit|by constructor].
Qed.

(** 2, now the only holder, upgrades to a write. *)
Definition race_page3 : Page := match am_stamp_deleted race_tid 2 0 false race_page1 with Ok (_, p) => p | _ => [] end.

Lemma race_upgrade : rtc (row_step race_tid false) (mkRowSys rl0 race_page []) (mkRowSys rl4 race_page3 ((2, LockWriter) :: race_held)).
Proof.
  eapply rtc_r; [apply race_run|].
  apply (row_grant race_tid false rl3 race_page1 race_held 2 LockWriter (am_deleted_header 2 0 false) rl4 race_page3).
  - split; [unfold valid_xid; lia|vm_compute; reflexivity].
  - split; [unfold valid_xid; lia|vm_compute; reflexivity].
  - apply pair_run. vm_compute. reflexivity.
  - constructor. unfold in_u. lia.
  - vm_compute. reflexivity.
Qed.

Lemma row_lock_safe_witness : running rl4 2 /\ ~ running rl4 1.
Proof.
  assert (H2 : running rl4 2) by (split; [unfold valid_xid; lia|vm_compute; reflexivity]). split; [exact H2|]. intros H1.
  pose proof (row_lock_safe race_tid false (mkRowSys rl0 race_page []) (mkRowSys rl4 race_page3 ((2, LockWriter) :: race_held)) 2 1 LockWriter LockShared
    race_start_ok race_upgrade) as H.
  destruct H as [H _]; [by apply list_elem_of_here|apply elem_of_cons; right; apply elem_of_cons; right; by apply list_elem_of_here|].
  discriminate (H H2 H1 ltac:(done) (or_intror eq_refl)).
Defined.

(** C11: a share lock can be lost.  Transactions 1 and 2 share a row lock and 1
    commits; 2 starts an update that has to move to another page, passes the gate
    as the only holder, which removes the registry entry, and gives up the latch
    before it stamps the row: transaction 3 is then granted an exclusive lock while
    2 still runs and was never told. *)
Theorem share_lock_lost :
  exists s : RowSys (T := TxnRace (C := InMemoryClogAccessor) (W := ListWal)), row_start race_tid s /\ exists s', rtc (row_step race_tid true) s s' /\
    (3, LockExclusive) ∈ rs_held s' /\ (2, LockShared) ∈ rs_held s' /\ running (rs_locks s') 3 /\ running (rs_locks s') 2.
Proof.
  exists (mkRowSys rl0 race_page []). split; [apply race_start_ok|]. exists (mkRowSys rl5 race_page2 ((3, LockExclusive) :: race_held)).
  assert (Hr : forall x, 1 <= x <= 3 -> forall l : RaceLocks, race_status (rl_env l) x = Live -> running l x).
  { intros x Hx l Hl. split; [unfold valid_xid; lia|done]. }
  split.
  - eapply rtc_r; [eapply rtc_r; [apply race_run|]|].
    + apply (row_cut race_tid true rl3 race_page1 race_held 2 LockWriter rl4); [done| | |].
      * apply Hr; [lia|vm_compute; reflexivity].
      * apply Hr; [lia|vm_compute; reflexivity].
      * apply pair_run. vm_compute. reflexivity.
    + apply (row_grant race_tid true rl4 race_page1 race_held 3 LockExclusive (am_lock_header 3 0 false) rl5 race_page2).
      * apply Hr; [lia|vm_compute; reflexivity].
      * apply Hr; [lia|vm_compute; reflexivity].
      * apply pair_run. vm_compute. reflexivity.
      * constructor. unfold in_u. lia.
      * vm_compute. reflexivity.
  - split; [by apply list_elem_of_here|]. split; [apply elem_of_cons; right; by apply list_elem_of_here|].
    split; (apply Hr; [lia|vm_compute; reflexivity]).
Qed.
