(* ===== verification/HeapAm.v ===== *)
(** * The heap access method ([pg-am-heap/src/heap_am.rs], [access_method.rs])

    The operations on relations: creation, insertion, scan, deletion, update, row
    locks and the search for dead tuples, over the buffer pool of [BufferPool] and
    the row locks of [RowLock].  The log is the pool's ([Arc<WalWriter>] is shared).
    A page guard is dropped where the code drops it, on the error paths too.

    An operation runs as one thread does between the points where it may wait; the
    restart loops carry the bound of the code's [debug_assert] (fewer than 10,000
    passes).  [seed_from_chain] visits no page twice; its bound is the number of
    pages of the data file, which every page it can pin belongs to. *)

From S2P Require Import Prelude Types LinePointer SlottedPage Tuple Visibility TxnManager WalRecord PageAllocator Recovery BufferPool HeapRedo HeapPage RowLock.
Local Open Scope Z_scope.
Local Open Scope rust_scope.

(** ** access_method.rs: operation contexts *)

Record RelationDesc := mkRelationDesc { rd_rel_oid : Oid; rd_first_page : PageId; rd_columns : list ColumnType }.
Record InsertContext := mkInsertContext { ic_rel : RelationDesc; ic_snapshot : Snapshot; ic_tuple : list Z }.
Record ScanContext := mkScanContext { sc_rel : RelationDesc; sc_snapshot : Snapshot; sc_clog : TxnId -> TxnState }.
Record UpdateContext := mkUpdateContext {
  uc_rel : RelationDesc; uc_snapshot : Snapshot; uc_old_tid : Tid; uc_new_tuple : list Z; uc_hot_eligible : bool }.
Record DeleteContext := mkDeleteContext { dc_snapshot : Snapshot; dc_tid : Tid }.

(** ** The access method *)

Record HeapAM (W T : Type) := mkHeapAM {
  ha_buffer_pool : BufferPool W;
  ha_pages : gmap Z (list PageId);
  ha_locks : RowLocks T;
}.
Arguments mkHeapAM {W T} _ _ _.
Arguments ha_buffer_pool {W T} _.
Arguments ha_pages {W T} _.
Arguments ha_locks {W T} _.

Section heap_am.
Context {BC : Bincode} {W : Type} {PW : PageWal W} {PL : PoolWal W} {T : Type} {RE : RowEnv T}.
Abbreviation HA := (HeapAM W T).
Abbreviation MH := (M HA HeapError).

Definition HeapAM_new (buffer_pool : BufferPool W) (env : T) : HA := mkHeapAM buffer_pool ∅ (mkRowLocks false ∅ env).
Definition set_row_waiter (h : HA) : HA :=
  mkHeapAM (ha_buffer_pool h) (ha_pages h) (mkRowLocks true (rl_share_locks (ha_locks h)) (rl_env (ha_locks h))).
Definition set_ha_pages (p : gmap Z (list PageId)) (h : HA) : HA := mkHeapAM (ha_buffer_pool h) p (ha_locks h).

(** [?] on a [StorageError] *)
Definition on_bp {A : Type} (m : M (BufferPool W) StorageError A) : MH A := fun h =>
  let r := m (ha_buffer_pool h) in (map_err Storage (fst r), mkHeapAM (snd r) (ha_pages h) (ha_locks h)).
Definition on_locks {A : Type} (m : M (RowLocks T) HeapError A) : MH A := fun h =>
  let r := m (ha_locks h) in (fst r, mkHeapAM (ha_buffer_pool h) (ha_pages h) (snd r)).
Definition of_heap_res {A : Type} (r : res HeapError A) : MH A := fun h => (r, h).

(** Leaving the scope of a guard: it is dropped after [m], also when [m] fails. *)
Definition scoped {A : Type} (drop : MH unit) (m : MH A) : MH A := fun h =>
  match m h with
  | (Panic, h) => (Panic, h)
  | (r, h) => match drop h with (Ok _, h) => (r, h) | (Err e, h) => (Err e, h) | (Panic, h) => (Panic, h) end
  end.
(** A guard that is passed on when [m] succeeds. *)
Definition dropped_on_error {A : Type} (drop : MH unit) (m : MH A) : MH A := fun h =>
  match m h with
  | (Err e, h) => match drop h with (Panic, h) => (Panic, h) | (_, h) => (Err e, h) end
  | r => r
  end.

Definition drop_guard (g : PageGuard) : MH unit := on_bp (PageGuard_drop g).
Definition drop_guard_mut (g : PageGuardMut) : MH unit := on_bp (PageGuardMut_drop g).

Definition guard_page (f : nat) : MH Page := let! fr := on_bp (frame_at f) in mret (fr_content fr).

(** Code that works on [as_page_mut(&mut guard)]. *)
Definition edit {A : Type} (g : PageGuardMut) (f : Page -> res HeapError (A * Page)) : MH A :=
  let! page := guard_page (pgm_frame_id g) in
  let! r := of_heap_res (f page) in
  on_bp (page_mut g (snd r)) ;! mret (fst r).
Definition edit_page (g : PageGuardMut) (f : Page -> Page) : MH unit := edit g (fun page => Ok (tt, f page)).

Definition append_wal (rec : res StorageError WalRecord) : MH Lsn :=
  let! r := on_bp (of_pool_res rec) in on_bp (on_pool_wal (pw_append r)).

(** ** Page chains *)

Definition log_page_init (g : PageGuardMut) : MH unit :=
  let! page := guard_page (pgm_frame_id g) in
  let! lsn := append_wal (full_page_image (pgm_page_id g) page) in
  edit_page g (stamp_pd_lsn lsn).

Definition create_heap (rel_oid : Oid) : MH PageId :=
  let! guard := on_bp new_page in
  scoped (drop_guard_mut guard) (
    edit_page guard (fun page => init_with_special page HEAP_SPECIAL_SIZE) ;!
    log_page_init guard ;!
    mmodify (fun h => set_ha_pages (<[rel_oid := [pgm_page_id guard]]> (ha_pages h)) h) ;!
    mret (pgm_page_id guard)).

(** What the walk reads from one page: the next page of the chain. *)
Definition chain_next (page : Page) : res HeapError (option PageId) :=
  if pd_upper (header page) =? 0 then Ok None else next_page page.

Fixpoint seed_loop (fuel : nat) (current : PageId) (pages : list PageId) : MH (list PageId) :=
  match fuel with
  | O => mpanic
  | S fuel =>
      let! guard := on_bp (BufferPool_pin current) in
      let! next := scoped (drop_guard guard) (
        let! page := guard_page (pg_frame_id guard) in of_heap_res (chain_next page)) in
      match next with
      | None => mret pages
      | Some next => if bool_decide (next ∈ pages) then mthrow Corrupted else seed_loop fuel next (pages ++ [next])
      end
  end.

Definition file_pages (h : HA) : nat := Z.to_nat (zlen (df_data (bp_data_file (ha_buffer_pool h))) / PAGE_SIZE).

Definition seed_from_chain (first_page : PageId) : MH (list PageId) :=
  let! h := mget in seed_loop (S (file_pages h)) first_page [first_page].

Definition relation_pages (rel : RelationDesc) : MH (list PageId) :=
  let! h := mget in
  match ha_pages h !! rd_rel_oid rel with
  | Some pages => mret pages
  | None =>
      let! seeded := seed_from_chain (rd_first_page rel) in
      let! h := mget in
      let pages := default seeded (ha_pages h !! rd_rel_oid rel) in
      mmodify (fun h => set_ha_pages (<[rd_rel_oid rel := pages]> (ha_pages h)) h) ;!
      mret pages
  end.

Definition track_page (rel_oid : Oid) (page_id : PageId) (h : HA) : HA :=
  let list := default [] (ha_pages h !! rel_oid) in
  set_ha_pages (<[rel_oid := if bool_decide (page_id ∈ list) then list else list ++ [page_id]]> (ha_pages h)) h.

Definition drop_relation (rel_oid : Oid) (h : HA) : HA := set_ha_pages (delete rel_oid (ha_pages h)) h.

(** ** A page with room *)

(** Pin the page for writing and keep the guard when the tuple fits. *)
Definition try_page (page_id : PageId) (needed : Z) : MH (option PageGuardMut) :=
  let! guard := on_bp (BufferPool_pin_mut page_id) in
  dropped_on_error (drop_guard_mut guard) (
    edit_page guard (fun page => init_if_fresh_with_special page HEAP_SPECIAL_SIZE) ;!
    let! page := guard_page (pgm_frame_id guard) in
    if free_space page >=? needed then mret (Some guard)
    else drop_guard_mut guard ;! mret None).

Definition extend_chain (rel : RelationDesc) (needed : Z) (exclude : PageId) : MH PageGuardMut :=
  let! pages := relation_pages rel in
  match last pages with
  | None => mpanic
  | Some tail =>
      let! found := (if negb (tail =? exclude) then try_page tail needed else mret None) in
      match found with
      | Some guard => mret guard
      | None =>
          let! new_guard := on_bp new_page in
          dropped_on_error (drop_guard_mut new_guard) (
            edit_page new_guard (fun page => init_with_special page HEAP_SPECIAL_SIZE) ;!
            log_page_init new_guard ;!
            (let! tail_guard := on_bp (BufferPool_pin_mut tail) in
             scoped (drop_guard_mut tail_guard) (
               edit_page tail_guard (fun page => init_if_fresh_with_special page HEAP_SPECIAL_SIZE) ;!
               edit tail_guard (fun page => let? page := set_next_page page (Some (pgm_page_id new_guard)) in Ok (tt, page)) ;!
               log_page_init tail_guard)) ;!
            mmodify (track_page (rd_rel_oid rel) (pgm_page_id new_guard)) ;!
            mret new_guard)
      end
  end.

Fixpoint find_room (candidates : list PageId) (needed : Z) (exclude : PageId) : MH (option PageGuardMut) :=
  match candidates with
  | [] => mret None
  | page_id :: candidates =>
      if page_id =? exclude then find_room candidates needed exclude
      else
        let! found := try_page page_id needed in
        match found with
        | Some guard => mret (Some guard)
        | None => find_room candidates needed exclude
        end
  end.

Definition acquire_page_with_room (rel : RelationDesc) (needed : Z) (exclude : PageId) : MH PageGuardMut :=
  let! pages := relation_pages rel in
  let! found := find_room (rev pages) needed exclude in
  match found with
  | Some guard => mret guard
  | None => extend_chain rel needed exclude
  end.

(** ** Insertion *)

Definition HeapAM_insert (ctx : InsertContext) : MH Tid :=
  of_heap_res (validate_tuple_len (ic_tuple ctx)) ;!
  let xid := current_xid (ic_snapshot ctx) in
  let! tuple := of_heap_res (stamp_xmin (ic_tuple ctx) xid) in
  let needed := zlen tuple + LINE_POINTER_SIZE in
  let! guard := acquire_page_with_room (ic_rel ctx) needed PageId_INVALID in
  scoped (drop_guard_mut guard) (
    let! page := guard_page (pgm_frame_id guard) in
    let slot := next_slot page in
    let! lsn := append_wal (heap_insert (pgm_page_id guard) slot tuple xid) in
    edit guard (fun page => add_tuple page tuple) ;!
    edit_page guard (stamp_pd_lsn lsn) ;!
    mret (mkTid (pgm_page_id guard) slot)).

(** ** Scans *)

Definition read_pages {A : Type} (f : PageId -> Page -> res HeapError (list A)) : list PageId -> MH (list A) :=
  fix go (pages : list PageId) : MH (list A) :=
  match pages with
  | [] => mret []
  | page_id :: pages =>
      let! guard := on_bp (BufferPool_pin page_id) in
      let! rows := scoped (drop_guard guard) (
        let! page := guard_page (pg_frame_id guard) in of_heap_res (f page_id page)) in
      let! rest := go pages in
      mret (rows ++ rest)
  end.

Definition HeapAM_scan (ctx : ScanContext) : MH (list (Tid * list (option Datum))) :=
  let! pages := relation_pages (sc_rel ctx) in
  read_pages (fun page_id page => scan_page (sc_snapshot ctx) (sc_clog ctx) page page_id (rd_columns (sc_rel ctx))) pages.

Definition scan_dead_tuples (rel : RelationDesc) (oldest_xmin : TxnId) (clog : TxnId -> TxnState) : MH (list Tid) :=
  let! pages := relation_pages rel in
  read_pages (fun page_id page => dead_page page page_id oldest_xmin clog) pages.

(** ** The restart loop of the row-lock protocol *)

Fixpoint restart {A : Type} (passes : nat) (pass : MH (option A)) : MH A :=
  match passes with
  | O => mpanic
  | S passes => let! r := pass in match r with Some a => mret a | None => restart passes pass end
  end.
Definition RESTART_LIMIT : nat := Z.to_nat 9999.

(** One pass: pin, gate, then [body] under the latch, or wait without it. *)
Definition lock_pass {A : Type} (tid : Tid) (self_xid : TxnId) (request : LockRequest)
    (body : PageGuardMut -> bool -> MH (option A)) : MH (option A) :=
  let! guard := on_bp (BufferPool_pin_mut (page_id tid)) in
  let! blocked := dropped_on_error (drop_guard_mut guard) (
    let! page := guard_page (pgm_frame_id guard) in
    on_locks (row_lock_gate page tid self_xid request)) in
  match blocked with
  | Wait blocking => drop_guard_mut guard ;! on_locks (wait_row_lock self_xid blocking) ;! mret None
  | Proceed => body guard true
  | ProceedNoStamp => body guard false
  end.

Definition lock_tuple (tid : Tid) (snapshot : Snapshot) : MH unit :=
  let self_xid := current_xid snapshot in
  restart RESTART_LIMIT (lock_pass tid self_xid LockExclusive (fun guard stamp =>
    scoped (drop_guard_mut guard) (
      if stamp : bool then edit guard (stamp_lock_only tid self_xid (curcid snapshot) false) ;! mret (Some tt) else mpanic))).

Definition lock_tuple_shared (tid : Tid) (snapshot : Snapshot) : MH unit :=
  let self_xid := current_xid snapshot in
  restart RESTART_LIMIT (lock_pass tid self_xid LockShared (fun guard stamp =>
    scoped (drop_guard_mut guard) (
      (if stamp : bool then edit guard (stamp_lock_only tid self_xid (curcid snapshot) true) else mret tt) ;! mret (Some tt)))).

Definition HeapAM_delete (ctx : DeleteContext) : MH unit :=
  let tid := dc_tid ctx in
  let xmax := current_xid (dc_snapshot ctx) in
  restart RESTART_LIMIT (lock_pass tid xmax LockWriter (fun guard _ =>
    scoped (drop_guard_mut guard) (
      let! lsn := append_wal (heap_delete tid xmax xmax) in
      edit guard (am_stamp_deleted tid xmax (curcid (dc_snapshot ctx)) false) ;!
      edit_page guard (stamp_pd_lsn lsn) ;!
      mret (Some tt)))).

(** ** Update *)

(** The new version fits on the page of the old one. *)
Definition update_in_place (guard : PageGuardMut) (old_tid : Tid) (tuple : list Z) (xmax : TxnId) (curcid : Z) (hot : bool) : MH Tid :=
  let! page := guard_page (pgm_frame_id guard) in
  let new_slot := next_slot page in
  let new_tid := mkTid (pgm_page_id guard) new_slot in
  (if hot then
     let! hot_tuple := of_heap_res (stamp_hot_only tuple xmax) in
     let! lsn := append_wal (heap_hot_update (pgm_page_id guard) (slot_id old_tid) new_slot hot_tuple xmax xmax) in
     edit guard (am_stamp_hot_update old_tid xmax curcid new_tid) ;!
     edit guard (fun page => add_tuple page hot_tuple) ;!
     edit_page guard (stamp_pd_lsn lsn)
   else
     let! lsn := append_wal (heap_update old_tid new_tid xmax tuple xmax) in
     edit guard (am_stamp_deleted old_tid xmax curcid true) ;!
     edit guard (fun page => add_tuple page tuple) ;!
     edit_page guard (stamp_pd_lsn lsn)) ;!
  mret new_tid.

(** Both latches held: the gate again, then the record and the two changes.  The
    guards are dropped in reverse order of their declaration. *)
Definition update_two_pages (old_guard new_guard : PageGuardMut) (old_tid : Tid) (tuple : list Z) (xmax : TxnId) (curcid : Z)
    : MH (option Tid) :=
  let! gate := dropped_on_error (drop_guard_mut new_guard ;! drop_guard_mut old_guard) (
    let! page := guard_page (pgm_frame_id old_guard) in
    on_locks (row_lock_gate page old_tid xmax LockWriter)) in
  match gate with
  | Wait blocking =>
      drop_guard_mut old_guard ;! drop_guard_mut new_guard ;!
      on_locks (wait_row_lock xmax blocking) ;! mret None
  | _ =>
      scoped (drop_guard_mut new_guard ;! drop_guard_mut old_guard) (
        let! page := guard_page (pgm_frame_id new_guard) in
        let new_tid := mkTid (pgm_page_id new_guard) (next_slot page) in
        let! lsn := append_wal (heap_update old_tid new_tid xmax tuple xmax) in
        edit old_guard (am_stamp_deleted old_tid xmax curcid true) ;!
        edit_page old_guard (stamp_pd_lsn lsn) ;!
        edit new_guard (fun page => add_tuple page tuple) ;!
        edit_page new_guard (stamp_pd_lsn lsn) ;!
        mret (Some new_tid))
  end.

(** Latching in the order of the page ids; the room may be gone by then. *)
Definition update_across (rel : RelationDesc) (old_tid : Tid) (tuple : list Z) (needed : Z) (xmax : TxnId) (curcid : Z) : MH (option Tid) :=
  let! new_guard := acquire_page_with_room rel needed (page_id old_tid) in
  let new_page_id := pgm_page_id new_guard in
  if page_id old_tid <? new_page_id then
    drop_guard_mut new_guard ;!
    let! old_guard := on_bp (BufferPool_pin_mut (page_id old_tid)) in
    let! new_guard := dropped_on_error (drop_guard_mut old_guard) (on_bp (BufferPool_pin_mut new_page_id)) in
    let! page := guard_page (pgm_frame_id new_guard) in
    if free_space page >=? needed then update_two_pages old_guard new_guard old_tid tuple xmax curcid
    else drop_guard_mut new_guard ;! drop_guard_mut old_guard ;! mret None
  else
    let! old_guard := dropped_on_error (drop_guard_mut new_guard) (on_bp (BufferPool_pin_mut (page_id old_tid))) in
    update_two_pages old_guard new_guard old_tid tuple xmax curcid.

Definition HeapAM_update (ctx : UpdateContext) : MH Tid :=
  of_heap_res (validate_tuple_len (uc_new_tuple ctx)) ;!
  let xmax := current_xid (uc_snapshot ctx) in
  let curcid := curcid (uc_snapshot ctx) in
  let! tuple := of_heap_res (stamp_xmin (uc_new_tuple ctx) xmax) in
  let needed := zlen tuple + LINE_POINTER_SIZE in
  restart RESTART_LIMIT (lock_pass (uc_old_tid ctx) xmax LockWriter (fun old_guard _ =>
    let! page := guard_page (pgm_frame_id old_guard) in
    if free_space page >=? needed then
      scoped (drop_guard_mut old_guard) (
        let! new_tid := update_in_place old_guard (uc_old_tid ctx) tuple xmax curcid (uc_hot_eligible ctx) in mret (Some new_tid))
    else
      drop_guard_mut old_guard ;!
      update_across (uc_rel ctx) (uc_old_tid ctx) tuple needed xmax curcid)).

End heap_am.
