(* ===== verification/Catalog.v ===== *)
(** * The system catalog

    Models [pg-catalog/src/]: the error type of [lib.rs], [builtin_types.rs],
    [oid.rs], [system_tables.rs], [bootstrap.rs] and [catalog.rs].  The storage
    engine below is the interface [CatalogStorage]: the pages of the buffer pool,
    the page allocator's next id, the checkpoint and the persisted next OID.  A
    [String] is its UTF-8 bytes, [TableOid] and [TypeOid] are OIDs, a
    [BTreeMap] is a [gmap].  A read guard lives for one read of the page; a write
    guard is released with the content the code leaves, also on an error. *)

From stdpp Require Import strings.
From S2P Require Import Prelude Types LinePointer SlottedPage Tuple HeapPage.
Local Open Scope Z_scope.
Local Open Scope rust_scope.

Definition str (s : string) : list Z := (fun c => Z.of_N (Ascii.N_of_ascii c)) <$> String.list_ascii_of_string s.

(** ** lib.rs *)

Inductive CatalogError :=
| CatNotImplemented
| CatStorage (e : StorageError)
| CatHeap (e : HeapError)
| CatCorrupted.

(** ** builtin_types.rs *)

Definition INT4_OID : Oid := 23.
Definition INT8_OID : Oid := 20.
Definition TEXT_OID : Oid := 25.
Definition BYTEA_OID : Oid := 17.
Definition TIMESTAMPTZ_OID : Oid := 1184.
Definition UUID_OID : Oid := 2950.

Record BuiltinType := mkBuiltinType { bt_oid : Oid; bt_name : list Z; bt_len : Z; bt_column_type : ColumnType }.

Definition BUILTIN_TYPES : list BuiltinType :=
  [mkBuiltinType INT4_OID (str "int4") 4 Int4;
   mkBuiltinType INT8_OID (str "int8") 8 Int8;
   mkBuiltinType TEXT_OID (str "text") (-1) Text;
   mkBuiltinType BYTEA_OID (str "bytea") (-1) Bytea;
   mkBuiltinType TIMESTAMPTZ_OID (str "timestamptz") 8 Timestamptz;
   mkBuiltinType UUID_OID (str "uuid") 16 Uuid].

Definition builtin_type (oid : Oid) : option BuiltinType := List.find (fun t => bt_oid t =? oid) BUILTIN_TYPES.

(** ** oid.rs *)

Definition OidAllocator_load (start : Oid) : Z := OidCounter_new start.
Definition OidAllocator_alloc (counter : Z) : Oid * Z := OidCounter_alloc counter.
Definition OidAllocator_current (counter : Z) : Oid := OidCounter_current counter.
Definition shared_counter (counter : Z) : Z := counter.

(** ** system_tables.rs *)

Definition PG_CLASS_OID : Oid := 1259.
Definition PG_ATTRIBUTE_OID : Oid := 1249.
Definition PG_TYPE_OID : Oid := 1247.
Definition PG_AM_OID : Oid := 2601.
Definition PG_INDEX_OID : Oid := 2610.
Definition PG_RELPAGES_OID : Oid := 9021.
Definition HEAP_AM_OID : Oid := 2.
Definition BTREE_AM_OID : Oid := 403.
Definition RELKIND_TABLE : list Z := str "r".
Definition RELKIND_INDEX : list Z := str "i".

Record SysColumn := mkSysColumn {
  sc_name : list Z; sc_type_oid : Oid; sc_column_type : ColumnType; sc_len : Z; sc_not_null : bool }.

Record SystemTableDef := mkSystemTableDef {
  st_oid : Oid; st_name : list Z; st_first_page : PageId; st_columns : list SysColumn }.

Definition column_types (d : SystemTableDef) : list ColumnType := sc_column_type <$> st_columns d.

Definition PG_CLASS_COLUMNS : list SysColumn :=
  [mkSysColumn (str "oid") INT8_OID Int8 8 true;
   mkSysColumn (str "relname") TEXT_OID Text (-1) true;
   mkSysColumn (str "relkind") TEXT_OID Text (-1) true;
   mkSysColumn (str "relnatts") INT4_OID Int4 4 true;
   mkSysColumn (str "reltoastrelid") INT8_OID Int8 8 false;
   mkSysColumn (str "relam") INT8_OID Int8 8 true].

Definition PG_ATTRIBUTE_COLUMNS : list SysColumn :=
  [mkSysColumn (str "attrelid") INT8_OID Int8 8 true;
   mkSysColumn (str "attname") TEXT_OID Text (-1) true;
   mkSysColumn (str "atttypid") INT8_OID Int8 8 true;
   mkSysColumn (str "attlen") INT4_OID Int4 4 true;
   mkSysColumn (str "attnum") INT4_OID Int4 4 true;
   mkSysColumn (str "attnotnull") INT4_OID Int4 4 true;
   mkSysColumn (str "attnullable") INT4_OID Int4 4 true].

Definition PG_TYPE_COLUMNS : list SysColumn :=
  [mkSysColumn (str "oid") INT8_OID Int8 8 true;
   mkSysColumn (str "typname") TEXT_OID Text (-1) true;
   mkSysColumn (str "typlen") INT4_OID Int4 4 true].

Definition PG_AM_COLUMNS : list SysColumn :=
  [mkSysColumn (str "oid") INT8_OID Int8 8 true;
   mkSysColumn (str "amname") TEXT_OID Text (-1) true].

Definition PG_INDEX_COLUMNS : list SysColumn :=
  [mkSysColumn (str "indexrelid") INT8_OID Int8 8 true;
   mkSysColumn (str "indrelid") INT8_OID Int8 8 true;
   mkSysColumn (str "indnatts") INT4_OID Int4 4 true;
   mkSysColumn (str "indisunique") INT4_OID Int4 4 true;
   mkSysColumn (str "indisprimary") INT4_OID Int4 4 true].

Definition PG_RELPAGES_COLUMNS : list SysColumn :=
  [mkSysColumn (str "rel_oid") INT8_OID Int8 8 true;
   mkSysColumn (str "first_page") INT8_OID Int8 8 true;
   mkSysColumn (str "last_page") INT8_OID Int8 8 true;
   mkSysColumn (str "page_count") INT8_OID Int8 8 true].

Definition PG_CLASS : SystemTableDef := mkSystemTableDef PG_CLASS_OID (str "pg_class") 1 PG_CLASS_COLUMNS.
Definition PG_ATTRIBUTE : SystemTableDef := mkSystemTableDef PG_ATTRIBUTE_OID (str "pg_attribute") 2 PG_ATTRIBUTE_COLUMNS.
Definition PG_TYPE : SystemTableDef := mkSystemTableDef PG_TYPE_OID (str "pg_type") 3 PG_TYPE_COLUMNS.
Definition PG_AM : SystemTableDef := mkSystemTableDef PG_AM_OID (str "pg_am") 4 PG_AM_COLUMNS.
Definition PG_INDEX : SystemTableDef := mkSystemTableDef PG_INDEX_OID (str "pg_index") 5 PG_INDEX_COLUMNS.
Definition PG_RELPAGES : SystemTableDef := mkSystemTableDef PG_RELPAGES_OID (str "pg_rust_relpages") 6 PG_RELPAGES_COLUMNS.

Definition SYSTEM_TABLES : list SystemTableDef := [PG_CLASS; PG_ATTRIBUTE; PG_TYPE; PG_AM; PG_INDEX; PG_RELPAGES].
Definition LAST_SYSTEM_PAGE : PageId := 6.

(** ** What the catalog uses of the storage engine *)

(** [cs_page] and [cs_free] are observers for the laws: the content a reader of a
    page sees and the number of pages on the freelist. *)
Class CatalogStorage (S : Type) := {
  cs_pin : PageId -> M S StorageError Page;
  cs_pin_mut : PageId -> M S StorageError Page;
  cs_drop_mut : PageId -> Page -> S -> S;
  cs_new_page : M S StorageError PageId;
  cs_next_page_id : S -> PageId;
  cs_trigger_checkpoint : M S StorageError unit;
  cs_next_oid : S -> Oid;
  cs_set_next_oid_source : Z -> S -> S;
  cs_page : S -> PageId -> Page;
  cs_free : S -> nat;
}.

Definition lift_err {S E F A : Type} (f : E -> F) (m : M S E A) : M S F A := fun s =>
  let '(r, s') := m s in (map_err f r, s').

Definition lift_res {S E A : Type} (r : res E A) : M S E A := fun s => (r, s).

(** ** bootstrap.rs *)

Definition BOOTSTRAP_XID : TxnId := 1.
Definition HEAP_XMIN_COMMITTED : Z := 0x0100.
Definition HEAP_XMAX_INVALID : Z := 0x0800.

Definition bootstrap_rows (def : SystemTableDef) : list (list (option Datum)) :=
  if st_oid def =? PG_CLASS_OID then
    (fun t => [Some (DInt8 (st_oid t)); Some (DText (st_name t)); Some (DText RELKIND_TABLE);
               Some (DInt4 (zlen (st_columns t))); Some (DInt8 0); Some (DInt8 HEAP_AM_OID)]) <$> SYSTEM_TABLES
  else if st_oid def =? PG_ATTRIBUTE_OID then
    concat ((fun t => imap (fun i col =>
      [Some (DInt8 (st_oid t)); Some (DText (sc_name col)); Some (DInt8 (sc_type_oid col)); Some (DInt4 (sc_len col));
       Some (DInt4 (Z.of_nat i + 1)); Some (DInt4 (Z.b2z (sc_not_null col))); Some (DInt4 (Z.b2z (negb (sc_not_null col))))])
      (st_columns t)) <$> SYSTEM_TABLES)
  else if st_oid def =? PG_TYPE_OID then
    (fun ty => [Some (DInt8 (bt_oid ty)); Some (DText (bt_name ty)); Some (DInt4 (bt_len ty))]) <$> BUILTIN_TYPES
  else if st_oid def =? PG_AM_OID then
    [[Some (DInt8 HEAP_AM_OID); Some (DText (str "heap"))]; [Some (DInt8 BTREE_AM_OID); Some (DText (str "btree"))]]
  else [].

Definition bootstrap_header (first_page : PageId) (slot : nat) : TupleHeader :=
  let h := TupleHeader_new BOOTSTRAP_XID 0 0 (replicate 16 0) (mkTid first_page (Z.of_nat slot)) 0 in
  mkTupleHeader (t_xmin h) (t_xmax h) (t_agent_id h) (t_trace_id h) (t_ctid h)
    (Z.lor HEAP_XMIN_COMMITTED HEAP_XMAX_INVALID) HEAP_ONLY_TUPLE (t_hoff h) (t_flags h) (t_cid h).

(** The insert loop of [write_system_table], from slot [slot] on; the page is
    what the write guard holds. *)
Fixpoint write_rows (first_page : PageId) (columns : list ColumnType) (slot : nat) (rows : list (list (option Datum)))
    : M Page HeapError unit := fun page =>
  match rows with
  | [] => (Ok tt, page)
  | row :: rows =>
      match encode_tuple (bootstrap_header first_page slot) columns row with
      | Ok bytes =>
          match add_tuple page bytes with
          | Ok (_, page) => write_rows first_page columns (Datatypes.S slot) rows page
          | Err e => (Err e, page)
          | Panic => (Panic, page)
          end
      | Err e => (Err e, page)
      | Panic => (Panic, page)
      end
  end.

Section Bootstrap.
Context {S : Type} `{CatalogStorage S}.
Abbreviation C := (M S CatalogError).

Definition page_is_valid_slotted (page_id : PageId) : C bool :=
  let! page := lift_err CatStorage (cs_pin page_id) in
  mret ((pd_pagesize_version (header page) =? PAGE_FORMAT_VERSION) && (pd_lower (header page) >=? PAGE_HEADER_SIZE)
        && negb (forallb (fun b => b =? 0) page)).

Fixpoint pages_are_valid (defs : list SystemTableDef) : C bool :=
  match defs with
  | [] => mret true
  | def :: defs =>
      let! valid := page_is_valid_slotted (st_first_page def) in
      if valid : bool then pages_are_valid defs else mret false
  end.

Definition system_pages_are_valid : C bool := pages_are_valid SYSTEM_TABLES.

Fixpoint ensure_loop (fuel : nat) : C unit := fun s =>
  if cs_next_page_id s >? LAST_SYSTEM_PAGE then (Ok tt, s) else
  match fuel with
  | O => (Panic, s)
  | Datatypes.S fuel => (let! _ := lift_err CatStorage cs_new_page in ensure_loop fuel) s
  end.

(** Each round takes a page from the freelist or advances the next page id. *)
Definition ensure_system_pages_allocated : C unit := fun s =>
  ensure_loop (cs_free s + Z.to_nat (LAST_SYSTEM_PAGE + 1 - cs_next_page_id s)) s.

Definition write_system_table (def : SystemTableDef) : C unit := fun s =>
  match lift_err CatStorage (cs_pin_mut (st_first_page def)) s with
  | (Ok page, s) =>
      let page := init_with_special page HEAP_SPECIAL_SIZE in
      let '(r, page) := write_rows (st_first_page def) (column_types def) 0 (bootstrap_rows def) page in
      (map_err CatHeap r, cs_drop_mut (st_first_page def) page s)
  | (Err e, s) => (Err e, s)
  | (Panic, s) => (Panic, s)
  end.

Fixpoint write_tables (defs : list SystemTableDef) : C unit :=
  match defs with
  | [] => mret tt
  | def :: defs => write_system_table def ;! write_tables defs
  end.

Definition write_all_system_tables : C bool :=
  ensure_system_pages_allocated ;! write_tables SYSTEM_TABLES ;!
  lift_err CatStorage cs_trigger_checkpoint ;! mret true.

Definition force_rebootstrap : C bool := write_all_system_tables.

(** ** catalog.rs: the self-heal gate *)

Fixpoint user_row_in (n : nat) (slot : Z) (columns : list ColumnType) (page : Page) : res CatalogError bool :=
  match n with
  | O => Ok false
  | Datatypes.S n =>
      match tuple page slot with
      | Panic => Panic
      | Ok (Some bytes) =>
          match decode_tuple bytes columns with
          | Panic => Panic
          | Ok (_, Some (DInt8 v) :: _) => if v >=? Oid_FIRST_USER then Ok true else user_row_in n (slot + 1) columns page
          | _ => user_row_in n (slot + 1) columns page
          end
      | _ => user_row_in n (slot + 1) columns page
      end
  end.

Fixpoint user_ddl_in (defs : list SystemTableDef) : C bool := fun s =>
  match defs with
  | [] => (Ok false, s)
  | def :: defs =>
      match cs_pin (st_first_page def) s with
      | (Ok page, s) =>
          if pd_upper (header page) =? 0 then user_ddl_in defs s else
          match user_row_in (Z.to_nat (slot_count page)) 0 (column_types def) page with
          | Ok true => (Ok true, s)
          | Ok false => user_ddl_in defs s
          | Err e => (Err e, s)
          | Panic => (Panic, s)
          end
      | (Err _, s) => user_ddl_in defs s
      | (Panic, s) => (Panic, s)
      end
  end.

Definition user_ddl_present : C bool := user_ddl_in [PG_CLASS; PG_ATTRIBUTE; PG_RELPAGES].

Definition bootstrap_if_needed : C bool :=
  ensure_system_pages_allocated ;!
  let! valid := system_pages_are_valid in
  if valid : bool then mret false else
  let! user := user_ddl_present in
  if user : bool then mthrow CatCorrupted else
  write_all_system_tables.

End Bootstrap.

(** ** catalog.rs: rows *)

Record RelationRow := mkRelationRow {
  rr_oid : Oid; rr_name : list Z; rr_kind : list Z; rr_natts : Z; rr_toastrelid : Oid; rr_am : Oid }.
Record AttributeRow := mkAttributeRow {
  ar_rel : Oid; ar_name : list Z; ar_type_oid : Oid; ar_len : Z; ar_num : Z; ar_not_null : bool; ar_nullable : bool }.
Record TypeRow := mkTypeRow { tr_oid : Oid; tr_name : list Z; tr_len : Z }.
Record AmRow := mkAmRow { amr_oid : Oid; amr_name : list Z }.
Record RelpagesRow := mkRelpagesRow { rp_rel_oid : Oid; rp_first_page : PageId; rp_last_page : PageId; rp_page_count : Z }.

Definition int8_col (row : list (option Datum)) (idx : nat) : res CatalogError Z :=
  match row !! idx with Some (Some (DInt8 v)) => Ok v | _ => Err CatCorrupted end.
Definition int4_col (row : list (option Datum)) (idx : nat) : res CatalogError Z :=
  match row !! idx with Some (Some (DInt4 v)) => Ok v | _ => Err CatCorrupted end.
Definition text_col (row : list (option Datum)) (idx : nat) : res CatalogError (list Z) :=
  match row !! idx with Some (Some (DText v)) => Ok v | _ => Err CatCorrupted end.

(** [u64::try_from] of an [i64]. *)
Definition oid_of (v : Z) : res CatalogError Oid := if v <? 0 then Err CatCorrupted else Ok v.
Definition page_id_of (v : Z) : res CatalogError PageId := if v <? 0 then Err CatCorrupted else Ok v.

Definition relation_row (row : list (option Datum)) : res CatalogError RelationRow :=
  let? v := int8_col row 0 in
  let? oid := oid_of v in
  let? name := text_col row 1 in
  let? kind := text_col row 2 in
  let? natts := int4_col row 3 in
  let? v := int8_col row 4 in
  let? toastrelid := oid_of v in
  let? v := int8_col row 5 in
  let? am := oid_of v in
  Ok (mkRelationRow oid name kind natts toastrelid am).

Definition attribute_row (row : list (option Datum)) : res CatalogError AttributeRow :=
  let? v := int8_col row 0 in
  let? rel := oid_of v in
  let? name := text_col row 1 in
  let? v := int8_col row 2 in
  let? type_oid := oid_of v in
  let? len := int4_col row 3 in
  let? num := int4_col row 4 in
  let? not_null := int4_col row 5 in
  let? nullable := int4_col row 6 in
  Ok (mkAttributeRow rel name type_oid len num (negb (not_null =? 0)) (negb (nullable =? 0))).

Definition type_row (row : list (option Datum)) : res CatalogError TypeRow :=
  let? v := int8_col row 0 in
  let? oid := oid_of v in
  let? name := text_col row 1 in
  let? len := int4_col row 2 in
  Ok (mkTypeRow oid name len).

Definition am_row (row : list (option Datum)) : res CatalogError AmRow :=
  let? v := int8_col row 0 in
  let? oid := oid_of v in
  let? name := text_col row 1 in
  Ok (mkAmRow oid name).

Definition relpages_row (row : list (option Datum)) : res CatalogError RelpagesRow :=
  let? v := int8_col row 0 in
  let? rel_oid := oid_of v in
  let? v := int8_col row 1 in
  let? first_page := page_id_of v in
  let? v := int8_col row 2 in
  let? last_page := page_id_of v in
  let? v := int8_col row 3 in
  let? page_count := if v <? 0 then Err CatCorrupted else Ok v in
  Ok (mkRelpagesRow rel_oid first_page last_page page_count).

(** [iter().map(f).collect::<Result<Vec<_>>>()]. *)
Fixpoint collect_rows {A B E : Type} (f : A -> res E B) (l : list A) : res E (list B) :=
  match l with
  | [] => Ok []
  | x :: l => let? y := f x in let? ys := collect_rows f l in Ok (y :: ys)
  end.

(** The [BTreeMap] of columns: pushed in slot order, then sorted by [attnum]. *)
Definition push_attr (m : gmap Z (list AttributeRow)) (a : AttributeRow) : gmap Z (list AttributeRow) :=
  <[ar_rel a := default [] (m !! ar_rel a) ++ [a]]> m.

Definition num_le (a b : AttributeRow) : Prop := ar_num a <= ar_num b.
#[export] Instance num_le_dec : RelDecision num_le.
Proof. intros a b. unfold num_le. apply _. Defined.

Definition sort_attrs (m : gmap Z (list AttributeRow)) : gmap Z (list AttributeRow) := merge_sort num_le <$> m.

Fixpoint read_slots (n : nat) (slot : Z) (columns : list ColumnType) (page : Page)
    : res CatalogError (list (list (option Datum))) :=
  match n with
  | O => Ok []
  | Datatypes.S n =>
      let? t := map_err CatHeap (tuple page slot) in
      match t with
      | Some bytes =>
          let? '(_, values) := map_err CatHeap (decode_tuple bytes columns) in
          let? rows := read_slots n (slot + 1) columns page in
          Ok (values :: rows)
      | None => read_slots n (slot + 1) columns page
      end
  end.

(** ** catalog.rs: validation *)

Fixpoint columns_match (attrs : list AttributeRow) (cols : list SysColumn) : bool :=
  match attrs, cols with
  | a :: attrs, c :: cols =>
      bool_decide (ar_name a = sc_name c) && (ar_type_oid a =? sc_type_oid c) && columns_match attrs cols
  | _, _ => true
  end.

Definition table_valid (relations : list RelationRow) (attributes : gmap Z (list AttributeRow)) (def : SystemTableDef) : bool :=
  match List.find (fun r => rr_oid r =? st_oid def) relations with
  | None => false
  | Some rel =>
      let attrs := default [] (attributes !! st_oid def) in
      (to_unsigned 64 (rr_natts rel) =? zlen (st_columns def)) && (zlen attrs =? zlen (st_columns def))
      && columns_match attrs (st_columns def)
  end.

Definition type_valid (types : list TypeRow) (ty : BuiltinType) : bool :=
  match List.find (fun t => tr_oid t =? bt_oid ty) types with
  | None => false
  | Some row => bool_decide (tr_name row = bt_name ty) && (tr_len row =? bt_len ty)
  end.

Definition validate_content (relations : list RelationRow) (attributes : gmap Z (list AttributeRow))
    (types : list TypeRow) (access_methods : list AmRow) : res CatalogError unit :=
  if negb (forallb (table_valid relations attributes) SYSTEM_TABLES) then Err CatCorrupted else
  if negb (forallb (type_valid types) BUILTIN_TYPES) then Err CatCorrupted else
  if negb (forallb (fun am_oid => existsb (fun a => amr_oid a =? am_oid) access_methods) [HEAP_AM_OID; BTREE_AM_OID])
  then Err CatCorrupted else Ok tt.

(** ** catalog.rs: Catalog *)

Record Catalog := mkCatalog {
  c_relations : list RelationRow;
  c_attributes : gmap Z (list AttributeRow);
  c_types : list TypeRow;
  c_access_methods : list AmRow;
  c_relpages : list RelpagesRow;
  c_oid_allocator : Z;
  c_bootstrapped : bool;
}.

Definition max_oid (l : list Oid) : option Oid :=
  match l with [] => None | o :: l => Some (foldr Z.max o l) end.

(** The corrected start of the allocator; [saturating_add] on [u64]. *)
Definition oid_start (next_oid : Oid) (relations : list RelationRow) (types : list TypeRow) (access_methods : list AmRow) : Oid :=
  let max_in_use := (fun m => Z.min (m + 1) (2 ^ 64 - 1)) <$>
    max_oid ((rr_oid <$> relations) ++ (tr_oid <$> types) ++ (amr_oid <$> access_methods)) in
  Z.max (Z.max next_oid (default 0 max_in_use)) Oid_FIRST_USER.

Section CatalogOpen.
Context {S : Type} `{CatalogStorage S}.
Abbreviation C := (M S CatalogError).

Definition read_tuples (def : SystemTableDef) : C (list (list (option Datum))) :=
  let! page := lift_err CatStorage (cs_pin (st_first_page def)) in
  lift_res (read_slots (Z.to_nat (slot_count page)) 0 (column_types def) page).

Definition read_relations : C (list RelationRow) :=
  let! rows := read_tuples PG_CLASS in lift_res (collect_rows relation_row rows).

Definition read_attributes : C (gmap Z (list AttributeRow)) :=
  let! rows := read_tuples PG_ATTRIBUTE in
  let! attrs := lift_res (collect_rows attribute_row rows) in
  mret (sort_attrs (foldl push_attr ∅ attrs)).

Definition read_types : C (list TypeRow) :=
  let! rows := read_tuples PG_TYPE in lift_res (collect_rows type_row rows).

Definition read_access_methods : C (list AmRow) :=
  let! rows := read_tuples PG_AM in lift_res (collect_rows am_row rows).

Definition read_relpages : C (list RelpagesRow) :=
  let! rows := read_tuples PG_RELPAGES in lift_res (collect_rows relpages_row rows).

Definition read_validated : C Catalog :=
  let! relations := read_relations in
  let! attributes := read_attributes in
  let! types := read_types in
  let! access_methods := read_access_methods in
  let! relpages := read_relpages in
  lift_res (validate_content relations attributes types access_methods) ;!
  let! s := mget in
  let oid_allocator := OidAllocator_load (oid_start (cs_next_oid s) relations types access_methods) in
  mmodify (cs_set_next_oid_source (shared_counter oid_allocator)) ;!
  mret (mkCatalog relations attributes types access_methods relpages oid_allocator false).

Definition with_bootstrapped (b : bool) (c : Catalog) : Catalog :=
  mkCatalog (c_relations c) (c_attributes c) (c_types c) (c_access_methods c) (c_relpages c) (c_oid_allocator c) b.

Definition Catalog_open : C Catalog :=
  let! bootstrapped := bootstrap_if_needed in
  fun s =>
    match read_validated s with
    | (Ok catalog, s) => (Ok (with_bootstrapped bootstrapped catalog), s)
    | (Panic, s) => (Panic, s)
    | (Err _, s) =>
        (let! user := user_ddl_present in
         if user : bool then mthrow CatCorrupted else
         force_rebootstrap ;!
         let! catalog := read_validated in
         mret (with_bootstrapped true catalog)) s
    end.

End CatalogOpen.

Definition relation (c : Catalog) (oid : Oid) : option RelationRow := List.find (fun r => rr_oid r =? oid) (c_relations c).
Definition relation_by_name (c : Catalog) (name : list Z) : option RelationRow :=
  List.find (fun r => bool_decide (rr_name r = name)) (c_relations c).
Definition attributes_of (c : Catalog) (table : Oid) : list AttributeRow := default [] (c_attributes c !! table).
Definition type_by_oid (c : Catalog) (oid : Oid) : option TypeRow := List.find (fun t => tr_oid t =? oid) (c_types c).
Definition relpages_of (c : Catalog) (rel_oid : Oid) : option RelpagesRow :=
  List.find (fun r => rp_rel_oid r =? rel_oid) (c_relpages c).
