(* ===== verification/CatalogSafe.v ===== *)
(** * Opening the catalog

    What [Catalog::open] promises against the interface [CatalogStorage] when the
    storage engine works: it always returns, it repairs a catalog without user
    tables, it never rewrites one that holds them, and the OIDs it hands out
    afterwards are new. *)

From S2P Require Import Prelude Types LinePointer SlottedPage Tuple HeapPage Recovery Catalog.
Local Open Scope Z_scope.
Local Open Scope rust_scope.

(** [cs_ok] says that no I/O error is ahead and every page can be pinned. *)
Class CatalogStorageLaws (S : Type) `{CatalogStorage S} := {
  cs_ok : S -> Prop;
  cs_page_wf s p : page_wf (cs_page s p);
  cs_pin_total s p : cs_ok s -> exists s', cs_pin p s = (Ok (cs_page s p), s') /\ cs_ok s' /\
    (forall q, cs_page s' q = cs_page s q) /\ cs_next_page_id s' = cs_next_page_id s /\ cs_next_oid s' = cs_next_oid s;
  cs_pin_mut_total s p : cs_ok s -> exists s', cs_pin_mut p s = (Ok (cs_page s p), s') /\ cs_ok s' /\
    (forall q, cs_page s' q = cs_page s q) /\ cs_next_page_id s' = cs_next_page_id s /\ cs_next_oid s' = cs_next_oid s;
  cs_drop_mut_ok s p page : page_wf page -> cs_ok s -> cs_ok (cs_drop_mut p page s) /\
    (forall q, cs_page (cs_drop_mut p page s) q = if decide (q = p) then page else cs_page s q) /\
    cs_next_page_id (cs_drop_mut p page s) = cs_next_page_id s /\ cs_next_oid (cs_drop_mut p page s) = cs_next_oid s;
  cs_new_page_total s : cs_ok s -> exists p s', cs_new_page s = (Ok p, s') /\ cs_ok s' /\
    (forall q, cs_page s' q = cs_page s q \/ cs_page s' q = zeros PAGE_SIZE) /\ cs_next_oid s' = cs_next_oid s /\
    (cs_free s = Datatypes.S (cs_free s') /\ cs_next_page_id s' = cs_next_page_id s \/
     cs_free s = 0%nat /\ cs_free s' = 0%nat /\ cs_next_page_id s' = cs_next_page_id s + 1);
  cs_checkpoint_total s : cs_ok s -> exists s', cs_trigger_checkpoint s = (Ok tt, s') /\ cs_ok s' /\
    (forall q, cs_page s' q = cs_page s q) /\ cs_next_page_id s' = cs_next_page_id s /\ cs_next_oid s <= cs_next_oid s';
  cs_set_source_ok s c : cs_ok s -> cs_ok (cs_set_next_oid_source c s) /\
    (forall q, cs_page (cs_set_next_oid_source c s) q = cs_page s q);
}.

(** ** Reading pages as pure functions *)

(** A decodable row of a user relation. *)
Definition user_row (page : Page) (columns : list ColumnType) : Prop :=
  exists slot bytes h v vs, 0 <= slot < slot_count page /\ tuple page slot = Ok (Some bytes) /\
    decode_tuple bytes columns = Ok (h, Some (DInt8 v) :: vs) /\ Oid_FIRST_USER <= v.

Definition user_rows (pg : PageId -> Page) : Prop :=
  Exists (fun def => user_row (pg (st_first_page def)) (column_types def)) [PG_CLASS; PG_ATTRIBUTE; PG_RELPAGES].

Definition table_rows (def : SystemTableDef) (pg : PageId -> Page) : res CatalogError (list (list (option Datum))) :=
  read_slots (Z.to_nat (slot_count (pg (st_first_page def)))) 0 (column_types def) (pg (st_first_page def)).

Record Tables := mkTables {
  tb_relations : list RelationRow; tb_attributes : gmap Z (list AttributeRow); tb_types : list TypeRow;
  tb_access_methods : list AmRow; tb_relpages : list RelpagesRow }.

Definition rows_of {A} (f : list (option Datum) -> res CatalogError A) (def : SystemTableDef) (pg : PageId -> Page)
    : res CatalogError (list A) := let? rows := table_rows def pg in collect_rows f rows.

Definition attrs_of (pg : PageId -> Page) : res CatalogError (gmap Z (list AttributeRow)) :=
  let? attrs := rows_of attribute_row PG_ATTRIBUTE pg in Ok (sort_attrs (foldl push_attr ∅ attrs)).

(** What the five tables hold, and whether it is a catalog. *)
Definition tables_of (pg : PageId -> Page) : res CatalogError Tables :=
  let? relations := rows_of relation_row PG_CLASS pg in
  let? attributes := attrs_of pg in
  let? types := rows_of type_row PG_TYPE pg in
  let? access_methods := rows_of am_row PG_AM pg in
  let? relpages := rows_of relpages_row PG_RELPAGES pg in
  let? _ := validate_content relations attributes types access_methods in
  Ok (mkTables relations attributes types access_methods relpages).

Definition catalog_from (next_oid : Oid) (t : Tables) : Catalog :=
  mkCatalog (tb_relations t) (tb_attributes t) (tb_types t) (tb_access_methods t) (tb_relpages t)
    (oid_start next_oid (tb_relations t) (tb_types t) (tb_access_methods t)) false.

Lemma tuple_no_panic page slot : page_wf page -> 0 <= slot -> tuple page slot <> Panic.
Proof. intros [Hl Hw] Hs. by apply (slotted_page_no_panic page slot []). Qed.

Lemma user_row_in_exact page columns : page_wf page -> forall n slot, 0 <= slot ->
  exists b, user_row_in n slot columns page = Ok b /\
    (b = true <-> exists k bytes h v vs, slot <= k < slot + Z.of_nat n /\ tuple page k = Ok (Some bytes) /\
       decode_tuple bytes columns = Ok (h, Some (DInt8 v) :: vs) /\ Oid_FIRST_USER <= v).
Proof.
  intros Hp. induction n as [|n IH]; intros slot Hs; cbn [user_row_in].
  { exists false. split; [done|]. split; [done|]. intros (k & ? & ? & ? & ? & ? & _). lia. }
  destruct (IH (slot + 1)) as (b & -> & Hb); [lia|]. pose proof (tuple_no_panic page slot Hp Hs) as Hnp.
  assert (Hskip : (forall bytes h v vs, tuple page slot = Ok (Some bytes) -> decode_tuple bytes columns = Ok (h, Some (DInt8 v) :: vs) -> ~ Oid_FIRST_USER <= v) ->
    (b = true <-> exists k bytes h v vs, slot <= k < slot + Z.of_nat (S n) /\ tuple page k = Ok (Some bytes) /\
       decode_tuple bytes columns = Ok (h, Some (DInt8 v) :: vs) /\ Oid_FIRST_USER <= v)).
  { intros Hno. rewrite Hb. split; intros (k & by_ & h & v & vs & Hk & Ht & Hd & Hv); exists k, by_, h, v, vs; split; try done; [lia|].
    destruct (decide (k = slot)) as [->|]; [|lia]. by edestruct Hno. }
  destruct (tuple page slot) as [[bytes|]|e|] eqn:Et; [|exists b; split; [done|apply Hskip; congruence]..|done].
  pose proof (decode_tuple_no_panic bytes columns) as Hd.
  destruct (decode_tuple bytes columns) as [[h vals]|e|] eqn:Ed; [|exists b; split; [done|apply Hskip; congruence]|done].
  destruct vals as [|[[]|] vals]; try (exists b; split; [done|apply Hskip; congruence]).
  destruct (v >=? Oid_FIRST_USER) eqn:Ev; zbool.
  - exists true. split; [done|]. split; [intros _|done]. exists slot, bytes, h, v, vals. repeat split; auto; lia.
  - exists b. split; [done|]. apply Hskip. intros ? ? ? ? [= <-] Hd'. rewrite Ed in Hd'. injection Hd' as <- <- <-. lia.
Qed.

(** A page without a header has no rows, so skipping it loses nothing. *)
Lemma no_upper_no_row page columns : pd_upper (header page) = 0 -> ~ user_row page columns.
Proof.
  intros Hu (slot & bytes & h & v & vs & Hs & Ht & _).
  assert (Hc : checked_header page = Err Corrupted).
  { unfold checked_header. rewrite Hu. destruct (_ <? _) eqn:E; [done|]. destruct (negb _); [done|]. zbool. unfold PAGE_HEADER_SIZE in E.
    by rewrite (proj2 (Z.gtb_lt _ _)) by lia. }
  unfold tuple in Ht. cbn [tuple_loop] in Ht. unfold line_pointer in Ht. by rewrite Hc in Ht.
Qed.

Lemma read_slots_no_panic page columns : page_wf page -> forall n slot, 0 <= slot -> read_slots n slot columns page <> Panic.
Proof.
  intros Hp. induction n as [|n IH]; intros slot Hs; cbn [read_slots]; [done|].
  pose proof (tuple_no_panic page slot Hp Hs). specialize (IH (slot + 1) ltac:(lia)).
  destruct (tuple page slot) as [[bytes|]|e|]; cbn [map_err res_bind]; [|done..].
  pose proof (decode_tuple_no_panic bytes columns). destruct (decode_tuple bytes columns) as [[h vs]|e|]; cbn [map_err res_bind]; [|done..].
  by destruct (read_slots n (slot + 1) columns page).
Qed.

Lemma collect_rows_no_panic {A B} (f : A -> res CatalogError B) l : (forall x, f x <> Panic) -> collect_rows f l <> Panic.
Proof.
  intros Hf. induction l as [|x l IH]; cbn [collect_rows]; [done|]. specialize (Hf x).
  destruct (f x); cbn [res_bind]; [|done..]. by destruct (collect_rows f l).
Qed.

Lemma rows_of_no_panic {A} (f : list (option Datum) -> res CatalogError A) def pg :
  (forall p, page_wf (pg p)) -> (forall row, f row <> Panic) -> rows_of f def pg <> Panic.
Proof.
  intros Hp Hf. unfold rows_of, table_rows. pose proof (read_slots_no_panic (pg (st_first_page def)) (column_types def) (Hp _)
    (Z.to_nat (slot_count (pg (st_first_page def)))) 0 ltac:(done)) as Hr. destruct (read_slots _ _ _ _); cbn [res_bind]; [|done..].
  by apply collect_rows_no_panic.
Qed.

Lemma int8_col_no_panic row i : int8_col row i <> Panic.
Proof. unfold int8_col. by destruct (row !! i) as [[[]|]|]. Qed.
Lemma int4_col_no_panic row i : int4_col row i <> Panic.
Proof. unfold int4_col. by destruct (row !! i) as [[[]|]|]. Qed.
Lemma text_col_no_panic row i : text_col row i <> Panic.
Proof. unfold text_col. by destruct (row !! i) as [[[]|]|]. Qed.
Lemma oid_of_no_panic v : oid_of v <> Panic.
Proof. unfold oid_of. by destruct (v <? 0). Qed.
Lemma page_id_of_no_panic v : page_id_of v <> Panic.
Proof. unfold page_id_of. by destruct (v <? 0). Qed.

(** The columns are read by matches that fail with an error. *)
Ltac row_cases := repeat (match goal with
  | |- context [int8_col ?r ?i] => pose proof (int8_col_no_panic r i); destruct (int8_col r i)
  | |- context [int4_col ?r ?i] => pose proof (int4_col_no_panic r i); destruct (int4_col r i)
  | |- context [text_col ?r ?i] => pose proof (text_col_no_panic r i); destruct (text_col r i)
  | |- context [oid_of ?v] => pose proof (oid_of_no_panic v); destruct (oid_of v)
  | |- context [page_id_of ?v] => pose proof (page_id_of_no_panic v); destruct (page_id_of v)
  | |- context [?v <? 0] => destruct (v <? 0)
  end; cbn [res_bind]; try done).

Lemma rows_no_panic row : relation_row row <> Panic /\ attribute_row row <> Panic /\ type_row row <> Panic /\
  am_row row <> Panic /\ relpages_row row <> Panic.
Proof. unfold relation_row, attribute_row, type_row, am_row, relpages_row. repeat split; row_cases. Qed.

Lemma validate_content_no_panic rs a ts ams : validate_content rs a ts ams <> Panic.
Proof. unfold validate_content. by repeat destruct (negb _). Qed.

Lemma tables_of_no_panic pg : (forall p, page_wf (pg p)) -> tables_of pg <> Panic.
Proof.
  intros Hp. unfold tables_of, attrs_of. pose proof rows_no_panic as Hr.
  pose proof (rows_of_no_panic relation_row PG_CLASS pg Hp ltac:(apply Hr)). destruct (rows_of relation_row _ _); cbn [res_bind]; [|done..].
  pose proof (rows_of_no_panic attribute_row PG_ATTRIBUTE pg Hp ltac:(apply Hr)). destruct (rows_of attribute_row _ _); cbn [res_bind]; [|done..].
  pose proof (rows_of_no_panic type_row PG_TYPE pg Hp ltac:(apply Hr)). destruct (rows_of type_row _ _); cbn [res_bind]; [|done..].
  pose proof (rows_of_no_panic am_row PG_AM pg Hp ltac:(apply Hr)). destruct (rows_of am_row _ _); cbn [res_bind]; [|done..].
  pose proof (rows_of_no_panic relpages_row PG_RELPAGES pg Hp ltac:(apply Hr)). destruct (rows_of relpages_row _ _); cbn [res_bind]; [|done..].
  match goal with |- context [validate_content ?a ?b ?c ?d] => pose proof (validate_content_no_panic a b c d); by destruct (validate_content a b c d) end.
Qed.

(** ** Decoded integers are in range, so the allocator starts above all OIDs *)

Definition int_wf (v : option Datum) : Prop := match v with Some (DInt8 x) => x < 2 ^ 63 | _ => True end.

Lemma wf_slice off n (l : list Z) : wf_bytes l -> wf_bytes (slice off n l).
Proof. intros Hl. unfold slice. by apply Forall_take, Forall_drop. Qed.

Lemma slice_get_wf {E} off n (l b : list Z) : slice_get (E:=E) off n l = Ok b -> wf_bytes l -> wf_bytes b.
Proof. unfold slice_get. destruct (_ && _); [|done]. intros [= <-]. apply wf_slice. Qed.

Lemma tuple_loop_wf page : wf_bytes page -> forall n cur b, tuple_loop n page cur = Ok (Some b) -> wf_bytes b.
Proof.
  intros Hw. induction n as [|n IH]; intros cur b Hb; [done|]. cbn [tuple_loop] in Hb.
  destruct (line_pointer page cur) as [lp|[]|]; try done. case_decide; [by eapply IH|]. case_decide; [|done]. inv_bind Hb. destruct (_ || _); [done|]. inv_bind Hb.
  injection Hb as <-. by eapply slice_get_wf.
Qed.

Lemma decode_column_int bytes col pos d pos' : wf_bytes bytes -> decode_column bytes col pos = Ok (d, pos') -> int_wf (Some d).
Proof.
  intros Hw Hd. unfold decode_column in Hd.
  assert (Ht : forall n f q, take_bytes bytes pos n = Ok (f, q) -> 0 <= n -> 0 <= le_val f < 256 ^ n).
  { intros n f q E Hn. unfold take_bytes in E. destruct (_ >? _); [done|]. inv_bind E. injection E as <- <-.
    pose proof (slice_get_wf _ _ _ _ Ha Hw) as Hwa. pose proof (le_val_bound _ Hwa) as Hb.
    unfold slice_get in Ha. destruct (_ && _) eqn:Eb; [|done]. injection Ha as <-. zbool.
    assert (Hlen : zlen (slice pos n bytes) = n) by (unfold slice; rewrite length_take, length_drop; lia). by rewrite Hlen in Hb. }
  destruct (fixed_width col) as [w|] eqn:Ew.
  - inv_bind Hd. destruct a as [f q]. specialize (Ht w f q Ha).
    destruct col; try done; injection Ew as <-; injection Hd as <- <-; try done.
    unfold int_wf, to_signed. specialize (Ht ltac:(lia)). case_decide; lia.
  - inv_bind Hd. destruct a as [f q]. destruct (is_external _).
    + inv_bind Hd. destruct a as [g q']. inv_bind Hd. by injection Hd as <- <-.
    + destruct (_ <? _); [done|]. inv_bind Hd. destruct a as [g q']. destruct col; try done; [destruct (utf8_valid _); [|done]|]; by injection Hd as <- <-.
Qed.

Lemma decode_columns_int bytes has_null : wf_bytes bytes -> forall columns i pos vs pos',
  decode_columns bytes has_null i columns pos = Ok (vs, pos') -> Forall int_wf vs.
Proof.
  intros Hw. induction columns as [|col columns IH]; intros i pos vs pos' Hd; cbn [decode_columns] in Hd; [by injection Hd as <- <-|].
  inv_bind Hd. destruct a.
  - inv_bind Hd. destruct a as [vs1 q]. injection Hd as <- <-. constructor; [done|by eapply IH].
  - inv_bind Hd. destruct a as [d q]. inv_bind Hd. destruct a as [vs1 q1]. injection Hd as <- <-.
    constructor; [by eapply decode_column_int|by eapply IH].
Qed.

Lemma read_slots_int page columns : wf_bytes page -> forall n slot rows,
  read_slots n slot columns page = Ok rows -> Forall (Forall int_wf) rows.
Proof.
  intros Hw. induction n as [|n IH]; intros slot rows Hr; cbn [read_slots] in Hr; [by injection Hr as <-|].
  inv_bind Hr. destruct a as [b|]; [|by eapply IH]. inv_bind Hr. destruct a as [h vs]. inv_bind Hr. injection Hr as <-.
  constructor; [|by eapply IH]. destruct (tuple page slot) as [t|e|] eqn:Et; [|done..]. injection Ha as ->.
  destruct (decode_tuple b columns) as [[h' vs']|e|] eqn:Ed; [|done..]. injection Ha0 as -> ->.
  unfold tuple in Et. apply tuple_loop_wf in Et; [|done]. unfold decode_tuple in Ed. inv_bind Ed. repeat case_if Ed.
  apply res_bind_ok in Ed as ([v q] & Hdc & Ed). destruct (negb _) in Ed; [done|]. injection Ed as <- <-. by eapply decode_columns_int.
Qed.

Lemma collect_rows_Forall {A B} (f : A -> res CatalogError B) (P : A -> Prop) (Q : B -> Prop) :
  (forall x y, f x = Ok y -> P x -> Q y) -> forall l ys, collect_rows f l = Ok ys -> Forall P l -> Forall Q ys.
Proof.
  intros Hf. induction l as [|x l IH]; intros ys Hc HP; cbn [collect_rows] in Hc; [by injection Hc as <-|].
  inv_bind Hc. inv_bind Hc. injection Hc as <-. apply Forall_cons in HP as [Hx Hl]. constructor; [by eapply Hf|by apply IH].
Qed.

Lemma int8_col_int row i v : int8_col row i = Ok v -> Forall int_wf row -> v < 2 ^ 63.
Proof.
  unfold int8_col. destruct (row !! i) as [[[]|]|] eqn:E; try done. intros [= ->] Hr.
  rewrite Forall_lookup in Hr. exact (Hr _ _ E).
Qed.

Lemma oid_of_ok v o : oid_of v = Ok o -> o = v.
Proof. unfold oid_of. destruct (_ <? _); [done|]. by intros [= ->]. Qed.

Lemma first_oid {A} (f : list (option Datum) -> res CatalogError A) (oid : A -> Oid) def pg ys :
  page_wf (pg (st_first_page def)) ->
  (forall row y, f row = Ok y -> exists v, int8_col row 0 = Ok v /\ oid y = v) ->
  rows_of f def pg = Ok ys -> Forall (fun o => o < 2 ^ 63) (oid <$> ys).
Proof.
  intros [_ Hw] Hf Hr. unfold rows_of, table_rows in Hr. inv_bind Hr. apply read_slots_int in Ha; [|done].
  apply Forall_fmap. eapply collect_rows_Forall; [|exact Hr|exact Ha]. intros row y Hy Hrow.
  destruct (Hf _ _ Hy) as (v & Hv & Hyv). unfold compose. rewrite Hyv. by eapply int8_col_int.
Qed.

(** Peel the first column off a row reader. *)
Ltac first_col Hy := inv_bind Hy; inv_bind Hy; repeat (inv_bind Hy); injection Hy as <-; eexists; split; [eassumption|]; by apply oid_of_ok.

Lemma relation_row_oid row y : relation_row row = Ok y -> exists v, int8_col row 0 = Ok v /\ rr_oid y = v.
Proof. intros Hy. unfold relation_row in Hy. first_col Hy. Qed.
Lemma type_row_oid row y : type_row row = Ok y -> exists v, int8_col row 0 = Ok v /\ tr_oid y = v.
Proof. intros Hy. unfold type_row in Hy. first_col Hy. Qed.
Lemma am_row_oid row y : am_row row = Ok y -> exists v, int8_col row 0 = Ok v /\ amr_oid y = v.
Proof. intros Hy. unfold am_row in Hy. first_col Hy. Qed.

Lemma max_oid_ge l m : max_oid l = Some m -> forall o, o ∈ l -> o <= m.
Proof.
  destruct l as [|x l]; [done|]. intros [= <-] o Ho. apply elem_of_cons in Ho as [->|Ho].
  - induction l as [|y l IH]; simpl; lia.
  - induction Ho as [l|o y l Ho IH]; simpl; lia.
Qed.

Lemma max_oid_in l m : max_oid l = Some m -> m ∈ l.
Proof.
  destruct l as [|x l]; [done|]. intros [= <-]. induction l as [|y l IH]; simpl; [by left|].
  destruct (Z.max_dec y (foldr Z.max x l)) as [E|E]; rewrite E; [right; by left|]. set_solver.
Qed.

(** OIDs the catalog pages already use. *)
Definition oids (t : Tables) : list Oid := (rr_oid <$> tb_relations t) ++ (tr_oid <$> tb_types t) ++ (amr_oid <$> tb_access_methods t).

Lemma oid_start_fresh next t : Forall (fun o => o < 2 ^ 63) (oids t) ->
  let start := oid_start next (tb_relations t) (tb_types t) (tb_access_methods t) in
  Forall (fun o => o < start) (oids t) /\ next <= start /\ Oid_FIRST_USER <= start.
Proof.
  intros Hb start. split; [|unfold start, oid_start; lia]. apply Forall_forall. intros o Ho.
  unfold start, oid_start. fold (oids t). destruct (max_oid (oids t)) as [m|] eqn:E; [|by destruct (oids t); apply elem_of_nil in Ho || done].
  pose proof (max_oid_ge _ _ E _ Ho). apply max_oid_in in E. rewrite Forall_forall in Hb. specialize (Hb m E). simpl. lia.
Qed.

Lemma tables_of_oids pg t : (forall p, page_wf (pg p)) -> tables_of pg = Ok t -> Forall (fun o => o < 2 ^ 63) (oids t).
Proof.
  intros Hp Ht. unfold tables_of in Ht. repeat inv_bind Ht. injection Ht as <-. unfold oids. cbn [tb_relations tb_types tb_access_methods].
  repeat (apply Forall_app; split);
    (eapply first_oid; [apply Hp| |eassumption]); [apply relation_row_oid|apply type_row_oid|apply am_row_oid].
Qed.

(** ** The bootstrap content *)

Definition fresh_write (def : SystemTableDef) : res HeapError unit * Page :=
  write_rows (st_first_page def) (column_types def) 0 (bootstrap_rows def) (init_with_special (zeros PAGE_SIZE) HEAP_SPECIAL_SIZE).

Definition sys_page (def : SystemTableDef) : Page := snd (fresh_write def).

Definition page_wfb (page : Page) : bool := (zlen page =? PAGE_SIZE) && forallb (fun b => (0 <=? b) && (b <? 256)) page.

Lemma page_wfb_true page : page_wfb page = true -> page_wf page.
Proof.
  unfold page_wfb. intros Hp. apply andb_true_iff in Hp as [Hl Hb]. split; [lia|]. apply Forall_forall. intros x Hx.
  rewrite forallb_forall in Hb. specialize (Hb x ltac:(by apply list_elem_of_In)). unfold is_byte. lia.
Qed.

(** All rows of every system table fit on its page. *)
Lemma fresh_write_ok def : def ∈ SYSTEM_TABLES -> fst (fresh_write def) = Ok tt /\ page_wf (sys_page def).
Proof.
  intros Hd. assert (Hall : forallb (fun d => match fst (fresh_write d) with Ok _ => true | _ => false end && page_wfb (sys_page d)) SYSTEM_TABLES = true)
    by (vm_compute; reflexivity).
  rewrite forallb_forall in Hall. specialize (Hall def ltac:(by apply list_elem_of_In)). apply andb_true_iff in Hall as [Hf Hp].
  split; [|by apply page_wfb_true]. by destruct (fst (fresh_write def)) as [[]|e|].
Qed.

Fixpoint written (defs : list SystemTableDef) (pg : PageId -> Page) : PageId -> Page :=
  match defs with
  | [] => pg
  | def :: defs => written defs (fun q => if decide (q = st_first_page def) then sys_page def else pg q)
  end.

Lemma written_ext defs : forall pg pg', (forall q, pg q = pg' q) -> forall q, written defs pg q = written defs pg' q.
Proof. induction defs as [|def defs IH]; intros pg pg' He q; simpl; [done|]. apply IH. intros q'. by case_decide. Qed.

Lemma tables_of_ext pg pg' : (forall def, def ∈ SYSTEM_TABLES -> pg (st_first_page def) = pg' (st_first_page def)) -> tables_of pg = tables_of pg'.
Proof.
  intros He. unfold tables_of, attrs_of, rows_of, table_rows.
  rewrite (He PG_CLASS), (He PG_ATTRIBUTE), (He PG_TYPE), (He PG_AM), (He PG_RELPAGES); [done|unfold SYSTEM_TABLES; set_solver..].
Qed.

Lemma written_system pg def : def ∈ SYSTEM_TABLES -> written SYSTEM_TABLES pg (st_first_page def) = sys_page def.
Proof.
  unfold SYSTEM_TABLES. rewrite !elem_of_cons, elem_of_nil. intros Hd.
  repeat destruct Hd as [->|Hd]; try done; reflexivity.
Qed.

(** Read back, it is a catalog without user rows. *)
Lemma fresh_tables pg : exists t, tables_of (written SYSTEM_TABLES pg) = Ok t.
Proof.
  rewrite (tables_of_ext _ (written SYSTEM_TABLES (fun _ => []))) by (intros def Hd; by rewrite !written_system).
  assert (Hok : res_is_ok (tables_of (written SYSTEM_TABLES (fun _ => []))) = true) by (vm_compute; reflexivity).
  destruct (tables_of (written SYSTEM_TABLES (fun _ => []))) as [t|e|]; [by exists t|done..].
Qed.

(** ** Validated content *)

(** The catalog describes the hardcoded tables, types and access methods. *)
Record describes (c : Catalog) : Prop := {
  ds_tables : Forall (fun def => exists rel, rel ∈ c_relations c /\ rr_oid rel = st_oid def /\ to_unsigned 64 (rr_natts rel) = zlen (st_columns def) /\
    ((fun a => (ar_name a, ar_type_oid a)) <$> attributes_of c (st_oid def)) = ((fun col => (sc_name col, sc_type_oid col)) <$> st_columns def)) SYSTEM_TABLES;
  ds_types : Forall (fun ty => exists row, row ∈ c_types c /\ tr_oid row = bt_oid ty /\ tr_name row = bt_name ty /\ tr_len row = bt_len ty) BUILTIN_TYPES;
  ds_ams : Forall (fun am => am ∈ amr_oid <$> c_access_methods c) [HEAP_AM_OID; BTREE_AM_OID];
}.

Lemma columns_match_eq attrs cols : length attrs = length cols -> columns_match attrs cols = true ->
  ((fun a => (ar_name a, ar_type_oid a)) <$> attrs) = ((fun col => (sc_name col, sc_type_oid col)) <$> cols).
Proof.
  revert cols. induction attrs as [|a attrs IH]; intros [|c cols] Hl Hm; try done. cbn [columns_match] in Hm.
  apply andb_true_iff in Hm as [Hm Hr]. apply andb_true_iff in Hm as [Hn Ht]. apply bool_decide_eq_true in Hn.
  rewrite !fmap_cons, (IH cols) by (try done; simpl in Hl; lia). f_equal. f_equal; [done|lia].
Qed.

Lemma validate_describes c : validate_content (c_relations c) (c_attributes c) (c_types c) (c_access_methods c) = Ok tt -> describes c.
Proof.
  unfold validate_content. destruct (forallb (table_valid _ _) _) eqn:Et; [|done]. destruct (forallb (type_valid _) _) eqn:Ey; [|done].
  destruct (forallb _ [_; _]) eqn:Ea; [|done]. intros _. rewrite forallb_forall in Et, Ey, Ea.
  split; apply Forall_forall; intros x Hx; apply list_elem_of_In in Hx.
  - specialize (Et x Hx). unfold table_valid in Et. destruct (List.find _ _) as [rel|] eqn:Ef; [|done]. apply List.find_some in Ef as [Hin Ho].
    apply andb_true_iff in Et as [Et Hc]. apply andb_true_iff in Et as [Hn Hl]. exists rel. split; [by apply list_elem_of_In|].
    split; [lia|]. split; [lia|]. apply columns_match_eq; [unfold attributes_of; lia|done].
  - specialize (Ey x Hx). unfold type_valid in Ey. destruct (List.find _ _) as [row|] eqn:Ef; [|done]. apply List.find_some in Ef as [Hin Ho].
    apply andb_true_iff in Ey as [Hn Hl]. apply bool_decide_eq_true in Hn. exists row. split; [by apply list_elem_of_In|]. split; [lia|]. split; [done|lia].
  - specialize (Ea x Hx). apply existsb_exists in Ea as (a & Hin & Ha). apply list_elem_of_fmap. exists a. split; [lia|by apply list_elem_of_In].
Qed.

Lemma tables_describe pg n t b : tables_of pg = Ok t -> describes (with_bootstrapped b (catalog_from n t)).
Proof.
  intros Ht. unfold tables_of in Ht. repeat inv_bind Ht. injection Ht as <-. apply validate_describes. simpl. by destruct a4.
Qed.

Lemma zeros_no_user_row columns : ~ user_row (zeros PAGE_SIZE) columns.
Proof. apply no_upper_no_row. vm_compute. reflexivity. Qed.

Section Laws.
Context {S : Type} `{CatalogStorageLaws S}.
Abbreviation C := (M S CatalogError).

(** [s'] shows the same pages as [s]. *)
Record same (s s' : S) : Prop := {
  sm_pages q : cs_page s' q = cs_page s q;
  sm_next : cs_next_page_id s' = cs_next_page_id s;
  sm_oid : cs_next_oid s' = cs_next_oid s;
}.

#[local] Instance same_preorder : PreOrder same.
Proof.
  split; [by split|]. intros a b c [P1 N1 O1] [P2 N2 O2]. split; [intros q; by rewrite P2|by rewrite N2|by rewrite O2].
Qed.

(** [m] reads: from [s] it returns [r] and leaves the pages alone. *)
Definition reads {A} (m : C A) (s : S) (r : res CatalogError A) : Prop :=
  exists s', m s = (r, s') /\ cs_ok s' /\ same s s'.

Lemma reads_ret {A} (a : A) s : cs_ok s -> reads (mret a) s (Ok a).
Proof. intros Hs. by exists s. Qed.

Lemma reads_lift {A} (r : res CatalogError A) s : cs_ok s -> reads (lift_res r) s r.
Proof. intros Hs. by exists s. Qed.

Lemma reads_bind {A B} (m : C A) (k : A -> C B) s r r' :
  reads m s r -> (forall a s', r = Ok a -> cs_ok s' -> same s s' -> reads (k a) s' (r' a)) -> reads (mbindM m k) s (res_bind r r').
Proof.
  intros (s1 & Hm & Hok & Hsm) Hk. unfold reads, mbindM. rewrite Hm. destruct r as [a|e|]; cbn [res_bind]; [|by eauto..].
  destruct (Hk a s1) as (s2 & -> & Hok2 & Hsm2); [done..|]. exists s2. split; [done|]. split; [done|]. by etrans.
Qed.

Lemma reads_pin p s : cs_ok s -> reads (lift_err CatStorage (cs_pin p)) s (Ok (cs_page s p)).
Proof. intros Hs. destruct (cs_pin_total s p Hs) as (s' & E & Hok & Hp & Hn & Ho). exists s'. unfold lift_err. by rewrite E. Qed.

Lemma reads_tuples def s : cs_ok s -> reads (read_tuples def) s (table_rows def (cs_page s)).
Proof.
  intros Hs. apply (reads_bind _ _ s (Ok (cs_page s (st_first_page def)))
    (fun page => read_slots (Z.to_nat (slot_count page)) 0 (column_types def) page)); [by apply reads_pin|].
  intros page s' _ Hok _. by apply reads_lift.
Qed.

Lemma reads_rows {A} (f : list (option Datum) -> res CatalogError A) def s :
  cs_ok s -> reads (let! rows := read_tuples def in lift_res (collect_rows f rows)) s (rows_of f def (cs_page s)).
Proof. intros Hs. apply reads_bind; [by apply reads_tuples|]. intros rows s' _ Hok _. by apply reads_lift. Qed.

Lemma reads_attributes s : cs_ok s -> reads read_attributes s (attrs_of (cs_page s)).
Proof.
  intros Hs. destruct (reads_tuples PG_ATTRIBUTE s Hs) as (s1 & E & Hok & Hsm). exists s1. split; [|done].
  unfold read_attributes, attrs_of, rows_of, mbindM. rewrite E. destruct (table_rows _ _); cbn [res_bind]; [|done..].
  unfold lift_res. by destruct (collect_rows _ _).
Qed.

Lemma rows_of_same {A} (f : list (option Datum) -> res CatalogError A) def s s' : same s s' -> rows_of f def (cs_page s') = rows_of f def (cs_page s).
Proof. intros Hs. unfold rows_of, table_rows. by rewrite (sm_pages _ _ Hs). Qed.

Lemma user_ddl_exact s : cs_ok s -> exists b, reads user_ddl_present s (Ok b) /\ (b = true <-> user_rows (cs_page s)).
Proof.
  unfold user_ddl_present, user_rows. generalize [PG_CLASS; PG_ATTRIBUTE; PG_RELPAGES]. intros defs. revert s.
  induction defs as [|def defs IH]; intros s Hs; cbn [user_ddl_in].
  { exists false. split; [by exists s|]. by rewrite Exists_nil. }
  destruct (cs_pin_total s (st_first_page def) Hs) as (s1 & E & Hok & Hp & Hn & Ho). assert (Hsm : same s s1) by done.
  destruct (IH s1 Hok) as (b & (s2 & Em & Hok2 & Hsm2) & Hb).
  assert (Hlift : Exists (fun d => user_row (cs_page s1 (st_first_page d)) (column_types d)) defs
    <-> Exists (fun d => user_row (cs_page s (st_first_page d)) (column_types d)) defs)
    by (rewrite !Exists_exists; split; intros (d & ? & Hd); exists d; (split; [done|]); by rewrite Hp in * || by rewrite Hp).
  assert (Hgo : ~ user_row (cs_page s (st_first_page def)) (column_types def) ->
    b = true <-> Exists (fun d => user_row (cs_page s (st_first_page d)) (column_types d)) (def :: defs))
    by (intros Hno; rewrite Exists_cons, Hb, Hlift; tauto).
  assert (Htr : same s s2) by (by etrans). unfold reads. rewrite E.
  destruct (pd_upper (header (cs_page s (st_first_page def))) =? 0) eqn:Eu; zbool.
  { exists b. split; [by exists s2|]. by apply Hgo, no_upper_no_row. }
  destruct (user_row_in_exact _ (column_types def) (cs_page_wf s (st_first_page def)) (Z.to_nat (slot_count (cs_page s (st_first_page def)))) 0)
    as (b' & -> & Hb'); [done|].
  assert (Hrow : b' = true <-> user_row (cs_page s (st_first_page def)) (column_types def)).
  { rewrite Hb'. unfold user_row. split; intros (k & by_ & h & v & vs & Hk & Hrest); exists k, by_, h, v, vs; (split; [lia|done]). }
  destruct b'.
  - exists true. split; [by exists s1|]. split; [intros _|done]. constructor. by apply Hrow.
  - exists b. split; [by exists s2|]. apply Hgo. rewrite <-Hrow. done.
Qed.

Lemma read_validated_exact s : cs_ok s -> exists s',
  read_validated s = (let? t := tables_of (cs_page s) in Ok (catalog_from (cs_next_oid s) t), s') /\ cs_ok s' /\
  (forall q, cs_page s' q = cs_page s q) /\ (res_is_ok (tables_of (cs_page s)) = false -> same s s').
Proof.
  intros Hs. unfold read_validated, tables_of. unfold mbindM at 1.
  destruct (reads_rows relation_row PG_CLASS s Hs) as (s1 & E1 & Hok1 & Hs1). unfold read_relations. rewrite E1.
  destruct (rows_of relation_row PG_CLASS (cs_page s)) as [rs|e|]; cbn [res_bind]; [|exists s1; split; [done|split; [done|split; [apply (sm_pages _ _ Hs1)|done]]]..].
  destruct (reads_attributes s1 Hok1) as (s2 & E2 & Hok2 & Hs2). unfold mbindM at 1. rewrite E2.
  unfold attrs_of. rewrite (rows_of_same _ _ _ _ Hs1). assert (Hs02 : same s s2) by (by etrans).
  destruct (rows_of attribute_row PG_ATTRIBUTE (cs_page s)) as [ats|e|]; cbn [res_bind]; [|exists s2; split; [done|split; [done|split; [apply (sm_pages _ _ Hs02)|done]]]..].
  destruct (reads_rows type_row PG_TYPE s2 Hok2) as (s3 & E3 & Hok3 & Hs3). unfold mbindM at 1, read_types. rewrite E3.
  rewrite (rows_of_same _ _ _ _ Hs02). assert (Hs03 : same s s3) by (by etrans).
  destruct (rows_of type_row PG_TYPE (cs_page s)) as [ts|e|]; cbn [res_bind]; [|exists s3; split; [done|split; [done|split; [apply (sm_pages _ _ Hs03)|done]]]..].
  destruct (reads_rows am_row PG_AM s3 Hok3) as (s4 & E4 & Hok4 & Hs4). unfold mbindM at 1, read_access_methods. rewrite E4.
  rewrite (rows_of_same _ _ _ _ Hs03). assert (Hs04 : same s s4) by (by etrans).
  destruct (rows_of am_row PG_AM (cs_page s)) as [ams|e|]; cbn [res_bind]; [|exists s4; split; [done|split; [done|split; [apply (sm_pages _ _ Hs04)|done]]]..].
  destruct (reads_rows relpages_row PG_RELPAGES s4 Hok4) as (s5 & E5 & Hok5 & Hs5). unfold mbindM at 1, read_relpages. rewrite E5.
  rewrite (rows_of_same _ _ _ _ Hs04). assert (Hs05 : same s s5) by (by etrans).
  destruct (rows_of relpages_row PG_RELPAGES (cs_page s)) as [rps|e|]; cbn [res_bind]; [|exists s5; split; [done|split; [done|split; [apply (sm_pages _ _ Hs05)|done]]]..].
  unfold mbindM at 1, lift_res.
  destruct (validate_content _ _ _ _) as [[]|e|]; cbn [res_bind]; [|exists s5; split; [done|split; [done|split; [apply (sm_pages _ _ Hs05)|done]]]..].
  destruct (cs_set_source_ok s5 (shared_counter (OidAllocator_load (oid_start (cs_next_oid s5) rs ts ams))) Hok5) as [Hok6 Hp6].
  eexists. split; [unfold mbindM, mget, mmodify, mret; rewrite (sm_oid _ _ Hs05); reflexivity|].
  rewrite (sm_oid _ _ Hs05) in *. split; [exact Hok6|]. split; [|done]. intros q. rewrite Hp6. apply (sm_pages _ _ Hs05).
Qed.

Lemma write_system_table_ok def s : cs_ok s -> def ∈ SYSTEM_TABLES -> exists s', write_system_table def s = (Ok tt, s') /\ cs_ok s' /\
  (forall q, cs_page s' q = if decide (q = st_first_page def) then sys_page def else cs_page s q) /\
  cs_next_page_id s' = cs_next_page_id s /\ cs_next_oid s' = cs_next_oid s.
Proof.
  intros Hs Hd. destruct (fresh_write_ok def Hd) as [Hf Hw].
  destruct (cs_pin_mut_total s (st_first_page def) Hs) as (s1 & E & Hok & Hp & Hn & Ho).
  unfold write_system_table, lift_err. rewrite E. cbn [map_err].
  replace (init_with_special (cs_page s (st_first_page def)) HEAP_SPECIAL_SIZE) with (init_with_special (zeros PAGE_SIZE) HEAP_SPECIAL_SIZE)
    by (unfold init_with_special; by rewrite (proj1 (cs_page_wf s (st_first_page def)))).
  fold (fresh_write def). unfold sys_page in *. destruct (fresh_write def) as [r page]. cbn [fst snd] in *. rewrite Hf. cbn [map_err].
  destruct (cs_drop_mut_ok s1 (st_first_page def) page Hw Hok) as (Hok2 & Hp2 & Hn2 & Ho2).
  eexists. split; [done|]. split; [done|]. split; [|by rewrite Hn2, Ho2]. intros q. rewrite Hp2. by case_decide.
Qed.

Lemma write_tables_ok defs : (forall def, def ∈ defs -> def ∈ SYSTEM_TABLES) -> forall s, cs_ok s ->
  exists s', write_tables defs s = (Ok tt, s') /\ cs_ok s' /\ (forall q, cs_page s' q = written defs (cs_page s) q) /\
    cs_next_page_id s' = cs_next_page_id s /\ cs_next_oid s' = cs_next_oid s.
Proof.
  intros Hd. induction defs as [|def defs IH]; intros s Hs; cbn [write_tables written]; [by exists s|].
  destruct (write_system_table_ok def s Hs) as (s1 & E1 & Hok1 & Hp1 & Hn1 & Ho1); [by apply Hd; left|].
  destruct (IH ltac:(intros d ?; apply Hd; by right) s1 Hok1) as (s2 & E2 & Hok2 & Hp2 & Hn2 & Ho2).
  exists s2. unfold mbindM. rewrite E1. split; [done|]. split; [done|]. split; [|by rewrite Hn2, Ho2]. intros q. rewrite Hp2.
  by apply written_ext.
Qed.

(** Allocating the missing system pages shows at most fresh pages. *)
Definition kept (s s' : S) : Prop := forall q,
  cs_page s' q = cs_page s q \/ cs_next_page_id s <= LAST_SYSTEM_PAGE /\ cs_page s' q = zeros PAGE_SIZE.

Lemma ensure_loop_ok : forall fuel s, cs_ok s -> (cs_free s + Z.to_nat (LAST_SYSTEM_PAGE + 1 - cs_next_page_id s) <= fuel)%nat ->
  exists s', ensure_loop fuel s = (Ok tt, s') /\ cs_ok s' /\ kept s s' /\ LAST_SYSTEM_PAGE < cs_next_page_id s' /\ cs_next_oid s' = cs_next_oid s.
Proof.
  induction fuel as [|fuel IH]; intros s Hs Hf; cbn [ensure_loop].
  { rewrite (proj2 (Z.gtb_lt _ _)) by lia. exists s. split; [done|]. split; [done|]. split; [by left|]. split; [lia|done]. }
  destruct (cs_next_page_id s >? LAST_SYSTEM_PAGE) eqn:E; zbool.
  { exists s. split; [done|]. split; [done|]. split; [by left|]. split; [lia|done]. }
  destruct (cs_new_page_total s Hs) as (p & s1 & En & Hok & Hp & Ho & Hm).
  destruct (IH s1 Hok) as (s2 & El & Hok2 & Hk & Hn & Ho2); [unfold LAST_SYSTEM_PAGE in *; lia|].
  exists s2. unfold mbindM, lift_err. rewrite En. cbn [map_err]. split; [done|]. split; [done|]. split; [|split; [done|by rewrite Ho2]].
  intros q. destruct (Hk q) as [->|[_ ->]]; [|by right]. destruct (Hp q) as [->| ->]; [by left|by right].
Qed.

Lemma ensure_ok s : cs_ok s -> exists s', ensure_system_pages_allocated s = (Ok tt, s') /\ cs_ok s' /\ kept s s' /\
  LAST_SYSTEM_PAGE < cs_next_page_id s' /\ cs_next_oid s' = cs_next_oid s.
Proof. intros Hs. by apply ensure_loop_ok. Qed.

Lemma write_all_ok s : cs_ok s -> LAST_SYSTEM_PAGE < cs_next_page_id s -> exists s', write_all_system_tables s = (Ok true, s') /\ cs_ok s' /\
  (forall q, cs_page s' q = written SYSTEM_TABLES (cs_page s) q) /\ cs_next_oid s <= cs_next_oid s'.
Proof.
  intros Hs Hn. unfold write_all_system_tables. destruct (ensure_ok s Hs) as (s1 & E1 & Hok1 & Hk & Hn1 & Ho1). unfold mbindM at 1. rewrite E1.
  destruct (write_tables_ok SYSTEM_TABLES ltac:(done) s1 Hok1) as (s2 & E2 & Hok2 & Hp2 & Hn2 & Ho2). unfold mbindM at 1. rewrite E2.
  destruct (cs_checkpoint_total s2 Hok2) as (s3 & E3 & Hok3 & Hp3 & Hn3 & Ho3).
  exists s3. unfold mbindM, lift_err. rewrite E3. split; [done|]. split; [done|]. split; [|lia]. intros q. rewrite Hp3, Hp2.
  apply written_ext. intros q'. destruct (Hk q') as [|[]]; [done|lia].
Qed.

Lemma reads_valid s : cs_ok s -> exists b, reads system_pages_are_valid s (Ok b).
Proof.
  unfold system_pages_are_valid. generalize SYSTEM_TABLES. intros defs. revert s.
  induction defs as [|def defs IH]; intros s Hs; cbn [pages_are_valid]; [exists true; by apply reads_ret|].
  destruct (reads_pin (st_first_page def) s Hs) as (s1 & E & Hok & Hsm). unfold page_is_valid_slotted, reads, mbindM. rewrite E.
  cbn [mret]. destruct (_ && negb _).
  - destruct (IH s1 Hok) as (b & s2 & E2 & Hok2 & Hsm2). exists b, s2. split; [done|]. split; [done|]. by etrans.
  - by exists false, s1.
Qed.

Lemma kept_user s s' : kept s s' -> user_rows (cs_page s') -> user_rows (cs_page s).
Proof.
  intros Hk. unfold user_rows. rewrite !Exists_exists. intros (def & Hd & Hr). exists def. split; [done|].
  destruct (Hk (st_first_page def)) as [E|[_ E]]; rewrite E in Hr; [done|]. by apply zeros_no_user_row in Hr.
Qed.

(** A catalog that was read from the pages of [s']: it describes the system
    tables, holds what the pages hold, and its next OID is new. *)
Record opened (s s' : S) (c : Catalog) : Prop := {
  op_describes : describes c;
  op_pages : exists t n, tables_of (cs_page s') = Ok t /\ c = with_bootstrapped (c_bootstrapped c) (catalog_from n t);
  op_new : Forall (fun o => o < c_oid_allocator c) ((rr_oid <$> c_relations c) ++ (tr_oid <$> c_types c) ++ (amr_oid <$> c_access_methods c));
  op_oid : cs_next_oid s <= c_oid_allocator c /\ Oid_FIRST_USER <= c_oid_allocator c;
}.

Lemma opened_intro s s1 s' b t : tables_of (cs_page s1) = Ok t -> (forall q, cs_page s' q = cs_page s1 q) -> cs_next_oid s <= cs_next_oid s1 ->
  opened s s' (with_bootstrapped b (catalog_from (cs_next_oid s1) t)).
Proof.
  intros Ht Hp Ho. pose proof (tables_of_oids _ _ (cs_page_wf s1) Ht) as Hb. apply (oid_start_fresh (cs_next_oid s1)) in Hb as (Hn & Hb & Hf).
  split; [by eapply tables_describe| |done|split; [etrans; done|done]]. exists t, (cs_next_oid s1). split; [|done].
  rewrite <-Ht. apply tables_of_ext. intros def _. apply Hp.
Qed.

(** The outcome of [Catalog::open]. *)
Definition open_outcome (s : S) (r : res CatalogError Catalog) (s' : S) : Prop :=
  match r with
  | Ok c => opened s s' c /\
      (if c_bootstrapped c then LAST_SYSTEM_PAGE < cs_next_page_id s -> ~ user_rows (cs_page s) else kept s s')
  | Err e => e = CatCorrupted /\ user_rows (cs_page s) /\ kept s s'
  | Panic => False
  end.

Lemma rebootstrap_read s s1 : cs_ok s1 -> LAST_SYSTEM_PAGE < cs_next_page_id s1 -> cs_next_oid s <= cs_next_oid s1 ->
  exists s2 s3 c, write_all_system_tables s1 = (Ok true, s2) /\ read_validated s2 = (Ok c, s3) /\ opened s s3 (with_bootstrapped true c).
Proof.
  intros Hs Hn Ho. destruct (write_all_ok s1 Hs Hn) as (s2 & E2 & Hok2 & Hp2 & Ho2).
  destruct (read_validated_exact s2 Hok2) as (s3 & E3 & Hok3 & Hp3 & _). destruct (fresh_tables (cs_page s1)) as (t & Ht).
  assert (Ht2 : tables_of (cs_page s2) = Ok t) by (rewrite <-Ht; apply tables_of_ext; intros def _; apply Hp2).
  rewrite Ht2 in E3. exists s2, s3, (catalog_from (cs_next_oid s2) t). split; [done|]. split; [done|]. eapply opened_intro; [done..|lia].
Qed.

Lemma kept_same s s1 s2 : kept s s1 -> (forall q, cs_page s2 q = cs_page s1 q) -> kept s s2.
Proof. intros Hk Hp q. rewrite Hp. apply Hk. Qed.

Lemma kept_no_user s s1 : kept s s1 -> ~ user_rows (cs_page s1) -> LAST_SYSTEM_PAGE < cs_next_page_id s -> ~ user_rows (cs_page s).
Proof.
  intros Hk Hu Hn Hs. apply Hu. unfold user_rows in *. rewrite Exists_exists in *. destruct Hs as (def & Hd & Hr). exists def.
  split; [done|]. destruct (Hk (st_first_page def)) as [->|[]]; [done|lia].
Qed.

(** The gate from a state [s1] that shows the pages of [s]: an error when a user
    row is there, else the way into a rewrite. *)
Lemma gate s s1 : cs_ok s1 -> kept s s1 -> LAST_SYSTEM_PAGE < cs_next_page_id s1 -> cs_next_oid s <= cs_next_oid s1 ->
  exists u s2, user_ddl_present s1 = (Ok u, s2) /\
    if u : bool then user_rows (cs_page s) /\ kept s s2
    else (LAST_SYSTEM_PAGE < cs_next_page_id s -> ~ user_rows (cs_page s)) /\
      exists s3 s4 c, write_all_system_tables s2 = (Ok true, s3) /\ read_validated s3 = (Ok c, s4) /\ opened s s4 (with_bootstrapped true c).
Proof.
  intros Hok Hk Hn Ho. destruct (user_ddl_exact s1 Hok) as (u & (s2 & E & Hok2 & Hsm) & Hu).
  exists u, s2. split; [done|]. destruct u.
  - split; [by eapply kept_user, Hu|]. eapply kept_same; [done|apply (sm_pages _ _ Hsm)].
  - split; [intros; eapply kept_no_user; [done| |done]; rewrite <-Hu; done|].
    apply rebootstrap_read; [done|by rewrite (sm_next _ _ Hsm)|by rewrite (sm_oid _ _ Hsm)].
Qed.
End Laws.

(** C14: [Catalog::open] on a storage engine without I/O errors always returns,
    whatever bytes the six system pages hold.  On success the catalog describes
    the hardcoded tables, types and access methods, is what the pages now hold,
    and the OID allocator starts above every OID in use, above the persisted
    one and in the user range; pages were rewritten only when no decodable row of
    a user table was there.  On failure the error is [Corrupted], a user row
    exists, and no page content changed. *)
Theorem catalog_open_sound {S : Type} `{CatalogStorageLaws S} (s : S) :
  cs_ok s -> exists r s', Catalog_open s = (r, s') /\ open_outcome s r s'.
Proof.
  intros Hs. unfold Catalog_open, bootstrap_if_needed. destruct (ensure_ok s Hs) as (s1 & E1 & Hok1 & Hk1 & Hn1 & Ho1).
  destruct (reads_valid s1 Hok1) as (v & s2 & E2 & Hok2 & Hsm2).
  assert (Hk2 : kept s s2) by (eapply kept_same; [done|apply (sm_pages _ _ Hsm2)]).
  unfold mbindM at 1 2. rewrite E1. unfold mbindM at 1. rewrite E2. destruct v; cbn [mret].
  - destruct (read_validated_exact s2 Hok2) as (s3 & E3 & Hok3 & Hp3 & Hsm3). rewrite E3.
    pose proof (tables_of_no_panic _ (cs_page_wf s2)) as Hnp. destruct (tables_of (cs_page s2)) as [t|e|] eqn:Et; cbn [res_bind]; [| |done].
    + eexists _, _. split; [done|]. split; [eapply opened_intro; [done..|]; rewrite (sm_oid _ _ Hsm2); lia|]. by eapply kept_same.
    + specialize (Hsm3 eq_refl). destruct (gate s s3) as (u & s4 & E4 & Hg);
        [done|by eapply kept_same|by rewrite (sm_next _ _ Hsm3), (sm_next _ _ Hsm2)|rewrite (sm_oid _ _ Hsm3), (sm_oid _ _ Hsm2); lia|].
      unfold mbindM at 1. rewrite E4. destruct u; [by eexists _, _; split|]. destruct Hg as (Hno & s5 & s6 & c & E5 & E6 & Hop).
      unfold force_rebootstrap, mbindM. rewrite E5, E6. by eexists _, _; split.
  - destruct (gate s s2) as (u & s4 & E4 & Hg); [done|done|by rewrite (sm_next _ _ Hsm2)|rewrite (sm_oid _ _ Hsm2); lia|].
    unfold mbindM at 1. rewrite E4. destruct u; [by eexists _, _; split|]. destruct Hg as (Hno & s5 & s6 & c & E5 & E6 & Hop).
    rewrite E5, E6. by eexists _, _; split.
Qed.
