(* ===== verification/CatalogRun.v ===== *)
(** * A storage engine for the catalog, and runs on it

    [MemStore] is an instance of [CatalogStorage]: a map of pages whose reads
    consume a script of outcomes.  It shows that the laws can hold and carries the
    concrete runs of [Catalog::open]. *)

From S2P Require Import Prelude Types LinePointer SlottedPage Tuple HeapPage Recovery Catalog CatalogSafe.
Local Open Scope Z_scope.
Local Open Scope rust_scope.

Record MemStore := mkMemStore {
  ms_pages : gmap Z Page;
  ms_next : PageId;
  ms_freelist : list PageId;
  ms_oid : Oid;
  ms_source : Z;
  ms_io : list bool;
}.

Definition ms_page (s : MemStore) (p : PageId) : Page := as_page (default [] (ms_pages s !! p)).
Definition ms_read (p : PageId) : M MemStore StorageError Page := fun s =>
  (if hd true (ms_io s) then Ok (ms_page s p) else Err Io,
   mkMemStore (ms_pages s) (ms_next s) (ms_freelist s) (ms_oid s) (ms_source s) (tl (ms_io s))).

#[export] Instance MemStore_storage : CatalogStorage MemStore := {|
  cs_pin := ms_read;
  cs_pin_mut := ms_read;
  cs_drop_mut p page s := mkMemStore (<[p := page]> (ms_pages s)) (ms_next s) (ms_freelist s) (ms_oid s) (ms_source s) (ms_io s);
  cs_new_page s :=
    match ms_freelist s with
    | p :: free => (Ok p, mkMemStore (ms_pages s) (ms_next s) free (ms_oid s) (ms_source s) (ms_io s))
    | [] => (Ok (ms_next s), mkMemStore (delete (ms_next s) (ms_pages s)) (ms_next s + 1) [] (ms_oid s) (ms_source s) (ms_io s))
    end;
  cs_next_page_id := ms_next;
  cs_trigger_checkpoint s := (Ok tt, mkMemStore (ms_pages s) (ms_next s) (ms_freelist s) (Z.max (ms_oid s) (ms_source s)) (ms_source s) (ms_io s));
  cs_next_oid := ms_oid;
  cs_set_next_oid_source c s := mkMemStore (ms_pages s) (ms_next s) (ms_freelist s) (ms_oid s) c (ms_io s);
  cs_page := ms_page;
  cs_free s := length (ms_freelist s);
|}.

Lemma as_page_zeros : as_page [] = zeros PAGE_SIZE.
Proof. vm_compute. reflexivity. Qed.

Lemma ms_page_eq s s' q : ms_pages s' = ms_pages s -> ms_page s' q = ms_page s q.
Proof. unfold ms_page. by intros ->. Qed.

#[local] Opaque as_page.

#[export] Instance MemStore_laws : CatalogStorageLaws MemStore.
Proof.
  refine {| cs_ok := fun s => ms_io s = [] |}.
  - intros s p. apply as_page_wf.
  - intros s p Hs. cbn [cs_pin MemStore_storage]. unfold ms_read. rewrite Hs. eexists. split; [reflexivity|]. split; [reflexivity|].
    split; [intros q; by apply ms_page_eq|by split].
  - intros s p Hs. cbn [cs_pin_mut MemStore_storage]. unfold ms_read. rewrite Hs. eexists. split; [reflexivity|]. split; [reflexivity|].
    split; [intros q; by apply ms_page_eq|by split].
  - intros s p page Hp Hs. split; [exact Hs|]. split; [|by split]. intros q. cbn [cs_page cs_drop_mut MemStore_storage]. unfold ms_page. cbn [ms_pages].
    destruct (decide (q = p)) as [->|Hq]; [rewrite lookup_insert_eq; by apply as_page_id|by rewrite lookup_insert_ne].
  - intros s Hs. cbn [cs_new_page cs_free cs_next_page_id cs_page cs_next_oid MemStore_storage]. destruct (ms_freelist s) as [|p free].
    + eexists _, _. split; [reflexivity|]. split; [exact Hs|]. split; [|split; [reflexivity|right; by repeat split]]. intros q. unfold ms_page. cbn [ms_pages].
      destruct (decide (q = ms_next s)) as [->|Hq]; [right; rewrite lookup_delete_eq; apply as_page_zeros|left; by rewrite lookup_delete_ne].
    + eexists _, _. split; [reflexivity|]. split; [exact Hs|]. split; [intros q; left; by apply ms_page_eq|]. split; [reflexivity|left; by split].
  - intros s Hs. eexists. split; [reflexivity|]. split; [exact Hs|]. split; [intros q; by apply ms_page_eq|]. split; [reflexivity|]. cbn. lia.
  - intros s c Hs. split; [exact Hs|]. intros q. by apply ms_page_eq.
Defined.
#[local] Transparent as_page.

(** A directory whose second system page is garbage. *)
Definition store0 : MemStore := mkMemStore {[2 := replicate (Z.to_nat PAGE_SIZE) 255]} 9 [8] 16500 16500 [].

Lemma catalog_open_sound_witness :
  cs_ok store0 /\ exists r s', Catalog_open store0 = (r, s') /\ open_outcome store0 r s'.
Proof. split; [reflexivity|]. apply catalog_open_sound. reflexivity. Defined.

(** The run repairs it. *)
Example store0_opens : match Catalog_open store0 with (Ok c, _) => c_bootstrapped c = true /\ c_oid_allocator c = 16500 | _ => False end.
Proof. vm_compute. split; reflexivity. Qed.

(** ** A user table whose rows cannot be read for a moment *)

(** The page of [pg_rust_relpages] with the row of a user table. *)
Definition user_tuple : list Z :=
  match encode_tuple (bootstrap_header 6 0) (column_types PG_RELPAGES)
          [Some (DInt8 16384); Some (DInt8 7); Some (DInt8 7); Some (DInt8 1)] with Ok b => b | _ => [] end.
Definition user_page : Page :=
  match add_tuple (sys_page PG_RELPAGES) user_tuple with Ok (_, page) => page | _ => [] end.

(** [pg_class] is garbage; the reads of [pg_attribute] and [pg_rust_relpages] in
    the self-heal gate fail, later reads succeed. *)
Definition store1 : MemStore :=
  mkMemStore {[1 := replicate (Z.to_nat PAGE_SIZE) 255; 6 := user_page]} 9 [] 16385 16385 [true; true; false; false].

(** C15: The self-heal gate skips a page it cannot read, so it does not protect
    a user table whose catalog rows are unreadable just then: with a damaged
    [pg_class] page and read errors on [pg_attribute] and [pg_rust_relpages]
    during the gate only, [Catalog::open] succeeds and has replaced the page that
    holds the user table's row by the empty bootstrap page. *)
Theorem catalog_gate_skips_unreadable :
  user_rows (cs_page store1) /\
  exists c s', Catalog_open store1 = (Ok c, s') /\ cs_page s' 6 = sys_page PG_RELPAGES /\ c_relpages c = [].
Proof.
  split.
  - unfold user_rows. apply Exists_cons_tl, Exists_cons_tl, Exists_cons_hd. exists 0, user_tuple.
    assert (Hd : exists h vs, decode_tuple user_tuple (column_types PG_RELPAGES) = Ok (h, Some (DInt8 16384) :: vs))
      by (eexists _, _; vm_compute; reflexivity).
    destruct Hd as (h & vs & Hd). exists h, 16384, vs. split; [vm_compute; split; [discriminate|reflexivity]|].
    split; [vm_compute; reflexivity|]. split; [exact Hd|]. vm_compute. discriminate.
  - assert (Hr : match Catalog_open store1 with (Ok c, s') => bool_decide (ms_page s' 6 = sys_page PG_RELPAGES) && (match c_relpages c with [] => true | _ => false end) | _ => false end = true)
      by (vm_compute; reflexivity).
    destruct (Catalog_open store1) as [[c|e|] s']; try discriminate. apply andb_true_iff in Hr as [Hp Hc]. apply bool_decide_eq_true in Hp.
    exists c, s'. split; [reflexivity|]. split; [exact Hp|]. destruct (c_relpages c); [reflexivity|discriminate].
Qed.
