(* ===== verification/Sql.v ===== *)
(** * The SQL parser

    Models [pg-engine/src/sql.rs] and the error type of [error.rs]: the AST, the
    tokenizer over the characters of the input and the recursive-descent parser
    over the token vector.  A [char] is its Unicode scalar value, a [String] the
    list of them.  [char::is_whitespace] is the White_Space table of the Unicode
    standard; for characters outside ASCII the property tables behind
    [is_alphabetic] and [is_numeric] are the parameter [Unicode]. *)

From stdpp Require Import strings.
From S2P Require Import Prelude Types LinePointer Tuple LockManager BtreeKey Catalog.
Local Open Scope Z_scope.
Local Open Scope rust_scope.

(** ** error.rs *)

Inductive EngineError :=
| EStorage (e : StorageError)
| EHeap (e : HeapError)
| ECatalog (e : CatalogError)
| ETableExists (name : list Z)
| ETableNotFound (name : list Z)
| ECatalogFull
| EInvalidArgument
| EInvalidPredicate
| ECorrupted
| EBTree (e : BTreeError)
| ELock (e : LockError)
| EUnsupported
| EIndexExists
| EIndexNotFound.

(** ** AST *)

Inductive LockClause := ForUpdate | ForShare.
Record ColumnSpec := mkColumnSpec { cspec_name : list Z; cspec_type : ColumnType }.
Inductive SelectCols := SelAll | SelCols (cols : list (list Z)).
Inductive CmpOp := OpEq | OpLt | OpGt.
Inductive Literal := LitInt (n : Z) | LitStr (s : list Z) | LitNull.
Record Filter := mkFilter { f_column : list Z; f_op : CmpOp; f_value : Literal }.
Record OrderBy := mkOrderBy { ob_column : list Z; ob_desc : bool }.

Inductive Statement :=
| SBegin
| SCommit
| SRollback
| SCreateTable (name : list Z) (columns : list ColumnSpec)
| SInsert (table : list Z) (columns : option (list (list Z))) (rows : list (list Literal))
| SSelect (columns : SelectCols) (table : list Z) (filter : option Filter) (order_by : option OrderBy)
    (limit : option Z) (lock : option LockClause)
| SUpdate (table : list Z) (sets : list (list Z * Literal)) (filter : option Filter)
| SDelete (table : list Z) (filter : option Filter)
| SCreateIndex (table : list Z) (column : list Z).

(** ** Tokens *)

Inductive Token :=
| TBegin | TCommit | TRollback | TCreate | TTable | TInsert | TInto | TValues | TSelect | TFrom | TWhere | TOrder | TBy
| TAsc | TDesc | TLimit | TFor | TShare | TUpdate | TSet | TDelete | TIndex | TOn | TNull
| TType (t : ColumnType)
| TInt (n : Z)
| TStr (s : list Z)
| TEq | TLt | TGt
| TComma | TSemicolon | TLParen | TRParen | TStar
| TIdent (s : list Z)
| TEof.

#[export] Instance Token_eq_dec : EqDecision Token.
Proof. solve_decision. Defined.

(** [std::mem::discriminant]. *)
Definition discriminant (t : Token) : nat :=
  match t with
  | TBegin => 0 | TCommit => 1 | TRollback => 2 | TCreate => 3 | TTable => 4 | TInsert => 5 | TInto => 6 | TValues => 7
  | TSelect => 8 | TFrom => 9 | TWhere => 10 | TOrder => 11 | TBy => 12 | TAsc => 13 | TDesc => 14 | TLimit => 15 | TFor => 16
  | TShare => 17 | TUpdate => 18 | TSet => 19 | TDelete => 20 | TIndex => 21 | TOn => 22 | TNull => 23 | TType _ => 24
  | TInt _ => 25 | TStr _ => 26 | TEq => 27 | TLt => 28 | TGt => 29 | TComma => 30 | TSemicolon => 31 | TLParen => 32
  | TRParen => 33 | TStar => 34 | TIdent _ => 35 | TEof => 36
  end.

(** ** Characters *)

(** The Unicode tables for characters above ASCII. *)
Class Unicode := { uni_alphabetic : Z -> bool; uni_numeric : Z -> bool }.

Definition is_ascii_digit (c : Z) : bool := between 48 c 57.
Definition is_ascii_upper (c : Z) : bool := between 65 c 90.
Definition is_ascii_lower (c : Z) : bool := between 97 c 122.

Definition is_whitespace (c : Z) : bool :=
  between 9 c 13 || (c =? 32) || (c =? 0x85) || (c =? 0xA0) || (c =? 0x1680) || between 0x2000 c 0x200A
  || (c =? 0x2028) || (c =? 0x2029) || (c =? 0x202F) || (c =? 0x205F) || (c =? 0x3000).

Definition is_alphabetic `{Unicode} (c : Z) : bool :=
  is_ascii_upper c || is_ascii_lower c || ((0x7F <? c) && uni_alphabetic c).

Definition is_alphanumeric `{Unicode} (c : Z) : bool :=
  is_alphabetic c || is_ascii_digit c || ((0x7F <? c) && uni_numeric c).

Definition ascii_upper (c : Z) : Z := if is_ascii_lower c then c - 32 else c.
Definition ascii_lower (c : Z) : Z := if is_ascii_upper c then c + 32 else c.
Definition to_ascii_uppercase (s : list Z) : list Z := ascii_upper <$> s.
Definition to_ascii_lowercase (s : list Z) : list Z := ascii_lower <$> s.

(** [str::parse::<i64>]: an optional sign, at least one digit, and a value in range. *)
Fixpoint digits_val (acc : Z) (s : list Z) : option Z :=
  match s with
  | [] => Some acc
  | c :: s => if is_ascii_digit c then digits_val (10 * acc + (c - 48)) s else None
  end.

Definition parse_i64 (s : list Z) : option Z :=
  let '(neg, ds) := match s with
                    | c :: ds => if c =? 45 then (true, ds) else if c =? 43 then (false, ds) else (false, s)
                    | [] => (false, [])
                    end in
  match ds with
  | [] => None
  | _ =>
      match digits_val 0 ds with
      | None => None
      | Some v => let v := if neg : bool then - v else v in
          if (- 2 ^ 63 <=? v) && (v <? 2 ^ 63) then Some v else None
      end
  end.

(** The arms of the keyword match. *)
Definition keywords : list (list Z * Token) :=
  [(str "BEGIN", TBegin); (str "COMMIT", TCommit); (str "ROLLBACK", TRollback); (str "CREATE", TCreate); (str "TABLE", TTable);
   (str "INSERT", TInsert); (str "INTO", TInto); (str "VALUES", TValues); (str "SELECT", TSelect); (str "FROM", TFrom);
   (str "WHERE", TWhere); (str "ORDER", TOrder); (str "BY", TBy); (str "ASC", TAsc); (str "DESC", TDesc); (str "LIMIT", TLimit);
   (str "FOR", TFor); (str "SHARE", TShare); (str "UPDATE", TUpdate); (str "SET", TSet); (str "DELETE", TDelete);
   (str "INDEX", TIndex); (str "ON", TOn); (str "NULL", TNull);
   (str "INT", TType Int4); (str "INT4", TType Int4); (str "INTEGER", TType Int4); (str "BIGINT", TType Int8); (str "INT8", TType Int8);
   (str "TEXT", TType Text); (str "VARCHAR", TType Text); (str "BYTEA", TType Bytea); (str "TIMESTAMPTZ", TType Timestamptz);
   (str "UUID", TType Uuid)].

Definition keyword (s : list Z) : option Token :=
  snd <$> List.find (fun kt => bool_decide (kt.1 = s)) keywords.

(** ** Tokenizer *)

Record Tokenizer := mkTokenizer { tk_chars : list Z; tk_peek : option Z }.

Definition chars_next (chars : list Z) : option Z * list Z :=
  match chars with [] => (None, []) | c :: cs => (Some c, cs) end.

Definition Tokenizer_new (input : list Z) : Tokenizer :=
  let '(peek, chars) := chars_next input in mkTokenizer chars peek.

Definition tk_bump (t : Tokenizer) : option Z * Tokenizer :=
  let '(peek, chars) := chars_next (tk_chars t) in (tk_peek t, mkTokenizer chars peek).

(** A bound on the rounds of a loop that consumes a character per round. *)
Definition tk_len (t : Tokenizer) : nat := S (S (length (tk_chars t))).

Fixpoint skip_loop (fuel : nat) (t : Tokenizer) : Tokenizer :=
  match fuel, tk_peek t with
  | S fuel, Some c => if is_whitespace c then skip_loop fuel (snd (tk_bump t)) else t
  | _, _ => t
  end.

Definition skip_whitespace (t : Tokenizer) : Tokenizer := skip_loop (tk_len t) t.

Fixpoint string_loop (fuel : nat) (s : list Z) (t : Tokenizer) : res EngineError (Token * Tokenizer) :=
  match fuel with
  | O => Panic
  | S fuel =>
      let '(c, t) := tk_bump t in
      match c with
      | None => Err EInvalidArgument
      | Some c =>
          if c =? 39 then
            if bool_decide (tk_peek t = Some 39) then string_loop fuel (s ++ [39]) (snd (tk_bump t))
            else Ok (TStr s, t)
          else string_loop fuel (s ++ [c]) t
      end
  end.

Definition string_literal (t : Tokenizer) : res EngineError (Token * Tokenizer) :=
  let t := snd (tk_bump t) in string_loop (tk_len t) [] t.

(** [while let Some(c) = self.peek { if p(c) { s.push(self.bump().unwrap()) } else { break } }]. *)
Fixpoint take_loop (p : Z -> bool) (fuel : nat) (s : list Z) (t : Tokenizer) : list Z * Tokenizer :=
  match fuel, tk_peek t with
  | S fuel, Some c => if p c then take_loop p fuel (s ++ [c]) (snd (tk_bump t)) else (s, t)
  | _, _ => (s, t)
  end.

Definition number_literal (t : Tokenizer) : res EngineError (Token * Tokenizer) :=
  let '(s, t) := if bool_decide (tk_peek t = Some 45) then ([45], snd (tk_bump t)) else ([], t) in
  let '(s, t) := take_loop is_ascii_digit (tk_len t) s t in
  match parse_i64 s with
  | Some n => Ok (TInt n, t)
  | None => Err EInvalidArgument
  end.

Section Tokenize.
Context `{Unicode}.

Definition identifier_or_keyword (t : Tokenizer) : Token * Tokenizer :=
  let '(s, t) := take_loop (fun c => is_alphanumeric c || (c =? 95)) (tk_len t) [] t in
  match keyword (to_ascii_uppercase s) with
  | Some tok => (tok, t)
  | None => (TIdent (to_ascii_lowercase s), t)
  end.

(** One round of [tokenize] at a character [c] that is not white space. *)
Definition next_token (c : Z) (t : Tokenizer) : res EngineError (Token * Tokenizer) :=
  let single tok := Ok (tok, snd (tk_bump t)) in
  if c =? 39 then string_literal t
  else if (c =? 45) || is_ascii_digit c then number_literal t
  else if c =? 61 then single TEq
  else if c =? 60 then single TLt
  else if c =? 62 then single TGt
  else if c =? 44 then single TComma
  else if c =? 59 then single TSemicolon
  else if c =? 40 then single TLParen
  else if c =? 41 then single TRParen
  else if c =? 42 then single TStar
  else if is_alphabetic c || (c =? 95) then Ok (identifier_or_keyword t)
  else Err EInvalidArgument.

Fixpoint tokenize_loop (fuel : nat) (tokens : list Token) (t : Tokenizer) : res EngineError (list Token) :=
  match fuel with
  | O => Panic
  | S fuel =>
      let t := skip_whitespace t in
      match tk_peek t with
      | None => Ok (tokens ++ [TEof])
      | Some c => let? '(tok, t) := next_token c t in tokenize_loop fuel (tokens ++ [tok]) t
      end
  end.

Definition tokenize (t : Tokenizer) : res EngineError (list Token) := tokenize_loop (tk_len t) [] t.

End Tokenize.

(** ** Parser *)

Record Parser := mkParser { ps_tokens : list Token; ps_pos : nat }.

Definition Parser_new (tokens : list Token) : Parser := mkParser tokens 0.

Abbreviation P := (M Parser EngineError).

Definition peek : P Token := fun p =>
  match ps_tokens p !! ps_pos p with Some t => (Ok t, p) | None => (Panic, p) end.

Definition bump : P Token := fun p =>
  match ps_tokens p !! ps_pos p with
  | Some t =>
      if (ps_pos p + 1 <? length (ps_tokens p))%nat then (Ok t, mkParser (ps_tokens p) (ps_pos p + 1)) else (Ok t, p)
  | None => (Panic, p)
  end.

Definition eat (expected : Token) : P unit :=
  let! t := peek in
  if (discriminant t =? discriminant expected)%nat then bump ;! mret tt else mthrow EInvalidArgument.

Definition eat_ident : P (list Z) :=
  let! t := bump in
  match t with TIdent s => mret s | _ => mthrow EInvalidArgument end.

Definition parse_literal : P Literal :=
  let! t := bump in
  match t with
  | TInt n => mret (LitInt n)
  | TStr s => mret (LitStr s)
  | TNull => mret LitNull
  | _ => mthrow EInvalidArgument
  end.

(** The end of a parenthesised list: [true] after a comma, [false] after the
    closing parenthesis. *)
Definition comma_or_rparen : P bool :=
  let! t := peek in
  match t with
  | TComma => bump ;! mret true
  | TRParen => bump ;! mret false
  | _ => mthrow EInvalidArgument
  end.

(** [loop { push(item()?); match peek { ',' => .., ')' => break, _ => error } }]. *)
Fixpoint paren_loop {A : Type} (item : P A) (fuel : nat) (acc : list A) : P (list A) :=
  match fuel with
  | O => mpanic
  | S fuel =>
      let! x := item in
      let! more := comma_or_rparen in
      if more : bool then paren_loop item fuel (acc ++ [x]) else mret (acc ++ [x])
  end.

(** A loop consumes at least one token per round. *)
Definition with_fuel {A : Type} (f : nat -> P A) : P A := fun p => f (S (length (ps_tokens p))) p.

Definition column_spec : P ColumnSpec :=
  let! col_name := eat_ident in
  let! t := bump in
  match t with TType t => mret (mkColumnSpec col_name t) | _ => mthrow EInvalidArgument end.

Definition parse_create_table : P Statement :=
  bump ;!
  let! name := eat_ident in
  eat TLParen ;!
  let! columns := with_fuel (fun n => paren_loop column_spec n []) in
  eat TEof ;!
  mret (SCreateTable name columns).

Definition parse_create_index : P Statement :=
  bump ;!
  eat TOn ;!
  let! table := eat_ident in
  eat TLParen ;!
  let! column := eat_ident in
  eat TRParen ;!
  eat TEof ;!
  mret (SCreateIndex table column).

Definition parse_create : P Statement :=
  bump ;!
  let! t := peek in
  match t with
  | TTable => parse_create_table
  | TIndex => parse_create_index
  | _ => mthrow EInvalidArgument
  end.

Fixpoint rows_loop (fuel : nat) (rows : list (list Literal)) : P (list (list Literal)) :=
  match fuel with
  | O => mpanic
  | S fuel =>
      eat TLParen ;!
      let! row := with_fuel (fun n => paren_loop parse_literal n []) in
      let! t := peek in
      match t with
      | TComma => bump ;! rows_loop fuel (rows ++ [row])
      | TEof => mret (rows ++ [row])
      | _ => mthrow EInvalidArgument
      end
  end.

Definition insert_columns : P (option (list (list Z))) :=
  let! t := peek in
  match t with
  | TLParen => bump ;! let! cols := with_fuel (fun n => paren_loop eat_ident n []) in mret (Some cols)
  | _ => mret None
  end.

Definition parse_insert : P Statement :=
  bump ;!
  eat TInto ;!
  let! table := eat_ident in
  let! columns := insert_columns in
  eat TValues ;!
  let! rows := with_fuel (fun n => rows_loop n []) in
  eat TEof ;!
  mret (SInsert table columns rows).

Definition parse_optional_lock_clause : P (option LockClause) :=
  let! t := peek in
  match t with
  | TFor =>
      bump ;!
      let! t := bump in
      match t with
      | TUpdate => mret (Some ForUpdate)
      | TShare => mret (Some ForShare)
      | _ => mthrow EInvalidArgument
      end
  | _ => mret None
  end.

(** [while matches!(self.peek(), Token::Comma) { bump; push(eat_ident()?) }]. *)
Fixpoint cols_loop (fuel : nat) (cols : list (list Z)) : P (list (list Z)) :=
  match fuel with
  | O => mpanic
  | S fuel =>
      let! t := peek in
      match t with
      | TComma => bump ;! let! c := eat_ident in cols_loop fuel (cols ++ [c])
      | _ => mret cols
      end
  end.

Definition parse_select_cols : P SelectCols :=
  let! t := peek in
  match t with
  | TStar => bump ;! mret SelAll
  | TIdent _ =>
      let! c := eat_ident in
      let! cols := with_fuel (fun n => cols_loop n [c]) in
      mret (SelCols cols)
  | _ => mthrow EInvalidArgument
  end.

Definition parse_optional_filter : P (option Filter) :=
  let! t := peek in
  match t with
  | TWhere =>
      bump ;!
      let! column := eat_ident in
      let! t := bump in
      let! op := match t with
                 | TEq => mret OpEq
                 | TLt => mret OpLt
                 | TGt => mret OpGt
                 | _ => mthrow EInvalidArgument
                 end in
      let! value := parse_literal in
      mret (Some (mkFilter column op value))
  | _ => mret None
  end.

Definition parse_optional_order_by : P (option OrderBy) :=
  let! t := peek in
  match t with
  | TOrder =>
      bump ;!
      eat TBy ;!
      let! column := eat_ident in
      let! t := peek in
      let! desc := match t with
                   | TAsc => bump ;! mret false
                   | TDesc => bump ;! mret true
                   | _ => mret false
                   end in
      mret (Some (mkOrderBy column desc))
  | _ => mret None
  end.

(** [n as usize] is exact for [n >= 0]. *)
Definition parse_optional_limit : P (option Z) :=
  let! t := peek in
  match t with
  | TLimit =>
      bump ;!
      let! t := bump in
      match t with
      | TInt n => if n >=? 0 then mret (Some n) else mthrow EInvalidArgument
      | _ => mthrow EInvalidArgument
      end
  | _ => mret None
  end.

Definition parse_select : P Statement :=
  bump ;!
  let! columns := parse_select_cols in
  eat TFrom ;!
  let! table := eat_ident in
  let! filter := parse_optional_filter in
  let! order_by := parse_optional_order_by in
  let! limit := parse_optional_limit in
  let! lock := parse_optional_lock_clause in
  eat TEof ;!
  mret (SSelect columns table filter order_by limit lock).

Fixpoint sets_loop (fuel : nat) (sets : list (list Z * Literal)) : P (list (list Z * Literal)) :=
  match fuel with
  | O => mpanic
  | S fuel =>
      let! col := eat_ident in
      eat TEq ;!
      let! val := parse_literal in
      let! t := peek in
      match t with
      | TComma => bump ;! sets_loop fuel (sets ++ [(col, val)])
      | _ => mret (sets ++ [(col, val)])
      end
  end.

Definition parse_update : P Statement :=
  bump ;!
  let! table := eat_ident in
  eat TSet ;!
  let! sets := with_fuel (fun n => sets_loop n []) in
  let! filter := parse_optional_filter in
  eat TEof ;!
  mret (SUpdate table sets filter).

Definition parse_delete : P Statement :=
  bump ;!
  eat TFrom ;!
  let! table := eat_ident in
  let! filter := parse_optional_filter in
  eat TEof ;!
  mret (SDelete table filter).

Definition parse_statement : P Statement :=
  let! t := peek in
  match t with
  | TBegin => bump ;! eat TEof ;! mret SBegin
  | TCommit => bump ;! eat TEof ;! mret SCommit
  | TRollback => bump ;! eat TEof ;! mret SRollback
  | TCreate => parse_create
  | TInsert => parse_insert
  | TSelect => parse_select
  | TUpdate => parse_update
  | TDelete => parse_delete
  | _ => mthrow EInvalidArgument
  end.

(** [tokens.remove(tokens.len() - 2)] when that token is a semicolon. *)
Definition strip_semicolon (tokens : list Token) : list Token :=
  let n := length tokens in
  if (2 <=? n)%nat && bool_decide (tokens !! (n - 2)%nat = Some TSemicolon)
  then take (n - 2) tokens ++ drop (n - 1) tokens else tokens.

Definition parse `{Unicode} (sql : list Z) : res EngineError Statement :=
  let? tokens := tokenize (Tokenizer_new sql) in
  fst (parse_statement (Parser_new (strip_semicolon tokens))).
