(* ===== verification/SqlSafe.v ===== *)
(** * The grammar the SQL parser accepts

    The statements as an inductive relation between token sequences and the AST,
    and the proof that the recursive-descent parser decides it: it always
    returns, accepts exactly the sentences of the grammar, and answers with the
    statement the sentence stands for. *)

From S2P Require Import Prelude Types LinePointer Tuple Catalog Sql.
Local Open Scope Z_scope.
Local Open Scope rust_scope.

(** ** Grammar *)

Definition lit_tok (l : Literal) : Token := match l with LitInt n => TInt n | LitStr s => TStr s | LitNull => TNull end.
Definition op_tok (o : CmpOp) : Token := match o with OpEq => TEq | OpLt => TLt | OpGt => TGt end.

(** Items separated by commas. *)
Fixpoint sep {A : Type} (f : A -> list Token) (l : list A) : list Token :=
  match l with
  | [] => []
  | x :: l => f x ++ match l with [] => [] | _ => TComma :: sep f l end
  end.

Definition ident (s : list Z) : list Token := [TIdent s].
Definition column (c : ColumnSpec) : list Token := [TIdent (cspec_name c); TType (cspec_type c)].
Definition row (l : list Literal) : list Token := TLParen :: sep (fun x => [lit_tok x]) l ++ [TRParen].
Definition set_item (cv : list Z * Literal) : list Token := [TIdent cv.1; TEq; lit_tok cv.2].

Inductive g_filter : list Token -> option Filter -> Prop :=
| g_no_filter : g_filter [] None
| g_where c op v : g_filter [TWhere; TIdent c; op_tok op; lit_tok v] (Some (mkFilter c op v)).

Inductive g_order : list Token -> option OrderBy -> Prop :=
| g_no_order : g_order [] None
| g_default c : g_order [TOrder; TBy; TIdent c] (Some (mkOrderBy c false))
| g_asc c : g_order [TOrder; TBy; TIdent c; TAsc] (Some (mkOrderBy c false))
| g_desc c : g_order [TOrder; TBy; TIdent c; TDesc] (Some (mkOrderBy c true)).

Inductive g_limit : list Token -> option Z -> Prop :=
| g_no_limit : g_limit [] None
| g_limit_n n : 0 <= n -> g_limit [TLimit; TInt n] (Some n).

Inductive g_lock : list Token -> option LockClause -> Prop :=
| g_no_lock : g_lock [] None
| g_for_update : g_lock [TFor; TUpdate] (Some ForUpdate)
| g_for_share : g_lock [TFor; TShare] (Some ForShare).

Inductive g_cols : list Token -> SelectCols -> Prop :=
| g_star : g_cols [TStar] SelAll
| g_names cols : cols <> [] -> g_cols (sep ident cols) (SelCols cols).

Inductive g_into : list Token -> option (list (list Z)) -> Prop :=
| g_all : g_into [] None
| g_into_cols cols : cols <> [] -> g_into (TLParen :: sep ident cols ++ [TRParen]) (Some cols).

Inductive g_stmt : list Token -> Statement -> Prop :=
| g_begin : g_stmt [TBegin] SBegin
| g_commit : g_stmt [TCommit] SCommit
| g_rollback : g_stmt [TRollback] SRollback
| g_create_table name columns : columns <> [] ->
    g_stmt (TCreate :: TTable :: TIdent name :: TLParen :: sep column columns ++ [TRParen]) (SCreateTable name columns)
| g_create_index table col : g_stmt [TCreate; TIndex; TOn; TIdent table; TLParen; TIdent col; TRParen] (SCreateIndex table col)
| g_insert table ts columns rows : g_into ts columns -> rows <> [] -> Forall (fun r => r <> []) rows ->
    g_stmt (TInsert :: TInto :: TIdent table :: ts ++ TValues :: sep row rows) (SInsert table columns rows)
| g_select tc columns table tf filter to order_by tl limit tk lock :
    g_cols tc columns -> g_filter tf filter -> g_order to order_by -> g_limit tl limit -> g_lock tk lock ->
    g_stmt (TSelect :: tc ++ TFrom :: TIdent table :: tf ++ to ++ tl ++ tk) (SSelect columns table filter order_by limit lock)
| g_update table sets ts filter : sets <> [] -> g_filter ts filter ->
    g_stmt (TUpdate :: TIdent table :: TSet :: sep set_item sets ++ ts) (SUpdate table sets filter)
| g_delete table ts filter : g_filter ts filter ->
    g_stmt (TDelete :: TFrom :: TIdent table :: ts) (SDelete table filter).

(** ** The parser as a consumer of the tokens before the end *)

(** [r] is what is left before [Eof]. *)
Definition at_ (r : list Token) (p : Parser) : Prop :=
  drop (ps_pos p) (ps_tokens p) = r ++ [TEof] /\ TEof ∉ r.

Lemma at_lookup r p : at_ r p -> ps_tokens p !! ps_pos p = Some (hd TEof r).
Proof.
  intros [Hd _]. pose proof (lookup_drop (ps_tokens p) (ps_pos p) 0) as H. rewrite Hd, Nat.add_0_r in H. rewrite <-H.
  by destruct r.
Qed.

Lemma at_length r p : at_ r p -> length (ps_tokens p) = (ps_pos p + length r + 1)%nat.
Proof.
  intros [Hd _]. apply (f_equal length) in Hd. rewrite length_drop, length_app in Hd. simpl in Hd. lia.
Qed.

Lemma peek_at r p : at_ r p -> peek p = (Ok (hd TEof r), p).
Proof. intros Hr. unfold peek. by rewrite (at_lookup r p Hr). Qed.

Lemma bump_at r p : at_ r p -> exists p', bump p = (Ok (hd TEof r), p') /\ at_ (tl r) p'.
Proof.
  intros Hr. pose proof (at_length _ _ Hr) as Hl. unfold bump. rewrite (at_lookup r p Hr).
  destruct r as [|t r]; simpl in Hl.
  - rewrite (proj2 (Nat.ltb_ge _ _)) by lia. by exists p.
  - rewrite (proj2 (Nat.ltb_lt _ _)) by lia. eexists. split; [done|]. destruct Hr as [Hd Ht]. split; [|set_solver].
    cbn [ps_pos ps_tokens tl]. rewrite <-drop_drop, Hd. done.
Qed.

(** From [r], [m] returns a value for a prefix in [G], or the one parse error. *)
Definition safe {A} (m : P A) (r : list Token) (G : list Token -> A -> Prop) : Prop := forall p, at_ r p ->
  exists o p', m p = (o, p') /\
    match o with
    | Ok a => exists ts r', r = ts ++ r' /\ at_ r' p' /\ G ts a
    | Err e => e = EInvalidArgument
    | Panic => False
    end.

(** From [r], [m] returns [a] and leaves [r']. *)
Definition runs {A} (m : P A) (r : list Token) (a : A) (r' : list Token) : Prop := forall p, at_ r p ->
  exists p', m p = (Ok a, p') /\ at_ r' p'.

Lemma safe_ret {A} (a : A) r (G : list Token -> A -> Prop) : G [] a -> safe (mret a) r G.
Proof. intros HG p Hp. exists (Ok a), p. split; [done|]. by exists [], r. Qed.

Lemma safe_throw {A} r (G : list Token -> A -> Prop) : safe (mthrow EInvalidArgument) r G.
Proof. intros p Hp. by exists (Err EInvalidArgument), p. Qed.

Lemma safe_weaken {A} (m : P A) r (G G' : list Token -> A -> Prop) : safe m r G -> (forall ts a, G ts a -> G' ts a) -> safe m r G'.
Proof.
  intros Hm HG p Hp. destruct (Hm p Hp) as (o & p' & E & Ho). exists o, p'. split; [done|]. destruct o; [|done..].
  destruct Ho as (ts & r' & -> & Hat & Hg). exists ts, r'. by auto.
Qed.

Lemma safe_bind {A B} (m : P A) (k : A -> P B) r (G : list Token -> A -> Prop) (H : list Token -> B -> Prop) :
  safe m r G -> (forall a ts r', r = ts ++ r' -> G ts a -> safe (k a) r' (fun ts' b => H (ts ++ ts') b)) -> safe (mbindM m k) r H.
Proof.
  intros Hm Hk p Hp. unfold mbindM. destruct (Hm p Hp) as (o & p1 & -> & Ho). destruct o as [a|e|]; [|by exists (Err e), p1|done].
  destruct Ho as (ts & r1 & -> & Hat & Hg). destruct (Hk a ts r1 eq_refl Hg p1 Hat) as (o & p2 & E & Ho). exists o, p2. split; [done|].
  destruct o; [|done..]. destruct Ho as (ts' & r2 & -> & Hat2 & HH). exists (ts ++ ts'), r2. by rewrite app_assoc.
Qed.

Lemma safe_peek {B} (k : Token -> P B) r (H : list Token -> B -> Prop) : safe (k (hd TEof r)) r H -> safe (mbindM peek k) r H.
Proof. intros Hk p Hp. unfold mbindM. rewrite (peek_at r p Hp). by apply Hk. Qed.

(** A [bump] of a token that is there. *)
Lemma safe_bump {B} t (k : Token -> P B) r (H : list Token -> B -> Prop) :
  safe (k t) r (fun ts b => H (t :: ts) b) -> safe (mbindM bump k) (t :: r) H.
Proof.
  intros Hk p Hp. unfold mbindM. destruct (bump_at _ _ Hp) as (p1 & -> & Hat). cbn [hd tl] in *.
  destruct (Hk p1 Hat) as (o & p2 & E & Ho). exists o, p2. split; [done|]. destruct o; [|done..].
  destruct Ho as (ts & r' & -> & Hat2 & HH). by exists (t :: ts), r'.
Qed.

Lemma safe_bump_nil {B} (k : Token -> P B) (H : list Token -> B -> Prop) : safe (k TEof) [] H -> safe (mbindM bump k) [] H.
Proof. intros Hk p Hp. unfold mbindM. destruct (bump_at _ _ Hp) as (p1 & -> & Hat). by apply Hk. Qed.

Lemma runs_ret {A} (a : A) r : runs (mret a) r a r.
Proof. intros p Hp. by exists p. Qed.

Lemma runs_bind {A B} (m : P A) (k : A -> P B) r a r1 b r2 : runs m r a r1 -> runs (k a) r1 b r2 -> runs (mbindM m k) r b r2.
Proof. intros Hm Hk p Hp. unfold mbindM. destruct (Hm p Hp) as (p1 & -> & Hat). by apply Hk. Qed.

Lemma runs_peek {B} (k : Token -> P B) r b r' : runs (k (hd TEof r)) r b r' -> runs (mbindM peek k) r b r'.
Proof. intros Hk p Hp. unfold mbindM. rewrite (peek_at r p Hp). by apply Hk. Qed.

Lemma runs_bump {B} t (k : Token -> P B) r b r' : runs (k t) r b r' -> runs (mbindM bump k) (t :: r) b r'.
Proof. intros Hk p Hp. unfold mbindM. destruct (bump_at _ _ Hp) as (p1 & -> & Hat). by apply Hk. Qed.

Lemma runs_fuel {A} (f : nat -> P A) r a r' : (forall n, (length r < n)%nat -> runs (f n) r a r') -> runs (with_fuel f) r a r'.
Proof. intros Hf p Hp. unfold with_fuel. apply Hf; [|done]. rewrite (at_length r p Hp). lia. Qed.

Lemma safe_fuel {A} (f : nat -> P A) r G : (forall n, (length r < n)%nat -> safe (f n) r G) -> safe (with_fuel f) r G.
Proof. intros Hf p Hp. unfold with_fuel. apply Hf; [|done]. rewrite (at_length r p Hp). lia. Qed.

(** ** Single tokens *)

(** A variant without data, which [eat] can name. *)
Definition unit_tok (t : Token) : bool := match t with TType _ | TInt _ | TStr _ | TIdent _ => false | _ => true end.

Lemma discriminant_unit t x : unit_tok t = true -> discriminant x = discriminant t -> x = t.
Proof. by destruct t; intros Ht; destruct x. Qed.

Lemma safe_eat {B} t (k : P B) r (H : list Token -> B -> Prop) : unit_tok t = true -> t <> TEof ->
  (forall r', r = t :: r' -> safe k r' (fun ts b => H (t :: ts) b)) -> safe (eat t ;! k) r H.
Proof.
  intros Hu Ht Hk. eapply (safe_bind _ _ r (fun ts _ => ts = [t])).
  - unfold eat. apply safe_peek. destruct (_ =? _)%nat eqn:E; [|apply safe_throw]. apply Nat.eqb_eq in E. apply discriminant_unit in E; [|done].
    destruct r as [|x r]; cbn [hd] in E; [done|]. subst x. apply safe_bump, safe_ret. done.
  - intros [] ts r' -> ->. by apply Hk.
Qed.

(** [eat(Eof)] succeeds at the end only. *)
Lemma safe_eof {A} (a : A) r (H : list Token -> A -> Prop) : (r = [] -> H [] a) -> safe (eat TEof ;! mret a) r H.
Proof.
  intros Hk p Hp. unfold eat, mbindM. rewrite (peek_at r p Hp). destruct (_ =? _)%nat eqn:E; [|by eexists _, _; split].
  apply Nat.eqb_eq in E. apply discriminant_unit in E; [|done].
  destruct r as [|x r]; cbn [hd] in E; [|destruct Hp as [_ Hp]; set_solver].
  destruct (bump_at [] p Hp) as (p1 & -> & Hat). eexists _, _. split; [done|]. exists [], []. by auto.
Qed.

Lemma runs_eat {B} t (k : P B) r b r' : runs k r b r' -> runs (eat t ;! k) (t :: r) b r'.
Proof.
  intros Hk. eapply (runs_bind _ _ (t :: r) tt r); [|done]. unfold eat. apply runs_peek. cbn [hd]. rewrite Nat.eqb_refl. apply runs_bump, runs_ret.
Qed.

Lemma runs_eof {A} (a : A) : runs (eat TEof ;! mret a) [] a [].
Proof.
  intros p Hp. unfold eat, mbindM. rewrite (peek_at [] p Hp). cbn [hd]. rewrite Nat.eqb_refl. destruct (bump_at [] p Hp) as (p1 & -> & Hat). by exists p1.
Qed.

Lemma safe_ident r : safe eat_ident r (fun ts s => ts = [TIdent s]).
Proof.
  unfold eat_ident. destruct r as [|t r]; [apply safe_bump_nil, safe_throw|]. apply safe_bump.
  destruct t; try apply safe_throw. by apply safe_ret.
Qed.

Lemma runs_ident s r : runs eat_ident (TIdent s :: r) s r.
Proof. apply runs_bump, runs_ret. Qed.

Lemma safe_literal r : safe parse_literal r (fun ts l => ts = [lit_tok l]).
Proof.
  unfold parse_literal. destruct r as [|t r]; [apply safe_bump_nil, safe_throw|]. apply safe_bump.
  destruct t; try apply safe_throw; by apply safe_ret.
Qed.

Lemma runs_literal l r : runs parse_literal (lit_tok l :: r) l r.
Proof. destruct l; apply runs_bump, runs_ret. Qed.

Lemma safe_column r : safe column_spec r (fun ts c => ts = column c).
Proof.
  unfold column_spec. eapply safe_bind; [apply safe_ident|]. intros s ts r' -> ->.
  destruct r' as [|t r']; [apply safe_bump_nil, safe_throw|]. apply safe_bump. destruct t; try apply safe_throw. by apply safe_ret.
Qed.

Lemma runs_column c r : runs column_spec (column c ++ r) c r.
Proof. destruct c as [s t]. eapply runs_bind; [apply runs_ident|]. apply runs_bump, runs_ret. Qed.

(** ** Lists *)

Lemma sep_cons {A} (f : A -> list Token) x y l : sep f (x :: y :: l) = f x ++ TComma :: sep f (y :: l).
Proof. done. Qed.

Section Parens.
Context {A : Type} (item : P A) (f : A -> list Token).
Hypothesis item_safe : forall r, safe item r (fun ts x => ts = f x).
Hypothesis item_runs : forall x r, runs item (f x ++ r) x r.

Lemma safe_parens : forall n r acc, (length r < n)%nat ->
  safe (paren_loop item n acc) r (fun ts l => exists l', l' <> [] /\ l = acc ++ l' /\ ts = sep f l' ++ [TRParen]).
Proof.
  induction n as [|n IH]; intros r acc Hn; [lia|]. cbn [paren_loop]. eapply safe_bind; [apply item_safe|]. intros x ts r' -> ->.
  eapply (safe_bind _ _ r' (fun ts more => ts = [if more : bool then TComma else TRParen])).
  - unfold comma_or_rparen. apply safe_peek. destruct r' as [|t r']; [apply safe_throw|]. cbn [hd].
    destruct t; try apply safe_throw; by apply safe_bump, safe_ret.
  - intros [] ts r2 -> ->.
    + eapply safe_weaken; [apply IH|].
      * rewrite !length_app in Hn. simpl in Hn. lia.
      * intros ts l (l' & Hl' & -> & ->). exists (x :: l'). split; [done|]. split; [by rewrite <-app_assoc|].
        destruct l' as [|y l']; [done|]. rewrite sep_cons. by rewrite <-!app_assoc.
    + apply safe_ret. exists [x]. split; [done|]. split; [done|]. cbn [sep]. by rewrite !app_nil_r.
Qed.

Lemma runs_parens : forall l n acc r, l <> [] -> (length (sep f l) < n)%nat ->
  runs (paren_loop item n acc) (sep f l ++ TRParen :: r) (acc ++ l) r.
Proof.
  induction l as [|x l IH]; intros n acc r Hl Hn; [done|]. destruct n as [|n]; [lia|]. cbn [paren_loop].
  destruct l as [|y l].
  - cbn [sep]. rewrite app_nil_r. eapply runs_bind; [apply item_runs|]. unfold comma_or_rparen. eapply (runs_bind _ _ _ false r).
    + apply runs_peek. cbn [hd]. apply runs_bump, runs_ret.
    + apply runs_ret.
  - rewrite sep_cons, length_app in Hn. cbn [length] in Hn. rewrite sep_cons, <-app_assoc. eapply runs_bind; [apply item_runs|].
    eapply (runs_bind _ _ _ true (sep f (y :: l) ++ TRParen :: r)).
    + unfold comma_or_rparen. apply runs_peek. cbn [hd app]. apply runs_bump, runs_ret.
    + replace (acc ++ x :: y :: l) with ((acc ++ [x]) ++ y :: l) by (by rewrite <-app_assoc). apply IH; [done|lia].
Qed.
End Parens.

Lemma safe_row r : safe (with_fuel (fun n => paren_loop parse_literal n [])) r (fun ts l => l <> [] /\ ts = sep (fun x => [lit_tok x]) l ++ [TRParen]).
Proof.
  apply safe_fuel. intros n Hn. eapply safe_weaken; [by apply (safe_parens parse_literal (fun x => [lit_tok x]) safe_literal)|].
  intros ts l (l' & Hl & -> & ->). done.
Qed.

Lemma runs_row l r : l <> [] -> runs (with_fuel (fun n => paren_loop parse_literal n [])) (sep (fun x => [lit_tok x]) l ++ TRParen :: r) l r.
Proof.
  intros Hl. apply runs_fuel. intros n Hn. apply (runs_parens parse_literal (fun x => [lit_tok x]) runs_literal l n []); [done|].
  rewrite length_app in Hn. simpl in Hn. lia.
Qed.

Lemma safe_rows : forall n r acc, (length r < n)%nat ->
  safe (rows_loop n acc) r (fun ts l => exists l', l' <> [] /\ Forall (fun r => r <> []) l' /\ l = acc ++ l' /\ ts = sep row l').
Proof.
  induction n as [|n IH]; intros r acc Hn; [lia|]. cbn [rows_loop]. apply safe_eat; [done..|]. intros r' ->.
  eapply safe_bind; [apply safe_row|]. intros l ts r2 -> [Hl ->]. apply safe_peek. destruct r2 as [|t r2]; cbn [hd].
  - apply safe_ret. exists [l]. split; [done|]. split; [by constructor|]. split; [done|]. cbn [sep row]. by rewrite !app_nil_r.
  - destruct t; try apply safe_throw.
    + apply safe_bump. eapply safe_weaken; [apply IH|].
      * simpl in Hn. rewrite !length_app in Hn. simpl in Hn. lia.
      * intros ts ls (l' & Hl' & Hf & -> & ->). exists (l :: l'). split; [done|]. split; [by constructor|]. split; [by rewrite <-app_assoc|].
        destruct l' as [|y l']; [done|]. rewrite sep_cons. unfold row. simpl. by rewrite <-!app_assoc.
    + apply safe_ret. exists [l]. split; [done|]. split; [by constructor|]. split; [done|]. cbn [sep row]. by rewrite !app_nil_r.
Qed.

Lemma runs_rows : forall l n acc, l <> [] -> Forall (fun r => r <> []) l -> (length (sep row l) < n)%nat ->
  runs (rows_loop n acc) (sep row l) (acc ++ l) [].
Proof.
  induction l as [|x l IH]; intros n acc Hl Hf Hn; [done|]. destruct n as [|n]; [lia|]. cbn [rows_loop]. apply Forall_cons in Hf as [Hx Hf].
  destruct l as [|y l].
  - cbn [sep]. rewrite app_nil_r. unfold row. cbn [app]. apply runs_eat. eapply runs_bind; [by apply runs_row|]. apply runs_peek. apply runs_ret.
  - rewrite sep_cons, length_app in Hn. cbn [length] in Hn. rewrite sep_cons. unfold row at 1. cbn [app]. rewrite <-app_assoc. cbn [app]. apply runs_eat.
    eapply runs_bind; [by apply runs_row|]. apply runs_peek. cbn [hd]. apply runs_bump.
    replace (acc ++ x :: y :: l) with ((acc ++ [x]) ++ y :: l) by (by rewrite <-app_assoc). apply IH; [done|done|lia].
Qed.

(** [cols_loop] starts after the first name. *)
Lemma safe_cols : forall n r acc, (length r < n)%nat ->
  safe (cols_loop n acc) r (fun ts l => exists l', l = acc ++ l' /\ forall c, TIdent c :: ts = sep ident (c :: l')).
Proof.
  induction n as [|n IH]; intros r acc Hn; [lia|]. cbn [cols_loop]. apply safe_peek.
  destruct (decide (hd TEof r = TComma)) as [Ht|Ht].
  - destruct r as [|t r]; [done|]. cbn [hd] in Ht. subst t. cbn [hd]. apply safe_bump. eapply safe_bind; [apply safe_ident|].
    intros c ts r' -> ->. eapply safe_weaken; [apply IH; simpl in Hn; lia|]. intros ts l (l' & -> & He). exists (c :: l').
    split; [by rewrite <-app_assoc|]. intros d. rewrite sep_cons, <-He. done.
  - assert (Hr : safe (mret acc) r (fun ts l => exists l', l = acc ++ l' /\ forall c, TIdent c :: ts = sep ident (c :: l')))
      by (apply safe_ret; exists []; split; [by rewrite app_nil_r|done]).
    by destruct (hd TEof r).
Qed.

Lemma runs_cols : forall l c n acc r, hd TEof r <> TComma -> (length (sep ident (c :: l)) <= n)%nat ->
  forall ts, sep ident (c :: l) = TIdent c :: ts -> runs (cols_loop n acc) (ts ++ r) (acc ++ l) r.
Proof.
  induction l as [|d l IH]; intros c n acc r Hr Hn ts Hts; (destruct n as [|n]; [simpl in Hn; lia|]); cbn [cols_loop]; apply runs_peek.
  - injection Hts as <-. cbn [app]. rewrite app_nil_r. destruct (hd TEof r); try done; apply runs_ret.
  - rewrite sep_cons in Hts, Hn. cbn [app ident] in Hts. injection Hts as <-. cbn [hd app]. apply runs_bump. cbn [app length ident] in Hn.
    destruct (sep ident (d :: l)) as [|t ts] eqn:E; [by destruct l|]. assert (t = TIdent d) as -> by (destruct l; by injection E).
    cbn [app]. eapply runs_bind; [apply runs_ident|]. replace (acc ++ d :: l) with ((acc ++ [d]) ++ l) by (by rewrite <-app_assoc).
    eapply (IH d); [done| |done]. rewrite E. simpl in *. lia.
Qed.

Lemma safe_sets : forall n r acc, (length r < n)%nat ->
  safe (sets_loop n acc) r (fun ts l => exists l', l' <> [] /\ l = acc ++ l' /\ ts = sep set_item l').
Proof.
  induction n as [|n IH]; intros r acc Hn; [lia|]. cbn [sets_loop]. eapply safe_bind; [apply safe_ident|]. intros c ts r1 -> ->.
  apply safe_eat; [done..|]. intros r2 ->. eapply safe_bind; [apply safe_literal|]. intros v ts r3 -> ->. apply safe_peek.
  assert (Hr : safe (mret (acc ++ [(c, v)])) r3 (fun ts l => exists l', l' <> [] /\ l = acc ++ l' /\ [TIdent c] ++ TEq :: [lit_tok v] ++ ts = sep set_item l'))
    by (apply safe_ret; by exists [(c, v)]).
  destruct (decide (hd TEof r3 = TComma)) as [Ht|Ht].
  - destruct r3 as [|t r3]; [done|]. cbn [hd] in Ht. subst t. cbn [hd]. apply safe_bump. eapply safe_weaken; [apply IH; simpl in Hn; lia|].
    intros ts l (l' & Hl' & -> & ->). exists ((c, v) :: l'). split; [done|]. split; [by rewrite <-app_assoc|]. by destruct l'.
  - by destruct (hd TEof r3).
Qed.

Lemma runs_sets : forall l n acc r, l <> [] -> hd TEof r <> TComma -> (length (sep set_item l) < n)%nat ->
  runs (sets_loop n acc) (sep set_item l ++ r) (acc ++ l) r.
Proof.
  induction l as [|[c v] l IH]; intros n acc r Hl Hr Hn; [done|]. destruct n as [|n]; [lia|]. cbn [sets_loop].
  destruct l as [|y l].
  - cbn [sep set_item app fst snd]. eapply runs_bind; [apply runs_ident|]. apply runs_eat. eapply runs_bind; [apply runs_literal|]. apply runs_peek.
    destruct (hd TEof r); try done; apply runs_ret.
  - rewrite sep_cons, length_app in Hn. cbn [length] in Hn. rewrite sep_cons, <-app_assoc. cbn [set_item app fst snd].
    eapply runs_bind; [apply runs_ident|]. apply runs_eat. eapply runs_bind; [apply runs_literal|]. apply runs_peek. cbn [hd]. apply runs_bump.
    replace (acc ++ (c, v) :: y :: l) with ((acc ++ [(c, v)]) ++ y :: l) by (by rewrite <-app_assoc). apply IH; [done|done|lia].
Qed.

(** ** Optional clauses *)

Lemma safe_filter r : safe parse_optional_filter r g_filter.
Proof.
  unfold parse_optional_filter. apply safe_peek. pose proof (safe_ret None r g_filter g_no_filter) as Hn.
  destruct r as [|t r]; [done|]. cbn [hd]. destruct t; try done. apply safe_bump. eapply safe_bind; [apply safe_ident|].
  intros c ts r' -> ->. destruct r' as [|t r']; [apply safe_bump_nil, (safe_bind _ _ _ (fun _ _ => False)); [apply safe_throw|done]|].
  apply safe_bump. eapply (safe_bind _ _ _ (fun ts op => ts = [] /\ t = op_tok op)).
  { destruct t; try apply safe_throw; by apply safe_ret. }
  intros op ts r2 -> [-> ->]. eapply safe_bind; [apply safe_literal|]. intros v ts r3 -> ->. apply safe_ret. apply g_where.
Qed.

Lemma runs_filter ts f r : g_filter ts f -> hd TEof r <> TWhere -> runs parse_optional_filter (ts ++ r) f r.
Proof.
  intros [|c op v] Hr; unfold parse_optional_filter; apply runs_peek.
  - cbn [app]. destruct (hd TEof r); try done; apply runs_ret.
  - cbn [hd app]. apply runs_bump. eapply runs_bind; [apply runs_ident|]. apply runs_bump.
    eapply (runs_bind _ _ _ op (lit_tok v :: r)); [destruct op; apply runs_ret|]. eapply runs_bind; [apply runs_literal|]. apply runs_ret.
Qed.

Lemma safe_order r : safe parse_optional_order_by r g_order.
Proof.
  unfold parse_optional_order_by. apply safe_peek. pose proof (safe_ret None r g_order g_no_order) as Hn.
  destruct r as [|t r]; [done|]. cbn [hd]. destruct t; try done. apply safe_bump. apply safe_eat; [done..|]. intros r1 ->.
  eapply safe_bind; [apply safe_ident|]. intros c ts r' -> ->. apply safe_peek.
  eapply (safe_bind _ _ _ (fun ts desc => ts = [] /\ desc = false \/ ts = [TAsc] /\ desc = false \/ ts = [TDesc] /\ desc = true)).
  - assert (Hd : safe (mret false) r' (fun ts desc => ts = [] /\ desc = false \/ ts = [TAsc] /\ desc = false \/ ts = [TDesc] /\ desc = true))
      by (apply safe_ret; by left).
    destruct r' as [|t r']; [done|]. cbn [hd]. destruct t; try done; apply safe_bump, safe_ret; by auto.
  - intros desc ts r2 -> Hd. apply safe_ret. destruct Hd as [[-> ->]|[[-> ->]|[-> ->]]]; constructor.
Qed.

Lemma runs_order ts o r : g_order ts o -> hd TEof r <> TOrder -> hd TEof r <> TAsc -> hd TEof r <> TDesc ->
  runs parse_optional_order_by (ts ++ r) o r.
Proof.
  intros Ho H1 H2 H3. unfold parse_optional_order_by. apply runs_peek. destruct Ho as [|c|c|c]; cbn [hd app].
  - destruct (hd TEof r); try done; apply runs_ret.
  - apply runs_bump, runs_eat. eapply runs_bind; [apply runs_ident|]. apply runs_peek.
    eapply (runs_bind _ _ _ false r); [destruct (hd TEof r); try done; apply runs_ret|apply runs_ret].
  - apply runs_bump, runs_eat. eapply runs_bind; [apply runs_ident|]. apply runs_peek. cbn [hd].
    eapply (runs_bind _ _ _ false r); [apply runs_bump, runs_ret|apply runs_ret].
  - apply runs_bump, runs_eat. eapply runs_bind; [apply runs_ident|]. apply runs_peek. cbn [hd].
    eapply (runs_bind _ _ _ true r); [apply runs_bump, runs_ret|apply runs_ret].
Qed.

Lemma safe_limit r : safe parse_optional_limit r g_limit.
Proof.
  unfold parse_optional_limit. apply safe_peek. pose proof (safe_ret None r g_limit g_no_limit) as Hn.
  destruct r as [|t r]; [done|]. cbn [hd]. destruct t; try done. apply safe_bump.
  destruct r as [|t r]; [apply safe_bump_nil, safe_throw|]. apply safe_bump. destruct t; try apply safe_throw.
  destruct (_ >=? _) eqn:E; [|apply safe_throw]. zbool. apply safe_ret. by constructor.
Qed.

Lemma runs_limit ts o r : g_limit ts o -> hd TEof r <> TLimit -> runs parse_optional_limit (ts ++ r) o r.
Proof.
  intros Ho H1. unfold parse_optional_limit. apply runs_peek. destruct Ho as [|n Hn]; cbn [hd app].
  - destruct (hd TEof r); try done; apply runs_ret.
  - apply runs_bump, runs_bump. rewrite Z.geb_leb, (proj2 (Z.leb_le _ _)) by done. apply runs_ret.
Qed.

Lemma safe_lock r : safe parse_optional_lock_clause r g_lock.
Proof.
  unfold parse_optional_lock_clause. apply safe_peek. pose proof (safe_ret None r g_lock g_no_lock) as Hn.
  destruct r as [|t r]; [done|]. cbn [hd]. destruct t; try done. apply safe_bump.
  destruct r as [|t r]; [apply safe_bump_nil, safe_throw|]. apply safe_bump. destruct t; try apply safe_throw; apply safe_ret; constructor.
Qed.

Lemma runs_lock ts o r : g_lock ts o -> hd TEof r <> TFor -> runs parse_optional_lock_clause (ts ++ r) o r.
Proof.
  intros Ho H1. unfold parse_optional_lock_clause. apply runs_peek. destruct Ho; cbn [hd app].
  - destruct (hd TEof r); try done; apply runs_ret.
  - apply runs_bump, runs_bump, runs_ret.
  - apply runs_bump, runs_bump, runs_ret.
Qed.

Lemma safe_select_cols r : safe parse_select_cols r g_cols.
Proof.
  unfold parse_select_cols. apply safe_peek. destruct r as [|t r]; [apply safe_throw|]. cbn [hd]. destruct t; try apply safe_throw.
  - apply safe_bump, safe_ret. constructor.
  - eapply safe_bind; [apply safe_ident|]. intros c ts r' Hr ->. eapply (safe_bind _ _ _ (fun ts l => exists l', l = [c] ++ l' /\ forall c, TIdent c :: ts = sep ident (c :: l'))).
    + apply safe_fuel. intros n Hn. by apply safe_cols.
    + intros l ts r2 -> (l' & -> & He). apply safe_ret. rewrite app_nil_r. cbn [app]. rewrite He. by apply g_names.
Qed.

Lemma runs_select_cols ts c r : g_cols ts c -> hd TEof r <> TComma -> runs parse_select_cols (ts ++ r) c r.
Proof.
  intros Hc Hr. unfold parse_select_cols. apply runs_peek. destruct Hc as [|cols Hc]; cbn [hd app]; [apply runs_bump, runs_ret|].
  destruct cols as [|c cols]; [done|]. destruct (sep ident (c :: cols)) as [|t ts] eqn:E; [by destruct cols|].
  assert (t = TIdent c) as -> by (destruct cols; by injection E). cbn [hd app]. eapply runs_bind; [apply runs_ident|].
  eapply (runs_bind _ _ _ (c :: cols) r); [|apply runs_ret]. apply runs_fuel. intros n Hn. eapply (runs_cols cols c n [c]); [done| |done].
  rewrite E. simpl. rewrite length_app in Hn. lia.
Qed.

Lemma safe_idents r : safe (with_fuel (fun n => paren_loop eat_ident n [])) r (fun ts l => l <> [] /\ ts = sep ident l ++ [TRParen]).
Proof.
  apply safe_fuel. intros n Hn. eapply safe_weaken; [by apply (safe_parens eat_ident ident safe_ident)|]. by intros ts l (l' & Hl & -> & ->).
Qed.

Lemma runs_idents l r : l <> [] -> runs (with_fuel (fun n => paren_loop eat_ident n [])) (sep ident l ++ TRParen :: r) l r.
Proof.
  intros Hl. apply runs_fuel. intros n Hn. apply (runs_parens eat_ident ident runs_ident l n []); [done|].
  rewrite length_app in Hn. simpl in Hn. lia.
Qed.

Lemma safe_into r : safe insert_columns r g_into.
Proof.
  unfold insert_columns. apply safe_peek. pose proof (safe_ret None r g_into g_all) as Hn.
  destruct r as [|t r]; [done|]. cbn [hd]. destruct t; try done. apply safe_bump. eapply safe_bind; [apply safe_idents|].
  intros l ts r' -> [Hl ->]. apply safe_ret. rewrite app_nil_r. by constructor.
Qed.

Lemma runs_into ts o r : g_into ts o -> hd TEof r <> TLParen -> runs insert_columns (ts ++ r) o r.
Proof.
  intros Ho H1. unfold insert_columns. apply runs_peek. destruct Ho as [|cols Hc]; cbn [hd app].
  - destruct (hd TEof r); try done; apply runs_ret.
  - apply runs_bump. rewrite <-app_assoc. eapply runs_bind; [by apply runs_idents|]. apply runs_ret.
Qed.

(** ** Statements *)

(** A sentence: everything before the end was consumed. *)
Definition sentence (r : list Token) (ts : list Token) (st : Statement) : Prop := ts = r /\ g_stmt ts st.

Ltac step := first [apply safe_eat; [done..|]; intros ? -> | apply safe_bump].
Ltac ident_as c := eapply safe_bind; [apply safe_ident|]; intros c ? ? -> ->.

Lemma safe_create_table r : safe parse_create_table (TTable :: r) (fun ts st => sentence (TCreate :: TTable :: r) (TCreate :: ts) st).
Proof.
  unfold parse_create_table. step. ident_as name. step.
  eapply (safe_bind _ _ _ (fun ts l => l <> [] /\ ts = sep column l ++ [TRParen])).
  - apply safe_fuel. intros n Hn. eapply safe_weaken; [by apply (safe_parens column_spec column safe_column)|]. by intros ts l (l' & Hl & -> & ->).
  - intros columns ts r2 -> [Hl ->]. apply safe_eof. intros ->. rewrite !app_nil_r. split; [done|]. by apply g_create_table.
Qed.

Lemma safe_create_index r : safe parse_create_index (TIndex :: r) (fun ts st => sentence (TCreate :: TIndex :: r) (TCreate :: ts) st).
Proof.
  unfold parse_create_index. step. step. ident_as table. step. ident_as col. step. apply safe_eof. intros ->. split; [done|]. apply g_create_index.
Qed.

Lemma safe_insert r : safe parse_insert (TInsert :: r) (sentence (TInsert :: r)).
Proof.
  unfold parse_insert. step. step. ident_as table. eapply safe_bind; [apply safe_into|]. intros columns ts r2 -> Hc. step.
  eapply (safe_bind _ _ _ (fun ts l => l <> [] /\ Forall (fun r => r <> []) l /\ ts = sep row l)).
  - apply safe_fuel. intros n Hn. eapply safe_weaken; [by apply safe_rows|]. by intros ts' l (l' & Hl & Hf & -> & ->).
  - intros rows ts' r3 -> (Hl & Hf & ->). apply safe_eof. intros ->. rewrite !app_nil_r. split; [done|]. by apply g_insert.
Qed.

Lemma safe_select r : safe parse_select (TSelect :: r) (sentence (TSelect :: r)).
Proof.
  unfold parse_select. step. eapply safe_bind; [apply safe_select_cols|]. intros columns tc r1 -> Hc. step. ident_as table.
  eapply safe_bind; [apply safe_filter|]. intros f tf r2 -> Hf. eapply safe_bind; [apply safe_order|]. intros o to r3 -> Ho.
  eapply safe_bind; [apply safe_limit|]. intros l tl r4 -> Hl. eapply safe_bind; [apply safe_lock|]. intros k tk r5 -> Hk.
  apply safe_eof. intros ->. rewrite !app_nil_r. split; [done|]. apply (g_select tc columns table tf f to o tl l tk k); assumption.
Qed.

Lemma safe_update r : safe parse_update (TUpdate :: r) (sentence (TUpdate :: r)).
Proof.
  unfold parse_update. step. ident_as table. step.
  eapply (safe_bind _ _ _ (fun ts l => l <> [] /\ ts = sep set_item l)).
  - apply safe_fuel. intros n Hn. eapply safe_weaken; [by apply safe_sets|]. by intros ts' l (l' & Hl & -> & ->).
  - intros sets ts r2 -> [Hl ->]. eapply safe_bind; [apply safe_filter|]. intros f tf r3 -> Hf. apply safe_eof. intros ->. rewrite !app_nil_r.
    split; [done|]. by apply g_update.
Qed.

Lemma safe_delete r : safe parse_delete (TDelete :: r) (sentence (TDelete :: r)).
Proof.
  unfold parse_delete. step. step. ident_as table. eapply safe_bind; [apply safe_filter|]. intros f tf r2 -> Hf.
  apply safe_eof. intros ->. rewrite !app_nil_r. split; [done|]. by apply g_delete.
Qed.

Lemma safe_statement r : safe parse_statement r (sentence r).
Proof.
  unfold parse_statement. apply safe_peek. destruct r as [|t r]; [apply safe_throw|]. cbn [hd].
  destruct t; try apply safe_throw; try (step; apply safe_eof; intros ->; split; [done|constructor]).
  - unfold parse_create. step. apply safe_peek. destruct r as [|t r]; [apply safe_throw|]. cbn [hd].
    destruct t; try apply safe_throw; [apply safe_create_table|apply safe_create_index].
  - apply safe_insert.
  - apply safe_select.
  - apply safe_update.
  - apply safe_delete.
Qed.

(** What can follow a clause of a SELECT. *)
Lemma follow_lock tk lock : g_lock tk lock -> hd TEof tk ∈ [TFor; TEof].
Proof. destruct 1; set_solver. Qed.
Lemma follow_limit tl limit tk lock : g_limit tl limit -> g_lock tk lock -> hd TEof (tl ++ tk) ∈ [TLimit; TFor; TEof].
Proof. destruct 1; intros Hk; [apply follow_lock in Hk; set_solver|set_solver]. Qed.
Lemma follow_order to o tl limit tk lock : g_order to o -> g_limit tl limit -> g_lock tk lock -> hd TEof (to ++ tl ++ tk) ∈ [TOrder; TLimit; TFor; TEof].
Proof. intros Ho Hl Hk. pose proof (follow_limit _ _ _ _ Hl Hk). destruct Ho; set_solver. Qed.

Lemma elem_of_ne {A} (x y : A) (l : list A) : x ∈ l -> y ∉ l -> x <> y.
Proof. by intros Hx Hy ->. Qed.

(** The token ahead is one of [H], none of which is the one to avoid. *)
Ltac ahead H := eapply elem_of_ne; [exact H|]; rewrite !not_elem_of_cons; repeat split; try discriminate; apply not_elem_of_nil.

Lemma runs_select_stmt tc columns table tf filter to order_by tl limit tk lock :
  g_cols tc columns -> g_filter tf filter -> g_order to order_by -> g_limit tl limit -> g_lock tk lock ->
  runs parse_select (TSelect :: tc ++ TFrom :: TIdent table :: tf ++ to ++ tl ++ tk) (SSelect columns table filter order_by limit lock) [].
Proof.
  intros Hc Hf Ho Hl Hk. pose proof (follow_order _ _ _ _ _ _ Ho Hl Hk) as F1. pose proof (follow_limit _ _ _ _ Hl Hk) as F2. pose proof (follow_lock _ _ Hk) as F3.
  unfold parse_select. apply runs_bump. eapply runs_bind; [by apply runs_select_cols|]. apply runs_eat. eapply runs_bind; [apply runs_ident|].
  eapply runs_bind; [apply runs_filter; [done|ahead F1]|]. eapply runs_bind; [apply runs_order; [done|ahead F2..]|].
  eapply runs_bind; [apply runs_limit; [done|ahead F3]|]. rewrite <-(app_nil_r tk). eapply runs_bind; [by apply runs_lock|]. apply runs_eof.
Qed.

Lemma runs_statement ts st : g_stmt ts st -> runs parse_statement ts st [].
Proof.
  intros Hg. unfold parse_statement. apply runs_peek. destruct Hg; cbn [hd]; try (apply runs_bump; apply runs_eof).
  - unfold parse_create. apply runs_bump, runs_peek. cbn [hd]. unfold parse_create_table. apply runs_bump. eapply runs_bind; [apply runs_ident|].
    apply runs_eat. eapply (runs_bind _ _ _ columns []); [|apply runs_eof]. apply runs_fuel. intros n Hn.
    apply (runs_parens column_spec column runs_column columns n []); [done|]. rewrite length_app in Hn. simpl in Hn. lia.
  - unfold parse_create. apply runs_bump, runs_peek. cbn [hd]. unfold parse_create_index. apply runs_bump, runs_eat.
    eapply runs_bind; [apply runs_ident|]. apply runs_eat. eapply runs_bind; [apply runs_ident|]. apply runs_eat, runs_eof.
  - unfold parse_insert. apply runs_bump, runs_eat. eapply runs_bind; [apply runs_ident|]. eapply runs_bind; [by apply runs_into|].
    apply runs_eat. eapply (runs_bind _ _ _ rows []); [|apply runs_eof]. apply runs_fuel. intros n Hn. by apply (runs_rows rows n []).
  - by apply runs_select_stmt.
  - assert (Hf : hd TEof ts ∈ [TWhere; TEof]) by (destruct H0; set_solver).
    unfold parse_update. apply runs_bump. eapply runs_bind; [apply runs_ident|]. apply runs_eat. eapply (runs_bind _ _ _ sets ts).
    + apply runs_fuel. intros n Hn. rewrite length_app in Hn. apply (runs_sets sets n []); [done|ahead Hf|lia].
    + rewrite <-(app_nil_r ts). eapply runs_bind; [by apply runs_filter|]. apply runs_eof.
  - unfold parse_delete. apply runs_bump, runs_eat. eapply runs_bind; [apply runs_ident|]. rewrite <-(app_nil_r ts).
    eapply runs_bind; [by apply runs_filter|]. apply runs_eof.
Qed.

Lemma at_new ts : TEof ∉ ts -> at_ ts (Parser_new (ts ++ [TEof])).
Proof. intros Ht. split; [done|done]. Qed.

(** The recursive-descent parser decides the grammar.  On a token vector
    that ends in its only [Eof] it always returns (no token index out of range,
    no endless loop): it answers [Ok] with a statement exactly when the tokens are
    a sentence for that statement, and otherwise the error [InvalidArgument]. *)
Theorem parser_decides_grammar ts : TEof ∉ ts ->
  (forall st, fst (parse_statement (Parser_new (ts ++ [TEof]))) = Ok st <-> g_stmt ts st) /\
  ((exists st, g_stmt ts st) \/ fst (parse_statement (Parser_new (ts ++ [TEof]))) = Err EInvalidArgument).
Proof.
  intros Ht. destruct (safe_statement ts _ (at_new ts Ht)) as (o & p' & E & Ho). rewrite E. cbn [fst]. split.
  - intros st. split.
    + intros ->. destruct Ho as (ts' & r' & _ & _ & -> & Hg). done.
    + intros Hg. destruct (runs_statement _ _ Hg _ (at_new ts Ht)) as (p2 & E2 & _). rewrite E2 in E. by injection E as <- _.
  - destruct o as [st|e|]; [|right; by subst|done]. left. destruct Ho as (ts' & r' & _ & _ & -> & Hg). by exists st.
Qed.

(** UPDATE t SET a = 1, b = NULL WHERE c > 'x'. *)
Definition demo_tokens : list Token :=
  [TUpdate; TIdent [116]; TSet; TIdent [97]; TEq; TInt 1; TComma; TIdent [98]; TEq; TNull; TWhere; TIdent [99]; TGt; TStr [120]].

Lemma parser_decides_grammar_witness :
  (TEof ∉ demo_tokens) /\
  (forall st, fst (parse_statement (Parser_new (demo_tokens ++ [TEof]))) = Ok st <-> g_stmt demo_tokens st) /\
  fst (parse_statement (Parser_new (demo_tokens ++ [TEof]))) =
    Ok (SUpdate [116] [([97], LitInt 1); ([98], LitNull)] (Some (mkFilter [99] OpGt (LitStr [120])))).
Proof.
  assert (Ht : TEof ∉ demo_tokens) by (unfold demo_tokens; set_solver).
  split; [exact Ht|]. split; [apply (parser_decides_grammar demo_tokens Ht)|reflexivity].
Defined.
