(* ===== verification/SqlText.v ===== *)
(** * From characters to statements

    The lexical grammar (how a token may be spelled and what may follow it), the
    proof that the tokenizer decides it, and with [SqlSafe] the exact behaviour of
    [parse]; well-formed statements, their printed form, and the round trip. *)

From stdpp Require Import strings.
From S2P Require Import Prelude Types LinePointer Tuple Catalog Sql SqlSafe.
Local Open Scope Z_scope.
Local Open Scope rust_scope.

(** No letter of the Unicode tables is white space. *)
Class UnicodeLaws `{Unicode} := {
  uni_alphabetic_visible c : uni_alphabetic c = true -> is_whitespace c = false;
}.

(** ** Lexical grammar *)

Definition ident_char `{Unicode} (c : Z) : bool := is_alphanumeric c || (c =? 95).

(** A word: a letter or underscore, then letters, digits and underscores. *)
Definition word `{Unicode} (w : list Z) : bool :=
  match w with [] => false | c :: w => (is_alphabetic c || (c =? 95)) && forallb ident_char w end.

Definition number (w : list Z) : bool :=
  match w with
  | [] => false
  | c :: ds => if c =? 45 then forallb is_ascii_digit ds else forallb is_ascii_digit w
  end.

Definition punct (c : Z) : option Token :=
  if c =? 61 then Some TEq else if c =? 60 then Some TLt else if c =? 62 then Some TGt else if c =? 44 then Some TComma
  else if c =? 59 then Some TSemicolon else if c =? 40 then Some TLParen else if c =? 41 then Some TRParen
  else if c =? 42 then Some TStar else None.

(** A quote inside a string literal is doubled. *)
Fixpoint escape (s : list Z) : list Z :=
  match s with [] => [] | c :: s => if c =? 39 then 39 :: 39 :: escape s else c :: escape s end.

Inductive spelling `{Unicode} : Token -> list Z -> Prop :=
| sp_str s : spelling (TStr s) (39 :: escape s ++ [39])
| sp_int w n : number w = true -> parse_i64 w = Some n -> spelling (TInt n) w
| sp_punct c t : punct c = Some t -> spelling t [c]
| sp_keyword w t : word w = true -> keyword (to_ascii_uppercase w) = Some t -> spelling t w
| sp_ident w : word w = true -> keyword (to_ascii_uppercase w) = None -> spelling (TIdent (to_ascii_lowercase w)) w.

(** The character after a token does not continue it. *)
Definition stops `{Unicode} (t : Token) (next : option Z) : Prop :=
  match t, next with
  | TStr _, Some c => c <> 39
  | TInt _, Some c => is_ascii_digit c = false
  | (TEq | TLt | TGt | TComma | TSemicolon | TLParen | TRParen | TStar), _ => True
  | _, Some c => ident_char c = false
  | _, None => True
  end.

Inductive spells `{Unicode} : list Token -> list Z -> Prop :=
| spells_nil gap : forallb is_whitespace gap = true -> spells [] gap
| spells_cons gap t w ts rest : forallb is_whitespace gap = true -> spelling t w -> stops t (head rest) -> spells ts rest ->
    spells (t :: ts) (gap ++ w ++ rest).

(** ** The tokenizer state is the input that is left *)

Fixpoint span (p : Z -> bool) (s : list Z) : list Z * list Z :=
  match s with
  | [] => ([], [])
  | c :: s' => if p c then let '(a, b) := span p s' in (c :: a, b) else ([], s)
  end.

Fixpoint unquote (s : list Z) : option (list Z * list Z) :=
  match s with
  | [] => None
  | c :: s1 =>
      if c =? 39 then
        match s1 with
        | d :: s2 => if d =? 39 then match unquote s2 with Some (b, r) => Some (39 :: b, r) | None => None end else Some ([], s1)
        | [] => Some ([], s1)
        end
      else match unquote s1 with Some (b, r) => Some (c :: b, r) | None => None end
  end.

Lemma peek_new s : tk_peek (Tokenizer_new s) = head s.
Proof. by destruct s. Qed.

Lemma bump_new c s : tk_bump (Tokenizer_new (c :: s)) = (Some c, Tokenizer_new s).
Proof. by destruct s. Qed.

Lemma bump_new_nil : tk_bump (Tokenizer_new []) = (None, Tokenizer_new []).
Proof. done. Qed.

Lemma tk_len_new s : (length s < tk_len (Tokenizer_new s))%nat.
Proof. destruct s; unfold tk_len; simpl; lia. Qed.

Lemma span_spec p s : let '(a, b) := span p s in
  s = a ++ b /\ forallb p a = true /\ match head b with Some c => p c = false | None => True end.
Proof.
  induction s as [|c s IH]; cbn [span]; [done|]. destruct (p c) eqn:E; [|simpl; by rewrite E].
  destruct (span p s) as [a b]. destruct IH as (-> & Ha & Hb). simpl. by rewrite E.
Qed.

Lemma span_app p a b : forallb p a = true -> match head b with Some c => p c = false | None => True end -> span p (a ++ b) = (a, b).
Proof.
  induction a as [|c a IH]; cbn [app span forallb]; intros Ha Hb.
  - destruct b as [|c b]; [done|]. cbn [head] in Hb. cbn [span]. by rewrite Hb.
  - apply andb_true_iff in Ha as [-> Ha]. by rewrite (IH Ha Hb).
Qed.

Lemma skip_loop_new : forall n s, (length s < n)%nat -> skip_loop n (Tokenizer_new s) = Tokenizer_new (snd (span is_whitespace s)).
Proof.
  induction n as [|n IH]; intros s Hn; [lia|]. cbn [skip_loop]. rewrite peek_new. destruct s as [|c s]; [done|]. cbn [head span].
  destruct (is_whitespace c); [|done]. rewrite bump_new. cbn [snd]. rewrite IH by (simpl in Hn; lia). by destruct (span _ s).
Qed.

Lemma skip_new s : skip_whitespace (Tokenizer_new s) = Tokenizer_new (snd (span is_whitespace s)).
Proof. apply skip_loop_new, tk_len_new. Qed.

Lemma take_loop_new p : forall n acc s, (length s < n)%nat ->
  take_loop p n acc (Tokenizer_new s) = (acc ++ fst (span p s), Tokenizer_new (snd (span p s))).
Proof.
  induction n as [|n IH]; intros acc s Hn; [lia|]. cbn [take_loop]. rewrite peek_new.
  destruct s as [|c s]; [by rewrite app_nil_r|]. cbn [head span]. destruct (p c); [|by rewrite app_nil_r].
  rewrite bump_new. cbn [snd]. rewrite IH by (simpl in Hn; lia). destruct (span p s) as [a b]. cbn [fst snd]. by rewrite <-app_assoc.
Qed.

Lemma string_loop_new : forall n acc s, (length s < n)%nat -> string_loop n acc (Tokenizer_new s) =
  match unquote s with Some (b, r) => Ok (TStr (acc ++ b), Tokenizer_new r) | None => Err EInvalidArgument end.
Proof.
  induction n as [n IH] using lt_wf_ind. intros acc s Hn. destruct n as [|n]; [lia|]. cbn [string_loop].
  destruct s as [|c s]; [done|]. rewrite bump_new. cbn [unquote]. destruct (c =? 39) eqn:E; zbool.
  - subst c. rewrite peek_new. destruct s as [|d s]; cbn [head].
    + by rewrite bool_decide_false, app_nil_r.
    + destruct (d =? 39) eqn:Ed; zbool.
      * subst d. rewrite bool_decide_true by done. rewrite bump_new. cbn [snd]. rewrite IH by (simpl in *; lia). destruct (unquote s) as [[b r]|]; [|done].
        by rewrite <-app_assoc.
      * by rewrite bool_decide_false, app_nil_r by congruence.
  - rewrite IH by (simpl in *; lia). destruct (unquote s) as [[b r]|]; [|done]. by rewrite <-app_assoc.
Qed.

Lemma unquote_spec : forall s b r, unquote s = Some (b, r) -> s = escape b ++ 39 :: r /\ head r <> Some 39.
Proof.
  intros s. induction s as [s IH] using (induction_ltof1 _ (@length Z)). unfold ltof in IH. intros b r Hu.
  destruct s as [|c s]; [done|]. cbn [unquote] in Hu. destruct (c =? 39) eqn:E; zbool.
  - subst c. destruct s as [|d s]; [by injection Hu as <- <-|]. destruct (d =? 39) eqn:Ed; zbool.
    + subst d. destruct (unquote s) as [[b' r']|] eqn:Eu; [|done]. injection Hu as <- <-. apply IH in Eu as [-> Hr]; [|simpl; lia]. done.
    + injection Hu as <- <-. split; [done|]. cbn [head]. congruence.
  - destruct (unquote s) as [[b' r']|] eqn:Eu; [|done]. injection Hu as <- <-. apply IH in Eu as [-> Hr]; [|simpl; lia].
    split; [|done]. cbn [escape]. by rewrite (proj2 (Z.eqb_neq c 39)).
Qed.

Lemma unquote_escape b r : head r <> Some 39 -> unquote (escape b ++ 39 :: r) = Some (b, r).
Proof.
  intros Hr. induction b as [|c b IH]; cbn [escape app unquote].
  - rewrite Z.eqb_refl. destruct r as [|d r]; [done|]. cbn [head] in Hr. by rewrite (proj2 (Z.eqb_neq d 39)) by congruence.
  - destruct (c =? 39) eqn:E; cbn [app unquote]; [zbool; subst c; by rewrite Z.eqb_refl, IH|]. by rewrite E, IH.
Qed.

(** ** One token *)

Section Lex.
Context `{UnicodeLaws}.

(** Characters that start a word are none of the others. *)
Lemma word_start c : is_alphabetic c || (c =? 95) = true ->
  is_whitespace c = false /\ c <> 39 /\ c <> 45 /\ is_ascii_digit c = false /\ punct c = None.
Proof.
  intros Hc. assert (Hr : 65 <= c <= 90 \/ 97 <= c <= 122 \/ c = 95 \/ 0x7F < c /\ uni_alphabetic c = true).
  { unfold is_alphabetic, is_ascii_upper, is_ascii_lower, between in Hc. rewrite !orb_true_iff, !andb_true_iff, !Z.leb_le, Z.ltb_lt, Z.eqb_eq in Hc. tauto. }
  assert (Hx : is_whitespace c = false).
  { destruct Hr as [Hr|[Hr|[Hr|[_ Hr]]]]; [unfold is_whitespace, between; repeat rewrite ?orb_false_iff, ?andb_false_iff; lia..|by apply uni_alphabetic_visible]. }
  split; [done|]. split; [lia|]. split; [lia|].
  split; [unfold is_ascii_digit, between; rewrite andb_false_iff; lia|]. unfold punct.
  repeat rewrite (proj2 (Z.eqb_neq c _)) by lia. done.
Qed.

Lemma word_char c : is_alphabetic c || (c =? 95) = true -> ident_char c = true.
Proof. unfold ident_char, is_alphanumeric. intros Hc. apply orb_true_iff in Hc as [->| ->]; [done|by rewrite orb_true_r]. Qed.

(** The tokens of the keyword table stop like words. *)
Definition word_tok (t : Token) : bool :=
  match t with TStr _ | TInt _ | TEq | TLt | TGt | TComma | TSemicolon | TLParen | TRParen | TStar | TIdent _ | TEof => false | _ => true end.

Lemma keyword_tok s t : keyword s = Some t -> word_tok t = true.
Proof.
  unfold keyword. destruct (List.find _ _) as [[k x]|] eqn:E; [|done]. intros [= ->]. apply List.find_some in E as [Hin _].
  assert (Hall : forallb (fun kt => word_tok kt.2) keywords = true) by reflexivity. rewrite forallb_forall in Hall. by apply (Hall (k, t)).
Qed.

Lemma stops_word t o : word_tok t = true \/ (exists s, t = TIdent s) -> stops t o <-> match o with Some c => ident_char c = false | None => True end.
Proof. intros [Ht|[s ->]]; [destruct t; try discriminate Ht; by destruct o|by destruct o]. Qed.

Lemma identifier_new s : exists w r, s = w ++ r /\ forallb ident_char w = true /\ match head r with Some c => ident_char c = false | None => True end /\
  identifier_or_keyword (Tokenizer_new s) =
    (match keyword (to_ascii_uppercase w) with Some t => t | None => TIdent (to_ascii_lowercase w) end, Tokenizer_new r).
Proof.
  unfold identifier_or_keyword. rewrite take_loop_new by apply tk_len_new. pose proof (span_spec ident_char s) as Hs. unfold ident_char in *.
  destruct (span _ s) as [w r]. destruct Hs as (-> & Hw & Hr). exists w, r. cbn [fst snd app]. split; [done|]. split; [done|]. split; [done|].
  by destruct (keyword _).
Qed.

Lemma number_new c s : (c =? 45) || is_ascii_digit c = true -> exists w r, c :: s = w ++ r /\ number w = true /\
  match head r with Some d => is_ascii_digit d = false | None => True end /\
  number_literal (Tokenizer_new (c :: s)) = match parse_i64 w with Some n => Ok (TInt n, Tokenizer_new r) | None => Err EInvalidArgument end.
Proof.
  intros Hc. unfold number_literal. rewrite peek_new. cbn [head]. destruct (c =? 45) eqn:E; zbool.
  - subst c. rewrite bool_decide_true by done. rewrite bump_new. cbn [snd]. rewrite take_loop_new by apply tk_len_new.
    pose proof (span_spec is_ascii_digit s) as Hs. destruct (span _ s) as [w r]. destruct Hs as (-> & Hw & Hr). exists (45 :: w), r.
    cbn [fst snd app]. split; [done|]. split; [done|]. split; [done|]. by destruct (parse_i64 _).
  - rewrite bool_decide_false by congruence. rewrite take_loop_new by apply tk_len_new. cbn [orb] in Hc.
    pose proof (span_spec is_ascii_digit (c :: s)) as Hs. cbn [span] in *. rewrite Hc in *. destruct (span _ s) as [w r].
    destruct Hs as (Hs & Hw & Hr). exists (c :: w), r. cbn [fst snd app]. split; [done|]. split; [unfold number; by rewrite (proj2 (Z.eqb_neq c 45))|].
    split; [done|]. by destruct (parse_i64 _).
Qed.

(** What [next_token] consumes, in the order of its tests. *)
Lemma next_token_sound c s : is_whitespace c = false -> match next_token c (Tokenizer_new (c :: s)) with
  | Ok (t, t') => exists w r, c :: s = w ++ r /\ w <> [] /\ t' = Tokenizer_new r /\ spelling t w /\ stops t (head r)
  | Err e => e = EInvalidArgument
  | Panic => False
  end.
Proof.
  intros Hc. unfold next_token. destruct (c =? 39) eqn:E1; zbool.
  { subst c. unfold string_literal. rewrite bump_new. cbn [snd]. rewrite string_loop_new by apply tk_len_new.
    destruct (unquote s) as [[b r]|] eqn:Eu; [|done]. apply unquote_spec in Eu as [-> Hr]. exists (39 :: escape b ++ [39]), r.
    split; [by rewrite <-app_comm_cons, <-app_assoc|]. split; [done|]. split; [done|]. split; [constructor|]. destruct r as [|d r]; [done|]. cbn [head stops] in *. congruence. }
  destruct ((c =? 45) || is_ascii_digit c) eqn:E2.
  { destruct (number_new c s E2) as (w & r & -> & Hw & Hr & ->). destruct (parse_i64 w) as [n|] eqn:Ep; [|done]. exists w, r.
    split; [done|]. split; [by destruct w|]. split; [done|]. split; [by constructor|]. by destruct r. }
  assert (Hp : forall t, punct c = Some t -> stops t (head s) -> exists w r, c :: s = w ++ r /\ w <> [] /\ snd (tk_bump (Tokenizer_new (c :: s))) = Tokenizer_new r /\ spelling t w /\ stops t (head r)).
  { intros t Ht Hst. exists [c], s. rewrite bump_new. split; [done|]. split; [done|]. split; [done|]. split; [by constructor|done]. }
  unfold punct in Hp.
  do 8 (match goal with |- context [c =? ?k] => destruct (c =? k); [by apply Hp|] end). clear Hp.
  destruct (is_alphabetic c || (c =? 95)) eqn:E3; [|done].
  destruct (identifier_new (c :: s)) as (w & r & Hs & Hw & Hr & ->). destruct w as [|d w]; cbn [app] in Hs; [subst r; cbn [head] in Hr; by rewrite (word_char _ E3) in Hr|].
  injection Hs as -> ->. assert (Hword : word (d :: w) = true) by (cbn [word forallb] in *; rewrite E3; by apply andb_true_iff in Hw as [_ ->]).
  exists (d :: w), r. split; [done|]. split; [done|]. split; [done|]. destruct (keyword _) as [t|] eqn:Ek.
  - split; [by apply sp_keyword|]. apply stops_word; [left; by eapply keyword_tok|done].
  - split; [by apply sp_ident|]. apply stops_word; [right; by eexists|done].
Qed.

Lemma digit_not_space c : is_ascii_digit c = true -> is_whitespace c = false.
Proof. unfold is_ascii_digit, is_whitespace, between. rewrite andb_true_iff. intros. repeat rewrite ?orb_false_iff, ?andb_false_iff. lia. Qed.

Lemma punct_cases c t : punct c = Some t -> c ∈ [61; 60; 62; 44; 59; 40; 41; 42].
Proof. unfold punct. repeat (case_match; zbool; [set_solver|]). done. Qed.

Lemma next_token_number w n r : number w = true -> parse_i64 w = Some n -> stops (TInt n) (head r) ->
  exists c w', w = c :: w' /\ is_whitespace c = false /\ next_token c (Tokenizer_new (w ++ r)) = Ok (TInt n, Tokenizer_new r).
Proof.
  intros Hw Hn Hr. destruct w as [|c w]; [done|]. exists c, w. split; [done|].
  assert (Hc : (c =? 45) || is_ascii_digit c = true /\ forallb is_ascii_digit w = true).
  { cbn [number] in Hw. destruct (c =? 45); [by split|]. cbn [forallb] in Hw. by apply andb_true_iff in Hw. }
  destruct Hc as [Hc Hds]. split; [apply orb_true_iff in Hc as [Hc|Hc]; [zbool; by subst c|by apply digit_not_space]|].
  assert (H39 : (c =? 39) = false) by (apply Z.eqb_neq; intros ->; by vm_compute in Hc).
  unfold next_token. rewrite H39, Hc. cbn [app].
  destruct (number_new c (w ++ r) Hc) as (w2 & r2 & Heq & Hw2 & Hr2 & ->).
  enough (w2 = c :: w /\ r2 = r) as [-> ->]; [by rewrite Hn|].
  assert (Hstop : match head r with Some d => is_ascii_digit d = false | None => True end) by (by destruct r).
  assert (Hd2 : exists v2, w2 = c :: v2 /\ forallb is_ascii_digit v2 = true).
  { destruct w2 as [|d v2]; [done|]. injection Heq as <- _. exists v2. split; [done|]. cbn [number] in Hw2. destruct (c =? 45); [done|].
    cbn [forallb] in Hw2. by apply andb_true_iff in Hw2 as [_ ?]. }
  destruct Hd2 as (v2 & -> & Hv2). injection Heq as Heq.
  pose proof (span_app is_ascii_digit w r Hds Hstop) as Sp1. pose proof (span_app is_ascii_digit v2 r2 Hv2 Hr2) as Sp2.
  rewrite Heq, Sp2 in Sp1. injection Sp1 as -> ->. done.
Qed.

Lemma next_token_word w r : word w = true -> match head r with Some c => ident_char c = false | None => True end ->
  exists c w', w = c :: w' /\ is_whitespace c = false /\ next_token c (Tokenizer_new (w ++ r)) =
    Ok (match keyword (to_ascii_uppercase w) with Some t => t | None => TIdent (to_ascii_lowercase w) end, Tokenizer_new r).
Proof.
  intros Hw Hr. destruct w as [|c w]; [done|]. exists c, w. split; [done|]. cbn [word] in Hw. apply andb_true_iff in Hw as [Hc Hw].
  destruct (word_start c Hc) as (Hsp & H39 & H45 & Hdig & Hp). split; [done|].
  unfold next_token. rewrite (proj2 (Z.eqb_neq c 39)), (proj2 (Z.eqb_neq c 45)), Hdig by done. cbn [orb].
  unfold punct in Hp. do 8 (match goal with |- context [c =? ?k] => destruct (c =? k); [discriminate Hp|] end).
  assert (Hc' : is_alphabetic c || (c =? 95) = true) by done. rewrite Hc'.
  destruct (identifier_new ((c :: w) ++ r)) as (w2 & r2 & Heq & Hw2 & Hr2 & ->).
  pose proof (span_app ident_char w2 r2 Hw2 Hr2) as Sp2.
  assert (Hcw : forallb ident_char (c :: w) = true) by (cbn [forallb]; by rewrite (word_char c Hc), Hw).
  pose proof (span_app ident_char (c :: w) r Hcw Hr) as Sp1. rewrite Heq, Sp2 in Sp1. by injection Sp1 as -> ->.
Qed.

Lemma next_token_complete t w r : spelling t w -> stops t (head r) ->
  exists c w', w = c :: w' /\ is_whitespace c = false /\ next_token c (Tokenizer_new (w ++ r)) = Ok (t, Tokenizer_new r).
Proof.
  intros Hs Hr. destruct Hs as [b|w n Hw Hn|c t Hp|w t Hw Hk|w Hw Hk].
  - exists 39, (escape b ++ [39]). split; [done|]. split; [done|]. unfold next_token. cbn [app Z.eqb Pos.eqb]. unfold string_literal. rewrite bump_new.
    cbn [snd]. rewrite string_loop_new by apply tk_len_new. rewrite <-app_assoc. cbn [app]. rewrite unquote_escape; [done|].
    destruct r as [|d r]; [done|]. cbn [head stops] in *. congruence.
  - by apply next_token_number.
  - exists c, []. split; [done|]. pose proof (punct_cases _ _ Hp) as Hc. unfold next_token. cbn [app]. rewrite bump_new. cbn [snd].
    rewrite !elem_of_cons, elem_of_nil in Hc. repeat (destruct Hc as [->|Hc]; [injection Hp as <-; by split|]). done.
  - destruct (next_token_word w r Hw) as (c & w' & ? & ? & E); [apply (stops_word t); [left; by eapply keyword_tok|done]|]. rewrite Hk in E. by exists c, w'.
  - destruct (next_token_word w r Hw) as (c & w' & ? & ? & E); [apply (stops_word (TIdent (to_ascii_lowercase w))); [right; by eexists|done]|].
    rewrite Hk in E. by exists c, w'.
Qed.

(** ** The token sequence *)

Lemma tokenize_loop_sound : forall n acc s, (length s < n)%nat ->
  match tokenize_loop n acc (Tokenizer_new s) with
  | Ok l => exists ts, l = acc ++ ts ++ [TEof] /\ spells ts s
  | Err e => e = EInvalidArgument
  | Panic => False
  end.
Proof.
  induction n as [|n IH]; intros acc s Hn; [lia|]. cbn [tokenize_loop]. rewrite skip_new.
  pose proof (span_spec is_whitespace s) as Hs. destruct (span is_whitespace s) as [gap b]. destruct Hs as (-> & Hgap & Hb). cbn [snd]. rewrite peek_new.
  destruct b as [|c b]; cbn [head] in *.
  - exists []. split; [done|]. rewrite app_nil_r. by constructor.
  - pose proof (next_token_sound c b Hb) as Ht. destruct (next_token c _) as [[t t']|e|]; cbn [res_bind]; [|done..].
    destruct Ht as (w & r & Heq & Hw & -> & Hsp & Hst). rewrite Heq in *. rewrite !length_app in Hn.
    specialize (IH (acc ++ [t]) r). destruct (tokenize_loop n (acc ++ [t]) (Tokenizer_new r)) as [l|e|]; cbn [res_bind].
    + destruct IH as (ts & -> & Hts); [destruct w; [done|simpl in Hn; lia]|]. exists (t :: ts). split; [by rewrite <-app_assoc|]. by constructor.
    + apply IH. destruct w; [done|simpl in Hn; lia].
    + apply IH. destruct w; [done|simpl in Hn; lia].
Qed.

Lemma tokenize_loop_complete ts s : spells ts s -> forall n acc, (length s < n)%nat -> tokenize_loop n acc (Tokenizer_new s) = Ok (acc ++ ts ++ [TEof]).
Proof.
  induction 1 as [gap Hgap|gap t w ts rest Hgap Hsp Hst Hts IH]; intros n acc Hn; (destruct n as [|n]; [lia|]); cbn [tokenize_loop]; rewrite skip_new.
  - rewrite <-(app_nil_r gap), span_app by done. done.
  - destruct (next_token_complete t w rest Hsp Hst) as (c & w' & -> & Hc & E). rewrite span_app by done. cbn [snd]. rewrite peek_new. cbn [app head].
    cbn [app] in E. rewrite E. cbn [res_bind]. rewrite IH; [by rewrite <-app_assoc|]. rewrite !length_app in Hn. simpl in Hn. lia.
Qed.

Lemma spelling_not_eof t w : spelling t w -> t <> TEof.
Proof.
  intros Hs. destruct Hs as [b|w n Hw Hn|c t Hp|w t Hw Hk|w Hw Hk]; try done.
  - intros ->. unfold punct in Hp. by repeat case_match.
  - apply keyword_tok in Hk. by destruct t.
Qed.

Lemma spells_no_eof ts s : spells ts s -> TEof ∉ ts.
Proof.
  induction 1 as [|gap t w ts rest Hgap Hsp Hst Hts IH]; [set_solver|]. apply spelling_not_eof in Hsp. set_solver.
Qed.
End Lex.

(** ** Text of a statement *)

(** A sentence, with at most one semicolon behind it. *)
Definition g_text (ts : list Token) (st : Statement) : Prop := g_stmt ts st \/ exists ts', ts = ts' ++ [TSemicolon] /\ g_stmt ts' st.

Definition body (ts : list Token) : list Token :=
  if decide (last ts = Some TSemicolon) then take (length ts - 1) ts else ts.

Lemma strip_eof ts : strip_semicolon (ts ++ [TEof]) = body ts ++ [TEof].
Proof.
  unfold strip_semicolon, body. rewrite length_app. cbn [length]. replace (length ts + 1 - 2)%nat with (length ts - 1)%nat by lia.
  replace (length ts + 1 - 1)%nat with (length ts) by lia.
  destruct (decide (ts = [])) as [->|Hne]; [done|]. assert (Hl : (1 <= length ts)%nat) by (destruct ts; [done|simpl; lia]).
  rewrite (proj2 (Nat.leb_le _ _)) by lia. cbn [andb]. rewrite lookup_app_l by lia. rewrite last_lookup. replace (pred (length ts)) with (length ts - 1)%nat by lia.
  case_decide as E; [|by rewrite bool_decide_false]. rewrite bool_decide_true by done. rewrite take_app_le by lia. by rewrite drop_app_length.
Qed.

Lemma sep_Forall {A} (Q : Token -> Prop) (f : A -> list Token) l : Q TComma -> (forall x, Forall Q (f x)) -> Forall Q (sep f l).
Proof.
  intros Hc Hf. induction l as [|x l IH]; cbn [sep]; [done|]. apply Forall_app. split; [done|]. destruct l; [done|]. by constructor.
Qed.

(** A sentence has no semicolon and no end marker. *)
Definition plain (t : Token) : Prop := match t with TSemicolon | TEof => False | _ => True end.

Lemma g_stmt_plain ts st : g_stmt ts st -> Forall plain ts.
Proof.
  assert (Hlit : forall l, plain (lit_tok l)) by (by intros []). assert (Hop : forall o, plain (op_tok o)) by (by intros []).
  assert (Hfil : forall tf f, g_filter tf f -> Forall plain tf) by (intros ? ? [|c op v]; [done|]; repeat (apply Forall_cons; split); try done; auto).
  assert (Hid : forall l, Forall plain (sep ident l)) by (intros l; apply sep_Forall; [done|]; intros x; by repeat constructor).
  intros Hg. destruct Hg; repeat (apply Forall_cons; split; [done|]); auto.
  - apply Forall_app. split; [|by repeat constructor]. apply sep_Forall; [done|]. intros x. by repeat constructor.
  - apply Forall_app. split.
    + destruct H; [done|]. apply Forall_cons. split; [done|]. apply Forall_app. split; [done|by repeat constructor].
    + apply Forall_cons. split; [done|]. apply sep_Forall; [done|]. intros x. unfold row. apply Forall_cons. split; [done|].
      apply Forall_app. split; [|by repeat constructor]. apply sep_Forall; [done|]. intros y. by repeat constructor.
  - apply Forall_app. split; [destruct H; [by repeat constructor|done]|]. do 2 (apply Forall_cons; split; [done|]). repeat (apply Forall_app; split).
    + by eapply Hfil.
    + destruct H1; by repeat constructor.
    + destruct H2; by repeat constructor.
    + destruct H3; by repeat constructor.
  - apply Forall_app. split; [|by eapply Hfil]. apply sep_Forall; [done|]. intros [c v]. by repeat constructor.
  - by eapply Hfil.
Qed.

Lemma g_stmt_not_eof ts st : g_stmt ts st -> TEof ∉ ts.
Proof. intros Hg Hin. apply g_stmt_plain in Hg. rewrite Forall_forall in Hg. exact (Hg _ Hin). Qed.

Lemma body_text ts st : g_stmt (body ts) st <-> g_text ts st.
Proof.
  unfold body, g_text. case_decide as E.
  - apply last_Some in E as (ts' & ->). rewrite length_app. cbn [length]. replace (length ts' + 1 - 1)%nat with (length ts') by lia.
    rewrite take_app_length. split; [intros Hg; right; by exists ts'|]. intros [Hg|(ts2 & Heq & Hg)].
    + apply g_stmt_plain in Hg. apply Forall_app in Hg as [_ Hg]. by apply Forall_inv in Hg.
    + apply app_inj_tail in Heq as [-> _]. done.
  - split; [by left|]. intros [Hg|(ts' & -> & Hg)]; [done|]. by rewrite last_snoc in E.
Qed.

(** ** Printing *)

Fixpoint dec (fuel : nat) (n : Z) (acc : list Z) : list Z :=
  match fuel with
  | O => acc
  | S fuel => if n <? 10 then (48 + n) :: acc else dec fuel (n / 10) ((48 + n mod 10) :: acc)
  end.

(** Twenty digits are enough for an [i64]. *)
Definition show_int (n : Z) : list Z := if n <? 0 then 45 :: dec 20 (- n) [] else dec 20 n [].

Definition show_tok (t : Token) : list Z :=
  match t with
  | TStr s => 39 :: escape s ++ [39]
  | TInt n => show_int n
  | TEq => [61] | TLt => [60] | TGt => [62] | TComma => [44] | TSemicolon => [59] | TLParen => [40] | TRParen => [41] | TStar => [42]
  | TIdent s => s
  | t => default [] (fst <$> List.find (fun kt => bool_decide (kt.2 = t)) keywords)
  end.

Definition filter_toks (f : option Filter) : list Token :=
  match f with Some f => [TWhere; TIdent (f_column f); op_tok (f_op f); lit_tok (f_value f)] | None => [] end.

Definition order_toks (o : option OrderBy) : list Token :=
  match o with Some o => [TOrder; TBy; TIdent (ob_column o); if ob_desc o then TDesc else TAsc] | None => [] end.

Definition toks (st : Statement) : list Token :=
  match st with
  | SBegin => [TBegin]
  | SCommit => [TCommit]
  | SRollback => [TRollback]
  | SCreateTable name columns => TCreate :: TTable :: TIdent name :: TLParen :: sep column columns ++ [TRParen]
  | SInsert table columns rows => TInsert :: TInto :: TIdent table ::
      match columns with Some cols => TLParen :: sep ident cols ++ [TRParen] | None => [] end ++ TValues :: sep row rows
  | SSelect columns table filter order_by limit lock => TSelect ::
      match columns with SelAll => [TStar] | SelCols cols => sep ident cols end ++ TFrom :: TIdent table ::
      filter_toks filter ++ order_toks order_by ++ match limit with Some n => [TLimit; TInt n] | None => [] end ++
      match lock with Some ForUpdate => [TFor; TUpdate] | Some ForShare => [TFor; TShare] | None => [] end
  | SUpdate table sets filter => TUpdate :: TIdent table :: TSet :: sep set_item sets ++ filter_toks filter
  | SDelete table filter => TDelete :: TFrom :: TIdent table :: filter_toks filter
  | SCreateIndex table col => [TCreate; TIndex; TOn; TIdent table; TLParen; TIdent col; TRParen]
  end.

Definition print (st : Statement) : list Z := concat ((fun t => show_tok t ++ [32]) <$> toks st).

(** ** Well-formed statements *)

Section Stmt.
Context `{UnicodeLaws}.

(** A folded identifier that is not a keyword. *)
Definition ident_ok (s : list Z) : Prop := word s = true /\ to_ascii_lowercase s = s /\ keyword (to_ascii_uppercase s) = None.
Definition lit_ok (l : Literal) : Prop := match l with LitInt n => in_i 64 n | _ => True end.
Definition filter_ok (f : option Filter) : Prop := match f with Some f => ident_ok (f_column f) /\ lit_ok (f_value f) | None => True end.

Definition stmt_ok (st : Statement) : Prop :=
  match st with
  | SBegin | SCommit | SRollback => True
  | SCreateTable name columns => ident_ok name /\ columns <> [] /\ Forall (fun c => ident_ok (cspec_name c)) columns
  | SInsert table columns rows => ident_ok table /\ match columns with Some cols => cols <> [] /\ Forall ident_ok cols | None => True end /\
      rows <> [] /\ Forall (fun r => r <> [] /\ Forall lit_ok r) rows
  | SSelect columns table filter order_by limit lock =>
      match columns with SelAll => True | SelCols cols => cols <> [] /\ Forall ident_ok cols end /\ ident_ok table /\ filter_ok filter /\
      match order_by with Some o => ident_ok (ob_column o) | None => True end /\ match limit with Some n => 0 <= n < 2 ^ 63 | None => True end
  | SUpdate table sets filter => ident_ok table /\ sets <> [] /\ Forall (fun cv => ident_ok cv.1 /\ lit_ok cv.2) sets /\ filter_ok filter
  | SDelete table filter => ident_ok table /\ filter_ok filter
  | SCreateIndex table col => ident_ok table /\ ident_ok col
  end.

Definition tok_ok (t : Token) : Prop := match t with TIdent s => ident_ok s | TInt n => in_i 64 n | _ => True end.

Lemma lower_facts c : ascii_lower (ascii_lower c) = ascii_lower c /\ ascii_upper (ascii_lower c) = ascii_upper c /\
  is_alphabetic (ascii_lower c) = is_alphabetic c /\ ident_char (ascii_lower c) = ident_char c /\ (ascii_lower c =? 95) = (c =? 95).
Proof.
  unfold ident_char, is_alphanumeric, is_alphabetic, is_ascii_digit, ascii_lower, ascii_upper.
  destruct (is_ascii_upper c) eqn:Eu.
  - assert (Hc : 65 <= c <= 90) by (unfold is_ascii_upper, between in Eu; apply andb_true_iff in Eu; lia).
    assert (A1 : is_ascii_upper (c + 32) = false) by (unfold is_ascii_upper, between; apply andb_false_iff; lia).
    assert (A2 : is_ascii_lower (c + 32) = true) by (unfold is_ascii_lower, between; apply andb_true_iff; lia).
    assert (A3 : is_ascii_lower c = false) by (unfold is_ascii_lower, between; apply andb_false_iff; lia).
    rewrite A1, A2, A3. cbn [orb]. repeat split; lia.
  - by rewrite Eu.
Qed.

Lemma lower_chars w : forallb ident_char (to_ascii_lowercase w) = forallb ident_char w.
Proof.
  unfold to_ascii_lowercase. induction w as [|d w IH]; [done|]. rewrite fmap_cons. cbn [forallb]. rewrite IH.
  by destruct (lower_facts d) as (_ & _ & _ & -> & _).
Qed.

Lemma lower_word w : word (to_ascii_lowercase w) = word w.
Proof.
  destruct w as [|c w]; [done|]. change (to_ascii_lowercase (c :: w)) with (ascii_lower c :: to_ascii_lowercase w). cbn [word].
  rewrite lower_chars. by destruct (lower_facts c) as (_ & _ & -> & _ & ->).
Qed.

Lemma lower_lower w : to_ascii_lowercase (to_ascii_lowercase w) = to_ascii_lowercase w.
Proof. unfold to_ascii_lowercase. rewrite <-list_fmap_compose. apply list_fmap_ext. intros; apply lower_facts. Qed.

Lemma upper_lower w : to_ascii_uppercase (to_ascii_lowercase w) = to_ascii_uppercase w.
Proof. unfold to_ascii_lowercase, to_ascii_uppercase. rewrite <-list_fmap_compose. apply list_fmap_ext. intros; apply lower_facts. Qed.

Lemma lower_ident w : word w = true -> keyword (to_ascii_uppercase w) = None -> ident_ok (to_ascii_lowercase w).
Proof. intros Hw Hk. split; [by rewrite lower_word|]. split; [apply lower_lower|by rewrite upper_lower]. Qed.

Lemma parse_i64_range w n : parse_i64 w = Some n -> in_i 64 n.
Proof.
  unfold parse_i64. destruct (match w with [] => _ | _ => _ end) as [neg ds]. destruct ds as [|d ds]; [done|].
  destruct (digits_val 0 (d :: ds)) as [v|]; [|done]. destruct (_ && _) eqn:E; [|done]. intros [= <-]. apply andb_true_iff in E. unfold in_i. lia.
Qed.

Lemma spelling_ok t w : spelling t w -> tok_ok t.
Proof.
  intros Hs. destruct Hs as [b|w n Hw Hn|c t Hp|w t Hw Hk|w Hw Hk]; [done|by eapply parse_i64_range| | |by apply lower_ident].
  - unfold punct in Hp. repeat (case_match; [by injection Hp as <-|]). done.
  - apply keyword_tok in Hk. by destruct t.
Qed.

Lemma spells_ok ts s : spells ts s -> Forall tok_ok ts.
Proof. induction 1 as [|gap t w ts rest Hgap Hsp Hst Hts IH]; [done|]. constructor; [by eapply spelling_ok|done]. Qed.

(** A separated list is well-formed token by token exactly when its items are. *)
Lemma sep_ok {A} (f : A -> list Token) (Q : A -> Prop) l : (forall x, Forall tok_ok (f x) <-> Q x) -> Forall tok_ok (sep f l) <-> Forall Q l.
Proof.
  intros Hf. induction l as [|x l IH]; cbn [sep]; [done|]. rewrite Forall_app, Forall_cons, Hf.
  destruct l as [|y l]; [by rewrite !Forall_nil|]. rewrite (Forall_cons tok_ok), IH. cbn [tok_ok]. tauto.
Qed.

Lemma ident_toks l : Forall tok_ok (sep ident l) <-> Forall ident_ok l.
Proof. apply sep_ok. intros x. unfold ident. rewrite Forall_cons, Forall_nil. cbn [tok_ok]. tauto. Qed.

Lemma lit_tok_ok l : tok_ok (lit_tok l) <-> lit_ok l.
Proof. by destruct l. Qed.

Lemma op_tok_ok o : tok_ok (op_tok o).
Proof. by destruct o. Qed.

Lemma row_toks rows : Forall tok_ok (sep row rows) <-> Forall (Forall lit_ok) rows.
Proof.
  apply sep_ok. intros x. unfold row. rewrite Forall_cons, Forall_app, Forall_cons, Forall_nil, (sep_ok _ lit_ok); [cbn [tok_ok]; tauto|].
  intros y. rewrite Forall_cons, Forall_nil, lit_tok_ok. tauto.
Qed.

Lemma column_toks l : Forall tok_ok (sep column l) <-> Forall (fun c => ident_ok (cspec_name c)) l.
Proof. apply sep_ok. intros x. unfold column. rewrite !Forall_cons, Forall_nil. cbn [tok_ok]. tauto. Qed.

Lemma set_toks l : Forall tok_ok (sep set_item l) <-> Forall (fun cv => ident_ok cv.1 /\ lit_ok cv.2) l.
Proof. apply sep_ok. intros x. unfold set_item. rewrite !Forall_cons, Forall_nil, lit_tok_ok. cbn [tok_ok]. tauto. Qed.

Lemma filter_ok_iff ts f : g_filter ts f -> Forall tok_ok ts <-> filter_ok f.
Proof.
  intros [|c op v]; [done|]. rewrite !Forall_cons, Forall_nil, lit_tok_ok. cbn [tok_ok filter_ok f_column f_value].
  pose proof (op_tok_ok op). tauto.
Qed.

(** Split a goal about all tokens into one about each token and list. *)
Ltac tok_by_tok := repeat first [rewrite Forall_cons|rewrite Forall_app|rewrite Forall_nil|rewrite column_toks|rewrite row_toks|rewrite set_toks].

Lemma g_stmt_ok ts st : g_stmt ts st -> Forall tok_ok ts -> stmt_ok st.
Proof.
  intros Hg. destruct Hg as [| | |name columns Hne|table col|table ts columns rows Hin Hne Hrne
    |tc columns table tf filter to order_by tl limit tk lock Hgc Hgf Hgo Hgl Hgk|table sets ts filter Hne Hgf|table ts filter Hgf];
    cbn [stmt_ok]; tok_by_tok; cbn [tok_ok]; try tauto.
  - intros (_ & _ & Ht & Hts & _ & Hr). split; [done|]. split.
    + destruct Hin as [|cols Hc]; [done|]. rewrite Forall_cons, Forall_app, ident_toks in Hts. tauto.
    + split; [done|]. apply Forall_forall. intros r Hr'. rewrite Forall_forall in Hrne, Hr. by auto.
  - intros (_ & Hc & _ & Ht & Hf & Ho & Hl & _). split; [destruct Hgc; [done|]; by rewrite ident_toks in Hc|]. split; [done|].
    split; [by apply (filter_ok_iff _ _ Hgf)|]. split; [destruct Hgo; rewrite ?Forall_cons in Ho; cbn [tok_ok] in Ho; try done; apply Ho|].
    destruct Hgl as [|n Hn]; [done|]. rewrite !Forall_cons in Hl. cbn [tok_ok] in Hl. unfold in_i in Hl. lia.
  - intros (_ & Ht & _ & Hs & Hf). rewrite (filter_ok_iff _ _ Hgf) in Hf. tauto.
  - intros (_ & _ & Ht & Hf). rewrite (filter_ok_iff _ _ Hgf) in Hf. tauto.
Qed.

Lemma g_filter_toks f : g_filter (filter_toks f) f.
Proof. destruct f as [[c op v]|]; constructor. Qed.

Lemma toks_ok st : stmt_ok st -> g_stmt (toks st) st /\ Forall tok_ok (toks st).
Proof.
  intros Hs. assert (Hg : g_stmt (toks st) st).
  { destruct st; cbn [stmt_ok toks] in *.
    1-3: constructor.
    - apply g_create_table. tauto.
    - destruct Hs as (_ & Hc & Hr & Hf). apply g_insert; [destruct columns; constructor; apply Hc|done|].
      eapply Forall_impl; [exact Hf|]. by intros x [? ?].
    - destruct Hs as (Hc & _ & _ & _ & Hl). apply g_select.
      + destruct columns; constructor. apply Hc.
      + apply g_filter_toks.
      + destruct order_by as [[c []]|]; constructor.
      + destruct limit; constructor. apply Hl.
      + destruct lock as [[]|]; constructor.
    - apply g_update; [tauto|apply g_filter_toks].
    - apply g_delete, g_filter_toks.
    - apply g_create_index. }
  split; [done|]. destruct st; cbn [stmt_ok toks] in *; tok_by_tok; cbn [tok_ok]; try tauto.
  - destruct Hs as (Ht & Hc & Hr & Hf). do 3 (split; [done|]). split.
    + destruct columns; [|done]. rewrite Forall_cons, Forall_app, ident_toks, Forall_cons, Forall_nil. cbn [tok_ok]. tauto.
    + split; [done|]. eapply Forall_impl; [exact Hf|]. by intros x [? ?].
  - destruct Hs as (Hc & Ht & Hf & Ho & Hl). split; [done|]. split; [destruct columns; [by repeat constructor|]; rewrite ident_toks; tauto|].
    split; [done|]. split; [done|]. split; [by apply (filter_ok_iff _ _ (g_filter_toks filter))|].
    split; [destruct order_by as [[c []]|]; cbn [order_toks ob_column ob_desc] in *; tok_by_tok; cbn [tok_ok]; tauto|]. split.
    + destruct limit; [|done]. tok_by_tok. cbn [tok_ok]. unfold in_i. split; [done|]. split; [lia|done].
    + destruct lock as [[]|]; by repeat constructor.
  - destruct Hs as (Ht & Hne & Hs & Hf). do 4 (split; [done|]). by apply (filter_ok_iff _ _ (g_filter_toks filter)).
  - destruct Hs as (Ht & Hf). do 3 (split; [done|]). by apply (filter_ok_iff _ _ (g_filter_toks filter)).
Qed.

Lemma is_digit_of n : 0 <= n < 10 -> is_ascii_digit (48 + n) = true.
Proof. intros Hn. unfold is_ascii_digit, between. apply andb_true_iff. lia. Qed.

Lemma dec_digits : forall fuel n acc, 0 <= n < 10 ^ Z.of_nat fuel -> (0 < fuel)%nat -> forallb is_ascii_digit acc = true ->
  forallb is_ascii_digit (dec fuel n acc) = true /\ dec fuel n acc <> [] /\ digits_val 0 (dec fuel n acc) = digits_val n acc.
Proof.
  induction fuel as [|fuel IH]; intros n acc Hn Hf Ha; [lia|]. cbn [dec]. destruct (n <? 10) eqn:E; zbool.
  - cbn [forallb digits_val]. rewrite is_digit_of, Ha by lia. split; [done|]. split; [done|]. f_equal. lia.
  - assert (Hp : 10 ^ Z.of_nat (S fuel) = 10 * 10 ^ Z.of_nat fuel) by (rewrite Nat2Z.inj_succ; apply Z.pow_succ_r; lia).
    pose proof (Z.mod_pos_bound n 10). pose proof (Z.div_mod n 10).
    assert (Hd : 0 <= n / 10 < 10 ^ Z.of_nat fuel) by (split; [apply Z.div_pos; lia|apply Z.div_lt_upper_bound; lia]).
    destruct fuel as [|fuel]; [simpl in Hd; assert (1 <= n / 10) by (apply Z.div_le_lower_bound; lia); lia|].
    destruct (IH (n / 10) ((48 + n mod 10) :: acc)) as (D1 & D2 & D3); [done|lia|cbn [forallb]; by rewrite is_digit_of, Ha by lia|].
    split; [done|]. split; [done|]. rewrite D3. cbn [digits_val]. rewrite is_digit_of by lia. f_equal. lia.
Qed.

Lemma show_int_spec n : in_i 64 n -> number (show_int n) = true /\ parse_i64 (show_int n) = Some n.
Proof.
  intros Hn. assert (Hr : - 2 ^ 63 <= n < 2 ^ 63) by exact Hn. unfold show_int. destruct (n <? 0) eqn:E; zbool.
  - destruct (dec_digits 20 (- n) []) as (D1 & D2 & D3); [change (10 ^ Z.of_nat 20) with 100000000000000000000; lia|lia|done|].
    set (ds := dec 20 (- n) []) in *. split; [done|]. unfold parse_i64. cbn [Z.eqb Pos.eqb]. destruct ds as [|d ds]; [done|]. rewrite D3.
    cbn [digits_val]. rewrite (proj2 (andb_true_iff _ _)) by (split; [apply Z.leb_le|apply Z.ltb_lt]; lia). f_equal. lia.
  - destruct (dec_digits 20 n []) as (D1 & D2 & D3); [change (10 ^ Z.of_nat 20) with 100000000000000000000; lia|lia|done|].
    set (ds := dec 20 n []) in *. destruct ds as [|d ds]; [done|].
    assert (Hd : d <> 45 /\ d <> 43).
    { cbn [forallb] in D1. apply andb_true_iff in D1 as [D1 _]. unfold is_ascii_digit, between in D1. apply andb_true_iff in D1. lia. }
    unfold number, parse_i64. rewrite (proj2 (Z.eqb_neq d 45)), (proj2 (Z.eqb_neq d 43)) by apply Hd. split; [done|].
    rewrite D3. cbn [digits_val]. by rewrite (proj2 (andb_true_iff _ _)) by (split; [apply Z.leb_le|apply Z.ltb_lt]; lia).
Qed.

(** Every token has its printed form as a spelling. *)
Lemma show_spelling t : tok_ok t -> t <> TEof -> spelling t (show_tok t).
Proof.
  intros Ht He. destruct t; try done; try (apply sp_punct; reflexivity); try (apply sp_keyword; reflexivity).
  - destruct t; apply sp_keyword; reflexivity.
  - destruct (show_int_spec n Ht) as [D1 D2]. by apply sp_int.
  - apply sp_str.
  - destruct Ht as (Hw & Hl & Hk). rewrite <-Hl at 1. by apply sp_ident.
Qed.

Lemma space_stops t : stops t (Some 32).
Proof. destruct t; done. Qed.

Lemma show_spells ts : Forall tok_ok ts -> TEof ∉ ts -> spells ts (concat ((fun t => show_tok t ++ [32]) <$> ts)).
Proof.
  intros Hok He. destruct ts as [|t ts]; [by constructor|]. rewrite fmap_cons. cbn [concat].
  assert (Hgo : forall ts, Forall tok_ok ts -> TEof ∉ ts -> spells ts (32 :: concat ((fun t => show_tok t ++ [32]) <$> ts))).
  { clear. induction ts as [|t ts IH]; intros Hok He; [by constructor|]. apply Forall_cons in Hok as [Ht Hok]. apply not_elem_of_cons in He as [Hte He].
    rewrite fmap_cons. cbn [concat]. rewrite <-app_assoc. apply (spells_cons [32] t (show_tok t) ts); [done|by apply show_spelling| |by apply IH].
    apply space_stops. }
  apply Forall_cons in Hok as [Ht Hok]. apply not_elem_of_cons in He as [Hte He]. rewrite <-app_assoc.
  apply (spells_cons [] t (show_tok t) ts); [done|by apply show_spelling|apply space_stops|by apply Hgo].
Qed.

Lemma body_no_eof ts s : spells ts s -> TEof ∉ body ts.
Proof.
  intros Hts. apply spells_no_eof in Hts. unfold body. case_decide; [|done]. intros Hin. apply Hts.
  apply elem_of_take in Hin as (i & Hi & _). by eapply list_elem_of_lookup_2.
Qed.

(** The tokenizer decides the lexical grammar, [parse] the whole one. *)
Lemma tokenize_exact s : match tokenize (Tokenizer_new s) with
  | Ok l => exists ts, l = ts ++ [TEof] /\ spells ts s
  | Err e => e = EInvalidArgument /\ forall ts, ~ spells ts s
  | Panic => False
  end.
Proof.
  unfold tokenize. pose proof (tokenize_loop_sound (tk_len (Tokenizer_new s)) [] s (tk_len_new s)) as Hs.
  destruct (tokenize_loop _ _ _) as [l|e|] eqn:E; [done| |done]. split; [done|]. intros ts Hts.
  rewrite (tokenize_loop_complete ts s Hts) in E by apply tk_len_new. done.
Qed.

Lemma parse_sound sql : match parse sql with
  | Ok st => exists ts, spells ts sql /\ g_text ts st
  | Err e => e = EInvalidArgument
  | Panic => False
  end.
Proof.
  unfold parse. pose proof (tokenize_exact sql) as Ht. destruct (tokenize _) as [l|e|]; cbn [res_bind]; [|by destruct Ht|done].
  destruct Ht as (ts & -> & Hts). rewrite strip_eof. pose proof (body_no_eof _ _ Hts) as He.
  destruct (safe_statement _ _ (at_new _ He)) as (o & p' & E & Ho). rewrite E. cbn [fst]. destruct o as [st|e|]; [|done..].
  destruct Ho as (ts' & r' & _ & _ & -> & Hg). exists ts. split; [done|]. by apply body_text.
Qed.

Lemma parse_complete sql ts st : spells ts sql -> g_text ts st -> parse sql = Ok st.
Proof.
  intros Hts Hg. unfold parse, tokenize. rewrite (tokenize_loop_complete ts sql Hts) by apply tk_len_new. cbn [res_bind app]. rewrite strip_eof.
  apply body_text in Hg. pose proof (body_no_eof _ _ Hts) as He.
  by destruct (runs_statement _ _ Hg _ (at_new _ He)) as (p2 & -> & _).
Qed.
End Stmt.

(** ** Properties *)

(** C16: [parse] decides the SQL subset.  For every input it returns a statement
    or the error [InvalidArgument] (no panic, no endless loop), and it returns
    [Ok st] exactly when the characters spell a token sequence that is a sentence
    for [st], with at most one semicolon at the end. *)
Theorem sql_parse_exact `{UnicodeLaws} (sql : list Z) :
  (forall st, parse sql = Ok st <-> exists ts, spells ts sql /\ g_text ts st) /\
  ((exists st, parse sql = Ok st) \/ parse sql = Err EInvalidArgument).
Proof.
  pose proof (parse_sound sql) as Hs. split.
  - intros st. split; [intros E; by rewrite E in Hs|]. intros (ts & Hts & Hg). by eapply parse_complete.
  - destruct (parse sql) as [st|e|]; [left; by exists st|right; by subst|done].
Qed.

(** C17: Every statement [parse] returns is well formed: identifiers are words
    folded to lower case that are not keywords, integers fit an [i64], a limit is
    not negative, and the lists of columns, rows and assignments are not empty. *)
Theorem sql_parse_typed `{UnicodeLaws} (sql : list Z) :
  match parse sql with Ok st => stmt_ok st | Err e => e = EInvalidArgument | Panic => False end.
Proof.
  pose proof (parse_sound sql) as Hs. destruct (parse sql) as [st|e|]; [|done..]. destruct Hs as (ts & Hts & Hg).
  apply spells_ok in Hts. destruct Hg as [Hg|(ts' & -> & Hg)]; [by eapply g_stmt_ok|]. apply Forall_app in Hts as [Hts _]. by eapply g_stmt_ok.
Qed.

(** Printing and parsing again gives the same statement, for every well-formed
    statement: quotes in strings are doubled and undone, negative integers and the
    largest [i64] included. *)
Theorem sql_roundtrip `{UnicodeLaws} (st : Statement) : stmt_ok st -> parse (print st) = Ok st.
Proof.
  intros Hs. destruct (toks_ok st Hs) as [Hg Hok]. apply (parse_complete _ (toks st)); [|by left]. unfold print.
  apply show_spells; [done|]. apply g_stmt_not_eof in Hg. exact Hg.
Qed.

(** ** An instance and concrete statements *)

(** Latin-1 letters above ASCII. *)
#[export] Instance Latin1 : Unicode := {|
  uni_alphabetic c := (c =? 0xAA) || (c =? 0xB5) || (c =? 0xBA) || (between 0xC0 c 0xFF && negb (c =? 0xD7) && negb (c =? 0xF7));
  uni_numeric c := (c =? 0xB2) || (c =? 0xB3) || (c =? 0xB9) || between 0xBC c 0xBE;
|}.

#[export] Instance Latin1_laws : UnicodeLaws.
Proof.
  split. intros c Hc. unfold uni_alphabetic, Latin1, is_whitespace, between in *.
  rewrite !orb_true_iff, !andb_true_iff in Hc. repeat rewrite ?orb_false_iff, ?andb_false_iff. lia.
Defined.

Lemma sql_parse_exact_witness :
  parse (str "delete From Users where NAME = 'it''s';") =
    Ok (SDelete (str "users") (Some (mkFilter (str "name") OpEq (LitStr (str "it's"))))) /\
  exists ts, spells ts (str "delete From Users where NAME = 'it''s';") /\
    g_text ts (SDelete (str "users") (Some (mkFilter (str "name") OpEq (LitStr (str "it's"))))).
Proof.
  split; [vm_compute; reflexivity|].
  apply (proj1 (sql_parse_exact (str "delete From Users where NAME = 'it''s';")) _). vm_compute. reflexivity.
Defined.

Lemma sql_parse_typed_witness :
  parse (str "SELECT * FROM t LIMIT 5") = Ok (SSelect SelAll (str "t") None None (Some 5) None) /\
  stmt_ok (SSelect SelAll (str "t") None None (Some 5) None).
Proof. split; [vm_compute; reflexivity|]. exact (sql_parse_typed (str "SELECT * FROM t LIMIT 5")). Defined.

Definition demo_stmt : Statement :=
  SInsert (str "t") (Some [str "a"; str "b_1"]) [[LitInt (- 2 ^ 63); LitStr (str "it's")]; [LitNull; LitInt (2 ^ 63 - 1)]].

Lemma sql_roundtrip_witness : stmt_ok demo_stmt /\ parse (print demo_stmt) = Ok demo_stmt.
Proof.
  assert (Hs : stmt_ok demo_stmt).
  { unfold demo_stmt. cbn [stmt_ok]. split; [repeat split|]. split; [split; [discriminate|repeat constructor]|]. split; [discriminate|].
    repeat constructor; (discriminate || (unfold lit_ok, in_i; lia)). }
  split; [exact Hs|]. apply sql_roundtrip. exact Hs.
Defined.
