(* ===== verification/BtreeRedo.v ===== *)
(** * B+Tree redo

    Models [pg-am-btree/src/redo.rs] (the six redo handlers) and
    [apply_split_clr] of [index.rs], which redo and undo share.

    The copy step and the compensation record change two pages under both write
    guards: [with_two_pages] pins them in the source's order, runs an action on
    the pair of contents and drops the guards.  A record that names one page
    twice would wait for its own latch forever; the model gives [Panic], so that
    no statement about success covers it. *)

From S2P Require Import Prelude Types LinePointer SlottedPage Tuple Clog WalRecord Superblock PageAllocator.
From S2P Require Import Recovery HeapRedo BtreeKey BtreePage BtreeNode.
Local Open Scope Z_scope.
Local Open Scope rust_scope.

Definition btree_to_storage (e : BTreeError) : StorageError :=
  match e with BtStorage s => s | _ => MetadataCorrupted end.

(** [m.map_err(btree_to_storage)?] *)
Definition lift_tree {S A : Type} (m : M S BTreeError A) : M S StorageError A := fun s =>
  let r := m s in (map_err btree_to_storage (fst r), snd r).

(** ** Page actions *)

Definition init_fresh_tree (level flags : Z) : M Page StorageError unit :=
  mmodify (fun page => snd (BtreePage_init_if_fresh page level flags)).

Definition btree_insert_page (lsn : Lsn) (rec : BTreeInsertRecord) : M Page StorageError unit :=
  if_older lsn (init_fresh_tree (bi_level rec) (bi_flags rec) ;!
    lift_tree (tree_step (fun page => insert_entry_at page (bi_slot_id rec) (bi_tuple_bytes rec))) ;!
    mmodify (stamp_pd_lsn lsn)).

Definition btree_delete_page (lsn : Lsn) (rec : BTreeDeleteRecord) : M Page StorageError unit :=
  if_older lsn (lift_tree (tree_step (fun page => remove_entry_at page (bd_slot_id rec))) ;! mmodify (stamp_pd_lsn lsn)).

Definition prepare_right_page (lsn : Lsn) (rec : BTreeSplitPrepareRecord) : M Page StorageError unit :=
  if_older lsn
    (lift_tree (tree_step (fun page => init_right_page page (sp_left_page rec) (sp_left_old_next rec) (sp_level rec))) ;!
     mmodify (stamp_pd_lsn lsn)).

(** The last key of the left page must be the record's high key. *)
Definition check_high_key (rec : BTreeSplitPrepareRecord) (page : Page) : res StorageError unit :=
  let count := slot_count page mod 2 ^ 16 in
  if count >? 0 then
    let? t := map_err (fun e => btree_to_storage (BtHeap e)) (tuple page (count - 1)) in
    match t with
    | None => Err MetadataCorrupted
    | Some bytes =>
        let? key := map_err btree_to_storage
                      (if sp_level rec =? 0 then let? d := decode_leaf_entry bytes in Ok (fst d)
                       else let? d := decode_internal_entry bytes in Ok (fst d)) in
        if bool_decide (key = sp_high_key_bytes rec) then Ok tt else Err MetadataCorrupted
    end
  else Ok tt.

Definition prepare_left_page (lsn : Lsn) (rec : BTreeSplitPrepareRecord) : M Page StorageError unit :=
  if_older lsn (init_fresh_tree (sp_level rec) (flags_for_level (sp_level rec)) ;!
    (fun page => (check_high_key rec page, page)) ;!
    lift_tree (tree_step (fun page => apply_prepare_left page (sp_new_right_page rec))) ;!
    mmodify (stamp_pd_lsn lsn)).

(** [if header.pd_upper == 0 { return Err(..) }] *)
Definition require_initialized : M Page StorageError unit := fun page =>
  (if pd_upper (header page) =? 0 then Err MetadataCorrupted else Ok tt, page).

Definition commit_parent_page (lsn : Lsn) (rec : BTreeSplitCommitRecord) : M Page StorageError unit :=
  if_older lsn (require_initialized ;!
    lift_tree (tree_step (fun page =>
      insert_entry_at page (sm_parent_insert_slot rec) (encode_internal_entry (sm_separator_key rec) (sm_right_page rec)))) ;!
    mmodify (stamp_pd_lsn lsn)).

Definition commit_left_page (lsn : Lsn) : M Page StorageError unit :=
  if_older lsn (require_initialized ;! lift_tree (tree_step apply_commit_left) ;! mmodify (stamp_pd_lsn lsn)).

(** The body of the copy handler on the two pages; the result says whether the
    right page is then flushed. *)
Definition copy_pages (lsn : Lsn) (rec : BTreeSplitCopyRecord) : M (Page * Page) BTreeError bool :=
  let! pages := mget in
  let left_lsn := page_pd_lsn (fst pages) in
  let right_lsn := page_pd_lsn (snd pages) in
  if negb (left_lsn =? sc_left_page_pre_lsn rec) then
    if left_lsn >=? lsn then
      if right_lsn >=? lsn then mret false else mthrow (BtStorage MetadataCorrupted)
    else if right_lsn >=? lsn then
      apply_split_copy (sc_copy_start_slot rec) false ;!
      on_left (mmodify (stamp_pd_lsn lsn)) ;!
      mret false
    else mthrow (BtStorage MetadataCorrupted)
  else
    let move_to_right := right_lsn <? lsn in
    apply_split_copy (sc_copy_start_slot rec) move_to_right ;!
    (if move_to_right then on_right (mmodify (stamp_pd_lsn lsn)) else mret tt) ;!
    on_left (mmodify (stamp_pd_lsn lsn)) ;!
    mret true.

Definition clr_is_unlink (rec : BTreeSplitCLRRecord) : bool :=
  (clr_parent_page rec =? PageId_INVALID) && (clr_new_root_page rec =? PageId_INVALID) && (clr_meta_page rec =? PageId_INVALID).

(** Step 1 of [apply_split_clr], on the left and right page. *)
Definition clr_pages (lsn : Lsn) (rec : BTreeSplitCLRRecord) : M (Page * Page) BTreeError unit :=
  let! pages := mget in
  let left := fst pages in
  let right := snd pages in
  if page_pd_lsn left <? lsn then
    if clr_is_unlink rec then
      let! right_next := of_result (next right) in
      on_left (tree_step (fun page => set_next page right_next)) ;!
      on_left (tree_step (fun page => set_flag page BTREE_FLAG_SPLIT_INCOMPLETE false)) ;!
      on_right (mmodify (stamp_pd_lsn lsn)) ;!
      on_left (mmodify (stamp_pd_lsn lsn))
    else if slot_count right >? 0 then
      let! right_first := of_result (entry_bytes right 0) in
      (if slot_count left >? 0 then
         let! truncate_at := of_result (entry_lower_bound left right_first (clr_level rec =? 0)) in
         if truncate_at =? 0 then mthrow BtCorrupted else apply_split_copy (truncate_at mod 2 ^ 16) false
       else mret tt) ;!
      on_left (tree_step (fun page => set_next page (clr_right_page rec))) ;!
      on_left (tree_step apply_commit_left) ;!
      on_right (mmodify (stamp_pd_lsn lsn)) ;!
      on_left (mmodify (stamp_pd_lsn lsn))
    else if negb (page_never_had_entries right) then mthrow BtCorrupted
    else
      apply_split_copy (clr_copy_start_slot rec) true ;!
      on_right (mmodify (stamp_pd_lsn lsn)) ;!
      on_left (tree_step (fun page => set_next page (clr_right_page rec))) ;!
      on_left (tree_step apply_commit_left) ;!
      on_left (mmodify (stamp_pd_lsn lsn))
  else if negb (clr_is_unlink rec) && (slot_count right =? 0) && page_never_had_entries right
  then mthrow BtCorrupted else mret tt.

(** [if page_pd_lsn(page) < lsn { .. }] around a tree action. *)
Definition tree_if_older (lsn : Lsn) (act : M Page BTreeError unit) : M Page BTreeError unit := fun page =>
  if page_pd_lsn page <? lsn then act page else (Ok tt, page).

Definition clr_root_page (lsn : Lsn) (rec : BTreeSplitCLRRecord) : M Page BTreeError unit :=
  tree_if_older lsn (mmodify (fun page => BtreePage_init page ((clr_level rec + 1) mod 2 ^ 8) BTREE_FLAG_ROOT) ;!
    add_all [encode_internal_entry [] (clr_left_page rec); encode_internal_entry (clr_separator_key rec) (clr_right_page rec)] ;!
    mmodify (stamp_pd_lsn lsn)).

Definition clr_parent_page_action (lsn : Lsn) (rec : BTreeSplitCLRRecord) : M Page BTreeError unit :=
  tree_if_older lsn (tree_step (fun page => insert_entry_at page (clr_parent_insert_slot rec)
      (encode_internal_entry (clr_separator_key rec) (clr_right_page rec))) ;!
    mmodify (stamp_pd_lsn lsn)).

Definition clr_meta_page_action (lsn : Lsn) (rec : BTreeSplitCLRRecord) : M Page BTreeError unit :=
  tree_if_older lsn (tree_step (fun page => insert_entry_at page (slot_count page mod 2 ^ 16)
      (encode_meta_record (clr_new_root_page rec) ((clr_level rec + 1) mod 2 ^ 8))) ;!
    mmodify (stamp_pd_lsn lsn)).

(** ** On the pool *)

Section handlers.
Context {BC : Bincode} {P : Type} {PP : PagePool P} {C : Type} {CA : ClogAccessor C} {W : Type} {PW : PageWal W}.

Definition tree_pool {A : Type} (m : M P StorageError A) : M P BTreeError A := fun pool =>
  let r := m pool in (map_err BtStorage (fst r), snd r).

(** Pin both pages, run [act], drop the right guard, run [held] while the left
    guard is still held, drop the left guard. *)
Definition with_two_pages {A : Type} (left right : PageId) (act : M (Page * Page) BTreeError A) (held : A -> M P BTreeError unit)
    : M P BTreeError unit := fun pool =>
  if left =? right then (Panic, pool) else
  match pin_mut left pool with
  | (Ok pl, pool) =>
      match pin_mut right pool with
      | (Ok pr, pool) =>
          let r := act (pl, pr) in
          let pool := drop_mut right (snd (snd r)) pool in
          let h := match fst r with
                   | Ok a => held a pool
                   | Err e => (Err e, pool)
                   | Panic => (Panic, pool)
                   end in
          (fst h, drop_mut left (fst (snd r)) (snd h))
      | (Err e, pool) => (Err (BtStorage e), drop_mut left pl pool)
      | (Panic, pool) => (Panic, drop_mut left pl pool)
      end
  | (Err e, pool) => (Err (BtStorage e), pool)
  | (Panic, pool) => (Panic, pool)
  end.

Definition with_tree_page (p : PageId) (act : M Page BTreeError unit) : M P BTreeError unit := fun pool =>
  match pin_mut p pool with
  | (Ok page, pool) => let r := act page in (fst r, drop_mut p (snd r) pool)
  | (Err e, pool) => (Err (BtStorage e), pool)
  | (Panic, pool) => (Panic, pool)
  end.

(** The pages half of the copy handler. *)
Definition split_copy_redo (rec : BTreeSplitCopyRecord) (lsn : Lsn) : M P BTreeError unit :=
  with_two_pages (sc_left_page rec) (sc_right_page rec) (copy_pages lsn rec)
    (fun flush_right => if (flush_right : bool) then tree_pool (flush (sc_right_page rec)) else mret tt).

Definition apply_split_clr (rec : BTreeSplitCLRRecord) (lsn : Lsn) : M P BTreeError unit :=
  with_two_pages (clr_left_page rec) (clr_right_page rec) (clr_pages lsn rec) (fun _ => mret tt) ;!
  tree_pool (flush (clr_right_page rec)) ;!
  (if negb (clr_new_root_page rec =? PageId_INVALID)
   then with_tree_page (clr_new_root_page rec) (clr_root_page lsn rec)
   else if negb (clr_parent_page rec =? PageId_INVALID)
   then with_tree_page (clr_parent_page rec) (clr_parent_page_action lsn rec)
   else mret tt) ;!
  (if negb (clr_meta_page rec =? PageId_INVALID)
   then with_tree_page (clr_meta_page rec) (clr_meta_page_action lsn rec)
   else mret tt).

Abbreviation Ctx := (RedoContext P C W).

(** [require_pool(ctx)?] before the context is touched. *)
Definition require_pool : M Ctx StorageError unit := fun c =>
  (if buffer_pool c is Some _ then Ok tt else Err InvalidOperation, c).

Definition with_splits (t : IncompleteSplitTracker) (c : Ctx) : Ctx :=
  mkRedoContext (buffer_pool c) (page_allocator c) (ctx_clog c) (ctx_att c) (ctx_dpt c) t (data_file c).

Definition on_splits (f : IncompleteSplitTracker -> IncompleteSplitTracker) : M Ctx StorageError unit :=
  mmodify (fun c => with_splits (f (incomplete_splits c)) c).

Definition BTreeInsertHandler_apply (record : WalRecord) : M Ctx StorageError unit :=
  let! rec := of_res (BTreeInsertRecord_decode (wr_payload record)) in
  on_pool (with_page (bi_page_id rec) (btree_insert_page (wr_lsn record) rec)).

Definition BTreeDeleteHandler_apply (record : WalRecord) : M Ctx StorageError unit :=
  let! rec := of_res (BTreeDeleteRecord_decode (wr_payload record)) in
  on_pool (with_page (bd_page_id rec) (btree_delete_page (wr_lsn record) rec)).

Definition BTreeSplitPrepareHandler_apply (record : WalRecord) : M Ctx StorageError unit :=
  let! rec := of_res (BTreeSplitPrepareRecord_decode (wr_payload record)) in
  require_pool ;!
  on_splits (mark_prepare (sp_left_page rec) (sp_new_right_page rec) (sp_level rec) (sp_left_old_next rec) (wr_lsn record)) ;!
  on_pool (with_page (sp_new_right_page rec) (prepare_right_page (wr_lsn record) rec) ;!
           with_page (sp_left_page rec) (prepare_left_page (wr_lsn record) rec)).

Definition BTreeSplitCopyHandler_apply (record : WalRecord) : M Ctx StorageError unit :=
  let! rec := of_res (BTreeSplitCopyRecord_decode (wr_payload record)) in
  require_pool ;!
  on_splits (mark_copy (sc_left_page rec) (sc_copy_start_slot rec)) ;!
  on_pool (lift_tree (split_copy_redo rec (wr_lsn record))).

Definition BTreeSplitCommitHandler_apply (record : WalRecord) : M Ctx StorageError unit :=
  let! rec := of_res (BTreeSplitCommitRecord_decode (wr_payload record)) in
  require_pool ;!
  on_splits (split_clear (sm_left_page rec)) ;!
  on_pool (with_page (sm_parent_page rec) (commit_parent_page (wr_lsn record) rec) ;!
           with_page (sm_left_page rec) (commit_left_page (wr_lsn record))).

Definition BTreeSplitClrRedoHandler_apply (record : WalRecord) : M Ctx StorageError unit :=
  let! rec := of_res (BTreeSplitCLRRecord_decode (wr_payload record)) in
  require_pool ;!
  on_splits (split_clear (clr_left_page rec)) ;!
  on_pool (lift_tree (apply_split_clr rec (wr_lsn record))).

Definition btree_redo_handlers : list (RedoHandler P C W) :=
  [mkRedoHandler BTreeInsert BTreeInsertHandler_apply; mkRedoHandler BTreeDelete BTreeDeleteHandler_apply;
   mkRedoHandler BTreeSplitPrepare BTreeSplitPrepareHandler_apply; mkRedoHandler BTreeSplitCopy BTreeSplitCopyHandler_apply;
   mkRedoHandler BTreeSplitCommit BTreeSplitCommitHandler_apply; mkRedoHandler BTreeSplitCLR BTreeSplitClrRedoHandler_apply].

End handlers.

(** ** Lemmas: page actions are guarded by the page LSN *)

Lemma copy_within_wf {E} s e d (l l' : list Z) : page_wf l -> copy_within (E:=E) s e d l = Ok l' -> page_wf l'.
Proof.
  unfold copy_within. intros Hp H. apply res_bind_ok in H as (b & Hb & H). eapply slice_set_wf, H; [|done].
  unfold slice_get in Hb. case_if Hb. apply Ok_inj in Hb as <-. destruct Hp. auto with wf.
Qed.

Lemma insert_entry_wf page slot e page' :
  wf_bytes e -> page_wf page -> insert_entry_at page slot e = Ok page' -> page_wf page'.
Proof.
  unfold insert_entry_at. intros He Hp H. inv_bind H. do 4 case_if H.
  apply res_bind_ok in H as (q1 & H1 & H). apply (slice_set_wf _ _ _ _ He Hp) in H1.
  apply res_bind_ok in H as (q2 & H2 & H). apply (copy_within_wf _ _ _ _ _ H1) in H2.
  apply res_bind_ok in H as (q3 & H3 & H). apply (slice_set_wf _ _ _ _ (wf_le_bytes _ _) H2) in H3.
  apply Ok_inj in H as <-. by do 2 apply put_le_wf.
Qed.

Lemma remove_entry_wf page slot page' : page_wf page -> remove_entry_at page slot = Ok page' -> page_wf page'.
Proof.
  unfold remove_entry_at. intros Hp H. inv_bind H. case_if H. apply res_bind_ok in H as (q & Hq & H).
  apply (copy_within_wf _ _ _ _ _ Hp) in Hq. apply Ok_inj in H as <-. by apply put_le_wf.
Qed.

Lemma BtreePage_init_wf page l f : page_wf page -> page_wf (BtreePage_init page l f).
Proof.
  intros [Hl Hw]. unfold BtreePage_init, set_flags, set_level. do 2 apply put_le_wf.
  edestruct init_with_special_fields as (H1 & H2 & _); [exact Hl| |by split]. bt_consts. lia.
Qed.

Lemma set_link_wf page p page' : page_wf page -> (set_prev page p = Ok page' \/ set_next page p = Ok page') -> page_wf page'.
Proof. intros Hp [H|H]; (eapply slice_set_wf, H; [apply wf_le_bytes|done]). Qed.

Lemma init_right_wf page l n lv page' : page_wf page -> init_right_page page l n lv = Ok page' -> page_wf page'.
Proof.
  unfold init_right_page. intros Hp H. apply res_bind_ok in H as (q & Hq & H).
  eapply set_link_wf; [|by right]. eapply set_link_wf; [by apply BtreePage_init_wf|by left].
Qed.

Lemma prepare_left_wf page r page' : page_wf page -> apply_prepare_left page r = Ok page' -> page_wf page'.
Proof.
  unfold apply_prepare_left. intros Hp H. inv_bind H. case_if H. apply res_bind_ok in H as (q & Hq & H).
  eapply set_link_wf; [|by right]. unfold set_flag in Hq. inv_bind Hq. apply Ok_inj in Hq as <-. by apply put_le_wf.
Qed.

Lemma commit_left_wf page page' : page_wf page -> apply_commit_left page = Ok page' -> page_wf page'.
Proof. unfold apply_commit_left. intros Hp H. inv_bind H. case_if H. inv_bind H. apply Ok_inj in H as <-. by apply put_le_wf. Qed.

Lemma keeps_wf_tree f :
  (forall page page', page_wf page -> f page = Ok page' -> page_wf page') -> keeps_wf (lift_tree (tree_step f)).
Proof.
  intros Hf page a page' Hp. unfold lift_tree, tree_step. destruct (f page) as [q| |] eqn:E; try done.
  intros [= _ <-]. by eapply Hf.
Qed.

Lemma keeps_wf_init_tree l f : keeps_wf (init_fresh_tree l f).
Proof.
  intros page a page' Hp [= _ <-]. unfold BtreePage_init_if_fresh. destruct (_ =? 0); [by apply BtreePage_init_wf|done].
Qed.

Lemma keeps_wf_check (f : Page -> res StorageError unit) : keeps_wf (fun page => (f page, page)).
Proof. intros page a page' Hp H. by injection H as _ <-. Qed.

Lemma keeps_wf_require : keeps_wf require_initialized.
Proof. apply (keeps_wf_check (fun page => if pd_upper (header page) =? 0 then Err MetadataCorrupted else Ok tt)). Qed.

Lemma encode_internal_wf key child : wf_bytes key -> wf_bytes (encode_internal_entry key child).
Proof. intros. apply Forall_app. auto with wf. Qed.

#[export] Hint Resolve keeps_wf_init_tree keeps_wf_check keeps_wf_require : redo.

Lemma btree_insert_guarded lsn rec : in_u 64 lsn -> wf_bytes (bi_tuple_bytes rec) -> guarded lsn (btree_insert_page lsn rec).
Proof.
  intros. apply if_older_guarded, stamps_bind; [auto with redo|]. intros _. apply stamps_bind; [|auto with redo].
  apply keeps_wf_tree. intros ??. by apply insert_entry_wf.
Qed.

Lemma btree_delete_guarded lsn rec : in_u 64 lsn -> guarded lsn (btree_delete_page lsn rec).
Proof.
  intros. apply if_older_guarded, stamps_bind; [|auto with redo]. apply keeps_wf_tree. intros ??. by apply remove_entry_wf.
Qed.

Lemma prepare_right_guarded lsn rec : in_u 64 lsn -> guarded lsn (prepare_right_page lsn rec).
Proof.
  intros. apply if_older_guarded, stamps_bind; [|auto with redo]. apply keeps_wf_tree. intros ??. by apply init_right_wf.
Qed.

Lemma prepare_left_guarded lsn rec : in_u 64 lsn -> guarded lsn (prepare_left_page lsn rec).
Proof.
  intros. apply if_older_guarded, stamps_bind; [auto with redo|]. intros _. apply stamps_bind; [auto with redo|].
  intros _. apply stamps_bind; [|auto with redo]. apply keeps_wf_tree. intros ??. by apply prepare_left_wf.
Qed.

Lemma commit_parent_guarded lsn rec : in_u 64 lsn -> wf_bytes (sm_separator_key rec) -> guarded lsn (commit_parent_page lsn rec).
Proof.
  intros. apply if_older_guarded, stamps_bind; [auto with redo|]. intros _. apply stamps_bind; [|auto with redo].
  apply keeps_wf_tree. intros ??. by apply insert_entry_wf, encode_internal_wf.
Qed.

Lemma commit_left_guarded lsn : in_u 64 lsn -> guarded lsn (commit_left_page lsn).
Proof.
  intros. apply if_older_guarded, stamps_bind; [auto with redo|]. intros _. apply stamps_bind; [|auto with redo].
  apply keeps_wf_tree. intros ??. by apply commit_left_wf.
Qed.

(** ** Lemmas: two pages of the pool *)

Lemma bt_page_wf page : bt_inv page -> page_wf page.
Proof. intros Hb. destruct (bt_bounds _ Hb) as (? & ? & _). by split. Qed.

Lemma stamp_lsn page lsn : page_wf page -> in_u 64 lsn -> page_pd_lsn (stamp_pd_lsn lsn page) = Z.max lsn (page_pd_lsn page).
Proof.
  intros Hp Hl. unfold stamp_pd_lsn. pose proof (pd_lsn_range _ Hp). unfold in_u in *. apply pd_lsn_set; [done|unfold in_u; lia].
Qed.

Lemma stamp_node page lsn :
  bt_inv page -> in_u 64 lsn ->
  bt_inv (stamp_pd_lsn lsn page) /\ node_of (stamp_pd_lsn lsn page) = with_lsn (Z.max lsn (n_lsn (node_of page))) (node_of page).
Proof.
  intros Hb Hl. unfold stamp_pd_lsn. apply (node_set_lsn page (Z.max lsn (page_pd_lsn page))); [done|].
  pose proof (pd_lsn_range _ (bt_page_wf _ Hb)). unfold in_u in *. lia.
Qed.

Section two_pages.
Context {P : Type} `{PagePoolLaws P}.

(** A successful action on two pages whose hold phase succeeds. *)
Lemma with_two_pages_ok {A} l r (act : M (Page * Page) BTreeError A) held (pool : P) a l' r' :
  l <> r -> pool_ok pool -> act (pool_page pool l, pool_page pool r) = (Ok a, (l', r')) -> page_wf l' -> page_wf r' ->
  (forall pl, pool_ok pl -> exists pl', held a pl = (Ok tt, pl') /\ pool_ok pl' /\ (forall q, pool_page pl' q = pool_page pl q)) ->
  exists pool', with_two_pages l r act held pool = (Ok tt, pool') /\ pool_ok pool' /\
    pool_page pool' l = l' /\ pool_page pool' r = r' /\ (forall q, q <> l -> q <> r -> pool_page pool' q = pool_page pool q).
Proof.
  intros Hne Hok Hact Hwl Hwr Hheld. unfold with_two_pages. rewrite (proj2 (Z.eqb_neq _ _)) by done.
  destruct (pin_mut_total pool l Hok) as (pl & pool1 & E1 & Hok1). rewrite E1. apply pin_mut_ok in E1 as (-> & Hq1 & _).
  destruct (pin_mut_total pool1 r Hok1) as (pr & pool2 & E2 & Hok2). rewrite E2. apply pin_mut_ok in E2 as (-> & Hq2 & _).
  rewrite Hq1, Hact. cbn [fst snd].
  destruct (Hheld (drop_mut r r' pool2) (drop_mut_total _ _ _ Hok2)) as (pool3 & E3 & Hok3 & Hq3). rewrite E3. cbn [fst snd].
  eexists. split; [done|]. split; [by apply drop_mut_total|].
  assert (Hpage : forall q, pool_page (drop_mut l l' pool3) q = if decide (q = l) then l' else if decide (q = r) then r' else pool_page pool q).
  { intros q. rewrite drop_mut_page by done. case_decide; [done|]. rewrite Hq3, drop_mut_page by done. case_decide; [done|]. by rewrite Hq2, Hq1. }
  split; [by rewrite Hpage, decide_True|]. split; [by rewrite Hpage, decide_False, decide_True|].
  intros q ??. by rewrite Hpage, !decide_False.
Qed.

(** When the hold phase flushes the right page, that page is on disk and the
    left one is not ahead of it. *)
Lemma with_two_pages_flush {A} l r (act : M (Page * Page) BTreeError A) held (pool pool' : P) a :
  l <> r -> act (pool_page pool l, pool_page pool r) = (Ok a, (pool_page pool' l, pool_page pool' r)) ->
  page_wf (pool_page pool' l) -> page_wf (pool_page pool' r) ->
  held a = tree_pool (flush r) -> with_two_pages l r act held pool = (Ok tt, pool') ->
  pool_disk pool' r = pool_page pool' r /\ (pool_disk pool' l = pool_disk pool l \/ pool_disk pool' l = pool_page pool l).
Proof.
  intros Hne Hact Hwl Hwr Hheld. unfold with_two_pages. rewrite (proj2 (Z.eqb_neq _ _)) by done.
  destruct (pin_mut l pool) as [[pl| |] pool1] eqn:E1; try done. apply pin_mut_ok in E1 as (-> & Hq1 & Hd1).
  destruct (pin_mut r pool1) as [[pr| |] pool2] eqn:E2; try done. apply pin_mut_ok in E2 as (-> & Hq2 & Hd2).
  rewrite Hq1, Hact. cbn [fst snd]. rewrite Hheld. unfold tree_pool.
  destruct (flush r (drop_mut r (pool_page pool' r) pool2)) as [[[]| |] pool3] eqn:E3; try done.
  apply flush_ok in E3 as (Hq3 & Hr3 & Hd3). cbn [fst snd map_err]. intros Heq. injection Heq as Heq.
  assert (Hdl : pool_disk pool' r = pool_disk pool3 r /\ pool_disk pool' l = pool_disk pool3 l) by (by rewrite <-Heq, !drop_mut_disk).
  destruct Hdl as [-> ->]. split.
  - rewrite Hr3, drop_mut_page by done. by rewrite decide_True.
  - destruct (Hd3 l) as [->| ->]; rewrite ?drop_mut_disk, ?drop_mut_page by done.
    + destruct (Hd2 l) as [->| ->]; [destruct (Hd1 l) as [->| ->]; auto|right; by rewrite Hq1].
    + right. rewrite decide_False by done. by rewrite Hq2, Hq1.
Qed.

(** An action that fails before writing. *)
Lemma with_two_pages_err {A} l r (act : M (Page * Page) BTreeError A) held (pool : P) e :
  l <> r -> pool_ok pool ->
  act (pool_page pool l, pool_page pool r) = (Err e, (pool_page pool l, pool_page pool r)) ->
  exists pool', with_two_pages l r act held pool = (Err e, pool') /\ forall q, pool_page pool' q = pool_page pool q.
Proof.
  intros Hne Hok Hact. unfold with_two_pages. rewrite (proj2 (Z.eqb_neq _ _)) by done.
  destruct (pin_mut_total pool l Hok) as (pl & pool1 & E1 & Hok1). rewrite E1. apply pin_mut_ok in E1 as (-> & Hq1 & _).
  destruct (pin_mut_total pool1 r Hok1) as (pr & pool2 & E2 & Hok2). rewrite E2. apply pin_mut_ok in E2 as (-> & Hq2 & _).
  rewrite Hq1, Hact. cbn [fst snd]. eexists. split; [done|]. intros q.
  rewrite drop_mut_page by apply pool_page_wf. case_decide; [by subst|].
  rewrite drop_mut_page by apply pool_page_wf. case_decide; [by subst|]. by rewrite Hq2, Hq1.
Qed.

End two_pages.

(** ** The copy step and crashes *)

Section copy.
Variables (lsn : Lsn) (rec : BTreeSplitCopyRecord) (L0 R0 R0' : Page) (k : nat).
Let L1 := stamp_pd_lsn lsn (rebuilt_page (node_of L0) (take k (entries L0))).
Let R1 := stamp_pd_lsn lsn R0'.

(** The pages before the copy: the left one carries the recorded anchor, the
    right one (initialised by the prepare step) has room for the moved entries. *)
Record copy_ready : Prop := {
  cr_lsn : in_u 64 lsn;
  cr_slot : sc_copy_start_slot rec = Z.of_nat k;
  cr_range : (0 < k <= length (entries L0))%nat;
  cr_left : bt_inv L0;
  cr_live : Forall live_entry (entries L0);
  cr_anchor : page_pd_lsn L0 = sc_left_page_pre_lsn rec;
  cr_before : page_pd_lsn L0 < lsn;
  cr_right : bt_inv R0;
  cr_right_before : page_pd_lsn R0 < lsn;
  cr_moved : add_all (drop k (entries L0)) R0 = (Ok tt, R0');
  cr_right' : bt_inv R0';
  cr_right_lsn : page_pd_lsn R0' = page_pd_lsn R0;
}.

(** The states a crash can leave when the right page is written first, each with
    the pages redo must reach and whether the handler then flushes: nothing
    written; right written (perhaps changed by later records); both written. *)
Inductive copy_state : Page -> Page -> Page -> Page -> bool -> Prop :=
| copied_none : copy_state L0 R0 L1 R1 true
| copied_right R : page_wf R -> lsn <= page_pd_lsn R -> copy_state L0 R L1 R true
| copied_both L R : page_wf L -> page_wf R -> lsn <= page_pd_lsn L -> lsn <= page_pd_lsn R -> copy_state L R L R false.

Hypothesis Hready : copy_ready.

Lemma copied_pages : page_wf L1 /\ page_wf R1 /\ lsn <= page_pd_lsn L1 /\ lsn <= page_pd_lsn R1.
Proof using Hready.
  destruct Hready. destruct (apply_split_copy_left L0 k cr_left0 cr_live0 cr_range0) as (Hl & _ & _).
  pose proof (bt_page_wf _ Hl) as Wl. pose proof (bt_page_wf _ cr_right'0) as Wr.
  split; [by apply set_pd_lsn_wf|]. split; [by apply set_pd_lsn_wf|]. unfold L1, R1. rewrite !stamp_lsn by done. lia.
Qed.

Lemma copy_pages_state L R L' R' f : copy_state L R L' R' f -> copy_pages lsn rec (L, R) = (Ok f, (L', R')).
Proof using Hready.
  destruct Hready. intros [|R2 Hw Hr|L2 R2 _ _ Hl Hr]; unfold copy_pages;
    rewrite (mbindM_run mget _ (_, _) (_, _) (_, _)) by done; cbv zeta; cbn [fst snd].
  - rewrite (proj2 (Z.eqb_eq _ _)) by done. cbn [negb]. rewrite (proj2 (Z.ltb_lt _ _)) by done.
    destruct (apply_split_copy_left L0 k cr_left0 cr_live0 cr_range0) as (_ & _ & Hrun).
    rewrite cr_slot0. rewrite (mbindM_run _ _ tt _ (rebuilt_page (node_of L0) (take k (entries L0)), R0')); [done|]. by apply Hrun.
  - rewrite (proj2 (Z.eqb_eq _ _)) by done. cbn [negb]. rewrite (proj2 (Z.ltb_ge _ _)) by done.
    destruct (apply_split_copy_left L0 k cr_left0 cr_live0 cr_range0) as (_ & _ & Hrun).
    rewrite cr_slot0. rewrite (mbindM_run _ _ tt _ (rebuilt_page (node_of L0) (take k (entries L0)), R2)); [done|]. by apply Hrun.
  - rewrite (proj2 (Z.eqb_neq _ _)) by lia. cbn [negb]. by rewrite !(proj2 (Z.geb_le _ _)) by done.
Qed.

Lemma copy_state_again L R L' R' f : copy_state L R L' R' f -> copy_state L' R' L' R' false.
Proof using Hready.
  destruct copied_pages as (W1 & W2 & G1 & G2). intros [|R2 Hw Hr|L2 R2 ? ? Hl Hr]; by constructor.
Qed.

Lemma copy_state_wf L R L' R' f : copy_state L R L' R' f -> page_wf L' /\ page_wf R'.
Proof using Hready. destruct copied_pages as (W1 & W2 & _). by intros [|R2 Hw Hr|L2 R2 ? ? Hl Hr]. Qed.

Lemma copy_state_left L R L' R' f : copy_state L R L' R' f -> f = true -> L = L0.
Proof. clear Hready. intros [] Hf; [reflexivity|reflexivity|discriminate Hf]. Qed.

Lemma copy_pages_refused L R :
  lsn <= page_pd_lsn L -> page_pd_lsn R < lsn -> copy_pages lsn rec (L, R) = (Err (BtStorage MetadataCorrupted), (L, R)).
Proof using Hready.
  destruct Hready. intros Hl Hr. unfold copy_pages. rewrite (mbindM_run mget _ (_, _) (_, _) (_, _)) by done. cbv zeta. cbn [fst snd].
  rewrite (proj2 (Z.eqb_neq _ _)) by lia. cbn [negb]. rewrite (proj2 (Z.geb_le _ _)) by done.
  by rewrite Z.geb_leb, (proj2 (Z.leb_gt _ _)) by done.
Qed.

End copy.

(** C20: replaying a split's copy step loses nothing.  Whatever of the two pages had
    reached the disk in the order right before left, redo of the copy record
    succeeds and reaches byte for byte the pages the copy produced online (or
    leaves pages that are already past it); the right page is then on disk, while
    the data file holds the left page only as it was before, so that a crash
    during redo is again one of these states; no other page changes; a second
    replay changes nothing.  The one state this order excludes, left written and
    right not, is refused as corruption. *)
Theorem split_copy_redo_converges {P : Type} `{PagePoolLaws P} lsn rec L0 R0 R0' k (pool : P) :
  let l := sc_left_page rec in let r := sc_right_page rec in
  copy_ready lsn rec L0 R0 R0' k -> l <> r -> pool_ok pool ->
  (forall L' R' f, copy_state lsn L0 R0 R0' k (pool_page pool l) (pool_page pool r) L' R' f ->
     exists pool', split_copy_redo rec lsn pool = (Ok tt, pool') /\ pool_ok pool' /\
       pool_page pool' l = L' /\ pool_page pool' r = R' /\
       (forall q, q <> l -> q <> r -> pool_page pool' q = pool_page pool q) /\
       (f = true -> pool_disk pool' r = R' /\
                    (pool_disk pool' l = pool_disk pool l \/ pool_disk pool' l = L0)) /\
       exists pool2, split_copy_redo rec lsn pool' = (Ok tt, pool2) /\ forall q, pool_page pool2 q = pool_page pool' q) /\
  (lsn <= page_pd_lsn (pool_page pool l) -> page_pd_lsn (pool_page pool r) < lsn ->
     exists pool', split_copy_redo rec lsn pool = (Err (BtStorage MetadataCorrupted), pool') /\
       forall q, pool_page pool' q = pool_page pool q).
Proof.
  intros l r Hready Hne Hok. split.
  - intros L' R' f Hst. destruct (copy_state_wf _ _ _ _ _ _ Hready _ _ _ _ _ Hst) as [Wl Wr].
    assert (Hheld : forall (b : bool) (pl : P), pool_ok pl -> exists pl', (if b then tree_pool (flush r) else mret tt) pl = (Ok tt, pl') /\
      pool_ok pl' /\ (forall q, pool_page pl' q = pool_page pl q)).
    { intros [] pl Hpl; [|by exists pl]. destruct (flush_total pl r Hpl) as (pl' & E & Hpl').
      exists pl'. unfold tree_pool. rewrite E. cbn [fst snd map_err]. apply flush_ok in E as (Hq & _). done. }
    destruct (with_two_pages_ok l r (copy_pages lsn rec) (fun b : bool => if b then tree_pool (flush r) else mret tt) pool f L' R'
      Hne Hok (copy_pages_state _ _ _ _ _ _ Hready _ _ _ _ _ Hst) Wl Wr (Hheld f)) as (pool' & Hrun & Hok' & Hl & Hr & Hq).
    exists pool'. split; [exact Hrun|]. split; [done|]. split; [done|]. split; [done|]. split; [done|]. split.
    + intros ->. pose proof (copy_state_left _ _ _ _ _ _ _ _ _ _ Hst eq_refl) as HL. rewrite <-Hr, <-HL.
      eapply (with_two_pages_flush l r (copy_pages lsn rec) _ _ _ true); [exact Hne| |by rewrite Hl|by rewrite Hr| |exact Hrun]; [|reflexivity].
      rewrite Hl, Hr. by apply (copy_pages_state _ _ _ _ _ _ Hready).
    + pose proof (copy_state_again _ _ _ _ _ _ Hready _ _ _ _ _ Hst) as Hst2. rewrite <-Hl, <-Hr in Hst2.
      destruct (with_two_pages_ok l r (copy_pages lsn rec) (fun b : bool => if b then tree_pool (flush r) else mret tt) pool' false _ _
        Hne Hok' (copy_pages_state _ _ _ _ _ _ Hready _ _ _ _ _ Hst2) (pool_page_wf _ _) (pool_page_wf _ _) (Hheld false)) as (pool2 & Hrun2 & _ & Hl2 & Hr2 & Hq2).
      exists pool2. split; [exact Hrun2|]. intros q. destruct (decide (q = l)) as [->|]; [congruence|].
      destruct (decide (q = r)) as [->|]; [congruence|]. by apply Hq2.
  - intros Hl Hr. apply with_two_pages_err; [done|done|]. by apply (copy_pages_refused _ _ _ _ _ _ Hready).
Qed.

(** ** Witness: a leaf with two entries, split after the first *)

Definition demo_fresh : Page := set_page_pd_lsn (BtreePage_init (zeros PAGE_SIZE) 0 BTREE_FLAG_LEAF) 8.
Definition demo_entries : list (list Z) := [encode_leaf_entry [1] (mkTid 1 0); encode_leaf_entry [3] (mkTid 1 1)].
Definition demo_leaf : Page := snd (add_all demo_entries demo_fresh).
Definition demo_copy : BTreeSplitCopyRecord := mkBTreeSplitCopyRecord 1 2 1 8.
Definition demo_tree_pool : MapPool := mkMapPool ∅ {[1 := demo_leaf; 2 := demo_fresh]} [].

Lemma demo_fresh_node : bt_inv demo_fresh /\ node_of demo_fresh = with_lsn 8 (fresh_node 0 BTREE_FLAG_LEAF).
Proof.
  destruct (init_effect (zeros PAGE_SIZE) 0 BTREE_FLAG_LEAF) as [Hb Hn]; [by rewrite length_zeros|lia|unfold BTREE_FLAG_LEAF; lia|].
  destruct (node_set_lsn _ 8 Hb) as [H1 H2]; [unfold in_u; lia|]. rewrite Hn in H2.
  unfold demo_fresh. split; [exact H1|exact H2].
Qed.

Lemma demo_leaf_node :
  add_all demo_entries demo_fresh = (Ok tt, demo_leaf) /\ bt_inv demo_leaf /\ n_lsn (node_of demo_leaf) = 8 /\ entries demo_leaf = demo_entries.
Proof.
  destruct demo_fresh_node as [Hb Hn]. destruct (add_all_appends demo_entries demo_fresh Hb) as (p & E & Hb' & Hn').
  - repeat constructor; vm_compute; done.
  - rewrite Hn. vm_compute. done.
  - assert (demo_leaf = p) as -> by (unfold demo_leaf; by rewrite E). split; [done|]. split; [done|].
    assert (He : entries demo_fresh = []) by (by apply (f_equal n_entries) in Hn).
    rewrite He in Hn'. split; [by rewrite Hn', Hn|by apply (f_equal n_entries) in Hn'].
Qed.

#[local] Opaque demo_fresh demo_leaf.

Lemma demo_ready : exists R0', copy_ready 16 demo_copy demo_leaf demo_fresh R0' 1.
Proof.
  destruct demo_fresh_node as [Hf Nf]. destruct demo_leaf_node as (_ & Hl & Ll & El).
  destruct (add_all_appends (drop 1 demo_entries) demo_fresh Hf) as (p & E & Hp & Np).
  - repeat constructor; vm_compute; done.
  - rewrite Nf. vm_compute. done.
  - exists p. assert (Lf : page_pd_lsn demo_fresh = 8) by (by apply (f_equal n_lsn) in Nf).
    assert (Lp : page_pd_lsn p = 8) by (apply (f_equal n_lsn) in Np; simpl in Np; by rewrite Np, Lf).
    change (n_lsn (node_of demo_leaf)) with (page_pd_lsn demo_leaf) in Ll.
    constructor; rewrite ?El, ?Lf, ?Lp, ?Ll.
    + unfold in_u. lia.
    + reflexivity.
    + simpl. lia.
    + exact Hl.
    + repeat constructor; vm_compute; done.
    + reflexivity.
    + lia.
    + exact Hf.
    + lia.
    + exact E.
    + exact Hp.
    + reflexivity.
Qed.

Lemma split_copy_redo_converges_witness :
  exists pool', split_copy_redo demo_copy 16 demo_tree_pool = (Ok tt, pool') /\ pool_disk pool' 2 = pool_page pool' 2.
Proof.
  destruct demo_ready as [R0' Hready]. destruct demo_fresh_node as [Hf _]. destruct demo_leaf_node as (_ & Hl & _).
  assert (P1 : pool_page demo_tree_pool 1 = demo_leaf) by (apply mp_page_clean; [reflexivity|by apply bt_page_wf]).
  assert (P2 : pool_page demo_tree_pool 2 = demo_fresh) by (apply mp_page_clean; [reflexivity|by apply bt_page_wf]).
  destruct (split_copy_redo_converges 16 demo_copy demo_leaf demo_fresh R0' 1 demo_tree_pool Hready) as [Hc _].
  - simpl. lia.
  - reflexivity.
  - change (sc_left_page demo_copy) with 1 in Hc. change (sc_right_page demo_copy) with 2 in Hc. rewrite P1, P2 in Hc.
    destruct (Hc _ _ _ (copied_none 16 demo_leaf demo_fresh R0' 1)) as (pool' & Hrun & _ & _ & Hr & _ & Hd & _).
    exists pool'. split; [exact Hrun|]. rewrite Hr. apply Hd. reflexivity.
Defined.

(** ** Finishing a split from a compensation record *)

(** A page after the record: its entries, right link and flags are new, the rest
    of its identity is kept, and its LSN is the record's. *)
Record page_after (lsn : Lsn) (old new : Page) (es : list (list Z)) (nxt : PageId) (fl : Z) : Prop := {
  pa_inv : bt_inv new;
  pa_entries : entries new = es;
  pa_next : n_next (node_of new) = nxt;
  pa_flags : n_flags (node_of new) = fl;
  pa_prev : n_prev (node_of new) = n_prev (node_of old);
  pa_level : n_level (node_of new) = n_level (node_of old);
  pa_lsn : page_pd_lsn new = lsn;
}.

Definition committed_flags (f : Z) : Z := Z.land f (not_u8 (Z.lor BTREE_FLAG_SPLIT_INCOMPLETE BTREE_FLAG_ROOT)).
Definition unlinked_flags (f : Z) : Z := Z.land f (not_u8 BTREE_FLAG_SPLIT_INCOMPLETE).

Lemma stamp_after lsn page :
  bt_inv page -> in_u 64 lsn -> page_pd_lsn page < lsn ->
  page_after lsn page (stamp_pd_lsn lsn page) (entries page) (n_next (node_of page)) (n_flags (node_of page)).
Proof.
  intros Hb Hl Hlt. destruct (stamp_node page lsn Hb Hl) as [Hs Ns].
  assert (Hp : page_pd_lsn (stamp_pd_lsn lsn page) = lsn) by (rewrite stamp_lsn; [lia|by apply bt_page_wf|done]).
  split; [exact Hs|by apply (f_equal n_entries) in Ns|by rewrite Ns..|exact Hp].
Qed.

(** The last steps on the left page: link, clear the flags, stamp. *)
Lemma finish_left lsn old page p :
  bt_inv page -> in_u 64 lsn -> in_u 64 p -> n_lsn (node_of page) < lsn ->
  n_prev (node_of page) = n_prev (node_of old) -> n_level (node_of page) = n_level (node_of old) ->
  exists q1 q2, set_next page p = Ok q1 /\ apply_commit_left q1 = Ok q2 /\
    page_after lsn old (stamp_pd_lsn lsn q2) (entries page) p (committed_flags (n_flags (node_of page))).
Proof.
  intros Hb Hl Hp Hlt Hprev Hlev. destruct (set_next_effect page p Hb Hp) as (q1 & E1 & H1 & N1).
  destruct (apply_commit_effect q1 H1) as (q2 & E2 & H2 & N2). exists q1, q2. split; [done|]. split; [done|].
  rewrite N1 in N2. destruct (stamp_after lsn q2 H2 Hl) as [Si Se Sn Sf Sp Slv Sl].
  { change (page_pd_lsn q2) with (n_lsn (node_of q2)). by rewrite N2. }
  rewrite N2 in Sn, Sf, Sp, Slv. split; [exact Si| |exact Sn|exact Sf|by rewrite Sp|by rewrite Slv|exact Sl].
  rewrite Se. by apply (f_equal n_entries) in N2.
Qed.

Lemma clr_pages_again lsn rec l r :
  lsn <= page_pd_lsn l -> bt_inv r -> (clr_is_unlink rec = true \/ entries r <> []) ->
  clr_pages lsn rec (l, r) = (Ok tt, (l, r)).
Proof.
  intros Hl Hr Hc. unfold clr_pages. rewrite (mbindM_run mget _ (_, _) (_, _) (_, _)) by done. cbv zeta. cbn [fst snd].
  rewrite (proj2 (Z.ltb_ge _ _)) by done. destruct (bt_count _ Hr) as (-> & _). destruct Hc as [->|Hne]; [done|].
  rewrite (proj2 (Z.eqb_neq _ 0)) by (destruct (entries r); [done|simpl; lia]). by rewrite andb_false_r.
Qed.

Section clr.
Variables (lsn : Lsn) (rec : BTreeSplitCLRRecord) (l r : Page).
Hypotheses (Hlsn : in_u 64 lsn) (Hright : in_u 64 (clr_right_page rec)) (Hl : bt_inv l) (Hr : bt_inv r)
  (Hold : page_pd_lsn l < lsn) (Hrold : page_pd_lsn r < lsn) (Hlive : Forall live_entry (entries l)).
Let f := n_flags (node_of l).

Ltac enter := unfold clr_pages; rewrite (mbindM_run mget _ (l, r) (l, r) (l, r)) by done; cbv zeta; cbn [fst snd];
  rewrite (proj2 (Z.ltb_lt _ _)) by done.

Lemma clr_unlink :
  clr_is_unlink rec = true ->
  exists l' r', clr_pages lsn rec (l, r) = (Ok tt, (l', r')) /\
    page_after lsn l l' (entries l) (n_next (node_of r)) (unlinked_flags f) /\
    page_after lsn r r' (entries r) (n_next (node_of r)) (n_flags (node_of r)).
Proof using Hlsn Hl Hr Hold Hrold.
  intros Hu. destruct (node_range _ Hr) as (_ & _ & Rn).
  destruct (set_next_effect l _ Hl Rn) as (q1 & E1 & H1 & N1).
  destruct (set_flag_effect q1 BTREE_FLAG_SPLIT_INCOMPLETE false H1) as (q2 & E2 & H2 & N2); [unfold BTREE_FLAG_SPLIT_INCOMPLETE; lia|].
  rewrite N1 in N2. exists (stamp_pd_lsn lsn q2), (stamp_pd_lsn lsn r). split; [|split; [|by apply stamp_after]].
  - enter. rewrite Hu, next_read by done. rewrite (mbindM_run (of_result _) _ (n_next (node_of r)) (l, r) (l, r)) by done.
    rewrite (mbindM_run _ _ tt _ (q1, r)) by (by apply on_left_ok, tree_step_ok).
    rewrite (mbindM_run _ _ tt _ (q2, r)) by (by apply on_left_ok, tree_step_ok). done.
  - destruct (stamp_after lsn q2 H2 Hlsn) as [Si Se Sn Sf Sp Slv Sl].
    { change (page_pd_lsn q2) with (n_lsn (node_of q2)). by rewrite N2. }
    rewrite N2 in Sn, Sf, Sp, Slv. split; [exact Si| |exact Sn|exact Sf|by rewrite Sp|by rewrite Slv|exact Sl].
    rewrite Se. by apply (f_equal n_entries) in N2.
Qed.

Lemma clr_move (k : nat) :
  clr_is_unlink rec = false -> entries r = [] -> n_upper (node_of r) = BTREE_SPECIAL ->
  clr_copy_start_slot rec = Z.of_nat k -> (0 < k <= length (entries l))%nat ->
  exists l' r', clr_pages lsn rec (l, r) = (Ok tt, (l', r')) /\
    page_after lsn l l' (take k (entries l)) (clr_right_page rec) (committed_flags f) /\
    page_after lsn r r' (drop k (entries l)) (n_next (node_of r)) (n_flags (node_of r)).
Proof using Hlsn Hright Hl Hr Hold Hrold Hlive.
  intros Hu He Hup Hk Hkr. destruct (apply_split_copy_spec l r k true Hl Hr Hlive Hkr) as (l1 & r1 & Hrun & H1 & N1 & Hr1 & Nr1).
  { intros _. pose proof (page_capacity _ Hl) as Hcap. rewrite (zsum_take_drop cost k) in Hcap.
    pose proof (zsum_cost_nonneg (take k (entries l))). unfold n_free. rewrite Hup.
    change (n_entries (node_of r)) with (entries r). rewrite He. unfold BTREE_PAGE_CAPACITY in Hcap. bt_consts. cbn [length]. lia. }
  rewrite He in Nr1. cbn [app] in Nr1.
  destruct (finish_left lsn l l1 (clr_right_page rec) H1 Hlsn Hright) as (q1 & q2 & E1 & E2 & Hfin); [by rewrite N1..|].
  assert (El1 : entries l1 = take k (entries l)) by (by apply (f_equal n_entries) in N1).
  rewrite El1, N1 in Hfin. exists (stamp_pd_lsn lsn q2), (stamp_pd_lsn lsn r1). split; [|split; [exact Hfin|]].
  - enter. rewrite Hu. destruct (bt_count _ Hr) as (-> & _). rewrite He. change (zlen ([] : list (list Z)) >? 0) with false. cbv iota.
    unfold page_never_had_entries. rewrite (bt_special _ Hr). change (pd_upper (header r)) with (n_upper (node_of r)).
    rewrite Hup, Z.eqb_refl. cbn [negb].
    rewrite Hk. rewrite (mbindM_run _ _ tt _ (l1, r1)) by done. rewrite (mbindM_run _ _ tt _ (l1, stamp_pd_lsn lsn r1)) by done.
    rewrite (mbindM_run _ _ tt _ (q1, stamp_pd_lsn lsn r1)) by (by apply on_left_ok, tree_step_ok).
    rewrite (mbindM_run _ _ tt _ (q2, stamp_pd_lsn lsn r1)) by (by apply on_left_ok, tree_step_ok). done.
  - destruct (stamp_after lsn r1 Hr1 Hlsn) as [Si Se Sn Sf Sp Slv Sl].
    { change (page_pd_lsn r1) with (n_lsn (node_of r1)). by rewrite Nr1. }
    rewrite Nr1 in Sn, Sf, Sp, Slv. split; [exact Si| |exact Sn|exact Sf|exact Sp|exact Slv|exact Sl].
    rewrite Se. by apply (f_equal n_entries) in Nr1.
Qed.

(** A left page below the separator is not truncated. *)
Lemma prefix_len_all {A} (g : A -> bool) es : Forall (fun e => g e = true) es -> prefix_len g es = length es.
Proof. induction 1 as [|x es Hx Hf IH]; simpl; [done|]. by rewrite Hx, IH. Qed.

Lemma clr_nomove leaf first :
  leaf = (clr_level rec =? 0) -> sorted_page leaf l -> sorted_page leaf r ->
  clr_is_unlink rec = false -> head (entries r) = Some first ->
  Forall (fun e => rank_lt (rank leaf e) (rank leaf first)) (entries l) ->
  exists l' r', clr_pages lsn rec (l, r) = (Ok tt, (l', r')) /\
    page_after lsn l l' (entries l) (clr_right_page rec) (committed_flags f) /\
    page_after lsn r r' (entries r) (n_next (node_of r)) (n_flags (node_of r)).
Proof using Hlsn Hright Hl Hr Hold Hrold Hlive.
  intros Hleaf Hsl Hsr Hu Hhead Hbelow. pose proof (count_small _ Hl) as Hsm.
  assert (Hfirst : entries r !! 0%nat = Some first) by (by destruct (entries r)).
  assert (Hok : entry_ok leaf first) by (eapply sp_entry_ok; [exact Hsr|by eapply list_elem_of_lookup_2]).
  assert (Hstep : exists l1, bt_inv l1 /\ entries l1 = entries l /\ n_lsn (node_of l1) = n_lsn (node_of l) /\
    n_prev (node_of l1) = n_prev (node_of l) /\ n_level (node_of l1) = n_level (node_of l) /\ n_flags (node_of l1) = f /\
    (if slot_count l >? 0
     then let! truncate_at := of_result (entry_lower_bound l first (clr_level rec =? 0)) in
          if truncate_at =? 0 then mthrow BtCorrupted else apply_split_copy (truncate_at mod 2 ^ 16) false
     else mret tt) (l, r) = (Ok tt, (l1, r))).
  { destruct (bt_count _ Hl) as (-> & _). destruct (entries l) as [|e es] eqn:Ee; [by exists l|]. rewrite <-Ee in *.
    assert (Hpos : (0 < length (entries l))%nat) by (rewrite Ee; simpl; lia).
    rewrite Z.gtb_ltb, (proj2 (Z.ltb_lt _ _)) by lia. rewrite <-Hleaf, entry_lower_bound_spec by done.
    rewrite prefix_len_all by (eapply Forall_impl; [exact Hbelow|]; intros x Hx; by apply below_true).
    rewrite (mbindM_run (of_result _) _ (zlen (entries l)) (l, r) (l, r)) by done. rewrite (proj2 (Z.eqb_neq _ _)), Z.mod_small by lia.
    destruct (apply_split_copy_left l (length (entries l)) Hl Hlive) as (H1 & N1 & Hrun); [lia|].
    rewrite take_ge in H1, N1, Hrun by lia. exists (rebuilt_page (node_of l) (entries l)). split; [exact H1|].
    split; [exact (f_equal n_entries N1)|]. rewrite N1. split; [reflexivity|]. split; [reflexivity|]. split; [reflexivity|].
    split; [reflexivity|]. by apply Hrun. }
  destruct Hstep as (l1 & H1 & El1 & Ll1 & Pl1 & Vl1 & Fl1 & Hstep).
  destruct (finish_left lsn l l1 (clr_right_page rec) H1 Hlsn Hright) as (q1 & q2 & E1 & E2 & Hfin); [by rewrite Ll1|done|done|].
  rewrite El1, Fl1 in Hfin. exists (stamp_pd_lsn lsn q2), (stamp_pd_lsn lsn r). split; [|split; [exact Hfin|by apply stamp_after]].
  enter. rewrite Hu. destruct (bt_count _ Hr) as (-> & _).
  rewrite (Z.gtb_ltb (zlen (entries r))), (proj2 (Z.ltb_lt 0 (zlen (entries r)))) by (destruct (entries r); [done|simpl; lia]).
  rewrite (entry_bytes_read r 0 Hr) by lia. change (Z.to_nat 0) with 0%nat. rewrite Hfirst.
  rewrite (mbindM_run (of_result _) _ first (l, r) (l, r)) by done. rewrite (mbindM_run _ _ tt _ (l1, r)) by exact Hstep.
  rewrite (mbindM_run _ _ tt _ (q1, r)) by (by apply on_left_ok, tree_step_ok).
  rewrite (mbindM_run _ _ tt _ (q2, r)) by (by apply on_left_ok, tree_step_ok). done.
Qed.

End clr.

(** C21: a compensation record completes an interrupted split.  On the pair of pages
    older than the record: if the right page was never filled, the entries from the
    split point on move to it; if it already holds them, none moves and the left
    page keeps its own; in both cases the left page links to the right one and loses
    the incomplete and root flags.  If the split was abandoned, the left page
    links past the right one and keeps its entries and its root flag.  Applying the
    record to the resulting pages again changes nothing. *)
Theorem split_clr_completes lsn rec leaf l r :
  in_u 64 lsn -> in_u 64 (clr_right_page rec) -> leaf = (clr_level rec =? 0) ->
  sorted_page leaf l -> sorted_page leaf r -> page_pd_lsn l < lsn -> page_pd_lsn r < lsn ->
  let k := Z.to_nat (clr_copy_start_slot rec) in
  let f := n_flags (node_of l) in
  (clr_is_unlink rec = true ->
     exists l' r', clr_pages lsn rec (l, r) = (Ok tt, (l', r')) /\
       page_after lsn l l' (entries l) (n_next (node_of r)) (unlinked_flags f) /\
       page_after lsn r r' (entries r) (n_next (node_of r)) (n_flags (node_of r)) /\
       clr_pages lsn rec (l', r') = (Ok tt, (l', r'))) /\
  (clr_is_unlink rec = false -> entries r = [] -> n_upper (node_of r) = BTREE_SPECIAL ->
   0 < clr_copy_start_slot rec -> (k < length (entries l))%nat ->
     exists l' r', clr_pages lsn rec (l, r) = (Ok tt, (l', r')) /\
       page_after lsn l l' (take k (entries l)) (clr_right_page rec) (committed_flags f) /\
       page_after lsn r r' (drop k (entries l)) (n_next (node_of r)) (n_flags (node_of r)) /\
       clr_pages lsn rec (l', r') = (Ok tt, (l', r'))) /\
  (forall first, clr_is_unlink rec = false -> head (entries r) = Some first ->
   Forall (fun e => rank_lt (rank leaf e) (rank leaf first)) (entries l) ->
     exists l' r', clr_pages lsn rec (l, r) = (Ok tt, (l', r')) /\
       page_after lsn l l' (entries l) (clr_right_page rec) (committed_flags f) /\
       page_after lsn r r' (entries r) (n_next (node_of r)) (n_flags (node_of r)) /\
       clr_pages lsn rec (l', r') = (Ok tt, (l', r'))).
Proof.
  intros Hlsn Hright Hleaf Hsl Hsr Hl Hr k f. pose proof (sp_inv _ _ Hsl) as Hbl. pose proof (sp_inv _ _ Hsr) as Hbr.
  assert (Hlive : Forall live_entry (entries l)) by (eapply Forall_impl; [apply Hsl|apply entry_ok_live]).
  split; [|split].
  - intros Hu. destruct (clr_unlink lsn rec l r Hlsn Hbl Hbr Hl Hr Hu) as (l' & r' & Hrun & Al & Ar).
    exists l', r'. split; [exact Hrun|]. split; [exact Al|]. split; [exact Ar|].
    apply clr_pages_again; [by rewrite (pa_lsn _ _ _ _ _ _ Al)|apply Ar|by left].
  - intros Hu He Hup Hpos Hk.
    destruct (clr_move lsn rec l r Hlsn Hright Hbl Hbr Hl Hr Hlive k Hu He Hup) as (l' & r' & Hrun & Al & Ar);
      [unfold k; by rewrite Z2Nat.id by lia|lia|].
    exists l', r'. split; [exact Hrun|]. split; [exact Al|]. split; [exact Ar|].
    apply clr_pages_again; [by rewrite (pa_lsn _ _ _ _ _ _ Al)|apply Ar|right]. rewrite (pa_entries _ _ _ _ _ _ Ar).
    intros Hnil. apply (f_equal length) in Hnil. rewrite length_drop in Hnil. simpl in Hnil. lia.
  - intros first Hu Hhead Hbelow.
    destruct (clr_nomove lsn rec l r Hlsn Hright Hbl Hbr Hl Hr Hlive leaf first Hleaf Hsl Hsr Hu Hhead Hbelow) as (l' & r' & Hrun & Al & Ar).
    exists l', r'. split; [exact Hrun|]. split; [exact Al|]. split; [exact Ar|].
    apply clr_pages_again; [by rewrite (pa_lsn _ _ _ _ _ _ Al)|apply Ar|right]. rewrite (pa_entries _ _ _ _ _ _ Ar).
    by destruct (entries r).
Qed.

Definition demo_clr : BTreeSplitCLRRecord := mkBTreeSplitCLRRecord 1 2 0 1 8 5 1 0 0 [3].

Lemma split_clr_completes_witness :
  exists l' r', clr_pages 16 demo_clr (demo_leaf, demo_fresh) = (Ok tt, (l', r')) /\
    entries l' = take 1 demo_entries /\ entries r' = drop 1 demo_entries.
Proof.
  destruct demo_fresh_node as [Hf Nf]. destruct demo_leaf_node as (_ & Hl & Ll & El).
  assert (Ef : entries demo_fresh = []) by (by apply (f_equal n_entries) in Nf).
  assert (Lf : page_pd_lsn demo_fresh = 8) by (by apply (f_equal n_lsn) in Nf).
  change (n_lsn (node_of demo_leaf)) with (page_pd_lsn demo_leaf) in Ll.
  assert (Sl : sorted_page true demo_leaf) by (apply (sorted_page_intro true demo_leaf _ Hl El); repeat constructor; vm_compute; done).
  assert (Sf : sorted_page true demo_fresh) by (apply (sorted_page_intro true demo_fresh _ Hf Ef); constructor).
  destruct (split_clr_completes 16 demo_clr true demo_leaf demo_fresh) as (_ & Hmove & _).
  - unfold in_u. lia.
  - unfold in_u. simpl. lia.
  - reflexivity.
  - exact Sl.
  - exact Sf.
  - rewrite Ll. lia.
  - rewrite Lf. lia.
  - rewrite El in Hmove. destruct Hmove as (l' & r' & Hrun & Al & Ar & _).
    + reflexivity.
    + exact Ef.
    + by rewrite Nf.
    + simpl. lia.
    + simpl. lia.
    + exists l', r'. split; [exact Hrun|]. split; [exact (pa_entries _ _ _ _ _ _ Al)|exact (pa_entries _ _ _ _ _ _ Ar)].
Defined.
