(* ===== verification/Engine.v ===== *)
(** * Crash recovery: analysis, redo, undo

    Models the recovery half of [pg-storage/src/engine.rs] ([run_analysis],
    [replay_wal] and the phases of [recover_with_redo_handlers] that follow the
    opening of the files) and the transaction redo handlers of
    [pg-txn/src/redo.rs] as registered handlers.

    The log is what the reader returns ([wal_open_at], see [Analysis]); the pool,
    the allocator's log and the commit log are the classes of their components.
    The state is the redo context of [Recovery]. *)

From S2P Require Import Prelude Types LinePointer SlottedPage Tuple Clog TxnManager WalRecord Superblock PageAllocator.
From S2P Require Import Analysis Recovery HeapRedo BtreeRedo.
Local Open Scope Z_scope.
Local Open Scope rust_scope.

Definition synthesized_checkpoint_end (checkpoint_lsn : Lsn) : CheckpointEndRecord :=
  mkCheckpointEndRecord checkpoint_lsn PageId_INVALID TxnId_INVALID 0 [] [].

Record Recovered := mkRecovered {
  recovered_att : list TxnId;
  recovered_redo_start : Lsn;
  recovered_next_txn_id : TxnId;
}.

Section engine.
Context {BC : Bincode} {P : Type} {PP : PagePool P} {C : Type} {CA : ClogAccessor C} {W : Type} {PW : PageWal W}.
Variable crc32 : list Z -> Z.
Variable dec_att : list Z -> option (list TxnId).
Variable dec_dpt : list Z -> option (list (PageId * Lsn)).
Variable read_file : list Z -> option (list Z).
Variable wal_open_at : Lsn -> res StorageError WalStream.
Variable wal_flush : M W StorageError unit.

Abbreviation Ctx := (RedoContext P C W).

Definition TxnCommitHandler : RedoHandler P C W := mkRedoHandler TxnCommit (fun record =>
  let! rec := of_res (TxnCommitRecord_decode (wr_payload record)) in
  on_ctx_clog (TxnCommitHandler_apply (tc_xid rec))).
Definition TxnAbortHandler : RedoHandler P C W := mkRedoHandler TxnAbort (fun record =>
  let! rec := of_res (TxnAbortRecord_decode (wr_payload record)) in
  on_ctx_clog (TxnAbortHandler_apply (ta_xid rec))).
Definition txn_redo_handlers : list (RedoHandler P C W) := [TxnCommitHandler; TxnAbortHandler].

(** The engine's own handlers, registered before the injected ones. *)
Definition storage_redo_handlers : list (RedoHandler P C W) :=
  [PageAllocRedoHandler; PageFreeRedoHandler; FullPageImageRedoHandler; NoOpRedoHandler CheckpointBegin;
   NoOpRedoHandler CheckpointEnd].

Fixpoint register_all (hs : list (RedoHandler P C W)) : M (RedoRegistry P C W) StorageError unit :=
  match hs with
  | [] => mret tt
  | h :: hs => register h ;! register_all hs
  end.

Definition engine_run_analysis (checkpoint_lsn : Lsn) : res StorageError AnalysisResult :=
  let scan_start := if Lsn_is_valid checkpoint_lsn then checkpoint_lsn else Lsn_FIRST in
  let? found := find_latest_checkpoint_end wal_open_at scan_start in
  let end_record :=
    match found with
    | Some (e, _) => if ce_checkpoint_lsn e =? checkpoint_lsn then e else synthesized_checkpoint_end scan_start
    | None => synthesized_checkpoint_end scan_start
    end in
  run_analysis crc32 dec_att dec_dpt read_file wal_open_at end_record.

Fixpoint replay_loop (reg : RedoRegistry P C W) (events : WalStream) (max_txn_id : TxnId) : M Ctx StorageError TxnId :=
  match events with
  | [] => mret max_txn_id
  | Ok record :: events =>
      let max_txn_id := if wr_txn_id record >? max_txn_id then wr_txn_id record else max_txn_id in
      registry_apply reg record ;! replay_loop reg events max_txn_id
  | Err e :: _ => if is_hard_error e then mthrow e else mret max_txn_id
  | Panic :: _ => mpanic
  end.

Fixpoint flush_pages (ids : list PageId) : M P StorageError unit :=
  match ids with
  | [] => mret tt
  | p :: ids => flush p ;! flush_pages ids
  end.

(** [for page_id in buffer_pool.dirty_page_ids() { buffer_pool.flush(page_id)?; }] *)
Definition flush_dirty_pages : M Ctx StorageError unit := on_pool (fun pool => flush_pages (dirty_page_ids pool) pool).

Definition fresh_tables (c : Ctx) : Ctx :=
  mkRedoContext (buffer_pool c) (page_allocator c) (ctx_clog c) ∅ ∅ ∅ (data_file c).

Definition replay_wal (replay_start : Lsn) (extra_redo_handlers : list (RedoHandler P C W))
    : M Ctx StorageError (TxnId * IncompleteSplitTracker) :=
  let! reader := of_res (wal_open_at replay_start) in
  let registry := register_all (storage_redo_handlers ++ extra_redo_handlers) ∅ in
  of_res (fst registry) ;!
  mmodify fresh_tables ;!
  let! max_txn_id := replay_loop (snd registry) reader TxnId_INVALID in
  let! ctx := mget in
  flush_dirty_pages ;!
  mret (max_txn_id, incomplete_splits ctx).

(** Drop the transactions whose outcome the commit log knows. *)
Fixpoint filter_att (xids : list TxnId) : M C StorageError (list TxnId) :=
  match xids with
  | [] => mret []
  | xid :: xids =>
      let! s := get_state xid in
      let! rest := filter_att xids in
      mret (match s with Committed | Aborted => rest | _ => xid :: rest end)
  end.

Abbreviation UndoHandler := (list TxnId -> IncompleteSplitTracker -> M Ctx StorageError unit).

Definition HeapUndoHandler : UndoHandler := fun xids _ => on_ctx_clog (HeapUndoHandler_undo xids).

Fixpoint run_undo (hs : list UndoHandler) (xids : list TxnId) (splits : IncompleteSplitTracker) : M Ctx StorageError unit :=
  match hs with
  | [] => mret tt
  | h :: hs => h xids splits ;! run_undo hs xids splits
  end.

Definition on_wal_writer {A : Type} (m : M W StorageError A) : M Ctx StorageError A :=
  on_allocator (fun a => let r := m (wal_writer a) in (fst r, set_wal (snd r) a)).

(** [saturating_add] on [u64]. *)
Definition saturating_succ (x : Z) : Z := Z.min (x + 1) (2 ^ 64 - 1).

(** [recover_with_redo_handlers] from the analysis on. *)
Definition recover_phases (checkpoint_lsn : Lsn) (next_txn_id : TxnId)
    (extra_redo_handlers : list (RedoHandler P C W)) (extra_undo_handlers : list UndoHandler)
    : M Ctx StorageError Recovered :=
  let! analysis_result := of_res (engine_run_analysis checkpoint_lsn) in
  let replay_start := redo_start analysis_result in
  let! replayed := replay_wal replay_start extra_redo_handlers in
  on_allocator (mmodify mark_recovery_complete) ;!
  let! recovered := on_ctx_clog (filter_att (att analysis_result)) in
  run_undo extra_undo_handlers recovered (snd replayed) ;!
  on_wal_writer wal_flush ;!
  flush_dirty_pages ;!
  let replayed_max_txn_id := fst replayed in
  let next := if negb (replayed_max_txn_id =? TxnId_INVALID)
              then Z.max next_txn_id (saturating_succ replayed_max_txn_id) else next_txn_id in
  mret (mkRecovered recovered replay_start (TxnIdClock_new next)).

End engine.

(** ** The page actions of the log *)

Definition payload_plan (lsn : Lsn) (p : Payload) : plan :=
  match p with
  | PFullPageImage r => [(fpi_page_id r, mkPageOp lsn (restore_image (fpi_image r) lsn))]
  | PHeapInsert r => [(hi_page_id r, mkPageOp lsn (insert_page lsn (hi_slot_id r) (hi_tuple_bytes r)))]
  | PHeapUpdate r =>
      if page_id (hu_old_tid r) =? page_id (hu_new_tid r)
      then [(page_id (hu_old_tid r), mkPageOp lsn (update_same_page lsn r))]
      else [(page_id (hu_old_tid r), mkPageOp lsn (update_old_page lsn r));
            (page_id (hu_new_tid r), mkPageOp lsn (insert_page lsn (slot_id (hu_new_tid r)) (hu_new_tuple_bytes r)))]
  | PHeapDelete r => [(page_id (hd_tid r), mkPageOp lsn (delete_page lsn r))]
  | PHeapHotUpdate r => [(hh_page_id r, mkPageOp lsn (hot_page lsn r))]
  | PBTreeInsert r => [(bi_page_id r, mkPageOp lsn (btree_insert_page lsn r))]
  | PBTreeDelete r => [(bd_page_id r, mkPageOp lsn (btree_delete_page lsn r))]
  | PSplitPrepare r =>
      [(sp_new_right_page r, mkPageOp lsn (prepare_right_page lsn r)); (sp_left_page r, mkPageOp lsn (prepare_left_page lsn r))]
  | PSplitCommit r =>
      [(sm_parent_page r, mkPageOp lsn (commit_parent_page lsn r)); (sm_left_page r, mkPageOp lsn (commit_left_page lsn))]
  | _ => []
  end.

Section plans.
Context {BC : Bincode}.

Definition record_plan (r : WalRecord) : plan :=
  match interpret r with Ok p => payload_plan (wr_lsn r) p | _ => [] end.

Fixpoint log_plan (rs : list WalRecord) : plan :=
  match rs with [] => [] | r :: rs => record_plan r ++ log_plan rs end.

(** A record of the log: its LSN is an LSN and its fields have their types, as
    the constructors of [WalRecord] guarantee. *)
Definition log_record (r : WalRecord) : Prop :=
  in_u 64 (wr_lsn r) /\ forall p, interpret r = Ok p -> payload_wf p.

Lemma bytes_field fs bs : Forall field_wf fs -> FBytes bs ∈ fs -> wf_bytes bs.
Proof. rewrite Forall_forall. intros Hf Hin. by destruct (Hf _ Hin). Qed.

Lemma payload_plan_replayable lsn p : in_u 64 lsn -> payload_wf p -> plan_replayable (payload_plan lsn p).
Proof.
  intros Hl [Hf _]. unfold plan_replayable.
  destruct p as [r|r|r|r|r|r|r|r|r|r|r|r|r|r|r|r]; cbn [payload_plan]; try by constructor.
  - apply Forall_singleton. right. apply restore_image_overwrites; [|done]. eapply bytes_field; [exact Hf|]. set_solver.
  - apply Forall_singleton. left. apply insert_guarded; [done|]. eapply bytes_field; [exact Hf|]. set_solver.
  - assert (wf_bytes (hu_new_tuple_bytes r)) by (eapply bytes_field; [exact Hf|]; set_solver).
    destruct (_ =? _); [apply Forall_singleton; left; by apply update_same_guarded|].
    apply Forall_cons. split; [left; by apply update_old_guarded|].
    apply Forall_singleton. left. by apply insert_guarded.
  - apply Forall_singleton. left. by apply delete_guarded.
  - apply Forall_singleton. left. apply hot_guarded; [done|]. eapply bytes_field; [exact Hf|]. set_solver.
  - apply Forall_singleton. left. apply btree_insert_guarded; [done|]. eapply bytes_field; [exact Hf|]. set_solver.
  - apply Forall_singleton. left. by apply btree_delete_guarded.
  - apply Forall_cons_2; [left; by apply prepare_right_guarded|]. apply Forall_singleton. left. by apply prepare_left_guarded.
  - assert (wf_bytes (sm_separator_key r)) by (eapply bytes_field; [exact Hf|]; set_solver).
    apply Forall_cons_2; [left; by apply commit_parent_guarded|]. apply Forall_singleton. left. by apply commit_left_guarded.
Qed.

Lemma record_plan_replayable r : log_record r -> plan_replayable (record_plan r).
Proof.
  intros [Hl Hp]. unfold record_plan. destruct (interpret r) as [p| |] eqn:E; try by constructor.
  apply payload_plan_replayable; auto.
Qed.

Lemma log_plan_replayable rs : Forall log_record rs -> plan_replayable (log_plan rs).
Proof.
  induction 1 as [|r rs Hr _ IH]; [by constructor|]. apply Forall_app. split; [by apply record_plan_replayable|done].
Qed.

Lemma payload_plan_lsn lsn p : Forall (fun e => po_lsn (snd e) = lsn) (payload_plan lsn p).
Proof. destruct p; simpl; repeat constructor. destruct (_ =? _); repeat constructor. Qed.

Lemma record_plan_lsn r : Forall (fun e => po_lsn (snd e) = wr_lsn r) (record_plan r).
Proof. unfold record_plan. destruct (interpret r); [apply payload_plan_lsn|constructor..]. Qed.

Lemma ops_on_lsn (Q : Lsn -> Prop) p l :
  Forall (fun e => Q (po_lsn (snd e))) l -> Forall Q (po_lsn <$> ops_on p l).
Proof.
  rewrite Forall_fmap, !Forall_forall. intros Hl op Hop. apply (Hl (p, op)), elem_of_ops_on, Hop.
Qed.

Lemma log_plan_lsn (Q : Lsn -> Prop) rs :
  Forall Q (wr_lsn <$> rs) -> Forall (fun e => Q (po_lsn (snd e))) (log_plan rs).
Proof.
  induction rs as [|r rs IH]; intros HQ; [constructor|]. inversion_clear HQ as [|?? Hr HQ'].
  apply Forall_app. split; [|by apply IH]. eapply Forall_impl; [apply record_plan_lsn|]. simpl. by intros e ->.
Qed.

(** The log order is the LSN order on every page. *)
Lemma log_plan_sorted rs p :
  StronglySorted Z.le (wr_lsn <$> rs) -> StronglySorted Z.le (po_lsn <$> ops_on p (log_plan rs)).
Proof.
  induction rs as [|r rs IH]; intros Hs; [constructor|]. simpl in Hs. inversion_clear Hs as [|?? Hs' Hle].
  simpl. rewrite ops_on_app, fmap_app. apply StronglySorted_app_2; [| |by apply IH].
  - intros x y Hx Hy. pose proof (ops_on_lsn (fun l => l = wr_lsn r) p _ (record_plan_lsn r)) as H1.
    pose proof (ops_on_lsn (Z.le (wr_lsn r)) p _ (log_plan_lsn _ _ Hle)) as H2. rewrite Forall_forall in H1, H2.
    rewrite (H1 _ Hx). by apply H2.
  - pose proof (ops_on_lsn (fun l => l = wr_lsn r) p _ (record_plan_lsn r)) as H1.
    induction H1 as [|x l Hx Hl IHl]; [constructor|]. constructor; [done|]. eapply Forall_impl; [exact Hl|].
    simpl. intros y ->. lia.
Qed.

End plans.

(** ** The registry *)

Section steps.
Context {BC : Bincode} {P : Type} {PP : PagePool P} {PL : PagePoolLaws P} {C : Type} {CA : ClogAccessor C}
  {W : Type} {PW : PageWal W}.

Abbreviation Ctx := (RedoContext P C W).

(** Every handler of the storage, heap, transaction and tree layers, as the SQL
    engine registers them. *)
Definition all_handlers : list (RedoHandler P C W) :=
  storage_redo_handlers ++ heap_redo_handlers ++ txn_redo_handlers ++ btree_redo_handlers.

Definition find_handler (t : WalRecordType) (hs : list (RedoHandler P C W)) : option (RedoHandler P C W) :=
  snd <$> list_find (fun h => kind h = t) hs.

Lemma register_all_spec (hs : list (RedoHandler P C W)) : forall m : gmap WalRecordType (RedoHandler P C W),
  NoDup (kind <$> hs) -> (forall h, h ∈ hs -> m !! kind h = None) ->
  fst (register_all hs m) = Ok tt /\
  forall t, (snd (register_all hs m) : gmap WalRecordType (RedoHandler P C W)) !! t = match find_handler t hs with Some h => Some h | None => m !! t end.
Proof.
  induction hs as [|h hs IH]; intros m Hn Hm; [done|]. simpl in Hn. apply NoDup_cons in Hn as [Hh Hn].
  cbn [register_all]. unfold mbindM, register. rewrite (Hm h) by (apply elem_of_cons; auto).
  destruct (IH (<[kind h := h]> m) Hn) as [Hf Hl].
  { intros h' Hh'. rewrite lookup_insert_ne; [apply Hm, elem_of_cons; auto|].
    intros Heq. apply Hh. rewrite Heq. by apply list_elem_of_fmap_2. }
  split; [done|]. intros t. rewrite Hl. unfold find_handler. simpl.
  destruct (decide (kind h = t)) as [<-|Hne].
  - destruct (list_find _ hs) as [[i h']|] eqn:E; simpl; [|by rewrite lookup_insert_eq].
    apply list_find_Some in E as (E & Hk & _). exfalso. apply Hh. rewrite <-Hk.
    by eapply list_elem_of_fmap_2, list_elem_of_lookup_2.
  - destruct (list_find _ hs) as [[i h']|]; simpl; [done|]. by rewrite lookup_insert_ne.
Qed.

Definition recovery_registry : gmap WalRecordType (RedoHandler P C W) := snd (register_all all_handlers ∅).

Lemma recovery_registry_spec :
  register_all all_handlers ∅ = (Ok tt, recovery_registry) /\
  forall t, recovery_registry !! t = find_handler t all_handlers.
Proof.
  destruct (register_all_spec all_handlers ∅) as [Hf Hl].
  - unfold all_handlers. cbn. apply (bool_decide_unpack _). reflexivity.
  - intros h _. apply lookup_empty.
  - split; [unfold recovery_registry; rewrite <-Hf; by destruct (register_all _ _)|].
    intros t. unfold recovery_registry. rewrite Hl, lookup_empty. by destruct (find_handler t all_handlers).
Qed.

Lemma bind_ret {S E} (m : M S E unit) s : (m ;! mret tt) s = m s.
Proof. unfold mbindM. by destruct (m s) as [[[]| |] s']. Qed.

Lemma on_pool_ext f g (c : Ctx) : (forall pool, f pool = g pool) -> on_pool f c = on_pool g c.
Proof. intros Hfg. unfold on_pool. destruct (buffer_pool c); [|done]. by rewrite Hfg. Qed.

(** The record kinds whose handler works on pages of the pool one by one, and
    those that change two pages together. *)
Definition page_kind (t : WalRecordType) : bool :=
  match t with
  | FullPageImage | HeapInsert | HeapUpdate | HeapDelete | HeapHotUpdate
  | BTreeInsert | BTreeDelete | BTreeSplitPrepare | BTreeSplitCommit => true
  | _ => false
  end.
Definition pair_kind (t : WalRecordType) : bool := match t with BTreeSplitCopy | BTreeSplitCLR => true | _ => false end.

Lemma registry_apply_handler r (c : Ctx) h :
  find_handler (wr_type r) all_handlers = Some h -> registry_apply recovery_registry r c = apply h r c.
Proof. intros Hh. unfold registry_apply. by rewrite (proj2 recovery_registry_spec), Hh. Qed.

Lemma registry_apply_unknown r (c : Ctx) :
  find_handler (wr_type r) all_handlers = None ->
  registry_apply recovery_registry r c = (Err (UnknownRecord (WalRecordType_to_u8 (wr_type r)) (wr_lsn r)), c).
Proof. intros Hh. unfold registry_apply. by rewrite (proj2 recovery_registry_spec), Hh. Qed.

Ltac apply_handler Et := erewrite registry_apply_handler by (rewrite Et; reflexivity); cbn [snd prod_map id apply FullPageImageRedoHandler].

Lemma with_splits_same (c : Ctx) : with_splits (incomplete_splits c) c = c.
Proof. by destruct c. Qed.

(** Two page actions in a row. *)
Lemma two_pages_plan p p' l l' a a' (pool : P) :
  (with_page p a ;! with_page p' a') pool = run_plan [(p, mkPageOp l a); (p', mkPageOp l' a')] pool.
Proof. cbn [run_plan]. unfold mbindM at 1 2. destruct (with_page _ _ pool) as [[[]| |] q']; [|done..]. by rewrite bind_ret. Qed.

(** A page record fails to decode, or runs its plan on the pool; the split
    records also update the tracker. *)
Lemma page_record r (c : Ctx) pool :
  page_kind (wr_type r) = true -> buffer_pool c = Some pool ->
  if interpret r is Ok _
  then exists t, registry_apply recovery_registry r c = on_pool (run_plan (record_plan r)) (with_splits t c)
  else fst (registry_apply recovery_registry r c) <> Ok tt.
Proof.
  intros Hk Hp. unfold record_plan. destruct (wr_type r) eqn:Et; try done; apply_handler Et; unfold interpret; rewrite Et.
  - unfold HeapInsertHandler_apply, mbindM, of_res.
    destruct (HeapInsertRecord_decode (wr_payload r)) as [d| |]; [|done..]. exists (incomplete_splits c). rewrite with_splits_same.
    cbn [res_bind payload_plan run_plan]. apply on_pool_ext. intros q. by rewrite bind_ret.
  - unfold HeapUpdateHandler_apply, mbindM at 1 3, of_res.
    destruct (HeapUpdateRecord_decode (wr_payload r)) as [d| |]; [|done..]. exists (incomplete_splits c). rewrite with_splits_same.
    cbn [res_bind payload_plan]. apply on_pool_ext. intros q. destruct (_ =? _); [cbn [run_plan]; by rewrite bind_ret|].
    apply two_pages_plan.
  - unfold HeapDeleteHandler_apply, mbindM, of_res.
    destruct (HeapDeleteRecord_decode (wr_payload r)) as [d| |]; [|done..]. exists (incomplete_splits c). rewrite with_splits_same.
    cbn [res_bind payload_plan run_plan]. apply on_pool_ext. intros q. by rewrite bind_ret.
  - unfold BTreeInsertHandler_apply, mbindM, of_res.
    destruct (BTreeInsertRecord_decode (wr_payload r)) as [d| |]; [|done..]. exists (incomplete_splits c). rewrite with_splits_same.
    cbn [res_bind payload_plan run_plan]. apply on_pool_ext. intros q. by rewrite bind_ret.
  - unfold BTreeSplitPrepareHandler_apply, mbindM at 1 2 3, of_res, require_pool, on_splits, mmodify.
    destruct (BTreeSplitPrepareRecord_decode (wr_payload r)) as [d| |]; [|done..]. rewrite Hp.
    eexists. cbn [res_bind payload_plan]. apply on_pool_ext. intros q. apply two_pages_plan.
  - unfold BTreeDeleteHandler_apply, mbindM, of_res.
    destruct (BTreeDeleteRecord_decode (wr_payload r)) as [d| |]; [|done..]. exists (incomplete_splits c). rewrite with_splits_same.
    cbn [res_bind payload_plan run_plan]. apply on_pool_ext. intros q. by rewrite bind_ret.
  - unfold HeapHotUpdateHandler_apply, mbindM, of_res.
    destruct (HeapHotUpdateRecord_decode (wr_payload r)) as [d| |]; [|done..]. exists (incomplete_splits c). rewrite with_splits_same.
    cbn [res_bind payload_plan run_plan]. apply on_pool_ext. intros q. by rewrite bind_ret.
  - unfold FullPageImageRedoHandler_apply, mbindM, of_res, mget.
    destruct (decode_from_slice (wr_payload r)) as [d| |]; [|done..]. exists (incomplete_splits c). rewrite with_splits_same, Hp.
    cbn [res_bind payload_plan run_plan]. apply on_pool_ext. intros q. by rewrite bind_ret.
  - unfold BTreeSplitCommitHandler_apply, mbindM at 1 2 3, of_res, require_pool, on_splits, mmodify.
    destruct (BTreeSplitCommitRecord_decode (wr_payload r)) as [d| |]; [|done..]. rewrite Hp.
    eexists. cbn [res_bind payload_plan]. apply on_pool_ext. intros q. apply two_pages_plan.
Qed.

(** A two-page record changes pages and the tracker only. *)
Lemma pair_record r (c c' : Ctx) pool :
  pair_kind (wr_type r) = true -> buffer_pool c = Some pool -> registry_apply recovery_registry r c = (Ok tt, c') ->
  ctx_clog c' = ctx_clog c /\ exists pool', buffer_pool c' = Some pool'.
Proof.
  intros Hk Hp H. destruct (wr_type r) eqn:Et; try done; erewrite registry_apply_handler in H by (rewrite Et; reflexivity);
    cbn [snd prod_map id apply] in H; apply mbindM_ok in H as (d & c1 & Hd & H); injection Hd as _ <-;
    apply mbindM_ok in H as ([] & c2 & Hq & H); injection Hq as _ <-;
    apply mbindM_ok in H as ([] & c3 & Hs & H); injection Hs as <-;
    unfold on_pool in H; cbn [buffer_pool with_splits] in H; rewrite Hp in H; injection H as _ <-; split; [done|by eexists|done|by eexists].
Qed.

(** The other records: no page of the pool is involved. *)
Lemma other_record_plan r : page_kind (wr_type r) = false -> record_plan r = [].
Proof.
  intros Hk. unfold record_plan, interpret.
  destruct (wr_type r); try done; match goal with |- context [res_bind ?m _] => destruct m end; done.
Qed.

Lemma other_record_pool r (c c' : Ctx) :
  page_kind (wr_type r) = false -> pair_kind (wr_type r) = false ->
  registry_apply recovery_registry r c = (Ok tt, c') -> buffer_pool c' = buffer_pool c.
Proof.
  intros Hk Hk2 H. destruct (wr_type r) eqn:Et; try done;
    try (rewrite registry_apply_unknown in H by (rewrite Et; reflexivity); discriminate H);
    erewrite registry_apply_handler in H by (rewrite Et; reflexivity);
    cbn [snd prod_map id apply PageAllocRedoHandler PageFreeRedoHandler NoOpRedoHandler TxnCommitHandler TxnAbortHandler] in H;
    try (by injection H as <-); try (unfold on_allocator in H; by injection H as _ <-).
  - apply mbindM_ok in H as (d & c1 & Hd & H). injection Hd as _ <-. by injection H as _ <-.
  - apply mbindM_ok in H as (d & c1 & Hd & H). injection Hd as _ <-. by injection H as _ <-.
Qed.

Lemma ensure_capacity_total p (a : PageAllocator W) :
  data_io a = [] -> exists a', ensure_data_file_capacity p a = (Ok tt, a') /\ data_io a' = [].
Proof.
  intros Hio. unfold ensure_data_file_capacity. destruct (_ >? _); [|by eauto].
  unfold mbindM, data_call, mmodify. rewrite Hio. simpl. by eauto.
Qed.

Lemma replay_record_total r (a0 a0' a : PageAllocator W) :
  replay_record r a0 = (Ok tt, a0') -> data_io a = [] -> exists a', replay_record r a = (Ok tt, a') /\ data_io a' = [].
Proof.
  unfold replay_record. intros H Hio. destruct (wr_type r); try by eauto.
  - apply mbindM_ok in H as (d & a1 & Hd & _). unfold mlift in Hd. injection Hd as Hd _.
    unfold mbindM at 1, mlift. rewrite Hd. unfold apply_page_alloc, mbindM, mmodify.
    match goal with |- context [ensure_data_file_capacity ?p ?x] =>
      destruct (ensure_capacity_total p x) as (a2 & -> & Hio2) end; [by case_match|]. by eauto.
  - apply mbindM_ok in H as (d & a1 & Hd & _). unfold mlift in Hd. injection Hd as Hd _.
    unfold mbindM at 1, mlift. rewrite Hd. unfold mmodify, apply_page_free. eexists. split; [done|]. by case_bool_decide.
Qed.

(** The commit log accepts every write: it hits no I/O error. *)
Definition clog_total : Prop := forall (l : C) xid s, exists l', set_state xid s l = (Ok tt, l').

Lemma other_record_total r (c0 c0' c : Ctx) :
  clog_total -> page_kind (wr_type r) = false -> pair_kind (wr_type r) = false ->
  registry_apply recovery_registry r c0 = (Ok tt, c0') -> data_io (page_allocator c) = [] ->
  exists c', registry_apply recovery_registry r c = (Ok tt, c') /\ data_io (page_allocator c') = [].
Proof.
  intros Hclog Hk Hk2 H Hio. destruct (wr_type r) eqn:Et; try done;
    try (rewrite registry_apply_unknown in H by (rewrite Et; reflexivity); discriminate H);
    erewrite registry_apply_handler in H by (rewrite Et; reflexivity);
    erewrite registry_apply_handler by (rewrite Et; reflexivity);
    cbn [snd prod_map id apply PageAllocRedoHandler PageFreeRedoHandler NoOpRedoHandler TxnCommitHandler TxnAbortHandler] in H |- *;
    try (by eauto).
  - apply mbindM_ok in H as (d & c1 & Hd & _). unfold of_res in Hd. injection Hd as Hd _.
    unfold mbindM, of_res. rewrite Hd. unfold on_ctx_clog, TxnCommitHandler_apply.
    destruct (Hclog (ctx_clog c) (tc_xid d) Committed) as [l' ->]. by eauto.
  - apply mbindM_ok in H as (d & c1 & Hd & _). unfold of_res in Hd. injection Hd as Hd _.
    unfold mbindM, of_res. rewrite Hd. unfold on_ctx_clog, TxnAbortHandler_apply.
    destruct (Hclog (ctx_clog c) (ta_xid d) Aborted) as [l' ->]. by eauto.
  - unfold on_allocator in H |- *. injection H as Hf _. destruct (replay_record r (page_allocator c0)) as [r0 a0] eqn:E.
    simpl in Hf. subst r0. destruct (replay_record_total _ _ _ _ E Hio) as (a' & -> & Hio'). by eauto.
  - unfold on_allocator in H |- *. injection H as Hf _. destruct (replay_record r (page_allocator c0)) as [r0 a0] eqn:E.
    simpl in Hf. subst r0. destruct (replay_record_total _ _ _ _ E Hio) as (a' & -> & Hio'). by eauto.
Qed.

(** ** One record *)

Lemma record_pages r (c c' : Ctx) pool :
  pair_kind (wr_type r) = false -> registry_apply recovery_registry r c = (Ok tt, c') -> buffer_pool c = Some pool ->
  exists pool', run_plan (record_plan r) pool = (Ok tt, pool') /\ buffer_pool c' = Some pool'.
Proof.
  intros Hk2 H Hp. destruct (page_kind (wr_type r)) eqn:Hk.
  - pose proof (page_record r c pool Hk Hp) as Heq. destruct (interpret r); [|by rewrite H in Heq..].
    destruct Heq as [t Heq]. rewrite Heq in H. unfold on_pool in H. cbn [buffer_pool with_splits] in H. rewrite Hp in H.
    injection H as Hf <-. destruct (run_plan (record_plan r) pool) as [x pool']. simpl in *. subst x. eauto.
  - rewrite other_record_plan by done. exists pool. split; [done|]. by rewrite (other_record_pool _ _ _ Hk Hk2 H).
Qed.

Lemma record_keeps_pool r (c c' : Ctx) pool :
  registry_apply recovery_registry r c = (Ok tt, c') -> buffer_pool c = Some pool -> exists pool', buffer_pool c' = Some pool'.
Proof.
  intros H Hp. destruct (pair_kind (wr_type r)) eqn:Hk; [by eapply pair_record|].
  destruct (record_pages _ _ _ _ Hk H Hp) as (pool' & _ & ?). eauto.
Qed.

Lemma record_total r (c0 c0' c : Ctx) pool0 pool pool' :
  clog_total -> pair_kind (wr_type r) = false -> registry_apply recovery_registry r c0 = (Ok tt, c0') -> buffer_pool c0 = Some pool0 ->
  buffer_pool c = Some pool -> data_io (page_allocator c) = [] -> run_plan (record_plan r) pool = (Ok tt, pool') ->
  exists c', registry_apply recovery_registry r c = (Ok tt, c') /\ buffer_pool c' = Some pool' /\
    data_io (page_allocator c') = [].
Proof.
  intros Hclog Hk2 H0 Hp0 Hp Hio Hrun. destruct (page_kind (wr_type r)) eqn:Hk.
  - pose proof (page_record r c0 pool0 Hk Hp0) as H1. pose proof (page_record r c pool Hk Hp) as H2.
    destruct (interpret r); [|by rewrite H0 in H1..]. destruct H2 as [t H2].
    exists (with_pool (Some pool') (with_splits t c)). split; [|done]. rewrite H2. unfold on_pool. cbn [buffer_pool with_splits]. by rewrite Hp, Hrun.
  - destruct (other_record_total r c0 c0' c Hclog Hk Hk2 H0 Hio) as (c' & Ha & Hio'). exists c'. split; [done|].
    rewrite other_record_plan in Hrun by done. injection Hrun as <-.
    by rewrite (other_record_pool _ _ _ Hk Hk2 Ha).
Qed.

(** ** The whole log *)

(** What may follow the records: the end of the log, or a corrupt record. *)
Definition log_end (tail : WalStream) : Prop :=
  tail = [] \/ exists e t, tail = Err e :: t /\ is_hard_error e = false.

Lemma replay_log_end reg tail m (c : Ctx) : log_end tail -> replay_loop reg tail m c = (Ok m, c).
Proof. intros [->|(e & t & -> & He)]; [done|]. simpl. by rewrite He. Qed.

Lemma run_plan_app l1 l2 (pool : P) : run_plan (l1 ++ l2) pool = (run_plan l1 ;! run_plan l2) pool.
Proof.
  revert pool. induction l1 as [|[p op] l1 IH]; intros pool; [done|]. simpl. unfold mbindM in *.
  destruct (with_page p (po_act op) pool) as [[[]| |] pool']; [apply IH|done..].
Qed.

(** No record of the log changes two pages together. *)
Definition single_page_log (rs : list WalRecord) : Prop := Forall (fun r => pair_kind (wr_type r) = false) rs.

Lemma replay_keeps_pool rs tail : forall m (c c' : Ctx) x pool,
  log_end tail -> replay_loop recovery_registry ((Ok <$> rs) ++ tail) m c = (Ok x, c') -> buffer_pool c = Some pool ->
  exists pool', buffer_pool c' = Some pool'.
Proof.
  induction rs as [|r rs IH]; intros m c c' x pool Ht H Hp.
  - rewrite (replay_log_end _ _ _ _ Ht) in H. injection H as _ <-. by eauto.
  - simpl in H. apply mbindM_ok in H as ([] & c1 & Ha & H). destruct (record_keeps_pool _ _ _ _ Ha Hp) as [pool1 Hp1]. by eauto.
Qed.

Lemma replay_pages rs tail : forall m (c c' : Ctx) x pool,
  single_page_log rs -> log_end tail -> replay_loop recovery_registry ((Ok <$> rs) ++ tail) m c = (Ok x, c') -> buffer_pool c = Some pool ->
  exists pool', run_plan (log_plan rs) pool = (Ok tt, pool') /\ buffer_pool c' = Some pool'.
Proof.
  induction rs as [|r rs IH]; intros m c c' x pool Hsp Ht H Hp.
  - rewrite (replay_log_end _ _ _ _ Ht) in H. injection H as _ <-. by eauto.
  - simpl in H. apply mbindM_ok in H as ([] & c1 & Ha & H). inversion_clear Hsp as [|?? Hk Hsp'].
    destruct (record_pages _ _ _ _ Hk Ha Hp) as (pool1 & Hr1 & Hp1).
    destruct (IH _ _ _ _ _ Hsp' Ht H Hp1) as (pool' & Hr & Hp'). exists pool'. split; [|done].
    simpl. rewrite run_plan_app. unfold mbindM. by rewrite Hr1.
Qed.

Lemma replay_total rs tail : forall m (c0 c0' c : Ctx) x pool0 pool pool',
  clog_total -> single_page_log rs -> log_end tail ->
  replay_loop recovery_registry ((Ok <$> rs) ++ tail) m c0 = (Ok x, c0') ->
  buffer_pool c0 = Some pool0 -> buffer_pool c = Some pool -> data_io (page_allocator c) = [] ->
  run_plan (log_plan rs) pool = (Ok tt, pool') ->
  exists c', replay_loop recovery_registry ((Ok <$> rs) ++ tail) m c = (Ok x, c') /\ buffer_pool c' = Some pool'.
Proof.
  induction rs as [|r rs IH]; intros m c0 c0' c x pool0 pool pool' Hclog Hsp Ht H0 Hp0 Hp Hio Hrun.
  - simpl in Hrun. injection Hrun as <-. rewrite fmap_nil, app_nil_l in H0 |- *.
    rewrite replay_log_end in H0 by done. injection H0 as <- _. exists c. by rewrite replay_log_end.
  - simpl in H0 |- *. apply mbindM_ok in H0 as ([] & c1 & Ha & H0). simpl in Hrun.
    rewrite run_plan_app in Hrun. apply mbindM_ok in Hrun as ([] & pool1 & Hr1 & Hrun).
    inversion_clear Hsp as [|?? Hk Hsp'].
    destruct (record_total _ _ _ _ _ _ _ Hclog Hk Ha Hp0 Hp Hio Hr1) as (c2 & Ha2 & Hp2 & Hio2).
    destruct (record_pages _ _ _ _ Hk Ha Hp0) as (pool01 & _ & Hp01).
    destruct (IH _ _ _ _ _ _ _ _ Hclog Hsp' Ht H0 Hp01 Hp2 Hio2 Hrun) as (c' & Hl & Hp').
    exists c'. split; [|done]. unfold mbindM. by rewrite Ha2.
Qed.

Lemma flush_pages_spec ids : forall pool pool' : P,
  flush_pages ids pool = (Ok tt, pool') ->
  forall q, pool_page pool' q = pool_page pool q /\
    (q ∈ ids \/ pool_disk pool q = pool_page pool q -> pool_disk pool' q = pool_page pool' q).
Proof.
  induction ids as [|p ids IH]; intros pool pool' H q.
  - injection H as <-. split; [done|]. intros [?%elem_of_nil|?]; done.
  - simpl in H. apply mbindM_ok in H as ([] & pool1 & Hf & H). apply flush_ok in Hf as (Hpg & Hdp & Hd).
    destruct (IH _ _ H q) as [H1 H2]. split; [by rewrite H1, Hpg|].
    rewrite elem_of_cons. intros Hq. apply H2. rewrite Hpg.
    destruct Hq as [[->|?]|Hq]; [by right|by left|]. right. destruct (Hd q) as [->| ->]; done.
Qed.

Lemma flush_pages_total ids : forall pool : P,
  pool_ok pool -> exists pool', flush_pages ids pool = (Ok tt, pool') /\ pool_ok pool'.
Proof.
  induction ids as [|p ids IH]; intros pool Hok; [by eauto|].
  destruct (flush_total pool p Hok) as (pool1 & Hf & Hok1). destruct (IH pool1 Hok1) as (pool' & Hr & Hok').
  exists pool'. split; [|done]. simpl. unfold mbindM. by rewrite Hf.
Qed.

(** After the flush the data file holds what the pool shows. *)
Lemma flush_dirty_pages_spec (pool pool' : P) :
  flush_pages (dirty_page_ids pool) pool = (Ok tt, pool') ->
  forall q, pool_page pool' q = pool_page pool q /\ pool_disk pool' q = pool_page pool q.
Proof.
  intros H q. destruct (flush_pages_spec _ _ _ H q) as [H1 H2]. split; [done|]. rewrite <-H1. apply H2.
  destruct (decide (q ∈ dirty_page_ids pool)); [by left|right; by apply pool_clean].
Qed.

End steps.

(** ** Transaction outcomes *)

Section outcomes.
Context {BC : Bincode} {P : Type} {PP : PagePool P} {PL : PagePoolLaws P} {C : Type} {CA : ClogAccessor C} {CL : ClogLaws C}
  {W : Type} {PW : PageWal W}.

Abbreviation Ctx := (RedoContext P C W).

(** The outcome a record states, and the last one the log states for [x]. *)
Definition record_outcome (r : WalRecord) : option (TxnId * TxnState) :=
  match interpret r with
  | Ok (PTxnCommit rec) => Some (tc_xid rec, Committed)
  | Ok (PTxnAbort rec) => Some (ta_xid rec, Aborted)
  | _ => None
  end.

Fixpoint log_outcome (x : TxnId) (rs : list WalRecord) (acc : TxnState) : TxnState :=
  match rs with
  | [] => acc
  | r :: rs =>
      log_outcome x rs (match record_outcome r with Some (y, s) => if decide (x = y) then s else acc | None => acc end)
  end.

Definition outcome_valid (r : WalRecord) : Prop := forall y s, record_outcome r = Some (y, s) -> valid_xid y.

Lemma record_clog r (c c' : Ctx) pool :
  registry_apply recovery_registry r c = (Ok tt, c') -> buffer_pool c = Some pool ->
  match record_outcome r with
  | Some (y, s) => set_state y s (ctx_clog c) = (Ok tt, ctx_clog c')
  | None => ctx_clog c' = ctx_clog c
  end.
Proof.
  intros H Hp. unfold record_outcome. destruct (page_kind (wr_type r)) eqn:Hk.
  - assert (Hsame : ctx_clog c' = ctx_clog c).
    { pose proof (page_record r c pool Hk Hp) as Heq. destruct (interpret r); [|by rewrite H in Heq..].
      destruct Heq as [t Heq]. rewrite Heq in H. unfold on_pool in H. cbn [buffer_pool with_splits] in H. rewrite Hp in H.
      by injection H as _ <-. }
    unfold interpret. destruct (wr_type r); try done; match goal with |- context [res_bind ?m _] => destruct m end; done.
  - destruct (pair_kind (wr_type r)) eqn:Hk2.
    { destruct (pair_record _ _ _ _ Hk2 Hp H) as [Hsame _]. unfold interpret.
      destruct (wr_type r); try done; match goal with |- context [res_bind ?m _] => destruct m end; done. }
    unfold interpret. destruct (wr_type r) eqn:Et; try done;
      try (rewrite registry_apply_unknown in H by (rewrite Et; reflexivity); discriminate H);
      erewrite registry_apply_handler in H by (rewrite Et; reflexivity);
      cbn [snd prod_map id apply PageAllocRedoHandler PageFreeRedoHandler NoOpRedoHandler TxnCommitHandler TxnAbortHandler] in H;
      try (apply mbindM_ok in H as (d & c1 & Hd & H); unfold of_res in Hd; injection Hd as Hd <-; rewrite Hd; simpl;
           unfold on_ctx_clog, TxnCommitHandler_apply, TxnAbortHandler_apply in H;
           destruct (set_state _ _ _) as [x l'] eqn:E; simpl in H; by injection H as -> <-);
      try (match goal with |- context [res_bind ?m _] => destruct m end);
      try (by injection H as <-); unfold on_allocator in H; by injection H as _ <-.
Qed.

(** Views of the commit log agree on all transaction ids. *)
Definition same_view (f g : TxnId -> TxnState) : Prop := forall x, valid_xid x -> f x = g x.

Lemma log_outcome_ext x rs : forall acc acc', acc = acc' -> log_outcome x rs acc = log_outcome x rs acc'.
Proof. by intros acc acc' ->. Qed.

Lemma replay_clog rs tail : forall m (c c' : Ctx) y pool,
  log_end tail -> Forall outcome_valid rs -> clog_inv (ctx_clog c) -> buffer_pool c = Some pool ->
  replay_loop recovery_registry ((Ok <$> rs) ++ tail) m c = (Ok y, c') ->
  clog_inv (ctx_clog c') /\
  forall x, valid_xid x -> clog_view (ctx_clog c') x = log_outcome x rs (clog_view (ctx_clog c) x).
Proof.
  induction rs as [|r rs IH]; intros m c c' y pool Ht Hv Hi Hp H.
  - rewrite fmap_nil, app_nil_l, replay_log_end in H by done. injection H as _ <-. done.
  - simpl in H. apply mbindM_ok in H as ([] & c1 & Ha & H). inversion_clear Hv as [|?? Hr Hv'].
    destruct (record_keeps_pool _ _ _ _ Ha Hp) as [pool1 Hp1]. pose proof (record_clog _ _ _ _ Ha Hp) as Hc.
    unfold outcome_valid in Hr. simpl. destruct (record_outcome r) as [[z s]|] eqn:Eo.
    + apply set_state_ok in Hc as [Hi1 Hview]; [|done|by eapply Hr].
      destruct (IH _ _ _ _ _ Ht Hv' Hi1 Hp1 H) as [Hi' Hx]. split; [done|]. intros x Hxv. by rewrite Hx, Hview.
    + rewrite <-Hc in *. by eapply IH.
Qed.

Lemma replay_max rs tail : forall m (c c' : Ctx) y,
  log_end tail -> replay_loop recovery_registry ((Ok <$> rs) ++ tail) m c = (Ok y, c') ->
  m <= y /\ Forall (fun r => wr_txn_id r <= y) rs /\ (y = m \/ exists r, r ∈ rs /\ wr_txn_id r = y).
Proof.
  induction rs as [|r rs IH]; intros m c c' y Ht H.
  - rewrite fmap_nil, app_nil_l, replay_log_end in H by done. injection H as <- _. split; [lia|]. split; [done|by left].
  - simpl in H. apply mbindM_ok in H as ([] & c1 & Ha & H). destruct (IH _ _ _ _ Ht H) as (H1 & H2 & H3).
    destruct (wr_txn_id r >? m) eqn:E; zbool.
    + split; [lia|]. split; [by constructor|]. right. destruct H3 as [->|(r' & Hr' & <-)].
      * exists r. split; [apply elem_of_cons; by left|done].
      * exists r'. split; [apply elem_of_cons; by right|done].
    + split; [done|]. split; [constructor; [lia|done]|]. destruct H3 as [->|(r' & Hr' & <-)]; [by left|].
      right. exists r'. split; [apply elem_of_cons; by right|done].
Qed.

Lemma filter_att_spec xs : forall (l l' : C) ys,
  Forall valid_xid xs -> clog_inv l -> filter_att xs l = (Ok ys, l') ->
  clog_inv l' /\ same_view (clog_view l') (clog_view l) /\
  forall x, x ∈ ys <-> x ∈ xs /\ ~ terminal (clog_view l x).
Proof.
  induction xs as [|x xs IH]; intros l l' ys Hv Hi H; [injection H as <- <-; split; [done|]; split; [done|]; set_solver|].
  inversion_clear Hv as [|?? Hx Hv']. simpl in H.
  apply mbindM_ok in H as (s & l1 & Hg & H). apply get_state_ok in Hg as (-> & Hi1 & Hs1); [|done|done].
  apply mbindM_ok in H as (zs & l2 & Hf & H). injection H as <- <-.
  destruct (IH _ _ _ Hv' Hi1 Hf) as (Hi2 & Hs2 & Hz). split; [done|].
  split; [intros y Hy; by rewrite Hs2, Hs1|].
  assert (Hz' : forall y, y ∈ zs <-> y ∈ xs /\ ~ terminal (clog_view l y)).
  { rewrite Forall_forall in Hv'. intros y. rewrite Hz. split; intros [Hy Ht]; (split; [done|]).
    - by rewrite <-Hs1 by auto.
    - by rewrite Hs1 by auto. }
  intros y. rewrite elem_of_cons. destruct (clog_view l x) eqn:E;
    rewrite ?elem_of_cons, Hz'; unfold terminal in *; naive_solver congruence.
Qed.

Lemma heap_undo_spec xs : forall (l l' : C),
  Forall valid_xid xs -> clog_inv l -> HeapUndoHandler_undo xs l = (Ok tt, l') ->
  clog_inv l' /\ forall x, valid_xid x -> clog_view l' x = if decide (x ∈ xs) then Aborted else clog_view l x.
Proof.
  induction xs as [|y xs IH]; intros l l' Hv Hi H; [injection H as <-; split; [done|]; intros; by rewrite decide_False by set_solver|].
  inversion_clear Hv as [|?? Hy Hv']. simpl in H. apply mbindM_ok in H as ([] & l1 & Hg & H).
  apply set_state_ok in Hg as (Hi1 & Hs1); [|done|done]. destruct (IH _ _ Hv' Hi1 H) as [Hi' Hs]. split; [done|].
  intros x Hx. rewrite Hs, Hs1 by done. repeat case_decide; try done; set_solver.
Qed.

End outcomes.

(** ** Properties *)

Section properties.
Context {BC : Bincode} {P : Type} {PP : PagePool P} {PL : PagePoolLaws P} {C : Type} {CA : ClogAccessor C}
  {W : Type} {PW : PageWal W}.
Variable crc32 : list Z -> Z.
Variable dec_att : list Z -> option (list TxnId).
Variable dec_dpt : list Z -> option (list (PageId * Lsn)).
Variable read_file : list Z -> option (list Z).
Variable wal_open_at : Lsn -> res StorageError WalStream.
Variable wal_flush : M W StorageError unit.

Abbreviation Ctx := (RedoContext P C W).
Abbreviation extra := (heap_redo_handlers ++ txn_redo_handlers ++ btree_redo_handlers : list (RedoHandler P C W)).

Lemma replay_wal_unfold start events (c : Ctx) :
  wal_open_at start = Ok events ->
  replay_wal wal_open_at start extra c =
    (let! max_txn_id := replay_loop recovery_registry events TxnId_INVALID in
     let! ctx := mget in
     flush_dirty_pages ;!
     mret (max_txn_id, incomplete_splits ctx)) (fresh_tables c).
Proof.
  intros Ho. unfold replay_wal. unfold mbindM at 1, of_res at 1. rewrite Ho.
  change (storage_redo_handlers ++ extra) with (@all_handlers BC P PP C CA W).
  by rewrite (proj1 recovery_registry_spec).
Qed.

Lemma replay_wal_ok start rs tail (c c' : Ctx) pool x :
  wal_open_at start = Ok ((Ok <$> rs) ++ tail) -> log_end tail -> buffer_pool c = Some pool ->
  replay_wal wal_open_at start extra c = (Ok x, c') ->
  exists c1 pool1 pool', replay_loop recovery_registry ((Ok <$> rs) ++ tail) TxnId_INVALID (fresh_tables c) = (Ok (fst x), c1) /\
    buffer_pool c1 = Some pool1 /\ flush_pages (dirty_page_ids pool1) pool1 = (Ok tt, pool') /\
    c' = with_pool (Some pool') c1.
Proof.
  intros Ho Ht Hp H. rewrite (replay_wal_unfold _ _ _ Ho) in H.
  apply mbindM_ok in H as (m & c1 & Hl & H). apply mbindM_ok in H as (ctx & c2 & Hg & H). injection Hg as <- <-.
  apply mbindM_ok in H as ([] & c3 & Hf & H). injection H as <- <-.
  destruct (replay_keeps_pool _ _ _ _ _ _ _ Ht Hl Hp) as [pool1 Hp1].
  unfold flush_dirty_pages, on_pool in Hf. rewrite Hp1 in Hf. injection Hf as Hf <-.
  destruct (flush_pages (dirty_page_ids pool1) pool1) as [y pool'] eqn:E. simpl in *. subst y. by eauto 10.
Qed.

Lemma log_plan_app rs1 rs2 : log_plan (rs1 ++ rs2) = log_plan rs1 ++ log_plan rs2.
Proof. induction rs1 as [|r rs1 IH]; [done|]. simpl. by rewrite IH, app_assoc. Qed.

(** Redo of the page actions, from any recoverable pool. *)
Lemma plan_converges rs (pool0 pool1 poolc : P) :
  Forall log_record rs -> StronglySorted Z.le (wr_lsn <$> rs) -> run_plan (log_plan rs) pool0 = (Ok tt, pool1) ->
  pool_ok poolc -> (forall p, recoverable (ops_on p (log_plan rs)) (pool_page pool0 p) (pool_page poolc p)) ->
  exists pool2, run_plan (log_plan rs) poolc = (Ok tt, pool2) /\ pool_ok pool2 /\
    forall p, pool_page pool2 p = pool_page pool1 p.
Proof.
  intros Hrs Hs Hrun Hok Hrec. pose proof (log_plan_replayable rs Hrs) as Hr.
  assert (Hfin : forall p, run_ops (ops_on p (log_plan rs)) (pool_page poolc p) = Some (pool_page pool1 p)).
  { intros p. eapply redo_converges; [by apply plan_replayable_on|by apply log_plan_sorted|apply pool_page_wf| |apply Hrec].
    by apply run_plan_pages. }
  destruct (run_plan_total (log_plan rs) poolc Hr Hok) as (pool2 & Hrun2 & Hok2); [by eauto|].
  exists pool2. split; [done|]. split; [done|]. intros p.
  pose proof (run_plan_pages _ _ _ p Hr Hrun2) as H2. rewrite Hfin in H2. by injection H2.
Qed.

(** The rest of [replay_wal]: the dirty pages are flushed. *)
Lemma replay_wal_total start rs tail (c0 c0' c : Ctx) pool0 pool pool2 m :
  wal_open_at start = Ok ((Ok <$> rs) ++ tail) -> single_page_log rs -> log_end tail -> clog_total (C:=C) ->
  replay_loop recovery_registry ((Ok <$> rs) ++ tail) TxnId_INVALID (fresh_tables c0) = (Ok m, c0') ->
  buffer_pool c0 = Some pool0 -> buffer_pool c = Some pool -> data_io (page_allocator c) = [] ->
  run_plan (log_plan rs) pool = (Ok tt, pool2) -> pool_ok pool2 ->
  exists y c' pool', replay_wal wal_open_at start extra c = (Ok y, c') /\ fst y = m /\ buffer_pool c' = Some pool' /\
    forall p, pool_page pool' p = pool_page pool2 p /\ pool_disk pool' p = pool_page pool2 p.
Proof.
  intros Ho Hsp Ht Hclog Hl Hp0 Hp Hio Hrun Hok.
  destruct (replay_total _ _ _ _ _ (fresh_tables c) _ _ _ _ Hclog Hsp Ht Hl Hp0 Hp Hio Hrun) as (c1 & Hl1 & Hp1).
  destruct (flush_pages_total (dirty_page_ids pool2) pool2 Hok) as (pool' & Hf & _).
  exists (m, incomplete_splits c1), (with_pool (Some pool') c1), pool'.
  split; [|split; [done|split; [done|by apply flush_dirty_pages_spec]]].
  rewrite (replay_wal_unfold _ _ _ Ho). unfold mbindM, mget, flush_dirty_pages, on_pool. by rewrite Hl1, Hp1, Hf.
Qed.

(** C5: redo converges.  Take the pages at a checkpoint and let redo run over
    the log once.  Now crash at any time: each page of the data file is some
    version of the page along the log (whatever was last written), or arbitrary
    garbage from a torn write provided the first record on it is a full-page image.
    Redo of the same log from that state succeeds, every page ends exactly as in
    the first run, and the data file holds it; and if redo itself crashes after any
    number of records, the pages it leaves are again such a state.  This is for
    logs of records that change one page at a time (page images, heap and tree
    inserts, updates and deletes, the prepare and commit steps of a split). *)
Theorem redo_convergence start rs tail (base crash base' : Ctx) pool0 poolc x :
  wal_open_at start = Ok ((Ok <$> rs) ++ tail) -> log_end tail ->
  Forall log_record rs -> single_page_log rs -> StronglySorted Z.le (wr_lsn <$> rs) ->
  buffer_pool base = Some pool0 -> replay_wal wal_open_at start extra base = (Ok x, base') ->
  buffer_pool crash = Some poolc -> pool_ok poolc -> data_io (page_allocator crash) = [] -> clog_total (C:=C) ->
  (forall p, recoverable (ops_on p (log_plan rs)) (pool_page pool0 p) (pool_page poolc p)) ->
  (exists y crash' pool' pool1, replay_wal wal_open_at start extra crash = (Ok y, crash') /\ fst y = fst x /\
     buffer_pool crash' = Some pool' /\ buffer_pool base' = Some pool1 /\
     forall p, pool_page pool' p = pool_page pool1 p /\ pool_disk pool' p = pool_page pool1 p) /\
  (forall k m m' c' poolk, replay_loop recovery_registry (Ok <$> take k rs) m crash = (Ok m', c') ->
     buffer_pool c' = Some poolk ->
     forall p, recoverable (ops_on p (log_plan rs)) (pool_page pool0 p) (pool_page poolk p)).
Proof.
  intros Ho Ht Hrs Hsp Hs Hp0 Hbase Hpc Hok Hio Hclog Hrec.
  destruct (replay_wal_ok _ _ _ _ _ _ _ Ho Ht Hp0 Hbase) as (c1 & pool1 & poolb & Hl & Hp1 & Hf & ->).
  destruct (replay_pages _ _ _ (fresh_tables base) _ _ _ Hsp Ht Hl Hp0) as (pool1' & Hrun & Hp1').
  rewrite Hp1 in Hp1'. injection Hp1' as <-. split.
  - destruct (plan_converges rs _ _ _ Hrs Hs Hrun Hok Hrec) as (pool2 & Hrun2 & Hok2 & Heq).
    destruct (replay_wal_total _ _ _ _ _ _ _ _ _ _ Ho Hsp Ht Hclog Hl Hp0 Hpc Hio Hrun2 Hok2)
      as (y & c' & pool' & Hrw & Hy & Hp' & Hpages).
    exists y, c', pool', poolb. split; [done|]. split; [done|]. split; [done|]. split; [done|]. intros p.
    destruct (flush_dirty_pages_spec _ _ Hf p) as [-> _]. rewrite <-Heq. apply Hpages.
  - intros k m m' c' poolk Hk Hpk p. pose proof (log_plan_replayable rs Hrs) as Hr.
    rewrite <-(app_nil_r (Ok <$> take k rs)) in Hk.
    destruct (replay_pages (take k rs) [] _ _ _ _ _ (Forall_take _ _ _ Hsp) (or_introl eq_refl) Hk Hpc) as (pool2 & Hrun2 & Hp2).
    rewrite Hpk in Hp2. injection Hp2 as <-.
    apply (run_plan_pages _ _ _ p) in Hrun2; [|by apply log_plan_replayable, Forall_take].
    assert (Hpre : ops_on p (log_plan (take k rs)) = take (length (ops_on p (log_plan (take k rs)))) (ops_on p (log_plan rs))).
    { rewrite <-(take_drop k rs) at 3. by rewrite log_plan_app, ops_on_app, take_app_length. }
    rewrite Hpre in Hrun2. eapply redo_interrupted, Hrun2;
      [by apply plan_replayable_on|by apply log_plan_sorted|apply pool_page_wf|by apply run_plan_pages|apply Hrec].
Qed.

End properties.

Section recovery.
Context {BC : Bincode} {P : Type} {PP : PagePool P} {PL : PagePoolLaws P} {C : Type} {CA : ClogAccessor C} {CL : ClogLaws C}
  {W : Type} {PW : PageWal W}.
Variable crc32 : list Z -> Z.
Variable dec_att : list Z -> option (list TxnId).
Variable dec_dpt : list Z -> option (list (PageId * Lsn)).
Variable read_file : list Z -> option (list Z).
Variable wal_open_at : Lsn -> res StorageError WalStream.
Variable wal_flush : M W StorageError unit.

Abbreviation Ctx := (RedoContext P C W).
Abbreviation extra := (heap_redo_handlers ++ txn_redo_handlers ++ btree_redo_handlers : list (RedoHandler P C W)).

Lemma flush_dirty_clog (c c' : Ctx) a : flush_dirty_pages c = (a, c') -> ctx_clog c' = ctx_clog c.
Proof. unfold flush_dirty_pages, on_pool. destruct (buffer_pool c); by intros [= _ <-]. Qed.

(** C6: transaction outcomes after recovery.  When recovery succeeds, the next
    transaction id is above every id on a replayed record and not below the
    superblock's; every transaction that ended in the replayed log has its last
    logged outcome; the recovered active transactions are exactly those of the
    analysis whose outcome neither the log nor the commit log knows, and they
    are aborted; every other transaction keeps the state it had. *)
Theorem recovery_outcomes checkpoint_lsn next an rs tail pool (c c' : Ctx) recovered :
  engine_run_analysis crc32 dec_att dec_dpt read_file wal_open_at checkpoint_lsn = Ok an ->
  Forall valid_xid (att an) -> wal_open_at (redo_start an) = Ok ((Ok <$> rs) ++ tail) -> log_end tail ->
  Forall outcome_valid rs -> buffer_pool c = Some pool -> clog_inv (ctx_clog c) ->
  recover_phases crc32 dec_att dec_dpt read_file wal_open_at wal_flush checkpoint_lsn next extra [HeapUndoHandler] c
    = (Ok recovered, c') ->
  let before x := log_outcome x rs (clog_view (ctx_clog c) x) in
  next <= recovered_next_txn_id recovered /\
  (forall r, r ∈ rs -> 0 < wr_txn_id r < 2 ^ 64 - 1 -> wr_txn_id r < recovered_next_txn_id recovered) /\
  (forall x, x ∈ recovered_att recovered <-> x ∈ att an /\ ~ terminal (before x)) /\
  (forall x, valid_xid x ->
     clog_view (ctx_clog c') x = if decide (x ∈ recovered_att recovered) then Aborted else before x).
Proof.
  intros Han Hva Ho Ht Hvo Hp Hi H before. unfold recover_phases in H.
  apply mbindM_ok in H as (an' & c0 & Ha & H). unfold of_res in Ha. rewrite Han in Ha. injection Ha as <- <-.
  apply mbindM_ok in H as (rep & c1 & Hrep & H).
  destruct (replay_wal_ok _ _ _ _ _ _ _ _ Ho Ht Hp Hrep) as (c2 & pool1 & pool' & Hl & _ & _ & ->).
  destruct (replay_clog _ _ _ (fresh_tables c) _ _ _ Ht Hvo Hi Hp Hl) as [Hi2 Hout]. destruct (replay_max _ _ _ _ _ _ Ht Hl) as (Hm0 & Hmax & Hwho).
  apply mbindM_ok in H as ([] & c3 & Hmark & H). injection Hmark as <-.
  apply mbindM_ok in H as (ys & c4 & Hfil & H). unfold on_ctx_clog in Hfil. simpl in Hfil.
  destruct (filter_att (att an) (ctx_clog c2)) as [ry l4] eqn:Ef. simpl in Hfil. injection Hfil as -> <-.
  destruct (filter_att_spec _ _ _ _ Hva Hi2 Ef) as (Hi4 & Hs4 & Hys).
  apply mbindM_ok in H as ([] & c5 & Hundo & H). simpl in Hundo. rewrite bind_ret in Hundo.
  unfold HeapUndoHandler, on_ctx_clog in Hundo. simpl in Hundo.
  destruct (HeapUndoHandler_undo ys l4) as [ru l5] eqn:Eu. simpl in Hundo. injection Hundo as -> <-.
  assert (Hvy : Forall valid_xid ys).
  { rewrite Forall_forall in Hva |- *. intros x Hx. apply Hva, Hys, Hx. }
  destruct (heap_undo_spec _ _ _ Hvy Hi4 Eu) as [_ Hs5].
  apply mbindM_ok in H as ([] & c6 & Hw & H). unfold on_wal_writer, on_allocator in Hw. injection Hw as _ <-.
  apply mbindM_ok in H as ([] & c7 & Hfl & H). apply flush_dirty_clog in Hfl. injection H as <- <-. simpl in Hfl.
  cbn [recovered_att recovered_next_txn_id]. unfold TxnIdClock_new, saturating_succ, before, TxnId_INVALID in *.
  rewrite Forall_forall in Hmax. rewrite Forall_forall in Hva.
  split; [destruct (negb _); lia|]. split; [|split].
  - intros r Hr Hb. specialize (Hmax r Hr). destruct (fst rep =? 0) eqn:E; zbool; simpl; lia.
  - intros x. rewrite Hys. split; intros [Hx Hn]; (split; [done|]).
    + by rewrite <-Hout by auto.
    + by rewrite Hout by auto.
  - intros x Hx. rewrite Hfl. simpl. rewrite Hs5 by done. case_decide; [done|]. by rewrite Hs4, Hout.
Qed.

End recovery.

(** ** Witnesses *)

Section logged.
Context {BC : Bincode} {BL : BincodeLaws}.

(** Records written by the constructors are records of the log. *)
Lemma constructed_log_record p xid l r :
  payload_wf p -> in_u 64 l -> construct p xid = Ok r -> log_record (set_lsn l r).
Proof.
  intros Hp Hl Hc. destruct (interpret_construct p xid Hp) as (bs & Hc' & _ & Hi). rewrite Hc in Hc'.
  apply Ok_inj in Hc' as ->. split; [done|]. intros p' Hp'. rewrite Hi in Hp'. by apply Ok_inj in Hp' as <-.
Qed.

Definition logged_as (p : Payload) (xid : TxnId) (l : Lsn) : WalRecord :=
  match construct p xid with Ok r => set_lsn l r | _ => WalRecord_new CheckpointBegin [] end.

Lemma logged_as_record p xid l : payload_wf p -> in_u 64 l -> log_record (logged_as p xid l).
Proof.
  intros Hp Hl. unfold logged_as. destruct (interpret_construct p xid Hp) as (bs & Hc & _).
  rewrite Hc. by eapply constructed_log_record.
Qed.

Lemma logged_as_plan p xid l : payload_wf p -> record_plan (logged_as p xid l) = payload_plan l p.
Proof.
  intros Hp. unfold record_plan, logged_as. destruct (interpret_construct p xid Hp) as (bs & Hc & _ & Hi).
  by rewrite Hc, Hi.
Qed.

End logged.

(** A page image, an insert into that page, the commit of transaction 5. *)
Definition demo_tuple : list Z := replicate 70 7.
Definition demo_log : list WalRecord :=
  [logged_as (PFullPageImage (mkFullPageImageRecord 1 (zeros PAGE_SIZE))) 5 8;
   logged_as (PHeapInsert (mkHeapInsertRecord 1 0 demo_tuple)) 5 16;
   logged_as (PTxnCommit (mkTxnCommitRecord 5)) 5 24].
Definition demo_wal (_ : Lsn) : res StorageError WalStream := Ok (Ok <$> demo_log).

Definition demo_ctx (disk : gmap Z (list Z)) : RedoContext MapPool InMemoryClogAccessor LogWal :=
  mkRedoContext (Some (mkMapPool ∅ disk [])) (mkPageAllocator (mkLogWal [] 0 []) [] 0 1 [] false) MemClog_new ∅ ∅ ∅
    (mkPositionedFile [] []).

Abbreviation demo_extra :=
  (heap_redo_handlers ++ txn_redo_handlers ++ btree_redo_handlers : list (RedoHandler MapPool InMemoryClogAccessor LogWal)).

Lemma demo_fpi_wf : payload_wf (PFullPageImage (mkFullPageImageRecord 1 (zeros PAGE_SIZE))).
Proof.
  split; [|done]. apply Forall_cons_2, Forall_cons_2, Forall_nil_2; simpl; [unfold in_u; lia|].
  split; [apply wf_zeros|]. vm_compute. reflexivity.
Qed.

Lemma demo_log_records : Forall log_record demo_log.
Proof.
  unfold demo_log. apply Forall_cons_2, Forall_cons_2, Forall_cons_2, Forall_nil_2;
    (apply logged_as_record; [|unfold in_u; lia]); [apply demo_fpi_wf|split; [|done]..].
  - apply Forall_cons_2, Forall_cons_2, Forall_cons_2, Forall_nil_2; simpl; unfold in_u; [lia|lia|].
    split; [by apply Forall_replicate|vm_compute; reflexivity].
  - apply Forall_cons_2, Forall_nil_2. simpl. unfold in_u. lia.
Qed.

(** The first page torn at the crash, everything else as at the checkpoint. *)
Definition demo_torn : gmap Z (list Z) := {[1 := [1; 2; 3]]}.

Lemma demo_recoverable p :
  recoverable (ops_on p (log_plan demo_log)) (pool_page (mkMapPool ∅ ∅ []) p) (pool_page (mkMapPool ∅ demo_torn []) p).
Proof.
  split; [apply (pool_page_wf (mkMapPool ∅ demo_torn []))|]. destruct (decide (p = 1)) as [->|Hp].
  - right.
    unfold demo_log, log_plan. rewrite logged_as_plan by apply demo_fpi_wf. cbn [payload_plan app ops_on fpi_page_id].
    rewrite decide_True by done. eexists _, _. split; [reflexivity|].
    apply restore_image_overwrites; [apply wf_zeros|unfold in_u; simpl; lia].
  - left. exists 0%nat. simpl. unfold mp_page, mp_disk_page. simpl. unfold demo_torn.
    by rewrite lookup_empty, lookup_singleton_ne by done.
Qed.

Lemma demo_base_run : exists x c', replay_wal demo_wal 8 demo_extra (demo_ctx ∅) = (Ok x, c').
Proof.
  destruct (replay_wal demo_wal 8 demo_extra (demo_ctx ∅)) as [r c'] eqn:E.
  assert (H : res_is_ok (fst (replay_wal demo_wal 8 demo_extra (demo_ctx ∅))) = true) by (vm_compute; reflexivity).
  rewrite E in H. destruct r; [eauto|done..].
Qed.

Lemma redo_convergence_witness :
  exists y c' pool', replay_wal demo_wal 8 demo_extra (demo_ctx demo_torn) = (Ok y, c') /\ buffer_pool c' = Some pool' /\
    forall p, pool_disk pool' p = pool_page pool' p.
Proof.
  destruct demo_base_run as (x & c0 & Hrun).
  destruct (redo_convergence demo_wal 8 demo_log [] (demo_ctx ∅) (demo_ctx demo_torn) c0
              (mkMapPool ∅ ∅ []) (mkMapPool ∅ demo_torn []) x) as [Hc _].
  - unfold demo_wal. by rewrite app_nil_r.
  - by left.
  - apply demo_log_records.
  - repeat constructor; vm_compute; reflexivity.
  - vm_compute. repeat constructor; discriminate.
  - reflexivity.
  - exact Hrun.
  - reflexivity.
  - reflexivity.
  - reflexivity.
  - intros l xid s. eexists. reflexivity.
  - apply demo_recoverable.
  - destruct Hc as (y & c' & pool' & pool1 & H1 & _ & H2 & _ & H3). exists y, c', pool'.
    split; [exact H1|]. split; [exact H2|]. intros p. destruct (H3 p) as [-> ->]. reflexivity.
Defined.

(** Replay of the log of transaction 5 and of an unfinished transaction 6. *)
Definition demo_log2 : list WalRecord :=
  [logged_as (PHeapInsert (mkHeapInsertRecord 1 0 demo_tuple)) 5 8;
   logged_as (PHeapInsert (mkHeapInsertRecord 1 1 demo_tuple)) 6 16;
   logged_as (PTxnCommit (mkTxnCommitRecord 5)) 5 24].
Definition demo_wal2 (_ : Lsn) : res StorageError WalStream := Ok (Ok <$> demo_log2).
Definition no_vec {A : Type} (_ : list Z) : option A := None.
Definition demo_flush (w : LogWal) : res StorageError unit * LogWal := (Ok tt, w).
Definition demo_analysis : AnalysisResult := mkAnalysisResult 8 [6] [(1, 8)].

Lemma demo_recovery_run :
  exists r c', recover_phases sum32 no_vec no_vec no_vec demo_wal2 demo_flush 8 3 demo_extra [HeapUndoHandler]
                 (demo_ctx ∅) = (Ok r, c').
Proof.
  destruct (recover_phases _ _ _ _ _ _ _ _ _ _ _) as [r c'] eqn:E.
  assert (H : res_is_ok (fst (recover_phases sum32 no_vec no_vec no_vec demo_wal2 demo_flush 8 3 demo_extra
                                [HeapUndoHandler] (demo_ctx ∅))) = true) by (vm_compute; reflexivity).
  rewrite E in H. destruct r; [eauto|done..].
Qed.

Lemma recovery_outcomes_witness :
  exists r c', recover_phases sum32 no_vec no_vec no_vec demo_wal2 demo_flush 8 3 demo_extra [HeapUndoHandler]
                 (demo_ctx ∅) = (Ok r, c') /\
    (forall x, x ∈ recovered_att r <-> x = 6) /\ clog_view (ctx_clog c') 5 = Committed /\
    clog_view (ctx_clog c') 6 = Aborted /\ 6 < recovered_next_txn_id r.
Proof.
  destruct demo_recovery_run as (r & c' & Hrun). exists r, c'. split; [exact Hrun|].
  destruct (recovery_outcomes sum32 no_vec no_vec no_vec demo_wal2 demo_flush 8 3 demo_analysis demo_log2 []
              (mkMapPool ∅ ∅ []) (demo_ctx ∅) c' r) as (H1 & H2 & H3 & H4).
  - vm_compute. reflexivity.
  - constructor; [unfold valid_xid; lia|constructor].
  - unfold demo_wal2. by rewrite app_nil_r.
  - by left.
  - unfold demo_log2. apply Forall_cons_2, Forall_cons_2, Forall_cons_2, Forall_nil_2; intros y s Hy;
      vm_compute in Hy; try discriminate Hy.
    injection Hy as <- <-. unfold valid_xid. lia.
  - reflexivity.
  - exact I.
  - exact Hrun.
  - assert (Hatt : forall x, x ∈ recovered_att r <-> x = 6).
    { intros x. rewrite H3. change (att demo_analysis) with [6]. rewrite list_elem_of_singleton. split; [by intros [-> _]|]. intros ->. split; [done|].
      vm_compute. by intros [|]. }
    split; [exact Hatt|]. rewrite !H4 by (unfold valid_xid; lia).
    rewrite decide_False by (rewrite Hatt; lia). rewrite decide_True by (rewrite Hatt; lia).
    split; [vm_compute; reflexivity|]. split; [reflexivity|].
    set (last := logged_as (PHeapInsert (mkHeapInsertRecord 1 1 demo_tuple)) 6 16).
    assert (Hlast : wr_txn_id last = 6) by (vm_compute; reflexivity).
    rewrite <-Hlast. apply H2; [apply elem_of_cons; right; apply elem_of_cons; left; reflexivity|]. rewrite Hlast. lia.
Defined.
